(* ===== verification/_CoqProject ===== *)
-Q . S2P
Prelude.v
MetaData.v
MetaInv.v
MetaShards.v
MetaCodec.v
MetaStore.v
MetaFsm.v
MetaReplica.v
MetaProps.v
MetaClient.v
MetaClientProps.v
Binary.v
Tsm.v
TsmBool.v
TsmString.v
TsmInt.v
TsmTime.v
TsmFloat.v
TsmBlock.v
TsmProps.v
TsmWriteLock.v
HhQueue.v
HhSegment.v
HhSpec.v
HhProps.v
QlToken.v
QlExpr.v
QlExprProps.v
QlSelect.v
QlSelectProps.v
Escape.v
QlPrint.v
QlReader.v
QlScan.v
QlScanSpec.v
QlScanProps.v
QlUtf8.v
QlDuration.v
QlNumber.v
QlStmt.v
QlParse.v
QlParseSpec.v
QlParseStmt.v
QlParseSafe.v
QlParseTotal.v
QlParseView.v
QlRoundtrip.v
QlParseProps.v
QlRewrite.v
Strconv.v
TsdbMerge.v
TsdbIndex.v
TsdbIndexInv.v
TsdbWhere.v
TsdbWhereInv.v
TsdbTags.v
TsdbProps.v
TsdbTagProps.v
TsdbSelect.v
TsdbLock.v
Rows.v
MetaStmt.v
TsdbShow.v
TsdbQuery.v
TsdbQueryProps.v
Points.v
PointsSafe.v
PointsText.v
PointsRead.v
PointsProps.v
ClusterWrite.v
ClusterWriteProps.v
ClusterMap.v
HttpQuery.v
HttpProps.v
HhNode.v
HhNodeProps.v
Retention.v
ContQuery.v
ContQueryProps.v
