(* ===== verification/Prelude.v ===== *)
(** * A verification of InfluxDB

    The program is the time-series database of [src/influxdb/influxdb].  Writes
    and queries are routed by cluster metadata (package [meta]) that a Raft
    group replicates: which databases, retention policies, shard groups, shards
    and users exist, and which node owns which shard.  Queries are written in
    InfluxQL (package [influxql]) and arrive over HTTP ([services/httpd]); the
    query executor ([tsdb/query_executor.go]) passes statements about metadata to
    the metastore and plans the others with an index of the series a node stores
    ([tsdb/meta.go]).  The engine [tsdb/engine/tsm1] stores the points of
    a shard as compressed blocks.  Points are written as lines of text ([models]);
    the points writer ([cluster]) maps them to shards and sends them to the owners
    of each shard, and writes for a node that is down are kept in disk queues and
    sent later ([services/hh]).  Continuous queries are run, and expired data is
    removed, at intervals ([services/continuous_querier], [services/retention]).
    This library models the metadata with its
    replicated state machine, client methods and statements, InfluxQL with its
    scanner, parser and printer, the query executor from the HTTP handler to the
    mappers of shards, the series index with the statements that show and drop
    series, the block format with its encoders, points and their line protocol,
    the points writer, hinted handoff from a failed write to the disk queue and
    back, continuous queries and retention.

    ** Files

    - [Prelude]: outcomes of Go calls ([Ok], [Err], [Panic]), a monad of state and
      errors, Go times and durations, fixed-width integers, [sort.Sort] as the
      class [GoSort], list lemmas, tactics and the hint databases.
    - [MetaData]: [meta/data.go] and [meta/errors.go], the records and every
      lookup and mutation of [Data].  A field [F] of [RetentionPolicyInfo] has
      the type's prefix; a method [M] of [T] is [T_M].  Slices are lists; a
      pointer into a slice is an index.  Every error is returned before the first
      write, so an operation returns the new data, an error or a panic.
    - [MetaInv], [MetaShards]: the invariant [Data_wf] of the metadata and what
      [CreateShardGroup] builds.
    - [MetaCodec]: [clone], [marshal] and [unmarshal] of [meta/data.go].
    - [MetaStore]: [storeFSM] of [meta/store.go]: [Apply], the 22 command
      handlers, [Snapshot], [Persist] and [Restore].
    - [MetaFsm], [MetaReplica]: logs of commands, invariants of reachable states
      and replicas with different clocks.
    - [MetaProps]: the theorems about the metadata and the state machine.
    - [MetaClient], [MetaClientProps]: the methods of [Store], the reads with
      their retry, the writes through Raft on a leader, a follower or a node
      outside Raft ([meta/state.go], [meta/rpc.go]), and authentication.
    - [Binary]: what is used of [encoding/binary].
    - [Tsm]: the errors of [tsm1], the decoder interface and the third-party
      packages as classes.
    - [TsmBool], [TsmString], [TsmInt], [TsmTime], [TsmFloat]: the encoders and
      decoders of [bool.go], [string.go], [int.go], [timestamp.go], [float.go].
    - [TsmBlock]: values and blocks, [encoding.go].
    - [TsmProps]: the theorems about encoders and blocks.
    - [TsmWriteLock]: the range lock of [write_lock.go], with its theorems.
    - [HhQueue]: the disk queue of [services/hh/queue.go], with the directory, the
      segment files and the offsets of their handles as state.
    - [HhSegment], [HhSpec]: what the methods do to segment files, the
      specification of the queue and the relation between the two.
    - [HhProps]: the theorems about the disk queue.
    - [QlToken]: the tokens and keywords of [influxql/token.go].
    - [QlExpr]: the expressions of [influxql/ast.go]: cloning, evaluation,
      reduction, bounds on time.  Numbers are IEEE 754 binary64 ([spec_float]).
    - [QlSelect]: select statements: names, wildcards, grouping, limits on
      series, rewriting and validation.
    - [QlExprProps], [QlSelectProps]: the theorems about them.
    - [Escape]: [pkg/escape], with its theorems.
    - [QlPrint]: classes of characters, quoting, and the text of a source.
    - [QlReader]: the circular buffer that characters and tokens are unread with,
      and the rune reader.
    - [QlScan]: the scanner of [influxql/scanner.go] and its buffer of tokens.
    - [QlScanSpec], [QlScanProps]: the lexer on lists that the scanner refines,
      and the theorems about the scanner.
    - [QlUtf8]: the runes that [bufio.Reader] reads from a string.
    - [QlDuration]: [ParseDuration] and [FormatDuration], with their theorems.
    - [QlNumber]: reading and printing of numbers; the class [GoText] of what is
      used of packages [time], [fmt] and [regexp].
    - [QlStmt]: all statements of [influxql/ast.go] with their texts, the
      privileges they require and the texts of errors of validation.
    - [QlParse], [QlParseStmt]: the parser of [influxql/parser.go]: expressions,
      then clauses and statements.  A method is a function of the token buffer
      with the method's name; loops and recursion take fuel.
    - [QlParseSpec], [QlParseView]: the token buffer over the lexer of
      [QlScanSpec], and what is left to read of a text.
    - [QlParseSafe], [QlParseTotal]: a logic of how many characters a method
      reads, and that parsing ends.
    - [QlRoundtrip], [QlParseProps]: that printed expressions are parsed back,
      precedence, and the parser on some texts.
    - [QlRewrite]: [Rewrite], [SetTimeRange] and [Substatement] of
      [influxql/ast.go], with their theorems.
    - [Strconv]: what points use of package [strconv]: floats as text.
    - [TsdbMerge]: the loops over two sorted slices of [tsdb/meta.go], for a class
      [KeyOrder] of keys.
    - [TsdbIndex]: measurements, series and the index of a database.  Series point
      to their measurement, so measurements are objects in a store.
    - [TsdbIndexInv]: the invariant of the index and that operations keep it.
    - [TsdbWhere]: which series a [WHERE] clause selects, and with which filters.
    - [TsdbWhereInv]: what the split of a clause means.
    - [TsdbTags]: tag sets, measurements by tag, sources, and the statements
      [DROP SERIES] and [DROP MEASUREMENT] of [tsdb/query_executor.go].
    - [TsdbProps], [TsdbTagProps]: the theorems about the index.
    - [TsdbSelect]: fields, tags and wildcards of a statement, with theorems.
    - [TsdbLock]: the read-write lock of a measurement, with its theorems.
    - [Rows]: [models/rows.go], and the results of [influxql/result.go].
    - [MetaStmt]: [meta/statement_executor.go], on the client methods.
    - [TsdbShow]: [SHOW SERIES], [SHOW TAG VALUES], [SHOW FIELD KEYS].
    - [TsdbQuery]: [tsdb/query_executor.go] and [tsdb/into.go]: authorization,
      normalization, planning and execution.  Its state is the metastore, the
      indexes and the points written by [INTO].
    - [TsdbQueryProps]: privileges, and the shards of a plan.
    - [Points]: [models/points.go]: scanning and parsing of lines, keys, tags,
      fields, precision and printing.  A slice has the bytes up to its capacity,
      since slicing may reach them.
    - [PointsSafe]: a logic of outcomes that are no panic, and that parsing ends.
    - [PointsText], [PointsRead]: what the scanners, and [Name], [Tags] and
      [Fields], find in a text that was written.
    - [PointsProps]: points are read back, one or many, and where
      lines are not read as they are meant.
    - [ClusterWrite]: [cluster/points_writer.go] and [cluster/balancer.go].
      Goroutines, channels, time-outs and the answers of stores and nodes are
      events of a transition system; its state has the statistics too.
    - [ClusterWriteProps]: its invariants and theorems.
    - [ClusterMap]: what [MapShards] needs of the metastore as a class
      ([MetaPromises]), and that the leader of the metastore provides it.
    - [HttpQuery], [HttpProps]: the query endpoint of [services/httpd/handler.go],
      with the theorems about whole requests, also of what the points writer of the
      cluster does to the metastore ([writes_as_cluster]).
    - [HhNode], [HhNodeProps]: node processors, the rate limiter and the service
      of [services/hh], with their theorems.
    - [Retention]: the checks of [services/retention] and
      [services/precreator] on the client methods, with their theorems.
    - [ContQuery]: [services/continuous_querier]: the service with its last runs and
      the calls of the executor as state, and the goroutines of [Run] and of the
      background loop as a transition system.
    - [ContQueryProps]: the intervals a query is run for, against
      what the executor promises ([ExecutorPromises]); that the executor of
      [TsdbQuery] keeps it; and the lock.

    ** What the theorems show

    - Metadata (C1 to C3, C5 to C7, C9, C10, C18, C19): every log of commands
      keeps the invariant, which commands can panic, failed commands change
      nothing, placement and lookup of shard groups, node removal, privileges.
    - Replication and encoding (C4, C14): replicas with different clocks agree on
      all but deletion times; a snapshot restores the metadata but for its
      subscriptions, the Unix epoch and nil maps of privileges.
    - Retention (C30): exactly the shards of expired and deleted groups are removed.
    - Continuous queries (C32): a query that is due is executed for the interval of
      the present time and the earlier ones that are asked for, in order, each with
      exactly its times, when its condition is plain ([steady]).  C32 is about the service, the parser, [SetTimeRange] and
      what the executor leaves of a statement.
    - Blocks (C20, C21): each whole block gives the written values back, for every
      implementation of the third-party packages that keeps their laws; for
      integers exactly the series for which this is true.
    - Range lock (C35): exclusive when the calls' ranges differ.
    - Points (C34, C36): every text is parsed to an end without a panic when there
      is a byte of capacity behind it; a point that the line protocol can hold is
      printed and parsed back.
    - Points writer (C23, C25, C27, C37): a request that succeeds was acknowledged
      as its consistency level requires, what a shard returns is decided by the
      answers and not by their order, points are mapped to the shards of groups
      that cover their times as long as the duration of the groups is not changed,
      and every request returns once its calls are answered, without time-outs.
    - Hinted handoff (C22, C29): the disk queue refines a list of segments of
      non-empty blocks, and what a node acknowledges is what was handed off to it,
      in order, for points whose lines are read back.  C29 is about node processors,
      the disk queue and the line protocol together.
    - Scanner (C26): the scanner refines a lexer on lists.
    - Parser (C8, C15, C40): every text is parsed to an end without a panic,
      operators have their precedence and associate to the left, and printed
      expressions are parsed back.
    - Expressions and statements (C12, C13, C16, C17): reduction keeps the value
      of a condition, time bounds enclose what a conjunction allows, [SetTimeRange]
      gives a condition that is no disjunction exactly one interval, and three steps
      of planning do not panic on a parsed statement.
    - Series index (C11, C24, C31): every sequence of operations keeps the index
      consistent, a [WHERE] clause that does not mix tags and fields in an [OR] is
      split exactly, [DROP SERIES] drops exactly the
      series of a condition on tags.
    - Queries (C28, C33, C38, C39): a plan reaches every shard that can hold a
      point of the statement, every statement is answered in order, the handler
      keeps every value with its statement and series or panics, and once there is a
      user no request without an administrator's credentials changes users or
      databases.  C39 is about the handler, the parser, authorization, the executor,
      the points writer behind [INTO] and the metastore together.

    Theorems without a claim number are smaller facts, some of them about code
    that does not do what it means to: among them [DeleteNode_loses_last_copy],
    [RetentionPolicies_inverted], [LockRange_relocked_range_clash],
    [reopen_reorders_blocks], [Reduce_duration_division_panics],
    [LimitTagSets_offset_alone], [arithmetic_condition], [ParseDuration_wraps],
    [scanIdent_drops_prefix], [SetTimeRange_or_loses_range],
    [authorization_misses_databases], [unresolved_statement_panics],
    [late_error_lost], [remote_node_keeps_old_password],
    [DropSeries_or_drops_everything], [TagSets_deadlocks], [tags_left_unsorted],
    [empty_line_ends_parsing], [accepted_numbers_panic], [point_in_ended_group],
    [empty_block_misread], [purge_never_runs], [Close_deadlocks], [configured_limits_ignored],
    [Run_can_deadlock] with [stuck_forever], [same_name_never_run] and
    [executed_for_all_times].  Others
    say how parts that claims are about behave on their own:
    [time_encoder_roundtrip], [float_encoder_roundtrip], [quoting_roundtrip],
    [queue_delivers_in_order], [SeriesIDs_set_operations],
    [CreateShardGroupIfNotExists_idempotent], [UpdateRetentionPolicy_overlap],
    [snapshot_drops_subscriptions], [TimeRange_misreads], [Deduplicate_correct],
    [UpdateUser_checks_new_hash], [drained_head_blocks_queue],
    [PurgeOlderThan_loses_writes] and [FormatDuration_roundtrip].

    ** Third-party code

    Raft delivers commands one after another: a log is a list, and the answers
    of the network are arguments.  The other packages are classes with the laws
    their documentation gives, and each has an instance: [GoSort] (a sorted
    permutation, not necessarily stable), [Protobuf] (decoding inverts encoding),
    [Crypto] (bcrypt accepts the password that was hashed, and salts), [Simple8b],
    [Snappy], [Bits] (leading and trailing zeros), [Bitstream], and [Regexp],
    [GoText], [GoTime] and [RaftInfo], of which nothing is assumed.  Theorems hold
    for every instance; their witnesses use the given ones.  The mappers and
    executors of a plan and the writer of points that they call are classes too
    ([Backend], [Runner]): theorems name what they assume of them.  The orders in
    which Go visits maps, and the bytes behind what [append] returns, are the
    classes [PointMaps] and [WriteOrder], with the law that an order is one of the
    entries.  The answers of stores, nodes and timers to the points writer and to
    hinted handoff are events and arguments, any of which may be an error.  So are
    the answers of the executor and of the clock to continuous queries.  The
    store's deletion of raw data and lower-casing beyond ASCII are arguments.

    ** Bounds and fuel

    Integers have Go's widths, with the wrap-around written out.  IDs are
    [uint64]: C1 is about logs of at most 2^31 commands, a number no counter
    can overflow within, as each command creates at most as many shards as there
    are nodes; C31 is about fewer than 2^64 operations, each of which takes at
    most one series ID.  A varint takes at most 10 bytes.  The search for a divisor
    of the timestamps takes at most 13 steps, from 10^12 down.  The decoding loop
    of a block has one step more than the block has timestamps, and draining a
    decoder one more than the values written; the theorems say that what they
    return is the whole series.  [PurgeOlderThan] of the disk queue has one round
    per segment and one more, enough when the cutoff is not in the future.
    The loops of the scanner and of the parser take fuel, and two more than the
    length of the text is always enough (C26, C8).  The same holds of the loop over
    the lines of points (C34); [Fields] needs one round more than there are fields.
    The runs of a request to the points writer are bounded by [write_budget]
    (C37).  A time is the number of
    nanoseconds since Go's zero time.

    ** Not modelled

    Network, files and processes; the Raft library, its bootstrapping and
    membership changes; sharing of slices between metadata and its clone; the
    mappers and executors that run a planned query, with their cursors and
    functions; the tsm1 write-ahead log, data files, compaction and cursors; the
    older engines; JSON and the endpoints other than [/query]; input services; the
    network services of package [cluster]; log messages.  Of these the functions
    of aggregation and the parts of the tsm1 engine that are not input and output
    have logic of their own. *)

From stdpp Require Import base list gmap strings sorting.
From Stdlib Require Import ZArith Lia.

Local Open Scope Z_scope.

(** ** Outcomes of Go calls

    A Go call returns normally, returns a non-nil [error], or panics (nil
    dereference, index out of range, a negative [make]).  [E] is the type of
    errors of the component. *)

Inductive outcome (E A : Type) : Type :=
| Ok (a : A)
| Err (e : E)
| Panic.
Arguments Ok {E A} a.
Arguments Err {E A} e.
Arguments Panic {E A}.

Definition outcome_bind {E A B} (m : outcome E A) (k : A → outcome E B) : outcome E B :=
  match m with
  | Ok a => k a
  | Err e => Err e
  | Panic => Panic
  end.

Definition outcome_map {E A B} (f : A → B) (m : outcome E A) : outcome E B :=
  match m with
  | Ok a => Ok (f a)
  | Err e => Err e
  | Panic => Panic
  end.

Declare Scope go_scope.
Delimit Scope go_scope with go.
Notation "'let!' x ':=' m 'in' k" := (outcome_bind m (λ x, k))
  (at level 10, x pattern, m at level 200, k at level 200,
   format "'[v' 'let!'  x  ':='  m  'in' '/' k ']'") : go_scope.
Open Scope go_scope.

#[export] Instance outcome_eq_dec {E A} `{!EqDecision E, !EqDecision A} :
  EqDecision (outcome E A).
Proof. solve_decision. Defined.

(** ** State and errors

    Methods that change their receiver or the world behind it: the state is
    kept when an error is returned. *)

Definition ST (W E A : Type) : Type := W → W * outcome E A.

Section st.
Context {W E : Type}.

#[export] Instance ST_ret : MRet (ST W E) := λ A a w, (w, Ok a).
#[export] Instance ST_bind : MBind (ST W E) := λ A B k m w,
  match m w with
  | (w, Ok a) => k a w
  | (w, Err e) => (w, Err e)
  | (w, Panic) => (w, Panic)
  end.
Definition st_fail {A} (e : E) : ST W E A := λ w, (w, Err e).
Definition st_panic {A} : ST W E A := λ w, (w, Panic).
Definition st_get {A} (f : W → A) : ST W E A := λ w, (w, Ok (f w)).
Definition st_put (f : W → W) : ST W E unit := λ w, (f w, Ok tt).
(** [a, err := m]: the error is a value. *)
Definition st_try {A} (m : ST W E A) : ST W E (A + E) := λ w,
  match m w with
  | (w, Ok a) => (w, Ok (inl a))
  | (w, Err e) => (w, Ok (inr e))
  | (w, Panic) => (w, Panic)
  end.

(** A call whose outcome is known is run by rewriting. *)
Lemma st_bind_ok {A B} (m : ST W E A) (k : A → ST W E B) w w' a :
  m w = (w', Ok a) → (m ≫= k) w = k a w'.
Proof. intros H. unfold mbind, ST_bind. by rewrite H. Qed.
Lemma st_bind_err {A B} (m : ST W E A) (k : A → ST W E B) w w' e :
  m w = (w', Err e) → (m ≫= k) w = (w', Err e).
Proof. intros H. unfold mbind, ST_bind. by rewrite H. Qed.
Lemma st_bind_inv {A B} (m : ST W E A) (k : A → ST W E B) w w' b :
  (m ≫= k) w = (w', Ok b) → ∃ w1 a, m w = (w1, Ok a) ∧ k a w1 = (w', Ok b).
Proof. unfold mbind, ST_bind. destruct (m w) as [w1 [a|e|]]; [eauto|done..]. Qed.
Lemma st_try_ok {A} (m : ST W E A) w w' a : m w = (w', Ok a) → st_try m w = (w', Ok (inl a)).
Proof. intros H. unfold st_try. by rewrite H. Qed.
Lemma st_try_err {A} (m : ST W E A) w w' e : m w = (w', Err e) → st_try m w = (w', Ok (inr e)).
Proof. intros H. unfold st_try. by rewrite H. Qed.
End st.

(** ** Machine integers

    Go's sized integers are [Z] with the wrap-around written out. *)

Definition u8 (z : Z) : Z := z mod 2 ^ 8.
Definition u32 (z : Z) : Z := z mod 2 ^ 32.
Definition u64 (z : Z) : Z := z mod 2 ^ 64.
Definition i32 (z : Z) : Z := (z + 2 ^ 31) mod 2 ^ 32 - 2 ^ 31.
Definition i64 (z : Z) : Z := (z + 2 ^ 63) mod 2 ^ 64 - 2 ^ 63.

Definition is_u8 (z : Z) : Prop := 0 ≤ z < 2 ^ 8.
Definition is_u64 (z : Z) : Prop := 0 ≤ z < 2 ^ 64.
Definition is_i64 (z : Z) : Prop := - 2 ^ 63 ≤ z < 2 ^ 63.

(** ** [time.Time] and [time.Duration]

    A [Time] is the number of nanoseconds since the zero time (January 1 of
    year 1, UTC); a [Duration] is an [int64] number of nanoseconds. *)

Definition Time : Type := Z.
Definition Duration : Type := Z.

Definition Hour : Duration := 3600 * 1000000000.
Definition unixEpoch : Time := 62135596800 * 1000000000.

Definition Time_zero : Time := 0.
Definition Time_IsZero (t : Time) : bool := t =? 0.
Definition Time_After (t u : Time) : bool := u <? t.
Definition Time_Before (t u : Time) : bool := t <? u.
Definition Time_Add (t : Time) (d : Duration) : Time := t + d.
Definition Time_Truncate (t : Time) (d : Duration) : Time :=
  if d <=? 0 then t else t - t mod d.
Definition Time_Unix0 (ns : Z) : Time := unixEpoch + ns.
Definition Time_UnixNano (t : Time) : Z := i64 (t - unixEpoch).

(** ** Slices

    A Go slice is a list.  A pointer into a slice ([&xs[i]]) is the index [i];
    [append(xs[:i], xs[i+1:]...)] is [remove_at i xs]; the loop
    [for i := range xs { if p(xs[i]) { return &xs[i] } }] is stdpp's
    [list_find p xs], which gives the pointer and the element it points to. *)

Definition remove_at {A} (i : nat) (l : list A) : list A := take i l ++ drop (S i) l.

(** [sort.Sort]: documented to order the slice by [Less]; it reaches the
    elements through [Len], [Less] and [Swap] only, and is not stable. *)
Class GoSort := {
  sort_Sort : ∀ {A : Type}, (A → A → bool) → list A → list A;
  sort_perm : ∀ (A : Type) (less : A → A → bool) (l : list A), sort_Sort less l ≡ₚ l;
  sort_sorted : ∀ (A : Type) (less : A → A → bool) (key : A → Z) (l : list A),
    (∀ x y, less x y = (key x <? key y)) →
    StronglySorted (λ x y, key x ≤ key y) (sort_Sort less l);
  sort_natural : ∀ (A B : Type) (f : A → B) lessA lessB (l : list A),
    (∀ x y, lessB (f x) (f y) = lessA x y) →
    sort_Sort lessB (f <$> l) = f <$> sort_Sort lessA l
}.

(** Insertion sort, the algorithm Go's [sort.Sort] runs on short slices. *)
Fixpoint insert_by {A} (less : A → A → bool) (x : A) (l : list A) : list A :=
  match l with
  | [] => [x]
  | y :: l' => if less x y then x :: l else y :: insert_by less x l'
  end.

Definition insertion_sort {A} (less : A → A → bool) (l : list A) : list A :=
  foldl (λ acc x, insert_by less x acc) [] l.

(** ** Automation *)

Create HintDb influx.
Create Rewrite HintDb influx.

(** Split the [match]es and [if]s of a hypothesis or of the goal. *)
Ltac go_step :=
  match goal with
  | H : context [match ?x with _ => _ end] |- _ =>
      lazymatch x with context [match _ with _ => _ end] => fail | _ => idtac end;
      destruct x eqn:?; simplify_eq
  | |- context [match ?x with _ => _ end] =>
      lazymatch x with context [match _ with _ => _ end] => fail | _ => idtac end;
      destruct x eqn:?; simplify_eq
  end.
Ltac go_solve := repeat (go_step; try done).

(** Turn the facts of a [list_find] into lookups. *)
Ltac find_facts :=
  repeat match goal with
  | H : list_find _ _ = Some (_, _) |- _ => apply list_find_Some in H as (? & ? & ?)
  | H : list_find _ _ = None |- _ => apply list_find_None in H
  end.

(** ** Integers *)

Lemma u64_small z : is_u64 z → u64 z = z.
Proof. apply Z.mod_small. Qed.

Lemma u64_range z : is_u64 (u64 z).
Proof. apply Z.mod_pos_bound. lia. Qed.

Lemma u8_small z : is_u8 z → u8 z = z.
Proof. apply Z.mod_small. Qed.

Lemma u8_range z : is_u8 (u8 z).
Proof. apply Z.mod_pos_bound. lia. Qed.

Lemma i64_small z : is_i64 z → i64 z = z.
Proof. unfold i64, is_i64. intros. rewrite Z.mod_small; lia. Qed.

Lemma i64_range z : is_i64 (i64 z).
Proof. unfold i64, is_i64. pose proof (Z.mod_pos_bound (z + 2 ^ 63) (2 ^ 64)). lia. Qed.

Lemma i32_small z : - 2 ^ 31 ≤ z < 2 ^ 31 → i32 z = z.
Proof. unfold i32. intros. rewrite Z.mod_small; lia. Qed.

Lemma u64_i64 z : u64 (i64 z) = u64 z.
Proof.
  unfold u64, i64. rewrite Zminus_mod_idemp_l. f_equal. lia.
Qed.

Lemma i64_u64 z : i64 (u64 z) = i64 z.
Proof. unfold u64, i64. by rewrite Zplus_mod_idemp_l. Qed.

Lemma u64_add_l a b : u64 (u64 a + b) = u64 (a + b).
Proof. unfold u64. by rewrite Zplus_mod_idemp_l. Qed.

Lemma u64_add_r a b : u64 (a + u64 b) = u64 (a + b).
Proof. unfold u64. by rewrite Zplus_mod_idemp_r. Qed.

Lemma u64_sub_l a b : u64 (u64 a - b) = u64 (a - b).
Proof. unfold u64. by rewrite Zminus_mod_idemp_l. Qed.

Lemma u64_sub_r a b : u64 (a - u64 b) = u64 (a - b).
Proof. unfold u64. by rewrite Zminus_mod_idemp_r. Qed.

Lemma i64_add_l a b : i64 (i64 a + b) = i64 (a + b).
Proof.
  rewrite <- (i64_u64 (i64 a + b)), <- (i64_u64 (a + b)).
  by rewrite <- u64_add_l, u64_i64, u64_add_l.
Qed.

Lemma i64_add_r a b : i64 (a + i64 b) = i64 (a + b).
Proof. rewrite Z.add_comm, i64_add_l. f_equal. lia. Qed.

#[export] Hint Resolve u64_range u8_range i64_range : influx.
#[export] Hint Rewrite u64_i64 i64_u64 u64_add_l u64_add_r u64_sub_l u64_sub_r
  i64_add_l i64_add_r : influx.

(** ** Truncation of times *)

Lemma Time_Truncate_bounds t d :
  0 < d → Time_Truncate t d ≤ t < Time_Truncate t d + d.
Proof.
  intros Hd. unfold Time_Truncate. destruct (Z.leb_spec d 0); [lia|].
  pose proof (Z.mod_pos_bound t d). lia.
Qed.

Lemma Time_Truncate_aligned t d : 0 < d → Time_Truncate t d mod d = 0.
Proof.
  intros Hd. unfold Time_Truncate. destruct (Z.leb_spec d 0); [lia|].
  rewrite Zminus_mod_idemp_r, Z.sub_diag. apply Z.mod_0_l. lia.
Qed.

(** ** Slices *)

Lemma remove_at_delete {A} i (l : list A) : remove_at i l = delete i l.
Proof. symmetry. apply delete_take_drop. Qed.

Lemma remove_at_sublist {A} i (l : list A) : remove_at i l `sublist_of` l.
Proof. rewrite remove_at_delete. apply sublist_delete. Qed.

Lemma fmap_remove_at {A B} (f : A → B) i (l : list A) :
  f <$> remove_at i l = remove_at i (f <$> l).
Proof. unfold remove_at. by rewrite fmap_app, fmap_take, fmap_drop. Qed.

Lemma NoDup_fmap_remove_at {A B} (f : A → B) i (l : list A) :
  NoDup (f <$> l) → NoDup (f <$> remove_at i l).
Proof.
  intros H. rewrite fmap_remove_at. eapply sublist_NoDup; [exact H|].
  apply remove_at_sublist.
Qed.

Lemma elem_of_remove_at {A} (x : A) i (l : list A) : x ∈ remove_at i l → x ∈ l.
Proof. intros. eapply elem_of_sublist; [done|apply remove_at_sublist]. Qed.

Lemma Forall_remove_at {A} (P : A → Prop) i (l : list A) :
  Forall P l → Forall P (remove_at i l).
Proof. rewrite !Forall_forall. eauto using elem_of_remove_at. Qed.

(** Changing an element through a pointer does not change a projection that
    the change respects. *)
Lemma fmap_alter_same {A B} (f : A → B) (g : A → A) i (l : list A) :
  (∀ x, f (g x) = f x) → f <$> alter g i l = f <$> l.
Proof.
  intros H. revert i. induction l as [|x l IH]; intros [|i]; csimpl; [done..| |].
  - by rewrite H.
  - by rewrite IH.
Qed.

Lemma NoDup_fmap_alter {A B} (f : A → B) (g : A → A) i (l : list A) :
  (∀ x, f (g x) = f x) → NoDup (f <$> l) → NoDup (f <$> alter g i l).
Proof. intros. by rewrite fmap_alter_same. Qed.

Lemma elem_of_alter {A} (g : A → A) i (l : list A) y :
  y ∈ alter g i l → y ∈ l ∨ ∃ x, l !! i = Some x ∧ y = g x.
Proof.
  intros [j Hj]%list_elem_of_lookup. rewrite list_lookup_alter in Hj.
  destruct (decide (i = j)) as [->|].
  - destruct (l !! j) eqn:E; simplify_eq/=. right. eauto.
  - left. eapply list_elem_of_lookup. eauto.
Qed.

(** Appending a fresh key keeps the keys distinct. *)
Lemma NoDup_fmap_snoc {A B} (f : A → B) (l : list A) x :
  NoDup (f <$> l) → Forall (λ y, f y ≠ f x) l → NoDup (f <$> (l ++ [x])).
Proof.
  intros Hl Hx. rewrite fmap_app. apply NoDup_app. split_and!; [done| |apply NoDup_singleton].
  intros z (y & -> & Hy)%list_elem_of_fmap Hz%list_elem_of_singleton.
  rewrite Forall_forall in Hx. by eapply Hx.
Qed.

Lemma filter_all {A} (P : A → Prop) `{∀ x, Decision (P x)} (l : list A) :
  Forall P l → filter P l = l.
Proof. induction 1 as [|x l Hx _ IH]; [done|]. by rewrite filter_cons_True, IH. Qed.

Lemma Forall_filter {A} (P Q : A → Prop) `{∀ x, Decision (P x)} (l : list A) :
  Forall Q l → Forall Q (filter P l).
Proof. rewrite !Forall_forall. intros HQ x [_ ?]%list_elem_of_filter. auto. Qed.

Lemma NoDup_fmap_filter {A B} (f : A → B) (P : A → Prop) `{∀ x, Decision (P x)} (l : list A) :
  NoDup (f <$> l) → NoDup (f <$> filter P l).
Proof.
  induction l as [|x l IH]; [done|]. csimpl. intros [Hx Hl]%NoDup_cons.
  rewrite filter_cons. case_decide; [|auto]. csimpl. constructor; [|auto].
  intros (y & Hy & [_ Hin]%list_elem_of_filter)%list_elem_of_fmap.
  apply Hx. apply list_elem_of_fmap. eauto.
Qed.

Lemma Forall2_impl_elem {A B} (P Q : A → B → Prop) l k :
  Forall2 P l k → (∀ x y, x ∈ l → P x y → Q x y) → Forall2 Q l k.
Proof.
  induction 1 as [|x y l k Hxy _ IH]; intros HPQ; constructor; [apply HPQ; [by left|done]|].
  apply IH. intros x' y' Hin. apply HPQ. by right.
Qed.

Lemma fmap_bind {A B C} (f : B → C) (g : A → list B) (l : list A) :
  f <$> (l ≫= g) = l ≫= (λ x, f <$> g x).
Proof. induction l as [|x l IH]; csimpl; [done|]. by rewrite fmap_app, IH. Qed.

(** With distinct keys a lookup by key finds the element that has it. *)
Lemma list_find_key {A K} `{EqDecision K} (f : A → K) (l : list A) i x :
  NoDup (f <$> l) → l !! i = Some x → list_find (λ y, f y = f x) l = Some (i, x).
Proof.
  intros Hnd Hi. apply list_find_Some. split_and!; [done..|].
  intros j y Hj Hji Hy. assert (j = i); [|lia].
  eapply (NoDup_lookup _ _ _ (f x)); [exact Hnd| |].
  - rewrite list_lookup_fmap, Hj. simpl. by f_equal.
  - by rewrite list_lookup_fmap, Hi.
Qed.

Lemma list_find_key_None {A K} `{EqDecision K} (f : A → K) (l : list A) k :
  list_find (λ y, f y = k) l = None ↔ k ∉ f <$> l.
Proof.
  rewrite list_find_None, Forall_forall, list_elem_of_fmap.
  split; [intros H (x & -> & Hx); by eapply H|]. intros H x Hx Hk. simpl in Hk. eauto.
Qed.

(** After the removal of the element with a key, no element has the key. *)
Lemma remove_at_key {A K} (f : A → K) (l : list A) i x :
  NoDup (f <$> l) → l !! i = Some x → f x ∉ f <$> remove_at i l.
Proof.
  intros Hnd Hi. rewrite fmap_remove_at. unfold remove_at.
  rewrite <- (take_drop_middle (f <$> l) i (f x)) in Hnd
    by by rewrite list_lookup_fmap, Hi.
  apply NoDup_app in Hnd as (_ & H1 & [H2 _]%NoDup_cons).
  intros [Hx|Hx]%elem_of_app; [|done]. apply (H1 _ Hx). by left.
Qed.

(** ** Sorting *)

Lemma insert_by_perm {A} (less : A → A → bool) x (l : list A) :
  insert_by less x l ≡ₚ x :: l.
Proof.
  induction l as [|y l IH]; simpl; [done|]. destruct (less x y); [done|].
  rewrite IH. apply Permutation_swap.
Qed.

Lemma foldl_insert_perm {A} (less : A → A → bool) (l acc : list A) :
  foldl (λ acc x, insert_by less x acc) acc l ≡ₚ acc ++ l.
Proof.
  revert acc. induction l as [|x l IH]; intros acc; simpl; [by rewrite app_nil_r|].
  rewrite IH, insert_by_perm. by rewrite <- Permutation_middle.
Qed.

Lemma insert_by_sorted {A} (less : A → A → bool) (key : A → Z) x (l : list A) :
  (∀ x y, less x y = (key x <? key y)) →
  StronglySorted (λ x y, key x ≤ key y) l →
  StronglySorted (λ x y, key x ≤ key y) (insert_by less x l).
Proof.
  intros Hless. induction 1 as [|y l Hl IH Hy]; simpl; [by repeat constructor|].
  rewrite Hless. destruct (Z.ltb_spec (key x) (key y)).
  - constructor; [by constructor|]. constructor; [lia|].
    eapply Forall_impl; [exact Hy|]. simpl. intros. lia.
  - constructor; [done|]. rewrite insert_by_perm. constructor; [lia|done].
Qed.

Lemma foldl_insert_sorted {A} (less : A → A → bool) (key : A → Z) (l acc : list A) :
  (∀ x y, less x y = (key x <? key y)) →
  StronglySorted (λ x y, key x ≤ key y) acc →
  StronglySorted (λ x y, key x ≤ key y) (foldl (λ acc x, insert_by less x acc) acc l).
Proof.
  intros Hless. revert acc. induction l as [|x l IH]; intros acc Hacc; simpl; [done|].
  by apply IH, insert_by_sorted.
Qed.

Lemma insert_by_natural {A B} (f : A → B) lessA lessB x (l : list A) :
  (∀ x y, lessB (f x) (f y) = lessA x y) →
  insert_by lessB (f x) (f <$> l) = f <$> insert_by lessA x l.
Proof.
  intros H. induction l as [|y l IH]; csimpl; [done|].
  rewrite H, IH. by destruct (lessA x y).
Qed.

Lemma foldl_insert_natural {A B} (f : A → B) lessA lessB (l acc : list A) :
  (∀ x y, lessB (f x) (f y) = lessA x y) →
  foldl (λ acc x, insert_by lessB x acc) (f <$> acc) (f <$> l) =
  f <$> foldl (λ acc x, insert_by lessA x acc) acc l.
Proof.
  intros H. revert acc. induction l as [|x l IH]; intros acc; csimpl; [done|].
  by rewrite insert_by_natural with (lessA := lessA), IH.
Qed.

(** Insertion sort keeps the promise of [sort.Sort]. *)
#[export] Program Instance insertion_GoSort : GoSort := {|
  sort_Sort A := insertion_sort
|}.
Next Obligation. intros. apply (foldl_insert_perm less l []). Qed.
Next Obligation. intros. apply foldl_insert_sorted; [done|constructor]. Qed.
Next Obligation. intros. by apply (foldl_insert_natural f lessA lessB l []). Qed.
