(* ===== verification/MetaData.v ===== *)
(** * The cluster metadata: [meta/data.go] and [meta/errors.go]

    The records of the metadata tree (nodes, databases, retention policies,
    shard groups, shards, users), the lookups and the mutations of [Data].
    A mutation is a function from the data to an [outcome]: every error is
    returned before the first write, so an [Err] leaves the receiver as it
    was. *)

From stdpp Require Import base list gmap strings sorting.
From Stdlib Require Import ZArith Lia.
From S2P Require Import Prelude.

Local Open Scope Z_scope.

(** ** Errors *)

Inductive MetaError : Set :=
| ErrStoreOpen | ErrStoreClosed | ErrTooManyPeers
| ErrNodeExists | ErrNodeNotFound | ErrNodesRequired | ErrNodeIDRequired
| ErrNodeUnableToDropFinalNode
| ErrDatabaseExists | ErrDatabaseNotFound | ErrDatabaseNameRequired
| ErrRetentionPolicyExists | ErrRetentionPolicyDefault | ErrRetentionPolicyNotFound
| ErrRetentionPolicyNameRequired | ErrRetentionPolicyNameExists
| ErrRetentionPolicyDurationTooLow | ErrReplicationFactorTooLow
| ErrShardGroupExists | ErrShardGroupNotFound | ErrShardNotReplicated
| ErrContinuousQueryExists | ErrContinuousQueryNotFound
| ErrSubscriptionExists | ErrSubscriptionNotFound
| ErrUserExists | ErrUserNotFound | ErrUsernameRequired.

#[export] Instance MetaError_eq_dec : EqDecision MetaError.
Proof. solve_decision. Defined.

(** The text of an error; [errLookup] maps the text back to the value. *)
Definition MetaError_Error (e : MetaError) : string :=
  match e with
  | ErrStoreOpen => "store already open"
  | ErrStoreClosed => "raft store already closed"
  | ErrTooManyPeers => "too many peers; influxdb v0.9.0 is limited to 3 nodes in a cluster"
  | ErrNodeExists => "node already exists"
  | ErrNodeNotFound => "node not found"
  | ErrNodesRequired => "at least one node required"
  | ErrNodeIDRequired => "node id must be greater than 0"
  | ErrNodeUnableToDropFinalNode => "unable to drop the final node in a cluster"
  | ErrDatabaseExists => "database already exists"
  | ErrDatabaseNotFound => "database not found"
  | ErrDatabaseNameRequired => "database name required"
  | ErrRetentionPolicyExists => "retention policy already exists"
  | ErrRetentionPolicyDefault => "retention policy is default"
  | ErrRetentionPolicyNotFound => "retention policy not found"
  | ErrRetentionPolicyNameRequired => "retention policy name required"
  | ErrRetentionPolicyNameExists => "retention policy name already exists"
  | ErrRetentionPolicyDurationTooLow => "retention policy duration must be at least 1h0m0s"
  | ErrReplicationFactorTooLow => "replication factor must be greater than 0"
  | ErrShardGroupExists => "shard group already exists"
  | ErrShardGroupNotFound => "shard group not found"
  | ErrShardNotReplicated => "shard not replicated"
  | ErrContinuousQueryExists => "continuous query already exists"
  | ErrContinuousQueryNotFound => "continuous query not found"
  | ErrSubscriptionExists => "subscription already exists"
  | ErrSubscriptionNotFound => "subscription not found"
  | ErrUserExists => "user already exists"
  | ErrUserNotFound => "user not found"
  | ErrUsernameRequired => "username required"
  end.

Definition all_MetaErrors : list MetaError :=
  [ ErrStoreOpen; ErrStoreClosed; ErrTooManyPeers;
    ErrNodeExists; ErrNodeNotFound; ErrNodesRequired; ErrNodeIDRequired;
    ErrNodeUnableToDropFinalNode;
    ErrDatabaseExists; ErrDatabaseNotFound; ErrDatabaseNameRequired;
    ErrRetentionPolicyExists; ErrRetentionPolicyDefault; ErrRetentionPolicyNotFound;
    ErrRetentionPolicyNameRequired; ErrRetentionPolicyNameExists;
    ErrRetentionPolicyDurationTooLow; ErrReplicationFactorTooLow;
    ErrShardGroupExists; ErrShardGroupNotFound; ErrShardNotReplicated;
    ErrContinuousQueryExists; ErrContinuousQueryNotFound;
    ErrSubscriptionExists; ErrSubscriptionNotFound;
    ErrUserExists; ErrUserNotFound; ErrUsernameRequired ].

(** [errLookup]: filled by [newError], in the order of the declarations. *)
Definition errLookup : gmap string MetaError :=
  foldl (λ m e, <[MetaError_Error e := e]> m) ∅ all_MetaErrors.

(** An [error] received over the wire is either a known error value or an
    unknown one, of which only the text is known. *)
Inductive GoError : Set :=
| KnownError (e : MetaError)
| OtherError (text : string).

Definition GoError_Error (e : GoError) : string :=
  match e with KnownError e => MetaError_Error e | OtherError t => t end.

Definition lookupError (err : GoError) : GoError :=
  match errLookup !! GoError_Error err with
  | Some e => KnownError e
  | None => err
  end.

(** ** Constants *)

Definition DefaultRetentionPolicyReplicaN : Z := 1.
Definition DefaultRetentionPolicyDuration : Duration := 7 * (24 * Hour).
Definition MinRetentionPolicyDuration : Duration := Hour.

(** [influxql.Privilege] is an [int] with four named values. *)
Definition NoPrivileges : Z := 0.
Definition ReadPrivilege : Z := 1.
Definition WritePrivilege : Z := 2.
Definition AllPrivileges : Z := 3.

(** ** The data model *)

Record NodeInfo := mkNodeInfo { ni_ID : Z; ni_Host : string }.

Record ShardOwner := mkShardOwner { so_NodeID : Z }.

Record ShardInfo := mkShardInfo { si_ID : Z; si_Owners : list ShardOwner }.

Record ShardGroupInfo := mkShardGroupInfo {
  sgi_ID : Z;
  sgi_StartTime : Time;
  sgi_EndTime : Time;
  sgi_DeletedAt : Time;
  sgi_Shards : list ShardInfo
}.

Record SubscriptionInfo := mkSubscriptionInfo {
  sub_Name : string;
  sub_Mode : string;
  sub_Destinations : list string
}.

Record RetentionPolicyInfo := mkRetentionPolicyInfo {
  rpi_Name : string;
  rpi_ReplicaN : Z;
  rpi_Duration : Duration;
  rpi_ShardGroupDuration : Duration;
  rpi_ShardGroups : list ShardGroupInfo;
  rpi_Subscriptions : list SubscriptionInfo
}.

Record ContinuousQueryInfo := mkContinuousQueryInfo { cqi_Name : string; cqi_Query : string }.

Record DatabaseInfo := mkDatabaseInfo {
  di_Name : string;
  di_DefaultRetentionPolicy : string;
  di_RetentionPolicies : list RetentionPolicyInfo;
  di_ContinuousQueries : list ContinuousQueryInfo
}.

(** [Privileges] is a Go map, [None] when it is nil. *)
Record UserInfo := mkUserInfo {
  ui_Name : string;
  ui_Hash : string;
  ui_Admin : bool;
  ui_Privileges : option (gmap string Z)
}.

Record Data := mkData {
  Term : Z;
  Index : Z;
  ClusterID : Z;
  Nodes : list NodeInfo;
  Databases : list DatabaseInfo;
  Users : list UserInfo;
  MaxNodeID : Z;
  MaxShardGroupID : Z;
  MaxShardID : Z
}.

Record RetentionPolicyUpdate := mkRetentionPolicyUpdate {
  rpu_Name : option string;
  rpu_Duration : option Duration;
  rpu_ReplicaN : option Z
}.

(** The zero value [Data{}]. *)
Definition Data_zero : Data := mkData 0 0 0 [] [] [] 0 0 0.

#[export] Instance NodeInfo_eq_dec : EqDecision NodeInfo.
Proof. solve_decision. Defined.
#[export] Instance ShardOwner_eq_dec : EqDecision ShardOwner.
Proof. solve_decision. Defined.
#[export] Instance ShardInfo_eq_dec : EqDecision ShardInfo.
Proof. solve_decision. Defined.
#[export] Instance ShardGroupInfo_eq_dec : EqDecision ShardGroupInfo.
Proof. solve_decision. Defined.
#[export] Instance SubscriptionInfo_eq_dec : EqDecision SubscriptionInfo.
Proof. solve_decision. Defined.
#[export] Instance RetentionPolicyInfo_eq_dec : EqDecision RetentionPolicyInfo.
Proof. solve_decision. Defined.
#[export] Instance ContinuousQueryInfo_eq_dec : EqDecision ContinuousQueryInfo.
Proof. solve_decision. Defined.
#[export] Instance DatabaseInfo_eq_dec : EqDecision DatabaseInfo.
Proof. solve_decision. Defined.
#[export] Instance UserInfo_eq_dec : EqDecision UserInfo.
Proof. solve_decision. Defined.
#[export] Instance Data_eq_dec : EqDecision Data.
Proof. solve_decision. Defined.

(** *** Assignments to one field *)

Definition set_Nodes (v : list NodeInfo) (d : Data) : Data :=
  mkData (Term d) (Index d) (ClusterID d) v (Databases d) (Users d)
    (MaxNodeID d) (MaxShardGroupID d) (MaxShardID d).
Definition set_Databases (v : list DatabaseInfo) (d : Data) : Data :=
  mkData (Term d) (Index d) (ClusterID d) (Nodes d) v (Users d)
    (MaxNodeID d) (MaxShardGroupID d) (MaxShardID d).
Definition set_Users (v : list UserInfo) (d : Data) : Data :=
  mkData (Term d) (Index d) (ClusterID d) (Nodes d) (Databases d) v
    (MaxNodeID d) (MaxShardGroupID d) (MaxShardID d).
Definition set_MaxNodeID (v : Z) (d : Data) : Data :=
  mkData (Term d) (Index d) (ClusterID d) (Nodes d) (Databases d) (Users d)
    v (MaxShardGroupID d) (MaxShardID d).
Definition set_MaxShardGroupID (v : Z) (d : Data) : Data :=
  mkData (Term d) (Index d) (ClusterID d) (Nodes d) (Databases d) (Users d)
    (MaxNodeID d) v (MaxShardID d).
Definition set_MaxShardID (v : Z) (d : Data) : Data :=
  mkData (Term d) (Index d) (ClusterID d) (Nodes d) (Databases d) (Users d)
    (MaxNodeID d) (MaxShardGroupID d) v.
Definition set_ClusterID (v : Z) (d : Data) : Data :=
  mkData (Term d) (Index d) v (Nodes d) (Databases d) (Users d)
    (MaxNodeID d) (MaxShardGroupID d) (MaxShardID d).
Definition set_TermIndex (t i : Z) (d : Data) : Data :=
  mkData t i (ClusterID d) (Nodes d) (Databases d) (Users d)
    (MaxNodeID d) (MaxShardGroupID d) (MaxShardID d).

Definition set_ni_Host (v : string) (ni : NodeInfo) : NodeInfo := mkNodeInfo (ni_ID ni) v.

Definition set_di_RetentionPolicies (v : list RetentionPolicyInfo) (di : DatabaseInfo) :=
  mkDatabaseInfo (di_Name di) (di_DefaultRetentionPolicy di) v (di_ContinuousQueries di).
Definition set_di_DefaultRetentionPolicy (v : string) (di : DatabaseInfo) :=
  mkDatabaseInfo (di_Name di) v (di_RetentionPolicies di) (di_ContinuousQueries di).
Definition set_di_ContinuousQueries (v : list ContinuousQueryInfo) (di : DatabaseInfo) :=
  mkDatabaseInfo (di_Name di) (di_DefaultRetentionPolicy di) (di_RetentionPolicies di) v.

Definition set_rpi_Name (v : string) (r : RetentionPolicyInfo) :=
  mkRetentionPolicyInfo v (rpi_ReplicaN r) (rpi_Duration r) (rpi_ShardGroupDuration r)
    (rpi_ShardGroups r) (rpi_Subscriptions r).
Definition set_rpi_ReplicaN (v : Z) (r : RetentionPolicyInfo) :=
  mkRetentionPolicyInfo (rpi_Name r) v (rpi_Duration r) (rpi_ShardGroupDuration r)
    (rpi_ShardGroups r) (rpi_Subscriptions r).
Definition set_rpi_Durations (v w : Duration) (r : RetentionPolicyInfo) :=
  mkRetentionPolicyInfo (rpi_Name r) (rpi_ReplicaN r) v w
    (rpi_ShardGroups r) (rpi_Subscriptions r).
Definition set_rpi_ShardGroups (v : list ShardGroupInfo) (r : RetentionPolicyInfo) :=
  mkRetentionPolicyInfo (rpi_Name r) (rpi_ReplicaN r) (rpi_Duration r)
    (rpi_ShardGroupDuration r) v (rpi_Subscriptions r).
Definition set_rpi_Subscriptions (v : list SubscriptionInfo) (r : RetentionPolicyInfo) :=
  mkRetentionPolicyInfo (rpi_Name r) (rpi_ReplicaN r) (rpi_Duration r)
    (rpi_ShardGroupDuration r) (rpi_ShardGroups r) v.

Definition set_sgi_DeletedAt (v : Time) (g : ShardGroupInfo) :=
  mkShardGroupInfo (sgi_ID g) (sgi_StartTime g) (sgi_EndTime g) v (sgi_Shards g).
Definition set_sgi_Shards (v : list ShardInfo) (g : ShardGroupInfo) :=
  mkShardGroupInfo (sgi_ID g) (sgi_StartTime g) (sgi_EndTime g) (sgi_DeletedAt g) v.
Definition set_si_Owners (v : list ShardOwner) (s : ShardInfo) := mkShardInfo (si_ID s) v.

Definition set_ui_Hash (v : string) (u : UserInfo) :=
  mkUserInfo (ui_Name u) v (ui_Admin u) (ui_Privileges u).
Definition set_ui_Admin (v : bool) (u : UserInfo) :=
  mkUserInfo (ui_Name u) (ui_Hash u) v (ui_Privileges u).
Definition set_ui_Privileges (v : option (gmap string Z)) (u : UserInfo) :=
  mkUserInfo (ui_Name u) (ui_Hash u) (ui_Admin u) v.

(** *** Writes through a pointer into [data.Databases], into the retention
    policies of a database and into [data.Users] *)

Definition at_db (i : nat) (f : DatabaseInfo → DatabaseInfo) (d : Data) : Data :=
  set_Databases (alter f i (Databases d)) d.
Definition at_rp (p : nat * nat) (f : RetentionPolicyInfo → RetentionPolicyInfo) (d : Data) : Data :=
  at_db p.1 (λ di, set_di_RetentionPolicies (alter f p.2 (di_RetentionPolicies di)) di) d.
Definition at_user (i : nat) (f : UserInfo → UserInfo) (d : Data) : Data :=
  set_Users (alter f i (Users d)) d.

(** ** Shards and shard groups *)

Definition ShardInfo_OwnedBy (si : ShardInfo) (nodeID : Z) : bool :=
  existsb (λ so, so_NodeID so =? nodeID) (si_Owners si).

Definition ShardGroupInfo_Less (a b : ShardGroupInfo) : bool :=
  Time_Before (sgi_StartTime a) (sgi_StartTime b).

Definition ShardGroupInfo_Contains (g : ShardGroupInfo) (timestamp : Time) : bool :=
  negb (Time_After (sgi_StartTime g) timestamp) && Time_After (sgi_EndTime g) timestamp.

Definition ShardGroupInfo_Overlaps (g : ShardGroupInfo) (min max : Time) : bool :=
  negb (Time_After (sgi_StartTime g) max) && Time_After (sgi_EndTime g) min.

Definition ShardGroupInfo_Deleted (g : ShardGroupInfo) : bool :=
  negb (Time_IsZero (sgi_DeletedAt g)).

(** [sgi.Shards[hash % uint64(len(sgi.Shards))]]: a division by zero when the
    group has no shard. *)
Definition ShardGroupInfo_ShardFor (g : ShardGroupInfo) (hash : Z) : outcome MetaError ShardInfo :=
  if decide (sgi_Shards g = []) then Panic
  else match sgi_Shards g !! Z.to_nat (hash mod Z.of_nat (length (sgi_Shards g))) with
       | Some s => Ok s
       | None => Panic
       end.

(** ** Retention policies *)

Definition NewRetentionPolicyInfo (name : string) : RetentionPolicyInfo :=
  mkRetentionPolicyInfo name DefaultRetentionPolicyReplicaN DefaultRetentionPolicyDuration 0 [] [].

Definition shardGroupDuration (d : Duration) : Duration :=
  if (180 * 24 * Hour <=? d) || (d =? 0) then 7 * 24 * Hour
  else if 2 * 24 * Hour <=? d then 1 * 24 * Hour
  else 1 * Hour.

Definition RetentionPolicyInfo_ShardGroupByTimestamp
    (rpi : RetentionPolicyInfo) (timestamp : Time) : option (nat * ShardGroupInfo) :=
  list_find (λ g, ShardGroupInfo_Contains g timestamp && negb (ShardGroupInfo_Deleted g))
    (rpi_ShardGroups rpi).

Definition RetentionPolicyInfo_ExpiredShardGroups (rpi : RetentionPolicyInfo) (t : Time)
    : list ShardGroupInfo :=
  filter (λ g, negb (ShardGroupInfo_Deleted g)
               && (negb (rpi_Duration rpi =? 0)
                   && Time_Before (Time_Add (sgi_EndTime g) (rpi_Duration rpi)) t))
    (rpi_ShardGroups rpi).

Definition RetentionPolicyInfo_DeletedShardGroups (rpi : RetentionPolicyInfo) : list ShardGroupInfo :=
  filter (λ g, ShardGroupInfo_Deleted g) (rpi_ShardGroups rpi).

(** ** Databases *)

Definition DatabaseInfo_RetentionPolicy (di : DatabaseInfo) (name : string)
    : option (nat * RetentionPolicyInfo) :=
  list_find (λ r, rpi_Name r = name) (di_RetentionPolicies di).

(** The shards are collected in a Go map keyed by their ID; the order of the
    result is the unspecified iteration order of that map. *)
Definition DatabaseInfo_ShardInfos (di : DatabaseInfo) : list ShardInfo :=
  let shards :=
    foldl (λ m si, <[si_ID si := si]> m) (∅ : gmap Z ShardInfo)
      (rpi ← di_RetentionPolicies di;
       g ← filter (λ g, negb (ShardGroupInfo_Deleted g)) (rpi_ShardGroups rpi);
       sgi_Shards g) in
  snd <$> map_to_list shards.

(** ** Users *)

Definition UserInfo_privs (ui : UserInfo) : gmap string Z := default ∅ (ui_Privileges ui).

Definition UserInfo_Authorize (ui : UserInfo) (privilege : Z) (database : string) : bool :=
  if ui_Admin ui then true
  else match UserInfo_privs ui !! database with
       | Some p => (p =? privilege) || (p =? AllPrivileges)
       | None => false
       end.

(** ** Lookups of [Data] *)

Definition Data_Node (d : Data) (id : Z) : option (nat * NodeInfo) :=
  list_find (λ n, ni_ID n = id) (Nodes d).

Definition Data_NodeByHost (d : Data) (host : string) : option (nat * NodeInfo) :=
  list_find (λ n, ni_Host n = host) (Nodes d).

Definition Data_Database (d : Data) (name : string) : option (nat * DatabaseInfo) :=
  list_find (λ di, di_Name di = name) (Databases d).

(** The pointer is a pair: the database and the policy in it. *)
Definition Data_RetentionPolicy (d : Data) (database name : string)
    : outcome MetaError (option ((nat * nat) * RetentionPolicyInfo)) :=
  match Data_Database d database with
  | None => Err ErrDatabaseNotFound
  | Some (i, di) =>
      match list_find (λ r, rpi_Name r = name) (di_RetentionPolicies di) with
      | Some (j, rpi) => Ok (Some ((i, j), rpi))
      | None => Ok None
      end
  end.

(** The prologue most operations share: find the policy or return
    [ErrRetentionPolicyNotFound]. *)
Definition Data_MustRetentionPolicy (d : Data) (database name : string)
    : outcome MetaError ((nat * nat) * RetentionPolicyInfo) :=
  let! r := Data_RetentionPolicy d database name in
  match r with
  | None => Err ErrRetentionPolicyNotFound
  | Some pr => Ok pr
  end.

Definition Data_ShardGroups (d : Data) (database policy : string)
    : outcome MetaError (list ShardGroupInfo) :=
  let! (_, rpi) := Data_MustRetentionPolicy d database policy in
  Ok (filter (λ g, negb (ShardGroupInfo_Deleted g)) (rpi_ShardGroups rpi)).

Definition Data_ShardGroupsByTimeRange (d : Data) (database policy : string) (tmin tmax : Time)
    : outcome MetaError (list ShardGroupInfo) :=
  let! (_, rpi) := Data_MustRetentionPolicy d database policy in
  Ok (filter (λ g, negb (ShardGroupInfo_Deleted g || negb (ShardGroupInfo_Overlaps g tmin tmax)))
        (rpi_ShardGroups rpi)).

Definition Data_ShardGroupByTimestamp (d : Data) (database policy : string) (timestamp : Time)
    : outcome MetaError (option (nat * ShardGroupInfo)) :=
  let! (_, rpi) := Data_MustRetentionPolicy d database policy in
  Ok (RetentionPolicyInfo_ShardGroupByTimestamp rpi timestamp).

Definition Data_User (d : Data) (username : string) : option (nat * UserInfo) :=
  list_find (λ u, ui_Name u = username) (Users d).

Definition Data_UserPrivileges (d : Data) (name : string)
    : outcome MetaError (option (gmap string Z)) :=
  match Data_User d name with
  | None => Err ErrUserNotFound
  | Some (_, ui) => Ok (ui_Privileges ui)
  end.

Definition Data_UserPrivilege (d : Data) (name database : string) : outcome MetaError Z :=
  match Data_User d name with
  | None => Err ErrUserNotFound
  | Some (_, ui) => Ok (default NoPrivileges (UserInfo_privs ui !! database))
  end.

(** ** Nodes *)

Definition Data_CreateNode (d : Data) (host : string) : outcome MetaError Data :=
  match Data_NodeByHost d host with
  | Some _ => Err ErrNodeExists
  | None =>
      let d := set_MaxNodeID (u64 (MaxNodeID d + 1)) d in
      Ok (set_Nodes (Nodes d ++ [mkNodeInfo (MaxNodeID d) host]) d)
  end.

(** The shard that has its only copy on the node, in a policy that does not
    replicate. *)
Definition sole_owner (id : Z) (s : ShardInfo) : bool :=
  ShardInfo_OwnedBy s id && (Z.of_nat (length (si_Owners s)) =? 1).

Definition has_unreplicated (id : Z) (d : Data) : bool :=
  existsb (λ di,
    existsb (λ rp,
      if 1 <? rpi_ReplicaN rp then false
      else existsb (λ sg, existsb (sole_owner id) (sgi_Shards sg)) (rpi_ShardGroups rp))
      (di_RetentionPolicies di))
    (Databases d).

Definition drop_owner (id : Z) (s : ShardInfo) : ShardInfo :=
  if ShardInfo_OwnedBy s id
  then set_si_Owners (filter (λ o, so_NodeID o ≠ id) (si_Owners s)) s
  else s.

Definition map_shards (f : ShardInfo → ShardInfo) (di : DatabaseInfo) : DatabaseInfo :=
  set_di_RetentionPolicies
    ((λ rp, set_rpi_ShardGroups
       ((λ sg, set_sgi_Shards (f <$> sgi_Shards sg) sg) <$> rpi_ShardGroups rp) rp)
     <$> di_RetentionPolicies di) di.

Definition Data_DeleteNode (d : Data) (id : Z) (force : bool) : outcome MetaError Data :=
  if id =? 0 then Err ErrNodeIDRequired
  else match Data_Node d id with
  | None => Err ErrNodeNotFound
  | Some _ =>
      if Z.of_nat (length (Nodes d)) =? 1 then Err ErrNodeUnableToDropFinalNode
      else if negb force && has_unreplicated id d then Err ErrShardNotReplicated
      else
        let d := set_Databases (map_shards (drop_owner id) <$> Databases d) d in
        Ok (set_Nodes (filter (λ n, ni_ID n ≠ id) (Nodes d)) d)
  end.

(** ** Databases *)

Definition Data_CreateDatabase (d : Data) (name : string) : outcome MetaError Data :=
  if decide (name = "") then Err ErrDatabaseNameRequired
  else match Data_Database d name with
  | Some _ => Err ErrDatabaseExists
  | None => Ok (set_Databases (Databases d ++ [mkDatabaseInfo name "" [] []]) d)
  end.

Definition Data_DropDatabase (d : Data) (name : string) : outcome MetaError Data :=
  match list_find (λ di, di_Name di = name) (Databases d) with
  | Some (i, _) => Ok (set_Databases (remove_at i (Databases d)) d)
  | None => Err ErrDatabaseNotFound
  end.

(** ** Retention policies *)

Definition Data_CreateRetentionPolicy (d : Data) (database : string) (rpi : RetentionPolicyInfo)
    : outcome MetaError Data :=
  if decide (rpi_Name rpi = "") then Err ErrRetentionPolicyNameRequired
  else if rpi_ReplicaN rpi <? 1 then Err ErrReplicationFactorTooLow
  else match Data_Database d database with
  | None => Err ErrDatabaseNotFound
  | Some (i, di) =>
      match DatabaseInfo_RetentionPolicy di (rpi_Name rpi) with
      | Some _ => Err ErrRetentionPolicyExists
      | None =>
          let new := mkRetentionPolicyInfo (rpi_Name rpi) (rpi_ReplicaN rpi) (rpi_Duration rpi)
                       (shardGroupDuration (rpi_Duration rpi)) [] [] in
          Ok (at_db i (λ di, set_di_RetentionPolicies (di_RetentionPolicies di ++ [new]) di) d)
      end
  end.

Definition Data_DropRetentionPolicy (d : Data) (database name : string) : outcome MetaError Data :=
  match Data_Database d database with
  | None => Err ErrDatabaseNotFound
  | Some (i, di) =>
      if decide (di_DefaultRetentionPolicy di = name) then Err ErrRetentionPolicyDefault
      else match list_find (λ r, rpi_Name r = name) (di_RetentionPolicies di) with
      | Some (j, _) =>
          Ok (at_db i (λ di, set_di_RetentionPolicies (remove_at j (di_RetentionPolicies di)) di) d)
      | None => Err ErrRetentionPolicyNotFound
      end
  end.

Definition update_policy (rpu : RetentionPolicyUpdate) (rpi : RetentionPolicyInfo)
    : RetentionPolicyInfo :=
  let rpi := match rpu_Name rpu with Some n => set_rpi_Name n rpi | None => rpi end in
  let rpi := match rpu_Duration rpu with
             | Some v => set_rpi_Durations v (shardGroupDuration v) rpi
             | None => rpi
             end in
  match rpu_ReplicaN rpu with Some n => set_rpi_ReplicaN n rpi | None => rpi end.

Definition Data_UpdateRetentionPolicy (d : Data) (database name : string)
    (rpu : RetentionPolicyUpdate) : outcome MetaError Data :=
  match Data_Database d database with
  | None => Err ErrDatabaseNotFound
  | Some (i, di) =>
      match DatabaseInfo_RetentionPolicy di name with
      | None => Err ErrRetentionPolicyNotFound
      | Some (j, rpi) =>
          if match rpu_Name rpu with
             | Some n => bool_decide (n ≠ name) && bool_decide (is_Some (DatabaseInfo_RetentionPolicy di n))
             | None => false
             end
          then Err ErrRetentionPolicyNameExists
          else if match rpu_Duration rpu with
                  | Some v => (v <? MinRetentionPolicyDuration) && negb (v =? 0)
                  | None => false
                  end
          then Err ErrRetentionPolicyDurationTooLow
          else Ok (at_rp (i, j) (update_policy rpu) d)
      end
  end.

Definition Data_SetDefaultRetentionPolicy (d : Data) (database name : string)
    : outcome MetaError Data :=
  match Data_Database d database with
  | None => Err ErrDatabaseNotFound
  | Some (i, di) =>
      match DatabaseInfo_RetentionPolicy di name with
      | None => Err ErrRetentionPolicyNotFound
      | Some _ => Ok (at_db i (set_di_DefaultRetentionPolicy name) d)
      end
  end.

(** ** Shard groups *)

(** [for i := range sgi.Shards { data.MaxShardID++; ... }]: [n] shards with
    consecutive IDs, and the last ID used. *)
Fixpoint alloc_shards (n : nat) (maxID : Z) : list ShardInfo * Z :=
  match n with
  | O => ([], maxID)
  | S n =>
      let maxID := u64 (maxID + 1) in
      let '(ss, m) := alloc_shards n maxID in
      (mkShardInfo maxID [] :: ss, m)
  end.

(** The inner loop of the assignment: [replicaN] owners for one shard, taken
    round robin from [nodeIndex] on. *)
Fixpoint take_owners (nodes : list NodeInfo) (replicaN : nat) (nodeIndex : nat)
    : outcome MetaError (list ShardOwner) :=
  match replicaN with
  | O => Ok []
  | S r =>
      match nodes !! (nodeIndex mod length nodes)%nat with
      | None => Panic
      | Some n =>
          let! os := take_owners nodes r (S nodeIndex) in
          Ok (mkShardOwner (ni_ID n) :: os)
      end
  end.

Fixpoint assign_owners (nodes : list NodeInfo) (replicaN : nat) (nodeIndex : nat)
    (shards : list ShardInfo) : outcome MetaError (list ShardInfo) :=
  match shards with
  | [] => Ok []
  | s :: shards =>
      let! os := take_owners nodes replicaN nodeIndex in
      let! ss := assign_owners nodes replicaN (nodeIndex + replicaN) shards in
      Ok (set_si_Owners (si_Owners s ++ os) s :: ss)
  end.

(** The replication factor a new group uses: at least one replica, at most
    one per node; a negative factor is left as it is. *)
Definition effective_replicaN (replicaN nodeN : Z) : Z :=
  if replicaN =? 0 then 1
  else if nodeN <? replicaN then nodeN
  else replicaN.

Section ShardGroups.
Context {GS : GoSort}.

Definition Data_CreateShardGroup (d : Data) (database policy : string) (timestamp : Time)
    : outcome MetaError Data :=
  if Z.of_nat (length (Nodes d)) =? 0 then Err ErrNodesRequired
  else
    let! (p, rpi) := Data_MustRetentionPolicy d database policy in
    match RetentionPolicyInfo_ShardGroupByTimestamp rpi timestamp with
    | Some _ => Err ErrShardGroupExists
    | None =>
        let nodeN := Z.of_nat (length (Nodes d)) in
        let replicaN := effective_replicaN (rpi_ReplicaN rpi) nodeN in
        let shardN := nodeN ÷ replicaN in
        let groupID := u64 (MaxShardGroupID d + 1) in
        let start := Time_Truncate timestamp (rpi_ShardGroupDuration rpi) in
        let endt := Time_Add start (rpi_ShardGroupDuration rpi) in
        if shardN <? 0 then Panic
        else
          let '(shards, maxShardID) := alloc_shards (Z.to_nat shardN) (MaxShardID d) in
          let nodeIndex := Z.to_nat (Index d mod nodeN) in
          let! shards := assign_owners (Nodes d) (Z.to_nat replicaN) nodeIndex shards in
          let sgi := mkShardGroupInfo groupID start endt Time_zero shards in
          let d := set_MaxShardGroupID groupID (set_MaxShardID maxShardID d) in
          Ok (at_rp p (λ rpi, set_rpi_ShardGroups
                (sort_Sort ShardGroupInfo_Less (rpi_ShardGroups rpi ++ [sgi])) rpi) d)
    end.
End ShardGroups.

(** [now] is the value [time.Now().UTC()] returns. *)
Definition Data_DeleteShardGroup (now : Time) (d : Data) (database policy : string) (id : Z)
    : outcome MetaError Data :=
  let! (p, rpi) := Data_MustRetentionPolicy d database policy in
  match list_find (λ g, sgi_ID g = id) (rpi_ShardGroups rpi) with
  | Some (k, _) =>
      Ok (at_rp p (λ rpi, set_rpi_ShardGroups
            (alter (set_sgi_DeletedAt now) k (rpi_ShardGroups rpi)) rpi) d)
  | None => Err ErrShardGroupNotFound
  end.

(** ** Continuous queries and subscriptions *)

Definition Data_CreateContinuousQuery (d : Data) (database name query : string)
    : outcome MetaError Data :=
  match Data_Database d database with
  | None => Err ErrDatabaseNotFound
  | Some (i, di) =>
      match list_find (λ q, cqi_Name q = name) (di_ContinuousQueries di) with
      | Some _ => Err ErrContinuousQueryExists
      | None =>
          Ok (at_db i (λ di, set_di_ContinuousQueries
                (di_ContinuousQueries di ++ [mkContinuousQueryInfo name query]) di) d)
      end
  end.

Definition Data_DropContinuousQuery (d : Data) (database name : string) : outcome MetaError Data :=
  match Data_Database d database with
  | None => Err ErrDatabaseNotFound
  | Some (i, di) =>
      match list_find (λ q, cqi_Name q = name) (di_ContinuousQueries di) with
      | Some (k, _) =>
          Ok (at_db i (λ di, set_di_ContinuousQueries (remove_at k (di_ContinuousQueries di)) di) d)
      | None => Err ErrContinuousQueryNotFound
      end
  end.

Definition Data_CreateSubscription (d : Data) (database rp name mode : string)
    (destinations : list string) : outcome MetaError Data :=
  let! (p, rpi) := Data_MustRetentionPolicy d database rp in
  match list_find (λ s, sub_Name s = name) (rpi_Subscriptions rpi) with
  | Some _ => Err ErrSubscriptionExists
  | None =>
      Ok (at_rp p (λ rpi, set_rpi_Subscriptions
            (rpi_Subscriptions rpi ++ [mkSubscriptionInfo name mode destinations]) rpi) d)
  end.

(** The policy is dereferenced without a nil check: a database that exists
    and a policy that does not is a nil dereference. *)
Definition Data_DropSubscription (d : Data) (database rp name : string) : outcome MetaError Data :=
  let! r := Data_RetentionPolicy d database rp in
  match r with
  | None => Panic
  | Some (p, rpi) =>
      match list_find (λ s, sub_Name s = name) (rpi_Subscriptions rpi) with
      | Some (k, _) =>
          Ok (at_rp p (λ rpi, set_rpi_Subscriptions (remove_at k (rpi_Subscriptions rpi)) rpi) d)
      | None => Err ErrSubscriptionNotFound
      end
  end.

(** ** Users *)

Definition Data_CreateUser (d : Data) (name hash : string) (admin : bool) : outcome MetaError Data :=
  if decide (name = "") then Err ErrUsernameRequired
  else match Data_User d name with
  | Some _ => Err ErrUserExists
  | None => Ok (set_Users (Users d ++ [mkUserInfo name hash admin None]) d)
  end.

Definition Data_DropUser (d : Data) (name : string) : outcome MetaError Data :=
  match list_find (λ u, ui_Name u = name) (Users d) with
  | Some (i, _) => Ok (set_Users (remove_at i (Users d)) d)
  | None => Err ErrUserNotFound
  end.

Definition Data_UpdateUser (d : Data) (name hash : string) : outcome MetaError Data :=
  match list_find (λ u, ui_Name u = name) (Users d) with
  | Some (i, _) => Ok (at_user i (set_ui_Hash hash) d)
  | None => Err ErrUserNotFound
  end.

Definition Data_SetPrivilege (d : Data) (name database : string) (p : Z) : outcome MetaError Data :=
  match Data_User d name with
  | None => Err ErrUserNotFound
  | Some (i, _) =>
      Ok (at_user i (λ ui, set_ui_Privileges (Some (<[database := p]> (UserInfo_privs ui))) ui) d)
  end.

Definition Data_SetAdminPrivilege (d : Data) (name : string) (admin : bool) : outcome MetaError Data :=
  match Data_User d name with
  | None => Err ErrUserNotFound
  | Some (i, _) => Ok (at_user i (set_ui_Admin admin) d)
  end.
