(* ===== verification/MetaInv.v ===== *)
(** * The invariant of the metadata

    [Data_wf] says what every reachable metadata tree satisfies: names and IDs
    are unique, IDs stay below their counters, shard groups are sorted by start
    time, and a shard's owners are distinct nodes of the cluster.  Every
    operation of [MetaData] preserves it. *)

From stdpp Require Import base list gmap strings sorting.
From Stdlib Require Import ZArith Lia.
From S2P Require Import Prelude MetaData.

Local Open Scope Z_scope.

(** ** All shard groups and all shards of the cluster *)

Definition db_groups (di : DatabaseInfo) : list ShardGroupInfo :=
  di_RetentionPolicies di ≫= rpi_ShardGroups.
Definition all_groups (d : Data) : list ShardGroupInfo := Databases d ≫= db_groups.
Definition all_shards (d : Data) : list ShardInfo := all_groups d ≫= sgi_Shards.

(** ** Well-formedness *)

Definition start_le (a b : ShardGroupInfo) : Prop := sgi_StartTime a ≤ sgi_StartTime b.

Definition rp_wf (r : RetentionPolicyInfo) : Prop :=
  NoDup (sub_Name <$> rpi_Subscriptions r) ∧ StronglySorted start_le (rpi_ShardGroups r).

Definition db_wf (di : DatabaseInfo) : Prop :=
  di_Name di ≠ "" ∧
  NoDup (rpi_Name <$> di_RetentionPolicies di) ∧
  NoDup (cqi_Name <$> di_ContinuousQueries di) ∧
  Forall rp_wf (di_RetentionPolicies di).

Definition node_ids (d : Data) : list Z := ni_ID <$> Nodes d.

Definition shard_wf (ids : list Z) (s : ShardInfo) : Prop :=
  NoDup (so_NodeID <$> si_Owners s) ∧ Forall (λ o, so_NodeID o ∈ ids) (si_Owners s).

(** The IDs of the groups [gs], below the counters [maxG] and [maxS]. *)
Record groups_wf (maxG maxS : Z) (gs : list ShardGroupInfo) : Prop := {
  gw_ids : NoDup (sgi_ID <$> gs);
  gw_range : Forall (λ g, 1 ≤ sgi_ID g ≤ maxG) gs;
  gw_shard_ids : NoDup (si_ID <$> (gs ≫= sgi_Shards));
  gw_shard_range : Forall (λ s, 1 ≤ si_ID s ≤ maxS) (gs ≫= sgi_Shards)
}.

Record Data_wf (d : Data) : Prop := {
  wf_max : 0 ≤ MaxNodeID d ∧ 0 ≤ MaxShardGroupID d ∧ 0 ≤ MaxShardID d;
  wf_node_ids : NoDup (node_ids d);
  wf_node_range : Forall (λ n, 1 ≤ ni_ID n ≤ MaxNodeID d) (Nodes d);
  wf_db_names : NoDup (di_Name <$> Databases d);
  wf_dbs : Forall db_wf (Databases d);
  wf_groups : groups_wf (MaxShardGroupID d) (MaxShardID d) (all_groups d);
  wf_owners : Forall (shard_wf (node_ids d)) (all_shards d);
  wf_user_names : NoDup (ui_Name <$> Users d);
  wf_user_nonempty : Forall (λ u, ui_Name u ≠ "") (Users d)
}.

(** There is room for one more object of each kind below [2^64]. *)
Definition has_room (d : Data) : Prop :=
  MaxNodeID d + 1 < 2 ^ 64 ∧ MaxShardGroupID d + 1 < 2 ^ 64 ∧
  MaxShardID d + Z.of_nat (length (Nodes d)) < 2 ^ 64.

(** ** Lists of groups under a write through a pointer *)

Lemma alter_perm {A} (l : list A) i x :
  l !! i = Some x → ∃ rest, l ≡ₚ x :: rest ∧ ∀ f, alter f i l ≡ₚ f x :: rest.
Proof.
  intros Hi. exists (take i l ++ drop (S i) l). split.
  - rewrite <- (take_drop_middle l i x Hi) at 1. by rewrite <- Permutation_middle.
  - intros f. assert (i < length l)%nat by (by eapply lookup_lt_Some).
    rewrite <- (take_drop_middle (alter f i l) i (f x)).
    + rewrite <- Permutation_middle. f_equiv.
      rewrite take_alter_ge, drop_alter_lt by lia. done.
    + by rewrite list_lookup_alter_eq, Hi.
Qed.

Lemma remove_at_perm {A} (l : list A) i x :
  l !! i = Some x → l ≡ₚ x :: remove_at i l.
Proof.
  intros Hi. unfold remove_at. rewrite <- (take_drop_middle l i x Hi) at 1.
  by rewrite <- Permutation_middle.
Qed.

Lemma all_groups_at_db d i di :
  Databases d !! i = Some di →
  ∃ rest, all_groups d ≡ₚ db_groups di ++ rest ∧
          ∀ f, all_groups (at_db i f d) ≡ₚ db_groups (f di) ++ rest.
Proof.
  intros (rest & H1 & H2)%alter_perm. exists (rest ≫= db_groups).
  unfold all_groups. split; [by rewrite H1|]. intros f. simpl. by rewrite (H2 f).
Qed.

(** The policy a pointer refers to. *)
Definition lookup_rp (d : Data) (p : nat * nat) : option RetentionPolicyInfo :=
  di ← Databases d !! p.1; di_RetentionPolicies di !! p.2.

Lemma all_groups_at_rp d p r :
  lookup_rp d p = Some r →
  ∃ rest, all_groups d ≡ₚ rpi_ShardGroups r ++ rest ∧
          ∀ f, all_groups (at_rp p f d) ≡ₚ rpi_ShardGroups (f r) ++ rest.
Proof.
  intros (di & Hdi & Hr)%bind_Some.
  apply all_groups_at_db in Hdi as (rest & H1 & H2).
  apply alter_perm in Hr as (rest' & H3 & H4).
  exists ((rest' ≫= rpi_ShardGroups) ++ rest). split.
  - rewrite H1. unfold db_groups. rewrite H3. csimpl. by rewrite (assoc_L (++)).
  - intros f. unfold at_rp. rewrite H2. unfold db_groups. simpl. rewrite (H4 f).
    csimpl. by rewrite (assoc_L (++)).
Qed.

(** ** Changes of the group list that keep the IDs valid *)

#[export] Instance groups_wf_perm : Proper ((=) ==> (=) ==> (≡ₚ) ==> iff) groups_wf.
Proof.
  intros g ? <- s ? <- l k H. split; intros []; split; by rewrite ?H in * || rewrite <- ?H in *.
Qed.

Lemma groups_wf_app_r g s l k : groups_wf g s (l ++ k) → groups_wf g s k.
Proof.
  intros [H1 H2 H3 H4]. rewrite fmap_app, bind_app in *. rewrite ?fmap_app in *.
  split.
  - by apply NoDup_app in H1 as (? & ? & ?).
  - by apply Forall_app in H2 as [? ?].
  - by apply NoDup_app in H3 as (? & ? & ?).
  - by apply Forall_app in H4 as [? ?].
Qed.

Lemma groups_wf_nil g s : groups_wf g s [].
Proof. split; constructor. Qed.

(** A new group, with IDs above the counters. *)
Lemma groups_wf_snoc g s s' l x :
  0 ≤ g → s ≤ s' → groups_wf g s l → sgi_ID x = g + 1 →
  NoDup (si_ID <$> sgi_Shards x) → Forall (λ y, s < si_ID y ≤ s') (sgi_Shards x) → 0 ≤ s →
  groups_wf (g + 1) s' (x :: l).
Proof.
  intros Hg Hs [H1 H2 H3 H4] Hx Hnd Hr Hs0. 
  rewrite Forall_forall in Hr. rewrite Forall_forall in H2. rewrite Forall_forall in H4. split.
  - csimpl. constructor; [|done]. intros (y & Hy & Hin)%list_elem_of_fmap.
    specialize (H2 _ Hin). simpl in H2. lia.
  - constructor; [lia|]. apply Forall_forall. intros y Hin. specialize (H2 _ Hin). simpl in H2. lia.
  - csimpl. rewrite fmap_app. apply NoDup_app. split_and!; [done| |done].
    intros z (y & -> & Hy)%list_elem_of_fmap (w & Hw & Hin)%list_elem_of_fmap.
    specialize (Hr _ Hy). specialize (H4 _ Hin). simpl in *. lia.
  - csimpl. apply Forall_app. split; apply Forall_forall; intros y Hy.
    + specialize (Hr _ Hy). simpl in *. lia.
    + specialize (H4 _ Hy). simpl in *. lia.
Qed.

(** Replacing groups by groups with the same IDs and the same shard IDs. *)
Lemma groups_wf_ext g s l k :
  sgi_ID <$> k = sgi_ID <$> l → si_ID <$> (k ≫= sgi_Shards) = si_ID <$> (l ≫= sgi_Shards) →
  groups_wf g s l → groups_wf g s k.
Proof.
  intros E1 E2 [H1 H2 H3 H4]. split; [by rewrite E1| |by rewrite E2|].
  - apply (Forall_fmap sgi_ID (λ z, 1 ≤ z ≤ g) k). rewrite E1. by apply Forall_fmap.
  - apply (Forall_fmap si_ID (λ z, 1 ≤ z ≤ s)). rewrite E2. by apply Forall_fmap.
Qed.

(** ** Pointers that lookups return *)

Lemma Data_Database_Some d name i di :
  Data_Database d name = Some (i, di) → Databases d !! i = Some di ∧ di_Name di = name.
Proof. unfold Data_Database. intros. find_facts. auto. Qed.

Lemma Data_RetentionPolicy_Some d db name p r :
  Data_RetentionPolicy d db name = Ok (Some (p, r)) →
  lookup_rp d p = Some r ∧ rpi_Name r = name.
Proof.
  unfold Data_RetentionPolicy, lookup_rp. intros. go_solve.
  match goal with H : Data_Database _ _ = _ |- _ => apply Data_Database_Some in H as [H _] end.
  find_facts. simpl. by simplify_option_eq.
Qed.

Lemma Data_MustRetentionPolicy_Ok d db name p r :
  Data_MustRetentionPolicy d db name = Ok (p, r) →
  lookup_rp d p = Some r ∧ rpi_Name r = name.
Proof.
  unfold Data_MustRetentionPolicy, outcome_bind. intros. go_solve.
  eauto using Data_RetentionPolicy_Some.
Qed.

(** ** Writes to one database or one policy *)

(** Reassembling the invariant after a write to a database that may also move
    the counters: the new database is well formed and its groups may replace
    the old ones. *)
Definition raise_max (g s : Z) (d : Data) : Data := set_MaxShardGroupID g (set_MaxShardID s d).

Lemma Data_wf_at_db_max d i di f g s :
  Data_wf d → Databases d !! i = Some di → 0 ≤ g → 0 ≤ s →
  (∀ x, di_Name (f x) = di_Name x) → (db_wf di → db_wf (f di)) →
  (∀ rest, groups_wf (MaxShardGroupID d) (MaxShardID d) (db_groups di ++ rest) →
           groups_wf g s (db_groups (f di) ++ rest)) →
  (Forall (shard_wf (node_ids d)) (db_groups di ≫= sgi_Shards) →
   Forall (shard_wf (node_ids d)) (db_groups (f di) ≫= sgi_Shards)) →
  Data_wf (at_db i f (raise_max g s d)).
Proof.
  intros [] Hi Hg0 Hs0 Hname Hwf Hg Ho.
  pose proof (all_groups_at_db d i di Hi) as (rest & Hp & Hp'). specialize (Hp' f).
  change (all_groups (at_db i f d)) with (all_groups (at_db i f (raise_max g s d))) in Hp'.
  unfold all_shards in wf_owners0. rewrite Hp in wf_groups0, wf_owners0.
  rewrite bind_app, Forall_app in wf_owners0. destruct wf_owners0 as [Ho1 Ho2].
  split; try done.
  - simpl. lia.
  - simpl. by apply NoDup_fmap_alter.
  - simpl. apply Forall_alter; [done|]. intros x Hx. rewrite Hx in Hi. by simplify_eq.
  - rewrite Hp'. by apply Hg.
  - unfold all_shards. rewrite Hp', bind_app, Forall_app. auto.
Qed.

Lemma Data_wf_at_rp_max d p r f g s :
  Data_wf d → lookup_rp d p = Some r → 0 ≤ g → 0 ≤ s →
  (∀ x, rpi_Name (f x) = rpi_Name x) → (rp_wf r → rp_wf (f r)) →
  (∀ rest, groups_wf (MaxShardGroupID d) (MaxShardID d) (rpi_ShardGroups r ++ rest) →
           groups_wf g s (rpi_ShardGroups (f r) ++ rest)) →
  (Forall (shard_wf (node_ids d)) (rpi_ShardGroups r ≫= sgi_Shards) →
   Forall (shard_wf (node_ids d)) (rpi_ShardGroups (f r) ≫= sgi_Shards)) →
  Data_wf (at_rp p f (raise_max g s d)).
Proof.
  intros Hd (di & Hdi & Hr)%bind_Some Hg0 Hs0 Hname Hwf Hg Ho. unfold at_rp.
  pose proof (alter_perm _ _ _ Hr) as (rest & Hp & Hp').
  eapply Data_wf_at_db_max; [done|done|done|done|done|..].
  - intros (? & ? & ? & Hall). split_and!; simpl; [done| |done|].
    + by apply NoDup_fmap_alter.
    + apply Forall_alter; [done|]. intros x Hx. rewrite Hx in Hr. by simplify_eq.
  - intros rest'. unfold db_groups. simpl. rewrite (Hp' f), Hp. csimpl.
    rewrite <- !(assoc_L (++)). apply Hg.
  - unfold db_groups. simpl. rewrite (Hp' f), Hp. csimpl.
    rewrite !bind_app, !Forall_app. intros [? ?]. auto.
Qed.

Lemma raise_max_id d : raise_max (MaxShardGroupID d) (MaxShardID d) d = d.
Proof. by destruct d. Qed.

(** The same, with the counters as they were. *)
Lemma Data_wf_at_db d i di f :
  Data_wf d → Databases d !! i = Some di →
  (∀ x, di_Name (f x) = di_Name x) → (db_wf di → db_wf (f di)) →
  (∀ rest, groups_wf (MaxShardGroupID d) (MaxShardID d) (db_groups di ++ rest) →
           groups_wf (MaxShardGroupID d) (MaxShardID d) (db_groups (f di) ++ rest)) →
  (Forall (shard_wf (node_ids d)) (db_groups di ≫= sgi_Shards) →
   Forall (shard_wf (node_ids d)) (db_groups (f di) ≫= sgi_Shards)) →
  Data_wf (at_db i f d).
Proof.
  intros Hd ?????.
  pose proof (Data_wf_at_db_max d i di f (MaxShardGroupID d) (MaxShardID d)) as H'.
  rewrite raise_max_id in H'. apply H'; try done; apply Hd.
Qed.

Lemma Data_wf_at_rp d p r f :
  Data_wf d → lookup_rp d p = Some r →
  (∀ x, rpi_Name (f x) = rpi_Name x) → (rp_wf r → rp_wf (f r)) →
  (∀ rest, groups_wf (MaxShardGroupID d) (MaxShardID d) (rpi_ShardGroups r ++ rest) →
           groups_wf (MaxShardGroupID d) (MaxShardID d) (rpi_ShardGroups (f r) ++ rest)) →
  (Forall (shard_wf (node_ids d)) (rpi_ShardGroups r ≫= sgi_Shards) →
   Forall (shard_wf (node_ids d)) (rpi_ShardGroups (f r) ≫= sgi_Shards)) →
  Data_wf (at_rp p f d).
Proof.
  intros Hd ?????.
  pose proof (Data_wf_at_rp_max d p r f (MaxShardGroupID d) (MaxShardID d)) as H'.
  rewrite raise_max_id in H'. apply H'; try done; apply Hd.
Qed.

(** The common case: the shard groups are not touched. *)
Lemma Data_wf_at_db_same d i di f :
  Data_wf d → Databases d !! i = Some di →
  (∀ x, di_Name (f x) = di_Name x) → (db_wf di → db_wf (f di)) →
  db_groups (f di) = db_groups di → Data_wf (at_db i f d).
Proof. intros ???? E. eapply (Data_wf_at_db _ _ di); [done..| |]; intros; by rewrite E. Qed.

Lemma Data_wf_at_rp_same d p r f :
  Data_wf d → lookup_rp d p = Some r →
  (∀ x, rpi_Name (f x) = rpi_Name x) → (rp_wf r → rp_wf (f r)) →
  rpi_ShardGroups (f r) = rpi_ShardGroups r → Data_wf (at_rp p f d).
Proof. intros ???? E. eapply (Data_wf_at_rp _ _ r); [done..| |]; intros; by rewrite E. Qed.

(** Writes to the users only. *)
Lemma Data_wf_set_Users d us :
  Data_wf d → NoDup (ui_Name <$> us) → Forall (λ u, ui_Name u ≠ "") us → Data_wf (set_Users us d).
Proof. intros [] ??. by split. Qed.

Lemma Data_wf_at_user d i f :
  Data_wf d → (∀ u, ui_Name (f u) = ui_Name u) → Data_wf (at_user i f d).
Proof.
  intros Hd Hf. apply Data_wf_set_Users; [done| |].
  - apply NoDup_fmap_alter; [done|apply Hd].
  - apply Forall_alter; [apply Hd|]. intros. by rewrite Hf.
Qed.

(** ** Nodes *)

Lemma Data_CreateNode_wf d host d' :
  Data_wf d → has_room d → Data_CreateNode d host = Ok d' → Data_wf d'.
Proof.
  intros [] [Hroom _] H. unfold Data_CreateNode in H. go_solve.
  assert (u64 (MaxNodeID d + 1) = MaxNodeID d + 1) as E
    by (apply u64_small; unfold is_u64; lia).
  split; simpl; rewrite ?E; try done.
  - lia.
  - unfold node_ids. simpl. rewrite ?E. apply NoDup_fmap_snoc; [done|].
    eapply Forall_impl; [done|]. simpl. lia.
  - apply Forall_app. split; [|repeat constructor; simpl; lia].
    eapply Forall_impl; [done|]. simpl. lia.
  - eapply Forall_impl; [done|]. intros s [Hnd Ho]. split; [done|].
    eapply Forall_impl; [done|]. intros o. unfold node_ids. simpl.
    rewrite fmap_app, elem_of_app. auto.
Qed.

Lemma drop_owner_ID id s : si_ID (drop_owner id s) = si_ID s.
Proof. unfold drop_owner. by destruct (ShardInfo_OwnedBy s id). Qed.

Lemma OwnedBy_false id s :
  ShardInfo_OwnedBy s id = false → Forall (λ o, so_NodeID o ≠ id) (si_Owners s).
Proof.
  unfold ShardInfo_OwnedBy. induction (si_Owners s) as [|o os IH]; simpl; [constructor|].
  intros [Ho Hos]%orb_false_iff. constructor; [lia|auto].
Qed.

(** Whichever branch is taken, the owners left are those that are not [id]. *)
Lemma drop_owner_owners id s :
  si_Owners (drop_owner id s) = filter (λ o, so_NodeID o ≠ id) (si_Owners s).
Proof.
  unfold drop_owner. destruct (ShardInfo_OwnedBy s id) eqn:E; [done|].
  symmetry. apply filter_all. by apply OwnedBy_false.
Qed.

Lemma drop_owner_wf id ids s :
  shard_wf ids s → shard_wf (filter (λ i, i ≠ id) ids) (drop_owner id s).
Proof.
  intros [Hnd Ho]. unfold shard_wf. rewrite drop_owner_owners. split.
  - by apply NoDup_fmap_filter.
  - apply Forall_forall. intros o [Hne Hin]%list_elem_of_filter.
    rewrite Forall_forall in Ho. apply list_elem_of_filter. auto.
Qed.

Lemma db_groups_map_shards f di :
  db_groups (map_shards f di) =
  (λ g, set_sgi_Shards (f <$> sgi_Shards g) g) <$> db_groups di.
Proof.
  unfold db_groups, map_shards. simpl. rewrite list_fmap_bind, fmap_bind. by apply list_bind_ext.
Qed.

Lemma all_groups_map_shards f d :
  all_groups (set_Databases (map_shards f <$> Databases d) d) =
  (λ g, set_sgi_Shards (f <$> sgi_Shards g) g) <$> all_groups d.
Proof.
  unfold all_groups. simpl. rewrite list_fmap_bind, fmap_bind.
  apply list_bind_ext; [|done]. intros. apply db_groups_map_shards.
Qed.

Lemma shards_map_shards f gs :
  ((λ g, set_sgi_Shards (f <$> sgi_Shards g) g) <$> gs) ≫= sgi_Shards =
  f <$> (gs ≫= sgi_Shards).
Proof. rewrite list_fmap_bind, fmap_bind. by apply list_bind_ext. Qed.

Lemma map_shards_db_wf f di : db_wf di → db_wf (map_shards f di).
Proof.
  intros (? & ? & ? & Hall). split_and!; simpl; [done| |done|].
  - rewrite <- list_fmap_compose. done.
  - apply Forall_fmap. eapply Forall_impl; [done|]. intros r [? Hs]. split; [done|].
    simpl. induction Hs as [|g gs Hg IH Hgs]; csimpl; [constructor|].
    constructor; [done|]. by apply Forall_fmap.
Qed.

Lemma filter_ids_Nodes id (ns : list NodeInfo) :
  ni_ID <$> filter (λ n, ni_ID n ≠ id) ns = filter (λ i, i ≠ id) (ni_ID <$> ns).
Proof.
  induction ns as [|n ns IH]; csimpl; [done|]. rewrite !filter_cons.
  repeat case_decide; csimpl; by rewrite ?IH.
Qed.

Lemma Data_DeleteNode_wf d id force d' :
  Data_wf d → Data_DeleteNode d id force = Ok d' → Data_wf d'.
Proof.
  intros [] H. unfold Data_DeleteNode in H. go_solve.
  set (d1 := set_Databases _ d). split; try done.
  - unfold node_ids. simpl. rewrite filter_ids_Nodes. by apply NoDup_filter.
  - simpl. by apply Forall_filter.
  - simpl. rewrite <- list_fmap_compose. done.
  - simpl. apply Forall_fmap. eapply Forall_impl; [done|]. apply map_shards_db_wf.
  - change (groups_wf (MaxShardGroupID d) (MaxShardID d) (all_groups d1)). unfold d1.
    rewrite all_groups_map_shards. eapply groups_wf_ext; [| |done].
    + by rewrite <- list_fmap_compose.
    + rewrite shards_map_shards, <- list_fmap_compose. apply list_fmap_ext.
      intros. apply drop_owner_ID.
  - change (all_shards (set_Nodes _ _)) with (all_groups d1 ≫= sgi_Shards). unfold d1.
    rewrite all_groups_map_shards, shards_map_shards. unfold node_ids. simpl.
    rewrite filter_ids_Nodes. apply Forall_fmap. eapply Forall_impl; [done|].
    intros s. apply drop_owner_wf.
Qed.

(** ** Databases *)

Lemma Data_CreateDatabase_wf d name d' :
  Data_wf d → Data_CreateDatabase d name = Ok d' → Data_wf d'.
Proof.
  intros [] H. unfold Data_CreateDatabase, Data_Database in H. go_solve.
  assert (all_groups (set_Databases (Databases d ++ [mkDatabaseInfo name "" [] []]) d)
          = all_groups d) as E.
  { unfold all_groups. simpl. rewrite bind_app. csimpl. by rewrite app_nil_r. }
  split; try done; unfold all_shards; rewrite ?E; try done; simpl.
  - find_facts. by apply NoDup_fmap_snoc.
  - apply Forall_app. split; [done|]. repeat constructor; done.
Qed.

Lemma Data_DropDatabase_wf d name d' :
  Data_wf d → Data_DropDatabase d name = Ok d' → Data_wf d'.
Proof.
  intros [] H. unfold Data_DropDatabase in H. go_solve. find_facts.
  match goal with H : Databases d !! _ = Some _ |- _ => apply remove_at_perm in H as Hp end.
  unfold all_shards, all_groups in *. rewrite Hp in wf_groups0, wf_owners0. csimpl in *.
  rewrite bind_app, Forall_app in wf_owners0. destruct wf_owners0 as [_ ?].
  apply groups_wf_app_r in wf_groups0.
  split; try done; simpl.
  - by apply NoDup_fmap_remove_at.
  - by apply Forall_remove_at.
Qed.

(** ** Retention policies *)

Lemma Data_CreateRetentionPolicy_wf d db rpi d' :
  Data_wf d → Data_CreateRetentionPolicy d db rpi = Ok d' → Data_wf d'.
Proof.
  intros Hd H. unfold Data_CreateRetentionPolicy, DatabaseInfo_RetentionPolicy in H. go_solve.
  match goal with H : Data_Database _ _ = _ |- _ => apply Data_Database_Some in H as [Hi _] end.
  find_facts. eapply Data_wf_at_db_same; [done|done|done|..].
  - intros (? & ? & ? & ?). split_and!; simpl; [done| |done|].
    + by apply NoDup_fmap_snoc.
    + apply Forall_app. split; [done|]. repeat constructor.
  - unfold db_groups. simpl. rewrite bind_app. csimpl. by rewrite app_nil_r.
Qed.

Lemma Data_DropRetentionPolicy_wf d db name d' :
  Data_wf d → Data_DropRetentionPolicy d db name = Ok d' → Data_wf d'.
Proof.
  intros Hd H. unfold Data_DropRetentionPolicy in H. go_solve. find_facts.
  match goal with H : Data_Database _ _ = _ |- _ => apply Data_Database_Some in H as [Hi _] end.
  match goal with H : di_RetentionPolicies _ !! _ = _ |- _ => apply remove_at_perm in H as Hp end.
  eapply Data_wf_at_db; [done|done|done|..]; unfold db_groups; simpl.
  - intros (? & ? & ? & ?). split_and!; simpl; [done| |done|].
    + by apply NoDup_fmap_remove_at.
    + by apply Forall_remove_at.
  - intros rest. rewrite Hp at 1. csimpl. rewrite <- (assoc_L (++)). apply groups_wf_app_r.
  - rewrite Hp at 1. csimpl. rewrite bind_app, Forall_app. by intros [_ ?].
Qed.

Lemma update_policy_Name rpu r : rpi_Name (update_policy rpu r) = default (rpi_Name r) (rpu_Name rpu).
Proof. destruct rpu as [[] [] []]; done. Qed.

Lemma update_policy_rest rpu r :
  rpi_ShardGroups (update_policy rpu r) = rpi_ShardGroups r ∧
  rpi_Subscriptions (update_policy rpu r) = rpi_Subscriptions r.
Proof. destruct rpu as [[] [] []]; done. Qed.

(** Renaming one policy to an unused name keeps the names distinct. *)
Lemma NoDup_fmap_rename {A K} (f : A → K) (g : A → A) (l : list A) i x :
  NoDup (f <$> l) → l !! i = Some x → (f (g x) = f x ∨ f (g x) ∉ f <$> l) →
  NoDup (f <$> alter g i l).
Proof.
  intros Hnd Hi Hg. pose proof (remove_at_key f l i x Hnd Hi) as Hk.
  pose proof (NoDup_fmap_remove_at f i l Hnd) as Hnd'.
  pose proof (alter_perm l i x Hi) as (rest & Hp & Hp').
  assert (rest ≡ₚ remove_at i l) as Hr.
  { apply (Permutation_cons_inv (a := x)). rewrite <- Hp. by apply remove_at_perm. }
  rewrite (Hp' g), Hr. csimpl. constructor; [|done].
  destruct Hg as [->|Hg]; [done|]. intros Hin. apply Hg.
  rewrite fmap_remove_at in Hin. by eapply elem_of_remove_at.
Qed.

Lemma Data_UpdateRetentionPolicy_wf d db name rpu d' :
  Data_wf d → Data_UpdateRetentionPolicy d db name rpu = Ok d' → Data_wf d'.
Proof.
  intros Hd H. unfold Data_UpdateRetentionPolicy in H.
  destruct (Data_Database d db) as [[i di]|] eqn:Hdb; [|done].
  destruct (DatabaseInfo_RetentionPolicy di name) as [[j r]|] eqn:Hrp; [|done].
  destruct (match rpu_Name rpu with Some _ => _ | None => _ end) eqn:Hname; [done|].
  destruct (match rpu_Duration rpu with Some _ => _ | None => _ end); [done|]. simplify_eq.
  apply Data_Database_Some in Hdb as [Hi _]. unfold DatabaseInfo_RetentionPolicy in *. find_facts.
  unfold at_rp. eapply Data_wf_at_db_same; [done|done|done|..].
  - intros (? & ? & ? & ?). split_and!; simpl; [done| |done|].
    + eapply NoDup_fmap_rename; [done..|]. rewrite update_policy_Name.
      destruct (rpu_Name rpu) as [n|]; [simpl|by left].
      destruct (decide (n = name)) as [->|Hn]; [by left|right].
      rewrite bool_decide_true in Hname by done. simpl in Hname.
      apply bool_decide_eq_false in Hname. apply list_find_key_None.
      by apply eq_None_not_Some.
    + apply Forall_alter; [done|]. intros x _ [? ?].
      destruct (update_policy_rest rpu x) as [Eg Es]. unfold rp_wf. by rewrite Eg, Es.
  - unfold db_groups. simpl. clear. generalize (di_RetentionPolicies di). revert j.
    intros j l. revert j. induction l as [|r l IH]; intros [|j]; csimpl; [done..| |].
    + by rewrite (proj1 (update_policy_rest rpu r)).
    + by rewrite IH.
Qed.

Lemma Data_SetDefaultRetentionPolicy_wf d db name d' :
  Data_wf d → Data_SetDefaultRetentionPolicy d db name = Ok d' → Data_wf d'.
Proof.
  intros Hd H. unfold Data_SetDefaultRetentionPolicy in H. go_solve.
  match goal with H : Data_Database _ _ = _ |- _ => apply Data_Database_Some in H as [Hi _] end.
  by eapply Data_wf_at_db_same.
Qed.

(** ** Continuous queries and subscriptions *)

Lemma Data_CreateContinuousQuery_wf d db name q d' :
  Data_wf d → Data_CreateContinuousQuery d db name q = Ok d' → Data_wf d'.
Proof.
  intros Hd H. unfold Data_CreateContinuousQuery in H. go_solve.
  match goal with H : Data_Database _ _ = _ |- _ => apply Data_Database_Some in H as [Hi _] end.
  find_facts. eapply Data_wf_at_db_same; [done..| |done].
  intros (? & ? & ? & ?). split_and!; simpl; try done. by apply NoDup_fmap_snoc.
Qed.

Lemma Data_DropContinuousQuery_wf d db name d' :
  Data_wf d → Data_DropContinuousQuery d db name = Ok d' → Data_wf d'.
Proof.
  intros Hd H. unfold Data_DropContinuousQuery in H. go_solve.
  match goal with H : Data_Database _ _ = _ |- _ => apply Data_Database_Some in H as [Hi _] end.
  eapply Data_wf_at_db_same; [done..| |done].
  intros (? & ? & ? & ?). split_and!; simpl; try done. by apply NoDup_fmap_remove_at.
Qed.

Lemma Data_CreateSubscription_wf d db rp name mode dests d' :
  Data_wf d → Data_CreateSubscription d db rp name mode dests = Ok d' → Data_wf d'.
Proof.
  intros Hd H. unfold Data_CreateSubscription, outcome_bind in H. go_solve.
  match goal with H : Data_MustRetentionPolicy _ _ _ = _ |- _ =>
    apply Data_MustRetentionPolicy_Ok in H as [Hp _] end.
  find_facts. eapply Data_wf_at_rp_same; [done..| |done].
  intros [? ?]. split; simpl; [|done]. by apply NoDup_fmap_snoc.
Qed.

Lemma Data_DropSubscription_wf d db rp name d' :
  Data_wf d → Data_DropSubscription d db rp name = Ok d' → Data_wf d'.
Proof.
  intros Hd H. unfold Data_DropSubscription, outcome_bind in H. go_solve.
  match goal with H : Data_RetentionPolicy _ _ _ = _ |- _ =>
    apply Data_RetentionPolicy_Some in H as [Hp _] end.
  eapply Data_wf_at_rp_same; [done..| |done].
  intros [? ?]. split; simpl; [|done]. by apply NoDup_fmap_remove_at.
Qed.

(** ** Users *)

Lemma Data_CreateUser_wf d name hash admin d' :
  Data_wf d → Data_CreateUser d name hash admin = Ok d' → Data_wf d'.
Proof.
  intros Hd H. unfold Data_CreateUser, Data_User in H. go_solve. find_facts.
  apply Data_wf_set_Users; [done| |].
  - apply NoDup_fmap_snoc; [apply Hd|done].
  - apply Forall_app. split; [apply Hd|by repeat constructor].
Qed.

Lemma Data_DropUser_wf d name d' :
  Data_wf d → Data_DropUser d name = Ok d' → Data_wf d'.
Proof.
  intros Hd H. unfold Data_DropUser in H. go_solve.
  apply Data_wf_set_Users; [done| |].
  - apply NoDup_fmap_remove_at, Hd.
  - apply Forall_remove_at, Hd.
Qed.

Lemma Data_UpdateUser_wf d name hash d' :
  Data_wf d → Data_UpdateUser d name hash = Ok d' → Data_wf d'.
Proof. intros Hd H. unfold Data_UpdateUser in H. go_solve. by apply Data_wf_at_user. Qed.

Lemma Data_SetPrivilege_wf d name db p d' :
  Data_wf d → Data_SetPrivilege d name db p = Ok d' → Data_wf d'.
Proof. intros Hd H. unfold Data_SetPrivilege in H. go_solve. by apply Data_wf_at_user. Qed.

Lemma Data_SetAdminPrivilege_wf d name b d' :
  Data_wf d → Data_SetAdminPrivilege d name b = Ok d' → Data_wf d'.
Proof. intros Hd H. unfold Data_SetAdminPrivilege in H. go_solve. by apply Data_wf_at_user. Qed.
