(* ===== verification/MetaShards.v ===== *)
(** * Shard groups: allocation and placement

    What [Data.CreateShardGroup] builds: consecutive shard IDs, owners dealt
    round robin over the nodes, and the group's place in the sorted list. *)

From stdpp Require Import base list gmap strings sorting.
From Stdlib Require Import ZArith Lia.
From S2P Require Import Prelude MetaData MetaInv.

Local Open Scope Z_scope.

(** ** Shard IDs *)

Lemma alloc_shards_spec n m :
  0 ≤ m → m + Z.of_nat n < 2 ^ 64 →
  alloc_shards n m = ((λ k, mkShardInfo (m + 1 + Z.of_nat k) []) <$> seq 0 n, m + Z.of_nat n).
Proof.
  revert m. induction n as [|n IH]; intros m Hm Hn; [simpl; f_equal; lia|].
  cbn [alloc_shards]. rewrite u64_small by (unfold is_u64; lia).
  rewrite IH by lia. cbn [seq]. rewrite fmap_cons, <- fmap_S_seq, <- list_fmap_compose.
  f_equal; [|lia]. f_equal; [f_equal; lia|]. apply list_fmap_ext.
  intros i x _. simpl. f_equal. lia.
Qed.

(** ** Owners *)

Lemma mod_inj_range a b n : 0 < n → a mod n = b mod n → Z.abs (a - b) < n → a = b.
Proof.
  intros Hn E Hab. assert ((a - b) mod n = 0) as Hd.
  { rewrite Zminus_mod, E, Z.sub_diag. by apply Z.mod_0_l; lia. }
  apply Z.mod_divide in Hd as [q Hq]; [|lia].
  destruct (Z.lt_trichotomy q 0) as [?|[->|?]];
    [assert (q * n <= - n) by nia| |assert (n <= q * n) by nia]; lia.
Qed.

(** The [k]-th pick of the round robin. *)
Definition pick (nodes : list NodeInfo) (k : nat) : option ShardOwner :=
  (λ n, mkShardOwner (ni_ID n)) <$> nodes !! (k mod length nodes)%nat.

Lemma pick_Some nodes k : nodes ≠ [] → is_Some (pick nodes k).
Proof.
  intros Hn. unfold pick. apply fmap_is_Some, lookup_lt_is_Some.
  apply Nat.mod_upper_bound. by destruct nodes.
Qed.

Lemma take_owners_Ok nodes r k :
  nodes ≠ [] →
  ∃ os, take_owners nodes r k = Ok os ∧ length os = r ∧
        ∀ j, (j < r)%nat → os !! j = pick nodes (k + j).
Proof.
  intros Hn. revert k. induction r as [|r IH]; intros k; simpl.
  - exists []. split_and!; [done..|]. lia.
  - destruct (pick_Some nodes k Hn) as [o Ho]. unfold pick in Ho.
    apply fmap_Some in Ho as (n & Hk & _). rewrite Hk.
    destruct (IH (S k)) as (os & -> & Hlen & Hos). simpl.
    exists (mkShardOwner (ni_ID n) :: os). split_and!; [done|by simpl; f_equal|].
    intros [|j] Hj; simpl.
    + rewrite Nat.add_0_r. unfold pick. by rewrite Hk.
    + rewrite Hos by lia. f_equal. lia.
Qed.

Lemma take_owners_app nodes r1 r2 k os1 os2 :
  take_owners nodes r1 k = Ok os1 → take_owners nodes r2 (k + r1)%nat = Ok os2 →
  take_owners nodes (r1 + r2) k = Ok (os1 ++ os2).
Proof.
  revert k os1. induction r1 as [|r1 IH]; intros k os1 H1 H2; simpl in *.
  - simplify_eq. by rewrite Nat.add_0_r in H2.
  - destruct (nodes !! _) as [n|]; [|done].
    destruct (take_owners nodes r1 (S k)) as [os| |] eqn:E; simplify_eq/=.
    rewrite (IH (S k) os); [done|done|]. by rewrite Nat.add_succ_comm.
Qed.

(** Dealing owners to shards that have none succeeds, keeps the IDs, gives
    each shard [r] owners, and the owners of all shards in order are the first
    [r * n] picks. *)
Lemma assign_owners_Ok nodes r k ss :
  nodes ≠ [] → Forall (λ s, si_Owners s = []) ss →
  ∃ ss', assign_owners nodes r k ss = Ok ss' ∧
         si_ID <$> ss' = si_ID <$> ss ∧
         Forall (λ s, length (si_Owners s) = r) ss' ∧
         take_owners nodes (length ss * r) k = Ok (ss' ≫= si_Owners).
Proof.
  intros Hn Hss. revert k. induction Hss as [|s ss Hs _ IH]; intros k.
  - exists []. by repeat split.
  - destruct (take_owners_Ok nodes r k Hn) as (os & Hos & Hlen & _).
    destruct (IH (k + r)%nat) as (ss' & Hss' & Hids & Hall & Htake).
    simpl. rewrite Hos. simpl. rewrite Hss'. simpl.
    exists (set_si_Owners (si_Owners s ++ os) s :: ss'). split_and!; [done|..].
    + csimpl. by rewrite Hids.
    + constructor; [|done]. by rewrite Hs.
    + csimpl. rewrite Hs. simpl. by eapply take_owners_app.
Qed.

(** Fewer picks than nodes never pick a node twice. *)
Lemma take_owners_NoDup nodes r k os :
  NoDup (ni_ID <$> nodes) → nodes ≠ [] → (r ≤ length nodes)%nat →
  take_owners nodes r k = Ok os → NoDup (so_NodeID <$> os).
Proof.
  intros Hnd Hn Hr Hos. destruct (take_owners_Ok nodes r k Hn) as (os' & E & Hlen & Hpick).
  rewrite E in Hos. simplify_eq. apply NoDup_alt. intros i j x Hi Hj.
  rewrite list_lookup_fmap in Hi, Hj. apply fmap_Some in Hi as (oi & Hi & ->).
  apply fmap_Some in Hj as (oj & Hj & Hx).
  pose proof (lookup_lt_Some _ _ _ Hi). pose proof (lookup_lt_Some _ _ _ Hj).
  rewrite Hpick in Hi by lia. rewrite Hpick in Hj by lia. unfold pick in *.
  apply fmap_Some in Hi as (ni & Hi & ->). apply fmap_Some in Hj as (nj & Hj & ->).
  simpl in Hx. assert ((k + i) mod length nodes = (k + j) mod length nodes)%nat as Hmod.
  { eapply (NoDup_lookup (ni_ID <$> nodes)); [done| |]; rewrite list_lookup_fmap.
    - by rewrite Hi.
    - rewrite Hj. simpl. by f_equal. }
  apply (f_equal Z.of_nat) in Hmod. rewrite !Nat2Z.inj_mod in Hmod.
  assert (length nodes ≠ 0)%nat by (by destruct nodes).
  apply mod_inj_range in Hmod; lia.
Qed.

Lemma take_owners_nodes nodes r k os :
  take_owners nodes r k = Ok os → Forall (λ o, so_NodeID o ∈ ni_ID <$> nodes) os.
Proof.
  revert k os. induction r as [|r IH]; intros k os H; simpl in H; [by simplify_eq|].
  destruct (nodes !! _) as [n|] eqn:E; [|done].
  destruct (take_owners nodes r (S k)) as [os'| |] eqn:E'; simplify_eq/=.
  constructor; [|by eapply IH]. simpl. apply list_elem_of_fmap.
  exists n. split; [done|]. by eapply list_elem_of_lookup_2.
Qed.

(** ** The replication factor *)

Lemma effective_replicaN_bounds r n :
  0 ≤ r → 1 ≤ n → 1 ≤ effective_replicaN r n ≤ n.
Proof.
  intros. unfold effective_replicaN.
  destruct (Z.eqb_spec r 0); [lia|]. destruct (Z.ltb_spec n r); lia.
Qed.

Lemma shard_count_bounds r n :
  0 ≤ r → 1 ≤ n →
  1 ≤ n ÷ effective_replicaN r n ∧ n ÷ effective_replicaN r n * effective_replicaN r n ≤ n.
Proof.
  intros Hr Hn. pose proof (effective_replicaN_bounds r n Hr Hn).
  rewrite Z.quot_div_nonneg by lia. split.
  - apply Z.div_le_lower_bound; lia.
  - rewrite Z.mul_comm. apply Z.mul_div_le. lia.
Qed.

(** A shard count that is not negative never exceeds the node count. *)
Lemma shard_count_le r n :
  1 ≤ n → 0 ≤ n ÷ effective_replicaN r n →
  (Z.to_nat (n ÷ effective_replicaN r n) * Z.to_nat (effective_replicaN r n) ≤ Z.to_nat n)%nat ∧
  (Z.to_nat (n ÷ effective_replicaN r n) ≤ Z.to_nat n)%nat.
Proof.
  intros Hn Hs. destruct (Z.le_gt_cases 0 r) as [Hr|Hr].
  - destruct (shard_count_bounds r n Hr Hn).
    pose proof (effective_replicaN_bounds r n Hr Hn). nia.
  - assert (effective_replicaN r n = r) as E.
    { unfold effective_replicaN. destruct (Z.eqb_spec r 0), (Z.ltb_spec n r); lia. }
    rewrite E in *. assert (Z.to_nat r = 0%nat) as -> by lia.
    pose proof (Z.quot_opp_r n r). pose proof (Z.quot_pos n (- r)). lia.
Qed.

(** ** The new shard group *)

(** What a new group for [timestamp] in policy [r] looks like. *)
Record new_group_spec (d : Data) (r : RetentionPolicyInfo) (timestamp : Time)
    (g : ShardGroupInfo) : Prop := {
  ng_ID : sgi_ID g = MaxShardGroupID d + 1;
  ng_start : sgi_StartTime g = Time_Truncate timestamp (rpi_ShardGroupDuration r);
  ng_end : sgi_EndTime g = sgi_StartTime g + rpi_ShardGroupDuration r;
  ng_live : sgi_DeletedAt g = Time_zero;
  ng_count : Z.of_nat (length (sgi_Shards g)) =
    Z.of_nat (length (Nodes d)) ÷ effective_replicaN (rpi_ReplicaN r) (Z.of_nat (length (Nodes d)));
  ng_shard_ids : si_ID <$> sgi_Shards g =
    (λ k, MaxShardID d + 1 + Z.of_nat k) <$> seq 0 (length (sgi_Shards g));
  ng_replicas : Forall (λ s, length (si_Owners s) =
    Z.to_nat (effective_replicaN (rpi_ReplicaN r) (Z.of_nat (length (Nodes d))))) (sgi_Shards g);
  ng_owners : Forall (λ o, so_NodeID o ∈ node_ids d) (sgi_Shards g ≫= si_Owners);
  ng_balanced : NoDup (node_ids d) → NoDup (so_NodeID <$> (sgi_Shards g ≫= si_Owners))
}.

Section CreateShardGroup.
Context {GS : GoSort}.

Definition insert_group (g : ShardGroupInfo) (rpi : RetentionPolicyInfo) : RetentionPolicyInfo :=
  set_rpi_ShardGroups (sort_Sort ShardGroupInfo_Less (rpi_ShardGroups rpi ++ [g])) rpi.

Lemma insert_group_perm g r : rpi_ShardGroups (insert_group g r) ≡ₚ g :: rpi_ShardGroups r.
Proof. simpl. rewrite sort_perm. by rewrite Permutation_app_comm. Qed.

Lemma insert_group_sorted g r : StronglySorted start_le (rpi_ShardGroups (insert_group g r)).
Proof. simpl. by apply (sort_sorted _ _ sgi_StartTime). Qed.

(** The group that is built once the checks have passed. *)
Lemma new_group_exists d r timestamp :
  let nodeN := Z.of_nat (length (Nodes d)) in
  let replicaN := effective_replicaN (rpi_ReplicaN r) nodeN in
  Nodes d ≠ [] → 0 ≤ nodeN ÷ replicaN → 0 ≤ MaxShardGroupID d → 0 ≤ MaxShardID d → has_room d →
  ∃ ss maxS ss',
    alloc_shards (Z.to_nat (nodeN ÷ replicaN)) (MaxShardID d) = (ss, maxS) ∧
    assign_owners (Nodes d) (Z.to_nat replicaN) (Z.to_nat (Index d mod nodeN)) ss = Ok ss' ∧
    maxS = MaxShardID d + Z.of_nat (length ss') ∧
    new_group_spec d r timestamp
      (mkShardGroupInfo (u64 (MaxShardGroupID d + 1))
         (Time_Truncate timestamp (rpi_ShardGroupDuration r))
         (Time_Add (Time_Truncate timestamp (rpi_ShardGroupDuration r)) (rpi_ShardGroupDuration r))
         Time_zero ss').
Proof.
  intros nodeN replicaN Hn Hs HmG HmS (_ & HG & HS).
  assert (1 ≤ nodeN) by (subst nodeN; destruct (Nodes d); simpl; [done|lia]).
  destruct (shard_count_le (rpi_ReplicaN r) nodeN) as [Hle1 Hle2]; [done..|].
  fold replicaN in Hle1, Hle2. set (n := Z.to_nat (nodeN ÷ replicaN)) in *.
  rewrite alloc_shards_spec by lia.
  set (ss := _ <$> seq 0 n). assert (length ss = n) as Hlen
    by (unfold ss; by rewrite length_fmap, length_seq).
  destruct (assign_owners_Ok (Nodes d) (Z.to_nat replicaN) (Z.to_nat (Index d mod nodeN)) ss)
    as (ss' & Hss' & Hids & Hreps & Htake); [done| |].
  { apply Forall_fmap, Forall_forall. done. }
  assert (length ss' = n) as Hlen'.
  { rewrite <- Hlen, <- (length_fmap si_ID ss'), Hids. apply length_fmap. }
  exists ss, (MaxShardID d + Z.of_nat n), ss'. rewrite Hlen'. split_and!; [done..|].
  split; simpl; try done.
  - apply u64_small. unfold is_u64. lia.
  - rewrite Hlen'. unfold n. fold nodeN replicaN. lia.
  - rewrite Hids, Hlen'. unfold ss. by rewrite <- list_fmap_compose.
  - by eapply take_owners_nodes.
  - intros. eapply take_owners_NoDup; [done|done| |done]. rewrite Hlen. lia.
Qed.

(** A successful [CreateShardGroup], taken apart. *)
Lemma Data_CreateShardGroup_Ok d db policy timestamp d' :
  0 ≤ MaxShardGroupID d → 0 ≤ MaxShardID d → has_room d →
  Data_CreateShardGroup d db policy timestamp = Ok d' →
  ∃ p r g,
    Data_MustRetentionPolicy d db policy = Ok (p, r) ∧
    RetentionPolicyInfo_ShardGroupByTimestamp r timestamp = None ∧
    new_group_spec d r timestamp g ∧
    d' = at_rp p (insert_group g)
           (raise_max (MaxShardGroupID d + 1) (MaxShardID d + Z.of_nat (length (sgi_Shards g))) d).
Proof.
  intros HmG HmS Hroom H. unfold Data_CreateShardGroup in H.
  destruct (Z.eqb_spec (Z.of_nat (length (Nodes d))) 0) as [|Hn]; [done|].
  destruct (Data_MustRetentionPolicy d db policy) as [[p r]| |] eqn:Hrp; simpl in H; [|done..].
  destruct (RetentionPolicyInfo_ShardGroupByTimestamp r timestamp) eqn:Hts; [done|].
  match type of H with context [?s <? 0] => destruct (Z.ltb_spec s 0); [done|] end.
  destruct (new_group_exists d r timestamp) as (ss & maxS & ss' & Ha & Ho & HmaxS & Hg); try done.
  { by destruct (Nodes d). }
  rewrite Ha in H. simpl in H. rewrite Ho in H. simpl in H. simplify_eq.
  exists p, r. eexists. split_and!; [done|done|exact Hg|].
  pose proof (ng_ID _ _ _ _ Hg) as E. simpl in E. by rewrite E.
Qed.

(** It succeeds whenever the policy exists, does not ask for a negative number
    of replicas, and no live group covers the timestamp. *)
Lemma Data_CreateShardGroup_succeeds d db policy timestamp p r :
  Nodes d ≠ [] → Data_MustRetentionPolicy d db policy = Ok (p, r) → 0 ≤ rpi_ReplicaN r →
  RetentionPolicyInfo_ShardGroupByTimestamp r timestamp = None →
  0 ≤ MaxShardGroupID d → 0 ≤ MaxShardID d → has_room d →
  ∃ d', Data_CreateShardGroup d db policy timestamp = Ok d'.
Proof.
  intros Hn Hrp Hr Hts HmG HmS Hroom. unfold Data_CreateShardGroup.
  assert (1 ≤ Z.of_nat (length (Nodes d))) by (destruct (Nodes d); simpl; [done|lia]).
  destruct (Z.eqb_spec (Z.of_nat (length (Nodes d))) 0) as [|_]; [lia|].
  rewrite Hrp. simpl. rewrite Hts.
  destruct (shard_count_bounds (rpi_ReplicaN r) (Z.of_nat (length (Nodes d)))) as [? _]; [done..|].
  match goal with |- context [?s <? 0] => destruct (Z.ltb_spec s 0); [lia|] end.
  destruct (new_group_exists d r timestamp) as (ss & maxS & ss' & Ha & Ho & _); try done.
  rewrite Ha. simpl. rewrite Ho. simpl. eauto.
Qed.

Lemma Data_CreateShardGroup_wf d db policy timestamp d' :
  Data_wf d → has_room d → Data_CreateShardGroup d db policy timestamp = Ok d' → Data_wf d'.
Proof.
  intros Hd Hroom H. pose proof (wf_max _ Hd) as (_ & HmG & HmS).
  destruct (Data_CreateShardGroup_Ok d db policy timestamp d') as (p & r & g & Hrp & _ & Hg & ->);
    [done..|].
  apply Data_MustRetentionPolicy_Ok in Hrp as [Hp _].
  destruct Hg as [HID _ _ _ _ Hids _ Ho Hbal]. specialize (Hbal (wf_node_ids _ Hd)).
  eapply Data_wf_at_rp_max; [done|done|lia|lia|done|..].
  - intros [? _]. split; [done|]. apply insert_group_sorted.
  - intros rest Hgs. rewrite insert_group_perm. simpl.
    eapply (groups_wf_snoc _ (MaxShardID d)); try done; [lia|rewrite Hids|].
    + apply NoDup_fmap_2; [|apply NoDup_seq]. intros ???. lia.
    + apply (Forall_fmap si_ID (λ z, MaxShardID d < z ≤ MaxShardID d + Z.of_nat (length (sgi_Shards g)))).
      rewrite Hids. apply Forall_fmap, Forall_forall. intros k Hk%elem_of_seq. simpl. lia.
  - intros Hss. rewrite insert_group_perm. csimpl. apply Forall_app. split; [|done].
    clear -Ho Hbal. induction (sgi_Shards g) as [|s ss IH]; [constructor|]. csimpl in *.
    rewrite fmap_app in Hbal. apply NoDup_app in Hbal as (? & _ & ?).
    apply Forall_app in Ho as [? ?]. constructor; [by split|auto].
Qed.
End CreateShardGroup.

Lemma alter_DeletedAt_proj now k (gs : list ShardGroupInfo) :
  sgi_ID <$> alter (set_sgi_DeletedAt now) k gs = sgi_ID <$> gs ∧
  (alter (set_sgi_DeletedAt now) k gs ≫= sgi_Shards) = gs ≫= sgi_Shards.
Proof.
  split; [by apply fmap_alter_same|].
  revert k. induction gs as [|g gs IH]; intros [|k]; csimpl; [done..|]. by rewrite IH.
Qed.

Lemma alter_sorted (f : ShardGroupInfo → ShardGroupInfo) k gs :
  (∀ g, sgi_StartTime (f g) = sgi_StartTime g) →
  StronglySorted start_le gs → StronglySorted start_le (alter f k gs).
Proof.
  intros Hf Hs. revert k. induction Hs as [|g gs Hgs IH Hg]; intros [|k]; csimpl;
    [constructor..| |].
  - constructor; [done|]. eapply Forall_impl; [done|]. intros x. unfold start_le. by rewrite Hf.
  - constructor; [done|]. apply Forall_alter; [done|].
    intros x _. unfold start_le. by rewrite Hf.
Qed.

Lemma Data_DeleteShardGroup_wf now d db policy id d' :
  Data_wf d → Data_DeleteShardGroup now d db policy id = Ok d' → Data_wf d'.
Proof.
  intros Hd H. unfold Data_DeleteShardGroup, outcome_bind in H. go_solve.
  match goal with H : Data_MustRetentionPolicy _ _ _ = Ok (_, ?r) |- _ =>
    apply Data_MustRetentionPolicy_Ok in H as [Hp _]; rename r into r0 end.
  match goal with |- context [alter (set_sgi_DeletedAt now) ?k] =>
    destruct (alter_DeletedAt_proj now k (rpi_ShardGroups r0)) as [E1 E2] end.
  eapply Data_wf_at_rp; [done|done|done|..]; simpl.
  - intros [? ?]. split; [done|]. by apply alter_sorted.
  - intros rest. apply groups_wf_ext.
    + by rewrite !fmap_app, E1.
    + by rewrite !bind_app, E2.
  - by rewrite E2.
Qed.
