(* ===== verification/MetaCodec.v ===== *)
(** * Copies and encodings of the metadata

    The [clone] methods and the [marshal]/[unmarshal] methods of
    [meta/data.go], with the messages of [meta/internal].  Every field of these
    messages is [required] or [repeated], so a decoded message has all its
    scalar fields and a message is a plain record.  The wire encoding itself
    ([proto.Marshal], [proto.Unmarshal]) is the package gogo/protobuf, a
    parameter of the definitions that call it. *)

From stdpp Require Import base list gmap strings sorting.
From Stdlib Require Import ZArith Lia.
From S2P Require Import Prelude MetaData.

Local Open Scope Z_scope.

(** ** [clone] *)

Definition ShardOwner_clone (so : ShardOwner) : ShardOwner := so.
Definition ContinuousQueryInfo_clone (q : ContinuousQueryInfo) : ContinuousQueryInfo := q.
Definition NodeInfo_clone (ni : NodeInfo) : NodeInfo := ni.

Definition ShardInfo_clone (si : ShardInfo) : ShardInfo :=
  set_si_Owners (ShardOwner_clone <$> si_Owners si) si.

Definition ShardGroupInfo_clone (g : ShardGroupInfo) : ShardGroupInfo :=
  set_sgi_Shards (ShardInfo_clone <$> sgi_Shards g) g.

(** The subscriptions are not copied: both values share one slice. *)
Definition RetentionPolicyInfo_clone (r : RetentionPolicyInfo) : RetentionPolicyInfo :=
  set_rpi_ShardGroups (ShardGroupInfo_clone <$> rpi_ShardGroups r) r.

Definition DatabaseInfo_clone (di : DatabaseInfo) : DatabaseInfo :=
  let other := set_di_RetentionPolicies
    (RetentionPolicyInfo_clone <$> di_RetentionPolicies di) di in
  set_di_ContinuousQueries (ContinuousQueryInfo_clone <$> di_ContinuousQueries di) other.

(** [for k, v := range ui.Privileges { other.Privileges[k] = v }] *)
Definition UserInfo_clone (ui : UserInfo) : UserInfo :=
  match ui_Privileges ui with
  | None => ui
  | Some m => set_ui_Privileges (Some (foldr (λ kv, <[kv.1 := kv.2]>) ∅ (map_to_list m))) ui
  end.

Definition Data_Clone (d : Data) : Data :=
  let other := set_Nodes (NodeInfo_clone <$> Nodes d) d in
  let other := set_Databases (DatabaseInfo_clone <$> Databases d) other in
  set_Users (UserInfo_clone <$> Users d) other.

(** ** Times *)

Definition MarshalTime (t : Time) : Z :=
  if Time_IsZero t then 0 else Time_UnixNano t.

Definition UnmarshalTime (v : Z) : Time :=
  if v =? 0 then Time_zero else Time_Unix0 v.

(** ** The messages of [meta/internal] *)

Record pbNodeInfo := mkpbNodeInfo { pni_ID : Z; pni_Host : string }.
Record pbShardOwner := mkpbShardOwner { pso_NodeID : Z }.
Record pbShardInfo := mkpbShardInfo {
  psi_ID : Z; psi_OwnerIDs : list Z; psi_Owners : list pbShardOwner }.
Record pbShardGroupInfo := mkpbShardGroupInfo {
  psg_ID : Z; psg_StartTime : Z; psg_EndTime : Z; psg_DeletedAt : Z;
  psg_Shards : list pbShardInfo }.
Record pbSubscriptionInfo := mkpbSubscriptionInfo {
  psub_Name : string; psub_Mode : string; psub_Destinations : list string }.
Record pbRetentionPolicyInfo := mkpbRetentionPolicyInfo {
  prp_Name : string; prp_Duration : Z; prp_ShardGroupDuration : Z; prp_ReplicaN : Z;
  prp_ShardGroups : list pbShardGroupInfo; prp_Subscriptions : list pbSubscriptionInfo }.
Record pbContinuousQueryInfo := mkpbContinuousQueryInfo { pcq_Name : string; pcq_Query : string }.
Record pbDatabaseInfo := mkpbDatabaseInfo {
  pdi_Name : string; pdi_DefaultRetentionPolicy : string;
  pdi_RetentionPolicies : list pbRetentionPolicyInfo;
  pdi_ContinuousQueries : list pbContinuousQueryInfo }.
Record pbUserPrivilege := mkpbUserPrivilege { pup_Database : string; pup_Privilege : Z }.
Record pbUserInfo := mkpbUserInfo {
  pui_Name : string; pui_Hash : string; pui_Admin : bool; pui_Privileges : list pbUserPrivilege }.
Record pbData := mkpbData {
  pd_Term : Z; pd_Index : Z; pd_ClusterID : Z;
  pd_Nodes : list pbNodeInfo; pd_Databases : list pbDatabaseInfo; pd_Users : list pbUserInfo;
  pd_MaxNodeID : Z; pd_MaxShardGroupID : Z; pd_MaxShardID : Z }.

(** ** [marshal] *)

Definition NodeInfo_marshal (ni : NodeInfo) : pbNodeInfo := mkpbNodeInfo (ni_ID ni) (ni_Host ni).

Definition ShardOwner_marshal (so : ShardOwner) : pbShardOwner := mkpbShardOwner (so_NodeID so).

Definition ShardInfo_marshal (si : ShardInfo) : pbShardInfo :=
  mkpbShardInfo (si_ID si) [] (ShardOwner_marshal <$> si_Owners si).

Definition ShardGroupInfo_marshal (g : ShardGroupInfo) : pbShardGroupInfo :=
  mkpbShardGroupInfo (sgi_ID g) (MarshalTime (sgi_StartTime g)) (MarshalTime (sgi_EndTime g))
    (MarshalTime (sgi_DeletedAt g)) (ShardInfo_marshal <$> sgi_Shards g).

Definition SubscriptionInfo_marshal (s : SubscriptionInfo) : pbSubscriptionInfo :=
  mkpbSubscriptionInfo (sub_Name s) (sub_Mode s) (sub_Destinations s).

(** The field [Subscriptions] of the message is never filled. *)
Definition RetentionPolicyInfo_marshal (r : RetentionPolicyInfo) : pbRetentionPolicyInfo :=
  mkpbRetentionPolicyInfo (rpi_Name r) (rpi_Duration r) (rpi_ShardGroupDuration r)
    (u32 (rpi_ReplicaN r)) (ShardGroupInfo_marshal <$> rpi_ShardGroups r) [].

Definition ContinuousQueryInfo_marshal (q : ContinuousQueryInfo) : pbContinuousQueryInfo :=
  mkpbContinuousQueryInfo (cqi_Name q) (cqi_Query q).

Definition DatabaseInfo_marshal (di : DatabaseInfo) : pbDatabaseInfo :=
  mkpbDatabaseInfo (di_Name di) (di_DefaultRetentionPolicy di)
    (RetentionPolicyInfo_marshal <$> di_RetentionPolicies di)
    (ContinuousQueryInfo_marshal <$> di_ContinuousQueries di).

(** The privileges are written in the iteration order of a Go map, which is
    unspecified; [map_to_list] is one such order. *)
Definition UserInfo_marshal (ui : UserInfo) : pbUserInfo :=
  mkpbUserInfo (ui_Name ui) (ui_Hash ui) (ui_Admin ui)
    ((λ kv, mkpbUserPrivilege kv.1 (i32 kv.2)) <$> map_to_list (UserInfo_privs ui)).

Definition Data_marshal (d : Data) : pbData :=
  mkpbData (Term d) (Index d) (ClusterID d)
    (NodeInfo_marshal <$> Nodes d) (DatabaseInfo_marshal <$> Databases d)
    (UserInfo_marshal <$> Users d) (MaxNodeID d) (MaxShardGroupID d) (MaxShardID d).

(** ** [unmarshal] *)

Definition NodeInfo_unmarshal (pb : pbNodeInfo) : NodeInfo := mkNodeInfo (pni_ID pb) (pni_Host pb).

Definition ShardOwner_unmarshal (pb : pbShardOwner) : ShardOwner := mkShardOwner (pso_NodeID pb).

(** The deprecated field [OwnerIDs] wins over [Owners] when it is not empty. *)
Definition ShardInfo_unmarshal (pb : pbShardInfo) : ShardInfo :=
  mkShardInfo (psi_ID pb)
    (match psi_OwnerIDs pb with
     | _ :: _ => (λ x, ShardOwner_unmarshal (mkpbShardOwner x)) <$> psi_OwnerIDs pb
     | [] => ShardOwner_unmarshal <$> psi_Owners pb
     end).

Definition ShardGroupInfo_unmarshal (pb : pbShardGroupInfo) : ShardGroupInfo :=
  mkShardGroupInfo (psg_ID pb) (UnmarshalTime (psg_StartTime pb)) (UnmarshalTime (psg_EndTime pb))
    (UnmarshalTime (psg_DeletedAt pb)) (ShardInfo_unmarshal <$> psg_Shards pb).

Definition SubscriptionInfo_unmarshal (pb : pbSubscriptionInfo) : SubscriptionInfo :=
  mkSubscriptionInfo (psub_Name pb) (psub_Mode pb) (psub_Destinations pb).

Definition RetentionPolicyInfo_unmarshal (pb : pbRetentionPolicyInfo) : RetentionPolicyInfo :=
  mkRetentionPolicyInfo (prp_Name pb) (prp_ReplicaN pb) (prp_Duration pb)
    (prp_ShardGroupDuration pb) (ShardGroupInfo_unmarshal <$> prp_ShardGroups pb)
    (SubscriptionInfo_unmarshal <$> prp_Subscriptions pb).

Definition ContinuousQueryInfo_unmarshal (pb : pbContinuousQueryInfo) : ContinuousQueryInfo :=
  mkContinuousQueryInfo (pcq_Name pb) (pcq_Query pb).

Definition DatabaseInfo_unmarshal (pb : pbDatabaseInfo) : DatabaseInfo :=
  mkDatabaseInfo (pdi_Name pb) (pdi_DefaultRetentionPolicy pb)
    (RetentionPolicyInfo_unmarshal <$> pdi_RetentionPolicies pb)
    (ContinuousQueryInfo_unmarshal <$> pdi_ContinuousQueries pb).

(** The privileges are inserted in the order of the message, so the last
    entry for a database wins. *)
Definition UserInfo_unmarshal (pb : pbUserInfo) : UserInfo :=
  mkUserInfo (pui_Name pb) (pui_Hash pb) (pui_Admin pb)
    (Some (foldl (λ m p, <[pup_Database p := pup_Privilege p]> m) ∅ (pui_Privileges pb))).

Definition Data_unmarshal (pb : pbData) : Data :=
  mkData (pd_Term pb) (pd_Index pb) (pd_ClusterID pb)
    (NodeInfo_unmarshal <$> pd_Nodes pb) (DatabaseInfo_unmarshal <$> pd_Databases pb)
    (UserInfo_unmarshal <$> pd_Users pb)
    (pd_MaxNodeID pb) (pd_MaxShardGroupID pb) (pd_MaxShardID pb).

(** ** The wire format *)

(** What the protobuf package promises: decoding an encoded message gives the
    message back.  [bytes] and [err] are its types of byte strings and errors. *)
Class Protobuf (bytes : Type) := {
  proto_Marshal : pbData → bytes;
  proto_Unmarshal : bytes → option pbData;
  proto_roundtrip : ∀ pb, proto_Unmarshal (proto_Marshal pb) = Some pb
}.

Section Wire.
Context {bytes : Type} {PB : Protobuf bytes}.

Definition Data_MarshalBinary (d : Data) : bytes := proto_Marshal (Data_marshal d).

(** [None] is the error of [proto.Unmarshal], passed on. *)
Definition Data_UnmarshalBinary (buf : bytes) : option Data :=
  Data_unmarshal <$> proto_Unmarshal buf.
End Wire.

(** The identity encoding, which keeps the promise. *)
#[export] Instance identity_Protobuf : Protobuf pbData := {|
  proto_Marshal pb := pb;
  proto_Unmarshal b := Some b;
  proto_roundtrip pb := eq_refl
|}.

(** ** Clones are equal to the original *)

Lemma fmap_id_ext {A} (f : A → A) (l : list A) : (∀ x, f x = x) → f <$> l = l.
Proof. intros H. rewrite <- (list_fmap_id l) at 2. by apply list_fmap_ext. Qed.

Lemma ShardGroupInfo_clone_id g : ShardGroupInfo_clone g = g.
Proof.
  destruct g. unfold ShardGroupInfo_clone, set_sgi_Shards. simpl. f_equal.
  apply fmap_id_ext. intros []. unfold ShardInfo_clone, set_si_Owners. simpl. f_equal.
  by apply fmap_id_ext.
Qed.

Lemma DatabaseInfo_clone_id di : DatabaseInfo_clone di = di.
Proof.
  destruct di. unfold DatabaseInfo_clone, set_di_ContinuousQueries. simpl.
  f_equal; apply fmap_id_ext; [|done]. intros [].
  unfold RetentionPolicyInfo_clone, set_rpi_ShardGroups. simpl. f_equal.
  apply fmap_id_ext, ShardGroupInfo_clone_id.
Qed.

Lemma UserInfo_clone_id ui : UserInfo_clone ui = ui.
Proof.
  destruct ui as [? ? ? [m|]]; [|done]. unfold UserInfo_clone, set_ui_Privileges. simpl.
  do 2 f_equal. change (list_to_map (map_to_list m) = m). apply list_to_map_to_list.
Qed.

Lemma Data_Clone_id d : Data_Clone d = d.
Proof.
  destruct d. unfold Data_Clone, set_Users. simpl. f_equal; apply fmap_id_ext.
  - done.
  - apply DatabaseInfo_clone_id.
  - apply UserInfo_clone_id.
Qed.

(** ** Round trips *)

(** What the messages can hold: the zero time and the instants whose nanosecond
    count fits an [int64], replication factors of 32 bits, and privileges that are
    an [int32]. *)
Definition time_fits (t : Time) : Prop := t = Time_zero ∨ is_i64 (t - unixEpoch).
Definition group_fits (g : ShardGroupInfo) : Prop :=
  time_fits (sgi_StartTime g) ∧ time_fits (sgi_EndTime g) ∧ time_fits (sgi_DeletedAt g).
Definition policy_fits (r : RetentionPolicyInfo) : Prop :=
  0 ≤ rpi_ReplicaN r < 2 ^ 32 ∧ Forall group_fits (rpi_ShardGroups r).
Definition user_fits (u : UserInfo) : Prop := map_Forall (λ _ p, - 2 ^ 31 ≤ p < 2 ^ 31) (UserInfo_privs u).

Record fields_fit (d : Data) : Prop := {
  ff_policies : Forall (λ di, Forall policy_fits (di_RetentionPolicies di)) (Databases d);
  ff_users : Forall user_fits (Users d)
}.

(** What a copy through the messages is: the Unix epoch is read as the zero time,
    subscriptions are gone, and a nil map of privileges is an empty one. *)
Definition restored_time (t : Time) : Time := if t =? unixEpoch then Time_zero else t.
Definition restored_group (g : ShardGroupInfo) : ShardGroupInfo :=
  mkShardGroupInfo (sgi_ID g) (restored_time (sgi_StartTime g)) (restored_time (sgi_EndTime g))
    (restored_time (sgi_DeletedAt g)) (sgi_Shards g).
Definition restored_policy (r : RetentionPolicyInfo) : RetentionPolicyInfo :=
  mkRetentionPolicyInfo (rpi_Name r) (rpi_ReplicaN r) (rpi_Duration r) (rpi_ShardGroupDuration r)
    (restored_group <$> rpi_ShardGroups r) [].
Definition restored_database (di : DatabaseInfo) : DatabaseInfo :=
  set_di_RetentionPolicies (restored_policy <$> di_RetentionPolicies di) di.
Definition restored_user (u : UserInfo) : UserInfo := set_ui_Privileges (Some (UserInfo_privs u)) u.
Definition restored (d : Data) : Data :=
  set_Users (restored_user <$> Users d) (set_Databases (restored_database <$> Databases d) d).

(** Metadata in which nothing of this kind occurs. *)
Definition group_kept (g : ShardGroupInfo) : Prop :=
  sgi_StartTime g ≠ unixEpoch ∧ sgi_EndTime g ≠ unixEpoch ∧ sgi_DeletedAt g ≠ unixEpoch.
Definition policy_kept (r : RetentionPolicyInfo) : Prop :=
  rpi_Subscriptions r = [] ∧ Forall group_kept (rpi_ShardGroups r).
Record all_kept (d : Data) : Prop := {
  ak_policies : Forall (λ di, Forall policy_kept (di_RetentionPolicies di)) (Databases d);
  ak_users : Forall (λ u, ui_Privileges u ≠ None) (Users d)
}.

Lemma MarshalTime_restored t : time_fits t → UnmarshalTime (MarshalTime t) = restored_time t.
Proof.
  intros [->|Hr]; [done|]. unfold MarshalTime, UnmarshalTime, Time_IsZero, Time_UnixNano, restored_time.
  destruct (Z.eqb_spec t 0) as [->|Ht]; [done|]. rewrite i64_small by done.
  destruct (Z.eqb_spec (t - unixEpoch) 0), (Z.eqb_spec t unixEpoch); try done; try lia. unfold Time_Unix0. lia.
Qed.

Lemma fmap_through {A B} (P : A → Prop) (f : A → B) (g : B → A) (h : A → A) (l : list A) :
  (∀ x, P x → g (f x) = h x) → Forall P l → g <$> (f <$> l) = h <$> l.
Proof. intros H. induction 1 as [|x l Hx _ IH]; csimpl; [done|]. by rewrite H, IH. Qed.

Lemma fmap_roundtrip' {A B} (f : A → B) (g : B → A) (l : list A) :
  (∀ x, g (f x) = x) → g <$> (f <$> l) = l.
Proof.
  intros H. trans (id <$> l); [|apply list_fmap_id]. apply (fmap_through (λ _, True)); [by intros|by apply Forall_forall].
Qed.

Lemma fmap_kept {A} (P : A → Prop) (h : A → A) (l : list A) : (∀ x, P x → h x = x) → Forall P l → h <$> l = l.
Proof. intros H. induction 1 as [|x l Hx _ IH]; csimpl; [done|]. by rewrite H, IH. Qed.

Lemma ShardInfo_roundtrip s : ShardInfo_unmarshal (ShardInfo_marshal s) = s.
Proof.
  destruct s. unfold ShardInfo_unmarshal. simpl. f_equal. apply fmap_roundtrip'. by intros [].
Qed.

Lemma ShardGroupInfo_restored g :
  group_fits g → ShardGroupInfo_unmarshal (ShardGroupInfo_marshal g) = restored_group g.
Proof.
  intros (H1 & H2 & H3). unfold ShardGroupInfo_unmarshal, restored_group. simpl.
  rewrite !MarshalTime_restored by done. f_equal. apply fmap_roundtrip', ShardInfo_roundtrip.
Qed.

Lemma RetentionPolicyInfo_restored r :
  policy_fits r → RetentionPolicyInfo_unmarshal (RetentionPolicyInfo_marshal r) = restored_policy r.
Proof.
  intros (Hr & Hg). unfold RetentionPolicyInfo_unmarshal, restored_policy. simpl. f_equal; [by apply Z.mod_small|].
  eapply fmap_through; [apply ShardGroupInfo_restored|done].
Qed.

Lemma DatabaseInfo_restored di :
  Forall policy_fits (di_RetentionPolicies di) →
  DatabaseInfo_unmarshal (DatabaseInfo_marshal di) = restored_database di.
Proof.
  intros H. destruct di. simpl in *. unfold DatabaseInfo_unmarshal, restored_database, set_di_RetentionPolicies. simpl. f_equal.
  - eapply fmap_through; [apply RetentionPolicyInfo_restored|done].
  - apply fmap_roundtrip'. by intros [].
Qed.

(** Inserting the entries of a map in any order gives the map. *)
Lemma foldl_insert_privs (l : list (string * Z)) (m : gmap string Z) :
  NoDup l.*1 →
  foldl (λ m p, <[pup_Database p := pup_Privilege p]> m) m
    ((λ kv, mkpbUserPrivilege kv.1 kv.2) <$> l) = list_to_map l ∪ m.
Proof.
  revert m. induction l as [|[k v] l IH]; intros m Hnd; csimpl in *.
  - by rewrite (left_id_L ∅ (∪)).
  - apply NoDup_cons in Hnd as [Hk Hnd]. rewrite IH by done. simpl.
    rewrite <- insert_union_l, insert_union_r; [done|].
    by apply not_elem_of_list_to_map_1.
Qed.

Lemma UserInfo_roundtrip_perm u l :
  l ≡ₚ map_to_list (UserInfo_privs u) →
  UserInfo_unmarshal (mkpbUserInfo (ui_Name u) (ui_Hash u) (ui_Admin u)
    ((λ kv, mkpbUserPrivilege kv.1 kv.2) <$> l)) = restored_user u.
Proof.
  intros Hl. unfold UserInfo_unmarshal, restored_user, set_ui_Privileges. simpl. do 2 f_equal.
  assert (NoDup l.*1) as Hnd by (rewrite Hl; apply NoDup_fst_map_to_list).
  rewrite foldl_insert_privs by done. rewrite (right_id_L ∅ (∪)).
  rewrite (list_to_map_proper l (map_to_list (UserInfo_privs u))) by done. apply list_to_map_to_list.
Qed.

Lemma UserInfo_restored u : user_fits u → UserInfo_unmarshal (UserInfo_marshal u) = restored_user u.
Proof.
  intros Hp. rewrite <- (UserInfo_roundtrip_perm u (map_to_list (UserInfo_privs u))) by done.
  unfold UserInfo_marshal. do 2 f_equal. apply list_fmap_ext. intros i [k v] Hi. simpl. f_equal.
  apply i32_small. apply list_elem_of_lookup_2, elem_of_map_to_list in Hi. by apply (Hp k).
Qed.

Lemma Data_restored d : fields_fit d → Data_unmarshal (Data_marshal d) = restored d.
Proof.
  intros [Hp Hu]. destruct d. unfold Data_unmarshal, restored, set_Users, set_Databases. simpl in *. f_equal.
  - apply fmap_roundtrip'. by intros [].
  - eapply fmap_through; [apply DatabaseInfo_restored|done].
  - eapply fmap_through; [apply UserInfo_restored|done].
Qed.

Lemma restored_kept d : all_kept d → restored d = d.
Proof.
  intros [Hp Hu]. destruct d. unfold restored, set_Users, set_Databases. simpl in *. f_equal.
  - eapply fmap_kept; [|exact Hp]. intros [] H. unfold restored_database, set_di_RetentionPolicies. simpl in *. f_equal.
    eapply fmap_kept; [|exact H]. intros [] [Hs Hg]. unfold restored_policy. simpl in *. subst. f_equal.
    eapply fmap_kept; [|exact Hg]. intros [] (H1 & H2 & H3). unfold restored_group, restored_time. simpl in *.
    by rewrite !(proj2 (Z.eqb_neq _ _)) by done.
  - eapply fmap_kept; [|exact Hu]. intros [? ? ? [m|]] H; [done|by destruct H].
Qed.
