(* ===== verification/MetaStore.v ===== *)
(** * The replicated state machine: [storeFSM] of [meta/store.go]

    Raft delivers the same sequence of commands to every node; [Apply] runs
    one command against the local copy of the metadata.  A result of [None] is
    a panic, which takes the process down; [Some (s, e)] is the new store and
    the error reported to the caller. *)

From stdpp Require Import base list gmap strings sorting relations.
From Stdlib Require Import ZArith Lia.
From S2P Require Import Prelude MetaData MetaCodec.

Local Open Scope Z_scope.

(** ** Commands: the messages of [meta/internal] that Raft carries *)

Inductive Command :=
| CreateNodeCommand (Host : string) (Rand : Z)
| DeleteNodeCommand (ID : Z) (Force : bool)
| CreateDatabaseCommand (Name : string)
| DropDatabaseCommand (Name : string)
| CreateRetentionPolicyCommand (Database : string) (RetentionPolicy : pbRetentionPolicyInfo)
| DropRetentionPolicyCommand (Database Name : string)
| SetDefaultRetentionPolicyCommand (Database Name : string)
| UpdateRetentionPolicyCommand (Database Name : string)
    (NewName : option string) (Duration : option Z) (ReplicaN : option Z)
| CreateShardGroupCommand (Database Policy : string) (Timestamp : Z)
| DeleteShardGroupCommand (Database Policy : string) (ShardGroupID : Z)
| CreateContinuousQueryCommand (Database Name Query : string)
| DropContinuousQueryCommand (Database Name : string)
| CreateUserCommand (Name Hash : string) (Admin : bool)
| DropUserCommand (Name : string)
| UpdateUserCommand (Name Hash : string)
| SetPrivilegeCommand (Username Database : string) (Privilege : Z)
| SetDataCommand (D : pbData)
| SetAdminPrivilegeCommand (Username : string) (Admin : bool)
| UpdateNodeCommand (ID : Z) (Host : string)
| CreateSubscriptionCommand (Name Database RetentionPolicy Mode : string) (Destinations : list string)
| DropSubscriptionCommand (Name Database RetentionPolicy : string)
| RemovePeerCommand (ID : Z) (Addr : string)
| UnknownCommand.

(** ** The store *)

(** A cached password: the salt and the salted hash. *)
Record authUser := mkAuthUser { au_salt : string; au_hash : string }.

(** The calls [applyRemovePeerCommand] makes on the Raft library. *)
Inductive RaftCall :=
| RaftRemovePeer (addr : string)
| RaftClose.

(** The fields of [Store] that commands read or write: the node's ID, the
    metadata, the authentication cache, whether the Raft library says that this
    node leads, the calls made on that library, and how often the channel
    [changed] was closed to wake up waiting goroutines.  Paths, listeners,
    timeouts and the channels of opening and closing are not part of it. *)
Record Store := mkStore {
  st_id : Z;
  st_data : Data;
  st_authCache : gmap string authUser;
  st_isLeader : bool;
  st_raftCalls : list RaftCall;
  st_changed : nat
}.

Definition set_data (d : Data) (s : Store) : Store :=
  mkStore (st_id s) d (st_authCache s) (st_isLeader s) (st_raftCalls s) (st_changed s).
Definition set_authCache (c : gmap string authUser) (s : Store) : Store :=
  mkStore (st_id s) (st_data s) c (st_isLeader s) (st_raftCalls s) (st_changed s).
Definition add_raftCall (c : RaftCall) (s : Store) : Store :=
  mkStore (st_id s) (st_data s) (st_authCache s) (st_isLeader s) (st_raftCalls s ++ [c]) (st_changed s).

(** [notifyChanged]: the number of times the channel was closed. *)
Definition notifyChanged (s : Store) : Store :=
  mkStore (st_id s) (st_data s) (st_authCache s) (st_isLeader s) (st_raftCalls s) (S (st_changed s)).

(** A store as [NewStore] makes it. *)
Definition Store_new (id : Z) (leader : bool) : Store := mkStore id Data_zero ∅ leader [] 0.

Definition apply_result : Type := option (Store * option MetaError).

(** The pattern of the handlers: run an operation on a clone of the data, and
    install the clone only when there was no error. *)
Definition commit (s : Store) (r : outcome MetaError Data) : apply_result :=
  match r with
  | Ok other => Some (set_data other s, None)
  | Err e => Some (s, Some e)
  | Panic => None
  end.

Section Apply.
Context {GS : GoSort}.

(** A failure of the Raft library is logged and ignored. *)
Definition applyRemovePeerCommand (s : Store) (id : Z) (addr : string) : apply_result :=
  let s := if st_isLeader s then add_raftCall (RaftRemovePeer addr) s else s in
  let s := if st_id s =? id then add_raftCall RaftClose s else s in
  Some (s, None).

Definition applyCreateNodeCommand (s : Store) (host : string) (rand : Z) : apply_result :=
  commit s (
    let! other := Data_CreateNode (Data_Clone (st_data s)) host in
    Ok (if ClusterID other =? 0 then set_ClusterID rand other else other)).

Definition applyUpdateNodeCommand (s : Store) (id : Z) (host : string) : apply_result :=
  let other := Data_Clone (st_data s) in
  match Data_Node other id with
  | None => Some (s, Some ErrNodeNotFound)
  | Some (i, _) =>
      Some (set_data (set_Nodes (alter (set_ni_Host host) i (Nodes other)) other) s, None)
  end.

Definition applyDeleteNodeCommand (s : Store) (id : Z) (force : bool) : apply_result :=
  commit s (Data_DeleteNode (Data_Clone (st_data s)) id force).

Definition applyCreateDatabaseCommand (s : Store) (name : string) : apply_result :=
  commit s (Data_CreateDatabase (Data_Clone (st_data s)) name).

Definition applyDropDatabaseCommand (s : Store) (name : string) : apply_result :=
  commit s (Data_DropDatabase (Data_Clone (st_data s)) name).

Definition applyCreateRetentionPolicyCommand (s : Store) (database : string)
    (pb : pbRetentionPolicyInfo) : apply_result :=
  commit s (Data_CreateRetentionPolicy (Data_Clone (st_data s)) database
    (mkRetentionPolicyInfo (prp_Name pb) (prp_ReplicaN pb) (prp_Duration pb)
       (prp_ShardGroupDuration pb) [] [])).

Definition applyDropRetentionPolicyCommand (s : Store) (database name : string) : apply_result :=
  commit s (Data_DropRetentionPolicy (Data_Clone (st_data s)) database name).

Definition applySetDefaultRetentionPolicyCommand (s : Store) (database name : string) : apply_result :=
  commit s (Data_SetDefaultRetentionPolicy (Data_Clone (st_data s)) database name).

Definition applyUpdateRetentionPolicyCommand (s : Store) (database name : string)
    (newName : option string) (duration replicaN : option Z) : apply_result :=
  let rpu := mkRetentionPolicyUpdate newName duration replicaN in
  commit s (Data_UpdateRetentionPolicy (Data_Clone (st_data s)) database name rpu).

Definition applyCreateShardGroupCommand (s : Store) (database policy : string) (ts : Z) : apply_result :=
  commit s (Data_CreateShardGroup (Data_Clone (st_data s)) database policy (Time_Unix0 ts)).

Definition applyDeleteShardGroupCommand (now : Time) (s : Store) (database policy : string) (id : Z)
    : apply_result :=
  commit s (Data_DeleteShardGroup now (Data_Clone (st_data s)) database policy id).

Definition applyCreateContinuousQueryCommand (s : Store) (database name query : string) : apply_result :=
  commit s (Data_CreateContinuousQuery (Data_Clone (st_data s)) database name query).

Definition applyDropContinuousQueryCommand (s : Store) (database name : string) : apply_result :=
  commit s (Data_DropContinuousQuery (Data_Clone (st_data s)) database name).

Definition applyCreateSubscriptionCommand (s : Store) (database rp name mode : string)
    (destinations : list string) : apply_result :=
  commit s (Data_CreateSubscription (Data_Clone (st_data s)) database rp name mode destinations).

Definition applyDropSubscriptionCommand (s : Store) (database rp name : string) : apply_result :=
  commit s (Data_DropSubscription (Data_Clone (st_data s)) database rp name).

Definition applyCreateUserCommand (s : Store) (name hash : string) (admin : bool) : apply_result :=
  commit s (Data_CreateUser (Data_Clone (st_data s)) name hash admin).

(** Dropping or updating a user also forgets the cached password:
    [delete(fsm.authCache, v.GetName())] after the data was installed. *)
Definition forget_cached (name : string) (r : apply_result) : apply_result :=
  match r with
  | Some (s, None) => Some (set_authCache (delete name (st_authCache s)) s, None)
  | Some (s, Some e) => Some (s, Some e)
  | None => None
  end.

Definition applyDropUserCommand (s : Store) (name : string) : apply_result :=
  forget_cached name (commit s (Data_DropUser (Data_Clone (st_data s)) name)).

Definition applyUpdateUserCommand (s : Store) (name hash : string) : apply_result :=
  forget_cached name (commit s (Data_UpdateUser (Data_Clone (st_data s)) name hash)).

Definition applySetPrivilegeCommand (s : Store) (username database : string) (p : Z) : apply_result :=
  commit s (Data_SetPrivilege (Data_Clone (st_data s)) username database p).

Definition applySetAdminPrivilegeCommand (s : Store) (username : string) (admin : bool) : apply_result :=
  commit s (Data_SetAdminPrivilege (Data_Clone (st_data s)) username admin).

(** The data is replaced; the authentication cache is kept. *)
Definition applySetDataCommand (s : Store) (pb : pbData) : apply_result :=
  Some (set_data (Data_unmarshal pb) s, None).

(** The dispatch of [Apply].  [now] is the local clock, read by
    [DeleteShardGroup]. *)
Definition apply_command (now : Time) (s : Store) (cmd : Command) : apply_result :=
  match cmd with
  | RemovePeerCommand id addr => applyRemovePeerCommand s id addr
  | CreateNodeCommand host rand => applyCreateNodeCommand s host rand
  | DeleteNodeCommand id force => applyDeleteNodeCommand s id force
  | CreateDatabaseCommand name => applyCreateDatabaseCommand s name
  | DropDatabaseCommand name => applyDropDatabaseCommand s name
  | CreateRetentionPolicyCommand db pb => applyCreateRetentionPolicyCommand s db pb
  | DropRetentionPolicyCommand db name => applyDropRetentionPolicyCommand s db name
  | SetDefaultRetentionPolicyCommand db name => applySetDefaultRetentionPolicyCommand s db name
  | UpdateRetentionPolicyCommand db name n d r => applyUpdateRetentionPolicyCommand s db name n d r
  | CreateShardGroupCommand db policy ts => applyCreateShardGroupCommand s db policy ts
  | DeleteShardGroupCommand db policy id => applyDeleteShardGroupCommand now s db policy id
  | CreateContinuousQueryCommand db name q => applyCreateContinuousQueryCommand s db name q
  | DropContinuousQueryCommand db name => applyDropContinuousQueryCommand s db name
  | CreateSubscriptionCommand name db rp mode dests =>
      applyCreateSubscriptionCommand s db rp name mode dests
  | DropSubscriptionCommand name db rp => applyDropSubscriptionCommand s db rp name
  | CreateUserCommand name hash admin => applyCreateUserCommand s name hash admin
  | DropUserCommand name => applyDropUserCommand s name
  | UpdateUserCommand name hash => applyUpdateUserCommand s name hash
  | SetPrivilegeCommand user db p => applySetPrivilegeCommand s user db p
  | SetAdminPrivilegeCommand user admin => applySetAdminPrivilegeCommand s user admin
  | SetDataCommand pb => applySetDataCommand s pb
  | UpdateNodeCommand id host => applyUpdateNodeCommand s id host
  | UnknownCommand => None
  end.

(** [raft.Log]: [l_cmd] is the decoded payload, [None] when [proto.Unmarshal] fails
    or when the message decodes but has not the extension for its type.  The first
    is an explicit panic of [Apply], the second one of the type assertion on the
    extension in the handler, before anything is changed; the outcome is the same. *)
Record Log := mkLog { l_Term : Z; l_Index : Z; l_cmd : option Command }.

(** [storeFSM.Apply]: term and index are copied whether or not the command
    succeeded. *)
Definition Apply (now : Time) (s : Store) (l : Log) : apply_result :=
  match l_cmd l with
  | None => None
  | Some cmd =>
      match apply_command now s cmd with
      | None => None
      | Some (s, err) =>
          let s := set_data (set_TermIndex (l_Term l) (l_Index l) (st_data s)) s in
          Some (notifyChanged s, err)
      end
  end.

(** Replaying a log; each entry comes with the reading of the local clock. *)
Fixpoint replay (s : Store) (log : list (Time * Log)) : option Store :=
  match log with
  | [] => Some s
  | (now, l) :: log =>
      match Apply now s l with
      | None => None
      | Some (s, _) => replay s log
      end
  end.
End Apply.

(** ** Snapshots *)

Section Snapshot.
Context {bytes : Type} {PB : Protobuf bytes}.

(** The calls [Persist] makes on the sink of the Raft library. *)
Inductive SinkCall :=
| SinkWrite (b : bytes)
| SinkClose
| SinkCancel.

(** [Persist] of the snapshot of [d]: the calls made, and whether it returned
    nil.  [writeOk] and [closeOk] are the answers of the sink; after a failure
    the sink is cancelled. *)
Definition FSM_Persist (d : Data) (writeOk closeOk : bool) : list SinkCall * bool :=
  let p := Data_MarshalBinary d in
  if negb writeOk then ([SinkWrite p; SinkCancel], false)
  else if negb closeOk then ([SinkWrite p; SinkClose; SinkCancel], false)
  else ([SinkWrite p; SinkClose], true).

(** [Restore] installs the decoded data; [None] is the decoding error. *)
Definition FSM_Restore (s : Store) (b : bytes) : option Store :=
  match Data_UnmarshalBinary b with
  | None => None
  | Some d => Some (set_data d s)
  end.
End Snapshot.
