(* ===== verification/MetaFsm.v ===== *)
(** * Properties of the replicated state machine

    The invariant of [MetaInv] under every command, what a log of commands can
    and cannot do, and what two replicas with different clocks agree on. *)

From stdpp Require Import base list gmap strings sorting relations.
From Stdlib Require Import ZArith Lia.
From S2P Require Import Prelude MetaData MetaInv MetaShards MetaCodec MetaStore.

Local Open Scope Z_scope.

(** ** Replication factors *)

Definition replica_ok (r : RetentionPolicyInfo) : Prop := 0 ≤ rpi_ReplicaN r < 2 ^ 32.

(** A property of all policies of the cluster. *)
Definition all_policies (P : RetentionPolicyInfo → Prop) (d : Data) : Prop :=
  Forall (λ di, Forall P (di_RetentionPolicies di)) (Databases d).

Lemma all_policies_at_db P d i f :
  all_policies P d →
  (∀ di, Databases d !! i = Some di → Forall P (di_RetentionPolicies di) →
         Forall P (di_RetentionPolicies (f di))) →
  all_policies P (at_db i f d).
Proof. intros. unfold all_policies. simpl. apply Forall_alter; auto. Qed.

Lemma all_policies_at_rp P d p f :
  all_policies P d → (∀ r, P r → P (f r)) → all_policies P (at_rp p f d).
Proof.
  intros HP Hf. apply all_policies_at_db; [done|]. intros di _ H. simpl.
  apply Forall_alter; auto.
Qed.

Lemma all_policies_map_shards P f d :
  (∀ r gs, P r → P (set_rpi_ShardGroups gs r)) →
  all_policies P d → all_policies P (set_Databases (map_shards f <$> Databases d) d).
Proof.
  intros HP H. apply Forall_fmap. eapply Forall_impl; [exact H|]. intros di Hdi.
  simpl in *. apply Forall_fmap. eapply Forall_impl; [exact Hdi|]. intros r Hr. by apply HP.
Qed.

(** ** Well-formed commands *)

(** The payload of a command as the message types allow it: replication
    factors are [uint32]; a whole new data tree has to be well formed. *)
Definition command_wf (cmd : Command) : Prop :=
  match cmd with
  | CreateRetentionPolicyCommand _ pb => 0 ≤ prp_ReplicaN pb < 2 ^ 32
  | UpdateRetentionPolicyCommand _ _ _ _ (Some n) => 0 ≤ n < 2 ^ 32
  | SetDataCommand pb => Data_wf (Data_unmarshal pb) ∧ all_policies replica_ok (Data_unmarshal pb)
  | _ => True
  end.

Record fsm_inv (s : Store) : Prop := {
  fi_wf : Data_wf (st_data s);
  fi_replicas : all_policies replica_ok (st_data s)
}.

Lemma commit_Some s r s' e :
  commit s r = Some (s', e) →
  (∃ d, r = Ok d ∧ s' = set_data d s ∧ e = None) ∨ (∃ e', r = Err e' ∧ s' = s ∧ e = Some e').
Proof. destruct r; intros; simplify_eq/=; eauto 10. Qed.

Lemma commit_inv s r s' e :
  fsm_inv s → commit s r = Some (s', e) →
  (∀ d, r = Ok d → Data_wf d ∧ all_policies replica_ok d) → fsm_inv s'.
Proof.
  intros Hs [(d & -> & -> & ->)|(e' & -> & -> & ->)]%commit_Some H; [|done].
  destruct (H d eq_refl). by split.
Qed.

(** The invariant of the data after the operation in a hypothesis. *)
Ltac op_wf :=
  lazymatch goal with
  | H : Data_CreateNode _ _ = Ok ?d |- Data_wf ?d => apply Data_CreateNode_wf in H; done
  | H : Data_DeleteNode _ _ _ = Ok ?d |- Data_wf ?d => apply Data_DeleteNode_wf in H; done
  | H : Data_CreateDatabase _ _ = Ok ?d |- Data_wf ?d => apply Data_CreateDatabase_wf in H; done
  | H : Data_DropDatabase _ _ = Ok ?d |- Data_wf ?d => apply Data_DropDatabase_wf in H; done
  | H : Data_CreateRetentionPolicy _ _ _ = Ok ?d |- Data_wf ?d => apply Data_CreateRetentionPolicy_wf in H; done
  | H : Data_DropRetentionPolicy _ _ _ = Ok ?d |- Data_wf ?d => apply Data_DropRetentionPolicy_wf in H; done
  | H : Data_SetDefaultRetentionPolicy _ _ _ = Ok ?d |- Data_wf ?d => apply Data_SetDefaultRetentionPolicy_wf in H; done
  | H : Data_UpdateRetentionPolicy _ _ _ _ = Ok ?d |- Data_wf ?d => apply Data_UpdateRetentionPolicy_wf in H; done
  | H : Data_CreateShardGroup _ _ _ _ = Ok ?d |- Data_wf ?d => apply Data_CreateShardGroup_wf in H; done
  | H : Data_DeleteShardGroup _ _ _ _ _ = Ok ?d |- Data_wf ?d => apply Data_DeleteShardGroup_wf in H; done
  | H : Data_CreateContinuousQuery _ _ _ _ = Ok ?d |- Data_wf ?d => apply Data_CreateContinuousQuery_wf in H; done
  | H : Data_DropContinuousQuery _ _ _ = Ok ?d |- Data_wf ?d => apply Data_DropContinuousQuery_wf in H; done
  | H : Data_CreateSubscription _ _ _ _ _ _ = Ok ?d |- Data_wf ?d => apply Data_CreateSubscription_wf in H; done
  | H : Data_DropSubscription _ _ _ _ = Ok ?d |- Data_wf ?d => apply Data_DropSubscription_wf in H; done
  | H : Data_CreateUser _ _ _ _ = Ok ?d |- Data_wf ?d => apply Data_CreateUser_wf in H; done
  | H : Data_DropUser _ _ = Ok ?d |- Data_wf ?d => apply Data_DropUser_wf in H; done
  | H : Data_UpdateUser _ _ _ = Ok ?d |- Data_wf ?d => apply Data_UpdateUser_wf in H; done
  | H : Data_SetPrivilege _ _ _ _ = Ok ?d |- Data_wf ?d => apply Data_SetPrivilege_wf in H; done
  | H : Data_SetAdminPrivilege _ _ _ = Ok ?d |- Data_wf ?d => apply Data_SetAdminPrivilege_wf in H; done
  end.

(** Unfold an operation that returned [Ok] down to its write. *)
Ltac op_inv H :=
  unfold Data_CreateNode, Data_DeleteNode, Data_CreateDatabase, Data_DropDatabase,
    Data_CreateRetentionPolicy, Data_DropRetentionPolicy, Data_SetDefaultRetentionPolicy,
    Data_DeleteShardGroup, Data_CreateContinuousQuery, Data_DropContinuousQuery,
    Data_CreateSubscription, Data_DropSubscription, Data_CreateUser, Data_DropUser,
    Data_UpdateUser, Data_SetPrivilege, Data_SetAdminPrivilege, outcome_bind in H;
  go_solve.

Lemma update_policy_replica rpu r :
  match rpu_ReplicaN rpu with Some n => 0 ≤ n < 2 ^ 32 | None => True end →
  replica_ok r → replica_ok (update_policy rpu r).
Proof. by destruct rpu as [[] [] []]. Qed.

Section Replicas.
Context {GS : GoSort}.

Lemma CreateShardGroup_replicas d db p ts d' :
  all_policies replica_ok d → Data_CreateShardGroup d db p ts = Ok d' → all_policies replica_ok d'.
Proof.
  intros HP H. unfold Data_CreateShardGroup, outcome_bind in H. go_solve.
  by apply all_policies_at_rp.
Qed.

Lemma UpdateRetentionPolicy_replicas d db name rpu d' :
  match rpu_ReplicaN rpu with Some n => 0 ≤ n < 2 ^ 32 | None => True end →
  all_policies replica_ok d → Data_UpdateRetentionPolicy d db name rpu = Ok d' →
  all_policies replica_ok d'.
Proof.
  intros Hn HP H. unfold Data_UpdateRetentionPolicy in H.
  destruct (Data_Database d db) as [[i di]|]; [|done].
  destruct (DatabaseInfo_RetentionPolicy di name) as [[j r]|]; [|done].
  destruct (match rpu_Name rpu with Some _ => _ | None => _ end); [done|].
  destruct (match rpu_Duration rpu with Some _ => _ | None => _ end); [done|]. simplify_eq.
  apply all_policies_at_rp; [done|]. intros. by apply update_policy_replica.
Qed.

Lemma CreateRetentionPolicy_replicas d db rpi d' :
  replica_ok rpi → all_policies replica_ok d → Data_CreateRetentionPolicy d db rpi = Ok d' →
  all_policies replica_ok d'.
Proof.
  intros Hr HP H. op_inv H. apply all_policies_at_db; [done|]. intros. simpl.
  apply Forall_app. split; [done|]. constructor; [exact Hr|constructor].
Qed.

Lemma DeleteNode_replicas d id force d' :
  all_policies replica_ok d → Data_DeleteNode d id force = Ok d' → all_policies replica_ok d'.
Proof. intros HP H. op_inv H. by apply (all_policies_map_shards replica_ok). Qed.

Lemma Databases_replicas d d' :
  all_policies replica_ok d → Databases d' = Databases d → all_policies replica_ok d'.
Proof. unfold all_policies. by intros ? ->. Qed.

(** Node updates change a host only. *)
Lemma UpdateNode_wf d i host :
  Data_wf d → Data_wf (set_Nodes (alter (set_ni_Host host) i (Nodes d)) d).
Proof.
  intros []. assert (node_ids (set_Nodes (alter (set_ni_Host host) i (Nodes d)) d) = node_ids d) as E
    by (unfold node_ids; simpl; by apply fmap_alter_same).
  split; try done; rewrite ?E; try done. simpl. by apply Forall_alter.
Qed.

Lemma set_ClusterID_wf d c : Data_wf d → Data_wf (set_ClusterID c d).
Proof. intros []. by split. Qed.

Lemma set_TermIndex_wf d t i : Data_wf d → Data_wf (set_TermIndex t i d).
Proof. intros []. by split. Qed.

Lemma CreateNode_inv s host rand s' e :
  fsm_inv s → has_room (st_data s) → applyCreateNodeCommand s host rand = Some (s', e) → fsm_inv s'.
Proof.
  intros Hs Hroom H. unfold applyCreateNodeCommand in H. rewrite Data_Clone_id in H.
  eapply commit_inv; [done|done|]. intros d Hd. destruct Hs as [Hwf Hp].
  destruct (Data_CreateNode (st_data s) host) as [d1| |] eqn:E; simplify_eq/=.
  assert (Data_wf d1) by op_wf.
  assert (all_policies replica_ok d1) by (op_inv E).
  destruct (ClusterID d1 =? 0); [|done]. split; [by apply set_ClusterID_wf|done].
Qed.

Lemma UpdateNode_inv s id host s' e :
  fsm_inv s → applyUpdateNodeCommand s id host = Some (s', e) → fsm_inv s'.
Proof.
  intros [Hwf Hp] H. unfold applyUpdateNodeCommand in H. rewrite Data_Clone_id in H.
  go_solve. split; [by apply UpdateNode_wf|done].
Qed.

(** Forgetting a cached password does not touch the data. *)
Lemma forget_inv s' e name (r : apply_result) :
  (∀ s1 e1, r = Some (s1, e1) → fsm_inv s1) →
  forget_cached name r = Some (s', e) → fsm_inv s'.
Proof.
  intros H E. destruct r as [[s1 [e1|]]|]; simplify_eq/=; [by eapply H|].
  destruct (H s1 None eq_refl). by split.
Qed.

(** Every operation on the data keeps the replication factors valid. *)
Lemma op_replicas d db name d' :
  all_policies replica_ok d →
  (Data_CreateDatabase d name = Ok d' ∨ Data_DropDatabase d name = Ok d' ∨
   Data_DropRetentionPolicy d db name = Ok d' ∨ Data_SetDefaultRetentionPolicy d db name = Ok d' ∨
   Data_DropContinuousQuery d db name = Ok d') →
  all_policies replica_ok d'.
Proof.
  intros HP [H|[H|[H|[H|H]]]]; op_inv H.
  - apply Forall_app. split; [done|]. repeat constructor.
  - by apply Forall_remove_at.
  - apply all_policies_at_db; [done|]. intros. simpl. by apply Forall_remove_at.
  - by apply all_policies_at_db.
  - by apply all_policies_at_db.
Qed.

Lemma apply_command_inv now s cmd s' e :
  fsm_inv s → has_room (st_data s) → command_wf cmd →
  apply_command now s cmd = Some (s', e) → fsm_inv s'.
Proof.
  intros Hs Hroom Hcmd H. pose proof Hs as [Hwf HP].
  assert (∀ r, commit s r = Some (s', e) →
          (∀ d, r = Ok d → Data_wf d ∧ all_policies replica_ok d) → fsm_inv s') as Hc
    by (intros; by eapply commit_inv).
  destruct cmd; cbn [apply_command] in H.
  all: try discriminate. all: try (by eapply CreateNode_inv). all: try (by eapply UpdateNode_inv).
  all: try (unfold applyDropUserCommand, applyUpdateUserCommand in H;
    eapply forget_inv; [|exact H]; clear H; intros s1 e1 H1; eapply commit_inv;
    [done|exact H1|]; rewrite Data_Clone_id; intros d Hd; split;
    [op_wf|op_inv Hd; done]).
  all: try (apply Hc in H; [done|]; rewrite Data_Clone_id; intros d Hd; split;
    [op_wf|]).
  - by eapply DeleteNode_replicas.
  - eapply (op_replicas _ "" Name); eauto.
  - eapply (op_replicas _ "" Name); eauto.
  - eapply CreateRetentionPolicy_replicas; [|done|done]. exact Hcmd.
  - eapply (op_replicas _ Database Name); eauto.
  - eapply (op_replicas _ Database Name); eauto 10.
  - eapply UpdateRetentionPolicy_replicas; [|done|done]. by destruct ReplicaN.
  - by eapply CreateShardGroup_replicas.
  - op_inv Hd. by apply all_policies_at_rp.
  - op_inv Hd. by apply all_policies_at_db.
  - eapply (op_replicas _ Database Name); eauto 10.
  - by op_inv Hd.
  - by op_inv Hd.
  - unfold applySetDataCommand in H. simplify_eq. destruct Hcmd. by split.
  - by op_inv Hd.
  - op_inv Hd. by apply all_policies_at_rp.
  - op_inv Hd. by apply all_policies_at_rp.
  - unfold applyRemovePeerCommand in H. simplify_eq.
    repeat case_match; by split.
Qed.

(** The invariant, with term and index updated. *)
Lemma Apply_inv now s l s' e :
  fsm_inv s → has_room (st_data s) → (∀ cmd, l_cmd l = Some cmd → command_wf cmd) →
  Apply now s l = Some (s', e) → fsm_inv s'.
Proof.
  intros Hs Hroom Hcmd H. unfold Apply in H. destruct (l_cmd l) as [cmd|]; [|done].
  destruct (apply_command now s cmd) as [[s1 e1]|] eqn:E; [|done]. simplify_eq.
  destruct (apply_command_inv now s cmd s1 e) as [Hwf HP]; auto.
  split; simpl; [by apply set_TermIndex_wf|done].
Qed.
End Replicas.

(** ** How fast the counters grow *)

(** One command adds at most one node, one group, and one shard per node. *)
Record grows (d d' : Data) : Prop := {
  gr_node : MaxNodeID d' ≤ MaxNodeID d + 1;
  gr_nodes : (length (Nodes d') ≤ length (Nodes d) + 1)%nat;
  gr_group : MaxShardGroupID d' ≤ MaxShardGroupID d + 1;
  gr_shard : MaxShardID d' ≤ MaxShardID d + Z.of_nat (length (Nodes d))
}.

(** What the operations other than the two that allocate leave alone. *)
Record same_counters (d d' : Data) : Prop := {
  sc_node : MaxNodeID d' = MaxNodeID d;
  sc_nodes : (length (Nodes d') ≤ length (Nodes d))%nat;
  sc_group : MaxShardGroupID d' = MaxShardGroupID d;
  sc_shard : MaxShardID d' = MaxShardID d
}.

Lemma same_counters_refl d : same_counters d d.
Proof. by split. Qed.

Lemma same_grows d d' : same_counters d d' → grows d d'.
Proof. intros []. split; lia. Qed.

Lemma UpdateRetentionPolicy_counters d db name rpu d' :
  Data_UpdateRetentionPolicy d db name rpu = Ok d' → same_counters d d'.
Proof.
  intros H. unfold Data_UpdateRetentionPolicy in H.
  destruct (Data_Database d db) as [[i di]|]; [|done].
  destruct (DatabaseInfo_RetentionPolicy di name) as [[j r]|]; [|done].
  destruct (match rpu_Name rpu with Some _ => _ | None => _ end); [done|].
  destruct (match rpu_Duration rpu with Some _ => _ | None => _ end); [done|]. by simplify_eq.
Qed.

Lemma CreateNode_grows d host d' :
  Data_wf d → has_room d → Data_CreateNode d host = Ok d' → grows d d'.
Proof.
  intros Hd [Hr _] H. pose proof (wf_max _ Hd). op_inv H. split; simpl; try lia.
  - rewrite u64_small; [lia|]. unfold is_u64. lia.
  - rewrite length_app. simpl. lia.
Qed.

Lemma DeleteNode_counters d id force d' :
  Data_DeleteNode d id force = Ok d' → same_counters d d'.
Proof. intros H. op_inv H. split; simpl; try done. apply length_filter. Qed.

Section Growth.
Context {GS : GoSort}.

Lemma CreateShardGroup_grows d db p ts d' :
  Data_wf d → has_room d → Data_CreateShardGroup d db p ts = Ok d' → grows d d'.
Proof.
  intros Hd Hr H. pose proof (wf_max _ Hd) as (_ & HG & HS).
  destruct (Data_CreateShardGroup_Ok d db p ts d') as (q & r & g & _ & _ & Hg & ->); [done..|].
  assert (Nodes d ≠ []) as Hn.
  { intros E. unfold Data_CreateShardGroup in H. by rewrite E in H. }
  destruct (shard_count_le (rpi_ReplicaN r) (Z.of_nat (length (Nodes d)))) as [_ Hle].
  - destruct (Nodes d); simpl; [done|lia].
  - rewrite <- (ng_count _ _ _ _ Hg). lia.
  - rewrite <- (ng_count _ _ _ _ Hg) in Hle. split; simpl; lia.
Qed.

Lemma commit_grows s r s' e :
  commit s r = Some (s', e) → (∀ d, r = Ok d → grows (st_data s) d) → grows (st_data s) (st_data s').
Proof.
  intros [(d & -> & -> & ->)|(e' & -> & -> & ->)]%commit_Some H; [by apply H|].
  apply same_grows, same_counters_refl.
Qed.

Lemma forget_grows d name r s' e :
  (∀ s1 e1, r = Some (s1, e1) → grows d (st_data s1)) →
  forget_cached name r = Some (s', e) → grows d (st_data s').
Proof. intros H E. destruct r as [[s1 [e1|]]|]; simplify_eq/=; by eapply H. Qed.

(** Commands sent by clients; [SetData] restores a backup by hand. *)
Definition client_command (cmd : Command) : Prop :=
  command_wf cmd ∧ match cmd with SetDataCommand _ => False | _ => True end.

Lemma apply_command_grows now s cmd s' e :
  fsm_inv s → has_room (st_data s) → client_command cmd →
  apply_command now s cmd = Some (s', e) → grows (st_data s) (st_data s').
Proof.
  intros [Hwf _] Hroom [_ Hcmd] H.
  destruct cmd; cbn [apply_command] in H; try discriminate; try done.
  all: try (unfold applyDropUserCommand, applyUpdateUserCommand in H;
    eapply forget_grows; [|exact H]; clear H; intros s1 e1 H;
    apply commit_grows in H; [done|]; rewrite Data_Clone_id; intros d Hd;
    apply same_grows; op_inv Hd; done).
  all: try (apply commit_grows in H; [done|]; rewrite Data_Clone_id; intros d Hd;
    first [by eapply CreateShardGroup_grows|apply same_grows;
    first [by eapply DeleteNode_counters|by eapply UpdateRetentionPolicy_counters|by op_inv Hd]]).
  - apply commit_grows in H; [done|]. rewrite Data_Clone_id. intros d Hd.
    destruct (Data_CreateNode (st_data s) Host) as [d1| |] eqn:E; simplify_eq/=.
    apply CreateNode_grows in E; [|done..]. destruct E. by case_match; split.
  - unfold applyUpdateNodeCommand in H. rewrite Data_Clone_id in H. go_solve; split; simpl; try lia.
    rewrite length_alter. lia.
  - unfold applyRemovePeerCommand in H. simplify_eq.
    apply same_grows. repeat case_match; by split.
Qed.

(** ** Reachable stores *)

Inductive fsm_step : Store → Store → Prop :=
| fsm_step_apply now l cmd s s' e :
    l_cmd l = Some cmd → client_command cmd → Apply now s l = Some (s', e) → fsm_step s s'.

(** After [n] commands the counters are at most [n], and [n * n] for the
    shards. *)
Definition counters_le (n : nat) (d : Data) : Prop :=
  MaxNodeID d ≤ Z.of_nat n ∧ (length (Nodes d) ≤ n)%nat ∧
  MaxShardGroupID d ≤ Z.of_nat n ∧ MaxShardID d ≤ Z.of_nat n * Z.of_nat n.

Lemma counters_room n d : Z.of_nat n < 2 ^ 31 → counters_le n d → has_room d.
Proof. intros Hn (? & ? & ? & ?). unfold has_room. nia. Qed.

Lemma Store_new_inv id leader : fsm_inv (Store_new id leader).
Proof. split; [|constructor]. split; simpl; try constructor; simpl; try lia; constructor. Qed.

Lemma fsm_step_inv n s s' :
  Z.of_nat n < 2 ^ 31 → fsm_inv s → counters_le n (st_data s) → fsm_step s s' →
  fsm_inv s' ∧ counters_le (S n) (st_data s').
Proof.
  intros Hn Hs Hc Hstep. pose proof (counters_room _ _ Hn Hc) as Hroom.
  destruct Hstep as [now l cmd s s' e Hl Hcmd Happ]. split.
  - eapply Apply_inv; [done|done| |done]. rewrite Hl. intros ? [= <-]. apply Hcmd.
  - unfold Apply in Happ. rewrite Hl in Happ.
    destruct (apply_command now s cmd) as [[s1 e1]|] eqn:E; [|done]. simplify_eq.
    apply apply_command_grows in E as [G1 G2 G3 G4]; [|done..].
    destruct Hc as (C1 & C2 & C3 & C4). unfold counters_le. simpl. nia.
Qed.

Lemma reachable_inv n id leader s :
  Z.of_nat n ≤ 2 ^ 31 → nsteps fsm_step n (Store_new id leader) s →
  fsm_inv s ∧ counters_le n (st_data s).
Proof.
  revert s. induction n as [|n IH]; intros s Hn Hsteps.
  - inversion Hsteps; subst. split; [apply Store_new_inv|]. split; simpl; lia.
  - apply nsteps_inv_r in Hsteps as (s1 & Hs1 & Hstep).
    destruct (IH s1) as [Hinv Hc]; [lia|done|]. eapply fsm_step_inv; [lia|done..].
Qed.
End Growth.
