(* ===== verification/MetaReplica.v ===== *)
(** * Replicas with different clocks

    [Data.DeleteShardGroup] stamps a group with the local clock, so replicas
    that apply one log do not reach equal metadata.  They do agree on all of it
    but the deletion times: [erase] forgets those times, and every operation
    commutes with [erase]. *)

From stdpp Require Import base list gmap strings sorting.
From Stdlib Require Import ZArith Lia.
From S2P Require Import Prelude MetaData MetaCodec MetaStore.

Local Open Scope Z_scope.

(** A deleted group gets the deletion time 1. *)
Definition erase_group (g : ShardGroupInfo) : ShardGroupInfo :=
  set_sgi_DeletedAt (if ShardGroupInfo_Deleted g then 1 else 0) g.
Definition erase_rp (r : RetentionPolicyInfo) : RetentionPolicyInfo :=
  set_rpi_ShardGroups (erase_group <$> rpi_ShardGroups r) r.
Definition erase_db (di : DatabaseInfo) : DatabaseInfo :=
  set_di_RetentionPolicies (erase_rp <$> di_RetentionPolicies di) di.
Definition erase (d : Data) : Data := set_Databases (erase_db <$> Databases d) d.

Lemma erase_group_Deleted g : ShardGroupInfo_Deleted (erase_group g) = ShardGroupInfo_Deleted g.
Proof. unfold erase_group. by destruct (ShardGroupInfo_Deleted g) eqn:E. Qed.

(** ** Lookups *)

Lemma Data_Database_erase d name :
  Data_Database (erase d) name = prod_map id erase_db <$> Data_Database d name.
Proof. apply list_find_fmap. Qed.

Lemma DatabaseInfo_RetentionPolicy_erase di name :
  DatabaseInfo_RetentionPolicy (erase_db di) name =
  prod_map id erase_rp <$> DatabaseInfo_RetentionPolicy di name.
Proof. apply list_find_fmap. Qed.

Lemma Data_RetentionPolicy_erase d db name :
  Data_RetentionPolicy (erase d) db name =
  outcome_map (fmap (prod_map id erase_rp)) (Data_RetentionPolicy d db name).
Proof.
  unfold Data_RetentionPolicy. rewrite Data_Database_erase.
  destruct (Data_Database d db) as [[i di]|]; [|done]. cbn -[list_find erase_db].
  pose proof (DatabaseInfo_RetentionPolicy_erase di name) as E.
  unfold DatabaseInfo_RetentionPolicy in E. rewrite E. clear E.
  by destruct (list_find _ _) as [[j r]|].
Qed.

Lemma Data_MustRetentionPolicy_erase d db name :
  Data_MustRetentionPolicy (erase d) db name =
  outcome_map (prod_map id erase_rp) (Data_MustRetentionPolicy d db name).
Proof.
  unfold Data_MustRetentionPolicy. rewrite Data_RetentionPolicy_erase.
  by destruct (Data_RetentionPolicy d db name) as [[[p r]|]| |].
Qed.

Lemma ShardGroupByTimestamp_erase r ts :
  RetentionPolicyInfo_ShardGroupByTimestamp (erase_rp r) ts =
  prod_map id erase_group <$> RetentionPolicyInfo_ShardGroupByTimestamp r ts.
Proof.
  unfold RetentionPolicyInfo_ShardGroupByTimestamp. simpl. rewrite list_find_fmap. f_equal.
  apply list_find_ext. intros g. simpl. by rewrite erase_group_Deleted.
Qed.

(** ** Writes *)

Lemma erase_at_db d i f f' :
  (∀ di, erase_db (f di) = f' (erase_db di)) → erase (at_db i f d) = at_db i f' (erase d).
Proof.
  intros H. unfold erase, at_db, set_Databases. simpl. f_equal.
  apply list_fmap_alter, Forall_forall. auto.
Qed.

Lemma erase_at_rp d p f f' :
  (∀ r, erase_rp (f r) = f' (erase_rp r)) → erase (at_rp p f d) = at_rp p f' (erase d).
Proof.
  intros H. unfold at_rp. apply erase_at_db. intros di.
  unfold erase_db, set_di_RetentionPolicies. simpl. f_equal.
  apply list_fmap_alter, Forall_forall. auto.
Qed.

(** ** Operations *)

(** An operation on the data that sees no deletion time. *)
Definition clockless (op : Data → outcome MetaError Data) : Prop :=
  ∀ d, outcome_map erase (op d) = op (erase d).

Ltac erase_lookups :=
  rewrite ?Data_Database_erase, ?Data_MustRetentionPolicy_erase, ?Data_RetentionPolicy_erase;
  repeat match goal with
  | |- context [Data_Database ?d ?n] => destruct (Data_Database d n) as [[? ?]|]; cbn -[list_find]
  | |- context [Data_MustRetentionPolicy ?d ?n ?m] =>
      destruct (Data_MustRetentionPolicy d n m) as [[? ?]| |]; cbn -[list_find]
  | |- context [Data_RetentionPolicy ?d ?n ?m] =>
      destruct (Data_RetentionPolicy d n m) as [[[? ?]|]| |]; cbn -[list_find]
  end.

Lemma CreateNode_clockless host : clockless (λ d, Data_CreateNode d host).
Proof.
  intros d. unfold Data_CreateNode, Data_NodeByHost. simpl. by destruct (list_find _ _).
Qed.

Lemma existsb_fmap {A B} (f : A → B) (p : B → bool) (l : list A) :
  existsb p (f <$> l) = existsb (λ x, p (f x)) l.
Proof. induction l as [|x l IH]; csimpl; [done|]. by rewrite IH. Qed.


Lemma existsb_ext' {A} (p q : A → bool) (l : list A) :
  (∀ x, p x = q x) → existsb p l = existsb q l.
Proof. intros H. induction l as [|x l IH]; csimpl; [done|]. by rewrite H, IH. Qed.

Lemma has_unreplicated_erase id d : has_unreplicated id (erase d) = has_unreplicated id d.
Proof.
  unfold has_unreplicated. simpl. rewrite existsb_fmap. apply existsb_ext'. intros di. simpl.
  rewrite existsb_fmap. apply existsb_ext'. intros r. simpl.
  destruct (1 <? rpi_ReplicaN r); [done|]. rewrite existsb_fmap. by apply existsb_ext'.
Qed.

Lemma map_shards_erase f di : map_shards f (erase_db di) = erase_db (map_shards f di).
Proof.
  unfold map_shards, erase_db, set_di_RetentionPolicies. simpl. f_equal.
  rewrite <- !list_fmap_compose. apply list_fmap_ext. intros _ r _. simpl.
  unfold erase_rp, set_rpi_ShardGroups. simpl. f_equal.
  rewrite <- !list_fmap_compose. apply list_fmap_ext. intros _ g _. done.
Qed.

Lemma DeleteNode_clockless id force : clockless (λ d, Data_DeleteNode d id force).
Proof.
  intros d. unfold Data_DeleteNode. rewrite has_unreplicated_erase.
  change (Data_Node (erase d) id) with (Data_Node d id).
  change (Nodes (erase d)) with (Nodes d).
  destruct (id =? 0); [done|]. destruct (Data_Node d id); [|done].
  destruct (_ =? 1); [done|]. destruct (negb force && _); [done|]. simpl. do 2 f_equal.
  unfold erase, set_Nodes, set_Databases. simpl. f_equal.
  rewrite <- !list_fmap_compose. apply list_fmap_ext. intros _ di _. simpl.
  symmetry. apply map_shards_erase.
Qed.

Lemma CreateDatabase_clockless name : clockless (λ d, Data_CreateDatabase d name).
Proof.
  intros d. unfold Data_CreateDatabase. destruct (decide _); [done|].
  erase_lookups; [done|]. unfold erase, set_Databases. simpl. do 2 f_equal. by rewrite fmap_app.
Qed.

Lemma DropDatabase_clockless name : clockless (λ d, Data_DropDatabase d name).
Proof.
  intros d. unfold Data_DropDatabase. pose proof (Data_Database_erase d name) as E.
  unfold Data_Database in E. rewrite E. clear E.
  destruct (list_find _ _) as [[i di]|]; [|done]. simpl. do 2 f_equal.
  unfold erase, set_Databases. simpl. f_equal. apply fmap_remove_at.
Qed.

Lemma CreateRetentionPolicy_clockless db rpi : clockless (λ d, Data_CreateRetentionPolicy d db rpi).
Proof.
  intros d. unfold Data_CreateRetentionPolicy. destruct (decide _); [done|].
  destruct (_ <? 1); [done|]. erase_lookups; [|done].
  rewrite DatabaseInfo_RetentionPolicy_erase.
  destruct (DatabaseInfo_RetentionPolicy _ _) as [[? ?]|]; [done|]. simpl. f_equal.
  apply erase_at_db. intros di. unfold erase_db, set_di_RetentionPolicies. simpl. f_equal.
  by rewrite fmap_app.
Qed.

Lemma DropRetentionPolicy_clockless db name : clockless (λ d, Data_DropRetentionPolicy d db name).
Proof.
  intros d. unfold Data_DropRetentionPolicy. erase_lookups; [|done].
  destruct (decide _); [done|].
  match goal with |- context [di_RetentionPolicies ?di] => 
    pose proof (DatabaseInfo_RetentionPolicy_erase di name) as E end.
  unfold DatabaseInfo_RetentionPolicy in E. cbn -[list_find fmap] in E. rewrite E. clear E.
  destruct (list_find _ _) as [[j r]|]; [|done]. simpl. f_equal.
  apply erase_at_db. intros di. unfold erase_db, set_di_RetentionPolicies. simpl. f_equal.
  apply fmap_remove_at.
Qed.

Lemma update_policy_erase rpu r : erase_rp (update_policy rpu r) = update_policy rpu (erase_rp r).
Proof. by destruct rpu as [[] [] []]. Qed.

Lemma UpdateRetentionPolicy_clockless db name rpu :
  clockless (λ d, Data_UpdateRetentionPolicy d db name rpu).
Proof.
  intros d. unfold Data_UpdateRetentionPolicy. erase_lookups; [|done].
  rewrite DatabaseInfo_RetentionPolicy_erase.
  destruct (DatabaseInfo_RetentionPolicy _ name) as [[j r]|]; [|done]. cbn -[list_find].
  assert (∀ di m, bool_decide (is_Some (DatabaseInfo_RetentionPolicy (erase_db di) m)) =
    bool_decide (is_Some (DatabaseInfo_RetentionPolicy di m))) as E.
  { intros di m. apply bool_decide_ext. rewrite DatabaseInfo_RetentionPolicy_erase.
    by rewrite fmap_is_Some. }
  destruct (rpu_Name rpu) as [nm|]; [rewrite E; destruct (bool_decide _ && _); [done|]|];
    (destruct (rpu_Duration rpu) as [v|]; [destruct (_ && _); [done|]|]);
    simpl; f_equal; apply erase_at_rp; intros; apply update_policy_erase.
Qed.

Lemma SetDefaultRetentionPolicy_clockless db name :
  clockless (λ d, Data_SetDefaultRetentionPolicy d db name).
Proof.
  intros d. unfold Data_SetDefaultRetentionPolicy. erase_lookups; [|done].
  rewrite DatabaseInfo_RetentionPolicy_erase.
  destruct (DatabaseInfo_RetentionPolicy _ name); [|done]. simpl. f_equal. by apply erase_at_db.
Qed.

Lemma CreateContinuousQuery_clockless db name q :
  clockless (λ d, Data_CreateContinuousQuery d db name q).
Proof.
  intros d. unfold Data_CreateContinuousQuery. erase_lookups; [|done].
  destruct (list_find _ _); [done|]. simpl. f_equal. by apply erase_at_db.
Qed.

Lemma DropContinuousQuery_clockless db name : clockless (λ d, Data_DropContinuousQuery d db name).
Proof.
  intros d. unfold Data_DropContinuousQuery. erase_lookups; [|done].
  destruct (list_find _ _) as [[? ?]|]; [|done]. simpl. f_equal. by apply erase_at_db.
Qed.

Lemma CreateSubscription_clockless db rp name mode dests :
  clockless (λ d, Data_CreateSubscription d db rp name mode dests).
Proof.
  intros d. unfold Data_CreateSubscription. erase_lookups; [|done..].
  destruct (list_find _ _); [done|]. simpl. f_equal. by apply erase_at_rp.
Qed.

Lemma DropSubscription_clockless db rp name : clockless (λ d, Data_DropSubscription d db rp name).
Proof.
  intros d. unfold Data_DropSubscription. erase_lookups; [|done..].
  destruct (list_find _ _) as [[? ?]|]; [|done]. simpl. f_equal. by apply erase_at_rp.
Qed.

Lemma user_ops_clockless name hash db p b :
  clockless (λ d, Data_CreateUser d name hash b) ∧ clockless (λ d, Data_DropUser d name) ∧
  clockless (λ d, Data_UpdateUser d name hash) ∧ clockless (λ d, Data_SetPrivilege d name db p) ∧
  clockless (λ d, Data_SetAdminPrivilege d name b).
Proof.
  split_and!; intros d;
    unfold Data_CreateUser, Data_DropUser, Data_UpdateUser, Data_SetPrivilege,
      Data_SetAdminPrivilege, Data_User; simpl; try (destruct (decide _); [done|]);
    by destruct (list_find _ _) as [[? ?]|].
Qed.

Section Replicas.
Context {GS : GoSort}.

Lemma CreateShardGroup_clockless db policy ts : clockless (λ d, Data_CreateShardGroup d db policy ts).
Proof.
  intros d. unfold Data_CreateShardGroup. change (Nodes (erase d)) with (Nodes d).
  destruct (_ =? 0); [done|]. rewrite Data_MustRetentionPolicy_erase.
  destruct (Data_MustRetentionPolicy d db policy) as [[p r]| |]; [|done..].
  cbn [outcome_map outcome_bind prod_map fst snd]. rewrite ShardGroupByTimestamp_erase.
  destruct (RetentionPolicyInfo_ShardGroupByTimestamp r ts) as [[? ?]|]; [done|].
  cbn [fmap option_fmap option_map]. change (rpi_ReplicaN (erase_rp r)) with (rpi_ReplicaN r).
  destruct (_ <? 0); [done|]. change (MaxShardID (erase d)) with (MaxShardID d).
  destruct (alloc_shards _ _) as [ss maxS]. change (Index (erase d)) with (Index d).
  destruct (assign_owners _ _ _ _) as [ss'| |]; [|done..]. cbn [outcome_map outcome_bind]. f_equal.
  apply erase_at_rp. intros r'. unfold erase_rp, set_rpi_ShardGroups. simpl. f_equal.
  rewrite <- (sort_natural _ _ erase_group ShardGroupInfo_Less ShardGroupInfo_Less) by done. by rewrite fmap_app.
Qed.

(** The clock shows in the deletion time only. *)
Lemma DeleteShardGroup_erase now now' d db policy id :
  now ≠ 0 → now' ≠ 0 →
  outcome_map erase (Data_DeleteShardGroup now d db policy id) =
  outcome_map erase (Data_DeleteShardGroup now' (erase d) db policy id).
Proof.
  intros Hn Hn'. unfold Data_DeleteShardGroup. erase_lookups; [|done..].
  rewrite list_find_fmap.
  change ((λ g, sgi_ID g = id) ∘ erase_group) with (λ g, sgi_ID g = id).
  destruct (list_find _ _) as [[k g]|]; [|done]. simpl. f_equal.
  assert (∀ t g, t ≠ 0 → erase_group (set_sgi_DeletedAt t g) = set_sgi_DeletedAt 1 (erase_group g)) as E.
  { intros t [] Ht. unfold erase_group, ShardGroupInfo_Deleted, Time_IsZero. simpl.
    by destruct (Z.eqb_spec t 0). }
  assert (∀ g, erase_group (erase_group g) = erase_group g) as Ei.
  { intros []. unfold erase_group, ShardGroupInfo_Deleted, Time_IsZero. simpl.
    by destruct (sgi_DeletedAt =? 0). }
  assert (∀ t r, t ≠ 0 → erase_rp (set_rpi_ShardGroups
      (alter (set_sgi_DeletedAt t) k (rpi_ShardGroups r)) r) =
      set_rpi_ShardGroups (alter (set_sgi_DeletedAt 1) k (rpi_ShardGroups (erase_rp r))) (erase_rp r)) as Er.
  { intros t r' Ht. unfold erase_rp, set_rpi_ShardGroups. simpl. f_equal.
    apply list_fmap_alter, Forall_forall. intros. by apply E. }
  rewrite !(erase_at_rp _ _ _ (λ r, set_rpi_ShardGroups
    (alter (set_sgi_DeletedAt 1) k (rpi_ShardGroups r)) r)) by (intros; by apply Er).
  f_equal. unfold erase, set_Databases. simpl. f_equal. rewrite <- list_fmap_compose.
  apply list_fmap_ext. intros _ di _. unfold erase_db, set_di_RetentionPolicies. simpl. f_equal.
  rewrite <- list_fmap_compose. apply list_fmap_ext. intros _ r' _.
  unfold erase_rp, set_rpi_ShardGroups. simpl. f_equal.
  rewrite <- list_fmap_compose. apply list_fmap_ext. intros _ g' _. simpl. by rewrite Ei.
Qed.

(** ** Agreement of stores *)

(** Two data trees that differ in deletion times only. *)
Definition agree (d1 d2 : Data) : Prop := erase d1 = erase d2.

#[export] Instance agree_equivalence : Equivalence agree.
Proof. split; unfold agree; [by intros ?|by intros ? ?|intros ? ? ?; congruence]. Qed.

#[export] Instance set_TermIndex_agree t i : Proper (agree ==> agree) (set_TermIndex t i).
Proof.
  intros d1 d2 H. unfold agree in *. destruct d1, d2. unfold erase in *. simpl in *.
  injection H. intros. unfold set_TermIndex, set_Databases. simpl. by f_equal.
Qed.

#[export] Instance set_ClusterID_agree c : Proper (agree ==> agree) (set_ClusterID c).
Proof.
  intros d1 d2 H. unfold agree in *. destruct d1, d2. unfold erase in *. simpl in *.
  injection H. intros. unfold set_ClusterID, set_Databases. simpl. by f_equal.
Qed.

(** The stores of two replicas after a command, or two panics. *)
Definition results_agree (r1 r2 : apply_result) : Prop :=
  match r1, r2 with
  | Some (s1, e1), Some (s2, e2) => agree (st_data s1) (st_data s2) ∧ e1 = e2
  | None, None => True
  | _, _ => False
  end.

Lemma outcome_map_Ok_inj {E A B} (f : A → B) (x y : A) :
  outcome_map f (Ok (E := E) x) = outcome_map f (Ok y) → f x = f y.
Proof. simpl. congruence. Qed.

Lemma commit_agree s1 s2 r1 r2 :
  agree (st_data s1) (st_data s2) → outcome_map erase r1 = outcome_map erase r2 →
  results_agree (commit s1 r1) (commit s2 r2).
Proof.
  intros Hs Hr. destruct r1 as [d1|e1|], r2 as [d2|e2|]; try done.
  - apply outcome_map_Ok_inj in Hr. done.
  - simpl in Hr. split; [done|]. congruence.
Qed.

Lemma commit_clockless op s1 s2 :
  clockless op → agree (st_data s1) (st_data s2) →
  results_agree (commit s1 (op (Data_Clone (st_data s1)))) (commit s2 (op (Data_Clone (st_data s2)))).
Proof.
  intros Hop Hs. apply commit_agree; [done|]. rewrite !Data_Clone_id, !Hop. by rewrite Hs.
Qed.

Lemma forget_agree name r1 r2 :
  results_agree r1 r2 → results_agree (forget_cached name r1) (forget_cached name r2).
Proof. destruct r1 as [[? []]|], r2 as [[? []]|]; simpl; intuition congruence. Qed.

Lemma CreateNode_agree s1 s2 host rand :
  agree (st_data s1) (st_data s2) →
  results_agree (applyCreateNodeCommand s1 host rand) (applyCreateNodeCommand s2 host rand).
Proof.
  intros Hs. unfold applyCreateNodeCommand. rewrite !Data_Clone_id.
  pose proof (CreateNode_clockless host (st_data s1)) as H1.
  pose proof (CreateNode_clockless host (st_data s2)) as H2. simpl in H1, H2.
  rewrite <- Hs, <- H1 in H2. apply commit_agree; [done|].
  destruct (Data_CreateNode (st_data s1) host) as [d1| |],
    (Data_CreateNode (st_data s2) host) as [d2| |]; try done.
  apply outcome_map_Ok_inj in H2. symmetry in H2. assert (agree d1 d2) as Hd by done.
  cbn [outcome_bind outcome_map]. assert (ClusterID d1 = ClusterID d2) as ->.
  { by apply (f_equal ClusterID) in Hd. }
  simpl. f_equal. destruct (ClusterID d2 =? 0); [|done]. by apply set_ClusterID_agree.
Qed.

Lemma UpdateNode_agree s1 s2 id host :
  agree (st_data s1) (st_data s2) →
  results_agree (applyUpdateNodeCommand s1 id host) (applyUpdateNodeCommand s2 id host).
Proof.
  intros Hs. unfold applyUpdateNodeCommand, Data_Node. rewrite !Data_Clone_id.
  assert (Nodes (st_data s1) = Nodes (st_data s2)) as <- by (by apply (f_equal Nodes) in Hs).
  destruct (list_find _ _) as [[i n]|]; [|done]. split; [|done]. simpl.
  unfold agree in *. destruct (st_data s1), (st_data s2). unfold erase in *. simpl in *.
  injection Hs. intros. unfold set_Nodes, set_Databases. simpl. by f_equal.
Qed.

Lemma apply_command_agree now1 now2 s1 s2 cmd :
  now1 ≠ 0 → now2 ≠ 0 → agree (st_data s1) (st_data s2) →
  results_agree (apply_command now1 s1 cmd) (apply_command now2 s2 cmd).
Proof.
  intros H1 H2 Hs.
  pose proof user_ops_clockless as Hu.
  destruct cmd; cbn [apply_command]; try done.
  - by apply CreateNode_agree.
  - exact (commit_clockless _ s1 s2 (DeleteNode_clockless ID Force) Hs).
  - exact (commit_clockless _ s1 s2 (CreateDatabase_clockless Name) Hs).
  - exact (commit_clockless _ s1 s2 (DropDatabase_clockless Name) Hs).
  - exact (commit_clockless _ s1 s2 (CreateRetentionPolicy_clockless _ _) Hs).
  - exact (commit_clockless _ s1 s2 (DropRetentionPolicy_clockless Database Name) Hs).
  - exact (commit_clockless _ s1 s2 (SetDefaultRetentionPolicy_clockless Database Name) Hs).
  - exact (commit_clockless _ s1 s2 (UpdateRetentionPolicy_clockless _ _ _) Hs).
  - exact (commit_clockless _ s1 s2 (CreateShardGroup_clockless Database Policy _) Hs).
  - apply commit_agree; [done|]. rewrite !Data_Clone_id.
    rewrite (DeleteShardGroup_erase now1 now2 (st_data s1)) by done.
    rewrite (DeleteShardGroup_erase now2 now2 (st_data s2)) by done. by rewrite Hs.
  - exact (commit_clockless _ s1 s2 (CreateContinuousQuery_clockless Database Name Query) Hs).
  - exact (commit_clockless _ s1 s2 (DropContinuousQuery_clockless Database Name) Hs).
  - exact (commit_clockless _ s1 s2 (proj1 (Hu Name Hash "" 0 Admin)) Hs).
  - apply forget_agree. exact (commit_clockless _ s1 s2 (proj1 (proj2 (Hu Name "" "" 0 false))) Hs).
  - apply forget_agree.
    exact (commit_clockless _ s1 s2 (proj1 (proj2 (proj2 (Hu Name Hash "" 0 false)))) Hs).
  - exact (commit_clockless _ s1 s2
      (proj1 (proj2 (proj2 (proj2 (Hu Username "" Database Privilege false))))) Hs).
  - exact (commit_clockless _ s1 s2
      (proj2 (proj2 (proj2 (proj2 (Hu Username "" "" 0 Admin))))) Hs).
  - by apply UpdateNode_agree.
  - exact (commit_clockless _ s1 s2 (CreateSubscription_clockless _ _ _ _ _) Hs).
  - exact (commit_clockless _ s1 s2 (DropSubscription_clockless _ _ _) Hs).
  - split; [|done]. unfold applyRemovePeerCommand. by repeat case_match.
Qed.

Lemma Apply_agree now1 now2 s1 s2 l :
  now1 ≠ 0 → now2 ≠ 0 → agree (st_data s1) (st_data s2) →
  results_agree (Apply now1 s1 l) (Apply now2 s2 l).
Proof.
  intros H1 H2 Hs. unfold Apply. destruct (l_cmd l) as [cmd|]; [|done].
  pose proof (apply_command_agree now1 now2 s1 s2 cmd H1 H2 Hs) as H.
  destruct (apply_command now1 s1 cmd) as [[s1' e1]|],
    (apply_command now2 s2 cmd) as [[s2' e2]|]; simpl in *; try done.
  destruct H as [H ->]. split; [|done]. by apply set_TermIndex_agree.
Qed.
End Replicas.
