(* ===== verification/MetaProps.v ===== *)
(** * What the metadata service guarantees

    The statements about [meta/data.go] and the state machine of
    [meta/store.go], each with a concrete instance. *)

From stdpp Require Import base list gmap strings sorting relations.
From Stdlib Require Import ZArith Lia.
From S2P Require Import Prelude MetaData MetaInv MetaShards MetaCodec MetaStore MetaFsm MetaReplica.

Local Open Scope Z_scope.

(** ** Support *)

Lemma list_find_alter {A} (P : A → Prop) `{∀ x, Decision (P x)} (f : A → A) (l : list A) i x :
  (∀ y, P (f y) ↔ P y) → list_find P l = Some (i, x) →
  list_find P (alter f i l) = Some (i, f x).
Proof.
  intros Hf (Hi & Hx & Hj)%list_find_Some. apply list_find_Some. split_and!.
  - by rewrite list_lookup_alter_eq, Hi.
  - by apply Hf.
  - intros j y Hjy Hlt. rewrite list_lookup_alter_ne in Hjy by lia. eauto.
Qed.

(** A write through the pointer a lookup returned is seen by the same lookup. *)
Lemma Data_MustRetentionPolicy_at_rp d db policy p r f :
  (∀ r, rpi_Name (f r) = rpi_Name r) →
  Data_MustRetentionPolicy d db policy = Ok (p, r) →
  Data_MustRetentionPolicy (at_rp p f d) db policy = Ok (p, f r).
Proof.
  intros Hf H. unfold Data_MustRetentionPolicy, Data_RetentionPolicy in *.
  destruct (Data_Database d db) as [[i di]|] eqn:Hdb; [|done].
  destruct (list_find _ (di_RetentionPolicies di)) as [[j r']|] eqn:Hrp; [|done]. simplify_eq/=.
  unfold Data_Database in *. simpl. rewrite (list_find_alter _ _ _ i di); [|done|done].
  simpl. rewrite (list_find_alter _ _ _ j r); [done| |done]. intros y. by rewrite Hf.
Qed.

Lemma insert_group_find {GS : GoSort} g r ts :
  ShardGroupInfo_Contains g ts = true → ShardGroupInfo_Deleted g = false →
  RetentionPolicyInfo_ShardGroupByTimestamp r ts = None →
  ∃ k, RetentionPolicyInfo_ShardGroupByTimestamp (insert_group g r) ts = Some (k, g).
Proof.
  unfold RetentionPolicyInfo_ShardGroupByTimestamp. intros Hc Hd Hnone.
  destruct (list_find _ (rpi_ShardGroups (insert_group g r))) as [[k x]|] eqn:E.
  - exists k. apply list_find_Some in E as (Hk & Hx & _).
    apply list_elem_of_lookup_2 in Hk. rewrite insert_group_perm in Hk.
    apply elem_of_cons in Hk as [->|Hk]; [done|].
    apply list_find_None in Hnone. rewrite Forall_forall in Hnone. by destruct (Hnone x Hk).
  - apply list_find_None in E. rewrite insert_group_perm in E.
    apply Forall_cons in E as [E _]. by rewrite Hc, Hd in E.
Qed.

Lemma new_group_contains d r ts g :
  0 < rpi_ShardGroupDuration r → new_group_spec d r ts g → ShardGroupInfo_Contains g ts = true.
Proof.
  intros Hd [_ Hs He _ _ _ _ _ _]. unfold ShardGroupInfo_Contains, Time_After.
  rewrite He, Hs. pose proof (Time_Truncate_bounds ts _ Hd).
  apply andb_true_iff. split; [apply negb_true_iff, Z.ltb_ge|apply Z.ltb_lt]; lia.
Qed.

Lemma new_group_live d r ts g : new_group_spec d r ts g → ShardGroupInfo_Deleted g = false.
Proof. intros [_ _ _ H _ _ _ _ _]. unfold ShardGroupInfo_Deleted. by rewrite H. Qed.

(** ** A concrete cluster: three nodes, one database with two policies *)

Definition demo_commands : list Command :=
  [ CreateNodeCommand "host0" 77; CreateNodeCommand "host1" 78; CreateNodeCommand "host2" 79;
    CreateDatabaseCommand "db";
    CreateRetentionPolicyCommand "db" (mkpbRetentionPolicyInfo "one" 0 0 1 [] []);
    CreateRetentionPolicyCommand "db" (mkpbRetentionPolicyInfo "two" (30 * 24 * Hour) 0 2 [] []);
    SetDefaultRetentionPolicyCommand "db" "one";
    CreateShardGroupCommand "db" "one" 1000000000000000000;
    CreateUserCommand "ann" "hash" false ].

Definition demo_log : list (Time * Log) :=
  imap (λ i c, (unixEpoch + Z.of_nat i, mkLog 1 (Z.of_nat i + 1) (Some c))) demo_commands.

Definition demo_store : Store := default (Store_new 1 true) (replay (Store_new 1 true) demo_log).
Abbreviation demo := (st_data demo_store).

Lemma replay_reachable {GS : GoSort} s log s' :
  Forall (λ e, ∃ cmd, l_cmd e.2 = Some cmd ∧ client_command cmd) log →
  replay s log = Some s' → nsteps fsm_step (length log) s s'.
Proof.
  intros Hlog. revert s. induction Hlog as [|[now l] log (cmd & Hl & Hcmd) _ IH]; intros s H.
  - simplify_eq/=. constructor.
  - simpl in H. destruct (Apply now s l) as [[s1 e]|] eqn:E; [|done].
    econstructor; [by econstructor|]. by apply IH.
Qed.

Lemma demo_steps : nsteps fsm_step 9 (Store_new 1 true) demo_store.
Proof.
  apply (replay_reachable _ demo_log).
  - repeat (constructor; [eexists; (split; [reflexivity|by (split; [simpl; lia|])])|]). constructor.
  - vm_compute. reflexivity.
Qed.

Lemma demo_inv : fsm_inv demo_store.
Proof. by eapply (reachable_inv 9), demo_steps. Qed.

Lemma demo_room : has_room demo.
Proof. vm_compute. auto. Qed.

(** ** The state machine *)

(** C1: after any sequence of at most [2^31] client commands the metadata is
    well formed: node, group and shard IDs are unique over the whole cluster
    and below their counters, database, policy, query, subscription and user
    names are unique in their scope, shard groups are sorted by start time,
    every shard's owners are distinct nodes of the cluster, and replication
    factors fit their message field. *)
Theorem reachable_metadata_wf {GS : GoSort} (n : nat) (id : Z) (leader : bool) (s : Store) :
  Z.of_nat n ≤ 2 ^ 31 → nsteps fsm_step n (Store_new id leader) s →
  Data_wf (st_data s) ∧ all_policies replica_ok (st_data s) ∧ counters_le n (st_data s).
Proof. intros Hn Hs. by destruct (reachable_inv n id leader s Hn Hs) as [[? ?] ?]. Qed.

Lemma reachable_metadata_wf_witness :
  nsteps fsm_step 9 (Store_new 1 true) demo_store ∧ length (Nodes demo) = 3%nat ∧ Data_wf demo.
Proof.
  split; [apply demo_steps|]. split; [vm_compute; reflexivity|].
  apply (reachable_metadata_wf 9 1 true demo_store); [lia|apply demo_steps].
Defined.

Lemma MustRetentionPolicy_no_panic d db rp : Data_MustRetentionPolicy d db rp ≠ Panic.
Proof.
  unfold Data_MustRetentionPolicy, Data_RetentionPolicy, outcome_bind. intros H. go_solve.
Qed.

Lemma commit_None s r : commit s r = None ↔ r = Panic.
Proof. by destruct r. Qed.

Lemma forget_None name r : forget_cached name r = None ↔ r = None.
Proof. by destruct r as [[? []]|]. Qed.

Lemma UpdateRetentionPolicy_no_panic d db name rpu : Data_UpdateRetentionPolicy d db name rpu ≠ Panic.
Proof.
  unfold Data_UpdateRetentionPolicy. destruct (Data_Database d db) as [[i di]|]; [|done].
  destruct (DatabaseInfo_RetentionPolicy di name) as [[j r]|]; [|done].
  destruct (match rpu_Name rpu with Some _ => _ | None => _ end); [done|].
  by destruct (match rpu_Duration rpu with Some _ => _ | None => _ end).
Qed.

(** A policy that a lookup finds has the property all policies have. *)
Lemma all_policies_lookup P d p r : all_policies P d → lookup_rp d p = Some r → P r.
Proof.
  intros H (di & Hdi & Hr)%bind_Some. unfold all_policies in H.
  eapply Forall_lookup_1 in H; [|exact Hdi]. simpl in H. by eapply Forall_lookup_1 in H.
Qed.

Lemma CreateShardGroup_no_panic {GS : GoSort} d db p ts :
  Data_wf d → all_policies replica_ok d → has_room d → Data_CreateShardGroup d db p ts ≠ Panic.
Proof.
  intros Hwf HP Hroom H. pose proof (wf_max _ Hwf) as (_ & HG & HS).
  destruct (decide (Nodes d = [])) as [E|Hn].
  { unfold Data_CreateShardGroup in H. by rewrite E in H. }
  destruct (Data_MustRetentionPolicy d db p) as [[q r]| |] eqn:Hrp.
  - destruct (RetentionPolicyInfo_ShardGroupByTimestamp r ts) eqn:Hts.
    + unfold Data_CreateShardGroup in H. rewrite Hrp in H. simpl in H.
      rewrite Hts in H. by destruct (_ =? 0).
    + pose proof Hrp as Hq. apply Data_MustRetentionPolicy_Ok in Hq as [Hq _].
      destruct (all_policies_lookup _ _ _ _ HP Hq) as [Hr _].
      destruct (Data_CreateShardGroup_succeeds d db p ts q r) as [d' Hd']; [done..|].
      by rewrite Hd' in H.
  - unfold Data_CreateShardGroup in H. rewrite Hrp in H. by destruct (_ =? 0).
  - by eapply MustRetentionPolicy_no_panic.
Qed.

(** C2: a command takes the process down exactly when its type is unknown, or
    when it drops a subscription of a policy that does not exist in a database
    that does; no other client command panics. *)
Theorem panics_characterized {GS : GoSort} (now : Time) (s : Store) (cmd : Command) :
  fsm_inv s → has_room (st_data s) → command_wf cmd →
  apply_command now s cmd = None ↔
  cmd = UnknownCommand ∨
  ∃ name db rp, cmd = DropSubscriptionCommand name db rp ∧
                Data_RetentionPolicy (st_data s) db rp = Ok None.
Proof.
  intros [Hwf HP] Hroom Hcmd. split.
  - intros H. destruct cmd; cbn [apply_command] in H; auto; try done.
    all: try (apply forget_None in H). all: try (apply commit_None in H).
    all: rewrite ?Data_Clone_id in H. all: try (op_inv H; done).
    + by apply UpdateRetentionPolicy_no_panic in H.
    + by apply CreateShardGroup_no_panic in H.
    + unfold Data_DeleteShardGroup, outcome_bind in H. go_solve.
      by edestruct MustRetentionPolicy_no_panic.
    + unfold applyUpdateNodeCommand in H. go_solve.
    + unfold Data_CreateSubscription, outcome_bind in H. go_solve.
      by edestruct MustRetentionPolicy_no_panic.
    + right. do 3 eexists. split; [done|]. op_inv H.
      unfold Data_RetentionPolicy in *. go_solve.
  - intros [->|(name & db & rp & -> & H)]; [done|]. apply commit_None.
    rewrite Data_Clone_id. unfold Data_DropSubscription. by rewrite H.
Qed.

(** The crash: dropping a subscription of the policy "nope" of "db". *)
Lemma panics_characterized_witness :
  apply_command 1 demo_store (DropSubscriptionCommand "sub" "db" "nope") = None.
Proof.
  refine (proj2 (panics_characterized 1 demo_store (DropSubscriptionCommand "sub" "db" "nope")
    demo_inv demo_room I) _).
  right. exists "sub"%string, "db"%string, "nope"%string. split; [reflexivity|vm_compute; reflexivity].
Defined.

(** C3: a command that reports an error leaves the whole store as it was; only
    the term and the index of the entry are recorded. *)
Theorem failed_command_changes_nothing {GS : GoSort} (now : Time) (s s' : Store) (l : Log) (e : MetaError) :
  Apply now s l = Some (s', Some e) →
  s' = notifyChanged (set_data (set_TermIndex (l_Term l) (l_Index l) (st_data s)) s).
Proof.
  intros H. unfold Apply in H. destruct (l_cmd l) as [cmd|]; [|done].
  destruct (apply_command now s cmd) as [[s1 e1]|] eqn:E; [|done]. simplify_eq.
  enough (s1 = s) as -> by done.
  destruct cmd; cbn [apply_command] in E; try done.
  all: try (unfold applyDropUserCommand, applyUpdateUserCommand, forget_cached in E;
    destruct (commit s _) as [[? []]|] eqn:E'; simplify_eq; apply commit_Some in E').
  all: try (apply commit_Some in E).
  all: try (unfold applyUpdateNodeCommand in E; go_solve; done).
  all: match goal with H : (∃ _, _) ∨ _ |- _ =>
    destruct H as [(? & ? & ? & ?)|(? & ? & ? & ?)] end; by simplify_eq.
Qed.

Lemma failed_command_changes_nothing_witness :
  ∃ s', Apply 5 demo_store (mkLog 2 10 (Some (CreateDatabaseCommand "db"))) = Some (s', Some ErrDatabaseExists)
        ∧ Databases (st_data s') = Databases demo.
Proof.
  eexists. split; [vm_compute; reflexivity|].
  rewrite (failed_command_changes_nothing 5 demo_store _
    (mkLog 2 10 (Some (CreateDatabaseCommand "db"))) ErrDatabaseExists); vm_compute; reflexivity.
Defined.

(** C4: two replicas that apply one log, each with its own clock, either both
    panic or end with metadata that is equal up to the deletion times of shard
    groups (of which they agree which are set). *)
Theorem replicas_agree {GS : GoSort} (s1 s2 : Store) (log : list (Time * Time * Log)) :
  Forall (λ e, e.1.1 ≠ 0 ∧ e.1.2 ≠ 0) log → agree (st_data s1) (st_data s2) →
  match replay s1 ((λ e, (e.1.1, e.2)) <$> log), replay s2 ((λ e, (e.1.2, e.2)) <$> log) with
  | Some s1', Some s2' => agree (st_data s1') (st_data s2')
  | None, None => True
  | _, _ => False
  end.
Proof.
  intros Hlog. revert s1 s2. induction Hlog as [|[[t1 t2] l] log [Ht1 Ht2] _ IH]; intros s1 s2 Hs.
  - done.
  - csimpl. pose proof (Apply_agree t1 t2 s1 s2 l Ht1 Ht2 Hs) as H.
    destruct (Apply t1 s1 l) as [[s1' e1]|], (Apply t2 s2 l) as [[s2' e2]|]; try done.
    destruct H as [H _]. by apply IH.
Qed.

(** The clocks do show: deleting a group at different times gives different
    metadata. *)
Lemma replicas_agree_witness :
  let del := mkLog 1 10 (Some (DeleteShardGroupCommand "db" "one" 1)) in
  match replay demo_store [(5, del)], replay demo_store [(6, del)] with
  | Some s1, Some s2 => agree (st_data s1) (st_data s2)
  | None, None => True
  | _, _ => False
  end ∧ replay demo_store [(5, del)] ≠ replay demo_store [(6, del)].
Proof.
  intros del. split.
  - apply (replicas_agree demo_store demo_store [((5, 6), del)]); [by repeat constructor|reflexivity].
  - vm_compute. congruence.
Defined.

(** ** Shard groups *)

(** C5: creating a shard group for a timestamp no live group covers succeeds;
    the new group has the next group ID and consecutive new shard IDs, spans
    the policy's shard-group duration from the truncated timestamp, is the
    group a lookup of the timestamp now returns, and is the only change to the
    groups of the cluster. *)
Theorem CreateShardGroup_correct {GS : GoSort} (d : Data) (db policy : string) (ts : Time)
    (p : nat * nat) (r : RetentionPolicyInfo) :
  Data_wf d → has_room d → Nodes d ≠ [] →
  Data_MustRetentionPolicy d db policy = Ok (p, r) →
  0 ≤ rpi_ReplicaN r → 0 < rpi_ShardGroupDuration r →
  RetentionPolicyInfo_ShardGroupByTimestamp r ts = None →
  ∃ d' g k, Data_CreateShardGroup d db policy ts = Ok d' ∧ new_group_spec d r ts g ∧
    Data_ShardGroupByTimestamp d' db policy ts = Ok (Some (k, g)) ∧
    all_groups d' ≡ₚ g :: all_groups d.
Proof.
  intros Hwf Hroom Hn Hrp Hr Hdur Hts. pose proof (wf_max _ Hwf) as (_ & HG & HS).
  destruct (Data_CreateShardGroup_succeeds d db policy ts p r) as [d' Hd']; [done..|].
  destruct (Data_CreateShardGroup_Ok d db policy ts d') as (p' & r' & g & Hrp' & _ & Hg & E); [done..|].
  rewrite Hrp in Hrp'. simplify_eq.
  destruct (insert_group_find g r' ts) as [k Hk]; [by eapply new_group_contains|by eapply new_group_live|done|].
  eexists _, g, k. split_and!; [done|done| |].
  - unfold Data_ShardGroupByTimestamp.
    rewrite (Data_MustRetentionPolicy_at_rp _ _ _ p' r'); [|done|done]. simpl. by rewrite Hk.
  - apply Data_MustRetentionPolicy_Ok in Hrp as [Hp _].
    destruct (all_groups_at_rp d p' r' Hp) as (rest & H1 & H2).
    change (all_groups (at_rp p' (insert_group g) d) ≡ₚ g :: all_groups d).
    by rewrite H2, H1, insert_group_perm.
Qed.

Lemma CreateShardGroup_correct_witness :
  ∃ d' g k, Data_CreateShardGroup demo "db" "two" (unixEpoch + 5) = Ok d' ∧
    Data_ShardGroupByTimestamp d' "db" "two" (unixEpoch + 5) = Ok (Some (k, g)) ∧ sgi_ID g = 2.
Proof.
  destruct (CreateShardGroup_correct demo "db" "two" (unixEpoch + 5) (0%nat, 1%nat)
    (mkRetentionPolicyInfo "two" 2 (30 * 24 * Hour) (24 * Hour) [] []))
    as (d' & g & k & H1 & H2 & H3 & _).
  - apply demo_inv.
  - apply demo_room.
  - vm_compute. congruence.
  - vm_compute. reflexivity.
  - simpl. lia.
  - vm_compute. reflexivity.
  - reflexivity.
  - exists d', g, k. split; [exact H1|]. split; [exact H3|].
    rewrite (ng_ID _ _ _ _ H2). vm_compute. reflexivity.
Defined.

Lemma owners_unique (ss : list ShardInfo) i j si sj n :
  NoDup (so_NodeID <$> (ss ≫= si_Owners)) →
  ss !! i = Some si → ss !! j = Some sj →
  ShardInfo_OwnedBy si n = true → ShardInfo_OwnedBy sj n = true → i = j.
Proof.
  assert (∀ s, ShardInfo_OwnedBy s n = true → n ∈ so_NodeID <$> si_Owners s) as Hin.
  { intros s [o [Ho E%Z.eqb_eq]]%existsb_exists. subst. by apply list_elem_of_fmap_2, list_elem_of_In. }
  assert (∀ ss k s, ss !! k = Some s → ShardInfo_OwnedBy s n = true →
    n ∈ so_NodeID <$> (ss ≫= si_Owners)) as Hall.
  { intros l k s Hk Ho. rewrite fmap_bind. apply list_elem_of_bind. exists s.
    split; [by apply Hin|by eapply list_elem_of_lookup_2]. }
  revert i j. induction ss as [|s ss IH]; intros i j Hnd Hi Hj Hoi Hoj; [done|].
  csimpl in Hnd. rewrite fmap_app in Hnd. apply NoDup_app in Hnd as (_ & Hd & Hnd).
  destruct i as [|i], j as [|j]; simplify_eq/=; try done.
  - exfalso. apply (Hd n); [by apply Hin|by eapply Hall].
  - exfalso. apply (Hd n); [by apply Hin|by eapply Hall].
  - f_equal. by eapply IH.
Qed.

(** C6: the placement of a new group: each shard gets the policy's number of
    replicas (at least one, at most one per node) on distinct nodes, the shard
    count is the node count divided by that number, and no node holds two
    shards of the group. *)
Theorem CreateShardGroup_placement {GS : GoSort} (d : Data) (db policy : string) (ts : Time) (d' : Data) :
  Data_wf d → has_room d → Data_CreateShardGroup d db policy ts = Ok d' →
  ∃ p r g, Data_MustRetentionPolicy d db policy = Ok (p, r) ∧ g ∈ all_groups d' ∧
    sgi_ID g = MaxShardGroupID d' ∧
    let R := effective_replicaN (rpi_ReplicaN r) (Z.of_nat (length (Nodes d))) in
    Z.of_nat (length (sgi_Shards g)) = Z.of_nat (length (Nodes d)) ÷ R ∧
    Forall (λ s, length (si_Owners s) = Z.to_nat R ∧ shard_wf (node_ids d) s) (sgi_Shards g) ∧
    ∀ i j si sj n, sgi_Shards g !! i = Some si → sgi_Shards g !! j = Some sj →
      ShardInfo_OwnedBy si n = true → ShardInfo_OwnedBy sj n = true → i = j.
Proof.
  intros Hwf Hroom H. pose proof (wf_max _ Hwf) as (_ & HG & HS).
  destruct (Data_CreateShardGroup_Ok d db policy ts d') as (p & r & g & Hrp & _ & Hg & E); [done..|].
  pose proof (ng_balanced _ _ _ _ Hg (wf_node_ids _ Hwf)) as Hbal.
  assert (all_groups d' ≡ₚ g :: all_groups d) as Hp.
  { subst. pose proof Hrp as Hq. apply Data_MustRetentionPolicy_Ok in Hq as [Hq _].
    destruct (all_groups_at_rp d p r Hq) as (rest & H1 & H2).
    change (all_groups (at_rp p (insert_group g) d) ≡ₚ g :: all_groups d).
    by rewrite H2, H1, insert_group_perm. }
  assert (Data_wf d') as Hwf' by (by eapply Data_CreateShardGroup_wf).
  assert (g ∈ all_groups d') as Hin by (rewrite Hp; by left).
  exists p, r, g. split_and!; [done|done| |intros R; split_and!].
  - rewrite (ng_ID _ _ _ _ Hg). by subst.
  - apply Hg.
  - apply Forall_forall. intros s Hs. split.
    + pose proof (ng_replicas _ _ _ _ Hg) as Hr. rewrite Forall_forall in Hr. by apply Hr.
    + pose proof (wf_owners _ Hwf') as Ho. rewrite Forall_forall in Ho.
      replace (node_ids d) with (node_ids d') by by subst. apply Ho.
      apply list_elem_of_bind. eauto.
  - intros i j si sj n. by apply owners_unique.
Qed.

Lemma CreateShardGroup_placement_witness :
  ∃ d', Data_CreateShardGroup demo "db" "one" unixEpoch = Ok d' ∧ MaxShardGroupID d' = 2 ∧
    ∃ g, g ∈ all_groups d' ∧ Z.of_nat (length (sgi_Shards g)) = 3.
Proof.
  eexists. split; [vm_compute; reflexivity|]. split; [vm_compute; reflexivity|].
  edestruct (CreateShardGroup_placement demo "db" "one" unixEpoch) as (p & r & g & Hrp & Hin & _ & Hlen & _).
  - apply demo_inv.
  - apply demo_room.
  - vm_compute. reflexivity.
  - exists g. split; [exact Hin|]. rewrite Hlen.
    assert (rpi_ReplicaN r = 1) as ->; [|vm_compute; reflexivity].
    apply (f_equal (λ x, match x with Ok (_, r) => rpi_ReplicaN r | _ => 0 end)) in Hrp.
    vm_compute in Hrp. symmetry. exact Hrp.
Defined.

(** The live groups of a policy lie on the grid of its shard-group duration,
    at most one per cell. *)
Definition live (g : ShardGroupInfo) : Prop := ShardGroupInfo_Deleted g = false.
Definition tiled (r : RetentionPolicyInfo) : Prop :=
  0 < rpi_ShardGroupDuration r ∧
  Forall (λ g, sgi_StartTime g mod rpi_ShardGroupDuration r = 0 ∧
               sgi_EndTime g = sgi_StartTime g + rpi_ShardGroupDuration r)
    (filter live (rpi_ShardGroups r)) ∧
  NoDup (sgi_StartTime <$> filter live (rpi_ShardGroups r)).

Lemma Contains_spec g ts :
  ShardGroupInfo_Contains g ts = true ↔ sgi_StartTime g ≤ ts < sgi_EndTime g.
Proof.
  unfold ShardGroupInfo_Contains, Time_After. rewrite andb_true_iff, negb_true_iff, Z.ltb_ge, Z.ltb_lt.
  done.
Qed.

Lemma tiled_unique r g1 g2 ts :
  tiled r → g1 ∈ filter live (rpi_ShardGroups r) → g2 ∈ filter live (rpi_ShardGroups r) →
  ShardGroupInfo_Contains g1 ts = true → ShardGroupInfo_Contains g2 ts = true →
  sgi_StartTime g1 = sgi_StartTime g2.
Proof.
  intros (HD & Hal & _) H1 H2 [C1 C1']%Contains_spec [C2 C2']%Contains_spec.
  rewrite Forall_forall in Hal. apply Hal in H1 as [A1 E1]. apply Hal in H2 as [A2 E2].
  apply (mod_inj_range _ _ (rpi_ShardGroupDuration r)); lia.
Qed.

Lemma tiled_insert {GS : GoSort} d r ts g :
  tiled r → RetentionPolicyInfo_ShardGroupByTimestamp r ts = None → new_group_spec d r ts g → tiled (insert_group g r).
Proof.
  intros (HD & Hal & Hnd) Hts Hg.
  assert (filter live (rpi_ShardGroups (insert_group g r)) ≡ₚ g :: filter live (rpi_ShardGroups r)) as Hp.
  { rewrite insert_group_perm. rewrite filter_cons_True; [done|]. by eapply new_group_live. }
  unfold tiled. rewrite Hp. split_and!; [done| |].
  - constructor; [|done]. simpl. rewrite (ng_end _ _ _ _ Hg), (ng_start _ _ _ _ Hg).
    split; [by apply Time_Truncate_aligned|done].
  - csimpl. constructor; [|done]. intros (g0 & Eg & Hg0)%list_elem_of_fmap.
    unfold RetentionPolicyInfo_ShardGroupByTimestamp in Hts. apply list_find_None in Hts.
    rewrite Forall_forall in Hts. rewrite Forall_forall in Hal.
    pose proof (Hal _ Hg0) as [_ Hend]. apply list_elem_of_filter in Hg0 as [Hl Hin].
    apply (Hts g0 Hin). unfold live in Hl. rewrite Hl. simpl. rewrite andb_true_r.
    apply Is_true_true, Contains_spec. rewrite Hend, <- Eg, (ng_start _ _ _ _ Hg).
    by apply Time_Truncate_bounds.
Qed.

(** C7: as long as the duration of a policy's groups is not changed, its live
    groups never overlap: creating a group in a tiled policy leaves it tiled,
    and in a tiled policy a timestamp belongs to at most one live group. *)
Theorem CreateShardGroup_tiled {GS : GoSort} (d : Data) (db policy : string) (ts : Time)
    (p : nat * nat) (r : RetentionPolicyInfo) (d' : Data) :
  Data_wf d → has_room d → Data_MustRetentionPolicy d db policy = Ok (p, r) → tiled r →
  Data_CreateShardGroup d db policy ts = Ok d' →
  ∃ r', Data_MustRetentionPolicy d' db policy = Ok (p, r') ∧ tiled r' ∧
    ∀ t g1 g2, g1 ∈ filter live (rpi_ShardGroups r') → g2 ∈ filter live (rpi_ShardGroups r') →
      ShardGroupInfo_Contains g1 t = true → ShardGroupInfo_Contains g2 t = true →
      sgi_StartTime g1 = sgi_StartTime g2.
Proof.
  intros Hwf Hroom Hrp Ht H. pose proof (wf_max _ Hwf) as (_ & HG & HS).
  destruct (Data_CreateShardGroup_Ok d db policy ts d') as (p' & r' & g & Hrp' & Hts & Hg & E); [done..|].
  rewrite Hrp in Hrp'. simplify_eq. pose proof (tiled_insert _ _ _ _ Ht Hts Hg) as Ht'.
  exists (insert_group g r'). split_and!; [|done|].
  - by rewrite (Data_MustRetentionPolicy_at_rp _ _ _ p' r').
  - intros t g1 g2. by apply tiled_unique.
Qed.

Lemma CreateShardGroup_tiled_witness :
  ∃ d' r', Data_CreateShardGroup demo "db" "one" unixEpoch = Ok d' ∧
    Data_MustRetentionPolicy d' "db" "one" = Ok ((0%nat, 0%nat), r') ∧ tiled r'.
Proof.
  eexists. edestruct (CreateShardGroup_tiled demo "db" "one" unixEpoch (0%nat, 0%nat))
    as (r' & Hr' & Ht & _).
  - apply demo_inv.
  - apply demo_room.
  - vm_compute. reflexivity.
  - split_and!; [reflexivity|by repeat constructor|]. vm_compute.
    apply NoDup_singleton.
  - vm_compute. reflexivity.
  - exists r'. split; [vm_compute; reflexivity|]. split; [exact Hr'|exact Ht].
Defined.

(** Changing a policy's duration breaks that: with a longer shard-group
    duration a new group can overlap a live one, so a timestamp has two homes. *)
Theorem UpdateRetentionPolicy_overlap :
  ∃ d1 d2 r g1 g2,
    Data_UpdateRetentionPolicy demo "db" "one" (mkRetentionPolicyUpdate None (Some Hour) None) = Ok d1 ∧
    Data_CreateShardGroup d1 "db" "one" (unixEpoch + 1000000000000000000 - 7 * 24 * Hour) = Ok d2 ∧
    (let! d3 := Data_UpdateRetentionPolicy d2 "db" "one" (mkRetentionPolicyUpdate None (Some 0) None) in
     Data_CreateShardGroup d3 "db" "one" (unixEpoch + 1000000000000000000 - 7 * 24 * Hour - Hour)) = Ok r ∧
    g1 ∈ all_groups r ∧ g2 ∈ all_groups r ∧ live g1 ∧ live g2 ∧ sgi_ID g1 ≠ sgi_ID g2 ∧
    ∃ t, ShardGroupInfo_Contains g1 t = true ∧ ShardGroupInfo_Contains g2 t = true.
Proof.
  do 5 eexists. split; [vm_compute; reflexivity|]. split; [vm_compute; reflexivity|].
  split; [vm_compute; reflexivity|]. split; [left; reflexivity|].
  split; [right; left; reflexivity|]. split_and!; [reflexivity..|vm_compute; congruence|].
  exists (unixEpoch + 1000000000000000000 - 7 * 24 * Hour). vm_compute. auto.
Qed.

(** ** Removing nodes *)

Lemma DeleteNode_data d id force d' :
  Data_DeleteNode d id force = Ok d' →
  Nodes d' = filter (λ n, ni_ID n ≠ id) (Nodes d) ∧
  all_shards d' = drop_owner id <$> all_shards d.
Proof.
  intros H. op_inv H. split; [done|]. set (d1 := set_Databases _ d).
  change (all_shards (set_Nodes _ _)) with (all_groups d1 ≫= sgi_Shards).
  unfold d1. by rewrite all_groups_map_shards, shards_map_shards.
Qed.

(** C9: after a node was removed it is gone from the node list and owns no
    shard; every shard keeps its ID and its other owners, in order. *)
Theorem DeleteNode_removes (d : Data) (id : Z) (force : bool) (d' : Data) :
  Data_DeleteNode d id force = Ok d' →
  (id ∉ node_ids d') ∧
  Forall (λ s, ShardInfo_OwnedBy s id = false) (all_shards d') ∧
  (λ s, (si_ID s, so_NodeID <$> si_Owners s)) <$> all_shards d' =
  (λ s, (si_ID s, filter (λ n, n ≠ id) (so_NodeID <$> si_Owners s))) <$> all_shards d.
Proof.
  intros [HN HS]%DeleteNode_data. unfold node_ids. rewrite HN, HS, filter_ids_Nodes. split_and!.
  - by intros [? _]%list_elem_of_filter.
  - apply Forall_fmap, Forall_forall. intros s _. simpl. unfold ShardInfo_OwnedBy.
    rewrite drop_owner_owners. apply not_true_iff_false.
    intros (o & Ho & E)%existsb_exists. apply list_elem_of_In, list_elem_of_filter in Ho as [Ho _]. lia.
  - rewrite <- list_fmap_compose. apply list_fmap_ext. intros _ s _. simpl.
    rewrite drop_owner_ID, drop_owner_owners. f_equal.
    induction (si_Owners s) as [|o os IH]; csimpl; [done|]. rewrite !filter_cons.
    repeat case_decide; csimpl; by rewrite ?IH.
Qed.

Lemma DeleteNode_removes_witness :
  ∃ d', Data_DeleteNode demo 2 true = Ok d' ∧ 2 ∉ node_ids d'.
Proof.
  eexists. split; [vm_compute; reflexivity|].
  apply (DeleteNode_removes demo 2 true). vm_compute. reflexivity.
Defined.

(** C10: without [force] no unreplicated data is lost: a shard of a policy
    with at most one replica that had an owner still has one. *)
Theorem DeleteNode_keeps_unreplicated (d : Data) (id : Z) (d' : Data)
    (di : DatabaseInfo) (rp : RetentionPolicyInfo) (sg : ShardGroupInfo) (s : ShardInfo) :
  Data_wf d → Data_DeleteNode d id false = Ok d' →
  di ∈ Databases d → rp ∈ di_RetentionPolicies di → sg ∈ rpi_ShardGroups rp → s ∈ sgi_Shards sg →
  rpi_ReplicaN rp ≤ 1 → si_Owners s ≠ [] →
  ∃ s', s' ∈ all_shards d' ∧ si_ID s' = si_ID s ∧ si_Owners s' ≠ [].
Proof.
  intros Hwf H Hdi Hrp Hsg Hs Hrep Hown.
  assert (s ∈ all_shards d) as Hall.
  { apply list_elem_of_bind. exists sg. split; [done|]. apply list_elem_of_bind. exists di.
    split; [|done]. apply list_elem_of_bind. eauto. }
  exists (drop_owner id s). destruct (DeleteNode_data _ _ _ _ H) as [_ ->]. split_and!.
  - apply list_elem_of_fmap. eauto.
  - apply drop_owner_ID.
  - assert (sole_owner id s = false) as Hsole.
    { apply not_true_iff_false. intros Hsole. unfold Data_DeleteNode in H.
      assert (has_unreplicated id d = true) as E; [|rewrite E in H; by go_solve].
      unfold has_unreplicated. apply existsb_exists. exists di. split; [by apply list_elem_of_In|].
      apply existsb_exists. exists rp. split; [by apply list_elem_of_In|].
      destruct (Z.ltb_spec 1 (rpi_ReplicaN rp)); [lia|].
      apply existsb_exists. exists sg. split; [by apply list_elem_of_In|].
      apply existsb_exists. exists s. split; [by apply list_elem_of_In|done]. }
    pose proof (wf_owners _ Hwf) as Ho. rewrite Forall_forall in Ho. destruct (Ho s Hall) as [Hnd _].
    rewrite drop_owner_owners. unfold sole_owner, ShardInfo_OwnedBy in Hsole.
    destruct (si_Owners s) as [|o1 [|o2 os]]; [done| |].
    + simpl in Hsole. rewrite andb_true_r, orb_false_r in Hsole.
      rewrite filter_cons_True; [done|lia].
    + csimpl in Hnd. apply NoDup_cons in Hnd as [Hne _].
      rewrite !filter_cons. repeat case_decide; try done.
      exfalso. apply Hne, elem_of_cons. left. lia.
Qed.

Lemma DeleteNode_keeps_unreplicated_witness :
  Data_DeleteNode demo 2 false = Err ErrShardNotReplicated ∧
  ∃ d1 d2, Data_CreateNode demo "host3" = Ok d1 ∧ Data_DeleteNode d1 4 false = Ok d2 ∧
    ∃ s', s' ∈ all_shards d2 ∧ si_ID s' = 1 ∧ si_Owners s' ≠ [].
Proof.
  split; [vm_compute; reflexivity|]. do 2 eexists.
  split; [vm_compute; reflexivity|]. split; [vm_compute; reflexivity|].
  assert (∃ d1, Data_CreateNode demo "host3" = Ok d1) as [d1 E] by (eexists; vm_compute; reflexivity).
  pose proof (Data_CreateNode_wf demo "host3" d1 (fi_wf _ demo_inv) demo_room E) as Hwf.
  vm_compute in E. injection E as <-.
  eapply (DeleteNode_keeps_unreplicated _ 4 _ _ _ _ (mkShardInfo 1 [mkShardOwner 2]) Hwf).
  - vm_compute. reflexivity.
  - by left.
  - by left.
  - by left.
  - by left.
  - simpl. lia.
  - done.
Defined.

(** The check of C10 skips replicated policies.  With two replicas on
    two nodes, removing one node (without [force]) leaves one copy; removing
    the node that has it, again without [force], also succeeds and leaves a
    shard without an owner. *)
Theorem DeleteNode_loses_last_copy :
  ∃ d1 d2,
    (let! d := Data_CreateNode Data_zero "a" in
     let! d := Data_CreateNode d "b" in
     let! d := Data_CreateDatabase d "db" in
     let! d := Data_CreateRetentionPolicy d "db" (mkRetentionPolicyInfo "rp" 2 0 0 [] []) in
     let! d := Data_CreateShardGroup d "db" "rp" unixEpoch in
     let! d := Data_DeleteNode d 1 false in
     Data_CreateNode d "c") = Ok d1 ∧
    all_shards d1 = [mkShardInfo 1 [mkShardOwner 2]] ∧
    Data_DeleteNode d1 2 false = Ok d2 ∧
    all_shards d2 = [mkShardInfo 1 []].
Proof. do 2 eexists. split_and!; vm_compute; reflexivity. Qed.

(** ** Names *)

(** Creating a database and dropping it again gives back the metadata,
    and in between the database is found, empty; the name of a database that
    exists is refused. *)
Theorem create_drop_database (d : Data) (name : string) :
  name ≠ "" → Data_Database d name = None →
  ∃ d1, Data_CreateDatabase d name = Ok d1 ∧
    Data_Database d1 name = Some (length (Databases d), mkDatabaseInfo name "" [] []) ∧
    Data_CreateDatabase d1 name = Err ErrDatabaseExists ∧
    Data_DropDatabase d1 name = Ok d.
Proof.
  intros Hname Hd. assert (Data_CreateDatabase d name =
    Ok (set_Databases (Databases d ++ [mkDatabaseInfo name "" [] []]) d)) as E.
  { unfold Data_CreateDatabase. rewrite decide_False by done. by rewrite Hd. }
  assert (list_find (λ di, di_Name di = name) (Databases d ++ [mkDatabaseInfo name "" [] []]) =
    Some (length (Databases d), mkDatabaseInfo name "" [] [])) as Ef.
  { rewrite list_find_app_r by done. simpl. rewrite decide_True by done. simpl. done. }
  eexists. split; [exact E|]. unfold Data_CreateDatabase, Data_DropDatabase, Data_Database. simpl.
  rewrite Ef, decide_False by done. split_and!; [done..|]. do 2 f_equal. unfold remove_at.
  rewrite take_app_length, drop_ge, app_nil_r by (rewrite length_app; simpl; lia). by destruct d.
Qed.

Lemma create_drop_database_witness :
  ∃ d1, Data_CreateDatabase demo "metrics" = Ok d1 ∧ Data_DropDatabase d1 "metrics" = Ok demo.
Proof.
  destruct (create_drop_database demo "metrics") as (d1 & H1 & _ & _ & H2).
  - done.
  - vm_compute. reflexivity.
  - exists d1. split; [exact H1|exact H2].
Defined.

(** A database's default policy is unset or one of its policies. *)
Definition default_ok (di : DatabaseInfo) : Prop :=
  di_DefaultRetentionPolicy di = "" ∨
  is_Some (DatabaseInfo_RetentionPolicy di (di_DefaultRetentionPolicy di)).

(** Renaming the default policy of a database leaves the database with a
    default policy that does not exist. *)
Theorem rename_default_policy_dangles (d : Data) (db name new : string) (i j : nat)
    (di : DatabaseInfo) (r : RetentionPolicyInfo) :
  Data_wf d → Data_Database d db = Some (i, di) →
  DatabaseInfo_RetentionPolicy di name = Some (j, r) → name ≠ "" → new ≠ name →
  DatabaseInfo_RetentionPolicy di new = None → di_DefaultRetentionPolicy di = name →
  ∃ d' di', Data_UpdateRetentionPolicy d db name (mkRetentionPolicyUpdate (Some new) None None) = Ok d' ∧
    Data_Database d' db = Some (i, di') ∧ ~ default_ok di'.
Proof.
  intros Hwf Hdb Hrp Hne Hnew Hnone Hdef.
  pose proof (Data_Database_Some _ _ _ _ Hdb) as [Hi _].
  pose proof (wf_dbs _ Hwf) as Hdbs. eapply Forall_lookup_1 in Hdbs as (_ & Hnd & _); [|exact Hi].
  eexists _, _. split_and!.
  - unfold Data_UpdateRetentionPolicy. rewrite Hdb, Hrp. simpl.
    rewrite bool_decide_true by done. rewrite bool_decide_false by (rewrite Hnone; by intros []).
    reflexivity.
  - unfold Data_Database in *. simpl. by rewrite (list_find_alter _ _ _ i di).
  - unfold default_ok. simpl. rewrite Hdef. intros [?|Hs]; [done|].
    unfold DatabaseInfo_RetentionPolicy in *. simpl in Hs.
    destruct Hs as [[k x] Hk]. apply list_find_Some in Hk as (Hk & Hx & _). simpl in Hx.
    apply list_find_Some in Hrp as (Hj & Hr & _). simpl in Hr. rewrite list_lookup_alter in Hk.
    destruct (decide (j = k)) as [->|Hjk].
    + rewrite Hj in Hk. simplify_eq/=.
    + apply Hjk. eapply (NoDup_lookup (rpi_Name <$> di_RetentionPolicies di)); [done| |].
      * by rewrite list_lookup_fmap, Hj.
      * rewrite list_lookup_fmap, Hk. simpl. by rewrite Hx, Hr.
Qed.

Lemma rename_default_policy_dangles_witness :
  ∃ d' di', Data_UpdateRetentionPolicy demo "db" "one"
      (mkRetentionPolicyUpdate (Some "uno") None None) = Ok d' ∧
    Data_Database d' "db" = Some (0%nat, di') ∧ ~ default_ok di'.
Proof.
  eapply (rename_default_policy_dangles demo "db" "one" "uno" 0 0).
  - apply demo_inv.
  - vm_compute. reflexivity.
  - vm_compute. reflexivity.
  - done.
  - done.
  - vm_compute. reflexivity.
  - vm_compute. reflexivity.
Defined.

(** ** Snapshots *)

(** C14: For metadata whose replication factors are 32-bit numbers, whose
    privileges are [int32] and whose times are the zero time or [int64] nanoseconds,
    [Persist] writes one block and closes the sink, and [Restore] of this block into
    any store gives [restored] metadata: everything as it was, but for the
    subscriptions, which are gone, the Unix epoch, which is read as the zero time,
    and nil maps of privileges, which are empty maps.  When none of the three
    occurs, the metadata is the same. *)
Theorem snapshot_roundtrip {bytes : Type} {PB : Protobuf bytes} (s s' : Store) :
  fields_fit (st_data s) →
  match FSM_Persist (st_data s) true true with
  | ([SinkWrite b; SinkClose], true) => FSM_Restore s' b = Some (set_data (restored (st_data s)) s')
  | _ => False
  end ∧
  (all_kept (st_data s) → restored (st_data s) = st_data s).
Proof.
  intros H. split; [|apply restored_kept]. simpl. unfold FSM_Restore, Data_UnmarshalBinary, Data_MarshalBinary.
  rewrite proto_roundtrip. simpl. by rewrite Data_restored.
Qed.

(** The demo cluster with a privilege granted to its user. *)
Definition demo_granted : Store :=
  default demo_store (fst <$> apply_command 1 demo_store (SetPrivilegeCommand "ann" "db" ReadPrivilege)).

Ltac demo_databases :=
  let l := eval vm_compute in (Databases (st_data demo_granted)) in
  replace (Databases (st_data demo_granted)) with l by (vm_compute; reflexivity).
Lemma demo_granted_users :
  Users (st_data demo_granted) = [mkUserInfo "ann" "hash" false (Some {["db" := ReadPrivilege]})].
Proof. vm_compute. reflexivity. Qed.
Lemma demo_granted_fits : fields_fit (st_data demo_granted).
Proof.
  assert (∀ ts, is_i64 (ts - unixEpoch) → time_fits ts) as Ht by (by right). split.
  - demo_databases. repeat first [done|lia|apply Ht; unfold is_i64, unixEpoch; simpl; lia|left; reflexivity|constructor].
  - rewrite demo_granted_users. constructor; [|constructor]. apply map_Forall_singleton. unfold ReadPrivilege. lia.
Qed.
Lemma demo_granted_kept : all_kept (st_data demo_granted).
Proof.
  split; [|rewrite demo_granted_users; by repeat constructor].
  demo_databases. repeat first [done|constructor].
Qed.

Lemma snapshot_roundtrip_witness :
  FSM_Restore (Store_new 9 false) (Data_MarshalBinary (st_data demo_granted)) =
    Some (set_data (st_data demo_granted) (Store_new 9 false)).
Proof.
  destruct (snapshot_roundtrip demo_granted (Store_new 9 false) demo_granted_fits) as [H E].
  rewrite (E demo_granted_kept) in H. exact H.
Defined.

(** A restored snapshot has no subscription, whatever the metadata had:
    the encoding of a policy leaves them out. *)
Theorem snapshot_drops_subscriptions {bytes : Type} {PB : Protobuf bytes} (s s' s'' : Store) :
  FSM_Restore s' (Data_MarshalBinary (st_data s)) = Some s'' →
  all_policies (λ r, rpi_Subscriptions r = []) (st_data s'') ∧
  (λ di, rpi_Name <$> di_RetentionPolicies di) <$> Databases (st_data s'') =
  (λ di, rpi_Name <$> di_RetentionPolicies di) <$> Databases (st_data s).
Proof.
  unfold FSM_Restore, Data_UnmarshalBinary, Data_MarshalBinary. rewrite proto_roundtrip.
  intros [= <-]. simpl. split.
  - unfold all_policies. simpl. apply Forall_fmap, Forall_fmap, Forall_forall. intros di _. simpl.
    by apply Forall_fmap, Forall_fmap, Forall_forall.
  - rewrite <- !list_fmap_compose. apply list_fmap_ext. intros _ di _. simpl.
    by rewrite <- !list_fmap_compose.
Qed.

(** The demo cluster with a subscription. *)
Definition demo_subscribed : Store :=
  default demo_store (fst <$> apply_command 1 demo_store
    (CreateSubscriptionCommand "sub" "db" "one" "ALL" ["udp://h:9"])).

Lemma snapshot_drops_subscriptions_witness :
  ∃ s2, FSM_Restore (Store_new 9 false) (Data_MarshalBinary (st_data demo_subscribed)) = Some s2 ∧
    all_policies (λ r, rpi_Subscriptions r = []) (st_data s2) ∧
    length ((Databases (st_data demo_subscribed) ≫= di_RetentionPolicies) ≫= rpi_Subscriptions) = 1%nat.
Proof.
  eexists. split; [reflexivity|]. split; [|vm_compute; reflexivity].
  by eapply (snapshot_drops_subscriptions demo_subscribed (Store_new 9 false)).
Defined.

(** The Unix epoch does not survive the encoding: the shard group of the
    first day of 1970 comes back starting at the zero time, so that it claims
    every timestamp before 1970 too. *)
Theorem snapshot_moves_epoch (id : Z) (ss : list ShardInfo) (t : Time) :
  Time_zero ≤ t < unixEpoch →
  let g := mkShardGroupInfo id unixEpoch (unixEpoch + 24 * Hour) Time_zero ss in
  ShardGroupInfo_Contains g t = false ∧
  ShardGroupInfo_Contains (ShardGroupInfo_unmarshal (ShardGroupInfo_marshal g)) t = true.
Proof.
  intros Ht g. split.
  - apply not_true_iff_false. rewrite Contains_spec. simpl. lia.
  - apply Contains_spec. split; [apply Ht|].
    change (t < UnmarshalTime (MarshalTime (unixEpoch + 24 * Hour))).
    rewrite MarshalTime_restored; [unfold restored_time, Hour in *; rewrite (proj2 (Z.eqb_neq _ _)); lia|].
    right. unfold is_i64. vm_compute. split; congruence.
Qed.

Lemma snapshot_moves_epoch_witness :
  let g := mkShardGroupInfo 1 unixEpoch (unixEpoch + 24 * Hour) Time_zero [] in
  ShardGroupInfo_Contains (ShardGroupInfo_unmarshal (ShardGroupInfo_marshal g)) 1000 = true.
Proof. apply (snapshot_moves_epoch 1 [] 1000). split; vm_compute; congruence. Defined.

(** ** Errors over the wire *)

Lemma errLookup_text t e : errLookup !! t = Some e → MetaError_Error e = t.
Proof.
  unfold errLookup. generalize all_MetaErrors. intros l.
  assert (∀ m : gmap string MetaError, (∀ t e, m !! t = Some e → MetaError_Error e = t) →
    foldl (λ m e, <[MetaError_Error e := e]> m) m l !! t = Some e → MetaError_Error e = t) as H.
  { induction l as [|x l IH]; intros m Hm; simpl; [apply Hm|]. apply IH.
    intros t' e'. rewrite lookup_insert. case_decide; [|apply Hm]. congruence. }
  by apply H.
Qed.

(** Every error of the package survives the trip over the wire as text:
    [lookupError] gives the error value back, and texts it does not know are
    passed through. *)
Theorem lookupError_roundtrip (e : MetaError) (t : string) :
  lookupError (OtherError (MetaError_Error e)) = KnownError e ∧
  lookupError (KnownError e) = KnownError e ∧
  ((∀ e', MetaError_Error e' ≠ t) → lookupError (OtherError t) = OtherError t).
Proof.
  split_and!; [by destruct e; vm_compute|by destruct e; vm_compute|].
  intros Ht. unfold lookupError. destruct (errLookup !! _) as [e'|] eqn:E; [|done].
  by apply errLookup_text, Ht in E.
Qed.

(** ** Users *)

Lemma SetPrivilege_user d name db p d' :
  Data_SetPrivilege d name db p = Ok d' →
  ∃ i ui, Data_User d name = Some (i, ui) ∧
    d' = at_user i (λ u, set_ui_Privileges (Some (<[db := p]> (UserInfo_privs u))) u) d ∧
    Data_User d' name = Some (i, set_ui_Privileges (Some (<[db := p]> (UserInfo_privs ui))) ui).
Proof.
  intros H. unfold Data_SetPrivilege in H. destruct (Data_User d name) as [[i ui]|] eqn:E; [|done].
  simplify_eq. exists i, ui. split_and!; [done..|]. unfold Data_User in *. simpl.
  by rewrite (list_find_alter _ _ _ i ui).
Qed.

(** C18: granting a privilege is seen by the next check, on that database
    only: a user who is not an administrator is authorized for exactly the
    granted privilege, or for everything when it was ALL, and keeps what was
    granted on other databases. *)
Theorem SetPrivilege_authorizes (d : Data) (name db : string) (p : Z) (d' : Data) (i : nat) (ui : UserInfo) :
  Data_SetPrivilege d name db p = Ok d' → Data_User d name = Some (i, ui) →
  ∃ ui', Data_User d' name = Some (i, ui') ∧ Data_UserPrivilege d' name db = Ok p ∧
    (∀ q, UserInfo_Authorize ui' q db = ui_Admin ui || (p =? q) || (p =? AllPrivileges)) ∧
    (∀ q db', db' ≠ db → UserInfo_Authorize ui' q db' = UserInfo_Authorize ui q db').
Proof.
  intros H Hu. destruct (SetPrivilege_user _ _ _ _ _ H) as (i' & ui' & Hu' & E & Hf).
  rewrite Hu in Hu'. simplify_eq. eexists. split; [exact Hf|]. split_and!.
  - unfold Data_UserPrivilege. rewrite Hf. simpl. unfold UserInfo_privs. simpl.
    by rewrite lookup_insert_eq.
  - intros q. unfold UserInfo_Authorize, UserInfo_privs. simpl. rewrite lookup_insert_eq.
    by destruct (ui_Admin ui').
  - intros q db' Hne. unfold UserInfo_Authorize, UserInfo_privs. simpl.
    by rewrite lookup_insert_ne.
Qed.

Lemma SetPrivilege_authorizes_witness :
  ∃ ui', Data_User (st_data demo_granted) "ann" = Some (0%nat, ui') ∧
    UserInfo_Authorize ui' ReadPrivilege "db" = true ∧
    UserInfo_Authorize ui' WritePrivilege "db" = false.
Proof.
  destruct (SetPrivilege_authorizes demo "ann" "db" ReadPrivilege (st_data demo_granted) 0
    (mkUserInfo "ann" "hash" false None)) as (ui' & H1 & _ & H2 & _);
    [vm_compute; reflexivity|vm_compute; reflexivity|].
  exists ui'. split; [exact H1|]. rewrite !H2. split; reflexivity.
Defined.

(** ** Queries over time *)

Lemma StronglySorted_filter {A} (R : relation A) (P : A → Prop) `{∀ x, Decision (P x)} (l : list A) :
  StronglySorted R l → StronglySorted R (filter P l).
Proof.
  induction 1 as [|x l Hl IH Hx]; [constructor|]. rewrite filter_cons. case_decide; [|done].
  constructor; [done|]. by apply Forall_filter.
Qed.

Lemma all_rp_wf d p r : Data_wf d → lookup_rp d p = Some r → rp_wf r.
Proof.
  intros Hwf. apply (all_policies_lookup rp_wf). unfold all_policies.
  eapply Forall_impl; [apply (wf_dbs _ Hwf)|]. by intros di (_ & _ & _ & ?).
Qed.

(** C19: the groups a time-range query is sent to are the live groups of the
    policy that may hold a point of the range, in order of start time; no live
    group that contains a point of the range is missed. *)
Theorem ShardGroupsByTimeRange_exact (d : Data) (db policy : string) (tmin tmax : Time)
    (p : nat * nat) (r : RetentionPolicyInfo) :
  Data_wf d → Data_MustRetentionPolicy d db policy = Ok (p, r) →
  ∃ gs, Data_ShardGroupsByTimeRange d db policy tmin tmax = Ok gs ∧
    StronglySorted start_le gs ∧
    (∀ g, g ∈ gs ↔ g ∈ rpi_ShardGroups r ∧ live g ∧ sgi_StartTime g ≤ tmax ∧ tmin < sgi_EndTime g) ∧
    ∀ g t, g ∈ rpi_ShardGroups r → live g → ShardGroupInfo_Contains g t = true →
      tmin ≤ t ≤ tmax → g ∈ gs.
Proof.
  intros Hwf Hrp. eexists. unfold Data_ShardGroupsByTimeRange. rewrite Hrp. split; [reflexivity|].
  apply Data_MustRetentionPolicy_Ok in Hrp as [Hp _]. apply (all_rp_wf _ _ _ Hwf) in Hp as [_ Hs].
  set (gs := filter _ _).
  assert (∀ g, g ∈ gs ↔ g ∈ rpi_ShardGroups r ∧ live g ∧ sgi_StartTime g ≤ tmax ∧ tmin < sgi_EndTime g) as Hin.
  { intros g. unfold gs. rewrite list_elem_of_filter.
    unfold live, ShardGroupInfo_Overlaps, Time_After, is_true.
    rewrite Is_true_true, negb_true_iff, orb_false_iff, negb_false_iff, andb_true_iff, negb_true_iff.
    rewrite Z.ltb_ge, Z.ltb_lt. tauto. }
  split_and!; [by apply StronglySorted_filter|done|].
  intros g t Hg Hl [Hc1 Hc2]%Contains_spec Ht. apply Hin. split_and!; [done|done|lia|lia].
Qed.

Lemma ShardGroupsByTimeRange_exact_witness :
  ∃ gs g, Data_ShardGroupsByTimeRange demo "db" "one" unixEpoch (unixEpoch + 2000000000000000000) = Ok gs ∧
    g ∈ gs ∧ sgi_ID g = 1.
Proof.
  edestruct (ShardGroupsByTimeRange_exact demo "db" "one" unixEpoch (unixEpoch + 2000000000000000000)
    (0%nat, 0%nat)) as (gs & H1 & _ & H2 & _); [apply demo_inv|vm_compute; reflexivity|].
  exists gs. eexists. split; [exact H1|]. split; [|shelve]. apply H2. simpl.
  split; [left; reflexivity|]. split; [reflexivity|]. split; vm_compute; congruence.
  Unshelve. reflexivity.
Defined.
