(* ===== verification/MetaClient.v ===== *)
(** * The client side of the metastore: the methods of [Store] in [meta/store.go]

    Reads go to the local copy of the metadata and are retried once after the
    copy was refreshed from the leader; writes become a command that the Raft
    leader commits.  A node is the leader, a follower (it runs the state
    machine too) or a remote node (it only holds a copy). *)

From stdpp Require Import base list gmap strings sorting.
From Stdlib Require Import ZArith Lia.
From S2P Require Import Prelude MetaData MetaCodec MetaStore.

Local Open Scope Z_scope.

Definition AutoCreateRetentionPolicyName : string := "default".
Definition AutoCreateRetentionPolicyPeriod : Duration := 0.
Definition MaxAutoCreatedRetentionPolicyReplicaN : Z := 3.

(** [raftState]: [localRaft] as leader or follower, or [remoteRaft]. *)
Inductive Role := RaftLeader | RaftFollower | RemoteNode.

(** What a client call on one node can reach.  [w_leader] is the store of the
    leader when this node is not it; [w_net] are the answers of Raft and of the
    network to the coming calls, [false] for a failure (all succeed when the
    list is used up); [w_salts] is what [crypto/rand] returns next. *)
Record World := mkWorld {
  w_store : Store;
  w_role : Role;
  w_leader : Store;
  w_term : Z;
  w_index : Z;
  w_now : Time;
  w_leader_now : Time;
  w_net : list bool;
  w_salts : list string
}.

Definition set_w_store (s : Store) (w : World) : World :=
  mkWorld s (w_role w) (w_leader w) (w_term w) (w_index w) (w_now w) (w_leader_now w) (w_net w) (w_salts w).
Definition set_w_leader (s : Store) (w : World) : World :=
  mkWorld (w_store w) (w_role w) s (w_term w) (w_index w) (w_now w) (w_leader_now w) (w_net w) (w_salts w).
Definition set_w_index (i : Z) (w : World) : World :=
  mkWorld (w_store w) (w_role w) (w_leader w) (w_term w) i (w_now w) (w_leader_now w) (w_net w) (w_salts w).
Definition set_w_net (l : list bool) (w : World) : World :=
  mkWorld (w_store w) (w_role w) (w_leader w) (w_term w) (w_index w) (w_now w) (w_leader_now w) l (w_salts w).
Definition set_w_salts (l : list string) (w : World) : World :=
  mkWorld (w_store w) (w_role w) (w_leader w) (w_term w) (w_index w) (w_now w) (w_leader_now w) (w_net w) l.

(** ** A monad of client calls: they change the world and return, fail or panic *)

Definition M (A : Type) : Type := World → World * outcome GoError A.

Definition M_ret {A} (a : A) : M A := λ w, (w, Ok a).
Definition M_bind {A B} (m : M A) (k : A → M B) : M B := λ w,
  match m w with
  | (w, Ok a) => k a w
  | (w, Err e) => (w, Err e)
  | (w, Panic) => (w, Panic)
  end.
(** [a, err := m]: the error is a value. *)
Definition M_try {A} (m : M A) : M (A + GoError) := λ w,
  match m w with
  | (w, Ok a) => (w, Ok (inl a))
  | (w, Err e) => (w, Ok (inr e))
  | (w, Panic) => (w, Panic)
  end.
Definition M_fail {A} (e : GoError) : M A := λ w, (w, Err e).

Notation "'do' x <- m ; k" := (M_bind m (λ x, k))
  (at level 20, x pattern, m at level 100, k at level 200, right associativity) : go_scope.

(** The next answer of Raft or the network. *)
Definition net : M bool := λ w,
  match w_net w with
  | [] => (w, Ok true)
  | b :: l => (set_w_net l w, Ok b)
  end.

Section Client.
Context {GS : GoSort} {bytes : Type} {PB : Protobuf bytes}.

(** ** Metadata fetched from the leader *)

(** [rpc.fetchMetaData(false)] and [handleFetchData] on the leader: no data when
    the index is the one the node has. *)
Definition fetchMetaData : M (option Data) :=
  do ok <- net; λ w,
  if negb ok then (w, Err (OtherError "error fetching meta data"))
  else
    let data := Data_Clone (st_data (w_leader w)) in
    if Index data =? Index (st_data (w_store w)) then (w, Ok None)
    else match Data_UnmarshalBinary (Data_MarshalBinary data) with
         | Some ms => (w, Ok (Some ms))
         | None => (w, Err (OtherError "error fetching meta data"))
         end.

(** [updateMetaData]: only newer metadata is installed. *)
Definition updateMetaData (ms : option Data) : M unit := λ w,
  match ms with
  | None => (w, Ok ())
  | Some ms =>
      if Index (st_data (w_store w)) <? Index ms
      then (set_w_store (notifyChanged (set_data ms (w_store w))) w, Ok ())
      else (w, Ok ())
  end.

(** [raftState.invalidate]: the leader has nothing to refresh. *)
Definition Store_invalidate : M unit := λ w,
  match w_role w with
  | RaftLeader => (w, Ok ())
  | RaftFollower | RemoteNode => (do ms <- fetchMetaData; updateMetaData ms) w
  end.

(** ** Commands *)

(** [localRaft.apply]: the entry is committed and applied to the local state
    machine. *)
Definition localRaft_apply (cmd : Command) : M unit :=
  do ok <- net; λ w,
  if negb ok then (w, Err (OtherError "raft"))
  else
    let w := set_w_index (w_index w + 1) w in
    match Apply (w_now w) (w_store w) (mkLog (w_term w) (w_index w) (Some cmd)) with
    | None => (w, Panic)
    | Some (s, None) => (set_w_store s w, Ok ())
    | Some (s, Some e) => (set_w_store s w, Err (lookupError (KnownError e)))
    end.

(** [remoteExec]: the leader executes the command; the error comes back as
    text.  A follower's own state machine applies the same entry; a remote
    node fetches the metadata.  A command that makes the state machine panic
    takes the leader down. *)
Definition Store_remoteExec (cmd : Command) : M unit :=
  do ok <- net; λ w,
  if negb ok then (w, Err (OtherError "no leader"))
  else
    let w := set_w_index (w_index w + 1) w in
    let log := mkLog (w_term w) (w_index w) (Some cmd) in
    match Apply (w_leader_now w) (w_leader w) log with
    | None => (w, Panic)
    | Some (l, err) =>
        let w := set_w_leader l w in
        let synced :=
          match w_role w with
          | RemoteNode =>
              match err with
              | None => Store_invalidate w
              | Some _ => (w, Ok ())
              end
          | _ =>
              match Apply (w_now w) (w_store w) log with
              | None => (w, Panic)
              | Some (s, _) => (set_w_store s w, Ok ())
              end
          end in
        match err with
        | None => synced
        | Some e => (fst synced, Err (lookupError (OtherError (MetaError_Error e))))
        end
    end.

Definition Store_exec (cmd : Command) : M unit := λ w,
  match w_role w with
  | RaftLeader => localRaft_apply cmd w
  | RaftFollower | RemoteNode => Store_remoteExec cmd w
  end.

(** ** Reads *)

(** The error a read function returns: [errInvalidate] or another one. *)
Inductive ReadError := errInvalidate | ReadErr (e : GoError).

(** [Store.read]: the function runs on the cached metadata and, after an
    error, once more on the refreshed metadata; then [errInvalidate] is
    dropped.  The function returns the value it left in the caller's variable
    and its error. *)
Definition Store_read {A} (fn : Data → M (A * option ReadError)) : M A :=
  do (a, err) <- (λ w, fn (st_data (w_store w)) w);
  match err with
  | None => M_ret a
  | Some _ =>
      do _ <- Store_invalidate;
      do (a, err) <- (λ w, fn (st_data (w_store w)) w);
      match err with
      | None | Some errInvalidate => M_ret a
      | Some (ReadErr e) => M_fail e
      end
  end.

(** A lookup that reports a missing element with [errInvalidate]. *)
Definition found {A} (r : option (nat * A)) : M (option A * option ReadError) :=
  match r with
  | Some (_, a) => M_ret (Some a, None)
  | None => M_ret (None, Some errInvalidate)
  end.

(** A lookup of [Data] that can fail with an error. *)
Definition checked {A B} (r : outcome MetaError A) (zero : B) (k : A → B * option ReadError)
    : M (B * option ReadError) :=
  match r with
  | Ok a => M_ret (k a)
  | Err e => M_ret (zero, Some (ReadErr (KnownError e)))
  | Panic => λ w, (w, Panic)
  end.

Definition Store_ClusterID : M Z := Store_read (λ data, M_ret (ClusterID data, None)).
Definition Store_NodeID : M Z := λ w, (w, Ok (st_id (w_store w))).

Definition Store_Node (id : Z) : M (option NodeInfo) := Store_read (λ data, found (Data_Node data id)).
Definition Store_NodeByHost (host : string) : M (option NodeInfo) :=
  Store_read (λ data, found (Data_NodeByHost data host)).
Definition Store_Nodes : M (list NodeInfo) := Store_read (λ data, M_ret (Nodes data, None)).

(** [rand] is what [rand.Int63()] returns. *)
Definition Store_CreateNode (rand : Z) (host : string) : M (option NodeInfo) :=
  do _ <- Store_exec (CreateNodeCommand host rand); Store_NodeByHost host.

Definition Store_UpdateNode (id : Z) (host : string) : M (option NodeInfo) :=
  do _ <- Store_exec (UpdateNodeCommand id host); Store_NodeByHost host.

Definition Store_DeleteNode (id : Z) (force : bool) : M unit := λ w,
  match Data_Node (st_data (w_store w)) id with
  | None => (w, Err (KnownError ErrNodeNotFound))
  | Some (_, ni) =>
      (do _ <- Store_exec (DeleteNodeCommand id force);
       Store_exec (RemovePeerCommand id (ni_Host ni))) w
  end.

Definition Store_Database (name : string) : M (option DatabaseInfo) :=
  Store_read (λ data, found (Data_Database data name)).
Definition Store_Databases : M (list DatabaseInfo) := Store_read (λ data, M_ret (Databases data, None)).

(** ** Retention policies *)

Definition Store_RetentionPolicy (database name : string) : M (option RetentionPolicyInfo) :=
  Store_read (λ data,
    checked (Data_RetentionPolicy data database name) None (λ r,
      match r with
      | None => (None, Some errInvalidate)
      | Some (_, rpi) => (Some rpi, None)
      end)).

Definition Store_DefaultRetentionPolicy (database : string) : M (option RetentionPolicyInfo) :=
  Store_read (λ data,
    match Data_Database data database with
    | None => M_ret (None, Some (ReadErr (KnownError ErrDatabaseNotFound)))
    | Some (_, di) =>
        found (list_find (λ r, rpi_Name r = di_DefaultRetentionPolicy di) (di_RetentionPolicies di))
    end).

(** The nil test is the wrong way round: an existing database is reported as
    missing, a missing one is dereferenced. *)
Definition Store_RetentionPolicies (database : string) : M (list RetentionPolicyInfo) :=
  Store_read (λ data,
    match Data_Database data database with
    | Some _ => M_ret ([], Some (ReadErr (KnownError ErrDatabaseNotFound)))
    | None => λ w, (w, Panic)
    end).

Definition Store_CreateRetentionPolicy (database : string) (rpi : RetentionPolicyInfo)
    : M (option RetentionPolicyInfo) :=
  if (rpi_Duration rpi <? MinRetentionPolicyDuration) && negb (rpi_Duration rpi =? 0)
  then M_fail (KnownError ErrRetentionPolicyDurationTooLow)
  else
    do _ <- Store_exec (CreateRetentionPolicyCommand database (RetentionPolicyInfo_marshal rpi));
    Store_RetentionPolicy database (rpi_Name rpi).

Definition Store_CreateRetentionPolicyIfNotExists (database : string) (rpi : RetentionPolicyInfo)
    : M (option RetentionPolicyInfo) :=
  do found <- Store_RetentionPolicy database (rpi_Name rpi);
  match found with
  | Some r => M_ret (Some r)
  | None =>
      do other <- M_try (Store_CreateRetentionPolicy database rpi);
      match other with
      | inl o => M_ret o
      | inr (KnownError ErrRetentionPolicyExists) => Store_RetentionPolicy database (rpi_Name rpi)
      | inr e => M_fail e
      end
  end.

Definition Store_SetDefaultRetentionPolicy (database name : string) : M unit :=
  Store_exec (SetDefaultRetentionPolicyCommand database name).

Definition Store_UpdateRetentionPolicy (database name : string) (rpu : RetentionPolicyUpdate) : M unit :=
  Store_exec (UpdateRetentionPolicyCommand database name (rpu_Name rpu)
    (rpu_Duration rpu) (u32 <$> rpu_ReplicaN rpu)).

Definition Store_DropRetentionPolicy (database name : string) : M unit :=
  Store_exec (DropRetentionPolicyCommand database name).

(** ** Databases.  [auto] is [s.retentionAutoCreate]. *)

Definition Store_CreateDatabase (auto : bool) (name : string) : M (option DatabaseInfo) :=
  do _ <- Store_exec (CreateDatabaseCommand name);
  do _ <- (if negb auto then M_ret () else
    do nodeN <- Store_read (λ data, M_ret (Z.of_nat (length (Nodes data)), None));
    let nodeN := if MaxAutoCreatedRetentionPolicyReplicaN <? nodeN
                 then MaxAutoCreatedRetentionPolicyReplicaN else nodeN in
    let rpi := NewRetentionPolicyInfo AutoCreateRetentionPolicyName in
    let rpi := set_rpi_ReplicaN nodeN rpi in
    let rpi := set_rpi_Durations AutoCreateRetentionPolicyPeriod (rpi_ShardGroupDuration rpi) rpi in
    do _ <- Store_CreateRetentionPolicy name rpi;
    Store_SetDefaultRetentionPolicy name AutoCreateRetentionPolicyName);
  Store_Database name.

Definition Store_CreateDatabaseIfNotExists (auto : bool) (name : string) : M (option DatabaseInfo) :=
  do found <- Store_Database name;
  match found with
  | Some di => M_ret (Some di)
  | None =>
      do other <- M_try (Store_CreateDatabase auto name);
      match other with
      | inl o => M_ret o
      | inr (KnownError ErrDatabaseExists) => Store_Database name
      | inr e => M_fail e
      end
  end.

Definition Store_DropDatabase (name : string) : M unit := Store_exec (DropDatabaseCommand name).

(** ** Shard groups *)

Definition Store_ShardGroups (database policy : string) : M (list ShardGroupInfo) :=
  Store_read (λ data, checked (Data_ShardGroups data database policy) [] (λ a, (a, None))).

(** The slice is never nil: an empty result is not refreshed.  [make] is called
    before the loop. *)
Definition Store_ShardGroupsByTimeRange (database policy : string) (tmin tmax : Time)
    : M (list ShardGroupInfo) :=
  Store_read (λ data,
    checked (Data_ShardGroupsByTimeRange data database policy tmin tmax) [] (λ a, (a, None))).

Definition Store_ShardGroupByTimestamp (database policy : string) (timestamp : Time)
    : M (option ShardGroupInfo) :=
  Store_read (λ data,
    checked (Data_ShardGroupByTimestamp data database policy timestamp) None (λ r,
      match r with
      | None => (None, Some errInvalidate)
      | Some (_, g) => (Some g, None)
      end)).

Definition Store_CreateShardGroup (database policy : string) (timestamp : Time)
    : M (option ShardGroupInfo) :=
  do _ <- Store_exec (CreateShardGroupCommand database policy (Time_UnixNano timestamp));
  Store_ShardGroupByTimestamp database policy timestamp.

Definition Store_CreateShardGroupIfNotExists (database policy : string) (timestamp : Time)
    : M (option ShardGroupInfo) :=
  do found <- Store_ShardGroupByTimestamp database policy timestamp;
  let create :=
    do other <- M_try (Store_CreateShardGroup database policy timestamp);
    match other with
    | inl o => M_ret o
    | inr (KnownError ErrShardGroupExists) => Store_ShardGroupByTimestamp database policy timestamp
    | inr e => M_fail e
    end in
  match found with
  | Some g => if negb (ShardGroupInfo_Deleted g) then M_ret (Some g) else create
  | None => create
  end.

Definition Store_DeleteShardGroup (database policy : string) (id : Z) : M unit :=
  Store_exec (DeleteShardGroupCommand database policy id).

(** The first live group, in the order of the loops, with the shard. *)
Definition Store_ShardOwner (shardID : Z) : M (option (string * string * ShardGroupInfo)) :=
  Store_read (λ data,
    match (dbi ← Databases data; rpi ← di_RetentionPolicies dbi; g ← rpi_ShardGroups rpi;
           if ShardGroupInfo_Deleted g then []
           else if existsb (λ sh, si_ID sh =? shardID) (sgi_Shards g)
           then [(di_Name dbi, rpi_Name rpi, g)] else []) with
    | [] => M_ret (None, Some errInvalidate)
    | r :: _ => M_ret (Some r, None)
    end).

(** The pairs the callback of [VisitRetentionPolicies] gets, in order; the error
    of [read] is dropped. *)
Definition Store_VisitRetentionPolicies : M (list (DatabaseInfo * RetentionPolicyInfo)) :=
  Store_read (λ data,
    M_ret (di ← Databases data; (λ rp, (di, rp)) <$> di_RetentionPolicies di, None)).

(** [PrecreateShardGroups]: the loop runs over the metadata as it was; failures
    to create a group are logged.  A group that could be neither created nor
    found is a nil pointer in the log message. *)
Fixpoint precreate_loop (from to : Time) (work : list (string * RetentionPolicyInfo)) : M unit :=
  match work with
  | [] => M_ret ()
  | (db, rp) :: work =>
      match last (rpi_ShardGroups rp) with
      | None => precreate_loop from to work
      | Some g =>
          if negb (ShardGroupInfo_Deleted g) && Time_Before (sgi_EndTime g) to
             && Time_After (sgi_EndTime g) from
          then
            do r <- M_try (Store_CreateShardGroupIfNotExists db (rpi_Name rp)
                             (Time_Add (sgi_EndTime g) 1));
            match r with
            | inl None => λ w, (w, Panic)
            | _ => precreate_loop from to work
            end
          else precreate_loop from to work
      end
  end.

Definition Store_PrecreateShardGroups (from to : Time) : M unit :=
  Store_read (λ data,
    do _ <- precreate_loop from to
      (di ← Databases data; (λ rp, (di_Name di, rp)) <$> di_RetentionPolicies di);
    M_ret ((), None)).

(** ** Continuous queries, subscriptions and the whole data *)

Definition Store_CreateContinuousQuery (database name query : string) : M unit :=
  Store_exec (CreateContinuousQueryCommand database name query).
Definition Store_DropContinuousQuery (database name : string) : M unit :=
  Store_exec (DropContinuousQueryCommand database name).
Definition Store_CreateSubscription (database rp name mode : string) (destinations : list string) : M unit :=
  Store_exec (CreateSubscriptionCommand name database rp mode destinations).
Definition Store_DropSubscription (database rp name : string) : M unit :=
  Store_exec (DropSubscriptionCommand name database rp).
Definition Store_SetData (data : Data) : M unit := Store_exec (SetDataCommand (Data_marshal data)).

(** ** Users *)

Definition Store_User (name : string) : M (option UserInfo) :=
  Store_read (λ data, found (Data_User data name)).
Definition Store_Users : M (list UserInfo) := Store_read (λ data, M_ret (Users data, None)).
Definition Store_AdminUserExists : M bool :=
  Store_read (λ data, M_ret (existsb ui_Admin (Users data), None)).
Definition Store_UserCount : M Z :=
  Store_read (λ data, M_ret (Z.of_nat (length (Users data)), None)).
Definition Store_SetPrivilege (username database : string) (p : Z) : M unit :=
  Store_exec (SetPrivilegeCommand username database (i32 p)).
Definition Store_SetAdminPrivilege (username : string) (admin : bool) : M unit :=
  Store_exec (SetAdminPrivilegeCommand username admin).
Definition Store_UserPrivileges (username : string) : M (option (gmap string Z)) :=
  Store_read (λ data, checked (Data_UserPrivileges data username) None (λ p, (p, None))).
Definition Store_UserPrivilege (username database : string) : M (option Z) :=
  Store_read (λ data, checked (Data_UserPrivilege data username database) None (λ p, (Some p, None))).
Definition Store_DropUser (name : string) : M unit := Store_exec (DropUserCommand name).

(** [golang.org/x/crypto/bcrypt] and [crypto/sha256]. *)
Class Crypto := {
  bcrypt_Compare : string → string → bool;
  bcrypt_Generate : string → option string;
  sha256_Sum : string → string;
  bcrypt_spec : ∀ pw h, bcrypt_Generate pw = Some h → bcrypt_Compare h pw = true
}.
Context {CR : Crypto}.

Definition ErrAuthenticate : GoError := OtherError "authentication failed".

Definition Store_hashWithSalt (salt password : string) : string := sha256_Sum (salt +:+ password).

(** A salt from [crypto/rand] and the salted hash. *)
Definition Store_saltedHash (password : string) : M (string * string) := λ w,
  match w_salts w with
  | [] => (w, Err (OtherError "rand"))
  | salt :: l => (set_w_salts l w, Ok (salt, Store_hashWithSalt salt password))
  end.

Definition cache_password (username : string) (au : authUser) : M unit := λ w,
  (set_w_store (set_authCache (<[username := au]> (st_authCache (w_store w))) (w_store w)) w, Ok ()).

(** A cached password decides alone: the stored hash is not looked at. *)
Definition Store_Authenticate (username password : string) : M (option UserInfo) :=
  Store_read (λ data,
    match Data_User data username with
    | None => M_ret (None, Some (ReadErr (KnownError ErrUserNotFound)))
    | Some (_, u) => λ w,
        match st_authCache (w_store w) !! username with
        | Some au =>
            if decide (Store_hashWithSalt (au_salt au) password = au_hash au)
            then (w, Ok (Some u, None))
            else (w, Ok (None, Some (ReadErr ErrAuthenticate)))
        | None =>
            if negb (bcrypt_Compare (ui_Hash u) password)
            then (w, Ok (None, Some (ReadErr ErrAuthenticate)))
            else
              (do r <- M_try (Store_saltedHash password);
               match r with
               | inr e => M_ret (None, Some (ReadErr e))
               | inl (salt, hashed) =>
                   do _ <- cache_password username (mkAuthUser salt hashed);
                   M_ret (Some u, None)
               end) w
        end
    end).

Definition Store_CreateUser (name password : string) (admin : bool) : M (option UserInfo) :=
  match bcrypt_Generate password with
  | None => M_fail (OtherError "bcrypt")
  | Some hash => do _ <- Store_exec (CreateUserCommand name hash admin); Store_User name
  end.

Definition Store_UpdateUser (name password : string) : M unit :=
  match bcrypt_Generate password with
  | None => M_fail (OtherError "bcrypt")
  | Some hash => Store_exec (UpdateUserCommand name hash)
  end.

End Client.
