(* ===== verification/MetaClientProps.v ===== *)
(** * What a client of the metastore sees

    Statements about the methods of [Store] on a leader and on a remote node,
    in terms of the metadata operations and the state machine. *)

From stdpp Require Import base list gmap strings sorting.
From Stdlib Require Import ZArith Lia.
From S2P Require Import Prelude MetaData MetaInv MetaShards MetaCodec MetaStore MetaFsm MetaProps MetaClient.

Local Open Scope Z_scope.

Abbreviation w_data w := (st_data (w_store w)).

(** A leader whose calls on Raft succeed. *)
Definition leader_world (w : World) : Prop := w_role w = RaftLeader ∧ w_net w = [].

Lemma lookupError_Known e : lookupError (KnownError e) = KnownError e.
Proof. destruct e; vm_compute; reflexivity. Qed.

Section Leader.
Context {GS : GoSort} {bytes : Type} {PB : Protobuf bytes}.

(** On a leader a command is one step of the state machine. *)
Lemma exec_leader w cmd s :
  leader_world w →
  Apply (w_now w) (w_store w) (mkLog (w_term w) (w_index w + 1) (Some cmd)) = Some (s, None) →
  Store_exec cmd w = (set_w_store s (set_w_index (w_index w + 1) w), Ok ()).
Proof.
  intros [Hr Hn] Ha. unfold Store_exec, localRaft_apply, M_bind, net. rewrite Hr, Hn.
  cbn [negb set_w_index w_now w_store w_term w_index].
  by rewrite Ha.
Qed.

Lemma exec_leader_err w cmd s e :
  leader_world w →
  Apply (w_now w) (w_store w) (mkLog (w_term w) (w_index w + 1) (Some cmd)) = Some (s, Some e) →
  Store_exec cmd w = (set_w_store s (set_w_index (w_index w + 1) w), Err (KnownError e)).
Proof.
  intros [Hr Hn] Ha. unfold Store_exec, localRaft_apply, M_bind, net. rewrite Hr, Hn.
  cbn [negb set_w_index w_now w_store w_term w_index].
  rewrite Ha. by rewrite lookupError_Known.
Qed.

(** A successful mutation of the data through [exec]. *)
Lemma exec_commit w cmd d :
  leader_world w →
  apply_command (w_now w) (w_store w) cmd = commit (w_store w) (Ok d) →
  ∃ w', Store_exec cmd w = (w', Ok ()) ∧ leader_world w' ∧
    w_data w' = set_TermIndex (w_term w) (w_index w + 1) d.
Proof.
  intros Hw Hc. eexists. split; [apply exec_leader; [done|]|].
  - unfold Apply. cbn [l_cmd]. rewrite Hc. cbn. reflexivity.
  - split; [done|]. done.
Qed.

Lemma exec_commit_err w cmd e :
  leader_world w →
  apply_command (w_now w) (w_store w) cmd = commit (w_store w) (Err e) →
  ∃ w', Store_exec cmd w = (w', Err (KnownError e)) ∧ leader_world w' ∧
    w_data w' = set_TermIndex (w_term w) (w_index w + 1) (w_data w).
Proof.
  intros Hw Hc. eexists. split; [apply exec_leader_err; [done|]|].
  - unfold Apply. cbn [l_cmd]. rewrite Hc. cbn. reflexivity.
  - split; [done|]. done.
Qed.

(** On a leader a read of the data that changes nothing is decided by the
    local copy. *)
Lemma read_leader {A} w (fn : Data → M (A * option ReadError)) a err :
  leader_world w → fn (w_data w) w = (w, Ok (a, err)) →
  Store_read fn w = (w, match err with Some (ReadErr e) => Err e | _ => Ok a end).
Proof.
  intros [Hr Hn] Hf. unfold Store_read, M_bind. rewrite Hf.
  destruct err as [[|e]|]; [| |done];
    unfold Store_invalidate; rewrite Hr; rewrite Hf; done.
Qed.

Lemma found_leader {A} w (fn : Data → option (nat * A)) :
  leader_world w →
  Store_read (λ data, found (fn data)) w = (w, Ok (snd <$> fn (w_data w))).
Proof.
  intros Hw. destruct (fn (w_data w)) as [[i x]|] eqn:E.
  - rewrite (read_leader w _ (Some x) None); [done|done|]. by rewrite E.
  - rewrite (read_leader w _ None (Some errInvalidate)); [done|done|]. by rewrite E.
Qed.

Lemma ShardGroupByTimestamp_leader w db policy ts r :
  leader_world w → Data_ShardGroupByTimestamp (w_data w) db policy ts = Ok r →
  Store_ShardGroupByTimestamp db policy ts w = (w, Ok (snd <$> r)).
Proof.
  intros Hw Hr. unfold Store_ShardGroupByTimestamp. destruct r as [[k g]|].
  - rewrite (read_leader w _ (Some g) None); [done|done|]. by rewrite Hr.
  - rewrite (read_leader w _ None (Some errInvalidate)); [done|done|]. by rewrite Hr.
Qed.

(** ** Shard groups *)

Lemma set_TermIndex_MustRetentionPolicy t i d db policy :
  Data_MustRetentionPolicy (set_TermIndex t i d) db policy = Data_MustRetentionPolicy d db policy.
Proof. done. Qed.

(** A live group that is found is returned, and nothing changes. *)
Lemma IfNotExists_found w db policy ts k g :
  leader_world w → Data_ShardGroupByTimestamp (w_data w) db policy ts = Ok (Some (k, g)) →
  ShardGroupInfo_Deleted g = false →
  Store_CreateShardGroupIfNotExists db policy ts w = (w, Ok (Some g)).
Proof.
  intros Hw Hg Hd. unfold Store_CreateShardGroupIfNotExists, M_bind.
  rewrite (ShardGroupByTimestamp_leader w db policy ts _ Hw Hg). cbn. by rewrite Hd.
Qed.

Lemma IfNotExists_create w w' db policy ts k g :
  leader_world w → leader_world w' →
  Data_ShardGroupByTimestamp (w_data w) db policy ts = Ok None →
  Store_exec (CreateShardGroupCommand db policy (Time_UnixNano ts)) w = (w', Ok ()) →
  Data_ShardGroupByTimestamp (w_data w') db policy ts = Ok (Some (k, g)) →
  Store_CreateShardGroupIfNotExists db policy ts w = (w', Ok (Some g)).
Proof.
  intros Hw Hw' Hnone Hexec Hg. unfold Store_CreateShardGroupIfNotExists, M_bind at 1.
  rewrite (ShardGroupByTimestamp_leader w db policy ts _ Hw Hnone). cbn [fmap option_fmap option_map].
  unfold M_bind at 1, M_try, Store_CreateShardGroup, M_bind. rewrite Hexec.
  by rewrite (ShardGroupByTimestamp_leader w' db policy ts _ Hw' Hg).
Qed.

Lemma ByTimestamp_facts r ts k g :
  RetentionPolicyInfo_ShardGroupByTimestamp r ts = Some (k, g) →
  ShardGroupInfo_Contains g ts = true ∧ ShardGroupInfo_Deleted g = false.
Proof.
  unfold RetentionPolicyInfo_ShardGroupByTimestamp. intros (_ & Hg & _)%list_find_Some.
  apply Is_true_eq_true, andb_true_iff in Hg as [? ?%negb_true_iff]. done.
Qed.

(** A group that is not there is created. *)
Lemma IfNotExists_creates w db policy ts p r :
  leader_world w → Data_wf (w_data w) → has_room (w_data w) → Nodes (w_data w) ≠ [] →
  Data_MustRetentionPolicy (w_data w) db policy = Ok (p, r) → 0 ≤ rpi_ReplicaN r → 0 < rpi_ShardGroupDuration r →
  is_i64 (ts - unixEpoch) → RetentionPolicyInfo_ShardGroupByTimestamp r ts = None →
  ∃ w' d' g k, Store_CreateShardGroupIfNotExists db policy ts w = (w', Ok (Some g)) ∧ leader_world w' ∧
    Data_CreateShardGroup (w_data w) db policy ts = Ok d' ∧ w_data w' = set_TermIndex (w_term w) (w_index w + 1) d' ∧
    new_group_spec (w_data w) r ts g ∧
    d' = at_rp p (insert_group g)
           (raise_max (MaxShardGroupID (w_data w) + 1) (MaxShardID (w_data w) + Z.of_nat (length (sgi_Shards g))) (w_data w)) ∧
    Data_ShardGroupByTimestamp (w_data w') db policy ts = Ok (Some (k, g)).
Proof.
  intros Hw Hwf Hroom Hn Hrp Hr Hdur Hts Hfind. pose proof (wf_max _ Hwf) as (_ & HG & HS).
  destruct (Data_CreateShardGroup_succeeds (w_data w) db policy ts p r) as [d' Hd']; [done..|].
  destruct (Data_CreateShardGroup_Ok (w_data w) db policy ts d') as (p' & r' & g & Hrp' & _ & Hg & E); [done..|].
  rewrite Hrp in Hrp'. injection Hrp' as <- <-.
  destruct (insert_group_find g r ts) as [k Hk]; [by eapply new_group_contains|by eapply new_group_live|done|].
  destruct (exec_commit w (CreateShardGroupCommand db policy (Time_UnixNano ts)) d') as (w' & He & Hw' & Hdata); [done| |].
  { cbn [apply_command]. unfold applyCreateShardGroupCommand. rewrite Data_Clone_id.
    unfold Time_UnixNano, Time_Unix0. rewrite i64_small by done.
    by replace (unixEpoch + (ts - unixEpoch)) with ts by lia; rewrite Hd'. }
  assert (Hfound : Data_ShardGroupByTimestamp (w_data w') db policy ts = Ok (Some (k, g))).
  { rewrite Hdata, E. unfold Data_ShardGroupByTimestamp. rewrite set_TermIndex_MustRetentionPolicy.
    rewrite (Data_MustRetentionPolicy_at_rp _ _ _ p r); [|done|done]. simpl. by rewrite Hk. }
  exists w', d', g, k. split_and!; try done.
  apply (IfNotExists_create w w' db policy ts k g); try done.
  unfold Data_ShardGroupByTimestamp. rewrite Hrp. simpl. by rewrite Hfind.
Qed.

(** [CreateShardGroupIfNotExists] on a leader returns a live group that
    covers the timestamp, whether or not there was one, and creates at most that
    one group; a second call returns the same group and changes nothing. *)
Theorem CreateShardGroupIfNotExists_idempotent (w : World) db policy ts p r :
  leader_world w → Data_wf (w_data w) → has_room (w_data w) → Nodes (w_data w) ≠ [] →
  Data_MustRetentionPolicy (w_data w) db policy = Ok (p, r) →
  0 ≤ rpi_ReplicaN r → 0 < rpi_ShardGroupDuration r → is_i64 (ts - unixEpoch) →
  ∃ w' g, Store_CreateShardGroupIfNotExists db policy ts w = (w', Ok (Some g)) ∧
    ShardGroupInfo_Contains g ts = true ∧ ShardGroupInfo_Deleted g = false ∧
    (w' = w ∨ all_groups (w_data w') ≡ₚ g :: all_groups (w_data w)) ∧
    Store_CreateShardGroupIfNotExists db policy ts w' = (w', Ok (Some g)).
Proof.
  intros Hw Hwf Hroom Hn Hrp Hr Hdur Hts.
  destruct (RetentionPolicyInfo_ShardGroupByTimestamp r ts) as [[k g]|] eqn:Hfind.
  - assert (Hg : Data_ShardGroupByTimestamp (w_data w) db policy ts = Ok (Some (k, g)))
      by (unfold Data_ShardGroupByTimestamp; by rewrite Hrp; simpl; rewrite Hfind).
    destruct (ByTimestamp_facts r ts k g Hfind) as [Hc Hd].
    exists w, g. rewrite (IfNotExists_found w db policy ts k g) by done. by split_and!; auto.
  - destruct (IfNotExists_creates w db policy ts p r) as (w' & d' & g & k & Hc & Hw' & _ & Hdata & Hg & E & Hfound); [done..|].
    exists w', g. split_and!; [done|by eapply new_group_contains|by eapply new_group_live| |].
    + right. rewrite Hdata, E. apply Data_MustRetentionPolicy_Ok in Hrp as [Hp _].
      destruct (all_groups_at_rp (w_data w) p r Hp) as (rest & H1 & H2).
      change (all_groups (at_rp p (insert_group g) (w_data w)) ≡ₚ g :: all_groups (w_data w)).
      by rewrite H2, H1, insert_group_perm.
    + eapply IfNotExists_found; [done..|]. by eapply new_group_live.
Qed.

(** ** Databases *)

Lemma Data_Database_at_db d name i di f :
  (∀ x, di_Name (f x) = di_Name x) → Data_Database d name = Some (i, di) →
  Data_Database (at_db i f d) name = Some (i, f di).
Proof.
  intros Hf H. unfold Data_Database, at_db. simpl. apply list_find_alter; [|done].
  intros x. by rewrite Hf.
Qed.

(** The auto-created policy for a cluster of [n] nodes. *)
Definition auto_policy (n : Z) : RetentionPolicyInfo :=
  mkRetentionPolicyInfo AutoCreateRetentionPolicyName (Z.min n 3) 0 (7 * 24 * Hour) [] [].

Lemma exec_CreateDatabase w name :
  leader_world w → name ≠ "" → Data_Database (w_data w) name = None →
  ∃ w' i, Store_exec (CreateDatabaseCommand name) w = (w', Ok ()) ∧ leader_world w' ∧
    Nodes (w_data w') = Nodes (w_data w) ∧
    Data_Database (w_data w') name = Some (i, mkDatabaseInfo name "" [] []).
Proof.
  intros Hw Hne Hnone.
  destruct (exec_commit w (CreateDatabaseCommand name)
    (set_Databases (Databases (w_data w) ++ [mkDatabaseInfo name "" [] []]) (w_data w)))
    as (w' & He & Hw' & Hd); [done| |].
  { cbn [apply_command]. unfold applyCreateDatabaseCommand, Data_CreateDatabase.
    rewrite Data_Clone_id, decide_False, Hnone by done. done. }
  exists w', (length (Databases (w_data w))). split_and!; [done|done|by rewrite Hd|].
  rewrite Hd. unfold Data_Database in *. simpl. rewrite list_find_app_r by done. simpl.
  by rewrite decide_True.
Qed.

Lemma exec_auto_policy w name i :
  leader_world w → Data_Database (w_data w) name = Some (i, mkDatabaseInfo name "" [] []) →
  let n := Z.min (Z.of_nat (length (Nodes (w_data w)))) 3 in
  let pb := RetentionPolicyInfo_marshal
    (set_rpi_Durations 0 0 (set_rpi_ReplicaN n (NewRetentionPolicyInfo AutoCreateRetentionPolicyName))) in
  if decide (Nodes (w_data w) = []) then
    ∃ w', Store_exec (CreateRetentionPolicyCommand name pb) w =
        (w', Err (KnownError ErrReplicationFactorTooLow)) ∧ leader_world w' ∧
      Data_Database (w_data w') name = Some (i, mkDatabaseInfo name "" [] [])
  else
    ∃ w', Store_exec (CreateRetentionPolicyCommand name pb) w = (w', Ok ()) ∧ leader_world w' ∧
      Data_Database (w_data w') name = Some (i, mkDatabaseInfo name ""
        [auto_policy (Z.of_nat (length (Nodes (w_data w))))] []).
Proof.
  intros Hw Hdb n pb.
  assert (Hn : 0 ≤ n ≤ 3) by lia.
  assert (Hu : u32 n = n) by (apply Z.mod_small; lia).
  destruct (decide (Nodes (w_data w) = [])) as [Hnil|Hne].
  - destruct (exec_commit_err w (CreateRetentionPolicyCommand name pb) ErrReplicationFactorTooLow)
      as (w' & He & Hw' & Hd); [done| |].
    { assert (n = 0) as Hn0 by (unfold n; by rewrite Hnil). unfold pb. by rewrite Hn0. }
    exists w'. split_and!; [done|done|]. by rewrite Hd.
  - assert (1 ≤ n) by (unfold n; destruct (Nodes (w_data w)); [done|cbn [length]; lia]).
    destruct (exec_commit w (CreateRetentionPolicyCommand name pb)
      (at_db i (λ di, set_di_RetentionPolicies (di_RetentionPolicies di ++
         [auto_policy (Z.of_nat (length (Nodes (w_data w))))]) di) (w_data w)))
      as (w' & He & Hw' & Hd); [done| |].
    { cbn [apply_command]. unfold applyCreateRetentionPolicyCommand. rewrite Data_Clone_id.
      unfold Data_CreateRetentionPolicy. simpl. rewrite ?Hu.
      destruct (Z.ltb_spec n 1); [lia|]. rewrite Hdb. done. }
    exists w'. split_and!; [done|done|]. rewrite Hd.
    change (Data_Database (set_TermIndex ?t ?j ?d) ?x) with (Data_Database d x).
    by rewrite (Data_Database_at_db _ _ i (mkDatabaseInfo name "" [] [])).
Qed.
Lemma read_nodeN w :
  leader_world w →
  Store_read (λ data, M_ret (Z.of_nat (length (Nodes data)), None)) w =
  (w, Ok (Z.of_nat (length (Nodes (w_data w))))).
Proof. intros Hw. by rewrite (read_leader w _ (Z.of_nat (length (Nodes (w_data w)))) None). Qed.

Lemma RetentionPolicy_leader w db name r :
  leader_world w → Data_RetentionPolicy (w_data w) db name = Ok r →
  Store_RetentionPolicy db name w = (w, Ok (snd <$> r)).
Proof.
  intros Hw Hr. unfold Store_RetentionPolicy. destruct r as [[k g]|].
  - rewrite (read_leader w _ (Some g) None); [done|done|]. by rewrite Hr.
  - rewrite (read_leader w _ None (Some errInvalidate)); [done|done|]. by rewrite Hr.
Qed.

Lemma exec_SetDefault w name i n :
  leader_world w →
  Data_Database (w_data w) name = Some (i, mkDatabaseInfo name "" [auto_policy n] []) →
  ∃ w', Store_SetDefaultRetentionPolicy name AutoCreateRetentionPolicyName w = (w', Ok ()) ∧
    leader_world w' ∧
    Data_Database (w_data w') name =
      Some (i, mkDatabaseInfo name AutoCreateRetentionPolicyName [auto_policy n] []).
Proof.
  intros Hw Hdb.
  destruct (exec_commit w (SetDefaultRetentionPolicyCommand name AutoCreateRetentionPolicyName)
    (at_db i (set_di_DefaultRetentionPolicy AutoCreateRetentionPolicyName) (w_data w)))
    as (w' & He & Hw' & Hd); [done| |].
  { cbn [apply_command]. unfold applySetDefaultRetentionPolicyCommand, Data_SetDefaultRetentionPolicy.
    rewrite Data_Clone_id, Hdb. done. }
  exists w'. split_and!; [done|done|]. rewrite Hd.
  change (Data_Database (set_TermIndex ?t ?j ?d) ?x) with (Data_Database d x).
  by rewrite (Data_Database_at_db _ _ i (mkDatabaseInfo name "" [auto_policy n] [])).
Qed.

(** The calls of [CreateDatabase] after the database was created. *)
Lemma CreateDatabase_steps w w1 name :
  Store_exec (CreateDatabaseCommand name) w = (w1, Ok ()) → leader_world w1 →
  let n := Z.min (Z.of_nat (length (Nodes (w_data w1)))) 3 in
  let pb := RetentionPolicyInfo_marshal
    (set_rpi_Durations 0 0 (set_rpi_ReplicaN n (NewRetentionPolicyInfo AutoCreateRetentionPolicyName))) in
  Store_CreateDatabase true name w =
    (do _ <- (do _ <- (do _ <- Store_exec (CreateRetentionPolicyCommand name pb);
                       Store_RetentionPolicy name AutoCreateRetentionPolicyName);
              Store_SetDefaultRetentionPolicy name AutoCreateRetentionPolicyName);
     Store_Database name) w1.
Proof.
  intros H1 Hw1 n pb. unfold Store_CreateDatabase. unfold M_bind at 1. rewrite H1. cbn [negb].
  unfold M_bind at 1 2. rewrite (read_nodeN w1 Hw1). cbv zeta.
  replace (if MaxAutoCreatedRetentionPolicyReplicaN <? Z.of_nat (length (Nodes (w_data w1)))
           then MaxAutoCreatedRetentionPolicyReplicaN else Z.of_nat (length (Nodes (w_data w1))))
    with n.
  2:{ unfold n, MaxAutoCreatedRetentionPolicyReplicaN.
      destruct (Z.ltb_spec 3 (Z.of_nat (length (Nodes (w_data w1))))); lia. }
  unfold Store_CreateRetentionPolicy. set (rpi := set_rpi_Durations _ _ _).
  change ((rpi_Duration rpi <? MinRetentionPolicyDuration) && negb (rpi_Duration rpi =? 0)) with false.
  done.
Qed.

(** Creating a database on a leader with automatic retention policies: the
    new database is returned, with one policy "default" that keeps data forever in
    groups of seven days, replicated to all nodes but at most three, and that is
    its default.  On a cluster without nodes the call fails with
    [ErrReplicationFactorTooLow], but the database stays, without a policy. *)
Theorem CreateDatabase_auto_policy (w : World) name :
  leader_world w → name ≠ "" → Data_Database (w_data w) name = None →
  let n := Z.of_nat (length (Nodes (w_data w))) in
  let di := mkDatabaseInfo name "default"
              [mkRetentionPolicyInfo "default" (Z.min n 3) 0 (7 * 24 * Hour) [] []] [] in
  ∃ w' i, if decide (Nodes (w_data w) = []) then
      Store_CreateDatabase true name w = (w', Err (KnownError ErrReplicationFactorTooLow)) ∧
      Data_Database (w_data w') name = Some (i, mkDatabaseInfo name "" [] [])
    else
      Store_CreateDatabase true name w = (w', Ok (Some di)) ∧
      Data_Database (w_data w') name = Some (i, di).
Proof.
  intros Hw Hne Hnone n di.
  destruct (exec_CreateDatabase w name Hw Hne Hnone) as (w1 & i & H1 & Hw1 & Hnodes & Hdb1).
  pose proof (exec_auto_policy w1 name i Hw1 Hdb1) as Hpol. cbv zeta in Hpol.
  rewrite (CreateDatabase_steps w w1 name H1 Hw1). cbv zeta. rewrite Hnodes in Hpol |- *. fold n in Hpol |- *.
  destruct (decide (Nodes (w_data w) = [])) as [Hnil|Hnn]; destruct Hpol as (w2 & H2 & Hw2 & Hdb2).
  - exists w2, i. unfold M_bind. by rewrite H2.
  - destruct (exec_SetDefault w2 name i n Hw2 Hdb2) as (w3 & H3 & Hw3 & Hdb3).
    exists w3, i. split; [|done]. unfold M_bind. rewrite H2.
    rewrite (RetentionPolicy_leader w2 name AutoCreateRetentionPolicyName (Some ((i, 0%nat), auto_policy n)) Hw2)
      by (unfold Data_RetentionPolicy; by rewrite Hdb2).
    rewrite H3. unfold Store_Database. by rewrite found_leader, Hdb3 by done.
Qed.

(** ** The inverted test of [RetentionPolicies] *)

(** [RetentionPolicies] never returns policies: on a leader an existing
    database is reported as not found, and on any node a database that is not in
    the cached metadata is a nil dereference. *)
Theorem RetentionPolicies_inverted (w : World) db :
  (Data_Database (w_data w) db = None → snd (Store_RetentionPolicies db w) = Panic) ∧
  (leader_world w → is_Some (Data_Database (w_data w) db) →
   Store_RetentionPolicies db w = (w, Err (KnownError ErrDatabaseNotFound))).
Proof.
  split.
  - intros Hnone. unfold Store_RetentionPolicies, Store_read, M_bind. by rewrite Hnone.
  - intros Hw [di Hdi]. unfold Store_RetentionPolicies.
    rewrite (read_leader w _ [] (Some (ReadErr (KnownError ErrDatabaseNotFound)))); [done|done|].
    by rewrite Hdi.
Qed.

(** ** Passwords *)

Context {CR : Crypto}.

Lemma Data_User_at_user d name i u f :
  (∀ x, ui_Name (f x) = ui_Name x) → Data_User d name = Some (i, u) →
  Data_User (at_user i f d) name = Some (i, f u).
Proof.
  intros Hf H. unfold Data_User, at_user. simpl. apply list_find_alter; [|done].
  intros x. by rewrite Hf.
Qed.

(** The answer of [Authenticate] when nothing is cached for the user. *)
Lemma Authenticate_uncached w name pw i u salt salts :
  leader_world w → Data_User (w_data w) name = Some (i, u) →
  st_authCache (w_store w) !! name = None → w_salts w = salt :: salts →
  snd (Store_Authenticate name pw w) =
    if bcrypt_Compare (ui_Hash u) pw then Ok (Some u) else Err ErrAuthenticate.
Proof.
  intros Hw Hu Hc Hs. unfold Store_Authenticate.
  destruct (bcrypt_Compare (ui_Hash u) pw) eqn:Hb.
  - unfold Store_read. unfold M_bind at 1. rewrite Hu, Hc, Hb. cbn [negb].
    unfold M_bind, M_try, Store_saltedHash. rewrite Hs. done.
  - rewrite (read_leader w _ None (Some (ReadErr ErrAuthenticate))); [done|done|].
    by rewrite Hu, Hc, Hb.
Qed.

(** After a password change on a leader the cached password is forgotten:
    every later password is checked against the new hash, so the new password is
    accepted and a password that does not match the new hash is refused, also when
    it was cached before. *)
Theorem UpdateUser_checks_new_hash (w : World) name pw h i u salt salts :
  leader_world w → bcrypt_Generate pw = Some h →
  Data_User (w_data w) name = Some (i, u) → w_salts w = salt :: salts →
  ∃ w', Store_UpdateUser name pw w = (w', Ok ()) ∧
    snd (Store_Authenticate name pw w') = Ok (Some (set_ui_Hash h u)) ∧
    ∀ pw', snd (Store_Authenticate name pw' w') =
      if bcrypt_Compare h pw' then Ok (Some (set_ui_Hash h u)) else Err ErrAuthenticate.
Proof.
  intros Hw Hh Hu Hs. unfold Store_UpdateUser. rewrite Hh.
  eexists. split; [apply exec_leader; [done|]|].
  { unfold Apply. cbn [l_cmd apply_command]. unfold applyUpdateUserCommand, Data_UpdateUser.
    rewrite Data_Clone_id. unfold Data_User in Hu. rewrite Hu. cbn. reflexivity. }
  set (w' := set_w_store _ _).
  assert (Ha : ∀ pw', snd (Store_Authenticate name pw' w') =
      if bcrypt_Compare h pw' then Ok (Some (set_ui_Hash h u)) else Err ErrAuthenticate).
  { intros pw'. apply (Authenticate_uncached w' name pw' i (set_ui_Hash h u) salt salts);
      [done| |simpl; apply lookup_delete_eq|done].
    change (Data_User (at_user i (set_ui_Hash h) (w_data w)) name = Some (i, set_ui_Hash h u)).
    by apply Data_User_at_user. }
  split; [|done]. by rewrite Ha, (bcrypt_spec pw h Hh).
Qed.

(** A user looked up in metadata that went over the wire has the same name and
    hash. *)
Lemma Data_User_wire d name i u :
  Data_User d name = Some (i, u) →
  ∃ u', Data_User (Data_unmarshal (Data_marshal d)) name = Some (i, u') ∧ ui_Hash u' = ui_Hash u.
Proof.
  unfold Data_User. simpl. intros H. exists (UserInfo_unmarshal (UserInfo_marshal u)).
  split; [|done]. rewrite <- list_fmap_compose, list_find_fmap.
  rewrite (list_find_ext _ (λ u, ui_Name u = name)) by done. by rewrite H.
Qed.

(** Refreshing a remote node from a newer leader. *)
Lemma invalidate_remote w :
  w_role w = RemoteNode → w_net w = [] → Index (w_data w) < Index (st_data (w_leader w)) →
  Store_invalidate w =
    (set_w_store (notifyChanged (set_data (Data_unmarshal (Data_marshal (st_data (w_leader w))))
       (w_store w))) w, Ok ()).
Proof.
  intros Hr Hn Hi. unfold Store_invalidate, fetchMetaData, updateMetaData, M_bind, net.
  rewrite Hr, Hn. cbn [negb]. rewrite Data_Clone_id.
  destruct (Z.eqb_spec (Index (st_data (w_leader w))) (Index (w_data w))); [lia|].
  unfold Data_UnmarshalBinary, Data_MarshalBinary. rewrite proto_roundtrip. cbn [fmap option_fmap option_map].
  change (Index (Data_unmarshal (Data_marshal (st_data (w_leader w))))) with (Index (st_data (w_leader w))).
  destruct (Z.ltb_spec (Index (w_data w)) (Index (st_data (w_leader w)))); [done|lia].
Qed.

Lemma invalidate_remote_same w :
  w_role w = RemoteNode → w_net w = [] → Index (st_data (w_leader w)) = Index (w_data w) →
  Store_invalidate w = (w, Ok ()).
Proof.
  intros Hr Hn Hi. unfold Store_invalidate, fetchMetaData, M_bind, net. rewrite Hr, Hn.
  cbn [negb]. rewrite Data_Clone_id, Hi, Z.eqb_refl. done.
Qed.

(** The cached password decides, whatever the metadata says. *)
Lemma Authenticate_cached w name pw i u au :
  w_role w = RemoteNode → w_net w = [] → Index (st_data (w_leader w)) = Index (w_data w) →
  Data_User (w_data w) name = Some (i, u) → st_authCache (w_store w) !! name = Some au →
  Store_Authenticate name pw w =
    (w, if decide (Store_hashWithSalt (au_salt au) pw = au_hash au)
        then Ok (Some u) else Err ErrAuthenticate).
Proof.
  intros Hr Hn Hi Hu Hc. unfold Store_Authenticate, Store_read. unfold M_bind at 1.
  rewrite Hu, Hc. destruct (decide _) as [E|E]; [done|].
  unfold M_bind at 1. rewrite invalidate_remote_same by done.
  unfold M_bind at 1. rewrite Hu, Hc. by rewrite decide_False.
Qed.

(** On a node that does not run the state machine the cached passwords are
    never forgotten: after a successful password change through such a node its
    metadata has the new hash, yet the old password is still accepted there and
    the new one is refused. *)
Theorem remote_node_keeps_old_password (w : World) name old new h au i u :
  w_role w = RemoteNode → w_net w = [] → bcrypt_Generate new = Some h →
  Data_User (st_data (w_leader w)) name = Some (i, u) → Index (w_data w) < w_index w + 1 →
  st_authCache (w_store w) !! name = Some au →
  Store_hashWithSalt (au_salt au) old = au_hash au →
  Store_hashWithSalt (au_salt au) new ≠ au_hash au →
  ∃ w' u', Store_UpdateUser name new w = (w', Ok ()) ∧
    snd <$> Data_User (w_data w') name = Some u' ∧ ui_Hash u' = h ∧
    snd (Store_Authenticate name old w') = Ok (Some u') ∧
    snd (Store_Authenticate name new w') = Err ErrAuthenticate.
Proof.
  intros Hr Hn Hh Hu Hi Hc Hold Hnew. unfold Store_UpdateUser. rewrite Hh.
  assert (Hex : ∃ l, Apply (w_leader_now w) (w_leader w)
      (mkLog (w_term w) (w_index w + 1) (Some (UpdateUserCommand name h))) = Some (l, None) ∧
      Data_User (st_data l) name = Some (i, set_ui_Hash h u) ∧ Index (st_data l) = w_index w + 1).
  { eexists. split; [|split].
    - unfold Apply. cbn [l_cmd apply_command]. unfold applyUpdateUserCommand, Data_UpdateUser.
      rewrite Data_Clone_id. unfold Data_User in Hu. rewrite Hu. cbn. reflexivity.
    - change (Data_User (at_user i (set_ui_Hash h) (st_data (w_leader w))) name = Some (i, set_ui_Hash h u)).
      by apply Data_User_at_user.
    - done. }
  destruct Hex as (l & Ha & Hul & Hil). destruct (Data_User_wire _ _ _ _ Hul) as (u' & Hu' & Hh').
  unfold Store_exec, Store_remoteExec. rewrite Hr. unfold M_bind, net. rewrite Hn.
  cbn [negb set_w_index w_leader_now w_leader w_term w_index]. rewrite Ha.
  rewrite invalidate_remote; [|done|done|cbn; by rewrite Hil].
  change (w_role (set_w_leader l (set_w_index (w_index w + 1) w))) with (w_role w). rewrite Hr.
  set (w' := set_w_store _ _).
  assert (Huser : Data_User (w_data w') name = Some (i, u')) by exact Hu'.
  exists w', u'. split_and!; [done|by rewrite Huser|done| |].
  - rewrite (Authenticate_cached w' name old i u' au); [by rewrite decide_True|done..].
  - rewrite (Authenticate_cached w' name new i u' au); [by rewrite decide_False|done..].
Qed.

End Leader.

(** ** Concrete instances *)

(** Toy hashes: the "hash" is the password itself, or is tagged. *)
#[export] Program Instance toy_Crypto : Crypto := {|
  bcrypt_Compare h pw := bool_decide (h = "b:" +:+ pw);
  bcrypt_Generate pw := Some ("b:" +:+ pw);
  sha256_Sum s := s
|}.
Next Obligation. intros pw h [= <-]. by apply bool_decide_eq_true. Qed.

Definition demo_world : World := mkWorld demo_store RaftLeader demo_store 1 9 5 6 [] ["s1"; "s2"].

Definition remote_world : World :=
  mkWorld (set_authCache {[ "ann" := mkAuthUser "s1" "s1old" ]} demo_store)
    RemoteNode demo_store 1 9 5 6 [] ["s2"].

Lemma CreateShardGroupIfNotExists_idempotent_witness :
  ∃ w' g, Store_CreateShardGroupIfNotExists "db" "two" (unixEpoch + 5) demo_world = (w', Ok (Some g)) ∧
    ShardGroupInfo_Contains g (unixEpoch + 5) = true ∧
    Store_CreateShardGroupIfNotExists "db" "two" (unixEpoch + 5) w' = (w', Ok (Some g)).
Proof.
  destruct (CreateShardGroupIfNotExists_idempotent demo_world "db" "two" (unixEpoch + 5) (0%nat, 1%nat)
    (mkRetentionPolicyInfo "two" 2 (30 * 24 * Hour) (24 * Hour) [] []))
    as (w' & g & H1 & H2 & _ & _ & H3).
  - split; reflexivity.
  - apply demo_inv.
  - apply demo_room.
  - vm_compute. congruence.
  - vm_compute. reflexivity.
  - simpl. lia.
  - vm_compute. reflexivity.
  - vm_compute. split; congruence.
  - exists w', g. split; [exact H1|]. split; [exact H2|exact H3].
Defined.

Lemma CreateDatabase_auto_policy_witness :
  ∃ w', Store_CreateDatabase true "new" demo_world =
    (w', Ok (Some (mkDatabaseInfo "new" "default"
      [mkRetentionPolicyInfo "default" 3 0 (7 * 24 * Hour) [] []] []))).
Proof.
  destruct (CreateDatabase_auto_policy demo_world "new") as (w' & i & H).
  - split; reflexivity.
  - congruence.
  - vm_compute. reflexivity.
  - exists w'. rewrite decide_False in H by (vm_compute; congruence). destruct H as [H _].
    rewrite H. vm_compute. reflexivity.
Defined.

Lemma RetentionPolicies_inverted_witness :
  snd (Store_RetentionPolicies "db" demo_world) = Err (KnownError ErrDatabaseNotFound) ∧
  snd (Store_RetentionPolicies "nope" demo_world) = Panic.
Proof.
  split.
  - rewrite (proj2 (RetentionPolicies_inverted demo_world "db")); [reflexivity| |].
    + split; reflexivity.
    + vm_compute. eauto.
  - apply (proj1 (RetentionPolicies_inverted demo_world "nope")). vm_compute. reflexivity.
Defined.

Lemma UpdateUser_checks_new_hash_witness :
  ∃ w', Store_UpdateUser "ann" "fresh" demo_world = (w', Ok ()) ∧
    snd (Store_Authenticate "ann" "fresh" w') = Ok (Some (mkUserInfo "ann" "b:fresh" false None)) ∧
    snd (Store_Authenticate "ann" "stale" w') = Err ErrAuthenticate.
Proof.
  destruct (UpdateUser_checks_new_hash demo_world "ann" "fresh" "b:fresh" 0
    (mkUserInfo "ann" "hash" false None) "s1" ["s2"]) as (w' & H1 & H2 & H3).
  - split; reflexivity.
  - reflexivity.
  - vm_compute. reflexivity.
  - reflexivity.
  - exists w'. split; [exact H1|]. split; [exact H2|]. rewrite H3. reflexivity.
Defined.

Lemma remote_node_keeps_old_password_witness :
  ∃ w' u', Store_UpdateUser "ann" "new" remote_world = (w', Ok ()) ∧ ui_Hash u' = "b:new" ∧
    snd (Store_Authenticate "ann" "old" w') = Ok (Some u') ∧
    snd (Store_Authenticate "ann" "new" w') = Err ErrAuthenticate.
Proof.
  destruct (remote_node_keeps_old_password remote_world "ann" "old" "new" "b:new"
    (mkAuthUser "s1" "s1old") 0 (mkUserInfo "ann" "hash" false None))
    as (w' & u' & H1 & _ & H2 & H3 & H4).
  - reflexivity.
  - reflexivity.
  - reflexivity.
  - vm_compute. reflexivity.
  - vm_compute. reflexivity.
  - vm_compute. reflexivity.
  - reflexivity.
  - vm_compute. discriminate.
  - exists w', u'. split; [exact H1|]. split; [exact H2|]. split; [exact H3|exact H4].
Defined.
