(* ===== verification/Binary.v ===== *)
(** * Go's [encoding/binary]

    The parts of the package the storage engine uses: fixed-width big-endian
    integers and base-128 varints.  A byte slice is a list of [Z] in
    [0 .. 255]; writing into a buffer that is long enough is appending the
    written bytes.  The round-trip and length lemmas are what the block
    encoders build on. *)

From stdpp Require Import base list.
From Stdlib Require Import ZArith Lia.
From S2P Require Import Prelude.

Local Open Scope Z_scope.

Definition is_bytes : list Z → Prop := Forall is_u8.

(** [len(b)] *)
Definition go_len {A} (l : list A) : Z := Z.of_nat (length l).

(** [b[lo:hi]], [b[lo:]]: [None] where Go panics. *)
Definition slice {A} (l : list A) (lo hi : Z) : option (list A) :=
  if (0 <=? lo) && (lo <=? hi) && (hi <=? go_len l)
  then Some (take (Z.to_nat (hi - lo)) (drop (Z.to_nat lo) l)) else None.
Definition slice_from {A} (l : list A) (lo : Z) : option (list A) := slice l lo (go_len l).

(** [b[i]]: [None] where Go panics. *)
Definition go_nth {A} (l : list A) (i : Z) : option A :=
  if 0 <=? i then l !! Z.to_nat i else None.

(** ** [binary.BigEndian] *)

Fixpoint be_bytes (n : nat) (v : Z) : list Z :=
  match n with
  | O => []
  | S n' => u8 (Z.shiftr v (8 * Z.of_nat n')) :: be_bytes n' v
  end.

Definition be_value (b : list Z) : Z := foldl (λ acc c, Z.lor (Z.shiftl acc 8) c) 0 b.

Definition BigEndian_PutUint64 (v : Z) : list Z := be_bytes 8 v.

(** [binary.BigEndian.Uint64(b)] reads [b[0] .. b[7]]. *)
Definition BigEndian_Uint64 (b : list Z) : option Z :=
  if Nat.leb 8 (length b) then Some (be_value (take 8 b)) else None.

(** ** Varints *)

Fixpoint put_uvarint (fuel : nat) (x : Z) : list Z :=
  match fuel with
  | O => []
  | S f => if 128 <=? x then Z.lor (u8 x) 128 :: put_uvarint f (Z.shiftr x 7) else [u8 x]
  end.

(** [binary.PutUvarint]: the bytes written; ten are enough for a [uint64]. *)
Definition PutUvarint (x : Z) : list Z := put_uvarint 10 x.

Fixpoint uvarint_loop (b : list Z) (i s x : Z) : Z * Z :=
  match b with
  | [] => (0, 0)
  | c :: b' =>
      if c <? 128 then
        if (9 <? i) || ((i =? 9) && (1 <? c)) then (0, - (i + 1))
        else (Z.lor x (u64 (Z.shiftl c s)), i + 1)
      else uvarint_loop b' (i + 1) (s + 7) (Z.lor x (u64 (Z.shiftl (Z.land c 127) s)))
  end.

(** [binary.Uvarint]: the value and the number of bytes read ([0]: buffer too
    small, negative: overflow). *)
Definition Uvarint (b : list Z) : Z * Z := uvarint_loop b 0 0 0.

#[global] Arguments BigEndian_PutUint64 : simpl never.
#[global] Arguments BigEndian_Uint64 : simpl never.
#[global] Arguments PutUvarint : simpl never.
#[global] Arguments Uvarint : simpl never.
#[global] Arguments slice : simpl never.
#[global] Arguments go_len : simpl never.
#[global] Arguments slice_from : simpl never.

(** ** Lemmas *)

Lemma lor_shiftl_add a b s : 0 ≤ s → 0 ≤ a < 2 ^ s → Z.lor a (Z.shiftl b s) = a + b * 2 ^ s.
Proof.
  intros Hs Ha. assert (Hz : Z.land a (Z.shiftl b s) = 0).
  { apply Z.bits_inj_0. intros n. rewrite Z.land_spec.
    destruct (Z.ltb_spec n 0); [by rewrite Z.testbit_neg_r by lia|].
    destruct (Z.ltb_spec n s).
    - rewrite Z.shiftl_spec_low by lia. apply andb_false_r.
    - rewrite <- (Z.mod_small a (2 ^ s)) by lia.
      by rewrite Z.mod_pow2_bits_high by lia. }
  rewrite <- Z.lxor_lor, <- Z.add_nocarry_lxor by done. by rewrite Z.shiftl_mul_pow2 by lia.
Qed.

Lemma shiftl_lor_byte a c : is_u8 c → Z.lor (Z.shiftl a 8) c = a * 256 + c.
Proof.
  intros Hc. rewrite Z.lor_comm, lor_shiftl_add by (unfold is_u8 in Hc; lia). lia.
Qed.

Lemma be_bytes_length n v : length (be_bytes n v) = n.
Proof. induction n; simpl; congruence. Qed.

Lemma be_bytes_bytes n v : is_bytes (be_bytes n v).
Proof. induction n; constructor; auto using u8_range. Qed.

Lemma be_value_snoc b c : is_u8 c → be_value (b ++ [c]) = be_value b * 256 + c.
Proof. intros. unfold be_value. rewrite foldl_app. simpl. by rewrite shiftl_lor_byte. Qed.

Lemma be_bytes_snoc n v : be_bytes (S n) v = be_bytes n (Z.shiftr v 8) ++ [u8 v].
Proof.
  induction n as [|n IH]; [done|].
  change (be_bytes (S (S n)) v) with (u8 (Z.shiftr v (8 * Z.of_nat (S n))) :: be_bytes (S n) v).
  rewrite IH. simpl. rewrite Z.shiftr_shiftr by lia. do 3 f_equal. lia.
Qed.

Lemma be_value_bytes n v : be_value (be_bytes n v) = v mod 2 ^ (8 * Z.of_nat n).
Proof.
  revert v. induction n as [|n IH]; intros v; [by rewrite Z.mod_1_r|].
  rewrite be_bytes_snoc, be_value_snoc by apply u8_range. rewrite IH. unfold u8.
  replace (8 * Z.of_nat (S n)) with (8 + 8 * Z.of_nat n) by lia.
  rewrite Z.shiftr_div_pow2, Z.pow_add_r by lia.
  rewrite Z.rem_mul_r by lia. lia.
Qed.

Lemma PutUint64_length v : length (BigEndian_PutUint64 v) = 8%nat.
Proof. apply be_bytes_length. Qed.

Lemma PutUint64_bytes v : is_bytes (BigEndian_PutUint64 v).
Proof. apply be_bytes_bytes. Qed.

(** Decoding the eight bytes gives the integer back. *)
Lemma Uint64_PutUint64 v rest :
  is_u64 v → BigEndian_Uint64 (BigEndian_PutUint64 v ++ rest) = Some v.
Proof.
  intros Hv. unfold BigEndian_Uint64. rewrite length_app, PutUint64_length. simpl Nat.leb.
  cbv iota. rewrite take_app_length' by (by rewrite PutUint64_length).
  unfold BigEndian_PutUint64. rewrite be_value_bytes. f_equal. by apply Z.mod_small.
Qed.

Lemma Uint64_PutUint64_nil v : is_u64 v → BigEndian_Uint64 (BigEndian_PutUint64 v) = Some v.
Proof. intros H. rewrite <- (Uint64_PutUint64 v [] H). by rewrite app_nil_r. Qed.

Lemma drop_PutUint64 v rest : drop 8 (BigEndian_PutUint64 v ++ rest) = rest.
Proof. by rewrite drop_app_length' by (by rewrite PutUint64_length). Qed.

Lemma put_uvarint_length f x : (length (put_uvarint f x) ≤ f)%nat.
Proof.
  revert x. induction f as [|f IH]; intros x; simpl; [lia|].
  destruct (128 <=? x); simpl; [specialize (IH (Z.shiftr x 7)); lia|lia].
Qed.

Lemma lor_128 x : Z.land (Z.lor (u8 x) 128) 127 = x mod 128.
Proof.
  rewrite Z.land_lor_distr_l. change (Z.land 128 127) with 0. rewrite Z.lor_0_r.
  change 127 with (Z.ones 7). rewrite Z.land_ones by lia. unfold u8.
  rewrite Z.mod_mod_divide; [done|]. by exists 2.
Qed.

(** A property of bytes can be checked on all 256 of them. *)
Lemma u8_forallb (f : Z → bool) :
  forallb f (seqZ 0 256) = true → ∀ c, is_u8 c → f c = true.
Proof.
  intros H c Hc. rewrite forallb_forall in H. apply H.
  apply list_elem_of_In, elem_of_seqZ. unfold is_u8 in Hc. lia.
Qed.

Lemma lor_128_range x : is_u8 (Z.lor (u8 x) 128) ∧ 128 ≤ Z.lor (u8 x) 128.
Proof.
  pose proof (u8_forallb (λ c, (128 <=? Z.lor c 128) && (Z.lor c 128 <? 256)) eq_refl
    (u8 x) (u8_range x)) as H.
  simpl in H. apply andb_prop in H as [H1%Z.leb_le H2%Z.ltb_lt]. unfold is_u8. lia.
Qed.

Lemma put_uvarint_bytes f x : is_bytes (put_uvarint f x).
Proof.
  revert x. induction f as [|f IH]; intros x; simpl; [constructor|].
  destruct (128 <=? x); constructor; [apply lor_128_range|apply IH|apply u8_range|constructor].
Qed.

Lemma PutUvarint_bytes x : is_bytes (PutUvarint x).
Proof. apply put_uvarint_bytes. Qed.

(** A varint takes at most ten bytes, the size of the buffers it is written to. *)
Lemma PutUvarint_length x : (length (PutUvarint x) ≤ 10)%nat.
Proof. apply put_uvarint_length. Qed.

Lemma uvarint_loop_put k rest x acc i :
  (k ≤ 10)%nat → i = 10 - Z.of_nat k →
  0 ≤ x < 2 ^ (64 - 7 * i) → 0 ≤ acc < 2 ^ (7 * i) → (1 ≤ k)%nat →
  uvarint_loop (put_uvarint k x ++ rest) i (7 * i) acc =
  (acc + x * 2 ^ (7 * i), i + Z.of_nat (length (put_uvarint k x))).
Proof.
  revert x acc i. induction k as [|k IH]; intros x acc i Hk Hi Hx Ha H1; [lia|].
  assert (Hpow : 2 ^ (64 - 7 * i) * 2 ^ (7 * i) = 2 ^ 64)
    by (rewrite <- Z.pow_add_r by lia; f_equal; lia).
  simpl put_uvarint. destruct (Z.leb_spec 128 x) as [Hbig|Hsmall].
  - assert (Hk9 : (1 ≤ k)%nat).
    { destruct k; [|lia]. subst i. change (2 ^ _) with 2 in Hx. lia. }
    pose proof (lor_128_range x) as [_ Hge]. simpl app. simpl uvarint_loop.
    destruct (Z.ltb_spec (Z.lor (u8 x) 128) 128); [lia|]. rewrite lor_128.
    assert (Hm := Z.mod_pos_bound x 128 ltac:(lia)).
    assert (Hp : 0 < 2 ^ (7 * i)) by (apply Z.pow_pos_nonneg; lia).
    assert (Hb : 2 ^ (7 * (i + 1)) = 128 * 2 ^ (7 * i)).
    { replace (7 * (i + 1)) with (7 + 7 * i) by lia. rewrite Z.pow_add_r by lia. done. }
    assert (Hle : 2 ^ (7 * (i + 1)) ≤ 2 ^ 64) by (apply Z.pow_le_mono_r; lia).
    rewrite Z.shiftl_mul_pow2, u64_small by (unfold is_u64; nia).
    rewrite <- Z.shiftl_mul_pow2, lor_shiftl_add by lia.
    replace (7 * i + 7) with (7 * (i + 1)) by lia.
    rewrite Z.shiftr_div_pow2 by lia. change (2 ^ 7) with 128.
    rewrite IH; [| lia | lia | | nia | lia].
    + rewrite Hb. simpl length. pose proof (Z.div_mod x 128). f_equal; [nia|lia].
    + replace (64 - 7 * i) with (7 + (64 - 7 * (i + 1))) in Hx by lia.
      rewrite Z.pow_add_r in Hx by lia. change (2 ^ 7) with 128 in Hx.
      split; [apply Z.div_pos; lia|apply Z.div_lt_upper_bound; lia].
  - cbn [app uvarint_loop length]. rewrite u8_small by (unfold is_u8; lia).
    destruct (Z.ltb_spec x 128); [|lia].
    replace ((9 <? i) || ((i =? 9) && (1 <? x))) with false.
    2:{ symmetry. apply orb_false_iff. split; [lia|].
        destruct (Z.eqb_spec i 9) as [->|]; [|done]. change (2 ^ _) with 2 in Hx. simpl. lia. }
    assert (Hp : 0 < 2 ^ (7 * i)) by (apply Z.pow_pos_nonneg; lia).
    rewrite Z.shiftl_mul_pow2, u64_small by (unfold is_u64; nia).
    rewrite <- Z.shiftl_mul_pow2, lor_shiftl_add by lia. by rewrite Z.shiftl_mul_pow2 by lia.
Qed.

(** Reading a varint back gives the value and the number of its bytes. *)
Lemma Uvarint_PutUvarint x rest :
  is_u64 x → Uvarint (PutUvarint x ++ rest) = (x, go_len (PutUvarint x)).
Proof.
  intros Hx. unfold Uvarint, PutUvarint, go_len.
  pose proof (uvarint_loop_put 10 rest x 0 0 ltac:(lia) eq_refl) as H.
  change (7 * 0) with 0 in H. rewrite H; [|unfold is_u64 in Hx; lia..]. f_equal. lia.
Qed.

(** ** Slices *)

Lemma go_len_app {A} (l k : list A) : go_len (l ++ k) = go_len l + go_len k.
Proof. unfold go_len. rewrite length_app. lia. Qed.

Lemma go_len_nonneg {A} (l : list A) : 0 ≤ go_len l.
Proof. unfold go_len. lia. Qed.

Lemma slice_app {A} (l k m : list A) :
  slice (l ++ k ++ m) (go_len l) (go_len l + go_len k) = Some k.
Proof.
  unfold slice. rewrite !go_len_app.
  pose proof (go_len_nonneg l). pose proof (go_len_nonneg k). pose proof (go_len_nonneg m).
  destruct (Z.leb_spec 0 (go_len l)); [|lia].
  destruct (Z.leb_spec (go_len l) (go_len l + go_len k)); [|lia].
  destruct (Z.leb_spec (go_len l + go_len k) (go_len l + (go_len k + go_len m))); [|lia].
  simpl. unfold go_len. rewrite Nat2Z.id, drop_app_length.
  by rewrite Z.add_simpl_l, Nat2Z.id, take_app_length.
Qed.

Lemma slice_from_app {A} (l k : list A) : slice_from (l ++ k) (go_len l) = Some k.
Proof.
  unfold slice_from. rewrite go_len_app. pose proof (slice_app l k []) as H.
  by rewrite app_nil_r in H.
Qed.

Lemma slice_from_drop {A} (l : list A) n :
  (n ≤ length l)%nat → slice_from l (Z.of_nat n) = Some (drop n l).
Proof.
  intros H. pose proof (slice_from_app (take n l) (drop n l)) as Hs.
  unfold go_len in Hs. by rewrite take_drop, length_take_le in Hs.
Qed.

Lemma slice_from_1 {A} (x : A) l : slice_from (x :: l) 1 = Some l.
Proof. apply (slice_from_app [x] l). Qed.

Lemma is_bytes_app l k : is_bytes (l ++ k) ↔ is_bytes l ∧ is_bytes k.
Proof. apply Forall_app. Qed.

#[export] Hint Resolve PutUint64_bytes PutUvarint_bytes : influx.
#[export] Hint Rewrite @go_len_app : influx.
