(* ===== verification/Tsm.v ===== *)
(** * The tsm1 storage engine: what its encoders share

    The errors of the package, the [Next]/[Read]/[Error] interface all four
    value decoders implement, and the third-party packages they use as type
    classes: the operations and the documented laws the engine relies on, with
    an instance each that shows the laws can hold. *)

From stdpp Require Import base list.
From Stdlib Require Import ZArith Lia.
From S2P Require Import Prelude Binary.

Local Open Scope Z_scope.

Inductive TsmError : Type :=
| ErrUnknownEncoding (enc : Z)
| ErrSimple8b
| ErrSnappy
| ErrUnsupportedNaN
| ErrEOF
| ErrInvalidBlockType (exp got : Z)
| ErrUnsupportedValueType.

#[export] Instance TsmError_eq_dec : EqDecision TsmError.
Proof. solve_decision. Defined.

Abbreviation go := (outcome TsmError).

(** An out-of-range slice expression or index is a panic. *)
Definition or_panic {A} (o : option A) : go A :=
  match o with Some a => Ok a | None => Panic end.

(** ** The decoder interface

    [BoolDecoder], [Int64Decoder], [StringDecoder], [TimeDecoder] and
    [FloatDecoder] have the same three methods; the receiver is passed and
    returned. *)
Class Decoder (D V : Type) := {
  dec_Next : D → go (D * bool);
  dec_Read : D → go (D * V);
  dec_Error : D → option TsmError
}.

(** What a client that loops [for dec.Next() { dec.Read() }] sees: the values
    in order, then the end, with no error recorded on the way. *)
Inductive yields {D V} `{Decoder D V} : D → list V → Prop :=
| yields_end d d' :
    dec_Next d = Ok (d', false) → dec_Error d' = None → yields d []
| yields_value d d1 d2 v vs :
    dec_Next d = Ok (d1, true) → dec_Read d1 = Ok (d2, v) →
    dec_Error d2 = None → yields d2 vs → yields d (v :: vs).

(** The same loop as a function; [fuel] bounds the number of calls of [Next]. *)
Fixpoint drain {D V} `{Decoder D V} (fuel : nat) (d : D) : go (D * list V) :=
  match fuel with
  | O => Panic
  | S f =>
      let! (d1, more) := dec_Next d in
      if more : bool then
        let! (d2, v) := dec_Read d1 in
        let! (d3, vs) := drain f d2 in Ok (d3, v :: vs)
      else Ok (d1, [])
  end.

Lemma yields_drain {D V} `{Decoder D V} d vs :
  yields d vs → ∀ fuel, (length vs < fuel)%nat →
  ∃ d', drain fuel d = Ok (d', vs) ∧ dec_Error d' = None.
Proof.
  induction 1 as [d d' Hn He|d d1 d2 v vs Hn Hr He Hy IH]; intros [|f] Hf; simpl in *; try lia.
  - rewrite Hn. simpl. eauto.
  - rewrite Hn. simpl. rewrite Hr. simpl.
    destruct (IH f) as (d' & -> & ?); [lia|]. simpl. eauto.
Qed.

(** The values a decoder yields are determined. *)
Lemma yields_unique {D V} `{Decoder D V} d vs ws : yields d vs → yields d ws → vs = ws.
Proof.
  intros Hv. revert ws. induction Hv as [|d d1 d2 v vs Hn Hr He Hy IH]; inversion 1; subst.
  - done.
  - congruence.
  - congruence.
  - rewrite Hn in *. simplify_eq. rewrite Hr in *. simplify_eq. f_equal. auto.
Qed.

(** ** [github.com/jwilder/encoding/simple8b]

    [EncodeAll] packs integers up to [MaxValue] into 64-bit words, [Decode]
    unpacks the one to 240 integers of a word; [NewEncoder], [Write], [Bytes]
    and [NewDecoder], [Next], [Read] do the same on byte slices. *)
Definition simple8b_MaxValue : Z := 2 ^ 60 - 1.

Class Simple8b := {
  simple8b_EncodeAll : list Z → option (list Z);
  simple8b_Decode : Z → option (list Z);
  simple8b_Encoder_Bytes : list Z → option (list Z);
  simple8b_Decoder_All : list Z → list Z;
  simple8b_EncodeAll_spec : ∀ vs,
    Forall (λ v, 0 ≤ v ≤ simple8b_MaxValue) vs →
    ∃ ws vss, simple8b_EncodeAll vs = Some ws ∧ Forall is_u64 ws ∧
      Forall2 (λ w us, simple8b_Decode w = Some us ∧ (1 ≤ length us ≤ 240)%nat) ws vss ∧
      concat vss = vs;
  simple8b_Encoder_spec : ∀ vs,
    Forall (λ v, 0 ≤ v ≤ simple8b_MaxValue) vs →
    ∃ bs, simple8b_Encoder_Bytes vs = Some bs ∧ (length bs ≤ 8 * length vs)%nat ∧
      simple8b_Decoder_All bs = vs
}.

(** The format's selector 15 (one 60-bit integer per word) for every value. *)
Definition sel15 (v : Z) : Z := 15 * 2 ^ 60 + v.
Definition sel15_word (v : Z) : option Z :=
  if (0 <=? v) && (v <=? simple8b_MaxValue) then Some (sel15 v) else None.
Definition sel15_unword (w : Z) : option (list Z) :=
  if w / 2 ^ 60 =? 15 then Some [w mod 2 ^ 60] else None.
Fixpoint sel15_unbytes (n : nat) (bs : list Z) : list Z :=
  match n with
  | O => []
  | S n' =>
      match BigEndian_Uint64 bs ≫= sel15_unword with
      | Some us => us ++ sel15_unbytes n' (drop 8 bs)
      | None => []
      end
  end.

#[global] Arguments sel15 : simpl never.
#[global] Arguments sel15_unword : simpl never.

Lemma sel15_unword_word v :
  0 ≤ v ≤ simple8b_MaxValue →
  sel15_word v = Some (sel15 v) ∧ sel15_unword (sel15 v) = Some [v].
Proof.
  unfold sel15_word, sel15_unword, sel15, simple8b_MaxValue. intros Hv.
  assert (Hd : (15 * 2 ^ 60 + v) / 2 ^ 60 = 15)
    by (rewrite Z.div_add_l, Z.div_small by lia; lia).
  assert (Hm : (15 * 2 ^ 60 + v) mod 2 ^ 60 = v)
    by (rewrite Z.add_comm, Z.mod_add, Z.mod_small by lia; lia).
  rewrite Hd, Hm. destruct (Z.leb_spec 0 v); [|lia].
  destruct (Z.leb_spec v (2 ^ 60 - 1)); [done|lia].
Qed.

Lemma sel15_mapM vs :
  Forall (λ v, 0 ≤ v ≤ simple8b_MaxValue) vs →
  mapM sel15_word vs = Some (sel15 <$> vs).
Proof.
  induction 1 as [|v vs Hv _ IH]; [done|]. simpl.
  destruct (sel15_unword_word v Hv) as [-> _]. simpl. by rewrite IH.
Qed.

Lemma sel15_roundtrip vs n :
  Forall (λ v, 0 ≤ v ≤ simple8b_MaxValue) vs → (length vs ≤ n)%nat →
  sel15_unbytes n ((sel15 <$> vs) ≫= BigEndian_PutUint64) = vs.
Proof.
  intros H. revert n. induction H as [|v vs Hv _ IH]; intros n Hn; [by destruct n|].
  destruct n as [|n]; [cbn in Hn; lia|]. cbn [fmap list_fmap mbind list_bind sel15_unbytes].
  rewrite Uint64_PutUint64 by (unfold is_u64, sel15, simple8b_MaxValue in *; lia).
  cbn [mbind option_bind]. destruct (sel15_unword_word v Hv) as [_ ->]. cbn [app].
  rewrite drop_PutUint64. f_equal. apply IH. cbn in Hn. lia.
Qed.

Lemma bind_PutUint64_length ws : length (ws ≫= BigEndian_PutUint64) = (8 * length ws)%nat.
Proof.
  induction ws as [|w ws IH]; [done|].
  rewrite bind_cons, length_app, PutUint64_length, IH. cbn [length]. lia.
Qed.

#[export] Program Instance sel15_Simple8b : Simple8b := {|
  simple8b_EncodeAll := mapM sel15_word;
  simple8b_Decode := sel15_unword;
  simple8b_Encoder_Bytes vs := (λ ws, ws ≫= BigEndian_PutUint64) <$> mapM sel15_word vs;
  simple8b_Decoder_All bs := sel15_unbytes (length bs) bs
|}.
Next Obligation.
  intros vs H. eexists _, ((λ v, [v]) <$> vs). rewrite sel15_mapM by done.
  split_and!; [done| | |].
  - apply Forall_fmap. eapply Forall_impl; [exact H|]. simpl.
    unfold is_u64, sel15, simple8b_MaxValue. lia.
  - apply Forall2_fmap, Forall_Forall2_diag. eapply Forall_impl; [exact H|].
    intros v Hv. split; [by apply sel15_unword_word|simpl; lia].
  - clear H. induction vs; csimpl; congruence.
Qed.
Next Obligation.
  intros vs H. cbv beta. rewrite sel15_mapM by done. eexists. split_and!; [done| |].
  { rewrite bind_PutUint64_length, length_fmap. lia. }
  apply sel15_roundtrip; [done|]. rewrite bind_PutUint64_length, length_fmap. lia.
Qed.

(** ** [github.com/golang/snappy] *)
Class Snappy := {
  snappy_Encode : list Z → list Z;
  snappy_Decode : list Z → option (list Z);
  snappy_spec : ∀ b, is_bytes b →
    is_bytes (snappy_Encode b) ∧ snappy_Decode (snappy_Encode b) = Some b
}.

#[export] Program Instance identity_Snappy : Snappy := {|
  snappy_Encode b := b;
  snappy_Decode b := Some b
|}.
Next Obligation. done. Qed.

(** ** [github.com/dgryski/go-bits] *)
Class Bits := {
  bits_Clz : Z → Z;
  bits_Ctz : Z → Z;
  bits_Clz_spec : ∀ x, 0 < x < 2 ^ 64 →
    0 ≤ bits_Clz x < 64 ∧ 2 ^ (63 - bits_Clz x) ≤ x < 2 ^ (64 - bits_Clz x);
  bits_Ctz_spec : ∀ x, 0 < x < 2 ^ 64 →
    0 ≤ bits_Ctz x < 64 ∧ x mod 2 ^ bits_Ctz x = 0 ∧ Z.testbit x (bits_Ctz x) = true
}.

Fixpoint count_zeros (n : nat) (i : Z) (x : Z) : Z :=
  match n with
  | O => i
  | S n' => if Z.testbit x i then i else count_zeros n' (i + 1) x
  end.

Lemma count_zeros_spec n i x :
  0 ≤ i → x mod 2 ^ i = 0 → 0 < x < 2 ^ (i + Z.of_nat n) →
  let j := count_zeros n i x in
  0 ≤ j < i + Z.of_nat n ∧ x mod 2 ^ j = 0 ∧ Z.testbit x j = true.
Proof.
  revert i. induction n as [|n IH]; intros i Hi Hm Hx; cbn [count_zeros].
  - rewrite Z.add_0_r, Z.mod_small in * by lia. lia.
  - destruct (Z.testbit x i) eqn:Hb; [split_and!; [lia..|done|done]|].
    replace (i + Z.of_nat (S n)) with ((i + 1) + Z.of_nat n) in * by lia.
    apply IH; [lia| |done].
    apply Z.bits_inj_0. intros k. destruct (Z.ltb_spec k 0); [by rewrite Z.testbit_neg_r|].
    destruct (Z.ltb_spec k (i + 1)); [|by rewrite Z.mod_pow2_bits_high by lia].
    rewrite Z.mod_pow2_bits_low by lia. destruct (Z.eq_dec k i) as [->|]; [done|].
    rewrite <- (Z.mod_pow2_bits_low x i) by lia. by rewrite Hm, Z.bits_0.
Qed.

#[export] Program Instance log2_Bits : Bits := {|
  bits_Clz x := 63 - Z.log2 x;
  bits_Ctz x := count_zeros 64 0 x
|}.
Next Obligation.
  intros x Hx. pose proof (Z.log2_spec x (proj1 Hx)). cbv beta. pose proof (Z.log2_nonneg x).
  assert (Z.log2 x < 64) by (apply Z.log2_lt_pow2; lia).
  replace (63 - (63 - Z.log2 x)) with (Z.log2 x) by lia.
  replace (64 - (63 - Z.log2 x)) with (Z.succ (Z.log2 x)) by lia.
  split; [lia|auto with lia].
Qed.
Next Obligation.
  intros x Hx. apply (count_zeros_spec 64 0 x); [lia|apply Z.mod_1_r|lia].
Qed.

(** ** [github.com/dgryski/go-bitstream]

    Bits are written and read most significant first. *)
Fixpoint msb_bits (n : nat) (u : Z) : list bool :=
  match n with
  | O => []
  | S n' => Z.testbit u (Z.of_nat n') :: msb_bits n' u
  end.

Definition bits_value (l : list bool) : Z := foldl (λ acc b, 2 * acc + Z.b2z b) 0 l.

Definition bytes_bits (bs : list Z) : list bool := bs ≫= msb_bits 8.

Class Bitstream := {
  BitWriter : Type;
  bitstream_NewWriter : BitWriter;
  bw_WriteBit : BitWriter → bool → BitWriter;
  bw_WriteBits : BitWriter → Z → Z → BitWriter;
  bw_Flush : BitWriter → bool → BitWriter;
  (** the whole bytes handed to the underlying [bytes.Buffer] *)
  bw_buf : BitWriter → list Z;
  BitReader : Type;
  bitstream_NewReader : list Z → BitReader;
  br_ReadBit : BitReader → option (BitReader * bool);
  br_ReadBits : BitReader → Z → option (BitReader * Z);
  (** the bits written so far and the bits left to read *)
  bw_bits : BitWriter → list bool;
  br_bits : BitReader → list bool;
  bw_New_spec : bw_bits bitstream_NewWriter = [];
  bw_WriteBit_spec : ∀ w b, bw_bits (bw_WriteBit w b) = bw_bits w ++ [b];
  bw_WriteBits_spec : ∀ w u n, 0 ≤ n ≤ 64 →
    bw_bits (bw_WriteBits w u n) = bw_bits w ++ msb_bits (Z.to_nat n) u;
  bw_Flush_spec : ∀ w b, is_bytes (bw_buf (bw_Flush w b)) ∧
    ∃ k, bytes_bits (bw_buf (bw_Flush w b)) = bw_bits w ++ replicate k b;
  br_New_spec : ∀ bs, is_bytes bs → br_bits (bitstream_NewReader bs) = bytes_bits bs;
  br_ReadBit_spec : ∀ r b l, br_bits r = b :: l →
    ∃ r', br_ReadBit r = Some (r', b) ∧ br_bits r' = l;
  br_ReadBits_spec : ∀ r n l k, br_bits r = l ++ k → n = go_len l → n ≤ 64 →
    ∃ r', br_ReadBits r n = Some (r', bits_value l) ∧ br_bits r' = k
}.

Lemma msb_bits_length n u : length (msb_bits n u) = n.
Proof. induction n; simpl; congruence. Qed.

Lemma bits_value_snoc l b : bits_value (l ++ [b]) = 2 * bits_value l + Z.b2z b.
Proof. unfold bits_value. by rewrite foldl_app. Qed.

Lemma msb_bits_snoc n u : 0 ≤ u → msb_bits (S n) u = msb_bits n (u / 2) ++ [Z.odd u].
Proof.
  intros Hu. induction n as [|n IH]; [cbn [msb_bits app]; change (Z.of_nat 0) with 0; by rewrite Z.bit0_odd|].
  change (msb_bits (S (S n)) u) with (Z.testbit u (Z.of_nat (S n)) :: msb_bits (S n) u).
  rewrite IH. cbn [msb_bits app]. f_equal.
  by rewrite Nat2Z.inj_succ, Z.div2_bits by lia.
Qed.

Lemma bits_value_msb n u : 0 ≤ u → bits_value (msb_bits n u) = u mod 2 ^ Z.of_nat n.
Proof.
  revert u. induction n as [|n IH]; intros u Hu; [by rewrite Z.mod_1_r|].
  rewrite msb_bits_snoc, bits_value_snoc by done. rewrite IH by (apply Z.div_pos; lia).
  rewrite Nat2Z.inj_succ, Z.pow_succ_r, Z.rem_mul_r by lia.
  rewrite Zmod_odd. destruct (Z.odd u); simpl; lia.
Qed.

Lemma bits_value_range l : 0 ≤ bits_value l < 2 ^ go_len l.
Proof.
  induction l as [|b l IH] using rev_ind; [done|].
  rewrite bits_value_snoc, go_len_app. change (go_len [b]) with 1.
  rewrite Z.pow_add_r by (unfold go_len; lia). destruct b; simpl Z.b2z; lia.
Qed.

Lemma msb_bits_value l : msb_bits (length l) (bits_value l) = l.
Proof.
  induction l as [|b l IH] using rev_ind; [done|].
  rewrite length_app, Nat.add_1_r, bits_value_snoc, msb_bits_snoc
    by (pose proof (bits_value_range l); destruct b; simpl Z.b2z; lia).
  f_equal.
  - rewrite Z.mul_comm, Z.div_add_l by lia.
    replace (Z.b2z b / 2) with 0 by by destruct b. by rewrite Z.add_0_r.
  - by rewrite Z.odd_add_mul_2 || (rewrite Z.odd_add, Z.odd_mul; by destruct b).
Qed.

(** The list of bits as a writer; whole bytes go to the buffer. *)
Fixpoint chunk_bytes (n : nat) (l : list bool) : list Z :=
  match n with
  | O => []
  | S n' => bits_value (take 8 l) :: chunk_bytes n' (drop 8 l)
  end.

Definition list_Flush (l : list bool) (b : bool) : list bool :=
  l ++ replicate ((8 - length l mod 8) mod 8) b.

Lemma chunk_bytes_bits n l :
  length l = (8 * n)%nat → bytes_bits (chunk_bytes n l) = l ∧ is_bytes (chunk_bytes n l).
Proof.
  revert l. induction n as [|n IH]; intros l Hl.
  - apply nil_length_inv in Hl as ->. split; [done|constructor].
  - cbn [chunk_bytes]. destruct (IH (drop 8 l)) as [IH1 IH2]; [rewrite length_drop; lia|].
    assert (Ht : length (take 8 l) = 8%nat) by (rewrite length_take; lia). split.
    + unfold bytes_bits in *. rewrite bind_cons, IH1. rewrite <- Ht at 1.
      by rewrite msb_bits_value, take_drop.
    + constructor; [|done]. pose proof (bits_value_range (take 8 l)) as Hr.
      unfold go_len in Hr. by rewrite Ht in Hr.
Qed.

Lemma list_Flush_length l b : ∃ n, length (list_Flush l b) = (8 * n)%nat.
Proof.
  exists (length (list_Flush l b) / 8)%nat. unfold list_Flush.
  rewrite length_app, length_replicate.
  pose proof (Nat.div_mod_eq (length l) 8). pose proof (Nat.mod_upper_bound (length l) 8).
  destruct (Nat.eq_dec (length l mod 8) 0) as [E|E].
  - rewrite E. change ((8 - 0) mod 8)%nat with 0%nat. rewrite Nat.add_0_r. lia.
  - rewrite (Nat.mod_small (8 - _)) by lia.
    replace (length l + (8 - length l mod 8))%nat with ((length l / 8 + 1) * 8)%nat by lia.
    rewrite Nat.div_mul by lia. lia.
Qed.

#[export] Program Instance list_Bitstream : Bitstream := {|
  BitWriter := list bool;
  bitstream_NewWriter := [];
  bw_WriteBit w b := w ++ [b];
  bw_WriteBits w u n := w ++ msb_bits (Z.to_nat n) u;
  bw_Flush := list_Flush;
  bw_buf l := chunk_bytes (length l / 8) l;
  BitReader := list bool;
  bitstream_NewReader := bytes_bits;
  br_ReadBit l := match l with [] => None | b :: l' => Some (l', b) end;
  br_ReadBits l n :=
    if n <=? go_len l then Some (drop (Z.to_nat n) l, bits_value (take (Z.to_nat n) l)) else None;
  bw_bits l := l;
  br_bits l := l
|}.
Next Obligation. done. Qed.
Next Obligation. done. Qed.
Next Obligation. done. Qed.
Next Obligation.
  intros l b. cbv beta. destruct (list_Flush_length l b) as [n Hn].
  rewrite Hn, Nat.mul_comm, Nat.div_mul by lia.
  destruct (chunk_bytes_bits n _ Hn) as [H1 H2]. split; [done|].
  rewrite H1. unfold list_Flush. eauto.
Qed.
Next Obligation. done. Qed.
Next Obligation. intros r b l ->. eauto. Qed.
Next Obligation.
  intros r n l k -> -> _. cbv beta. rewrite go_len_app. pose proof (go_len_nonneg k).
  destruct (Z.leb_spec (go_len l) (go_len l + go_len k)); [|lia].
  unfold go_len. rewrite Nat2Z.id, drop_app_length, take_app_length. eauto.
Qed.

#[global] Arguments msb_bits : simpl never.
