(* ===== verification/TsmBool.v ===== *)
(** * tsm1/bool.go

    One bit per boolean, eight to a byte, most significant bit first, after a
    type byte and the number of booleans as a varint. *)

From stdpp Require Import base list.
From Stdlib Require Import ZArith Lia.
From S2P Require Import Prelude Binary Tsm.

Local Open Scope Z_scope.

Definition boolCompressedBitPacked : Z := 1.

Record boolEncoder := BoolEncoder {
  benc_bytes : list Z;   (** the encoded bytes *)
  benc_b : Z;            (** the current byte *)
  benc_i : Z;            (** the number of bools packed into [b] *)
  benc_n : Z             (** the number of bools written *)
}.

Definition NewBoolEncoder : boolEncoder := BoolEncoder [] 0 0 0.

(** [for e.i < 8 { e.b = e.b << 1; e.i++ }]; [8] steps are enough for [0 <= e.i]. *)
Fixpoint boolEncoder_pad (fuel : nat) (b i : Z) : Z * Z :=
  match fuel with
  | O => (b, i)
  | S f => if i <? 8 then boolEncoder_pad f (u8 (Z.shiftl b 1)) (i + 1) else (b, i)
  end.

Definition boolEncoder_flush (e : boolEncoder) : boolEncoder :=
  let '(b, i) := boolEncoder_pad 8 (benc_b e) (benc_i e) in
  if 0 <? i then BoolEncoder (benc_bytes e ++ [b]) 0 0 (benc_n e)
  else BoolEncoder (benc_bytes e) b i (benc_n e).

Definition boolEncoder_Write (e : boolEncoder) (v : bool) : boolEncoder :=
  let e := if 8 <=? benc_i e then boolEncoder_flush e else e in
  let b := u8 (Z.shiftl (benc_b e) 1) in
  let b := if v then Z.lor b 1 else b in
  BoolEncoder (benc_bytes e) b (benc_i e + 1) (i64 (benc_n e + 1)).

Definition boolEncoder_Bytes (e : boolEncoder) : boolEncoder * list Z :=
  let e := boolEncoder_flush e in
  (e, u8 (Z.shiftl boolCompressedBitPacked 4) :: PutUvarint (u64 (benc_n e)) ++ benc_bytes e).

Record boolDecoder := BoolDecoder {
  bdec_b : list Z;
  bdec_i : Z;
  bdec_n : Z;
  bdec_err : option TsmError
}.

Definition NewBoolDecoder (b : list Z) : go boolDecoder :=
  let! b := or_panic (slice_from b 1) in
  let '(count, n) := Uvarint b in
  let! b := or_panic (slice_from b n) in
  Ok (BoolDecoder b (-1) (i64 count) None).

Definition boolDecoder_Next (d : boolDecoder) : boolDecoder * bool :=
  let i := i64 (bdec_i d + 1) in
  (BoolDecoder (bdec_b d) i (bdec_n d) (bdec_err d), i <? bdec_n d).

Definition boolDecoder_Read (d : boolDecoder) : go bool :=
  let idx := Z.quot (bdec_i d) 8 in
  let pos := (8 - Z.rem (bdec_i d) 8) - 1 in
  let mask := u8 (Z.shiftl 1 pos) in
  let! v := or_panic (go_nth (bdec_b d) idx) in
  Ok (Z.land v mask =? mask).

#[export] Instance boolDecoder_Decoder : Decoder boolDecoder bool := {|
  dec_Next d := Ok (boolDecoder_Next d);
  dec_Read d := let! v := boolDecoder_Read d in Ok (d, v);
  dec_Error := bdec_err
|}.

(** ** The encoder holds the bits that were written *)

Definition bool_repr (e : boolEncoder) (vs : list bool) : Prop :=
  ∃ part, vs = bytes_bits (benc_bytes e) ++ part ∧
    benc_i e = go_len part ∧ benc_i e ≤ 8 ∧ benc_b e = bits_value part ∧
    is_bytes (benc_bytes e) ∧ benc_n e = i64 (go_len vs).

Lemma shift_in part (v : bool) :
  go_len part < 8 →
  (let b := u8 (Z.shiftl (bits_value part) 1) in if v then Z.lor b 1 else b) =
  bits_value (part ++ [v]).
Proof.
  intros Hp. pose proof (bits_value_range part) as Hr.
  assert (2 ^ go_len part ≤ 2 ^ 7) by (apply Z.pow_le_mono_r; lia).
  rewrite bits_value_snoc. cbv zeta. rewrite Z.shiftl_mul_pow2, u8_small by (unfold is_u8; lia).
  destruct v; simpl Z.b2z; [|lia].
  rewrite Z.lor_comm, <- Z.shiftl_mul_pow2, lor_shiftl_add by lia. lia.
Qed.

Lemma boolEncoder_pad_spec fuel part :
  go_len part ≤ 8 → 8 - go_len part ≤ Z.of_nat fuel →
  boolEncoder_pad fuel (bits_value part) (go_len part) =
  (bits_value (part ++ replicate (8 - length part) false), 8).
Proof.
  revert part. induction fuel as [|f IH]; intros part H1 H2; cbn [boolEncoder_pad].
  - replace (8 - length part)%nat with 0%nat by (unfold go_len in *; lia).
    rewrite app_nil_r. f_equal. lia.
  - destruct (Z.ltb_spec (go_len part) 8).
    + replace (u8 (Z.shiftl (bits_value part) 1)) with (bits_value (part ++ [false]))
        by (symmetry; apply (shift_in part false); done).
      replace (go_len part + 1) with (go_len (part ++ [false])) by (by rewrite go_len_app).
      rewrite IH by (rewrite go_len_app; change (go_len [false]) with 1; lia).
      rewrite <- app_assoc, length_app. cbn [length app].
      replace (8 - length part)%nat with (S (8 - (length part + 1))) by (unfold go_len in *; lia).
      done.
    + replace (8 - length part)%nat with 0%nat by (unfold go_len in *; lia).
      rewrite app_nil_r. f_equal. lia.
Qed.

Lemma bytes_bits_app bs cs : bytes_bits (bs ++ cs) = bytes_bits bs ++ bytes_bits cs.
Proof. apply bind_app. Qed.

Lemma boolEncoder_flush_spec e vs :
  bool_repr e vs →
  ∃ k, bytes_bits (benc_bytes (boolEncoder_flush e)) = vs ++ replicate k false ∧
    is_bytes (benc_bytes (boolEncoder_flush e)) ∧
    benc_b (boolEncoder_flush e) = 0 ∧ benc_i (boolEncoder_flush e) = 0 ∧
    benc_n (boolEncoder_flush e) = benc_n e ∧ (benc_i e = 8 → k = 0%nat).
Proof.
  intros (part & -> & Hi & Hi8 & Hb & Hbs & Hn). unfold boolEncoder_flush.
  rewrite Hb, Hi, boolEncoder_pad_spec by (pose proof (go_len_nonneg part); lia). simpl.
  set (l := part ++ replicate (8 - length part) false).
  assert (Hl : length l = 8%nat).
  { unfold l. rewrite length_app, length_replicate. unfold go_len in *. lia. }
  assert (Hv : msb_bits 8 (bits_value l) = l) by (rewrite <- Hl at 1; apply msb_bits_value).
  exists (8 - length part)%nat. split_and!; try done.
  - rewrite bytes_bits_app, <- app_assoc. f_equal. unfold bytes_bits.
    by rewrite bind_cons, app_nil_r, Hv.
  - apply is_bytes_app. split; [done|]. constructor; [|constructor].
    pose proof (bits_value_range l) as Hr. unfold go_len in Hr. by rewrite Hl in Hr.
  - unfold go_len in *. lia.
Qed.

Lemma NewBoolEncoder_repr : bool_repr NewBoolEncoder [].
Proof. exists []. split_and!; try done. constructor. Qed.

Lemma boolEncoder_Write_repr e vs v :
  bool_repr e vs → bool_repr (boolEncoder_Write e v) (vs ++ [v]).
Proof.
  intros Hr. assert (H : ∃ e', bool_repr e' vs ∧ benc_i e' < 8 ∧
    (if 8 <=? benc_i e then boolEncoder_flush e else e) = e').
  { destruct (Z.leb_spec 8 (benc_i e)) as [H8|H8]; [|by eauto]. eexists. split_and!; [|..|done].
    - destruct (boolEncoder_flush_spec _ _ Hr) as (k & Hk & Hbs & Hb & Hi & Hn & Hk0).
      destruct Hr as (part & Hvs & Hpi & Hp8 & _ & _ & Hpn).
      rewrite Hk0 in Hk by lia. rewrite app_nil_r in Hk.
      exists []. rewrite Hk, app_nil_r, Hb, Hi, Hn. split_and!; try done.
    - destruct (boolEncoder_flush_spec _ _ Hr) as (k & _ & _ & _ & -> & _). lia. }
  destruct H as (e' & (part & Hvs & Hpi & _ & Hpb & Hbs & Hpn) & Hlt & He).
  unfold boolEncoder_Write. rewrite He. exists (part ++ [v]). cbn.
  rewrite Hpi, Hpb, Hpn, i64_add_l, go_len_app. change (go_len [v]) with 1.
  rewrite go_len_app. change (go_len [v]) with 1.
  split_and!; try done; [by rewrite Hvs, app_assoc|lia|apply shift_in; lia].
Qed.

Lemma boolEncoder_Writes_repr e vs ws :
  bool_repr e vs → bool_repr (foldl boolEncoder_Write e ws) (vs ++ ws).
Proof.
  revert e vs. induction ws as [|w ws IH]; intros e vs H; [by rewrite app_nil_r|].
  rewrite cons_middle, app_assoc. by apply IH, boolEncoder_Write_repr.
Qed.

(** ** Reading the bits back *)

Lemma msb_bits_lookup n u k :
  (k < n)%nat → msb_bits n u !! k = Some (Z.testbit u (Z.of_nat (n - 1 - k))).
Proof.
  revert k. induction n as [|n IH]; intros [|k] Hk; cbn [msb_bits]; try lia.
  - simpl. do 3 f_equal. lia.
  - simpl. rewrite IH by lia. do 3 f_equal. lia.
Qed.

Lemma bytes_bits_length bs : length (bytes_bits bs) = (8 * length bs)%nat.
Proof.
  unfold bytes_bits. induction bs as [|c bs IH]; [done|].
  rewrite bind_cons, length_app, msb_bits_length, IH. cbn [length]. lia.
Qed.

Lemma bytes_bits_lookup bs k :
  (k < 8 * length bs)%nat →
  ∃ c, bs !! (k / 8)%nat = Some c ∧
    bytes_bits bs !! k = Some (Z.testbit c (Z.of_nat (7 - k mod 8))).
Proof.
  revert k. induction bs as [|c bs IH]; intros k Hk; cbn [length] in Hk; [lia|].
  unfold bytes_bits. rewrite bind_cons. destruct (decide (k < 8)%nat).
  - exists c. rewrite Nat.div_small, Nat.mod_small by done. split; [done|].
    rewrite lookup_app_l by (by rewrite msb_bits_length).
    by rewrite msb_bits_lookup by lia.
  - destruct (IH (k - 8)%nat) as (c' & Hc & Hb); [lia|].
    assert (Hd : k = (k - 8 + 1 * 8)%nat) by lia.
    exists c'. split.
    + rewrite Hd, Nat.div_add by lia. rewrite Nat.add_1_r. done.
    + rewrite lookup_app_r, msb_bits_length by (rewrite msb_bits_length; lia).
      fold (bytes_bits bs). rewrite Hb. do 4 f_equal. rewrite Hd at 2. by rewrite Nat.Div0.mod_add.
Qed.

Lemma mask_testbit v p :
  0 ≤ p < 8 → (Z.land v (u8 (Z.shiftl 1 p)) =? u8 (Z.shiftl 1 p)) = Z.testbit v p.
Proof.
  intros Hp. rewrite Z.shiftl_1_l. assert (Hr : is_u8 (2 ^ p)).
  { unfold is_u8. pose proof (Z.pow_lt_mono_r 2 p 8). pose proof (Z.pow_pos_nonneg 2 p). lia. }
  rewrite u8_small by done. apply eq_true_iff_eq. rewrite Z.eqb_eq. split.
  - intros H. rewrite <- (Z.pow2_bits_true p) by lia. rewrite <- H, Z.land_spec.
    by rewrite Z.pow2_bits_true, andb_true_r by lia.
  - intros H. apply Z.bits_inj'. intros n Hn. rewrite Z.land_spec, Z.pow2_bits_eqb by lia.
    destruct (Z.eqb_spec p n) as [->|]; [by rewrite H|by rewrite andb_false_r].
Qed.

Lemma boolDecoder_Read_spec d bits k b :
  bytes_bits (bdec_b d) = bits → bdec_i d = Z.of_nat k → bits !! k = Some b →
  boolDecoder_Read d = Ok b.
Proof.
  intros <- Hi Hk. unfold boolDecoder_Read. rewrite Hi.
  assert (Hlen : (k < 8 * length (bdec_b d))%nat).
  { apply lookup_lt_Some in Hk. by rewrite bytes_bits_length in Hk. }
  destruct (bytes_bits_lookup _ _ Hlen) as (c & Hc & Hb). rewrite Hk in Hb. simplify_eq.
  rewrite Z.quot_div_nonneg, Z.rem_mod_nonneg by lia.
  change 8 with (Z.of_nat 8). rewrite <- Nat2Z.inj_div, <- Nat2Z.inj_mod.
  unfold go_nth. destruct (Z.leb_spec 0 (Z.of_nat (k / 8))); [|lia].
  rewrite Nat2Z.id, Hc. cbn [or_panic outcome_bind]. f_equal.
  pose proof (Nat.mod_upper_bound k 8).
  replace (Z.of_nat 8 - Z.of_nat (k mod 8) - 1) with (Z.of_nat (7 - k mod 8)) by lia.
  apply mask_testbit. lia.
Qed.

Lemma boolDecoder_yields d bits k n :
  bytes_bits (bdec_b d) = bits → (n ≤ length bits)%nat → (k ≤ n)%nat →
  bdec_i d = Z.of_nat k - 1 → bdec_n d = Z.of_nat n → Z.of_nat n < 2 ^ 63 → bdec_err d = None →
  yields d (drop k (take n bits)).
Proof.
  intros Hb Hlen Hk Hi Hn Hn63 He. remember (n - k)%nat as m eqn:Hm.
  revert d k Hb Hk Hi Hn He Hm. induction m as [|m IH]; intros d k Hb Hk Hi Hn He Hm.
  - rewrite drop_ge by (rewrite length_take; lia).
    apply (yields_end d (BoolDecoder (bdec_b d) (Z.of_nat k) (bdec_n d) (bdec_err d))); [|done].
    simpl. unfold boolDecoder_Next. rewrite Hi, Hn, i64_small by (unfold is_i64; lia).
    replace (Z.of_nat k - 1 + 1) with (Z.of_nat k) by lia.
    by destruct (Z.ltb_spec (Z.of_nat k) (Z.of_nat n)); [lia|].
  - destruct (lookup_lt_is_Some_2 bits k) as [b Hbk]; [lia|].
    assert (Htk : take n bits !! k = Some b) by (rewrite lookup_take_lt by lia; done).
    rewrite (drop_S _ _ _ Htk).
    set (d1 := BoolDecoder (bdec_b d) (Z.of_nat k) (bdec_n d) (bdec_err d)).
    apply (yields_value d d1 d1 b); [| | done |].
    + simpl. unfold boolDecoder_Next. rewrite Hi, i64_small by (unfold is_i64; lia).
      replace (Z.of_nat k - 1 + 1) with (Z.of_nat k) by lia. rewrite Hn.
      destruct (Z.ltb_spec (Z.of_nat k) (Z.of_nat n)); [|lia]. unfold d1. by rewrite Hn.
    + simpl. by rewrite (boolDecoder_Read_spec d1 bits k b).
    + apply (IH d1 (S k)); unfold d1; simpl; try done; lia.
Qed.

(** What the encoder writes, the decoder reads. *)
Lemma bool_roundtrip vs :
  go_len vs < 2 ^ 63 →
  ∃ d, NewBoolDecoder (snd (boolEncoder_Bytes (foldl boolEncoder_Write NewBoolEncoder vs))) = Ok d ∧
    yields d vs.
Proof.
  intros Hlen. pose proof (boolEncoder_Writes_repr _ _ vs NewBoolEncoder_repr) as Hr.
  simpl in Hr. unfold boolEncoder_Bytes. cbn [snd].
  destruct (boolEncoder_flush_spec _ _ Hr) as (k & Hk & Hbs & _ & _ & Hn & _).
  destruct Hr as (_ & _ & _ & _ & _ & _ & Hn'). rewrite Hn' in Hn.
  set (e := boolEncoder_flush _) in *. rewrite Hn.
  pose proof (go_len_nonneg vs). rewrite u64_i64, u64_small by (unfold is_u64; lia).
  unfold NewBoolDecoder. rewrite slice_from_1. cbn [or_panic outcome_bind].
  rewrite Uvarint_PutUvarint by (unfold is_u64; lia).
  rewrite slice_from_app. simpl. eexists. split; [done|].
  set (d := BoolDecoder _ _ _ _).
  pose proof (boolDecoder_yields d (vs ++ replicate k false) 0 (length vs)) as Hy.
  rewrite take_app_length in Hy. apply Hy; unfold d; simpl; try done; [|lia|].
  - rewrite length_app. lia.
  - rewrite i64_small by (unfold is_i64, go_len in *; lia). done.
Qed.
