(* ===== verification/TsmString.v ===== *)
(** * tsm1/string.go

    Each string is its length as a varint followed by its bytes; the whole is
    compressed with snappy behind a type byte.  A Go string is its bytes. *)

From stdpp Require Import base list.
From Stdlib Require Import ZArith Lia.
From S2P Require Import Prelude Binary Tsm.

Local Open Scope Z_scope.

Definition stringCompressedSnappy : Z := 1.

(** [stringEncoder]: its [bytes] field. *)
Record stringEncoder := StringEncoder { senc_bytes : list Z }.

Definition NewStringEncoder : stringEncoder := StringEncoder [].

Definition stringEncoder_Write (e : stringEncoder) (s : list Z) : stringEncoder :=
  let e := StringEncoder (senc_bytes e ++ PutUvarint (u64 (go_len s))) in
  StringEncoder (senc_bytes e ++ s).

Record stringDecoder := StringDecoder {
  sdec_b : list Z;
  sdec_l : Z;
  sdec_i : Z;
  sdec_err : option TsmError
}.

Definition stringDecoder_Next (d : stringDecoder) : stringDecoder * bool :=
  let i := i64 (sdec_i d + sdec_l d) in
  (StringDecoder (sdec_b d) (sdec_l d) i (sdec_err d), i <? go_len (sdec_b d)).

Definition stringDecoder_Read (d : stringDecoder) : go (stringDecoder * list Z) :=
  let! b := or_panic (slice_from (sdec_b d) (sdec_i d)) in
  let '(length, n) := Uvarint b in
  let l := i64 (i64 length + n) in
  let! s := or_panic (slice (sdec_b d) (i64 (sdec_i d + n)) (i64 (sdec_i d + n + i64 length))) in
  Ok (StringDecoder (sdec_b d) l (sdec_i d) (sdec_err d), s).

#[export] Instance stringDecoder_Decoder : Decoder stringDecoder (list Z) := {|
  dec_Next d := Ok (stringDecoder_Next d);
  dec_Read := stringDecoder_Read;
  dec_Error := sdec_err
|}.

Section Snappy.
Context {SN : Snappy}.

Definition stringEncoder_Bytes (e : stringEncoder) : list Z :=
  u8 (Z.shiftl stringCompressedSnappy 4) :: snappy_Encode (senc_bytes e).

Definition NewStringDecoder (b : list Z) : go stringDecoder :=
  let! b := or_panic (slice_from b 1) in
  match snappy_Decode b with
  | None => Err ErrSnappy
  | Some data => Ok (StringDecoder data 0 0 None)
  end.

(** The bytes of one string in the uncompressed block. *)
Definition string_record (s : list Z) : list Z := PutUvarint (u64 (go_len s)) ++ s.

Lemma stringEncoder_Writes_bytes vs e :
  senc_bytes (foldl stringEncoder_Write e vs) = senc_bytes e ++ (vs ≫= string_record).
Proof.
  revert e. induction vs as [|v vs IH]; intros e; [by rewrite app_nil_r|].
  cbn [foldl]. rewrite IH, bind_cons. cbn. unfold string_record. by rewrite !app_assoc.
Qed.

Lemma string_records_bytes vs : Forall is_bytes vs → is_bytes (vs ≫= string_record).
Proof.
  induction 1; [constructor|]. rewrite bind_cons. unfold string_record at 1.
  rewrite !is_bytes_app. auto with influx.
Qed.

(** With the cursor [l] bytes before the next record the rest is read back. *)
Lemma stringDecoder_yields pre vs d :
  sdec_b d = pre ++ (vs ≫= string_record) → go_len (sdec_b d) < 2 ^ 63 →
  sdec_i d + sdec_l d = go_len pre → sdec_err d = None →
  yields d vs.
Proof.
  revert pre d. induction vs as [|v vs IH]; intros pre d Hb Hlen Hi He;
    pose proof (go_len_nonneg pre) as Hp.
  - rewrite app_nil_r in Hb. rewrite <- Hb in Hi, Hp. 
    apply (yields_end d (StringDecoder (sdec_b d) (sdec_l d) (go_len (sdec_b d)) (sdec_err d))); [|done].
    simpl.
    unfold stringDecoder_Next. rewrite Hi, i64_small by (unfold is_i64; lia).
    rewrite Z.ltb_irrefl. reflexivity.
  - rewrite bind_cons in Hb. unfold string_record in Hb at 1.
    set (lv := go_len v) in *. set (hd := PutUvarint (u64 lv)) in *.
    assert (Hlv : 0 ≤ lv) by apply go_len_nonneg.
    assert (Hhd : 0 ≤ go_len hd ∧ 1 ≤ go_len hd).
    { unfold hd, PutUvarint. cbn [put_uvarint]. destruct (_ <=? _); unfold go_len; cbn [length]; lia. }
    assert (Htot : go_len pre + (go_len hd + lv + go_len (vs ≫= string_record)) = go_len (sdec_b d))
      by (rewrite Hb, !go_len_app; unfold lv; lia).
    pose proof (go_len_nonneg (vs ≫= string_record)) as Hrest.
    assert (Hlv64 : is_u64 lv) by (unfold is_u64; lia).
    set (d1 := StringDecoder (sdec_b d) (sdec_l d) (go_len pre) (sdec_err d)).
    set (d2 := StringDecoder (sdec_b d) (lv + go_len hd) (go_len pre) (sdec_err d)).
    apply (yields_value d d1 d2 v).
    + simpl. unfold stringDecoder_Next, d1. rewrite Hi, i64_small by (unfold is_i64; lia).
      destruct (Z.ltb_spec (go_len pre) (go_len (sdec_b d))); [done|lia].
    + simpl. unfold stringDecoder_Read, d1. simpl. rewrite Hb at 1.
      rewrite slice_from_app. cbn [or_panic outcome_bind]. unfold hd at 1.
      rewrite <- (app_assoc (PutUvarint (u64 lv))), u64_small, Uvarint_PutUvarint by done.
      replace (go_len (PutUvarint lv)) with (go_len hd) by (unfold hd; by rewrite u64_small).
      rewrite (i64_small lv), !i64_small by (unfold is_i64; lia).
      rewrite Hb at 1. rewrite <- (app_assoc hd), (app_assoc pre hd), <- go_len_app.
      unfold lv at 1. rewrite slice_app. done.
    + done.
    + apply (IH (pre ++ hd ++ v) d2); unfold d2; simpl; [|lia| |done].
      * rewrite Hb. by rewrite !app_assoc.
      * rewrite !go_len_app. unfold lv. lia.
Qed.

Lemma string_roundtrip vs :
  Forall is_bytes vs → go_len (vs ≫= string_record) < 2 ^ 63 →
  ∃ d, NewStringDecoder (stringEncoder_Bytes (foldl stringEncoder_Write NewStringEncoder vs)) = Ok d ∧
    yields d vs.
Proof.
  intros Hvs Hlen. unfold NewStringDecoder, stringEncoder_Bytes.
  rewrite slice_from_1. cbn [or_panic outcome_bind].
  rewrite stringEncoder_Writes_bytes. cbn [NewStringEncoder senc_bytes app].
  destruct (snappy_spec _ (string_records_bytes vs Hvs)) as [_ ->].
  eexists. split; [done|]. by apply (stringDecoder_yields []).
Qed.

Lemma stringEncoder_Bytes_bytes vs :
  Forall is_bytes vs →
  is_bytes (stringEncoder_Bytes (foldl stringEncoder_Write NewStringEncoder vs)).
Proof.
  intros Hvs. unfold stringEncoder_Bytes. constructor; [by apply u8_range|].
  rewrite stringEncoder_Writes_bytes. by apply snappy_spec, string_records_bytes.
Qed.

End Snappy.
