(* ===== verification/TsmInt.v ===== *)
(** * tsm1/int.go and the zig-zag coding of tsm1/encoding.go

    Integers are delta coded and zig-zag coded, then stored run-length coded,
    packed with simple8b, or raw, eight bytes each. *)

From stdpp Require Import base list sets.
From Stdlib Require Import ZArith Lia.
From S2P Require Import Prelude Binary Tsm.

Local Open Scope Z_scope.

(** [uint64(uint64(x<<1) ^ uint64((int64(x) >> 63)))] *)
Definition ZigZagEncode (x : Z) : Z :=
  u64 (Z.lxor (u64 (i64 (Z.shiftl x 1))) (u64 (Z.shiftr (i64 x) 63))).

(** [int64((v >> 1) ^ uint64((int64(v&1)<<63)>>63))] *)
Definition ZigZagDecode (v : Z) : Z :=
  i64 (Z.lxor (Z.shiftr v 1) (u64 (Z.shiftr (i64 (Z.shiftl (i64 (Z.land v 1)) 63)) 63))).

Definition intUncompressed : Z := 0.
Definition intCompressedSimple : Z := 1.
Definition intCompressedRLE : Z := 2.

Record int64Encoder := Int64Encoder {
  ienc_prev : Z;
  ienc_rle : bool;
  ienc_values : list Z
}.

Definition NewInt64Encoder : int64Encoder := Int64Encoder 0 true [].

Definition int64Encoder_Write (e : int64Encoder) (v : Z) : int64Encoder :=
  let delta := i64 (v - ienc_prev e) in
  let enc := ZigZagEncode delta in
  let rle :=
    if 1 <? go_len (ienc_values e)
    then ienc_rle e && bool_decide (last (ienc_values e) = Some enc)
    else ienc_rle e in
  Int64Encoder v rle (ienc_values e ++ [enc]).

Record int64Decoder := Int64Decoder {
  idec_values : list Z;   (** [[240]uint64] *)
  idec_bytes : list Z;
  idec_i : Z;
  idec_n : Z;
  idec_prev : Z;
  idec_first : bool;
  idec_rleFirst : Z;
  idec_rleDelta : Z;
  idec_encoding : Z;
  idec_err : option TsmError
}.

(** [&int64Decoder{}] *)
Definition int64Decoder_zero : int64Decoder :=
  Int64Decoder (replicate 240 0) [] 0 0 0 false 0 0 0 None.

Definition int64Decoder_SetBytes (d : int64Decoder) (b : list Z) : int64Decoder :=
  let '(encoding, bytes) :=
    match b with
    | c :: b' => (Z.shiftr c 4, b')
    | [] => (idec_encoding d, idec_bytes d)
    end in
  Int64Decoder (idec_values d) bytes 0 0 (idec_prev d) true
    (idec_rleFirst d) (idec_rleDelta d) encoding (idec_err d).

Definition NewInt64Decoder (b : list Z) : int64Decoder :=
  int64Decoder_SetBytes int64Decoder_zero b.

Definition int64Decoder_decodeRLE (d : int64Decoder) : go int64Decoder :=
  if go_len (idec_bytes d) =? 0 then Ok d else
  let! b0 := or_panic (slice (idec_bytes d) 0 8) in
  let! first := or_panic (BigEndian_Uint64 b0) in
  let! b1 := or_panic (slice_from (idec_bytes d) 8) in
  let '(value, n) := Uvarint b1 in
  let! b2 := or_panic (slice_from (idec_bytes d) (8 + n)) in
  let '(count, _) := Uvarint b2 in
  Ok (Int64Decoder (idec_values d) [] 0 (i64 (i64 count + 1)) (idec_prev d) (idec_first d)
        first value (idec_encoding d) (idec_err d)).

Definition int64Decoder_decodeUncompressed (d : int64Decoder) : go int64Decoder :=
  if go_len (idec_bytes d) =? 0 then Ok d else
  let! b0 := or_panic (slice (idec_bytes d) 0 8) in
  let! v := or_panic (BigEndian_Uint64 b0) in
  let! rest := or_panic (slice_from (idec_bytes d) 8) in
  Ok (Int64Decoder (<[0%nat := v]> (idec_values d)) rest 0 1 (idec_prev d) (idec_first d)
        (idec_rleFirst d) (idec_rleDelta d) (idec_encoding d) (idec_err d)).

Definition int64Decoder_Read (d : int64Decoder) : go (int64Decoder * Z) :=
  if idec_encoding d =? intCompressedRLE then
    Ok (d, ZigZagDecode (u64 (idec_rleFirst d + u64 (u64 (idec_i d) * idec_rleDelta d))))
  else
    let! u := or_panic (go_nth (idec_values d) (idec_i d)) in
    let v := i64 (ZigZagDecode u + idec_prev d) in
    Ok (Int64Decoder (idec_values d) (idec_bytes d) (idec_i d) (idec_n d) v (idec_first d)
          (idec_rleFirst d) (idec_rleDelta d) (idec_encoding d) (idec_err d), v).

Section Simple8b.
Context {SB : Simple8b}.

Definition int64Encoder_encodeRLE (e : int64Encoder) : go (list Z) :=
  match ienc_values e with
  | v0 :: v1 :: _ =>
      Ok (u8 (Z.shiftl intCompressedRLE 4) :: BigEndian_PutUint64 v0 ++ PutUvarint v1 ++
          PutUvarint (u64 (go_len (ienc_values e) - 1)))
  | _ => Panic
  end.

Definition int64Encoder_encodePacked (e : int64Encoder) : go (list Z) :=
  match ienc_values e with
  | [] => Ok []
  | v0 :: vs =>
      match simple8b_EncodeAll vs with
      | None => Err ErrSimple8b
      | Some encoded =>
          Ok (u8 (Z.shiftl intCompressedSimple 4) :: BigEndian_PutUint64 v0 ++
              (encoded ≫= BigEndian_PutUint64))
      end
  end.

Definition int64Encoder_encodeUncompressed (e : int64Encoder) : go (list Z) :=
  match ienc_values e with
  | [] => Ok []
  | vs => Ok (u8 (Z.shiftl intUncompressed 4) :: (vs ≫= BigEndian_PutUint64))
  end.

Definition int64Encoder_Bytes (e : int64Encoder) : go (list Z) :=
  if ienc_rle e && (2 <? go_len (ienc_values e)) then int64Encoder_encodeRLE e
  else if existsb (λ v, simple8b_MaxValue <? v) (ienc_values e)
  then int64Encoder_encodeUncompressed e
  else int64Encoder_encodePacked e.

Definition int64Decoder_decodePacked (d : int64Decoder) : go int64Decoder :=
  if go_len (idec_bytes d) =? 0 then Ok d else
  let! b0 := or_panic (slice (idec_bytes d) 0 8) in
  let! v := or_panic (BigEndian_Uint64 b0) in
  let! rest := or_panic (slice_from (idec_bytes d) 8) in
  let '(values, n, first, err) :=
    if idec_first d then (<[0%nat := v]> (idec_values d), 1, false, idec_err d)
    else
      match simple8b_Decode v with
      | Some us => (us ++ drop (length us) (idec_values d), go_len us, idec_first d, idec_err d)
      | None => (idec_values d, 0, idec_first d, Some ErrSimple8b)
      end in
  Ok (Int64Decoder values rest 0 n (idec_prev d) first
        (idec_rleFirst d) (idec_rleDelta d) (idec_encoding d) err).

Definition int64Decoder_set_i (i : Z) (d : int64Decoder) : int64Decoder :=
  Int64Decoder (idec_values d) (idec_bytes d) i (idec_n d) (idec_prev d) (idec_first d)
    (idec_rleFirst d) (idec_rleDelta d) (idec_encoding d) (idec_err d).

Definition int64Decoder_set_err (err : TsmError) (d : int64Decoder) : int64Decoder :=
  Int64Decoder (idec_values d) (idec_bytes d) (idec_i d) (idec_n d) (idec_prev d) (idec_first d)
    (idec_rleFirst d) (idec_rleDelta d) (idec_encoding d) (Some err).

Definition int64Decoder_Next (d : int64Decoder) : go (int64Decoder * bool) :=
  if (idec_n d <=? idec_i d) && (go_len (idec_bytes d) =? 0) then Ok (d, false) else
  let d := int64Decoder_set_i (idec_i d + 1) d in
  let! d :=
    if idec_n d <=? idec_i d then
      if idec_encoding d =? intUncompressed then int64Decoder_decodeUncompressed d
      else if idec_encoding d =? intCompressedSimple then int64Decoder_decodePacked d
      else if idec_encoding d =? intCompressedRLE then int64Decoder_decodeRLE d
      else Ok (int64Decoder_set_err (ErrUnknownEncoding (idec_encoding d)) d)
    else Ok d in
  Ok (d, idec_i d <? idec_n d).

#[export] Instance int64Decoder_Decoder : Decoder int64Decoder Z := {|
  dec_Next := int64Decoder_Next;
  dec_Read := int64Decoder_Read;
  dec_Error := idec_err
|}.

End Simple8b.

(** ** Zig-zag *)

Lemma lxor_ones a : is_u64 a → Z.lxor a (2 ^ 64 - 1) = 2 ^ 64 - 1 - a.
Proof.
  intros Ha. change (2 ^ 64 - 1) with (Z.ones 64).
  assert (Hz : Z.ldiff a (Z.ones 64) = 0).
  { rewrite Z.ldiff_ones_r, Z.shiftr_div_pow2, Z.div_small by (unfold is_u64 in Ha; lia).
    apply Z.shiftl_0_l. }
  rewrite Z.sub_nocarry_ldiff by done. apply Z.bits_inj'. intros n Hn.
  rewrite Z.lxor_spec, Z.ldiff_spec. pose proof (f_equal (λ x, Z.testbit x n) Hz) as Hb.
  simpl in Hb. rewrite Z.ldiff_spec, Z.bits_0 in Hb.
  destruct (Z.testbit a n), (Z.testbit (Z.ones 64) n); simpl in *; congruence.
Qed.

Lemma ZigZagEncode_eq x : is_i64 x → ZigZagEncode x = if x <? 0 then - 2 * x - 1 else 2 * x.
Proof.
  intros Hx. unfold ZigZagEncode. rewrite u64_i64, (i64_small x) by done.
  rewrite Z.shiftl_mul_pow2, Z.shiftr_div_pow2 by lia. unfold is_i64 in Hx.
  destruct (Z.ltb_spec x 0).
  - replace (x / 2 ^ 63) with (-1) by (apply (Z.div_unique x (2 ^ 63) (-1) (x + 2 ^ 63)); lia).
    change (u64 (-1)) with (2 ^ 64 - 1). rewrite lxor_ones by apply u64_range.
    assert (u64 (x * 2 ^ 1) = 2 * x + 2 ^ 64) as ->.
    { unfold u64. symmetry. apply (Z.mod_unique (x * 2 ^ 1) (2 ^ 64) (-1)); lia. }
    rewrite u64_small by (unfold is_u64; lia). lia.
  - rewrite Z.div_small by lia. change (u64 0) with 0.
    rewrite Z.lxor_0_r, (u64_small (x * 2 ^ 1)), u64_small by (unfold is_u64; lia). lia.
Qed.

Lemma ZigZagDecode_eq v :
  is_u64 v → ZigZagDecode v = if Z.odd v then - (v / 2) - 1 else v / 2.
Proof.
  intros Hv. unfold ZigZagDecode.
  replace (Z.land v 1) with (v mod 2) by (symmetry; apply (Z.land_ones v 1); lia).
  rewrite Zmod_odd, (Z.shiftr_div_pow2 v) by lia. change (2 ^ 1) with 2.
  assert (0 ≤ v / 2 < 2 ^ 63).
  { unfold is_u64 in Hv. split; [apply Z.div_pos; lia|apply Z.div_lt_upper_bound; lia]. }
  destruct (Z.odd v).
  - change (u64 _) with (2 ^ 64 - 1). rewrite lxor_ones by (unfold is_u64; lia).
    replace (2 ^ 64 - 1 - v / 2) with (u64 (- (v / 2) - 1)).
    + rewrite i64_u64, i64_small by (unfold is_i64; lia). done.
    + unfold u64. symmetry. apply (Z.mod_unique _ (2 ^ 64) (-1)); lia.
  - change (u64 _) with 0. rewrite Z.lxor_0_r, i64_small by (unfold is_i64; lia). done.
Qed.

Lemma ZigZagEncode_range x : is_u64 (ZigZagEncode x).
Proof. apply u64_range. Qed.

Lemma ZigZagDecode_range v : is_i64 (ZigZagDecode v).
Proof. apply i64_range. Qed.

Lemma ZigZagDecode_Encode x : is_i64 x → ZigZagDecode (ZigZagEncode x) = x.
Proof.
  intros Hx. rewrite ZigZagDecode_eq by apply ZigZagEncode_range.
  rewrite ZigZagEncode_eq by done. set (w := if x <? 0 then _ else _).
  pose proof (Z.div_mod w 2) as Hd. rewrite Zmod_odd in Hd.
  unfold w in *. clear w. destruct (Z.ltb_spec x 0), (Z.odd _); lia.
Qed.

Lemma ZigZagEncode_Decode v : is_u64 v → ZigZagEncode (ZigZagDecode v) = v.
Proof.
  intros Hv. rewrite ZigZagEncode_eq by apply ZigZagDecode_range.
  rewrite ZigZagDecode_eq by done. pose proof (Z.div_mod v 2) as Hd. rewrite Zmod_odd in Hd.
  assert (0 ≤ v / 2) by (unfold is_u64 in Hv; apply Z.div_pos; lia).
  destruct (Z.odd v); [destruct (Z.ltb_spec (- (v / 2) - 1) 0)|destruct (Z.ltb_spec (v / 2) 0)]; lia.
Qed.

#[export] Hint Resolve ZigZagEncode_range ZigZagDecode_range : influx.
#[global] Arguments ZigZagEncode : simpl never.
#[global] Arguments ZigZagDecode : simpl never.

(** ** What the encoder holds *)

(** The zig-zag coded differences of [vs], the value before the first is [p]. *)
Fixpoint zz_deltas (p : Z) (vs : list Z) : list Z :=
  match vs with
  | [] => []
  | v :: vs' => ZigZagEncode (i64 (v - p)) :: zz_deltas v vs'
  end.

(** All but the first element are equal. *)
Definition tail_constant (us : list Z) : Prop :=
  ∀ x y, x ∈ tail us → y ∈ tail us → x = y.

Definition int_repr (e : int64Encoder) (vs : list Z) : Prop :=
  ienc_values e = zz_deltas 0 vs ∧ ienc_prev e = default 0 (last vs) ∧
  (ienc_rle e = true ↔ tail_constant (ienc_values e)).

Lemma zz_deltas_snoc p vs v :
  zz_deltas p (vs ++ [v]) = zz_deltas p vs ++ [ZigZagEncode (i64 (v - default p (last vs)))].
Proof.
  revert p. induction vs as [|w vs IH]; intros p; [done|]. simpl app. cbn [zz_deltas].
  rewrite IH, last_cons. by destruct (last vs).
Qed.

Lemma zz_deltas_length p vs : length (zz_deltas p vs) = length vs.
Proof. revert p. induction vs; intros; simpl; auto. Qed.

Lemma zz_deltas_u64 p vs : Forall is_u64 (zz_deltas p vs).
Proof. revert p. induction vs; constructor; auto with influx. Qed.

Lemma tail_constant_snoc us u :
  tail_constant (us ++ [u]) ↔
  tail_constant us ∧ ((1 < length us)%nat → last us = Some u).
Proof.
  unfold tail_constant. destruct us as [|a us].
  - simpl. split; [|set_solver]. intros _. split; [set_solver|lia].
  - simpl tail. cbn [app length]. split.
    + intros H. split; [set_solver|]. intros Hl. destruct us as [|b us]; [simpl in Hl; lia|].
      rewrite last_cons_cons. destruct (last (b :: us)) as [c|] eqn:Hc.
      * f_equal. apply H; [|set_solver]. apply last_Some in Hc as [l ->]. set_solver.
      * by apply last_None in Hc.
    + intros [H Hl] x y. rewrite !elem_of_app, !list_elem_of_singleton.
      destruct us as [|b us]; [set_solver|]. rewrite last_cons_cons in Hl.
      specialize (Hl ltac:(simpl; lia)). apply last_Some in Hl as [l Hl]. rewrite Hl in *.
      intros [Hx| ->] [Hy| ->]; [by apply H|apply H; set_solver|apply H; set_solver|done].
Qed.

Lemma int64Encoder_Write_repr e vs v :
  int_repr e vs → int_repr (int64Encoder_Write e v) (vs ++ [v]).
Proof.
  intros (Hv & Hp & Hr). unfold int64Encoder_Write, int_repr. cbn.
  rewrite Hp, Hv, zz_deltas_snoc, last_snoc. split_and!; [done..|].
  rewrite tail_constant_snoc. rewrite Hv in Hr. rewrite <- Hr.
  unfold go_len. destruct (Z.ltb_spec 1 (Z.of_nat (length (zz_deltas 0 vs)))).
  - rewrite andb_true_iff, bool_decide_eq_true. split; intros [H1 H2]; (split; [done|]).
    + by intros _.
    + apply H2. lia.
  - split; [|by intros []]. intros H1. split; [done|]. lia.
Qed.

Lemma int64Encoder_Writes_repr vs :
  int_repr (foldl int64Encoder_Write NewInt64Encoder vs) vs.
Proof.
  induction vs as [|v vs IH] using rev_ind.
  - split_and!; [done..|]. split; [|done]. intros _ x y Hx. by apply not_elem_of_nil in Hx.
  - rewrite foldl_snoc. by apply int64Encoder_Write_repr.
Qed.

Lemma go_len_zero {A} (l : list A) : (go_len l =? 0) = bool_decide (l = []).
Proof. by destruct l. Qed.

Lemma slice_0_8 v rest : slice (BigEndian_PutUint64 v ++ rest) 0 8 = Some (BigEndian_PutUint64 v).
Proof.
  pose proof (slice_app [] (BigEndian_PutUint64 v) rest) as H. cbn [app] in H.
  change (go_len []) with 0 in H. unfold go_len in H. by rewrite PutUint64_length in H.
Qed.

Lemma slice_from_8 v rest : slice_from (BigEndian_PutUint64 v ++ rest) 8 = Some rest.
Proof.
  pose proof (slice_from_app (BigEndian_PutUint64 v) rest) as H. unfold go_len in H.
  by rewrite PutUint64_length in H.
Qed.

Lemma PutUint64_app_nonnil v rest : (go_len (BigEndian_PutUint64 v ++ rest) =? 0) = false.
Proof.
  apply Z.eqb_neq. rewrite go_len_app. unfold go_len at 1. rewrite PutUint64_length.
  pose proof (go_len_nonneg rest). lia.
Qed.

(** ** Reading raw and packed blocks *)

Ltac idec_simpl :=
  cbn [or_panic outcome_bind idec_values idec_bytes idec_i idec_n idec_prev idec_first
       idec_rleFirst idec_rleDelta idec_encoding idec_err int64Decoder_set_i] in *.

Section Pending.
Context {SB : Simple8b}.

(** The raw values the bytes not yet looked at stand for. *)
Inductive int_future : Z → bool → list Z → list Z → Prop :=
| future_end enc first : int_future enc first [] []
| future_raw first u us bs :
    is_u64 u → int_future intUncompressed first bs us →
    int_future intUncompressed first (BigEndian_PutUint64 u ++ bs) (u :: us)
| future_first u us bs :
    is_u64 u → int_future intCompressedSimple false bs us →
    int_future intCompressedSimple true (BigEndian_PutUint64 u ++ bs) (u :: us)
| future_word w ws us bs :
    is_u64 w → simple8b_Decode w = Some ws → (1 ≤ length ws ≤ 240)%nat →
    int_future intCompressedSimple false bs us →
    int_future intCompressedSimple false (BigEndian_PutUint64 w ++ bs) (ws ++ us).

(** The raw values still to come: those left in the buffer, then the future. *)
Definition int_pending (d : int64Decoder) (us : list Z) : Prop :=
  ∃ i n fut,
    idec_i d = Z.of_nat i ∧ idec_n d = Z.of_nat n ∧ (n ≤ 240)%nat ∧ (i ≤ n)%nat ∧
    length (idec_values d) = 240%nat ∧
    us = drop (S i) (take n (idec_values d)) ++ fut ∧
    int_future (idec_encoding d) (idec_first d) (idec_bytes d) fut ∧
    (idec_encoding d = intUncompressed ∨ idec_encoding d = intCompressedSimple) ∧
    idec_err d = None.

(** [Next] on a decoder with an empty buffer. *)
Lemma int64Decoder_refill d u us :
  idec_n d ≤ idec_i d + 1 → length (idec_values d) = 240%nat → idec_err d = None →
  int_future (idec_encoding d) (idec_first d) (idec_bytes d) (u :: us) →
  ∃ d', int64Decoder_Next d = Ok (d', true) ∧ int_pending d' us ∧
    go_nth (idec_values d') (idec_i d') = Some u ∧ idec_prev d' = idec_prev d.
Proof.
  intros Hn Hlen Herr Hf. destruct d as [values bytes i n prev first rf rd enc err]; idec_simpl.
  unfold int64Decoder_Next. idec_simpl. remember (u :: us) as uus eqn:Hu.
  destruct Hf as [|first u' us' bs Hu64 Hf|u' us' bs Hu64 Hf|w ws us' bs Hw Hd Hws Hf]; simplify_eq;
    rewrite PutUint64_app_nonnil, andb_false_r; (destruct (Z.leb_spec n (i + 1)); [|lia]).
  1: change (intUncompressed =? intUncompressed) with true.
  2,3: change (intCompressedSimple =? intUncompressed) with false;
    change (intCompressedSimple =? intCompressedSimple) with true.
  all: cbv iota; unfold int64Decoder_decodeUncompressed, int64Decoder_decodePacked; idec_simpl;
    rewrite PutUint64_app_nonnil, slice_0_8; cbn [or_panic outcome_bind];
    rewrite Uint64_PutUint64_nil, slice_from_8 by done; cbn [or_panic outcome_bind].
  1,2: destruct values as [|v0 values]; [done|]; eexists; (split_and!; [done| |done|done]);
    exists 0%nat, 1%nat, us; split_and!; idec_simpl; try done; try lia; try (by auto);
    cbn; by rewrite take_0.
  rewrite Hd. destruct ws as [|u' ws]; [cbn in Hws; lia|]. cbn [app] in Hu. simplify_eq.
  eexists. split_and!; [idec_simpl; f_equal; f_equal; unfold go_len; cbn [length]; lia| |done|done].
  exists 0%nat, (S (length ws)), us'. cbn [length] in Hws. split_and!; idec_simpl; try done; try lia.
  - rewrite length_app, length_drop. cbn [length]. lia.
  - cbn [app take drop]. by rewrite take_app_length.
Qed.

Lemma int_pending_next d u us :
  int_pending d (u :: us) →
  ∃ d', int64Decoder_Next d = Ok (d', true) ∧ int_pending d' us ∧
    go_nth (idec_values d') (idec_i d') = Some u ∧ idec_prev d' = idec_prev d.
Proof.
  intros (i & n & fut & Hi & Hn & Hn240 & Hin & Hlen & Hus & Hf & Henc & Herr).
  destruct (decide (n ≤ S i)%nat) as [Hge|Hlt].
  - rewrite drop_ge in Hus by (rewrite length_take; lia). simpl in Hus. subst fut.
    apply int64Decoder_refill; [lia|done..].
  - destruct (lookup_lt_is_Some_2 (take n (idec_values d)) (S i)) as [w Hw];
      [rewrite length_take; lia|].
    rewrite (drop_S _ _ _ Hw) in Hus. simplify_eq/=.
    exists (int64Decoder_set_i (Z.of_nat (S i)) d).
    destruct d as [values bytes zi zn prev first rf rd enc err]. idec_simpl. subst zi zn.
    unfold int64Decoder_Next. idec_simpl.
    replace (Z.of_nat n <=? Z.of_nat i) with false by lia.
    replace (Z.of_nat i + 1) with (Z.of_nat (S i)) by lia. cbn [andb].
    rewrite (proj2 (Z.leb_gt (Z.of_nat n) (Z.of_nat (S i)))) by lia. idec_simpl.
    rewrite (proj2 (Z.ltb_lt (Z.of_nat (S i)) (Z.of_nat n))) by lia.
    split_and!; [done| | |done].
    + exists (S i), n, fut. split_and!; idec_simpl; try done; lia.
    + rewrite lookup_take_lt in Hw by lia. unfold go_nth.
      destruct (Z.leb_spec 0 (Z.of_nat (S i))); [|lia]. by rewrite Nat2Z.id.
Qed.

Lemma int_future_nil enc first bs : int_future enc first bs [] → bs = [].
Proof.
  inversion 1 as [| | |w ws us bs' ? ? Hws ? Henc Hf Hb Hu]; [done|].
  apply app_nil in Hu as [-> _]. simpl in Hws. lia.
Qed.

Lemma int_pending_end d :
  int_pending d [] → ∃ d', int64Decoder_Next d = Ok (d', false) ∧ idec_err d' = None.
Proof.
  intros (i & n & fut & Hi & Hn & Hn240 & Hin & Hlen & Hus & Hf & Henc & Herr).
  symmetry in Hus. apply app_nil in Hus as [Hdrop ->]. apply int_future_nil in Hf.
  apply (f_equal length) in Hdrop. rewrite length_drop, length_take, Hlen in Hdrop. simpl in Hdrop.
  unfold int64Decoder_Next. rewrite Hi, Hn, Hf. simpl. rewrite andb_true_r.
  destruct (Z.leb_spec (Z.of_nat n) (Z.of_nat i)); [eauto|].
  rewrite Hn. destruct (Z.leb_spec (Z.of_nat n) (Z.of_nat i + 1)); [|lia].
  unfold int64Decoder_decodeUncompressed, int64Decoder_decodePacked, int64Decoder_decodeRLE. simpl.
  rewrite Hf. simpl. destruct Henc as [-> | ->]; simpl; rewrite Hn;
    (destruct (Z.ltb_spec (Z.of_nat i + 1) (Z.of_nat n)); [lia|eauto]).
Qed.
(** Delta decoding: the pending differences of [vs] are read back as [vs]. *)
Lemma int_pending_yields d vs :
  Forall is_i64 vs → int_pending d (zz_deltas (idec_prev d) vs) → yields d vs.
Proof.
  intros Hvs. revert d. induction Hvs as [|v vs Hv Hvs IH]; intros d Hp.
  - destruct (int_pending_end d Hp) as (d' & ? & ?). by apply (yields_end d d').
  - destruct (int_pending_next _ _ _ Hp) as (d1 & Hn & Hp1 & Hu & Hprev).
    assert (Hval : i64 (ZigZagDecode (ZigZagEncode (i64 (v - idec_prev d))) + idec_prev d1) = v).
    { rewrite ZigZagDecode_Encode by apply i64_range. rewrite Hprev, i64_add_l.
      rewrite Z.sub_add. by apply i64_small. }
    set (d2 := Int64Decoder (idec_values d1) (idec_bytes d1) (idec_i d1) (idec_n d1) v (idec_first d1)
          (idec_rleFirst d1) (idec_rleDelta d1) (idec_encoding d1) (idec_err d1)).
    assert (Hp2 : int_pending d2 (zz_deltas (idec_prev d2) vs)) by exact Hp1.
    apply (yields_value d d1 d2 v); [done| | |by apply IH].
    + change (dec_Read d1) with (int64Decoder_Read d1). unfold int64Decoder_Read. rewrite Hu.
      destruct Hp1 as (_ & _ & _ & _ & _ & _ & _ & _ & _ & _ & Henc & _).
      replace (idec_encoding d1 =? intCompressedRLE) with false by by destruct Henc as [-> | ->].
      idec_simpl. by rewrite Hval.
    + by destruct Hp1 as (_ & _ & _ & _ & _ & _ & _ & _ & _ & _ & _ & Herr).
Qed.

Lemma int_future_raws first us :
  Forall is_u64 us → int_future intUncompressed first (us ≫= BigEndian_PutUint64) us.
Proof. induction 1; [constructor|]. rewrite bind_cons. by constructor. Qed.

Lemma int_future_words ws vss :
  Forall is_u64 ws →
  Forall2 (λ w us, simple8b_Decode w = Some us ∧ (1 ≤ length us ≤ 240)%nat) ws vss →
  int_future intCompressedSimple false (ws ≫= BigEndian_PutUint64) (concat vss).
Proof.
  intros Hws Hd. revert Hws. induction Hd as [|w us ws vss [? ?] _ IH]; [constructor|].
  intros [? ?]%Forall_cons. rewrite bind_cons. simpl concat. constructor; auto.
Qed.

(** The decoder of a block with type [enc] in its first byte. *)
Lemma NewInt64Decoder_pending enc bs us :
  enc = intUncompressed ∨ enc = intCompressedSimple →
  int_future enc true bs us →
  int_pending (NewInt64Decoder (u8 (Z.shiftl enc 4) :: bs)) us.
Proof.
  intros Henc Hf. exists 0%nat, 0%nat, us.
  assert (Z.shiftr (u8 (Z.shiftl enc 4)) 4 = enc) as Hs by by destruct Henc as [-> | ->].
  unfold NewInt64Decoder, int64Decoder_SetBytes. rewrite Hs. idec_simpl.
  split_and!; try done; lia.
Qed.

Lemma int64_plain_roundtrip e vs :
  Forall is_i64 vs → int_repr e vs →
  ienc_rle e && (2 <? go_len (ienc_values e)) = false →
  ∃ bs, int64Encoder_Bytes e = Ok bs ∧ yields (NewInt64Decoder bs) vs.
Proof.
  intros Hvs (Hv & _ & _) Hrle. unfold int64Encoder_Bytes. rewrite Hrle.
  pose proof (zz_deltas_u64 0 vs) as Hu.
  unfold int64Encoder_encodeUncompressed, int64Encoder_encodePacked. rewrite Hv.
  destruct (zz_deltas 0 vs) as [|u us] eqn:Hz.
  { exists []. split; [done|]. destruct vs; [|done].
    apply (yields_end _ (NewInt64Decoder [])); done. }
  destruct (existsb _ _) eqn:Hex.
  - eexists. split; [done|]. apply int_pending_yields; [done|].
    apply NewInt64Decoder_pending; [by left|]. cbn [idec_prev NewInt64Decoder].
    change (idec_prev _) with 0. rewrite Hz. by apply int_future_raws.
  - assert (Hsmall : Forall (λ v, 0 ≤ v ≤ simple8b_MaxValue) us).
    { apply Forall_forall. intros x Hx. rewrite Forall_forall in Hu. split.
      - specialize (Hu x). unfold is_u64 in Hu. ospecialize (Hu _); [by right|lia].
      - apply not_true_iff_false in Hex. apply Z.nlt_ge. intros Hlt. apply Hex.
        apply existsb_exists. exists x. split; [right; by apply list_elem_of_In|].
        by apply Z.ltb_lt. }
    destruct (simple8b_EncodeAll_spec us Hsmall) as (ws & vss & -> & Hws & Hd & <-).
    eexists. split; [done|]. apply int_pending_yields; [done|].
    apply NewInt64Decoder_pending; [by right|]. change (idec_prev _) with 0. rewrite Hz.
    apply Forall_cons in Hu as [Hu _]. constructor; [done|]. by apply int_future_words.
Qed.

(** ** Run-length coded blocks *)

Ltac rle_case :=
  change (intCompressedRLE =? intUncompressed) with false;
  change (intCompressedRLE =? intCompressedSimple) with false;
  change (intCompressedRLE =? intCompressedRLE) with true;
  cbv iota; unfold int64Decoder_decodeRLE; idec_simpl;
  try (change (go_len [] =? 0) with true; cbv iota).

(** The value [Read] computes at position [i] of a run. *)
Definition rle_value (first delta i : Z) : Z := ZigZagDecode (u64 (first + i * delta)).

Lemma int64Decoder_rle_yields d k n :
  idec_encoding d = intCompressedRLE → idec_bytes d = [] → idec_err d = None →
  idec_i d = Z.of_nat k → idec_n d = Z.of_nat n → (k < n)%nat → Z.of_nat n < 2 ^ 63 →
  yields d ((λ i, rle_value (idec_rleFirst d) (idec_rleDelta d) (Z.of_nat i)) <$> seq (S k) (n - S k)).
Proof.
  intros Henc Hb Herr Hi Hn Hk H63. remember (n - S k)%nat as m eqn:Hm.
  revert d k Henc Hb Herr Hi Hn Hk Hm.
  induction m as [|m IH]; intros d k Henc Hb Herr Hi Hn Hk Hm;
    destruct d as [values bytes zi zn prev first rf rd enc err]; idec_simpl; subst.
  - eapply (yields_end _ (Int64Decoder values [] _ _ prev first rf rd _ None)); [|done].
    simpl. unfold int64Decoder_Next. idec_simpl.
    rewrite (proj2 (Z.leb_gt (Z.of_nat n) (Z.of_nat k))) by lia. cbn [andb].
    rewrite (proj2 (Z.leb_le (Z.of_nat n) (Z.of_nat k + 1))) by lia. rle_case. idec_simpl.
    by rewrite (proj2 (Z.ltb_ge (Z.of_nat k + 1) (Z.of_nat n))) by lia.
  - set (d1 := Int64Decoder values [] (Z.of_nat (S k)) (Z.of_nat n) prev first rf rd
                 intCompressedRLE None).
    cbn [seq fmap list_fmap]. apply (yields_value _ d1 d1).
    + simpl. unfold int64Decoder_Next. idec_simpl.
      rewrite (proj2 (Z.leb_gt (Z.of_nat n) (Z.of_nat k))) by lia. cbn [andb].
      replace (Z.of_nat k + 1) with (Z.of_nat (S k)) by lia.
      rewrite (proj2 (Z.leb_gt (Z.of_nat n) (Z.of_nat (S k)))) by lia. idec_simpl.
      by rewrite (proj2 (Z.ltb_lt (Z.of_nat (S k)) (Z.of_nat n))) by lia.
    + simpl. unfold int64Decoder_Read, rle_value. idec_simpl. unfold d1.
      change (intCompressedRLE =? intCompressedRLE) with true. idec_simpl.
      rewrite (u64_small (Z.of_nat (S k))) by (unfold is_u64; lia). by rewrite u64_add_r.
    + done.
    + apply (IH d1 (S k)); unfold d1; idec_simpl; try done; lia.
Qed.

Lemma int64_rle_decode e vs u0 u1 us :
  int_repr e vs → zz_deltas 0 vs = u0 :: u1 :: us →
  ienc_rle e && (2 <? go_len (ienc_values e)) = true → go_len vs < 2 ^ 63 →
  ∃ bs, int64Encoder_Bytes e = Ok bs ∧
    yields (NewInt64Decoder bs) ((λ i, rle_value u0 u1 (Z.of_nat i)) <$> seq 0 (length vs)).
Proof.
  intros (Hv & _ & _) Hz Hrle Hlen. unfold int64Encoder_Bytes. rewrite Hrle.
  pose proof (zz_deltas_u64 0 vs) as Hu. rewrite Hz in Hu.
  apply Forall_cons in Hu as [Hu0 [Hu1 _]%Forall_cons].
  assert (Hn : length vs = S (S (length us))) by (by rewrite <- (zz_deltas_length 0 vs), Hz).
  unfold int64Encoder_encodeRLE. rewrite Hv, Hz. eexists. split; [done|].
  set (cnt := go_len (u0 :: u1 :: us) - 1).
  assert (Hcnt : cnt = Z.of_nat (length vs) - 1) by (unfold cnt, go_len; cbn [length]; lia).
  assert (Hcnt64 : is_u64 cnt) by (unfold is_u64, go_len in *; lia).
  rewrite (u64_small cnt) by done.
  set (d1 := Int64Decoder (replicate 240 0) [] 0 (Z.of_nat (length vs)) 0 true u0 u1
               intCompressedRLE None).
  assert (Hnext : int64Decoder_Next (NewInt64Decoder (u8 (Z.shiftl intCompressedRLE 4) ::
      BigEndian_PutUint64 u0 ++ PutUvarint u1 ++ PutUvarint cnt)) = Ok (d1, true)).
  { unfold int64Decoder_Next, NewInt64Decoder, int64Decoder_SetBytes, int64Decoder_zero.
    change (Z.shiftr (u8 (Z.shiftl intCompressedRLE 4)) 4) with intCompressedRLE. idec_simpl.
    rewrite PutUint64_app_nonnil. rewrite andb_false_r. change (0 <=? 0 + 1) with true.
    rle_case. rewrite PutUint64_app_nonnil, slice_0_8.
    cbn [or_panic outcome_bind]. rewrite Uint64_PutUint64_nil, slice_from_8 by done.
    cbn [or_panic outcome_bind]. rewrite Uvarint_PutUvarint by done.
    rewrite app_assoc. replace (8 + go_len (PutUvarint u1))
      with (go_len (BigEndian_PutUint64 u0 ++ PutUvarint u1))
      by (rewrite go_len_app; unfold go_len; by rewrite PutUint64_length).
    rewrite slice_from_app. cbn [or_panic outcome_bind].
    rewrite <- (app_nil_r (PutUvarint cnt)), Uvarint_PutUvarint by done.
    idec_simpl. rewrite (i64_small cnt), i64_small by (unfold is_i64, go_len in *; lia).
    rewrite (proj2 (Z.ltb_lt 0 (cnt + 1))) by lia. unfold d1. do 3 f_equal. lia. }
  rewrite Hn. cbn [seq fmap list_fmap]. apply (yields_value _ d1 d1); [exact Hnext| |done|].
  - simpl. unfold int64Decoder_Read, rle_value, d1.
    change (intCompressedRLE =? intCompressedRLE) with true. idec_simpl. done.
  - pose proof (int64Decoder_rle_yields d1 0 (length vs) eq_refl eq_refl eq_refl eq_refl eq_refl) as Hy.
    rewrite Hn in Hy. unfold go_len in Hlen. rewrite Hn in Hlen. apply Hy; lia.
Qed.

End Pending.

(** ** Runs: which of them survive *)

(** [n] integers from [v] on with the constant (wrapping) difference [d]. *)
Fixpoint run (v d : Z) (n : nat) : list Z :=
  match n with
  | O => []
  | S n' => v :: run (i64 (v + d)) d n'
  end.

(** A constant run, or a run of non-negative, non-decreasing integers that does
    not pass the largest [int64]. *)
Definition run_safe (v d : Z) (n : nat) : Prop :=
  d = 0 ∨ (0 ≤ v ∧ 0 ≤ d ∧ v + (Z.of_nat n - 1) * d < 2 ^ 63).

Lemma run_lookup v d n i :
  is_i64 v → (i < n)%nat → run v d n !! i = Some (i64 (v + Z.of_nat i * d)).
Proof.
  revert v i. induction n as [|n IH]; intros v [|i] Hv Hi; cbn [run]; try lia.
  - simpl. f_equal. rewrite Z.add_0_r. symmetry. by apply i64_small.
  - simpl lookup. rewrite IH by (auto using i64_range; lia). f_equal. rewrite i64_add_l. f_equal. lia.
Qed.

Lemma run_length v d n : length (run v d n) = n.
Proof. revert v. induction n; intros; simpl; auto. Qed.

Lemma run_deltas v d n :
  is_i64 d → zz_deltas v (run (i64 (v + d)) d n) = replicate n (ZigZagEncode d).
Proof.
  intros Hd. revert v. induction n as [|n IH]; intros v; [done|]. cbn [run zz_deltas replicate].
  rewrite IH. do 2 f_equal. unfold Z.sub. rewrite i64_add_l. rewrite <- (i64_small d) at 2 by done.
  f_equal. lia.
Qed.

Lemma zz_deltas_run v d vs n :
  is_i64 d → Forall is_i64 vs → zz_deltas v vs = replicate n (ZigZagEncode d) →
  vs = run (i64 (v + d)) d n.
Proof.
  intros Hd Hvs. revert v n. induction Hvs as [|w vs Hw Hvs IH]; intros v [|n]; try done.
  cbn [run zz_deltas replicate]. intros [= H1 H2].
  apply (f_equal ZigZagDecode) in H1. rewrite !ZigZagDecode_Encode in H1 by auto with influx.
  assert (w = i64 (v + d)) as ->; [|f_equal; auto].
  rewrite <- H1, i64_add_r. rewrite <- (i64_small w) at 1 by done. f_equal. lia.
Qed.

(** The encoder takes a series for a run exactly when it is one. *)
Lemma tail_constant_run vs :
  Forall is_i64 vs → (3 ≤ length vs)%nat →
  tail_constant (zz_deltas 0 vs) →
  ∃ v d, is_i64 v ∧ is_i64 d ∧ vs = run v d (length vs).
Proof.
  intros Hvs Hlen Htc. destruct vs as [|v [|w vs]]; cbn [length] in Hlen; [lia..|].
  apply Forall_cons in Hvs as [Hv Hvs]. exists v, (i64 (w - v)).
  split_and!; [done|apply i64_range|]. set (d := i64 (w - v)).
  change (v :: w :: vs = v :: run (i64 (v + d)) d (length (w :: vs))). f_equal.
  apply zz_deltas_run; [apply i64_range|done|]. symmetry. apply replicate_as_Forall.
  rewrite zz_deltas_length. split; [done|]. apply Forall_forall. intros x Hx.
  apply Htc; [by left|done].
Qed.

Lemma run_tail_constant v d n :
  is_i64 d → tail_constant (zz_deltas 0 (run v d n)).
Proof.
  intros Hd x y. destruct n as [|n]; [by intros ?%not_elem_of_nil|].
  cbn [run zz_deltas tail]. rewrite run_deltas by done.
  by intros [-> _]%elem_of_replicate [-> _]%elem_of_replicate.
Qed.

Lemma rle_value_safe v d n i :
  is_i64 v → is_i64 d → run_safe v d n → (i < n)%nat →
  rle_value (ZigZagEncode v) (ZigZagEncode d) (Z.of_nat i) = i64 (v + Z.of_nat i * d).
Proof.
  intros Hv Hd Hs Hi. unfold rle_value. destruct Hs as [->|(Hv0 & Hd0 & Hlt)].
  - change (ZigZagEncode 0) with 0. rewrite !Z.mul_0_r, !Z.add_0_r.
    rewrite u64_small by auto with influx. by rewrite ZigZagDecode_Encode, i64_small.
  - assert (Hx : is_i64 (v + Z.of_nat i * d)) by (unfold is_i64 in *; nia).
    rewrite i64_small by done. rewrite <- (ZigZagDecode_Encode _ Hx). f_equal.
    rewrite !ZigZagEncode_eq by done.
    rewrite (proj2 (Z.ltb_ge v 0)), (proj2 (Z.ltb_ge d 0)) by lia.
    rewrite (proj2 (Z.ltb_ge (v + Z.of_nat i * d) 0)) by nia.
    rewrite u64_small; [lia|]. unfold is_u64, is_i64 in *. nia.
Qed.

(** [u64 x] and [i64 x] as linear facts, and the decoded value by parity. *)
Lemma u64_linear x : ∃ q, u64 x = x - 2 ^ 64 * q.
Proof. exists (x / 2 ^ 64). unfold u64. rewrite Z.mod_eq by lia. lia. Qed.

Lemma i64_linear x : ∃ q, i64 x = x - 2 ^ 64 * q.
Proof. exists ((x + 2 ^ 63) / 2 ^ 64). unfold i64. rewrite Z.mod_eq by lia. lia. Qed.

Lemma ZigZagDecode_linear v :
  is_u64 v → v = 2 * ZigZagDecode v ∧ 0 ≤ ZigZagDecode v ∨
             v = - 2 * ZigZagDecode v - 1 ∧ ZigZagDecode v < 0.
Proof.
  intros Hv. pose proof (ZigZagEncode_Decode v Hv) as E.
  rewrite ZigZagEncode_eq in E by auto with influx.
  destruct (Z.ltb_spec (ZigZagDecode v) 0); lia.
Qed.

Lemma rle_value_linear v d i :
  is_i64 v → is_i64 d →
  ∃ q, let x := rle_value (ZigZagEncode v) (ZigZagEncode d) i in
    let s := ZigZagEncode v + i * ZigZagEncode d - 2 ^ 64 * q in
    0 ≤ s < 2 ^ 64 ∧ (s = 2 * x ∧ 0 ≤ x ∨ s = - 2 * x - 1 ∧ x < 0).
Proof.
  intros Hv Hd. destruct (u64_linear (ZigZagEncode v + i * ZigZagEncode d)) as [q Hq].
  exists q. cbv zeta. rewrite <- Hq. split; [apply u64_range|].
  apply ZigZagDecode_linear, u64_range.
Qed.

(** Every other run is read back wrong at some position. *)
Lemma rle_value_unsafe v d n :
  is_i64 v → is_i64 d → (3 ≤ n)%nat → ¬ run_safe v d n →
  ∃ i, (i < n)%nat ∧
    rle_value (ZigZagEncode v) (ZigZagEncode d) (Z.of_nat i) ≠ i64 (v + Z.of_nat i * d).
Proof.
  intros Hv Hd Hn Hs.
  assert (Hbad : ∀ i, (i < n)%nat →
    (∀ x y q r, 0 ≤ ZigZagEncode v + Z.of_nat i * ZigZagEncode d - 2 ^ 64 * q < 2 ^ 64 →
      let s := ZigZagEncode v + Z.of_nat i * ZigZagEncode d - 2 ^ 64 * q in
      (s = 2 * x ∧ 0 ≤ x ∨ s = - 2 * x - 1 ∧ x < 0) →
      y = v + Z.of_nat i * d - 2 ^ 64 * r → is_i64 y → x ≠ y) →
    ∃ i, (i < n)%nat ∧
      rle_value (ZigZagEncode v) (ZigZagEncode d) (Z.of_nat i) ≠ i64 (v + Z.of_nat i * d)).
  { intros i Hi H. exists i. split; [done|].
    destruct (rle_value_linear v d (Z.of_nat i) Hv Hd) as (q & Hq1 & Hq2).
    destruct (i64_linear (v + Z.of_nat i * d)) as [r Hr].
    eapply H; [exact Hq1|exact Hq2|exact Hr|apply i64_range]. }
  rewrite !ZigZagEncode_eq in Hbad |- * by done. unfold run_safe, is_i64 in *.
  destruct (Z.ltb_spec v 0), (Z.ltb_spec d 0).
  - apply (Hbad 1%nat); [lia|]. intros x y q r ? ? ? ?. lia.
  - destruct (Z.eq_dec d (2 ^ 62)) as [->|].
    + apply (Hbad 2%nat); [lia|]. intros x y q r ? ? ? ?. lia.
    + apply (Hbad 1%nat); [lia|]. intros x y q r ? ? ? ?. lia.
  - apply (Hbad 2%nat); [lia|]. intros x y q r ? ? ? ?. lia.
  - assert (0 < d) by lia. set (i := (2 ^ 63 - v + d - 1) / d).
    assert (Hi : 2 ^ 63 - v ≤ i * d < 2 ^ 63 - v + d).
    { pose proof (Z.div_mod (2 ^ 63 - v + d - 1) d) as E.
      pose proof (Z.mod_pos_bound (2 ^ 63 - v + d - 1) d). fold i in E. lia. }
    assert (0 ≤ i < Z.of_nat n) by nia.
    apply (Hbad (Z.to_nat i)); [lia|]. rewrite Z2Nat.id by lia.
    replace (i * (2 * d)) with (2 * (i * d)) by lia. set (t := i * d) in *.
    intros x y q r ? ? ? ?. lia.
Qed.

Section Roundtrip.
Context {SB : Simple8b}.

(** The encoder chooses run-length coding exactly for runs of three or more. *)
Lemma int_repr_rle e vs :
  Forall is_i64 vs → int_repr e vs →
  (ienc_rle e && (2 <? go_len (ienc_values e)) = true ↔
   (3 ≤ length vs)%nat ∧ ∃ v d, is_i64 v ∧ is_i64 d ∧ vs = run v d (length vs)).
Proof.
  intros Hvs (Hv & _ & Hr). rewrite andb_true_iff, Hr, Hv, Z.ltb_lt. unfold go_len.
  rewrite zz_deltas_length. split.
  - intros [Htc Hlen]. split; [lia|]. apply tail_constant_run; [done|lia|done].
  - intros [Hlen (v & d & Hv64 & Hd & Hrun)]. split; [|lia].
    pose proof (run_tail_constant v d (length vs) Hd) as Ht. by rewrite <- Hrun in Ht.
Qed.

Lemma rle_block_iff v d n bs :
  is_i64 v → is_i64 d → (3 ≤ n)%nat →
  yields (NewInt64Decoder bs)
    ((λ i, rle_value (ZigZagEncode v) (ZigZagEncode d) (Z.of_nat i)) <$> seq 0 n) →
  (yields (NewInt64Decoder bs) (run v d n) ↔ run_safe v d n).
Proof.
  intros Hv Hd Hn Hy. split.
  - intros Hrun. pose proof (yields_unique _ _ _ Hrun Hy) as Heq.
    assert (Hdec : run_safe v d n ∨ ¬ run_safe v d n).
    { unfold run_safe. destruct (decide (d = 0)); [by left; left|].
      destruct (decide (0 ≤ v ∧ 0 ≤ d ∧ v + (Z.of_nat n - 1) * d < 2 ^ 63));
        [by left; right|by right; intros [|]]. }
    destruct Hdec as [|Hns]; [done|]. destruct (rle_value_unsafe v d n Hv Hd Hn Hns) as (i & Hi & Hne).
    destruct Hne. pose proof (run_lookup v d n i Hv Hi) as Hl.
    rewrite Heq, list_lookup_fmap, lookup_seq_lt in Hl by done. by simplify_eq/=.
  - intros Hs. replace (run v d n) with
      ((λ i, rle_value (ZigZagEncode v) (ZigZagEncode d) (Z.of_nat i)) <$> seq 0 n); [done|].
    eapply list_eq_same_length with (n := n); [by rewrite run_length|by rewrite length_fmap, length_seq|].
    intros i x y Hi Hx Hr. rewrite list_lookup_fmap, lookup_seq_lt in Hx by done.
    rewrite run_lookup in Hr by done. simplify_eq/=. by apply rle_value_safe with n.
Qed.

(** An integer block is read back correctly exactly when it is not an unsafe run. *)
Lemma int64_roundtrip_iff vs :
  Forall is_i64 vs → go_len vs < 2 ^ 63 →
  ∃ bs, int64Encoder_Bytes (foldl int64Encoder_Write NewInt64Encoder vs) = Ok bs ∧
    (yields (NewInt64Decoder bs) vs ↔
     ∀ v d n, is_i64 v → is_i64 d → (3 ≤ n)%nat → vs = run v d n → run_safe v d n).
Proof.
  intros Hvs Hlen. pose proof (int64Encoder_Writes_repr vs) as Hr.
  set (e := foldl _ _ _) in *. pose proof (int_repr_rle e vs Hvs Hr) as Hiff.
  destruct (ienc_rle e && (2 <? go_len (ienc_values e))) eqn:Hrle.
  - destruct Hiff as [(Hn & v & d & Hv & Hd & Hrun) _]; [done|].
    destruct (length vs) as [|[|n]] eqn:Hl; [lia..|].
    assert (Hz : zz_deltas 0 vs = ZigZagEncode v :: ZigZagEncode d :: replicate n (ZigZagEncode d)).
    { rewrite Hrun. cbn [run]. change (run v d (S (S n))) with (v :: run (i64 (v + d)) d (S n)).
      cbn [zz_deltas]. rewrite Z.sub_0_r, i64_small by done. f_equal.
      change (zz_deltas v (run (i64 (v + d)) d (S n)) = replicate (S n) (ZigZagEncode d)).
      by apply run_deltas. }
    destruct (int64_rle_decode e vs _ _ _ Hr Hz Hrle Hlen) as (bs & Hb & Hy).
    exists bs. split; [done|]. rewrite Hl in Hy.
    pose proof (rle_block_iff v d (S (S n)) bs Hv Hd Hn Hy) as Hblk. rewrite <- Hrun in Hblk.
    rewrite Hblk. split; [|intros Hs; by apply Hs].
    intros Hs v' d' n' Hv' Hd' Hn' Hrun'.
    assert (n' = S (S n)) as -> by (rewrite <- (run_length v' d' n'), <- Hrun'; done).
    rewrite Hrun in Hrun'. cbn [run] in Hrun'. injection Hrun' as <- Hi _.
    assert (d' = d) as ->; [|done].
    rewrite <- (i64_small d'), <- (i64_small d) by done.
    replace d' with (v + d' + - v) by lia. replace d with (v + d + - v) by lia.
    by rewrite <- (i64_add_l (v + d')), <- (i64_add_l (v + d)), Hi.
  - destruct (int64_plain_roundtrip e vs Hvs Hr Hrle) as (bs & Hb & Hy).
    exists bs. split; [done|]. split; [|done]. intros _ v d n Hv Hd Hn Hrun. exfalso.
    assert (length vs = n) as Hl by (rewrite Hrun; apply run_length).
    assert (false = true); [|done]. apply Hiff. rewrite Hl. split; [done|].
    by exists v, d.
Qed.

End Roundtrip.
