(* ===== verification/TsmTime.v ===== *)
(** * tsm1/timestamp.go

    Timestamps are delta coded in place, scaled down by the largest power of
    ten that divides all differences, and stored run-length coded, packed with
    simple8b, or raw. *)

From stdpp Require Import base list.
From Stdlib Require Import ZArith Lia.
From S2P Require Import Prelude Binary Tsm.

Local Open Scope Z_scope.

Definition timeUncompressed : Z := 0.
Definition timeCompressedPackedSimple : Z := 1.
Definition timeCompressedRLE : Z := 2.

(** [math.Log10] and [math.Pow10] are exact on the powers of ten in use
    ([10^0] to [10^15]); the exponent is the number of divisions by ten. *)
Fixpoint log10 (fuel : nat) (x : Z) : Z :=
  match fuel with
  | O => 0
  | S f => if x <? 10 then 0 else 1 + log10 f (x / 10)
  end.
Definition math_Log10 (x : Z) : Z := log10 15 x.
Definition math_Pow10 (e : Z) : Z := 10 ^ e.

Record encoder := TimeEncoder { tenc_ts : list Z }.

Definition NewTimeEncoder : encoder := TimeEncoder [].

Definition encoder_Write (e : encoder) (t : Time) : encoder :=
  TimeEncoder (tenc_ts e ++ [u64 (Time_UnixNano t)]).

(** [for { if v%divisor == 0 { break }; divisor /= 10 }]: from [10^12] the loop
    is left after at most twelve divisions, since everything is divisible by 1. *)
Fixpoint reduce_divisor (fuel : nat) (v divisor : Z) : Z :=
  match fuel with
  | O => divisor
  | S f => if v mod divisor =? 0 then divisor else reduce_divisor f v (divisor / 10)
  end.

(** The loop of [reduce] for [i] down to 1; [n] is [len(deltas)]. *)
Fixpoint reduce_loop (i n : nat) (deltas : list Z) (max divisor : Z) (rle : bool)
  : Z * Z * bool * list Z :=
  match i with
  | O => (max, divisor, rle, deltas)
  | S i' =>
      let deltas := <[i := u64 (nth i deltas 0 - nth i' deltas 0)]> deltas in
      let v := nth i deltas 0 in
      let max := if max <? v then v else max in
      let divisor := reduce_divisor 13 v divisor in
      let rle := Nat.eqb i (n - 1) || (rle && (nth (S i) deltas 0 =? nth i deltas 0)) in
      reduce_loop i' n deltas max divisor rle
  end.

(** [reduce] computes the deltas in place: the encoder's slice is changed. *)
Definition encoder_reduce (e : encoder) : encoder * (Z * Z * bool * list Z) :=
  let n := length (tenc_ts e) in
  let '(max, divisor, rle, deltas) := reduce_loop (n - 1) n (tenc_ts e) 0 (10 ^ 12) true in
  (TimeEncoder deltas, (max, divisor, rle, deltas)).

Definition encoder_encodeRaw (e : encoder) : go (list Z) :=
  Ok (u8 (Z.shiftl timeUncompressed 4) :: (tenc_ts e ≫= BigEndian_PutUint64)).

Definition encoder_encodeRLE (first delta div n : Z) : go (list Z) :=
  Ok (Z.lor (u8 (Z.shiftl timeCompressedRLE 4)) (u8 (math_Log10 div)) ::
      BigEndian_PutUint64 first ++ PutUvarint (delta / div) ++ PutUvarint (u64 n)).

Record decoder := TimeDecoder {
  tdec_v : Time;
  tdec_ts : list Z;
  tdec_err : option TsmError
}.

Definition decoder_Next (d : decoder) : decoder * bool :=
  match tdec_ts d with
  | [] => (d, false)
  | t :: ts => (TimeDecoder (Time_Unix0 (i64 t)) ts (tdec_err d), true)
  end.

Definition decoder_Read (d : decoder) : Time := tdec_v d.

#[export] Instance decoder_Decoder : Decoder decoder Time := {|
  dec_Next d := Ok (decoder_Next d);
  dec_Read d := Ok (d, decoder_Read d);
  dec_Error := tdec_err
|}.

(** [deltas[i] = deltas[i-1] + deltas[i]*scale] from the second element on. *)
Fixpoint prefix_sum (prev scale : Z) (ds : list Z) : list Z :=
  match ds with
  | [] => []
  | x :: ds' => let y := u64 (prev + u64 (x * scale)) in y :: prefix_sum y scale ds'
  end.

Definition decoder_decodeRLE (b : list Z) : go (list Z) :=
  let! b0 := or_panic (go_nth b 0) in
  let mod_ := i64 (math_Pow10 (Z.land b0 15)) in
  let! b1 := or_panic (slice b 1 9) in
  let! first := or_panic (BigEndian_Uint64 b1) in
  let! b2 := or_panic (slice_from b 9) in
  let '(value, n) := Uvarint b2 in
  let value := u64 (value * u64 mod_) in
  let! b3 := or_panic (slice_from b (9 + n)) in
  let '(count, _) := Uvarint b3 in
  if (count =? 0) || (2 ^ 63 <=? count) then Panic
  else Ok (first :: prefix_sum first 1 (replicate (Z.to_nat (count - 1)) value)).

(** The words of a raw block; [n] is [len(b)/8]. *)
Fixpoint raw_words (n : nat) (b : list Z) : list Z :=
  match n with
  | O => []
  | S n' => default 0 (BigEndian_Uint64 (take 8 b)) :: raw_words n' (drop 8 b)
  end.

Definition decoder_decodeRaw (b : list Z) : list Z :=
  match raw_words (length b / 8) b with
  | [] => []
  | first :: ds => first :: prefix_sum first 1 ds
  end.

Section Simple8b.
Context {SB : Simple8b}.

Definition encoder_encodePacked (div : Z) (dts : list Z) : go (list Z) :=
  match dts with
  | [] => Panic
  | first :: ds =>
      match simple8b_Encoder_Bytes ((λ v, v / div) <$> ds) with
      | None => Err ErrSimple8b
      | Some deltas =>
          Ok (Z.lor (u8 (Z.shiftl timeCompressedPackedSimple 4)) (u8 (math_Log10 div)) ::
              BigEndian_PutUint64 first ++ deltas)
      end
  end.

Definition encoder_Bytes (e : encoder) : encoder * go (list Z) :=
  if go_len (tenc_ts e) =? 0 then (e, Ok []) else
  let '(e, (max, div, rle, dts)) := encoder_reduce e in
  if rle && (1 <? go_len (tenc_ts e)) then
    (e, match tenc_ts e with
        | t0 :: t1 :: _ => encoder_encodeRLE t0 t1 div (go_len (tenc_ts e))
        | _ => Panic
        end)
  else if simple8b_MaxValue <? max then (e, encoder_encodeRaw e)
  else (e, encoder_encodePacked div dts).

Definition decoder_decodePacked (b : list Z) : go (list Z) :=
  let! b0 := or_panic (go_nth b 0) in
  let div := u64 (math_Pow10 (Z.land b0 15)) in
  let! b1 := or_panic (slice b 1 9) in
  let! first := or_panic (BigEndian_Uint64 b1) in
  let! b2 := or_panic (slice_from b 9) in
  Ok (first :: prefix_sum first div (simple8b_Decoder_All b2)).

Definition decoder_decode (b : list Z) : go decoder :=
  match b with
  | [] => Ok (TimeDecoder Time_zero [] None)
  | c :: b' =>
      let encoding := Z.shiftr c 4 in
      if encoding =? timeUncompressed then
        Ok (TimeDecoder Time_zero (decoder_decodeRaw b') None)
      else if encoding =? timeCompressedRLE then
        let! ts := decoder_decodeRLE b in Ok (TimeDecoder Time_zero ts None)
      else if encoding =? timeCompressedPackedSimple then
        let! ts := decoder_decodePacked b in Ok (TimeDecoder Time_zero ts None)
      else Ok (TimeDecoder Time_zero [] (Some (ErrUnknownEncoding encoding)))
  end.

Definition NewTimeDecoder (b : list Z) : go decoder := decoder_decode b.

End Simple8b.

(** ** The divisor is a power of ten that divides the deltas *)

Definition pow10 (div : Z) : Prop := ∃ k : nat, (k ≤ 12)%nat ∧ div = 10 ^ Z.of_nat k.

Lemma reduce_divisor_spec fuel v k :
  (k < fuel)%nat →
  ∃ j : nat, (j ≤ k)%nat ∧ reduce_divisor fuel v (10 ^ Z.of_nat k) = 10 ^ Z.of_nat j ∧
    v mod 10 ^ Z.of_nat j = 0.
Proof.
  revert k. induction fuel as [|f IH]; intros k Hk; [lia|]. cbn [reduce_divisor].
  destruct (Z.eqb_spec (v mod 10 ^ Z.of_nat k) 0) as [E|E]; [by exists k|].
  destruct k as [|k]; [by rewrite Z.mod_1_r in E|].
  rewrite Nat2Z.inj_succ, Z.pow_succ_r, Z.mul_comm, Z.div_mul by lia.
  destruct (IH k) as (j & Hj & H1 & H2); [lia|]. exists j. split_and!; [lia|done..].
Qed.

Lemma mod_pow10_le v (j k : nat) :
  (j ≤ k)%nat → v mod 10 ^ Z.of_nat k = 0 → v mod 10 ^ Z.of_nat j = 0.
Proof.
  intros Hjk Hk. apply Z.mod_divide; [lia|]. apply Z.mod_divide in Hk; [|lia].
  etrans; [|exact Hk]. exists (10 ^ Z.of_nat (k - j)). rewrite <- Z.pow_add_r by lia.
  f_equal. lia.
Qed.

Lemma log10_pow (k fuel : nat) : (k ≤ fuel)%nat → log10 fuel (10 ^ Z.of_nat k) = Z.of_nat k.
Proof.
  revert k. induction fuel as [|f IH]; intros k Hk; [by replace k with 0%nat by lia|].
  cbn [log10]. destruct k as [|k]; [done|].
  assert (0 < 10 ^ Z.of_nat k) by lia.
  rewrite Nat2Z.inj_succ, Z.pow_succ_r by lia.
  destruct (Z.ltb_spec (10 * 10 ^ Z.of_nat k) 10); [lia|].
  rewrite Z.mul_comm, Z.div_mul, IH by lia. lia.
Qed.

(** ** What [reduce] computes *)

Fixpoint u_deltas (p : Z) (l : list Z) : list Z :=
  match l with
  | [] => []
  | x :: l' => u64 (x - p) :: u_deltas x l'
  end.

Record reduced (max div : Z) (rle : bool) (ds : list Z) : Prop := {
  reduced_div : pow10 div;
  reduced_max : Forall (λ d, d ≤ max) ds;
  reduced_mod : Forall (λ d, d mod div = 0) ds;
  reduced_rle : rle = true → ∀ x y, x ∈ ds → y ∈ ds → x = y
}.

Lemma reduced_step max div rle v ds :
  reduced max div rle ds →
  reduced (if max <? v then v else max) (reduce_divisor 13 v div)
    (bool_decide (ds = []) || (rle && bool_decide (head ds = Some v))) (v :: ds).
Proof.
  intros [(k & Hk & ->) Hmax Hmod Hrle].
  destruct (reduce_divisor_spec 13 v k) as (j & Hj & -> & Hv); [lia|]. constructor.
  - exists j. split; [lia|done].
  - destruct (Z.ltb_spec max v); constructor; [lia| |lia|done].
    eapply Forall_impl; [exact Hmax|]. simpl. lia.
  - constructor; [done|]. eapply Forall_impl; [exact Hmod|]. intros d. by apply mod_pow10_le.
  - intros H. destruct ds as [|w ds].
    { intros x y ->%list_elem_of_singleton ->%list_elem_of_singleton. done. }
    simpl in H. apply andb_true_iff in H as [Hr Hh]. apply bool_decide_eq_true in Hh. simplify_eq.
    intros x y. rewrite !(elem_of_cons (v :: ds)).
    assert (Hin : v ∈ v :: ds) by by left.
    intros [-> |Hx] [-> |Hy]; auto.
Qed.

Lemma u_deltas_snoc h l a b :
  last (h :: l) = Some a → u_deltas h (l ++ [b]) = u_deltas h l ++ [u64 (b - a)].
Proof.
  revert h. induction l as [|x l IH]; intros h Hl; simpl in *; [by simplify_eq|].
  f_equal. by apply IH.
Qed.

(** The loop walks from the end: [pre ++ [b]] is still to be differenced, [ds]
    is done. *)
Lemma reduce_loop_spec pre b ds max div rle n h l :
  pre ++ [b] = h :: l → n = (length pre + 1 + length ds)%nat →
  reduced max div rle ds →
  ∃ max' div' rle',
    reduce_loop (length pre) n (pre ++ b :: ds) max div rle =
      (max', div', rle', h :: u_deltas h l ++ ds) ∧
    reduced max' div' rle' (u_deltas h l ++ ds).
Proof.
  revert b ds max div rle l. induction pre as [|a pre IH] using rev_ind;
    intros b ds max div rle l Hl Hn Hr.
  - simpl in *. simplify_eq. by eexists _, _, _.
  - rewrite length_app, Nat.add_1_r. rewrite length_app in Hn. cbn [length] in Hn.
    rewrite <- app_assoc. cbn [app reduce_loop].
    assert (Hl' : ∃ l', pre ++ [a] = h :: l').
    { destruct pre as [|p pre]; simpl in *; simplify_eq; eauto. }
    destruct Hl' as [l' Hl']. rewrite Hl' in Hl. cbn [app] in Hl. simplify_eq.
    assert (Hlast : last (h :: l') = Some a) by (by rewrite <- Hl', last_snoc).
    rewrite (u_deltas_snoc _ _ a) by done. rewrite <- app_assoc. cbn [app].
    set (v := u64 (b - a)).
    assert (Hb : nth (S (length pre)) (pre ++ a :: b :: ds) 0 = b).
    { rewrite app_nth2 by lia. by replace (S (length pre) - length pre)%nat with 1%nat by lia. }
    assert (Ha : nth (length pre) (pre ++ a :: b :: ds) 0 = a).
    { rewrite app_nth2 by lia. by rewrite Nat.sub_diag. }
    rewrite Hb, Ha. fold v.
    assert (Hins : <[S (length pre) := v]> (pre ++ a :: b :: ds) = pre ++ a :: v :: ds).
    { rewrite insert_app_r_alt by lia.
      by replace (S (length pre) - length pre)%nat with 1%nat by lia. }
    rewrite Hins.
    assert (Hv : nth (S (length pre)) (pre ++ a :: v :: ds) 0 = v).
    { rewrite app_nth2 by lia. by replace (S (length pre) - length pre)%nat with 1%nat by lia. }
    rewrite Hv. set (rle' := _ || _).
    assert (Hrle : rle' = bool_decide (ds = []) || (rle && bool_decide (head ds = Some v))).
    { unfold rle'. rewrite app_nth2 by lia.
      replace (S (S (length pre)) - length pre)%nat with 2%nat by lia. destruct ds as [|w ds].
      - rewrite (proj2 (Nat.eqb_eq _ _)); [done|]. cbn [length] in *. lia.
      - rewrite (proj2 (Nat.eqb_neq _ _)) by (cbn [length] in *; lia). simpl. f_equal.
        apply eq_true_iff_eq. rewrite Z.eqb_eq, bool_decide_eq_true. split; congruence. }
    rewrite Hrle. apply IH; [done|cbn [length]; lia|]. by apply reduced_step.
Qed.

Lemma encoder_reduce_spec u us :
  ∃ max div rle,
    encoder_reduce (TimeEncoder (u :: us)) =
      (TimeEncoder (u :: u_deltas u us), (max, div, rle, u :: u_deltas u us)) ∧
    reduced max div rle (u_deltas u us).
Proof.
  destruct (exists_last (l := u :: us)) as (pre & b & Hpre); [done|].
  destruct (reduce_loop_spec pre b [] 0 (10 ^ 12) true (length (u :: us)) u us)
    as (max & div & rle & Hl & Hr); [done| | |].
  - rewrite Hpre, length_app. simpl. lia.
  - constructor; [by exists 12%nat|constructor..|]. intros _ x y Hx. by apply not_elem_of_nil in Hx.
  - rewrite app_nil_r in Hr. exists max, div, rle. split; [|done].
    unfold encoder_reduce. cbn [tenc_ts].
    replace (length (u :: us) - 1)%nat with (length pre) by (rewrite Hpre, length_app; simpl; lia).
    rewrite Hpre in Hl |- * at 2. rewrite <- Hpre in Hl at 1.
    replace (length (pre ++ [b])) with (length (u :: us)) by (by rewrite Hpre).
    rewrite Hl, app_nil_r. done.
Qed.

(** ** Undoing the deltas *)

Lemma u_deltas_u64 p l : Forall is_u64 (u_deltas p l).
Proof. revert p. induction l; constructor; auto using u64_range. Qed.

Lemma u_deltas_length p l : length (u_deltas p l) = length l.
Proof. revert p. induction l; intros; simpl; auto. Qed.

(** Scaling down by the common divisor, back up and summing gives the input. *)
Lemma prefix_sum_scaled p div l :
  0 < div → Forall is_u64 l → Forall (λ d, d mod div = 0) (u_deltas p l) →
  prefix_sum p div ((λ v, v / div) <$> u_deltas p l) = l.
Proof.
  intros Hdiv Hl. revert p. induction Hl as [|x l Hx Hl IH]; intros p; [done|].
  cbn [u_deltas]. intros [Hm Hms]%Forall_cons. cbn [fmap list_fmap prefix_sum].
  assert (u64 (x - p) / div * div = u64 (x - p)) as ->.
  { rewrite Z.mul_comm. symmetry. apply Z.div_exact; [lia|done]. }
  rewrite (u64_small (u64 _)) by apply u64_range. rewrite u64_add_r.
  replace (p + (x - p)) with x by lia. rewrite u64_small by done. f_equal. by apply IH.
Qed.

Lemma prefix_sum_deltas p l : Forall is_u64 l → prefix_sum p 1 (u_deltas p l) = l.
Proof.
  intros Hl. rewrite <- (prefix_sum_scaled p 1 l) at 2; [|lia|done|].
  - f_equal. induction (u_deltas p l) as [|d ds IH]; csimpl; [done|]. by rewrite Z.div_1_r, <- IH.
  - apply Forall_forall. intros. apply Z.mod_1_r.
Qed.

Lemma raw_words_Put us rest :
  Forall is_u64 us → raw_words (length us) ((us ≫= BigEndian_PutUint64) ++ rest) = us.
Proof.
  induction 1 as [|u us Hu Hus IH]; [done|]. cbn [length raw_words].
  rewrite bind_cons, <- app_assoc, drop_PutUint64, IH.
  rewrite take_app_length' by (by rewrite PutUint64_length).
  rewrite <- (app_nil_r (BigEndian_PutUint64 u)), Uint64_PutUint64 by done. done.
Qed.

(** ** The header byte: four bits of type, four bits of exponent *)

Lemma time_header enc (k : nat) :
  enc = 1 ∨ enc = 2 → (k ≤ 12)%nat →
  let c := Z.lor (u8 (Z.shiftl enc 4)) (u8 (Z.of_nat k)) in
  Z.shiftr c 4 = enc ∧ Z.land c 15 = Z.of_nat k.
Proof.
  intros Henc Hk. do 13 (destruct k as [|k]; [by destruct Henc as [-> | ->]|]). lia.
Qed.

Lemma pow10_bounds div : pow10 div → 0 < div ∧ div < 2 ^ 63.
Proof.
  intros (k & Hk & ->). split; [lia|].
  assert (10 ^ Z.of_nat k ≤ 10 ^ 12) by (apply Z.pow_le_mono_r; lia). lia.
Qed.

Lemma header_slices (c : Z) v rest :
  go_nth (c :: BigEndian_PutUint64 v ++ rest) 0 = Some c ∧
  slice (c :: BigEndian_PutUint64 v ++ rest) 1 9 = Some (BigEndian_PutUint64 v) ∧
  slice_from (c :: BigEndian_PutUint64 v ++ rest) 9 = Some rest.
Proof.
  split_and!; [done| |].
  - pose proof (slice_app [c] (BigEndian_PutUint64 v) rest) as H.
    change (go_len [c]) with 1 in H. unfold go_len in H. by rewrite PutUint64_length in H.
  - pose proof (slice_from_app (c :: BigEndian_PutUint64 v) rest) as H.
    unfold go_len in H. cbn [length] in H. by rewrite PutUint64_length in H.
Qed.

Section Roundtrip.
Context {SB : Simple8b}.

Lemma constant_replicate (x : Z) l : (∀ y, y ∈ l → y = x) → l = replicate (length l) x.
Proof.
  intros H. symmetry. apply replicate_as_Forall. split; [done|].
  apply Forall_forall. intros y Hy. symmetry. by apply H.
Qed.

Lemma time_RLE_decode u d us (div : Z) :
  is_u64 u → Forall is_u64 us → pow10 div → d mod div = 0 → is_u64 d →
  u_deltas u us = replicate (length us) d → Z.of_nat (S (length us)) < 2 ^ 63 →
  ∃ bs, encoder_encodeRLE u d div (Z.of_nat (S (length us))) = Ok bs ∧
    NewTimeDecoder bs = Ok (TimeDecoder Time_zero (u :: us) None) ∧
    (length bs ≤ 29 + 8 * length us)%nat.
Proof.
  intros Hu Hus Hdiv Hmod Hd Hds Hlen. eexists. split; [done|]. split.
  2:{ cbn [length]. rewrite !length_app, PutUint64_length.
      pose proof (PutUvarint_length (d / div)).
      pose proof (PutUvarint_length (u64 (Z.of_nat (S (length us))))). lia. }
  pose proof (pow10_bounds div Hdiv) as Hb. destruct Hdiv as (k & Hk & Hdiv).
  unfold NewTimeDecoder, decoder_decode.
  assert (Hlog : math_Log10 div = Z.of_nat k) by (rewrite Hdiv; apply log10_pow; lia).
  rewrite Hlog. destruct (time_header timeCompressedRLE k) as [H1 H2]; [by right|done|].
  rewrite H1. change (timeCompressedRLE =? timeUncompressed) with false.
  change (timeCompressedRLE =? timeCompressedRLE) with true. cbv iota.
  set (c := Z.lor _ _) in *. unfold decoder_decodeRLE.
  destruct (header_slices c u (PutUvarint (d / div) ++ PutUvarint (u64 (Z.of_nat (S (length us))))))
    as (-> & -> & ->). cbn [or_panic outcome_bind].
  rewrite Uint64_PutUint64_nil by done. cbn [or_panic outcome_bind].
  assert (Hq : is_u64 (d / div)).
  { unfold is_u64 in *. split; [apply Z.div_pos; lia|].
    eapply Z.le_lt_trans; [apply Z.div_le_upper_bound with (q := d)|]; [lia|nia|lia]. }
  rewrite Uvarint_PutUvarint by done.
  replace (9 + go_len (PutUvarint (d / div)))
    with (go_len (c :: BigEndian_PutUint64 u ++ PutUvarint (d / div))).
  2:{ unfold go_len. cbn [length]. rewrite length_app, PutUint64_length. lia. }
  replace (c :: BigEndian_PutUint64 u ++ PutUvarint (d / div) ++ PutUvarint (u64 (Z.of_nat (S (length us)))))
    with ((c :: BigEndian_PutUint64 u ++ PutUvarint (d / div)) ++ PutUvarint (u64 (Z.of_nat (S (length us)))))
    by (cbn [app]; by rewrite <- app_assoc).
  rewrite slice_from_app. cbn [or_panic outcome_bind].
  rewrite (u64_small (Z.of_nat (S (length us)))) by (unfold is_u64; lia).
  rewrite <- (app_nil_r (PutUvarint (Z.of_nat _))), Uvarint_PutUvarint by (unfold is_u64; lia).
  rewrite (proj2 (Z.eqb_neq (Z.of_nat (S (length us))) 0)) by lia.
  rewrite (proj2 (Z.leb_gt (2 ^ 63) (Z.of_nat (S (length us))))) by lia. cbn [orb outcome_bind].
  rewrite H2. unfold math_Pow10. rewrite <- Hdiv.
  rewrite (i64_small div), (u64_small div) by (unfold is_i64, is_u64; lia).
  replace (d / div * div) with d by (rewrite Z.mul_comm; apply Z.div_exact; [lia|done]).
  rewrite u64_small by done.
  replace (Z.to_nat (Z.of_nat (S (length us)) - 1)) with (length us) by lia.
  rewrite <- Hds, prefix_sum_deltas by done. done.
Qed.

Lemma time_packed_decode u us div :
  is_u64 u → Forall is_u64 us → pow10 div → Forall (λ d, d mod div = 0) (u_deltas u us) →
  Forall (λ d, d ≤ simple8b_MaxValue) (u_deltas u us) →
  ∃ bs, encoder_encodePacked div (u :: u_deltas u us) = Ok bs ∧
    NewTimeDecoder bs = Ok (TimeDecoder Time_zero (u :: us) None) ∧
    (length bs ≤ 29 + 8 * length us)%nat.
Proof.
  intros Hu Hus Hdiv Hmod Hmax. unfold encoder_encodePacked.
  pose proof (pow10_bounds div Hdiv) as Hb. destruct Hdiv as (k & Hk & Hdiv).
  destruct (simple8b_Encoder_spec ((λ v, v / div) <$> u_deltas u us)) as (bs & -> & Hbs & Hdec).
  { apply Forall_fmap. rewrite Forall_forall in Hmax |- *. intros d Hd.
    pose proof (u_deltas_u64 u us) as H64. rewrite Forall_forall in H64.
    specialize (Hmax d Hd). specialize (H64 d Hd). unfold is_u64 in H64.
    cbn. split; [apply Z.div_pos; lia|apply Z.div_le_upper_bound; [lia|]; nia]. }
  eexists. split; [done|]. split.
  2:{ cbn [length]. rewrite length_app, PutUint64_length.
      rewrite length_fmap, u_deltas_length in Hbs. lia. }
  unfold NewTimeDecoder, decoder_decode.
  assert (Hlog : math_Log10 div = Z.of_nat k) by (rewrite Hdiv; apply log10_pow; lia).
  rewrite Hlog. destruct (time_header timeCompressedPackedSimple k) as [H1 H2]; [by left|done|].
  rewrite H1. change (timeCompressedPackedSimple =? timeUncompressed) with false.
  change (timeCompressedPackedSimple =? timeCompressedRLE) with false.
  change (timeCompressedPackedSimple =? timeCompressedPackedSimple) with true. cbv iota.
  set (c := Z.lor _ _) in *. unfold decoder_decodePacked.
  destruct (header_slices c u bs) as (-> & -> & ->). cbn [or_panic outcome_bind].
  rewrite Uint64_PutUint64_nil by done. cbn [or_panic outcome_bind].
  rewrite H2. unfold math_Pow10. rewrite <- Hdiv, (u64_small div) by (unfold is_u64; lia).
  by rewrite Hdec, prefix_sum_scaled by (done || lia).
Qed.

Lemma time_raw_decode u us :
  is_u64 u → Forall is_u64 us →
  ∃ bs, encoder_encodeRaw (TimeEncoder (u :: u_deltas u us)) = Ok bs ∧
    NewTimeDecoder bs = Ok (TimeDecoder Time_zero (u :: us) None) ∧
    (length bs ≤ 29 + 8 * length us)%nat.
Proof.
  intros Hu Hus. eexists. split; [done|]. cbn [tenc_ts]. set (ds := u :: u_deltas u us).
  assert (Hds : Forall is_u64 ds) by (constructor; [done|apply u_deltas_u64]).
  split.
  2:{ cbn [length]. rewrite bind_PutUint64_length. unfold ds. cbn [length].
      rewrite u_deltas_length. lia. }
  unfold NewTimeDecoder, decoder_decode.
  change (Z.shiftr (u8 (Z.shiftl timeUncompressed 4)) 4 =? timeUncompressed) with true. cbv iota.
  do 2 f_equal. unfold decoder_decodeRaw.
  rewrite bind_PutUint64_length, Nat.mul_comm, Nat.div_mul by lia.
  pose proof (raw_words_Put ds [] Hds) as Hw. rewrite app_nil_r in Hw. rewrite Hw.
  unfold ds. by rewrite prefix_sum_deltas.
Qed.

(** Any sequence of timestamps, sorted or not, survives. *)
Lemma time_words_roundtrip us :
  Forall is_u64 us → go_len us < 2 ^ 63 →
  ∃ bs, snd (encoder_Bytes (TimeEncoder us)) = Ok bs ∧
    NewTimeDecoder bs = Ok (TimeDecoder Time_zero us None) ∧
    (length bs ≤ 29 + 8 * length us)%nat.
Proof.
  intros Hus Hlen. destruct us as [|u us]; [eexists; split_and!; [done..|simpl; lia]|].
  enough (∃ bs, snd (encoder_Bytes (TimeEncoder (u :: us))) = Ok bs ∧
    NewTimeDecoder bs = Ok (TimeDecoder Time_zero (u :: us) None) ∧
    (length bs ≤ 29 + 8 * length us)%nat) as (bs & ? & ? & ?).
  { exists bs. split_and!; [done..|]. cbn [length]. lia. }
  apply Forall_cons in Hus as [Hu Hus]. unfold encoder_Bytes. cbn [tenc_ts].
  change (go_len (u :: us) =? 0) with false. cbv iota.
  destruct (encoder_reduce_spec u us) as (max & div & rle & -> & [Hdiv Hmax Hmod Hrle]).
  cbn [tenc_ts]. destruct (rle && (1 <? go_len (u :: u_deltas u us))) eqn:Hr.
  - apply andb_true_iff in Hr as [-> Hl%Z.ltb_lt]. destruct us as [|w us]; [done|].
    cbn [snd u_deltas] in *. set (d := u64 (w - u)) in *.
    unfold go_len. cbn [length]. rewrite u_deltas_length.
    apply Forall_cons in Hmod as [Hm _]. unfold go_len in Hlen.
    apply (time_RLE_decode u d (w :: us) div); try done; [apply u64_range|].
    pose proof (constant_replicate d (d :: u_deltas w us)) as Hc. cbn [length] in Hc.
    rewrite u_deltas_length in Hc. apply Hc. intros y Hy. apply Hrle; [done..|by left].
  - destruct (Z.ltb_spec simple8b_MaxValue max); cbn [snd].
    + by apply time_raw_decode.
    + apply time_packed_decode; try done. eapply Forall_impl; [exact Hmax|]. simpl. lia.
Qed.

Lemma encoder_Writes us ts :
  foldl encoder_Write (TimeEncoder us) ts =
  TimeEncoder (us ++ ((λ t, u64 (Time_UnixNano t)) <$> ts)).
Proof.
  revert us. induction ts as [|t ts IH]; intros us; csimpl; [by rewrite app_nil_r|].
  unfold encoder_Write at 2. cbn [tenc_ts]. by rewrite IH, <- app_assoc.
Qed.

Lemma decoder_yields v us :
  yields (TimeDecoder v us None) ((λ u, Time_Unix0 (i64 u)) <$> us).
Proof.
  revert v. induction us as [|u us IH]; intros v; [by eapply yields_end|].
  by eapply yields_value.
Qed.

(** The times that [UnixNano] represents. *)
Definition representable (t : Time) : Prop := is_i64 (t - unixEpoch).

Lemma representable_unix t :
  representable t → Time_Unix0 (i64 (u64 (Time_UnixNano t))) = t.
Proof.
  intros Ht. unfold Time_Unix0, Time_UnixNano. rewrite u64_i64, i64_u64, i64_small by done. lia.
Qed.

Lemma time_roundtrip ts :
  Forall representable ts → go_len ts < 2 ^ 63 →
  ∃ bs d, snd (encoder_Bytes (foldl encoder_Write NewTimeEncoder ts)) = Ok bs ∧
    NewTimeDecoder bs = Ok d ∧ yields d ts ∧ length (tdec_ts d) = length ts ∧
    (length bs ≤ 29 + 8 * length ts)%nat.
Proof.
  intros Hts Hlen. unfold NewTimeEncoder. rewrite encoder_Writes. cbn [app].
  set (us := _ <$> ts).
  destruct (time_words_roundtrip us) as (bs & Hb & Hd & Hl).
  - unfold us. apply Forall_fmap, Forall_forall. intros. apply u64_range.
  - unfold us, go_len in *. by rewrite length_fmap.
  - exists bs. eexists. split_and!; [done..| | |].
    + replace ts with ((λ u, Time_Unix0 (i64 u)) <$> us); [apply decoder_yields|].
      unfold us. clear -Hts. induction Hts as [|t ts Ht _ IH]; csimpl; [done|].
      by rewrite representable_unix, IH.
    + unfold us. cbn [tdec_ts]. by rewrite length_fmap.
    + unfold us in Hl. by rewrite length_fmap in Hl.
Qed.

End Roundtrip.
