(* ===== verification/TsmFloat.v ===== *)
(** * tsm1/float.go

    Gorilla compression of floats: every value is XORed with the one before;
    an unchanged value takes one bit, otherwise the significant bits of the XOR
    are written, with a new window of leading and trailing zeros when the last
    one does not fit.  A [float64] is its IEEE 754 bit pattern, a [uint64]. *)

From stdpp Require Import base list.
From Stdlib Require Import ZArith Lia.
From S2P Require Import Prelude Binary Tsm.

Local Open Scope Z_scope.

Definition floatCompressedGorilla : Z := 1.

(** [math.IsNaN]: exponent all ones and a non-zero fraction. *)
Definition IsNaN (v : Z) : bool := 0x7FF0000000000000 <? Z.land v (2 ^ 63 - 1).

(** [math.NaN()] *)
Definition math_NaN : Z := 0x7FF8000000000001.

(** [^uint64(0)] *)
Definition noLeading : Z := 2 ^ 64 - 1.

Section Float.
Context {BI : Bits} {BS : Bitstream}.

Record FloatEncoder := {
  fenc_val : Z;
  fenc_err : option TsmError;
  fenc_leading : Z;
  fenc_trailing : Z;
  fenc_bw : BitWriter;
  fenc_first : bool;
  fenc_finished : bool
}.

Definition NewFloatEncoder : FloatEncoder :=
  Build_FloatEncoder 0 None noLeading 0 bitstream_NewWriter true false.

Definition FloatEncoder_Push (s : FloatEncoder) (v : Z) : FloatEncoder :=
  if IsNaN v && negb (fenc_finished s) then
    Build_FloatEncoder (fenc_val s) (Some ErrUnsupportedNaN) (fenc_leading s) (fenc_trailing s)
      (fenc_bw s) (fenc_first s) (fenc_finished s)
  else if fenc_first s then
    Build_FloatEncoder v (fenc_err s) (fenc_leading s) (fenc_trailing s)
      (bw_WriteBits (fenc_bw s) v 64) false (fenc_finished s)
  else
    let vDelta := Z.lxor v (fenc_val s) in
    let '(leading', trailing', bw) :=
      if vDelta =? 0 then (fenc_leading s, fenc_trailing s, bw_WriteBit (fenc_bw s) false)
      else
        let bw := bw_WriteBit (fenc_bw s) true in
        let leading := bits_Clz vDelta in
        let trailing := bits_Ctz vDelta in
        let leading := Z.land leading 31 in
        let leading := if 32 <=? leading then 31 else leading in
        if negb (fenc_leading s =? noLeading) && (fenc_leading s <=? leading) &&
           (fenc_trailing s <=? trailing)
        then
          let bw := bw_WriteBit bw false in
          (fenc_leading s, fenc_trailing s,
           bw_WriteBits bw (Z.shiftr vDelta (fenc_trailing s)) (64 - fenc_leading s - fenc_trailing s))
        else
          let bw := bw_WriteBit bw true in
          let bw := bw_WriteBits bw leading 5 in
          let sigbits := u64 (64 - leading - trailing) in
          let bw := bw_WriteBits bw sigbits 6 in
          (leading, trailing, bw_WriteBits bw (Z.shiftr vDelta trailing) sigbits) in
    Build_FloatEncoder v (fenc_err s) leading' trailing' bw false (fenc_finished s).

Definition FloatEncoder_Finish (s : FloatEncoder) : FloatEncoder :=
  if fenc_finished s then s
  else
    let s := Build_FloatEncoder (fenc_val s) (fenc_err s) (fenc_leading s) (fenc_trailing s)
               (fenc_bw s) (fenc_first s) true in
    let s := FloatEncoder_Push s math_NaN in
    Build_FloatEncoder (fenc_val s) (fenc_err s) (fenc_leading s) (fenc_trailing s)
      (bw_Flush (fenc_bw s) false) (fenc_first s) (fenc_finished s).

Definition FloatEncoder_Bytes (s : FloatEncoder) : go (list Z) :=
  match fenc_err s with
  | Some e => Err e
  | None => Ok (u8 (Z.shiftl floatCompressedGorilla 4) :: bw_buf (fenc_bw s))
  end.

Record FloatDecoder := {
  fdec_val : Z;
  fdec_leading : Z;
  fdec_trailing : Z;
  fdec_br : BitReader;
  fdec_first : bool;
  fdec_finished : bool;
  fdec_err : option TsmError
}.

Definition NewFloatDecoder (b : list Z) : go FloatDecoder :=
  let! b := or_panic (slice_from b 1) in
  match br_ReadBits (bitstream_NewReader b) 64 with
  | None => Err ErrEOF
  | Some (br, v) => Ok (Build_FloatDecoder v 0 0 br true false None)
  end.

(** The decoder after a read that hit the end of the stream. *)
Definition FloatDecoder_fail (it : FloatDecoder) : FloatDecoder * bool :=
  (Build_FloatDecoder (fdec_val it) (fdec_leading it) (fdec_trailing it) (fdec_br it)
     (fdec_first it) (fdec_finished it) (Some ErrEOF), false).

Definition FloatDecoder_set (it : FloatDecoder) (br : BitReader) (leading trailing : Z) :=
  Build_FloatDecoder (fdec_val it) leading trailing br
    (fdec_first it) (fdec_finished it) (fdec_err it).

(** The significant bits of the XOR, in the decoder's window. *)
Definition FloatDecoder_readDelta (it : FloatDecoder) : FloatDecoder * bool :=
  let mbits := i64 (u64 (64 - fdec_leading it - fdec_trailing it)) in
  match br_ReadBits (fdec_br it) mbits with
  | None => FloatDecoder_fail it
  | Some (br, bits) =>
      let val := Z.lxor (fdec_val it) (u64 (Z.shiftl bits (fdec_trailing it))) in
      if IsNaN val then
        (Build_FloatDecoder (fdec_val it) (fdec_leading it) (fdec_trailing it) br
           (fdec_first it) true (fdec_err it), false)
      else
        (Build_FloatDecoder val (fdec_leading it) (fdec_trailing it) br
           (fdec_first it) (fdec_finished it) (fdec_err it), true)
  end.

(** The new window: five bits of leading zeros, six of significant bits. *)
Definition FloatDecoder_readWindow (it : FloatDecoder) : FloatDecoder * bool :=
  match br_ReadBits (fdec_br it) 5 with
  | None => FloatDecoder_fail it
  | Some (br, leading) =>
      let it := FloatDecoder_set it br leading (fdec_trailing it) in
      match br_ReadBits br 6 with
      | None => FloatDecoder_fail it
      | Some (br, mbits) =>
          let mbits := if mbits =? 0 then 64 else mbits in
          FloatDecoder_readDelta (FloatDecoder_set it br leading (u64 (64 - leading - mbits)))
      end
  end.

Definition FloatDecoder_Next (it : FloatDecoder) : FloatDecoder * bool :=
  if bool_decide (fdec_err it ≠ None) || fdec_finished it then (it, false)
  else if fdec_first it then
    if IsNaN (fdec_val it) then
      (Build_FloatDecoder (fdec_val it) (fdec_leading it) (fdec_trailing it) (fdec_br it)
         false true (fdec_err it), false)
    else
      (Build_FloatDecoder (fdec_val it) (fdec_leading it) (fdec_trailing it) (fdec_br it)
         false (fdec_finished it) (fdec_err it), true)
  else
    match br_ReadBit (fdec_br it) with
    | None => FloatDecoder_fail it
    | Some (br, bit) =>
        let it := FloatDecoder_set it br (fdec_leading it) (fdec_trailing it) in
        if negb bit then (it, true)
        else
          match br_ReadBit br with
          | None => FloatDecoder_fail it
          | Some (br, bit) =>
              let it := FloatDecoder_set it br (fdec_leading it) (fdec_trailing it) in
              if negb bit then FloatDecoder_readDelta it else FloatDecoder_readWindow it
          end
    end.

#[export] Instance FloatDecoder_Decoder : Decoder FloatDecoder Z := {|
  dec_Next d := Ok (FloatDecoder_Next d);
  dec_Read d := Ok (d, fdec_val d);
  dec_Error := fdec_err
|}.

(** ** The window of an XOR *)

Lemma lxor_u64 a b : is_u64 a → is_u64 b → is_u64 (Z.lxor a b).
Proof.
  unfold is_u64. intros Ha Hb. assert (Hn : 0 ≤ Z.lxor a b) by (apply Z.lxor_nonneg; lia).
  split; [done|]. destruct (Z.eq_dec (Z.lxor a b) 0) as [->|]; [lia|].
  apply Z.log2_lt_pow2; [lia|]. pose proof (Z.log2_lxor a b).
  assert (∀ x, 0 ≤ x < 2 ^ 64 → Z.log2 x < 64) as Hlog.
  { intros x Hx. destruct (Z.eq_dec x 0) as [->|]; [done|]. apply Z.log2_lt_pow2; lia. }
  pose proof (Hlog a Ha). pose proof (Hlog b Hb). lia.
Qed.

(** The window the encoder computes for [x]. *)
Definition window (x l t : Z) : Prop :=
  0 ≤ l < 32 ∧ 0 ≤ t < 64 ∧ l + t < 64 ∧ x < 2 ^ (64 - l) ∧ x mod 2 ^ t = 0.

Lemma new_window x :
  0 < x < 2 ^ 64 → window x (Z.land (bits_Clz x) 31) (bits_Ctz x).
Proof.
  intros Hx. destruct (bits_Clz_spec x Hx) as [Hc [Hc1 Hc2]].
  destruct (bits_Ctz_spec x Hx) as [Ht [Ht1 _]].
  change 31 with (Z.ones 5). rewrite Z.land_ones by lia. change (2 ^ 5) with 32.
  pose proof (Z.mod_pos_bound (bits_Clz x) 32). pose proof (Z.mod_le (bits_Clz x) 32).
  assert (Htc : bits_Ctz x < 64 - bits_Clz x).
  { apply (Z.pow_lt_mono_r_iff 2); [lia..|]. eapply Z.le_lt_trans; [|exact Hc2].
    apply Z.mod_divide in Ht1; [|lia]. apply Z.divide_pos_le; [lia|done]. }
  unfold window. split_and!; try lia; try done.
  eapply Z.lt_le_trans; [exact Hc2|]. apply Z.pow_le_mono_r; lia.
Qed.

Lemma window_mono x l t l' t' :
  window x l' t' → 0 ≤ l ≤ l' → 0 ≤ t ≤ t' → window x l t.
Proof.
  unfold window. intros (? & ? & ? & Hx & Hm) Hl Ht. split_and!; try lia.
  - eapply Z.lt_le_trans; [exact Hx|]. apply Z.pow_le_mono_r; lia.
  - apply Z.mod_divide; [lia|]. apply Z.mod_divide in Hm; [|lia]. etrans; [|exact Hm].
    exists (2 ^ (t' - t)). rewrite <- Z.pow_add_r by lia. f_equal. lia.
Qed.

(** Shifting the significant bits out and back in loses nothing. *)
Lemma window_bits x l t :
  0 < x < 2 ^ 64 → window x l t →
  let n := Z.to_nat (64 - l - t) in
  u64 (Z.shiftl (bits_value (msb_bits n (Z.shiftr x t))) t) = x.
Proof.
  intros Hx (Hl & Ht & Hlt & Hxl & Hm) n. unfold n.
  rewrite bits_value_msb by (apply Z.shiftr_nonneg; lia).
  rewrite Z2Nat.id, Z.shiftr_div_pow2 by lia.
  assert (Hpow : 2 ^ (64 - l) = 2 ^ t * 2 ^ (64 - l - t))
    by (rewrite <- Z.pow_add_r by lia; f_equal; lia).
  rewrite Z.mod_small.
  2:{ split; [apply Z.div_pos; lia|apply Z.div_lt_upper_bound; lia]. }
  rewrite Z.shiftl_mul_pow2 by lia.
  replace (x / 2 ^ t * 2 ^ t) with x by (rewrite Z.mul_comm; apply Z.div_exact; [lia|done]).
  apply u64_small. unfold is_u64. lia.
Qed.

(** ** The decoder follows the encoder *)

(** A decoder that has read what the encoder has written. *)
Definition in_step (e : FloatEncoder) (it : FloatDecoder) : Prop :=
  fdec_val it = fenc_val e ∧ fdec_first it = false ∧ fdec_finished it = false ∧
  fdec_err it = None ∧
  (fenc_leading e = noLeading ∨
   fdec_leading it = fenc_leading e ∧ fdec_trailing it = fenc_trailing e).

(** An encoder that has had its first value. *)
Definition started (e : FloatEncoder) : Prop :=
  fenc_first e = false ∧ fenc_err e = None ∧ is_u64 (fenc_val e) ∧ IsNaN (fenc_val e) = false ∧
  0 ≤ fenc_leading e ∧ 0 ≤ fenc_trailing e.

Lemma readDelta_spec it x rest :
  0 < x < 2 ^ 64 → window x (fdec_leading it) (fdec_trailing it) →
  br_bits (fdec_br it) =
    msb_bits (Z.to_nat (64 - fdec_leading it - fdec_trailing it)) (Z.shiftr x (fdec_trailing it)) ++ rest →
  ∃ br, br_bits br = rest ∧
    FloatDecoder_readDelta it =
      if IsNaN (Z.lxor (fdec_val it) x) then
        (Build_FloatDecoder (fdec_val it) (fdec_leading it) (fdec_trailing it) br
           (fdec_first it) true (fdec_err it), false)
      else
        (Build_FloatDecoder (Z.lxor (fdec_val it) x) (fdec_leading it) (fdec_trailing it) br
           (fdec_first it) (fdec_finished it) (fdec_err it), true).
Proof.
  intros Hx Hw Hb. pose proof Hw as (Hl & Ht & Hlt & _). unfold FloatDecoder_readDelta.
  rewrite u64_small, i64_small by (unfold is_u64, is_i64; lia).
  destruct (br_ReadBits_spec _ (64 - fdec_leading it - fdec_trailing it) _ _ Hb) as (br & -> & Hr).
  - unfold go_len. rewrite msb_bits_length. lia.
  - lia.
  - exists br. split; [done|]. by rewrite window_bits.
Qed.

Lemma readWindow_spec it x l t rest :
  0 < x < 2 ^ 64 → window x l t →
  br_bits (fdec_br it) =
    msb_bits 5 l ++ msb_bits 6 (64 - l - t) ++
    msb_bits (Z.to_nat (64 - l - t)) (Z.shiftr x t) ++ rest →
  ∃ br, br_bits br = rest ∧
    FloatDecoder_readWindow it =
      if IsNaN (Z.lxor (fdec_val it) x) then
        (Build_FloatDecoder (fdec_val it) l t br (fdec_first it) true (fdec_err it), false)
      else
        (Build_FloatDecoder (Z.lxor (fdec_val it) x) l t br
           (fdec_first it) (fdec_finished it) (fdec_err it), true).
Proof.
  intros Hx Hw Hb. pose proof Hw as (Hl & Ht & Hlt & _). unfold FloatDecoder_readWindow.
  destruct (br_ReadBits_spec _ 5 _ _ Hb) as (br1 & -> & Hr1); [done|lia|].
  rewrite bits_value_msb, Z.mod_small by lia.
  destruct (br_ReadBits_spec _ 6 _ _ Hr1) as (br2 & -> & Hr2); [done|lia|].
  rewrite bits_value_msb by lia. change (2 ^ Z.of_nat 6) with 64.
  assert (Hmb : (if (64 - l - t) mod 64 =? 0 then 64 else (64 - l - t) mod 64) = 64 - l - t).
  { destruct (Z.eq_dec (l + t) 0) as [E|E].
    - replace (64 - l - t) with 64 by lia. done.
    - rewrite Z.mod_small by lia. by destruct (Z.eqb_spec (64 - l - t) 0); [lia|]. }
  rewrite Hmb. cbn [FloatDecoder_set fdec_val fdec_first fdec_finished fdec_err].
  replace (64 - l - (64 - l - t)) with t by lia. rewrite u64_small by (unfold is_u64; lia).
  set (it2 := FloatDecoder_set _ _ _ _).
  destruct (readDelta_spec it2 x rest Hx Hw Hr2) as (br & ? & ->). by exists br.
Qed.

(** [e'] is [e] after [v]: the bits it wrote and how [Next] reads them. *)
Definition pushed (e e' : FloatEncoder) (v : Z) : Prop :=
  ∃ bits, bw_bits (fenc_bw e') = bw_bits (fenc_bw e) ++ bits ∧
    fenc_val e' = v ∧ fenc_first e' = false ∧ fenc_err e' = fenc_err e ∧
    fenc_finished e' = fenc_finished e ∧ 0 ≤ fenc_leading e' ∧ 0 ≤ fenc_trailing e' ∧
    ∀ it rest, in_step e it → br_bits (fdec_br it) = bits ++ rest →
      ∃ it', FloatDecoder_Next it = (it', negb (IsNaN v)) ∧ fdec_err it' = None ∧
        (IsNaN v = false → in_step e' it' ∧ br_bits (fdec_br it') = rest).

Lemma pushed_same e :
  started e →
  pushed e (Build_FloatEncoder (fenc_val e) (fenc_err e) (fenc_leading e) (fenc_trailing e)
              (bw_WriteBit (fenc_bw e) false) false (fenc_finished e)) (fenc_val e).
Proof.
  intros (Hf & Herr & Hval & Hnan & Hl0 & Ht0).
  exists [false]. cbn. split_and!; try done; [apply bw_WriteBit_spec|].
  intros it rest (H1 & H2 & H3 & H4 & H5) Hb.
  destruct (br_ReadBit_spec _ _ _ Hb) as (br & Hr & Hrest).
  unfold FloatDecoder_Next. rewrite H4, H3, H2, Hr. cbn.
  eexists. rewrite Hnan. split_and!; [done..|]. intros _. split; [|done].
  split_and!; cbn; done.
Qed.

(** The significant bits in the window of the last value. *)
Lemma pushed_reuse e v x :
  0 < x < 2 ^ 64 → Z.lxor (fenc_val e) x = v → fenc_leading e ≠ noLeading →
  window x (fenc_leading e) (fenc_trailing e) →
  pushed e (Build_FloatEncoder v (fenc_err e) (fenc_leading e) (fenc_trailing e)
              (bw_WriteBits (bw_WriteBit (bw_WriteBit (fenc_bw e) true) false)
                 (Z.shiftr x (fenc_trailing e)) (64 - fenc_leading e - fenc_trailing e))
              false (fenc_finished e)) v.
Proof.
  intros Hx Hxv Hn Hw. pose proof Hw as (W1 & W2 & W3 & _).
  exists ([true; false] ++
    msb_bits (Z.to_nat (64 - fenc_leading e - fenc_trailing e)) (Z.shiftr x (fenc_trailing e))).
  cbn [fenc_bw fenc_val fenc_first fenc_err fenc_finished fenc_leading fenc_trailing].
  split_and!; try done; try lia.
  { rewrite bw_WriteBits_spec, !bw_WriteBit_spec by lia. by rewrite <- !app_assoc. }
  intros it rest (H1 & H2 & H3 & H4 & [H5|[H5 H6]]) Hb; [done|]. cbn [app] in Hb.
  destruct (br_ReadBit_spec _ _ _ Hb) as (br1 & Hr1 & Hb1).
  destruct (br_ReadBit_spec _ _ _ Hb1) as (br2 & Hr2 & Hb2).
  unfold FloatDecoder_Next. rewrite H4, H3, H2, Hr1. cbn. rewrite Hr2. cbn.
  set (it2 := FloatDecoder_set _ _ _ _). rewrite <- H5, <- H6 in Hb2, Hw.
  destruct (readDelta_spec it2 x rest Hx Hw Hb2) as (br & Hbr & ->).
  unfold it2. cbn. rewrite H1, Hxv.
  destruct (IsNaN v); eexists; (split_and!; [done|done|]); [done|].
  intros _. cbn. split; [|done]. split_and!; cbn; try done. by right.
Qed.

(** A new window and the significant bits in it. *)
Lemma pushed_window e v x l t :
  0 < x < 2 ^ 64 → Z.lxor (fenc_val e) x = v → window x l t →
  pushed e (Build_FloatEncoder v (fenc_err e) l t
              (bw_WriteBits (bw_WriteBits (bw_WriteBits
                 (bw_WriteBit (bw_WriteBit (fenc_bw e) true) true) l 5)
                 (64 - l - t) 6) (Z.shiftr x t) (64 - l - t))
              false (fenc_finished e)) v.
Proof.
  intros Hx Hxv Hw. pose proof Hw as (W1 & W2 & W3 & _).
  exists ([true; true] ++ msb_bits 5 l ++ msb_bits 6 (64 - l - t) ++
    msb_bits (Z.to_nat (64 - l - t)) (Z.shiftr x t)).
  cbn [fenc_bw fenc_val fenc_first fenc_err fenc_finished fenc_leading fenc_trailing].
  split_and!; try done; try lia.
  { rewrite !bw_WriteBits_spec, !bw_WriteBit_spec by lia. by rewrite <- !app_assoc. }
  intros it rest (H1 & H2 & H3 & H4 & _) Hb. cbn [app] in Hb.
  destruct (br_ReadBit_spec _ _ _ Hb) as (br1 & Hr1 & Hb1).
  destruct (br_ReadBit_spec _ _ _ Hb1) as (br2 & Hr2 & Hb2).
  unfold FloatDecoder_Next. rewrite H4, H3, H2, Hr1. cbn. rewrite Hr2. cbn.
  set (it2 := FloatDecoder_set _ _ _ _). rewrite <- !app_assoc in Hb2.
  destruct (readWindow_spec it2 x l t rest Hx Hw Hb2) as (br & Hbr & ->).
  unfold it2. cbn. rewrite H1, Hxv.
  destruct (IsNaN v); eexists; (split_and!; [done|done|]); [done|].
  intros _. cbn. split; [|done]. split_and!; cbn; try done. by right.
Qed.

Lemma FloatEncoder_Push_pushed e v :
  started e → is_u64 v → IsNaN v && negb (fenc_finished e) = false →
  pushed e (FloatEncoder_Push e v) v.
Proof.
  intros Hs Hv Hok. pose proof Hs as (Hf & Herr & Hval & Hnan & Hl0 & Ht0).
  unfold FloatEncoder_Push. rewrite Hok, Hf. set (x := Z.lxor v (fenc_val e)).
  assert (Hxv : Z.lxor (fenc_val e) x = v)
    by (unfold x; by rewrite (Z.lxor_comm v), <- Z.lxor_assoc, Z.lxor_nilpotent, Z.lxor_0_l).
  pose proof (lxor_u64 v (fenc_val e) Hv Hval) as Hx64. fold x in Hx64.
  destruct (Z.eqb_spec x 0) as [Hx0|Hx0].
  { rewrite Hx0, Z.lxor_0_r in Hxv. rewrite <- Hxv. by apply pushed_same. }
  assert (Hx : 0 < x < 2 ^ 64) by (unfold is_u64 in Hx64; lia).
  pose proof (new_window x Hx) as Hw. pose proof Hw as (Hw1 & Hw3 & Hw5 & _).
  rewrite (proj2 (Z.leb_gt 32 (Z.land (bits_Clz x) 31))) by lia.
  set (l := Z.land (bits_Clz x) 31) in *. set (t := bits_Ctz x) in *.
  destruct (_ && _ && _) eqn:Hreuse.
  - apply andb_true_iff in Hreuse as [[Hn Hle]%andb_true_iff Hte].
    apply negb_true_iff, Z.eqb_neq in Hn. apply Z.leb_le in Hle, Hte.
    apply pushed_reuse; [done..|]. by apply (window_mono x _ _ l t).
  - rewrite u64_small by (unfold is_u64; lia). by apply pushed_window.
Qed.

(** ** Whole streams *)

(** [Finish] after the values: the encoder with the sentinel pushed. *)
Definition with_sentinel (e : FloatEncoder) : FloatEncoder :=
  FloatEncoder_Push
    (Build_FloatEncoder (fenc_val e) (fenc_err e) (fenc_leading e) (fenc_trailing e)
       (fenc_bw e) (fenc_first e) true) math_NaN.

Lemma sentinel_pushed e :
  started e → pushed e (Build_FloatEncoder (fenc_val (with_sentinel e)) (fenc_err (with_sentinel e))
    (fenc_leading (with_sentinel e)) (fenc_trailing (with_sentinel e)) (fenc_bw (with_sentinel e))
    (fenc_first (with_sentinel e)) (fenc_finished e)) math_NaN.
Proof.
  intros Hs. set (e1 := Build_FloatEncoder (fenc_val e) (fenc_err e) (fenc_leading e)
    (fenc_trailing e) (fenc_bw e) (fenc_first e) true).
  assert (Hs1 : started e1) by done.
  destruct (FloatEncoder_Push_pushed e1 math_NaN) as (bits & ? & ? & ? & ? & ? & ? & ? & Hdec);
    [done|done|done|].
  exists bits. by split_and!.
Qed.

Lemma stream_yields vs e :
  started e → fenc_finished e = false →
  Forall (λ v, is_u64 v ∧ IsNaN v = false) vs →
  fenc_err (with_sentinel (foldl FloatEncoder_Push e vs)) = None ∧
  ∃ bits, bw_bits (fenc_bw (with_sentinel (foldl FloatEncoder_Push e vs))) =
      bw_bits (fenc_bw e) ++ bits ∧
    ∀ it rest, in_step e it → br_bits (fdec_br it) = bits ++ rest → yields it vs.
Proof.
  intros Hs Hfin Hvs. revert e Hs Hfin. induction Hvs as [|v vs [Hv Hnan] Hvs IH]; intros e Hs Hfin.
  - destruct (sentinel_pushed e Hs) as (bits & Hb & _ & _ & Herr & _ & _ & _ & Hdec).
    cbn [fenc_err fenc_bw foldl] in *. destruct Hs as (_ & He & _).
    split; [congruence|]. exists bits. split; [done|]. intros it rest Hit Hr.
    destruct (Hdec it rest Hit Hr) as (it' & Hn & He' & _).
    apply (yields_end it it'); [|done]. simpl. by rewrite Hn.
  - cbn [foldl]. destruct (FloatEncoder_Push_pushed e v Hs Hv) as
      (bits & Hb & Hval & Hf & Herr & Hfin' & Hl & Ht & Hdec); [by rewrite Hnan|].
    pose proof Hs as (_ & He & _).
    destruct (IH (FloatEncoder_Push e v)) as (Herr' & bits' & Hb' & Hdec').
    + unfold started. rewrite Hval, Herr. done.
    + congruence.
    + split; [done|]. exists (bits ++ bits'). split; [by rewrite Hb', Hb, app_assoc|].
      intros it rest Hit Hr. rewrite <- app_assoc in Hr.
      destruct (Hdec it (bits' ++ rest) Hit Hr) as (it' & Hn & He' & Hstep).
      destruct (Hstep Hnan) as [Hin Hrest].
      apply (yields_value it it' it' v); [|simpl|done|by eapply Hdec'].
      * simpl. rewrite Hn, Hnan. done.
      * destruct Hin as [-> _]. by rewrite Hval.
Qed.

Lemma Finish_eq e :
  fenc_finished e = false →
  fenc_err (FloatEncoder_Finish e) = fenc_err (with_sentinel e) ∧
  fenc_bw (FloatEncoder_Finish e) = bw_Flush (fenc_bw (with_sentinel e)) false.
Proof. intros H. unfold FloatEncoder_Finish. by rewrite H. Qed.

Lemma Push_flags e v :
  fenc_finished (FloatEncoder_Push e v) = fenc_finished e ∧
  fenc_err (FloatEncoder_Push e v) =
    if IsNaN v && negb (fenc_finished e) then Some ErrUnsupportedNaN else fenc_err e.
Proof.
  unfold FloatEncoder_Push. destruct (IsNaN v && _); [done|]. destruct (fenc_first e); [done|].
  by destruct (_ =? 0); [|destruct (_ && _ && _)].
Qed.

Lemma Pushes_finished e vs : fenc_finished (foldl FloatEncoder_Push e vs) = fenc_finished e.
Proof.
  revert e. induction vs as [|v vs IH]; intros e; [done|]. cbn [foldl]. rewrite IH.
  apply Push_flags.
Qed.

Lemma Pushes_err e vs :
  fenc_err e = Some ErrUnsupportedNaN →
  fenc_err (foldl FloatEncoder_Push e vs) = Some ErrUnsupportedNaN.
Proof.
  revert e. induction vs as [|v vs IH]; intros e He; [done|]. cbn [foldl]. apply IH.
  destruct (Push_flags e v) as [_ ->]. by destruct (_ && _).
Qed.

(** The decoder of a stream that starts with the 64 bits of [v]. *)
Lemma NewFloatDecoder_first c buf v bits :
  is_bytes buf → is_u64 v → bytes_bits buf = msb_bits 64 v ++ bits →
  ∃ br, br_bits br = bits ∧
    NewFloatDecoder (c :: buf) = Ok (Build_FloatDecoder v 0 0 br true false None).
Proof.
  intros Hbuf Hv Hb. unfold NewFloatDecoder. rewrite slice_from_1. cbn [or_panic outcome_bind].
  rewrite <- (br_New_spec buf Hbuf) in Hb.
  destruct (br_ReadBits_spec _ 64 _ _ Hb) as (br & -> & Hr).
  { unfold go_len. by rewrite msb_bits_length. }
  { done. }
  exists br. split; [done|]. unfold is_u64 in Hv. by rewrite bits_value_msb, Z.mod_small by lia.
Qed.

(** What the encoder writes, the decoder reads. *)
Lemma float_roundtrip vs :
  Forall (λ v, is_u64 v ∧ IsNaN v = false) vs →
  ∃ bs d, FloatEncoder_Bytes (FloatEncoder_Finish (foldl FloatEncoder_Push NewFloatEncoder vs)) = Ok bs ∧
    NewFloatDecoder bs = Ok d ∧ yields d vs.
Proof.
  intros Hvs. unfold FloatEncoder_Bytes.
  destruct (Finish_eq (foldl FloatEncoder_Push NewFloatEncoder vs)) as [-> ->];
    [by rewrite Pushes_finished|].
  destruct vs as [|v vs].
  - cbn [foldl]. change (with_sentinel NewFloatEncoder) with
      (Build_FloatEncoder math_NaN None noLeading 0 (bw_WriteBits bitstream_NewWriter math_NaN 64) false true).
    cbn [fenc_err fenc_bw]. set (w := bw_WriteBits _ _ _).
    destruct (bw_Flush_spec w false) as [Hbuf [k Hk]].
    unfold w in Hk at 2. rewrite bw_WriteBits_spec, bw_New_spec in Hk by lia. cbn [app] in Hk.
    destruct (NewFloatDecoder_first (u8 (Z.shiftl floatCompressedGorilla 4)) _ math_NaN
      (replicate k false) Hbuf) as (br & _ & Hd);
      [done|exact Hk|].
    eexists _, _. split_and!; [done|exact Hd|]. by eapply yields_end.
  - apply Forall_cons in Hvs as [[Hv Hnan] Hvs]. cbn [foldl].
    set (e1 := FloatEncoder_Push NewFloatEncoder v).
    assert (He1 : e1 = Build_FloatEncoder v None noLeading 0 (bw_WriteBits bitstream_NewWriter v 64) false false)
      by (unfold e1, FloatEncoder_Push; by rewrite Hnan).
    destruct (stream_yields vs e1) as (-> & bits & Hb & Hdec); [|by rewrite He1|done|].
    { rewrite He1. by split_and!. }
    destruct (bw_Flush_spec (fenc_bw (with_sentinel (foldl FloatEncoder_Push e1 vs))) false) as [Hbuf [k Hk]].
    rewrite Hb, He1 in Hk. cbn [fenc_bw] in Hk.
    rewrite bw_WriteBits_spec, bw_New_spec in Hk by lia. cbn [app] in Hk. rewrite <- app_assoc in Hk.
    rewrite <- He1 in Hk.
    destruct (NewFloatDecoder_first (u8 (Z.shiftl floatCompressedGorilla 4)) _ v _ Hbuf Hv Hk) as (br & Hbr & Hd).
    eexists _, _. split_and!; [done|exact Hd|].
    set (it := Build_FloatDecoder v 0 0 br false false None).
    apply (yields_value _ it it v); [|done|done|].
    + simpl. unfold FloatDecoder_Next. cbn. by rewrite Hnan.
    + eapply Hdec; [|exact Hbr]. rewrite He1. split_and!; try done. by left.
Qed.

(** A NaN is refused: the block cannot be encoded. *)
Lemma float_NaN_refused vs ws v :
  IsNaN v = true →
  FloatEncoder_Bytes (FloatEncoder_Finish (foldl FloatEncoder_Push NewFloatEncoder (vs ++ v :: ws))) =
  Err ErrUnsupportedNaN.
Proof.
  intros Hnan. unfold FloatEncoder_Bytes.
  destruct (Finish_eq (foldl FloatEncoder_Push NewFloatEncoder (vs ++ v :: ws))) as [-> _];
    [by rewrite Pushes_finished|].
  unfold with_sentinel. destruct (Push_flags (Build_FloatEncoder
    (fenc_val (foldl FloatEncoder_Push NewFloatEncoder (vs ++ v :: ws)))
    (fenc_err (foldl FloatEncoder_Push NewFloatEncoder (vs ++ v :: ws)))
    (fenc_leading (foldl FloatEncoder_Push NewFloatEncoder (vs ++ v :: ws)))
    (fenc_trailing (foldl FloatEncoder_Push NewFloatEncoder (vs ++ v :: ws)))
    (fenc_bw (foldl FloatEncoder_Push NewFloatEncoder (vs ++ v :: ws)))
    (fenc_first (foldl FloatEncoder_Push NewFloatEncoder (vs ++ v :: ws))) true) math_NaN) as [_ ->].
  cbn [fenc_err fenc_finished negb]. rewrite andb_false_r, foldl_app. cbn [foldl].
  rewrite Pushes_err; [done|].
  destruct (Push_flags (foldl FloatEncoder_Push NewFloatEncoder vs) v) as [_ ->].
  by rewrite Hnan, Pushes_finished.
Qed.

End Float.
