(* ===== verification/TsmBlock.v ===== *)
(** * tsm1/encoding.go: blocks of values

    A block is the first timestamp (8 bytes), a type byte, the length of the
    timestamp bytes as a varint, the encoded timestamps and the encoded
    values. *)

From stdpp Require Import base list gmap sorting.
From Stdlib Require Import ZArith Lia.
From S2P Require Import Prelude Binary Tsm TsmBool TsmString TsmInt TsmTime TsmFloat.

Local Open Scope Z_scope.

Definition BlockFloat64 : Z := 0.
Definition BlockInt64 : Z := 1.
Definition BlockBool : Z := 2.
Definition BlockString : Z := 3.
Definition encodedBlockHeaderSize : Z := 9.

(** [tsdb.EOF] *)
Definition EOF : Z := -1.

(** The implementations of the [Value] interface. *)
Inductive Value : Type :=
| FloatValue (time : Time) (value : Z)
| Int64Value (time : Time) (value : Z)
| BoolValue (time : Time) (value : bool)
| StringValue (time : Time) (value : list Z)
| EmptyValue.

#[export] Instance Value_eq_dec : EqDecision Value.
Proof. solve_decision. Defined.

(** The dynamic values an [interface{}] field value can have. *)
Inductive FieldValue : Type :=
| VFloat (v : Z)
| VInt64 (v : Z)
| VBool (v : bool)
| VString (v : list Z)
| VNil.

Definition NewValue (t : Time) (value : FieldValue) : Value :=
  match value with
  | VInt64 v => Int64Value t v
  | VFloat v => FloatValue t v
  | VBool v => BoolValue t v
  | VString v => StringValue t v
  | VNil => EmptyValue
  end.

Definition Value_Time (v : Value) : Time :=
  match v with
  | FloatValue t _ | Int64Value t _ | BoolValue t _ | StringValue t _ => t
  | EmptyValue => Time_Unix0 EOF
  end.

Definition Value_UnixNano (v : Value) : Z :=
  match v with
  | EmptyValue => EOF
  | _ => Time_UnixNano (Value_Time v)
  end.

Definition Value_Value (v : Value) : FieldValue :=
  match v with
  | FloatValue _ x => VFloat x
  | Int64Value _ x => VInt64 x
  | BoolValue _ x => VBool x
  | StringValue _ x => VString x
  | EmptyValue => VNil
  end.

Definition Value_Size (v : Value) : Z :=
  match v with
  | FloatValue _ _ | Int64Value _ _ => 16
  | BoolValue _ _ => 9
  | StringValue _ s => 8 + go_len s
  | EmptyValue => 0
  end.

(** [Values.MinTime], [Values.MaxTime]: the slice is indexed. *)
Definition Values_MinTime (a : list Value) : go Z :=
  let! v := or_panic (a !! 0%nat) in Ok (Time_UnixNano (Value_Time v)).
Definition Values_MaxTime (a : list Value) : go Z :=
  let! v := or_panic (last a) in Ok (Time_UnixNano (Value_Time v)).

(** [Values.Less] *)
Definition Values_Less (v w : Value) : bool :=
  Time_UnixNano (Value_Time v) <? Time_UnixNano (Value_Time w).

(** [Values.Deduplicate]: a map keyed by the timestamp, whose values are
    collected in the order [iter] of the map iteration and sorted. *)
Definition dedup_map (a : list Value) : gmap Z Value :=
  foldl (λ m v, <[Value_UnixNano v := v]> m) ∅ a.

Definition Values_Deduplicate `{GoSort} (iter : gmap Z Value → list Value) (a : list Value) : list Value :=
  sort_Sort Values_Less (iter (dedup_map a)).

(** ** Packing *)

Definition u64tob (v : Z) : list Z := BigEndian_PutUint64 v.
Definition btou64 (b : list Z) : option Z := BigEndian_Uint64 b.

Definition packBlockHeader (firstTime : Time) (blockType : Z) : list Z :=
  u64tob (u64 (Time_UnixNano firstTime)) ++ [blockType].

Definition packBlock (ts values : list Z) : list Z :=
  PutUvarint (u64 (go_len ts)) ++ ts ++ values.

Definition unpackBlock (buf : list Z) : go (list Z * list Z) :=
  let '(tsLen, i) := Uvarint buf in
  let! ts := or_panic (slice buf i (i64 (i + i64 tsLen))) in
  let! values := or_panic (slice_from buf (i64 (i + i64 tsLen))) in
  Ok (ts, values).

(** The type assertions on the elements of a block; they panic on another type. *)
Definition as_float (v : Value) : option Z :=
  match v with FloatValue _ x => Some x | _ => None end.
Definition as_int64 (v : Value) : option Z :=
  match v with Int64Value _ x => Some x | _ => None end.
Definition as_bool (v : Value) : option bool :=
  match v with BoolValue _ x => Some x | _ => None end.
Definition as_string (v : Value) : option (list Z) :=
  match v with StringValue _ x => Some x | _ => None end.

(** [for dec.Next() && vdec.Next() { *a = append(...) }].  Every turn takes a
    timestamp off the time decoder, so the number of timestamps plus one turns
    are enough. *)
Fixpoint decode_loop {D V} `{Decoder D V} (mk : Time → V → Value) (fuel : nat)
    (dec : decoder) (vdec : D) (a : list Value) : go (decoder * D * list Value) :=
  match fuel with
  | O => Panic
  | S f =>
      let '(dec, more) := decoder_Next dec in
      if more then
        let! (vdec, vmore) := dec_Next vdec in
        if vmore : bool then
          let ts := decoder_Read dec in
          let! (vdec, v) := dec_Read vdec in
          decode_loop mk f dec vdec (a ++ [mk ts v])
        else Ok (dec, vdec, a)
      else Ok (dec, vdec, a)
  end.

(** The end of all four decoders: the values read so far stay appended, the
    first decoder error is returned. *)
Definition decode_values {D V} `{Decoder D V} (mk : Time → V → Value)
    (dec : decoder) (vdec : D) (a : list Value) : go (list Value * option TsmError) :=
  let! (dec, vdec, a) := decode_loop mk (S (length (tdec_ts dec))) dec vdec a in
  match tdec_err dec with
  | Some e => Ok (a, Some e)
  | None => Ok (a, dec_Error vdec)
  end.

Section Blocks.
Context {SB : Simple8b} {SN : Snappy} {BI : Bits} {BS : Bitstream}.

Definition encodeFloatBlock (values : list Value) : go (list Z) :=
  match values with
  | [] => Ok []
  | v0 :: _ =>
      let! fs := or_panic (mapM as_float values) in
      let tsenc := foldl encoder_Write NewTimeEncoder (Value_Time <$> values) in
      let venc := FloatEncoder_Finish (foldl FloatEncoder_Push NewFloatEncoder fs) in
      let! tb := snd (encoder_Bytes tsenc) in
      let! vb := FloatEncoder_Bytes venc in
      Ok (packBlockHeader (Value_Time v0) BlockFloat64 ++ packBlock tb vb)
  end.

Definition encodeBoolBlock (values : list Value) : go (list Z) :=
  match values with
  | [] => Ok []
  | v0 :: _ =>
      let! bs := or_panic (mapM as_bool values) in
      let tsenc := foldl encoder_Write NewTimeEncoder (Value_Time <$> values) in
      let venc := foldl boolEncoder_Write NewBoolEncoder bs in
      let! tb := snd (encoder_Bytes tsenc) in
      let vb := snd (boolEncoder_Bytes venc) in
      Ok (packBlockHeader (Value_Time v0) BlockBool ++ packBlock tb vb)
  end.

Definition encodeInt64Block (values : list Value) : go (list Z) :=
  let! ints := or_panic (mapM as_int64 values) in
  let tsEnc := foldl encoder_Write NewTimeEncoder (Value_Time <$> values) in
  let vEnc := foldl int64Encoder_Write NewInt64Encoder ints in
  let! tb := snd (encoder_Bytes tsEnc) in
  let! vb := int64Encoder_Bytes vEnc in
  let! v0 := or_panic (values !! 0%nat) in
  Ok (packBlockHeader (Value_Time v0) BlockInt64 ++ packBlock tb vb).

Definition encodeStringBlock (values : list Value) : go (list Z) :=
  let! ss := or_panic (mapM as_string values) in
  let tsEnc := foldl encoder_Write NewTimeEncoder (Value_Time <$> values) in
  let vEnc := foldl stringEncoder_Write NewStringEncoder ss in
  let! tb := snd (encoder_Bytes tsEnc) in
  let vb := stringEncoder_Bytes vEnc in
  let! v0 := or_panic (values !! 0%nat) in
  Ok (packBlockHeader (Value_Time v0) BlockString ++ packBlock tb vb).

Definition Values_Encode (a : list Value) : go (list Z) :=
  match a with
  | [] => Panic
  | FloatValue _ _ :: _ => encodeFloatBlock a
  | Int64Value _ _ :: _ => encodeInt64Block a
  | BoolValue _ _ :: _ => encodeBoolBlock a
  | StringValue _ _ :: _ => encodeStringBlock a
  | EmptyValue :: _ => Err ErrUnsupportedValueType
  end.

(** The common start of the decoders: skip the timestamp, check the type. *)
Definition open_block (blockType : Z) (block : list Z) : go (list Z + TsmError) :=
  let! block := or_panic (slice_from block 8) in
  let! got := or_panic (block !! 0%nat) in
  if got =? blockType then let! block := or_panic (slice_from block 1) in Ok (inl block)
  else Ok (inr (ErrInvalidBlockType blockType got)).

Definition decodeFloatBlock (block : list Z) (a : list Value) : go (list Value * option TsmError) :=
  let! opened := open_block BlockFloat64 block in
  match opened with
  | inr e => Ok (a, Some e)
  | inl block =>
      let! (tb, vb) := unpackBlock block in
      let! dec := NewTimeDecoder tb in
      match NewFloatDecoder vb with
      | Panic => Panic
      | Err e => Ok (a, Some e)
      | Ok iter => decode_values FloatValue dec iter a
      end
  end.

Definition decodeBoolBlock (block : list Z) (a : list Value) : go (list Value * option TsmError) :=
  let! opened := open_block BlockBool block in
  match opened with
  | inr e => Ok (a, Some e)
  | inl block =>
      let! (tb, vb) := unpackBlock block in
      let! dec := NewTimeDecoder tb in
      let! vdec := NewBoolDecoder vb in
      decode_values BoolValue dec vdec a
  end.

Definition decodeInt64Block (block : list Z) (a : list Value) : go (list Value * option TsmError) :=
  let! opened := open_block BlockInt64 block in
  match opened with
  | inr e => Ok (a, Some e)
  | inl block =>
      let! (tb, vb) := unpackBlock block in
      let! tsDec := NewTimeDecoder tb in
      decode_values Int64Value tsDec (NewInt64Decoder vb) a
  end.

Definition decodeStringBlock (block : list Z) (a : list Value) : go (list Value * option TsmError) :=
  let! opened := open_block BlockString block in
  match opened with
  | inr e => Ok (a, Some e)
  | inl block =>
      let! (tb, vb) := unpackBlock block in
      let! tsDec := NewTimeDecoder tb in
      match NewStringDecoder vb with
      | Panic => Panic
      | Err e => Ok (a, Some e)
      | Ok vDec => decode_values StringValue tsDec vDec a
      end
  end.

Definition DecodeBlock (block : list Z) (vals : list Value) : go (list Value * option TsmError) :=
  if go_len block <=? encodedBlockHeaderSize then Panic else
  let! blockType := or_panic (block !! 8%nat) in
  if blockType =? BlockFloat64 then decodeFloatBlock block vals
  else if blockType =? BlockInt64 then decodeInt64Block block vals
  else if blockType =? BlockBool then decodeBoolBlock block vals
  else if blockType =? BlockString then decodeStringBlock block vals
  else Panic.

(** ** Unpacking undoes packing *)

Lemma unpackBlock_packBlock ts values :
  go_len ts < 2 ^ 62 → unpackBlock (packBlock ts values) = Ok (ts, values).
Proof.
  intros Hts. pose proof (go_len_nonneg ts). unfold unpackBlock, packBlock.
  rewrite u64_small by (unfold is_u64; lia).
  rewrite Uvarint_PutUvarint by (unfold is_u64; lia).
  pose proof (PutUvarint_length (go_len ts)) as Hp.
  assert (0 ≤ go_len (PutUvarint (go_len ts)) ≤ 10).
  { remember (PutUvarint (go_len ts)) as p. unfold go_len. lia. }
  rewrite (i64_small (go_len ts)), i64_small by (unfold is_i64; lia).
  rewrite slice_app. cbn [or_panic outcome_bind].
  rewrite app_assoc, <- go_len_app, slice_from_app. done.
Qed.

Lemma open_block_header t ty body :
  open_block ty (packBlockHeader t ty ++ body) = Ok (inl body).
Proof.
  unfold open_block, packBlockHeader, u64tob. rewrite <- app_assoc, slice_from_8.
  cbn [or_panic outcome_bind app]. change ((ty :: body) !! 0%nat) with (Some ty).
  cbn [or_panic outcome_bind]. by rewrite Z.eqb_refl, slice_from_1.
Qed.

Lemma DecodeBlock_header t ty body :
  body ≠ [] → is_u8 ty →
  ∀ vals, DecodeBlock (packBlockHeader t ty ++ body) vals =
    (if ty =? BlockFloat64 then decodeFloatBlock
     else if ty =? BlockInt64 then decodeInt64Block
     else if ty =? BlockBool then decodeBoolBlock
     else if ty =? BlockString then decodeStringBlock
     else λ _ _, Panic) (packBlockHeader t ty ++ body) vals.
Proof.
  intros Hb _ vals. unfold DecodeBlock.
  assert (Hlen : go_len (packBlockHeader t ty ++ body) = 9 + go_len body).
  { unfold packBlockHeader, u64tob. rewrite !go_len_app. unfold go_len at 1.
    rewrite PutUint64_length. unfold go_len. cbn [length]. lia. }
  rewrite Hlen. rewrite (proj2 (Z.leb_gt (9 + go_len body) encodedBlockHeaderSize)).
  2:{ destruct body; [done|]. unfold encodedBlockHeaderSize, go_len. cbn [length]. lia. }
  assert (Hty : (packBlockHeader t ty ++ body) !! 8%nat = Some ty).
  { unfold packBlockHeader, u64tob. rewrite <- app_assoc, lookup_app_r by (by rewrite PutUint64_length).
    by rewrite PutUint64_length. }
  rewrite Hty. cbn [or_panic outcome_bind]. by repeat destruct (_ =? _).
Qed.

(** The loop reads as many values as there are timestamps. *)
Lemma decode_loop_yields {D V} `{Decoder D V} mk ts vs dec (vdec : D) a fuel :
  yields dec ts → yields vdec vs → length ts = length vs → (ts = [] → dec_Error vdec = None) →
  (length ts < fuel)%nat →
  ∃ dec' vdec', decode_loop mk fuel dec vdec a = Ok (dec', vdec', a ++ zip_with mk ts vs) ∧
    tdec_err dec' = None ∧ dec_Error vdec' = None.
Proof.
  intros Hts. revert vs vdec a fuel.
  induction Hts as [dec dec' Hn He|dec dec1 dec2 t ts Hn Hr He Hts IH];
    intros vs vdec a [|f] Hvs Hlen Herr Hf; cbn [length] in *; try lia; cbn [decode_loop].
  - simpl in Hn. injection Hn as ->. exists dec', vdec. rewrite app_nil_r. auto.
  - simpl in Hn. injection Hn as ->. simpl in Hr. injection Hr as <- Ht.
    destruct Hvs as [|vdec vdec1 vdec2 v vs Hvn Hvr Hve Hvs]; [done|]. cbn [length] in Hlen.
    rewrite Hvn. cbn [outcome_bind]. rewrite Hvr. cbn [outcome_bind].
    destruct (IH vs vdec2 (a ++ [mk t v]) f) as (dec' & vdec' & Hl & ?); [done|lia|done|lia|].
    exists dec', vdec'. rewrite Ht, Hl, <- app_assoc. done.
Qed.

Lemma decode_values_yields {D V} `{Decoder D V} mk ts vs dec (vdec : D) a :
  yields dec ts → length (tdec_ts dec) = length ts →
  yields vdec vs → length ts = length vs → (ts = [] → dec_Error vdec = None) →
  decode_values mk dec vdec a = Ok (a ++ zip_with mk ts vs, None).
Proof.
  intros Hts Hl Hvs Hlen Herr. unfold decode_values.
  destruct (decode_loop_yields mk ts vs dec vdec a (S (length (tdec_ts dec)))) as
    (dec' & vdec' & -> & He & Hv); [done..|lia|]. cbn [outcome_bind]. by rewrite He, Hv.
Qed.

(** ** Blocks of one type *)

Lemma mapM_values {V} (as_ : Value → option V) (mk : Time → V → Value) values xs :
  (∀ v x, as_ v = Some x → v = mk (Value_Time v) x) → mapM as_ values = Some xs →
  values = zip_with mk (Value_Time <$> values) xs ∧ length (Value_Time <$> values) = length xs.
Proof.
  intros Has. rewrite mapM_Some. induction 1 as [|v x values xs Hv _ [IH1 IH2]]; [done|]. csimpl.
  split; [f_equal; [by apply Has|done]|by rewrite IH2].
Qed.

Lemma packBlock_nonnil ts values : packBlock ts values ≠ [].
Proof.
  unfold packBlock, PutUvarint. cbn [put_uvarint]. by destruct (128 <=? _).
Qed.

(** The time bytes of a block can be unpacked and decoded. *)
Lemma time_bytes values :
  Forall (λ v, representable (Value_Time v)) values → go_len values < 2 ^ 40 →
  ∃ tb dec, snd (encoder_Bytes (foldl encoder_Write NewTimeEncoder (Value_Time <$> values))) = Ok tb ∧
    NewTimeDecoder tb = Ok dec ∧ yields dec (Value_Time <$> values) ∧
    length (tdec_ts dec) = length (Value_Time <$> values) ∧ go_len tb < 2 ^ 62.
Proof.
  intros Hts Hlen. destruct (time_roundtrip (Value_Time <$> values)) as (tb & dec & ? & ? & ? & ? & Hl).
  - by apply Forall_fmap.
  - unfold go_len in *. rewrite length_fmap. lia.
  - exists tb, dec. split_and!; try done. unfold go_len in *. rewrite length_fmap in Hl. lia.
Qed.

Definition floats_ok (fs : list Z) : Prop := Forall (λ v, is_u64 v ∧ IsNaN v = false) fs.

(** No run the run-length decoder gets wrong. *)
Definition ints_ok (is_ : list Z) : Prop :=
  Forall is_i64 is_ ∧
  ∀ v d n, is_i64 v → is_i64 d → (3 ≤ n)%nat → is_ = run v d n → run_safe v d n.

Definition strings_ok (ss : list (list Z)) : Prop :=
  Forall is_bytes ss ∧ go_len (ss ≫= string_record) < 2 ^ 63.

(** The blocks the engine can store: values of one type, which its encoder and
    decoder agree on. *)
Definition storable (a : list Value) : Prop :=
  (∃ fs, mapM as_float a = Some fs ∧ floats_ok fs) ∨
  (∃ is_, mapM as_int64 a = Some is_ ∧ ints_ok is_) ∨
  (∃ bs, mapM as_bool a = Some bs) ∨
  (∃ ss, mapM as_string a = Some ss ∧ strings_ok ss).

(** [block] holds exactly [a]: decoding appends [a] and reports no error. *)
Definition holds_values (block : list Z) (a : list Value) : Prop :=
  ∀ old, DecodeBlock block old = Ok (old ++ a, None).

Section OneType.
Context (a : list Value) (v0 : Value) (a' : list Value) (Ha : a = v0 :: a').
Context (Htimes : Forall (λ v, representable (Value_Time v)) a) (Hlen : go_len a < 2 ^ 40).

Lemma float_block fs :
  mapM as_float a = Some fs → floats_ok fs →
  ∃ body, encodeFloatBlock a = Ok (packBlockHeader (Value_Time v0) BlockFloat64 ++ body) ∧
    holds_values (packBlockHeader (Value_Time v0) BlockFloat64 ++ body) a.
Proof.
  intros Hm Hok. destruct (time_bytes a Htimes Hlen) as (tb & dec & Htb & Hdec & Hy & Hdl & Htl).
  destruct (float_roundtrip fs Hok) as (vb & vdec & Hvb & Hvdec & Hvy).
  destruct (mapM_values as_float FloatValue a fs) as [Hz Hl]; [by intros [] ? [= ->]|done|].
  exists (packBlock tb vb). split.
  - rewrite Ha in *. unfold encodeFloatBlock. rewrite Hm. cbn [or_panic outcome_bind].
    rewrite Htb. cbn [outcome_bind]. by rewrite Hvb.
  - intros old. rewrite DecodeBlock_header; [|apply packBlock_nonnil|done].
    change (BlockFloat64 =? BlockFloat64) with true. cbv iota. unfold decodeFloatBlock.
    rewrite open_block_header. cbn [outcome_bind]. rewrite unpackBlock_packBlock by done.
    cbn [outcome_bind]. rewrite Hdec. cbn [outcome_bind]. rewrite Hvdec.
    rewrite (decode_values_yields FloatValue (Value_Time <$> a) fs) by (done || by rewrite Ha).
    by rewrite <- Hz.
Qed.

Lemma bool_block bs :
  mapM as_bool a = Some bs →
  ∃ body, encodeBoolBlock a = Ok (packBlockHeader (Value_Time v0) BlockBool ++ body) ∧
    holds_values (packBlockHeader (Value_Time v0) BlockBool ++ body) a.
Proof.
  intros Hm. destruct (time_bytes a Htimes Hlen) as (tb & dec & Htb & Hdec & Hy & Hdl & Htl).
  destruct (mapM_values as_bool BoolValue a bs) as [Hz Hl]; [by intros [] ? [= ->]|done|].
  destruct (bool_roundtrip bs) as (vdec & Hvdec & Hvy).
  { unfold go_len in *. rewrite <- Hl, length_fmap. lia. }
  set (vb := snd (boolEncoder_Bytes _)) in *. exists (packBlock tb vb). split.
  - rewrite Ha in *. unfold encodeBoolBlock. rewrite Hm. cbn [or_panic outcome_bind].
    rewrite Htb. done.
  - intros old. rewrite DecodeBlock_header; [|apply packBlock_nonnil|done].
    change (BlockBool =? BlockFloat64) with false. change (BlockBool =? BlockInt64) with false.
    change (BlockBool =? BlockBool) with true. cbv iota. unfold decodeBoolBlock.
    rewrite open_block_header. cbn [outcome_bind]. rewrite unpackBlock_packBlock by done.
    cbn [outcome_bind]. rewrite Hdec. cbn [outcome_bind]. rewrite Hvdec. cbn [outcome_bind].
    rewrite (decode_values_yields BoolValue (Value_Time <$> a) bs) by (done || by rewrite Ha).
    by rewrite <- Hz.
Qed.

Lemma int64_block is_ :
  mapM as_int64 a = Some is_ → ints_ok is_ →
  ∃ body, encodeInt64Block a = Ok (packBlockHeader (Value_Time v0) BlockInt64 ++ body) ∧
    holds_values (packBlockHeader (Value_Time v0) BlockInt64 ++ body) a.
Proof.
  intros Hm [Hi64 Hok]. destruct (time_bytes a Htimes Hlen) as (tb & dec & Htb & Hdec & Hy & Hdl & Htl).
  destruct (mapM_values as_int64 Int64Value a is_) as [Hz Hl]; [by intros [] ? [= ->]|done|].
  destruct (int64_roundtrip_iff is_) as (vb & Hvb & Hiff); [done| |].
  { unfold go_len in *. rewrite <- Hl, length_fmap. lia. }
  apply Hiff in Hok as Hvy. exists (packBlock tb vb). split.
  - unfold encodeInt64Block. rewrite Hm. cbn [or_panic outcome_bind].
    rewrite Htb. cbn [outcome_bind]. rewrite Hvb. cbn [outcome_bind]. by rewrite Ha.
  - intros old. rewrite DecodeBlock_header; [|apply packBlock_nonnil|done].
    change (BlockInt64 =? BlockFloat64) with false. change (BlockInt64 =? BlockInt64) with true.
    cbv iota. unfold decodeInt64Block.
    rewrite open_block_header. cbn [outcome_bind]. rewrite unpackBlock_packBlock by done.
    cbn [outcome_bind]. rewrite Hdec. cbn [outcome_bind].
    rewrite (decode_values_yields Int64Value (Value_Time <$> a) is_) by (done || by rewrite Ha).
    by rewrite <- Hz.
Qed.

Lemma string_block ss :
  mapM as_string a = Some ss → strings_ok ss →
  ∃ body, encodeStringBlock a = Ok (packBlockHeader (Value_Time v0) BlockString ++ body) ∧
    holds_values (packBlockHeader (Value_Time v0) BlockString ++ body) a.
Proof.
  intros Hm [Hb Hsz]. destruct (time_bytes a Htimes Hlen) as (tb & dec & Htb & Hdec & Hy & Hdl & Htl).
  destruct (mapM_values as_string StringValue a ss) as [Hz Hl]; [by intros [] ? [= ->]|done|].
  destruct (string_roundtrip ss Hb Hsz) as (vdec & Hvdec & Hvy).
  set (vb := stringEncoder_Bytes _) in *. exists (packBlock tb vb). split.
  - unfold encodeStringBlock. rewrite Hm. cbn [or_panic outcome_bind].
    rewrite Htb. cbn [outcome_bind]. by rewrite Ha.
  - intros old. rewrite DecodeBlock_header; [|apply packBlock_nonnil|done].
    change (BlockString =? BlockFloat64) with false. change (BlockString =? BlockInt64) with false.
    change (BlockString =? BlockBool) with false. change (BlockString =? BlockString) with true.
    cbv iota. unfold decodeStringBlock.
    rewrite open_block_header. cbn [outcome_bind]. rewrite unpackBlock_packBlock by done.
    cbn [outcome_bind]. rewrite Hdec. cbn [outcome_bind]. rewrite Hvdec.
    rewrite (decode_values_yields StringValue (Value_Time <$> a) ss) by (done || by rewrite Ha).
    by rewrite <- Hz.
Qed.

Lemma mapM_head {V} (as_ : Value → option V) xs : mapM as_ a = Some xs → ∃ x, as_ v0 = Some x.
Proof.
  rewrite Ha. intros (x & xs' & Hx & _)%mapM_Some%Forall2_cons_inv_l. eauto.
Qed.

End OneType.

(** Every storable block is stored, with the first timestamp in its header,
    and read back. *)
Lemma storable_block v0 a :
  Forall (λ v, representable (Value_Time v)) (v0 :: a) → go_len (v0 :: a) < 2 ^ 40 →
  storable (v0 :: a) →
  ∃ ty body, Values_Encode (v0 :: a) = Ok (packBlockHeader (Value_Time v0) ty ++ body) ∧
    holds_values (packBlockHeader (Value_Time v0) ty ++ body) (v0 :: a).
Proof.
  intros Ht Hl [[fs [Hm Hok]]|[[is_ [Hm Hok]]|[[bs Hm]|[ss [Hm Hok]]]]];
    destruct (mapM_head _ v0 a eq_refl _ _ Hm) as [x Hx]; destruct v0; try done;
    eexists _.
  - by apply (float_block _ _ a eq_refl Ht Hl fs).
  - by apply (int64_block _ _ a eq_refl Ht Hl is_).
  - by apply (bool_block _ _ a eq_refl Ht Hl bs).
  - by apply (string_block _ _ a eq_refl Ht Hl ss).
Qed.

End Blocks.

(** ** Deduplication *)

Lemma Value_UnixNano_Time v : Value_UnixNano v = Time_UnixNano (Value_Time v).
Proof. by destruct v. Qed.

Lemma dedup_map_lookup a k :
  dedup_map a !! k = last (filter (λ v, Value_UnixNano v = k) a).
Proof.
  unfold dedup_map. induction a as [|v a IH] using rev_ind; [done|].
  rewrite foldl_snoc, filter_app, filter_cons, filter_nil. destruct (decide _) as [<-|Hne].
  - by rewrite lookup_insert_eq, last_snoc.
  - by rewrite lookup_insert_ne, app_nil_r by done.
Qed.

Lemma dedup_map_key a k v : dedup_map a !! k = Some v → Value_UnixNano v = k.
Proof.
  rewrite dedup_map_lookup. intros [l Hl]%last_Some.
  assert (v ∈ filter (λ v, Value_UnixNano v = k) a) as [? _]%list_elem_of_filter; [|done].
  rewrite Hl. apply elem_of_app. right. by apply list_elem_of_singleton.
Qed.

(** The values of the map have pairwise distinct timestamps. *)
Lemma dedup_map_NoDup a :
  NoDup (Value_UnixNano <$> (map_to_list (dedup_map a)).*2).
Proof.
  rewrite <- list_fmap_compose.
  rewrite (list_fmap_ext _ fst); [apply NoDup_fst_map_to_list|].
  intros i [k v] Hi. simpl. eapply dedup_map_key, elem_of_map_to_list, list_elem_of_lookup_2, Hi.
Qed.

Section Dedup.
Context {GS : GoSort} (iter : gmap Z Value → list Value).
Context (Hiter : ∀ m, iter m ≡ₚ (map_to_list m).*2).

Lemma Deduplicate_perm a : Values_Deduplicate iter a ≡ₚ (map_to_list (dedup_map a)).*2.
Proof. unfold Values_Deduplicate. by rewrite sort_perm. Qed.

Lemma Deduplicate_elem a v :
  v ∈ Values_Deduplicate iter a ↔
  last (filter (λ w, Value_UnixNano w = Value_UnixNano v) a) = Some v.
Proof.
  rewrite Deduplicate_perm, list_elem_of_fmap. rewrite <- dedup_map_lookup. split.
  - intros ([k w] & -> & Hin%elem_of_map_to_list). simpl.
    by rewrite (dedup_map_key _ _ _ Hin).
  - intros H. exists (Value_UnixNano v, v). split; [done|]. by apply elem_of_map_to_list.
Qed.

Lemma Deduplicate_NoDup a : NoDup (Value_UnixNano <$> Values_Deduplicate iter a).
Proof. rewrite Deduplicate_perm. apply dedup_map_NoDup. Qed.

Lemma Deduplicate_le a :
  StronglySorted (λ v w, Value_UnixNano v ≤ Value_UnixNano w) (Values_Deduplicate iter a).
Proof.
  apply sort_sorted. intros v w. unfold Values_Less. by rewrite <- !Value_UnixNano_Time.
Qed.

Lemma Deduplicate_sorted a :
  StronglySorted (λ v w, Value_UnixNano v < Value_UnixNano w) (Values_Deduplicate iter a).
Proof.
  pose proof (Deduplicate_le a) as Hs. pose proof (Deduplicate_NoDup a) as Hn.
  induction Hs as [|v l Hs IH Hv]; [constructor|]. csimpl in Hn. apply NoDup_cons in Hn as [Hv' Hn].
  constructor; [auto|]. rewrite Forall_forall in Hv |- *. intros w Hw.
  specialize (Hv w Hw). simpl in *. assert (Value_UnixNano v ≠ Value_UnixNano w); [|lia].
  intros E. apply Hv'. rewrite E. by apply list_elem_of_fmap_2.
Qed.

End Dedup.

(** The result does not depend on the map iteration order nor on the sorting
    algorithm. *)
Lemma Deduplicate_unique (GS1 GS2 : GoSort) iter1 iter2 a :
  (∀ m, iter1 m ≡ₚ (map_to_list m).*2) → (∀ m, iter2 m ≡ₚ (map_to_list m).*2) →
  @Values_Deduplicate GS1 iter1 a = @Values_Deduplicate GS2 iter2 a.
Proof.
  intros H1 H2. eapply (StronglySorted_unique_strong (λ v w, Value_UnixNano v < Value_UnixNano w)).
  - intros x y _ _. lia.
  - by apply Deduplicate_sorted.
  - by apply Deduplicate_sorted.
  - by rewrite (@Deduplicate_perm GS1 iter1 H1), (@Deduplicate_perm GS2 iter2 H2).
Qed.
