(* ===== verification/TsmProps.v ===== *)
(** * Properties of the tsm1 block encoders

    Round trips of the five encoders and of whole blocks, against any
    implementation of the third-party packages that keeps the laws of [Tsm]. *)

From stdpp Require Import base list gmap sorting.
From Stdlib Require Import ZArith Lia.
From S2P Require Import Prelude Binary Tsm TsmBool TsmString TsmInt TsmTime TsmFloat TsmBlock.

Local Open Scope Z_scope.

(** C20. Blocks survive: a non-empty slice of fewer than 2^40 values of one type
    (floats that are not NaN, integers that are not an unsafe run, booleans, or
    strings), with representable times in any order, is encoded; the header has
    the first timestamp; and decoding the block appends exactly these values, in
    order, to what was there, without an error. *)
Theorem block_roundtrip {SB : Simple8b} {SN : Snappy} {BI : Bits} {BS : Bitstream} v0 a :
  Forall (λ v, representable (Value_Time v)) (v0 :: a) → go_len (v0 :: a) < 2 ^ 40 →
  storable (v0 :: a) →
  ∃ block, Values_Encode (v0 :: a) = Ok block ∧
    btou64 block = Some (u64 (Value_UnixNano v0)) ∧
    ∀ old, DecodeBlock block old = Ok (old ++ v0 :: a, None).
Proof.
  intros Ht Hl Hs. destruct (storable_block v0 a Ht Hl Hs) as (ty & body & He & Hh).
  eexists. split_and!; [exact He| |exact Hh].
  unfold packBlockHeader, u64tob, btou64. rewrite <- app_assoc, Value_UnixNano_Time.
  apply Uint64_PutUint64, u64_range.
Qed.

Lemma block_roundtrip_witness :
  ∃ block, Values_Encode [Int64Value (unixEpoch + 7) 3; Int64Value (unixEpoch + 5) (-4)] = Ok block ∧
    btou64 block = Some 7 ∧
    DecodeBlock block [EmptyValue] =
      Ok ([EmptyValue; Int64Value (unixEpoch + 7) 3; Int64Value (unixEpoch + 5) (-4)], None).
Proof.
  destruct (block_roundtrip (Int64Value (unixEpoch + 7) 3) [Int64Value (unixEpoch + 5) (-4)])
    as (block & H1 & H2 & H3).
  - repeat constructor; vm_compute; congruence.
  - reflexivity.
  - right. left. exists [3; -4]. split; [reflexivity|]. split.
    + repeat constructor; vm_compute; congruence.
    + intros v d n _ _ Hn Hr. apply (f_equal length) in Hr. rewrite run_length in Hr.
      simpl in Hr. lia.
  - exists block. split; [exact H1|]. split; [exact H2|]. exact (H3 [EmptyValue]).
Defined.

(** C21. The integer encoder and decoder agree exactly on the series that are
    not an unsafe run: encoding always succeeds, and the decoder yields what was
    written if and only if the series is not an arithmetic progression of at
    least three integers (differences wrap), or its step is 0, or it is
    non-negative and non-decreasing up to the largest [int64].  The reason is that
    [Read] of a run adds zig-zag coded numbers. *)
Theorem int64_block_faithful_iff {SB : Simple8b} vs :
  Forall is_i64 vs → go_len vs < 2 ^ 63 →
  ∃ bs, int64Encoder_Bytes (foldl int64Encoder_Write NewInt64Encoder vs) = Ok bs ∧
    (yields (NewInt64Decoder bs) vs ↔
     ∀ v d n, is_i64 v → is_i64 d → (3 ≤ n)%nat → vs = run v d n →
       d = 0 ∨ (0 ≤ v ∧ 0 ≤ d ∧ v + (Z.of_nat n - 1) * d < 2 ^ 63)).
Proof. apply int64_roundtrip_iff. Qed.

Lemma int64_block_faithful_iff_witness :
  ∃ bs, int64Encoder_Bytes (foldl int64Encoder_Write NewInt64Encoder [10; 8; 6; 4]) = Ok bs ∧
    ¬ yields (NewInt64Decoder bs) [10; 8; 6; 4].
Proof.
  destruct (int64_block_faithful_iff [10; 8; 6; 4]) as (bs & H1 & H2).
  - repeat constructor; vm_compute; congruence.
  - reflexivity.
  - exists bs. split; [exact H1|]. intros Hy. apply H2 with (v := 10) (d := -2) (n := 4%nat) in Hy.
    + lia.
    + vm_compute; split; congruence.
    + vm_compute; split; congruence.
    + lia.
    + reflexivity.
Defined.

(** A counter that goes down is stored wrongly and no error is reported: the
    block of the integers 0, -1, -2 at one-second steps decodes to 0, -1, 1. *)
Theorem countdown_block_corrupted :
  ∃ block,
    Values_Encode [Int64Value unixEpoch 0; Int64Value (unixEpoch + 1000000000) (-1);
                   Int64Value (unixEpoch + 2000000000) (-2)] = Ok block ∧
    DecodeBlock block [] =
      Ok ([Int64Value unixEpoch 0; Int64Value (unixEpoch + 1000000000) (-1);
           Int64Value (unixEpoch + 2000000000) 1], None).
Proof. eexists. split; [vm_compute; reflexivity|vm_compute; reflexivity]. Qed.

(** Timestamps survive in any order: a sequence of times representable as
    nanoseconds since the epoch, run-length coded, packed with any scaling or raw,
    is yielded by the decoder without an error. *)
Theorem time_encoder_roundtrip {SB : Simple8b} ts :
  Forall representable ts → go_len ts < 2 ^ 63 →
  ∃ bs d d', snd (encoder_Bytes (foldl encoder_Write NewTimeEncoder ts)) = Ok bs ∧
    NewTimeDecoder bs = Ok d ∧
    drain (S (length ts)) d = Ok (d', ts) ∧ tdec_err d' = None.
Proof.
  intros Ht Hl. destruct (time_roundtrip ts Ht Hl) as (bs & d & Hb & Hd & Hy & _).
  destruct (yields_drain d ts Hy (S (length ts))) as (d' & ? & ?); [lia|]. eauto 10.
Qed.

Lemma time_encoder_roundtrip_witness :
  ∃ bs d d', snd (encoder_Bytes (foldl encoder_Write NewTimeEncoder
      [unixEpoch + 30; unixEpoch - 10; unixEpoch + 5])) = Ok bs ∧
    NewTimeDecoder bs = Ok d ∧
    drain 4 d = Ok (d', [unixEpoch + 30; unixEpoch - 10; unixEpoch + 5]) ∧ tdec_err d' = None.
Proof.
  apply (time_encoder_roundtrip [unixEpoch + 30; unixEpoch - 10; unixEpoch + 5]).
  - repeat constructor; vm_compute; congruence.
  - reflexivity.
Defined.

(** [Bytes] of the time encoder changes the encoder: [reduce] computes the
    deltas in place, so a second call encodes the deltas of the deltas and its
    result decodes to other times than were written. *)
Theorem time_Bytes_not_repeatable :
  let e := foldl encoder_Write NewTimeEncoder [unixEpoch + 10; unixEpoch + 30; unixEpoch + 60] in
  ∃ e1 b1 b2 d d',
    encoder_Bytes e = (e1, Ok b1) ∧ snd (encoder_Bytes e1) = Ok b2 ∧
    NewTimeDecoder b2 = Ok d ∧
    drain 4 d = Ok (d', [unixEpoch + 10; unixEpoch + 20; unixEpoch + 30]).
Proof.
  eexists _, _, _, _, _. split; [vm_compute; reflexivity|]. split; [vm_compute; reflexivity|].
  split; [vm_compute; reflexivity|]. vm_compute. reflexivity.
Qed.

(** Booleans survive: packing any sequence eight to a byte and unpacking it
    gives the sequence, whatever its length. *)
Theorem bool_encoder_roundtrip vs :
  go_len vs < 2 ^ 63 →
  ∃ d d', NewBoolDecoder (snd (boolEncoder_Bytes (foldl boolEncoder_Write NewBoolEncoder vs))) = Ok d ∧
    drain (S (length vs)) d = Ok (d', vs) ∧ bdec_err d' = None.
Proof.
  intros Hl. destruct (bool_roundtrip vs Hl) as (d & Hd & Hy).
  destruct (yields_drain d vs Hy (S (length vs))) as (d' & ? & ?); [lia|]. eauto.
Qed.

Lemma bool_encoder_roundtrip_witness :
  ∃ d d', NewBoolDecoder (snd (boolEncoder_Bytes (foldl boolEncoder_Write NewBoolEncoder
      [true; false; true; true; false; false; true; false; true]))) = Ok d ∧
    drain 10 d = Ok (d', [true; false; true; true; false; false; true; false; true]) ∧
    bdec_err d' = None.
Proof.
  apply (bool_encoder_roundtrip [true; false; true; true; false; false; true; false; true]).
  reflexivity.
Defined.

(** Strings survive, empty ones and any bytes included, when the block is
    shorter than 2^63 bytes and snappy decompresses what it compressed. *)
Theorem string_encoder_roundtrip {SN : Snappy} vs :
  Forall is_bytes vs → go_len (vs ≫= string_record) < 2 ^ 63 →
  ∃ d d', NewStringDecoder (stringEncoder_Bytes (foldl stringEncoder_Write NewStringEncoder vs)) = Ok d ∧
    drain (S (length vs)) d = Ok (d', vs) ∧ sdec_err d' = None.
Proof.
  intros Hb Hl. destruct (string_roundtrip vs Hb Hl) as (d & Hd & Hy).
  destruct (yields_drain d vs Hy (S (length vs))) as (d' & ? & ?); [lia|]. eauto.
Qed.

Lemma string_encoder_roundtrip_witness :
  ∃ d d', NewStringDecoder (stringEncoder_Bytes (foldl stringEncoder_Write NewStringEncoder
      [[104; 105]; []; [0; 255]])) = Ok d ∧
    drain 4 d = Ok (d', [[104; 105]; []; [0; 255]]) ∧ sdec_err d' = None.
Proof.
  apply (string_encoder_roundtrip [[104; 105]; []; [0; 255]]).
  - repeat constructor; vm_compute; congruence.
  - reflexivity.
Defined.

(** Floats survive bit for bit, and NaN is refused: a sequence of 64-bit
    patterns none of which is a NaN is decoded to the same patterns (negative
    zero, denormals and infinities included); a sequence with a NaN anywhere
    makes [Bytes] return the error. *)
Theorem float_encoder_roundtrip {BI : Bits} {BS : Bitstream} vs :
  Forall is_u64 vs →
  if existsb IsNaN vs then
    FloatEncoder_Bytes (FloatEncoder_Finish (foldl FloatEncoder_Push NewFloatEncoder vs)) =
      Err ErrUnsupportedNaN
  else
    ∃ bs d d', FloatEncoder_Bytes (FloatEncoder_Finish (foldl FloatEncoder_Push NewFloatEncoder vs)) = Ok bs ∧
      NewFloatDecoder bs = Ok d ∧ drain (S (length vs)) d = Ok (d', vs) ∧ fdec_err d' = None.
Proof.
  intros H64. destruct (existsb IsNaN vs) eqn:Hex.
  - apply existsb_exists in Hex as (v & Hv%list_elem_of_In & Hnan).
    apply list_elem_of_split in Hv as (l1 & l2 & ->). by apply float_NaN_refused.
  - destruct (float_roundtrip vs) as (bs & d & Hb & Hd & Hy).
    + apply Forall_forall. intros v Hv. rewrite Forall_forall in H64. split; [auto|].
      apply not_true_iff_false. intros Hn. apply not_true_iff_false in Hex. apply Hex.
      apply existsb_exists. exists v. split; [by apply list_elem_of_In|done].
    + destruct (yields_drain d vs Hy (S (length vs))) as (d' & ? & ?); [lia|]. eauto 10.
Qed.

(** 12.0, 12.0, -0.0, +Inf *)
Lemma float_encoder_roundtrip_witness :
  ∃ bs d d', FloatEncoder_Bytes (FloatEncoder_Finish (foldl FloatEncoder_Push NewFloatEncoder
      [0x4028000000000000; 0x4028000000000000; 0x8000000000000000; 0x7FF0000000000000])) = Ok bs ∧
    NewFloatDecoder bs = Ok d ∧
    drain 5 d = Ok (d', [0x4028000000000000; 0x4028000000000000; 0x8000000000000000; 0x7FF0000000000000]) ∧
    fdec_err d' = None.
Proof.
  apply (float_encoder_roundtrip
    [0x4028000000000000; 0x4028000000000000; 0x8000000000000000; 0x7FF0000000000000]).
  repeat constructor; vm_compute; congruence.
Defined.

(** [Deduplicate] keeps, for every timestamp in the slice, the value that
    came last, in strictly ascending order of time; the result does not depend on
    the order in which Go iterates over the map nor on how it sorts. *)
Theorem Deduplicate_correct (GS1 GS2 : GoSort) iter1 iter2 a :
  (∀ m, iter1 m ≡ₚ (map_to_list m).*2) → (∀ m, iter2 m ≡ₚ (map_to_list m).*2) →
  let r := @Values_Deduplicate GS1 iter1 a in
  StronglySorted (λ v w, Value_UnixNano v < Value_UnixNano w) r ∧
  (∀ v, v ∈ r ↔ last (filter (λ w, Value_UnixNano w = Value_UnixNano v) a) = Some v) ∧
  @Values_Deduplicate GS2 iter2 a = r.
Proof.
  intros H1 H2 r. split_and!.
  - by apply Deduplicate_sorted.
  - intros v. by apply Deduplicate_elem.
  - by apply Deduplicate_unique.
Qed.

Lemma Deduplicate_correct_witness :
  BoolValue unixEpoch true ∈
    Values_Deduplicate (λ m, (map_to_list m).*2)
      [BoolValue (unixEpoch + 1) true; BoolValue unixEpoch false; BoolValue unixEpoch true].
Proof.
  destruct (Deduplicate_correct insertion_GoSort insertion_GoSort
    (λ m, (map_to_list m).*2) (λ m, reverse ((map_to_list m).*2))
    [BoolValue (unixEpoch + 1) true; BoolValue unixEpoch false; BoolValue unixEpoch true])
    as (_ & H & _).
  - intros m. reflexivity.
  - intros m. apply reverse_Permutation.
  - apply H. vm_compute. reflexivity.
Defined.

(** Zig-zag coding is a bijection between [int64] and [uint64] that puts
    small magnitudes first: it interleaves the non-negative and the negative
    integers. *)
Theorem ZigZag_bijection x :
  is_i64 x →
  is_u64 (ZigZagEncode x) ∧ ZigZagDecode (ZigZagEncode x) = x ∧
  ZigZagEncode x = (if x <? 0 then - 2 * x - 1 else 2 * x) ∧
  ∀ v, is_u64 v → is_i64 (ZigZagDecode v) ∧ ZigZagEncode (ZigZagDecode v) = v.
Proof.
  intros Hx. split_and!; auto using ZigZagEncode_range, ZigZagDecode_Encode, ZigZagEncode_eq,
    ZigZagDecode_range, ZigZagEncode_Decode.
Qed.

Lemma ZigZag_bijection_witness :
  ZigZagDecode (ZigZagEncode (- 2 ^ 63)) = - 2 ^ 63 ∧ ZigZagEncode (- 2 ^ 63) = 2 ^ 64 - 1.
Proof.
  destruct (ZigZag_bijection (- 2 ^ 63)) as (_ & H1 & H2 & _).
  - vm_compute. split; congruence.
  - split; [exact H1|]. rewrite H2. reflexivity.
Defined.
