(* ===== verification/TsmWriteLock.v ===== *)
(** * tsm1/write_lock.go

    A lock on ranges of integers: [LockRange] waits until no overlapping range
    is locked.  A state has the heap of [rangeLock]s (a pointer is an index), the
    slice of the locked ranges and the program counter of every goroutine; a
    step is one atomic action of one goroutine, an action under [rangesLock] or
    one operation on the mutex of a range. *)

From stdpp Require Import base list gmap sets relations.
From Stdlib Require Import ZArith Lia.
From S2P Require Import Prelude.

Local Open Scope Z_scope.

(** [rl_locked] is the state of the mutex [mu]: waiting goroutines are not
    counted in it, they have not made their step. *)
Record rangeLock := RangeLock {
  rl_locked : bool;
  rl_min : Z;
  rl_max : Z
}.

#[export] Instance rangeLock_eq_dec : EqDecision rangeLock.
Proof. solve_decision. Defined.

Definition rangeLock_overlaps (r l : rangeLock) : bool :=
  if (rl_min r <=? rl_min l) && (rl_min l <=? rl_max r) then true
  else if (rl_min r <=? rl_max l) && (rl_max l <=? rl_max r) then true
  else if (rl_min l <=? rl_min r) && (rl_max r <=? rl_max l) then true
  else if (rl_min r <=? rl_min l) && (rl_max l <=? rl_max r) then true
  else false.

(** [wl_heap] are all [rangeLock]s ever allocated, [wl_ranges] is [w.ranges]. *)
Record WriteLock := mkWriteLock {
  wl_heap : list rangeLock;
  wl_ranges : list nat
}.

(** [rr.mu.Lock()] on a free mutex and [rr.mu.Unlock()]. *)
Definition set_locked (b : bool) (l : rangeLock) : rangeLock := RangeLock b (rl_min l) (rl_max l).
Definition set_mu (b : bool) (p : nat) (w : WriteLock) : WriteLock :=
  mkWriteLock (alter (set_locked b) p (wl_heap w)) (wl_ranges w).

Definition WriteLock_currentlyLockedRanges (w : WriteLock) : list nat := wl_ranges w.

(** [reflect.DeepEqual] of two slices of pointers: equal lengths, and the
    pointers are equal or what they point to is deeply equal, the mutex
    included. *)
Definition ptr_DeepEqual (w : WriteLock) (p q : nat) : bool :=
  bool_decide (p = q) || bool_decide (wl_heap w !! p = wl_heap w !! q).
Fixpoint DeepEqual (w : WriteLock) (ps qs : list nat) : bool :=
  match ps, qs with
  | [], [] => true
  | p :: ps, q :: qs => ptr_DeepEqual w p q && DeepEqual w ps qs
  | _, _ => false
  end.

Definition same_range (mn mx : Z) (l : rangeLock) : bool := (rl_min l =? mn) && (rl_max l =? mx).

(** Is [p] a pointer to the range [mn], [mx]? *)
Definition at_range (w : WriteLock) (mn mx : Z) (p : nat) : bool :=
  match wl_heap w !! p with Some l => same_range mn mx l | None => false end.

Definition WriteLock_UnlockRange (w : WriteLock) (mn mx : Z) : WriteLock :=
  let w' := foldr (set_mu false) w (filter (λ p, at_range w mn mx p) (wl_ranges w)) in
  mkWriteLock (wl_heap w') (filter (λ p, negb (at_range w mn mx p)) (wl_ranges w)).

(** Where a goroutine is: outside, in [LockRange] with its own [r] (about to
    take the snapshot, checking the ranges left in [todo], between [rr.mu.Lock]
    and [rr.mu.Unlock], about to compare the slices), or holding the range. *)
Inductive PC :=
| Idle
| Snapshot (r : nat)
| Checking (r : nat) (ranges todo : list nat)
| Waited (r : nat) (ranges : list nat) (rr : nat) (todo : list nat)
| Comparing (r : nat) (ranges : list nat)
| Holding (r : nat).

Record System := mkSystem {
  sys_lock : WriteLock;
  sys_pcs : gmap nat PC
}.

Definition pc_of (s : System) (t : nat) : PC := default Idle (sys_pcs s !! t).

Inductive Action := Call (mn mx : Z) | Run | Unlock.

Definition goto (t : nat) (pc : PC) (w : WriteLock) (s : System) : option System :=
  Some (mkSystem w (<[t := pc]> (sys_pcs s))).

(** One step of goroutine [t]; [None] when it is not enabled. *)
Definition LockRange_step (s : System) (t : nat) (a : Action) : option System :=
  let w := sys_lock s in
  match a, pc_of s t with
  | Call mn mx, Idle =>
      goto t (Snapshot (length (wl_heap w)))
        (mkWriteLock (wl_heap w ++ [RangeLock false mn mx]) (wl_ranges w)) s
  | Run, Snapshot r =>
      let ranges := WriteLock_currentlyLockedRanges w in
      goto t (Checking r ranges ranges) w s
  | Run, Checking r ranges [] => goto t (Comparing r ranges) w s
  | Run, Checking r ranges (rr :: todo) =>
      match wl_heap w !! rr, wl_heap w !! r with
      | Some lrr, Some lr =>
          if rangeLock_overlaps lrr lr then
            if rl_locked lrr then None
            else goto t (Waited r ranges rr todo) (set_mu true rr w) s
          else goto t (Checking r ranges todo) w s
      | _, _ => None
      end
  | Run, Waited r ranges rr todo => goto t (Checking r ranges todo) (set_mu false rr w) s
  | Run, Comparing r ranges =>
      if bool_decide (wl_ranges w = []) || DeepEqual w ranges (wl_ranges w) then
        let w := set_mu true r w in
        goto t (Holding r) (mkWriteLock (wl_heap w) (wl_ranges w ++ [r])) s
      else goto t (Snapshot r) w s
  | Unlock, Holding r =>
      match wl_heap w !! r with
      | Some l => goto t Idle (WriteLock_UnlockRange w (rl_min l) (rl_max l)) s
      | None => None
      end
  | _, _ => None
  end.

Definition System_new : System := mkSystem (mkWriteLock [] []) ∅.

Definition sys_step (s s' : System) : Prop := ∃ t a, LockRange_step s t a = Some s'.

(** A schedule: which goroutine acts next, and how. *)
Fixpoint run_schedule (s : System) (l : list (nat * Action)) : option System :=
  match l with
  | [] => Some s
  | (t, a) :: l =>
      match LockRange_step s t a with
      | Some s => run_schedule s l
      | None => None
      end
  end.

Definition range_of (s : System) (r : nat) : option (Z * Z) :=
  (λ l, (rl_min l, rl_max l)) <$> wl_heap (sys_lock s) !! r.

(** Two goroutines hold ranges with a common element. *)
Definition clash (s : System) : Prop :=
  ∃ t1 t2 r1 r2 a1 b1 a2 b2 x, t1 ≠ t2 ∧
    pc_of s t1 = Holding r1 ∧ pc_of s t2 = Holding r2 ∧
    range_of s r1 = Some (a1, b1) ∧ range_of s r2 = Some (a2, b2) ∧
    a1 ≤ x ≤ b1 ∧ a2 ≤ x ≤ b2.

(** Every call of [LockRange] had its own range. *)
Definition calls_distinct (s : System) : Prop :=
  NoDup ((λ l, (rl_min l, rl_max l)) <$> wl_heap (sys_lock s)).

(** ** Ranges *)

Lemma overlaps_common r l x :
  rl_min r ≤ x ≤ rl_max r → rl_min l ≤ x ≤ rl_max l → rangeLock_overlaps r l = true.
Proof.
  intros Hr Hl. unfold rangeLock_overlaps.
  destruct (Z.leb_spec (rl_min r) (rl_min l)), (Z.leb_spec (rl_min l) (rl_max r)),
    (Z.leb_spec (rl_min r) (rl_max l)), (Z.leb_spec (rl_max l) (rl_max r)),
    (Z.leb_spec (rl_min l) (rl_min r)), (Z.leb_spec (rl_max r) (rl_max l)); try done; lia.
Qed.

(** The minimum and the maximum at a pointer. *)
Definition bounds (h : list rangeLock) : list (Z * Z) := (λ l, (rl_min l, rl_max l)) <$> h.

Lemma bounds_set_mu b p w : bounds (wl_heap (set_mu b p w)) = bounds (wl_heap w).
Proof. unfold bounds, set_mu. cbn. by apply fmap_alter_same. Qed.

Lemma bounds_UnlockRange w mn mx : bounds (wl_heap (WriteLock_UnlockRange w mn mx)) = bounds (wl_heap w).
Proof.
  unfold WriteLock_UnlockRange. cbn [wl_heap]. induction (filter _ _) as [|p l IH]; [done|].
  cbn [foldr]. by rewrite bounds_set_mu.
Qed.

(** The heap only grows, and the bounds of a range never change. *)
Lemma step_bounds s t a s' :
  LockRange_step s t a = Some s' →
  ∃ l, bounds (wl_heap (sys_lock s')) = bounds (wl_heap (sys_lock s)) ++ l.
Proof.
  unfold LockRange_step, goto. intros H.
  destruct a, (pc_of s t) as [|r|r rs [|rr todo]|r rs rr todo|r rs|r]; try done; simplify_eq;
    [|exists []; rewrite app_nil_r..].
  - exists [(mn, mx)]. unfold bounds. cbn. by rewrite fmap_app.
  - done.
  - done.
  - go_solve; cbn [sys_lock]; by rewrite ?bounds_set_mu.
  - cbn [sys_lock]. by rewrite bounds_set_mu.
  - destruct (_ || _); simplify_eq; cbn [sys_lock]; [by rewrite <- (bounds_set_mu true r (sys_lock s))|done].
  - destruct (wl_heap (sys_lock s) !! r); simplify_eq. cbn [sys_lock]. by rewrite bounds_UnlockRange.
Qed.

Lemma calls_distinct_step s t a s' :
  LockRange_step s t a = Some s' → calls_distinct s' → calls_distinct s.
Proof.
  unfold calls_distinct. fold (bounds (wl_heap (sys_lock s))) (bounds (wl_heap (sys_lock s'))).
  intros [l ->]%step_bounds H. by apply NoDup_app in H as (? & _).
Qed.

(** ** The invariant *)

(** The lock a goroutine has allocated, the one it is waiting with, and the
    ranges it has seen. *)
Definition own (pc : PC) : option nat :=
  match pc with
  | Idle => None
  | Snapshot r | Checking r _ _ | Waited r _ _ _ | Comparing r _ | Holding r => Some r
  end.
Definition waiting (pc : PC) : option nat :=
  match pc with Idle | Holding _ => None | _ => own pc end.
Definition seen (pc : PC) : list nat :=
  match pc with
  | Checking _ rs _ | Waited _ rs _ _ | Comparing _ rs => rs
  | _ => []
  end.

Definition share (h : list rangeLock) (p q : nat) : Prop :=
  ∃ a b c d x, bounds h !! p = Some (a, b) ∧ bounds h !! q = Some (c, d) ∧
    a ≤ x ≤ b ∧ c ≤ x ≤ d.

(** Those of [ps] that share an element with [r] are not locked any more. *)
Definition gone (w : WriteLock) (r : nat) (ps : list nat) : Prop :=
  ∀ p, p ∈ ps → share (wl_heap w) p r → p ∉ wl_ranges w.

Definition pc_ok (w : WriteLock) (pc : PC) : Prop :=
  match pc with
  | Idle | Snapshot _ => True
  | Checking r rs todo => ∃ dn, rs = dn ++ todo ∧ gone w r dn
  | Waited r rs rr todo => ∃ dn, rs = dn ++ rr :: todo ∧ gone w r dn ∧ rr ∉ wl_ranges w
  | Comparing r rs => gone w r rs
  | Holding r => r ∈ wl_ranges w
  end.

Record lock_inv (s : System) : Prop := {
  inv_locked : ∀ p, p ∈ wl_ranges (sys_lock s) →
    ∃ l, wl_heap (sys_lock s) !! p = Some l ∧ rl_locked l = true;
  inv_own : ∀ t r, own (pc_of s t) = Some r → (r < length (wl_heap (sys_lock s)))%nat;
  inv_inj : ∀ t1 t2 r, own (pc_of s t1) = Some r → own (pc_of s t2) = Some r → t1 = t2;
  inv_waiting : ∀ t r, waiting (pc_of s t) = Some r →
    (r ∉ wl_ranges (sys_lock s)) ∧ (∀ t', r ∉ seen (pc_of s t'));
  inv_seen : ∀ t p, p ∈ seen (pc_of s t) → (p < length (wl_heap (sys_lock s)))%nat;
  inv_pc : ∀ t, pc_ok (sys_lock s) (pc_of s t);
  inv_disjoint : ∀ p q, p ∈ wl_ranges (sys_lock s) → q ∈ wl_ranges (sys_lock s) → p ≠ q →
    ¬ (share (wl_heap (sys_lock s)) p q)
}.

Lemma pc_of_goto w pcs t pc t' :
  pc_of (mkSystem w (<[t := pc]> pcs)) t' =
  if decide (t' = t) then pc else pc_of (mkSystem w pcs) t'.
Proof.
  unfold pc_of. cbn. destruct (decide (t' = t)) as [->|].
  - by rewrite lookup_insert_eq.
  - by rewrite lookup_insert_ne.
Qed.

Lemma share_bounds h h' p q : bounds h' = bounds h → share h' p q ↔ share h p q.
Proof. unfold share. by intros ->. Qed.

Lemma share_comm h p q : share h p q ↔ share h q p.
Proof. unfold share. split; intros (a & b & c & d & x & ?); exists c, d, a, b, x; tauto. Qed.

Lemma bounds_length h h' : bounds h' = bounds h → length h' = length h.
Proof. intros H. apply (f_equal length) in H. unfold bounds in H. by rewrite !length_fmap in H. Qed.

(** A heap that grew is the same to the pointers that were there. *)
Lemma share_grow h h' l p q :
  bounds h' = bounds h ++ l → (p < length h)%nat → (q < length h)%nat →
  share h' p q ↔ share h p q.
Proof.
  intros Hb Hp Hq. unfold share. rewrite Hb.
  rewrite !lookup_app_l by (unfold bounds; by rewrite length_fmap). done.
Qed.

Lemma gone_mono w w' r ps :
  (∀ p, p ∈ ps → share (wl_heap w') p r → share (wl_heap w) p r) →
  (∀ p, p ∈ ps → p ∈ wl_ranges w' → p ∈ wl_ranges w) →
  gone w r ps → gone w' r ps.
Proof. intros H1 H2 Hg p Hp Hs Hin. by eapply (Hg p Hp); auto. Qed.

(** What another goroutine knows stays true when nothing it has seen is locked
    and its own range is not unlocked. *)
Lemma pc_ok_mono w w' pc :
  (∀ p r, p ∈ seen pc → own pc = Some r → share (wl_heap w') p r → share (wl_heap w) p r) →
  (∀ p, p ∈ seen pc → p ∈ wl_ranges w' → p ∈ wl_ranges w) →
  (∀ r, pc = Holding r → r ∈ wl_ranges w → r ∈ wl_ranges w') →
  pc_ok w pc → pc_ok w' pc.
Proof.
  intros Hsh Hseen Hhold. destruct pc as [|r|r rs todo|r rs rr todo|r rs|r]; cbn in *; auto.
  - intros (dn & -> & Hg). exists dn. split; [done|].
    eapply gone_mono; [| |exact Hg]; intros p Hp; [intros; eapply Hsh|apply Hseen]; set_solver.
  - intros (dn & -> & Hg & Hrr). exists dn. split_and!; [done| |].
    + eapply gone_mono; [| |exact Hg]; intros p Hp; [intros; eapply Hsh|apply Hseen]; set_solver.
    + intros Hin. apply Hrr, Hseen; [set_solver|done].
  - intros Hg. eapply gone_mono; [| |exact Hg]; intros p Hp; [intros; by eapply Hsh|by apply Hseen].
Qed.

Lemma DeepEqual_distinct w ps qs :
  NoDup (bounds (wl_heap w)) →
  (∀ p, p ∈ ps → (p < length (wl_heap w))%nat) → (∀ q, q ∈ qs → (q < length (wl_heap w))%nat) →
  DeepEqual w ps qs = true → ps = qs.
Proof.
  intros Hnd. revert qs. induction ps as [|p ps IH]; intros [|q qs] Hp Hq H; try done.
  cbn in H. apply andb_true_iff in H as [Hpq H]. f_equal; [|apply IH; set_solver].
  unfold ptr_DeepEqual in Hpq. apply orb_true_iff in Hpq as [Hpq|Hpq];
    apply bool_decide_eq_true in Hpq; [done|].
  destruct (lookup_lt_is_Some_2 (wl_heap w) p) as [l Hl]; [apply Hp; set_solver|].
  eapply (NoDup_lookup _ p q (rl_min l, rl_max l)); [exact Hnd| |].
  - unfold bounds. by rewrite list_lookup_fmap, Hl.
  - unfold bounds. by rewrite list_lookup_fmap, <- Hpq, Hl.
Qed.

(** A step that leaves the locked ranges as they are: the goroutine keeps its
    own lock and has seen at most what is locked now. *)
Lemma quiet_step s t w pc :
  lock_inv s →
  bounds (wl_heap w) = bounds (wl_heap (sys_lock s)) → wl_ranges w = wl_ranges (sys_lock s) →
  (∀ p l, p ∈ wl_ranges w → wl_heap (sys_lock s) !! p = Some l → wl_heap w !! p = Some l) →
  own pc = own (pc_of s t) → waiting pc = waiting (pc_of s t) →
  (∀ p, p ∈ seen pc → p ∈ seen (pc_of s t) ∨ p ∈ wl_ranges w) →
  pc_ok w pc → lock_inv (mkSystem w (<[t := pc]> (sys_pcs s))).
Proof.
  intros [Hlk Hown Hinj Hwait Hseen Hpc Hdis] Hb Hr Hheap Ho Hw Hs Hok.
  pose proof (bounds_length _ _ Hb) as Hlen.
  assert (Hlt : ∀ p, p ∈ wl_ranges w → (p < length (wl_heap w))%nat).
  { intros p Hp. rewrite Hr in Hp. destruct (Hlk p Hp) as (l & Hl & _).
    rewrite Hlen. by apply lookup_lt_Some in Hl. }
  assert (Hown' : ∀ t', own (pc_of (mkSystem w (<[t:=pc]> (sys_pcs s))) t') = own (pc_of s t')).
  { intros t'. rewrite pc_of_goto. by destruct (decide _) as [->|]. }
  assert (Hwait' : ∀ t', waiting (pc_of (mkSystem w (<[t:=pc]> (sys_pcs s))) t') = waiting (pc_of s t')).
  { intros t'. rewrite pc_of_goto. by destruct (decide _) as [->|]. }
  assert (Hseen' : ∀ t' p, p ∈ seen (pc_of (mkSystem w (<[t:=pc]> (sys_pcs s))) t') →
    p ∈ seen (pc_of s t') ∨ p ∈ wl_ranges w).
  { intros t' p. rewrite pc_of_goto. destruct (decide _) as [->|]; [apply Hs|by left]. }
  split; cbn [sys_lock].
  - intros p Hp. rewrite Hr in Hp. destruct (Hlk p Hp) as (l & Hl & ?). exists l.
    split; [|done]. apply Hheap; [by rewrite Hr|done].
  - intros t' r. rewrite Hown', Hlen. apply Hown.
  - intros t1 t2 r. rewrite !Hown'. apply Hinj.
  - intros t' r. rewrite Hwait', Hr. intros Hw'. destruct (Hwait t' r Hw') as [H1 H2].
    split; [done|]. intros t'' [H|H]%Hseen'; [by apply (H2 t'')|by rewrite Hr in H].
  - intros t' p [H|H]%Hseen'; [rewrite Hlen; by eapply Hseen|by apply Hlt].
  - intros t'. rewrite pc_of_goto. destruct (decide _) as [->|]; [done|].
    change (pc_of (mkSystem w (sys_pcs s)) t') with (pc_of s t').
    eapply pc_ok_mono; [| | |apply Hpc].
    + intros p r _ _. by rewrite (share_bounds _ _ _ _ Hb).
    + intros p _. by rewrite Hr.
    + intros r _. by rewrite Hr.
  - intros p q. rewrite Hr, (share_bounds _ _ _ _ Hb). apply Hdis.
Qed.

(** [LockRange] is called. *)
Lemma call_step s t mn mx :
  lock_inv s → pc_of s t = Idle →
  lock_inv (mkSystem (mkWriteLock (wl_heap (sys_lock s) ++ [RangeLock false mn mx]) (wl_ranges (sys_lock s)))
    (<[t := Snapshot (length (wl_heap (sys_lock s)))]> (sys_pcs s))).
Proof.
  intros [Hlk Hown Hinj Hwait Hseen Hpc Hdis] Hidle.
  set (h := wl_heap (sys_lock s)) in *. set (w := mkWriteLock _ _).
  assert (Hb : bounds (wl_heap w) = bounds h ++ [(mn, mx)]) by (unfold bounds; cbn; by rewrite fmap_app).
  assert (Hlen : length (wl_heap w) = S (length h)) by (cbn; rewrite length_app; simpl; lia).
  assert (Hlt : ∀ p, p ∈ wl_ranges (sys_lock s) → (p < length h)%nat).
  { intros p Hp. destruct (Hlk p Hp) as (l & Hl & _). by apply lookup_lt_Some in Hl. }
  split; cbn [sys_lock].
  - intros p Hp. destruct (Hlk p Hp) as (l & Hl & ?). exists l. split; [|done].
    cbn. by apply lookup_app_l_Some.
  - intros t' r. rewrite pc_of_goto, Hlen. destruct (decide _) as [->|].
    + cbn. intros [= <-]. lia.
    + intros H%Hown. fold h in H. lia.
  - intros t1 t2 r. rewrite !pc_of_goto.
    destruct (decide (t1 = t)) as [->|], (decide (t2 = t)) as [->|]; cbn; try done.
    + intros [= <-] H%Hown. fold h in H. lia.
    + intros H%Hown [= <-]. fold h in H. lia.
    + apply Hinj.
  - intros t' r. rewrite pc_of_goto. intros Hw.
    assert (Hnew : ∀ t'', seen (pc_of (mkSystem w (<[t:=Snapshot (length h)]> (sys_pcs s))) t'') = seen (pc_of s t'')).
    { intros t''. rewrite pc_of_goto. destruct (decide (t'' = t)) as [Heq|]; [|done].
      rewrite Heq, Hidle. done. }
    destruct (decide (t' = t)) as [->|].
    + cbn in Hw. simplify_eq. split.
      * intros Hin%Hlt. lia.
      * intros t''. rewrite Hnew. intros Hin%Hseen. fold h in Hin. lia.
    + destruct (Hwait t' r Hw) as [H1 H2]. split; [done|]. intros t''. by rewrite Hnew.
  - intros t' p. rewrite pc_of_goto, Hlen. destruct (decide _) as [->|]; [by intros ?%not_elem_of_nil|].
    intros H%Hseen. fold h in H. lia.
  - intros t'. rewrite pc_of_goto. destruct (decide _) as [->|]; [done|].
    eapply (pc_ok_mono (sys_lock s)); [| | |apply (Hpc t')]; [|done|done].
    intros p r Hp Ho. apply (share_grow h (wl_heap w) [(mn, mx)] p r Hb); [by eapply Hseen|by eapply Hown].
  - intros p q Hp Hq Hpq. rewrite (share_grow h (wl_heap w) [(mn, mx)] p q Hb) by (by apply Hlt).
    by apply Hdis.
Qed.

(** The snapshot is what is locked: the goroutine locks its range. *)
Lemma acquire_step s t r rs :
  lock_inv s → pc_of s t = Comparing r rs →
  (∀ p, p ∈ wl_ranges (sys_lock s) → p ∈ rs) →
  lock_inv (mkSystem
    (mkWriteLock (wl_heap (set_mu true r (sys_lock s))) (wl_ranges (sys_lock s) ++ [r]))
    (<[t := Holding r]> (sys_pcs s))).
Proof.
  intros [Hlk Hown Hinj Hwait Hseen Hpc Hdis] Hcmp Hsub.
  pose proof (bounds_set_mu true r (sys_lock s)) as Hb.
  set (h := wl_heap (sys_lock s)) in *. set (w := mkWriteLock _ _).
  change (bounds (wl_heap w) = bounds h) in Hb.
  pose proof (bounds_length _ _ Hb) as Hlen.
  assert (Hrt : own (pc_of s t) = Some r) by (by rewrite Hcmp).
  destruct (Hwait t r) as [Hr Hrs]; [by rewrite Hcmp|].
  assert (Hfree : ∀ p, p ∈ wl_ranges (sys_lock s) → ¬ share h p r).
  { intros p Hp Hsh. specialize (Hpc t). rewrite Hcmp in Hpc. by apply (Hpc p (Hsub p Hp) Hsh). }
  assert (Hown' : ∀ t', own (pc_of (mkSystem w (<[t:=Holding r]> (sys_pcs s))) t') = own (pc_of s t')).
  { intros t'. rewrite pc_of_goto. destruct (decide (t' = t)) as [->|]; [by rewrite Hrt|done]. }
  assert (Hseen' : ∀ t' p, p ∈ seen (pc_of (mkSystem w (<[t:=Holding r]> (sys_pcs s))) t') →
    p ∈ seen (pc_of s t')).
  { intros t' p. rewrite pc_of_goto. destruct (decide (t' = t)) as [->|]; [by intros ?%not_elem_of_nil|done]. }
  split; cbn [sys_lock].
  - intros p [Hp|Hp%list_elem_of_singleton]%elem_of_app.
    + destruct (Hlk p Hp) as (l & Hl & Hll). exists l. split; [|done]. cbn.
      rewrite list_lookup_alter_ne by (intros ->; done). done.
    + subst p. destruct (lookup_lt_is_Some_2 h r) as [l Hl]; [by eapply Hown|].
      exists (set_locked true l). split; [|done]. cbn. rewrite list_lookup_alter_eq. by fold h; rewrite Hl.
  - intros t' q. rewrite Hown', Hlen. apply Hown.
  - intros t1 t2 q. rewrite !Hown'. apply Hinj.
  - intros t' q. rewrite pc_of_goto. destruct (decide (t' = t)) as [->|Hne]; [done|].
    intros Hw. destruct (Hwait t' q Hw) as [H1 H2]. split.
    + intros [?|Hqr%list_elem_of_singleton]%elem_of_app; [done|]. subst q.
      apply Hne, (Hinj t' t r); [|done]. clear -Hw. change (waiting (pc_of s t') = Some r) in Hw.
      by destruct (pc_of s t').
    + intros t'' H%Hseen'. by apply (H2 t'').
  - intros t' p H%Hseen'. rewrite Hlen. by eapply Hseen.
  - intros t'. rewrite pc_of_goto. destruct (decide (t' = t)) as [->|]; [cbn; set_solver|].
    eapply (pc_ok_mono (sys_lock s)); [| | |apply (Hpc t')].
    + intros p q _ _. by rewrite (share_bounds _ _ _ _ Hb).
    + intros p Hp [?|Hpr%list_elem_of_singleton]%elem_of_app; [done|]. subst p. by destruct (Hrs t').
    + cbn. set_solver.
  - intros p q Hp Hq Hpq. rewrite (share_bounds _ _ _ _ Hb).
    apply elem_of_app in Hp as [Hp|Hp%list_elem_of_singleton];
      apply elem_of_app in Hq as [Hq|Hq%list_elem_of_singleton]; subst; [by apply Hdis|by apply Hfree| |done].
    rewrite share_comm. by apply Hfree.
Qed.

Lemma unlock_heap_ne w mn mx p :
  at_range w mn mx p = false → wl_heap (WriteLock_UnlockRange w mn mx) !! p = wl_heap w !! p.
Proof.
  intros Hp. unfold WriteLock_UnlockRange. cbn [wl_heap].
  assert (Hall : Forall (λ q, q ≠ p) (filter (λ q, at_range w mn mx q) (wl_ranges w))).
  { apply Forall_forall. intros q [Hq _]%list_elem_of_filter ->. by rewrite Hp in Hq. }
  induction Hall as [|q l Hq _ IH]; [done|]. cbn. by rewrite list_lookup_alter_ne.
Qed.

(** With distinct calls [UnlockRange] finds the goroutine's own lock only. *)
Lemma at_range_own w r l p :
  NoDup (bounds (wl_heap w)) → wl_heap w !! r = Some l →
  at_range w (rl_min l) (rl_max l) p = true ↔ p = r.
Proof.
  intros Hnd Hl. unfold at_range, same_range. split.
  - destruct (wl_heap w !! p) as [l'|] eqn:Hl'; [|done].
    intros [H1%Z.eqb_eq H2%Z.eqb_eq]%andb_true_iff.
    eapply (NoDup_lookup _ p r (rl_min l, rl_max l)); [exact Hnd| |];
      unfold bounds; rewrite list_lookup_fmap; [rewrite Hl'|rewrite Hl]; cbn; congruence.
  - intros ->. by rewrite Hl, !Z.eqb_refl.
Qed.

Lemma release_step s t r l :
  lock_inv s → NoDup (bounds (wl_heap (sys_lock s))) →
  pc_of s t = Holding r → wl_heap (sys_lock s) !! r = Some l →
  lock_inv (mkSystem (WriteLock_UnlockRange (sys_lock s) (rl_min l) (rl_max l)) (<[t := Idle]> (sys_pcs s))).
Proof.
  intros [Hlk Hown Hinj Hwait Hseen Hpc Hdis] Hnd Hhold Hl.
  pose proof (bounds_UnlockRange (sys_lock s) (rl_min l) (rl_max l)) as Hb.
  pose proof (bounds_length _ _ Hb) as Hlen.
  pose proof (λ p, at_range_own (sys_lock s) r l p Hnd Hl) as Hat.
  pose proof (unlock_heap_ne (sys_lock s) (rl_min l) (rl_max l)) as Hne.
  assert (Hrg : ∀ p, p ∈ wl_ranges (WriteLock_UnlockRange (sys_lock s) (rl_min l) (rl_max l)) ↔
    p ∈ wl_ranges (sys_lock s) ∧ p ≠ r).
  { intros p. cbn. rewrite list_elem_of_filter, <- Hat. destruct (at_range _ _ _ p); naive_solver. }
  set (w := WriteLock_UnlockRange _ _ _) in *.
  assert (Hold : ∀ t' (A : Type) (f : PC → option A) x, f Idle = None →
    f (pc_of (mkSystem w (<[t:=Idle]> (sys_pcs s))) t') = Some x → t' ≠ t ∧ f (pc_of s t') = Some x).
  { intros t' A f x Hf. rewrite pc_of_goto. destruct (decide (t' = t)) as [->|]; [by rewrite Hf|done]. }
  assert (Hseen' : ∀ t' p, p ∈ seen (pc_of (mkSystem w (<[t:=Idle]> (sys_pcs s))) t') →
    p ∈ seen (pc_of s t')).
  { intros t' p. rewrite pc_of_goto. destruct (decide (t' = t)) as [->|]; [by intros ?%not_elem_of_nil|done]. }
  split; cbn [sys_lock].
  - intros p [Hp Hpr]%Hrg. destruct (Hlk p Hp) as (l' & ? & ?). exists l'. split; [|done].
    rewrite Hne; [done|]. apply not_true_iff_false. by rewrite Hat.
  - intros t' q [_ H]%(Hold t' _ own); [|done]. rewrite Hlen. by eapply Hown.
  - intros t1 t2 q [_ H1]%(Hold t1 _ own) [_ H2]%(Hold t2 _ own); [|done..]. by eapply Hinj.
  - intros t' q [_ H]%(Hold t' _ waiting); [|done]. destruct (Hwait t' q H) as [H1 H2].
    split; [by intros [? _]%Hrg|]. intros t'' Hin%Hseen'. by apply (H2 t'').
  - intros t' p H%Hseen'. rewrite Hlen. by eapply Hseen.
  - intros t'. rewrite pc_of_goto. destruct (decide (t' = t)) as [->|Hn]; [done|].
    eapply (pc_ok_mono (sys_lock s)); [| | |apply (Hpc t')].
    + intros p q _ _. by rewrite (share_bounds _ _ _ _ Hb).
    + by intros p _ [? _]%Hrg.
    + intros q Hq Hin. apply Hrg. split; [done|]. intros ->. apply Hn, (Hinj t' t r); [|by rewrite Hhold].
      change (pc_of s t' = Holding r) in Hq. by rewrite Hq.
  - intros p q [Hp _]%Hrg [Hq _]%Hrg Hpq. rewrite (share_bounds _ _ _ _ Hb). by apply Hdis.
Qed.

(** ** Steps *)

Lemma share_overlaps h p q lp lq :
  h !! p = Some lp → h !! q = Some lq → share h p q → rangeLock_overlaps lp lq = true.
Proof.
  intros Hp Hq (a & b & c & d & x & H1 & H2 & Hx1 & Hx2). unfold bounds in *.
  rewrite list_lookup_fmap, Hp in H1. rewrite list_lookup_fmap, Hq in H2. cbn in *. simplify_eq.
  by apply (overlaps_common _ _ x).
Qed.

Lemma gone_snoc w r dn rr :
  gone w r dn → (share (wl_heap w) rr r → rr ∉ wl_ranges w) → gone w r (dn ++ [rr]).
Proof. intros Hg Hrr p [Hp|Hp%list_elem_of_singleton]%elem_of_app; [by apply Hg|by subst]. Qed.

Lemma set_mu_others b rr w p l :
  rr ∉ wl_ranges w → p ∈ wl_ranges w → wl_heap w !! p = Some l →
  wl_heap (set_mu b rr w) !! p = Some l.
Proof. intros Hrr Hp Hl. cbn. rewrite list_lookup_alter_ne by (by intros ->). done. Qed.

Lemma gone_set_mu b rr w r ps : gone w r ps → gone (set_mu b rr w) r ps.
Proof.
  apply gone_mono; [|done]. intros p _. by rewrite (share_bounds _ _ _ _ (bounds_set_mu b rr w)).
Qed.

(** One range of the snapshot is checked. *)
Lemma check_step s t r rs rr todo s' :
  lock_inv s → pc_of s t = Checking r rs (rr :: todo) →
  LockRange_step s t Run = Some s' → lock_inv s'.
Proof.
  intros Hinv Hpc Hstep. pose proof (inv_pc s Hinv t) as Hok. rewrite Hpc in Hok.
  destruct Hok as (dn & -> & Hg). unfold LockRange_step, goto in Hstep. rewrite Hpc in Hstep.
  destruct (wl_heap (sys_lock s) !! rr) as [lrr|] eqn:Hlrr; [|done].
  destruct (wl_heap (sys_lock s) !! r) as [lr|] eqn:Hlr; [|done].
  destruct (rangeLock_overlaps lrr lr) eqn:Hov.
  - destruct (rl_locked lrr) eqn:Hlk; [done|]. simplify_eq.
    assert (Hrr : rr ∉ wl_ranges (sys_lock s)).
    { intros Hin. destruct (inv_locked s Hinv rr Hin) as (l & ? & ?). congruence. }
    apply quiet_step; rewrite ?Hpc; try done.
    + apply bounds_set_mu.
    + intros p l. by apply (set_mu_others _ rr (sys_lock s)).
    + by left.
    + exists dn. split_and!; [done|by apply gone_set_mu|done].
  - simplify_eq. apply quiet_step; rewrite ?Hpc; try done; [by left|].
    exists (dn ++ [rr]). split; [by rewrite <- app_assoc|]. apply gone_snoc; [done|].
    intros Hsh. by rewrite (share_overlaps _ _ _ _ _ Hlrr Hlr Hsh) in Hov.
Qed.

Lemma compare_step s t r rs s' :
  lock_inv s → calls_distinct s → pc_of s t = Comparing r rs →
  LockRange_step s t Run = Some s' → lock_inv s'.
Proof.
  intros Hinv Hcd Hpc Hstep. unfold LockRange_step, goto in Hstep. rewrite Hpc in Hstep.
  destruct (_ || _) eqn:Hcmp; simplify_eq.
  - apply (acquire_step s t r rs); [done..|]. intros p Hp.
    apply orb_true_iff in Hcmp as [He%bool_decide_eq_true|He]; [rewrite He in Hp; set_solver|].
    rewrite (DeepEqual_distinct (sys_lock s) rs (wl_ranges (sys_lock s)) Hcd); [done| | |done].
    + intros q Hq. apply (inv_seen s Hinv t). by rewrite Hpc.
    + intros q (l & Hl & _)%(inv_locked s Hinv). by apply lookup_lt_Some in Hl.
  - apply quiet_step; rewrite ?Hpc; try done. cbn. set_solver.
Qed.

Lemma lock_inv_step s t a s' :
  lock_inv s → calls_distinct s → LockRange_step s t a = Some s' → lock_inv s'.
Proof.
  intros Hinv Hcd Hstep. pose proof (inv_pc s Hinv t) as Hok.
  destruct (pc_of s t) as [|r|r rs [|rr todo]|r rs rr todo|r rs|r] eqn:Hpc;
    [| | |by destruct a; [by unfold LockRange_step in Hstep; rewrite Hpc in Hstep| |by unfold LockRange_step in Hstep; rewrite Hpc in Hstep]; eapply check_step| | |].
  all: destruct a; try (by eapply compare_step);
    unfold LockRange_step, goto in Hstep; rewrite Hpc in Hstep; simplify_eq.
  - by apply call_step.
  - apply quiet_step; rewrite ?Hpc; try done; [by right|]. exists []. split; [done|].
    by intros p ?%not_elem_of_nil.
  - apply quiet_step; rewrite ?Hpc; try done; [by left|].
    cbn in Hok. destruct Hok as (dn & -> & Hg). cbn. by rewrite app_nil_r.
  - cbn in Hok. destruct Hok as (dn & -> & Hg & Hrr). apply quiet_step; rewrite ?Hpc; try done.
    + apply bounds_set_mu.
    + intros p l. by apply (set_mu_others _ rr (sys_lock s)).
    + by left.
    + exists (dn ++ [rr]). split; [by rewrite <- app_assoc|]. apply gone_snoc; [by apply gone_set_mu|done].
  - destruct (wl_heap (sys_lock s) !! r) as [l|] eqn:Hl; [|done]. simplify_eq. by eapply release_step.
Qed.

Lemma lock_inv_new : lock_inv System_new.
Proof. split; unfold pc_of; cbn; intros; rewrite ?lookup_empty in *; set_solver. Qed.

Lemma calls_distinct_run s s' : rtc sys_step s s' → calls_distinct s' → calls_distinct s.
Proof. induction 1 as [|s1 s2 s3 (t & a & H) _ IH]; [done|]. intros Hc. by eapply calls_distinct_step, IH. Qed.

Lemma lock_inv_run s s' : rtc sys_step s s' → lock_inv s → calls_distinct s' → lock_inv s'.
Proof.
  induction 1 as [|s1 s2 s3 (t & a & H) Hr IH]; [done|]. intros Hinv Hc.
  apply IH; [|done]. eapply lock_inv_step; [done| |exact H].
  eapply calls_distinct_step; [exact H|]. by eapply calls_distinct_run.
Qed.

Lemma run_schedule_rtc l s s' : run_schedule s l = Some s' → rtc sys_step s s'.
Proof.
  revert s. induction l as [|[t a] l IH]; intros s; cbn; [by intros [= ->]|].
  destruct (LockRange_step s t a) as [s1|] eqn:H; [|done].
  intros Hr%IH. eapply rtc_l; [|exact Hr]. by exists t, a.
Qed.

Lemma range_of_bounds s r ab : range_of s r = Some ab → bounds (wl_heap (sys_lock s)) !! r = Some ab.
Proof. unfold range_of, bounds. by rewrite list_lookup_fmap. Qed.

Lemma lock_inv_no_clash s : lock_inv s → ¬ clash s.
Proof.
  intros Hinv (t1 & t2 & r1 & r2 & a1 & b1 & a2 & b2 & x & Ht & H1 & H2 & Hr1 & Hr2 & Hx1 & Hx2).
  pose proof (inv_pc s Hinv t1) as Hp1. pose proof (inv_pc s Hinv t2) as Hp2.
  rewrite H1 in Hp1. rewrite H2 in Hp2.
  apply (inv_disjoint s Hinv r1 r2 Hp1 Hp2).
  - intros ->. apply Ht, (inv_inj s Hinv t1 t2 r2); [by rewrite H1|by rewrite H2].
  - exists a1, b1, a2, b2, x. split_and!; first [by apply range_of_bounds|lia].
Qed.

(** ** A call that meets no overlapping range *)

Lemma DeepEqual_refl w ps : DeepEqual w ps ps = true.
Proof.
  induction ps as [|p ps IH]; [done|]. cbn. rewrite IH, andb_true_r.
  unfold ptr_DeepEqual. by rewrite bool_decide_eq_true_2.
Qed.

Definition no_overlap (w : WriteLock) (r : nat) (ps : list nat) : Prop :=
  ∀ p, p ∈ ps → ∃ lp lr, wl_heap w !! p = Some lp ∧ wl_heap w !! r = Some lr ∧
    rangeLock_overlaps lp lr = false.

Lemma run_schedule_app l1 l2 s : run_schedule s (l1 ++ l2) = run_schedule s l1 ≫= λ s', run_schedule s' l2.
Proof.
  revert s. induction l1 as [|[t a] l1 IH]; intros s; [done|]. cbn.
  destruct (LockRange_step s t a); [apply IH|done].
Qed.

(** The inner loop passes over the ranges that do not overlap. *)
Lemma check_loop s t r rs todo :
  pc_of s t = Checking r rs todo → no_overlap (sys_lock s) r todo →
  ∃ s', run_schedule s (replicate (length todo) (t, Run)) = Some s' ∧
    sys_lock s' = sys_lock s ∧ pc_of s' t = Checking r rs [].
Proof.
  revert s. induction todo as [|rr todo IH]; intros s Hpc Hno; [by exists s|].
  destruct (Hno rr) as (lrr & lr & Hlrr & Hlr & Hov); [set_solver|].
  destruct (IH (mkSystem (sys_lock s) (<[t := Checking r rs todo]> (sys_pcs s)))) as (s' & Hs' & Hw & Hpc').
  - rewrite pc_of_goto. by rewrite decide_True.
  - intros p Hp. apply Hno. set_solver.
  - exists s'. split; [|done]. cbn [length replicate run_schedule].
    unfold LockRange_step, goto. by rewrite Hpc, Hlrr, Hlr, Hov.
Qed.

Lemma grant_steps s t r rs :
  pc_of s t = Checking r rs [] → wl_ranges (sys_lock s) = rs →
  ∃ s', run_schedule s [(t, Run); (t, Run)] = Some s' ∧
    pc_of s' t = Holding r ∧ wl_ranges (sys_lock s') = wl_ranges (sys_lock s) ++ [r].
Proof.
  intros Hpc Hrs. cbn [run_schedule]. unfold LockRange_step at 1, goto. rewrite Hpc.
  unfold LockRange_step. rewrite pc_of_goto, decide_True by done. cbn [sys_lock sys_pcs].
  rewrite Hrs, DeepEqual_refl, orb_true_r. eexists. split; [done|]. split; [|cbn; by rewrite Hrs].
  by rewrite pc_of_goto, decide_True.
Qed.

(** ** Theorems *)

(** C35: [LockRange] is exclusive when no two calls ask for the same range: in
    every state that any interleaving of calls, steps and [UnlockRange]s
    reaches, no two goroutines hold ranges with a common element. *)
Theorem LockRange_mutual_exclusion s :
  rtc sys_step System_new s → calls_distinct s → ¬ clash s.
Proof. intros Hr Hc. eapply lock_inv_no_clash, lock_inv_run; [exact Hr|apply lock_inv_new|done]. Qed.

(** Goroutine 0 locks 0 to 10, goroutine 1 asks for 5 to 15 and sees it,
    goroutine 0 unlocks and goroutine 1 gets its range. *)
Definition handover : list (nat * Action) :=
  [(0%nat, Call 0 10); (0%nat, Run); (0%nat, Run); (0%nat, Run);
   (1%nat, Call 5 15); (1%nat, Run); (0%nat, Unlock);
   (1%nat, Run); (1%nat, Run); (1%nat, Run); (1%nat, Run)].

Lemma LockRange_mutual_exclusion_witness :
  let s := default System_new (run_schedule System_new handover) in
  calls_distinct s ∧ pc_of s 1 = Holding 1 ∧ ¬ clash s.
Proof.
  cbv zeta. split_and!.
  - apply (bool_decide_unpack (NoDup _)). vm_compute. exact I.
  - vm_compute. reflexivity.
  - apply LockRange_mutual_exclusion.
    + apply (run_schedule_rtc handover). vm_compute. reflexivity.
    + apply (bool_decide_unpack (NoDup _)). vm_compute. exact I.
Defined.

(** Goroutine 0 locks 0 to 10; goroutines 1 and 2 ask for 5 to 15 and 5 to 16
    and take their snapshots; goroutine 0 unlocks and locks 0 to 10 again;
    goroutine 1 gets past the old lock; goroutine 2 takes the old lock's mutex;
    goroutine 1 compares. *)
Definition relock : list (nat * Action) :=
  [(0%nat, Call 0 10); (0%nat, Run); (0%nat, Run); (0%nat, Run);
   (1%nat, Call 5 15); (1%nat, Run); (2%nat, Call 5 16); (2%nat, Run);
   (0%nat, Unlock); (0%nat, Call 0 10); (0%nat, Run); (0%nat, Run); (0%nat, Run);
   (1%nat, Run); (1%nat, Run); (1%nat, Run);
   (2%nat, Run); (1%nat, Run)].

(** Without that condition it is not: [reflect.DeepEqual] compares what the
    pointers of the two slices point to, so when a range was unlocked and
    locked again by a second call, and a third goroutine is just passing through
    the old mutex, the stale snapshot equals the current slice and [LockRange]
    grants an overlapping range. *)
Theorem LockRange_relocked_range_clash :
  ∃ s, rtc sys_step System_new s ∧ clash s.
Proof.
  destruct (run_schedule System_new relock) as [s|] eqn:Hs; [|by vm_compute in Hs].
  exists s. split; [by apply (run_schedule_rtc relock)|].
  vm_compute in Hs. injection Hs as <-.
  exists 0%nat, 1%nat, 3%nat, 1%nat, 0, 10, 5, 15, 7. split_and!; try done; lia.
Qed.

(** [LockRange] does not wait for ranges that do not overlap: when no range
    that is locked overlaps the one asked for, the goroutine has it after one
    pass over the slice if no other goroutine interferes. *)
Theorem LockRange_uncontended s t r :
  pc_of s t = Snapshot r → no_overlap (sys_lock s) r (wl_ranges (sys_lock s)) →
  ∃ s', run_schedule s (replicate (length (wl_ranges (sys_lock s)) + 3) (t, Run)) = Some s' ∧
    pc_of s' t = Holding r ∧ wl_ranges (sys_lock s') = wl_ranges (sys_lock s) ++ [r].
Proof.
  intros Hpc Hno. set (rs := wl_ranges (sys_lock s)) in *.
  destruct (check_loop (mkSystem (sys_lock s) (<[t := Checking r rs rs]> (sys_pcs s))) t r rs rs)
    as (s1 & Hs1 & Hw & Hpc1); [by rewrite pc_of_goto, decide_True|done|].
  destruct (grant_steps s1 t r rs Hpc1) as (s' & Hs' & Hpc' & Hrs'); [by rewrite Hw|].
  exists s'. split; [|split; [done|by rewrite Hrs', Hw]].
  replace (length rs + 3)%nat with (S (length rs + 2)) by lia. cbn [replicate run_schedule].
  unfold LockRange_step at 1, goto. rewrite Hpc, replicate_add, run_schedule_app.
  unfold WriteLock_currentlyLockedRanges. fold rs. rewrite Hs1. exact Hs'.
Qed.

(** In the state [handover] starts from, a goroutine whose range is apart. *)
Lemma LockRange_uncontended_witness :
  ∃ s s', run_schedule System_new [(0%nat, Call 0 10); (0%nat, Run); (0%nat, Run); (0%nat, Run);
      (1%nat, Call 11 15)] = Some s ∧ wl_ranges (sys_lock s) = [0%nat] ∧
    run_schedule s (replicate 4 (1%nat, Run)) = Some s' ∧ pc_of s' 1 = Holding 1.
Proof.
  eexists. destruct (LockRange_uncontended
    (mkSystem (mkWriteLock [RangeLock true 0 10; RangeLock false 11 15] [0%nat])
       (<[1%nat := Snapshot 1]> {[0%nat := Holding 0]})) 1 1) as (s' & Hs' & Hpc & _).
  - reflexivity.
  - intros p ->%list_elem_of_singleton. by eexists _, _.
  - exists s'. split; [vm_compute; reflexivity|]. split; [reflexivity|]. split; [exact Hs'|exact Hpc].
Defined.
