(* ===== verification/HhQueue.v ===== *)
(** * The disk queue of hinted handoff: [services/hh/queue.go]

    A queue of byte slices in a directory of segment files.  The state is the
    directory, the heap of [segment]s (a [*segment] is an index) and the fields
    of the [queue].  An exported method is one atomic operation: all but [Current]
    hold the queue's mutex while they run; [Current] holds only that of the head
    segment, and reads the head pointer unprotected (its one caller, [SendWrite],
    runs in the goroutine that also advances and purges).  Files are written and read at the offset of their handle,
    as the operating system does; a system call fails only for the reasons the
    state shows (a closed handle, a missing file, a bad offset). *)

From stdpp Require Import base list gmap strings.
From Stdlib Require Import ZArith Lia DecimalString.
From S2P Require Import Prelude Binary.

Local Open Scope Z_scope.

(** [ErrMsg] stands for the errors made with [fmt.Errorf] on the spot, [EINVAL]
    and [ENOENT] for those of the operating system.  [OutOfFuel] is no error of
    the code: the loop of [PurgeOlderThan] was cut off. *)
Inductive hhError :=
| ErrNotOpen
| ErrQueueFull
| ErrSegmentFull
| ErrEOF
| EINVAL
| ENOENT
| ErrMsg (msg : string)
| OutOfFuel.

#[export] Instance hhError_eq_dec : EqDecision hhError.
Proof. solve_decision. Defined.

Definition defaultSegmentSize : Z := 10 * 1024 * 1024.
Definition footerSize : Z := 8.

(** ** State *)

Inductive inode :=
| FileNode (content : list Z) (mtime : Time)
| DirNode.

(** [seg_file] is the offset of the open handle, [None] for a nil [file];
    [seg_path] is relative to the directory of the queue. *)
Record segment := mkSegment {
  seg_size : Z;
  seg_file : option Z;
  seg_path : string;
  seg_pos : Z;
  seg_currentSize : Z;
  seg_maxSize : Z
}.

(** A nil [segments] slice is [None]. *)
Record queue := mkQueue {
  q_head : option nat;
  q_tail : option nat;
  q_maxSegmentSize : Z;
  q_maxSize : Z;
  q_segments : option (list nat)
}.

(** [h_dir] is the directory of the queue, [None] when it does not exist. *)
Record HhState := mkHh {
  h_dir : option (gmap string inode);
  h_now : Time;
  h_heap : list segment;
  h_queue : queue
}.

Definition set_dir (d : option (gmap string inode)) (h : HhState) : HhState :=
  mkHh d (h_now h) (h_heap h) (h_queue h).
Definition set_heap (l : list segment) (h : HhState) : HhState :=
  mkHh (h_dir h) (h_now h) l (h_queue h).
Definition set_queue (q : queue) (h : HhState) : HhState :=
  mkHh (h_dir h) (h_now h) (h_heap h) q.
Definition set_now (t : Time) (h : HhState) : HhState :=
  mkHh (h_dir h) t (h_heap h) (h_queue h).

Definition set_seg_size (x : Z) (s : segment) : segment :=
  mkSegment x (seg_file s) (seg_path s) (seg_pos s) (seg_currentSize s) (seg_maxSize s).
Definition set_seg_file (x : option Z) (s : segment) : segment :=
  mkSegment (seg_size s) x (seg_path s) (seg_pos s) (seg_currentSize s) (seg_maxSize s).
Definition set_seg_pos (x : Z) (s : segment) : segment :=
  mkSegment (seg_size s) (seg_file s) (seg_path s) x (seg_currentSize s) (seg_maxSize s).
Definition set_seg_currentSize (x : Z) (s : segment) : segment :=
  mkSegment (seg_size s) (seg_file s) (seg_path s) (seg_pos s) x (seg_maxSize s).
Definition set_seg_maxSize (x : Z) (s : segment) : segment :=
  mkSegment (seg_size s) (seg_file s) (seg_path s) (seg_pos s) (seg_currentSize s) x.

Definition set_head (p : option nat) (q : queue) : queue :=
  mkQueue p (q_tail q) (q_maxSegmentSize q) (q_maxSize q) (q_segments q).
Definition set_tail (p : option nat) (q : queue) : queue :=
  mkQueue (q_head q) p (q_maxSegmentSize q) (q_maxSize q) (q_segments q).
Definition set_maxSegmentSize (x : Z) (q : queue) : queue :=
  mkQueue (q_head q) (q_tail q) x (q_maxSize q) (q_segments q).
Definition set_segments (x : option (list nat)) (q : queue) : queue :=
  mkQueue (q_head q) (q_tail q) (q_maxSegmentSize q) (q_maxSize q) x.

Abbreviation Q := (ST HhState hhError).

(** Dereferencing a pointer: a nil pointer panics. *)
Definition deref (p : nat) : Q segment := λ h,
  match h_heap h !! p with Some s => (h, Ok s) | None => (h, Panic) end.
Definition deref_opt (p : option nat) : Q nat :=
  match p with Some p => mret p | None => st_panic end.
Definition upd_seg (p : nat) (f : segment → segment) : Q unit :=
  st_put (λ h, set_heap (alter f p (h_heap h)) h).
Definition upd_queue (f : queue → queue) : Q unit := st_put (λ h, set_queue (f (h_queue h)) h).

(** ** Files *)

Inductive Whence := SEEK_SET | SEEK_CUR | SEEK_END.

(** The bytes of an open file.  A segment is closed before its file is removed,
    so the file is found by its name. *)
Definition content_of (s : segment) : Q (list Z) := λ h,
  match h_dir h ≫= lookup (seg_path s) with
  | Some (FileNode c _) => (h, Ok c)
  | _ => (h, Err ENOENT)
  end.

Definition File_Seek (p : nat) (offset : Z) (whence : Whence) : Q Z :=
  s ← deref p;
  match seg_file s with
  | None => st_fail EINVAL
  | Some off =>
      c ← content_of s;
      let n := match whence with
               | SEEK_SET => offset
               | SEEK_CUR => off + offset
               | SEEK_END => go_len c + offset
               end in
      if n <? 0 then st_fail EINVAL
      else _ ← upd_seg p (set_seg_file (Some n)); mret n
  end.

(** Writing at an offset overwrites, extends, and fills a hole with zeros. *)
Definition write_at (off : Z) (b c : list Z) : list Z :=
  take (Z.to_nat off) (c ++ replicate (Z.to_nat off - length c) 0) ++
  b ++ drop (Z.to_nat off + length b) c.

Definition File_Write (p : nat) (b : list Z) : Q Z :=
  s ← deref p;
  match seg_file s with
  | None => st_fail EINVAL
  | Some off =>
      c ← content_of s;
      _ ← st_put (λ h, set_dir (<[seg_path s := FileNode (write_at off b c) (h_now h)]> <$> h_dir h) h);
      _ ← upd_seg p (set_seg_file (Some (off + go_len b)));
      mret (go_len b)
  end.

(** [n] bytes are asked for; fewer are returned at the end of the file. *)
Definition File_Read (p : nat) (n : Z) : Q (list Z) :=
  s ← deref p;
  match seg_file s with
  | None => st_fail EINVAL
  | Some off =>
      c ← content_of s;
      let b := take (Z.to_nat n) (drop (Z.to_nat off) c) in
      if (0 <? n) && (go_len b =? 0) then st_fail ErrEOF
      else _ ← upd_seg p (set_seg_file (Some (off + go_len b))); mret b
  end.

Definition File_Sync (p : nat) : Q unit :=
  s ← deref p;
  match seg_file s with None => st_fail EINVAL | Some _ => mret () end.

Definition File_Close (p : nat) : Q unit :=
  s ← deref p;
  match seg_file s with None => st_fail EINVAL | Some _ => mret () end.

Definition os_Remove (name : string) : Q unit := λ h,
  match h_dir h ≫= lookup name with
  | Some (FileNode _ _) => (set_dir (delete name <$> h_dir h) h, Ok ())
  | _ => (h, Err ENOENT)
  end.

(** [ioutil.ReadDir]: the entries sorted by name, byte by byte. *)
Definition ReadDir : Q (list (string * inode)) := λ h,
  match h_dir h with
  | None => (h, Err ENOENT)
  | Some d => (h, Ok (insertion_sort (λ x y, String.ltb x.1 y.1) (map_to_list d)))
  end.

(** [strconv.FormatUint(n, 10)] and [strconv.ParseUint(s, 10, 64)]. *)
Definition FormatUint (n : Z) : string := NilZero.string_of_uint (N.to_uint (Z.to_N n)).
Definition ParseUint (s : string) : option Z :=
  match NilZero.uint_of_string s with
  | Some d => let n := Z.of_N (N.of_uint d) in if n <? 2 ^ 64 then Some n else None
  | None => None
  end.

(** ** Segments *)

Definition hh_u64tob (v : Z) : list Z := BigEndian_PutUint64 v.
Definition hh_btou64 (b : list Z) : option Z := BigEndian_Uint64 b.

Definition segment_seek (p : nat) (pos : Z) : Q unit :=
  n ← File_Seek p pos SEEK_SET;
  if n =? pos then mret () else st_fail (ErrMsg "bad seek").

Definition segment_seekToCurrent (p : nat) : Q unit :=
  s ← deref p; segment_seek p (seg_pos s).

Definition segment_seekEnd (p : nat) (pos : Z) : Q unit :=
  _ ← File_Seek p pos SEEK_END; mret ().

Definition segment_readBytes (p : nat) (n : Z) : Q (list Z) :=
  b ← File_Read p n;
  if go_len b =? n then mret b else st_fail (ErrMsg "bad read").

Definition segment_readUint64 (p : nat) : Q Z :=
  b ← segment_readBytes p 8;
  match hh_btou64 b with Some v => mret v | None => st_panic end.

Definition segment_writeBytes (p : nat) (b : list Z) : Q unit :=
  n ← File_Write p b;
  if n =? go_len b then mret () else st_fail (ErrMsg "short write").

Definition segment_writeUint64 (p : nat) (sz : Z) : Q unit := segment_writeBytes p (hh_u64tob sz).

Definition segment_open (p : nat) : Q unit :=
  s ← deref p;
  if seg_size s =? 0 then
    _ ← upd_seg p (set_seg_pos 0);
    _ ← upd_seg p (set_seg_currentSize 0);
    _ ← segment_writeUint64 p (u64 0);
    _ ← File_Sync p;
    upd_seg p (set_seg_size footerSize)
  else
    _ ← segment_seekEnd p (- footerSize);
    pos ← segment_readUint64 p;
    _ ← upd_seg p (set_seg_pos (i64 pos));
    _ ← segment_seekToCurrent p;
    s ← deref p;
    if seg_pos s <? i64 (seg_size s - footerSize) then
      currentSize ← segment_readUint64 p;
      upd_seg p (set_seg_currentSize (i64 currentSize))
    else mret ().

(** [os.OpenFile] creates a missing file. *)
Definition newSegment (path : string) (maxSize : Z) : Q nat := λ h,
  match h_dir h with
  | None => (h, Err ENOENT)
  | Some d =>
      match default (FileNode [] (h_now h)) (d !! path) with
      | DirNode => (h, Err EINVAL)
      | FileNode c t =>
          let p := length (h_heap h) in
          let s := mkSegment (go_len c) (Some 0) path 0 0 maxSize in
          (_ ← segment_open p; mret p)
            (set_heap (h_heap h ++ [s]) (set_dir (Some (<[path := FileNode c t]> d)) h))
      end
  end.

Definition segment_append (p : nat) (b : list Z) : Q unit :=
  s ← deref p;
  match seg_file s with
  | None => st_fail ErrNotOpen
  | Some _ =>
      if seg_maxSize s <? i64 (seg_size s + go_len b) then st_fail ErrSegmentFull
      else
        _ ← segment_seekEnd p (- footerSize);
        _ ← segment_writeUint64 p (u64 (go_len b));
        _ ← segment_writeBytes p b;
        _ ← segment_writeUint64 p (u64 (seg_pos s));
        _ ← File_Sync p;
        _ ← (if seg_currentSize s =? 0 then upd_seg p (set_seg_currentSize (go_len b)) else mret ());
        upd_seg p (λ s, set_seg_size (i64 (seg_size s + (go_len b + 8))) s)
  end.

Definition segment_current (p : nat) : Q (list Z) :=
  s ← deref p;
  if seg_pos s =? i64 (seg_size s - 8) then st_fail ErrEOF
  else
    _ ← segment_seekToCurrent p;
    sz ← segment_readUint64 p;
    _ ← upd_seg p (set_seg_currentSize (i64 sz));
    if seg_maxSize s <? i64 sz then st_fail (ErrMsg "record size out of range")
    else if 2 ^ 63 <=? sz then st_panic (* make([]byte, sz) *)
    else segment_readBytes p sz.

Definition segment_advance (p : nat) : Q unit :=
  s ← deref p;
  match seg_file s with
  | None => st_fail ErrNotOpen
  | Some _ =>
      if seg_pos s =? i64 (seg_size s - footerSize) then
        _ ← upd_seg p (set_seg_currentSize 0); st_fail ErrEOF
      else
        _ ← segment_seekEnd p (- footerSize);
        let pos := i64 (seg_pos s + seg_currentSize s + 8) in
        _ ← segment_writeUint64 p (u64 pos);
        _ ← File_Sync p;
        _ ← upd_seg p (set_seg_pos pos);
        _ ← segment_seekToCurrent p;
        sz ← segment_readUint64 p;
        _ ← upd_seg p (set_seg_currentSize (i64 sz));
        if pos =? i64 (seg_size s - footerSize) then
          _ ← upd_seg p (set_seg_currentSize 0); st_fail ErrEOF
        else mret ()
  end.

Definition segment_close (p : nat) : Q unit :=
  _ ← File_Close p; upd_seg p (set_seg_file None).

(** [stats.ModTime()] *)
Definition os_Stat_ModTime (name : string) : Q Time := λ h,
  match h_dir h ≫= lookup name with
  | Some (FileNode _ t) => (h, Ok t)
  | _ => (h, Err ENOENT)
  end.

(** [l.file.Name()] on a nil file panics. *)
Definition segment_lastModified (p : nat) : Q Time :=
  s ← deref p;
  match seg_file s with
  | None => st_panic
  | Some _ => os_Stat_ModTime (seg_path s)
  end.

Definition segment_diskUsage (p : nat) : Q Z := s ← deref p; mret (seg_size s).

Definition segment_SetMaxSegmentSize (p : nat) (size : Z) : Q unit := upd_seg p (set_seg_maxSize size).

(** ** The queue *)

Definition newQueue (maxSize : Z) : queue :=
  mkQueue None None defaultSegmentSize maxSize (Some []).

Definition get_segments : Q (list nat) := st_get (λ h, default [] (q_segments (h_queue h))).

(** The numbers of the segment files; directories and other names are skipped. *)
Definition segment_ids (files : list (string * inode)) : list Z :=
  omap (λ f, match f.2 with DirNode => None | FileNode _ _ => ParseUint f.1 end) files.

Definition queue_nextSegmentID : Q Z :=
  files ← ReadDir;
  mret (u64 (foldl (λ maxID id, if maxID <? id then id else maxID) 0 (segment_ids files) + 1)).

Definition queue_addSegment : Q nat :=
  nextID ← queue_nextSegmentID;
  q ← st_get h_queue;
  p ← newSegment (FormatUint nextID) (q_maxSegmentSize q);
  _ ← upd_queue (λ q, set_segments (Some (default [] (q_segments q) ++ [p])) q);
  mret p.

Fixpoint load_loop (files : list (string * inode)) (maxSegmentSize : Z) : Q (list nat) :=
  match files with
  | [] => mret []
  | (name, DirNode) :: files => load_loop files maxSegmentSize
  | (name, FileNode _ _) :: files =>
      match ParseUint name with
      | None => load_loop files maxSegmentSize
      | Some _ =>
          p ← newSegment name maxSegmentSize;
          ps ← load_loop files maxSegmentSize;
          mret (p :: ps)
      end
  end.

Definition queue_loadSegments : Q (list nat) :=
  files ← ReadDir;
  q ← st_get h_queue;
  load_loop files (q_maxSegmentSize q).

Fixpoint usage_loop (ps : list nat) (size : Z) : Q Z :=
  match ps with
  | [] => mret size
  | p :: ps => n ← segment_diskUsage p; usage_loop ps (i64 (size + n))
  end.
Definition queue_diskUsage : Q Z := ps ← get_segments; usage_loop ps 0.

Definition queue_trimHead : Q unit :=
  ps ← get_segments;
  match ps with
  | _ :: (p :: _) as rest =>
      _ ← upd_queue (set_segments (Some rest));
      q ← st_get h_queue;
      hd ← deref_opt (q_head q);
      _ ← segment_close hd;
      s ← deref hd;
      _ ← os_Remove (seg_path s);
      upd_queue (set_head (Some p))
  | _ => mret ()
  end.

Definition queue_Open : Q unit :=
  ps ← queue_loadSegments;
  _ ← upd_queue (set_segments (Some ps));
  _ ← (match ps with [] => _ ← queue_addSegment; mret () | _ => mret () end);
  ps ← get_segments;
  hd ← deref_opt (head ps);
  _ ← upd_queue (set_head (Some hd));
  _ ← upd_queue (set_tail (last ps));
  r ← st_try (segment_current hd);
  match r with
  | inr ErrEOF => queue_trimHead
  | _ => mret ()
  end.

Fixpoint close_loop (ps : list nat) : Q unit :=
  match ps with
  | [] => mret ()
  | p :: ps => _ ← segment_close p; close_loop ps
  end.

Definition queue_Close : Q unit :=
  ps ← get_segments;
  _ ← close_loop ps;
  _ ← upd_queue (set_head None);
  _ ← upd_queue (set_tail None);
  upd_queue (set_segments None).

Definition queue_Remove : Q unit :=
  q ← st_get h_queue;
  match q_head q, q_tail q, q_segments q with
  | None, None, None => st_put (set_dir None)
  | _, _, _ => st_fail (ErrMsg "queue is open")
  end.

Fixpoint resize_loop (ps : list nat) (size : Z) : Q unit :=
  match ps with
  | [] => mret ()
  | p :: ps => _ ← segment_SetMaxSegmentSize p size; resize_loop ps size
  end.

Definition queue_SetMaxSegmentSize (size : Z) : Q unit :=
  _ ← upd_queue (set_maxSegmentSize size);
  ps ← get_segments;
  _ ← resize_loop ps size;
  q ← st_get h_queue;
  tl ← deref_opt (q_tail q);
  n ← segment_diskUsage tl;
  if size <=? n then
    p ← queue_addSegment;
    upd_queue (set_tail (Some p))
  else mret ().

(** The loop of [PurgeOlderThan].  Each round removes a segment, and a segment
    added by it is modified now: one round per segment and one more are enough
    when the cutoff is not in the future. *)
Fixpoint purge_loop (fuel : nat) (cutoff : Time) : Q unit :=
  match fuel with
  | O => st_fail OutOfFuel
  | S fuel =>
      q ← st_get h_queue;
      hd ← deref_opt (q_head q);
      mod_ ← segment_lastModified hd;
      if Time_After mod_ cutoff || (mod_ =? cutoff) then mret ()
      else
        ps ← get_segments;
        _ ← (if Nat.eqb (length ps) 1 then _ ← queue_addSegment; mret () else mret ());
        _ ← queue_trimHead;
        purge_loop fuel cutoff
  end.

Definition Second : Duration := 1000000000.

Definition queue_PurgeOlderThan (when : Time) : Q unit :=
  ps ← get_segments;
  match ps with
  | [] => mret ()
  | _ => purge_loop (S (length ps)) (Time_Truncate when Second)
  end.

Definition queue_LastModified : Q Time :=
  q ← st_get h_queue;
  match q_tail q with
  | Some tl => segment_lastModified tl
  | None => mret Time_zero
  end.

(** The outer [return nil] is reached after an error of [append] too, unless it
    is [ErrSegmentFull]. *)
Definition queue_Append (b : list Z) : Q unit :=
  q ← st_get h_queue;
  match q_tail q with
  | None => st_fail ErrNotOpen
  | Some tl =>
      usage ← queue_diskUsage;
      if q_maxSize q <? i64 (usage + go_len b) then st_fail ErrQueueFull
      else
        r ← st_try (segment_append tl b);
        match r with
        | inr ErrSegmentFull =>
            p ← queue_addSegment;
            _ ← upd_queue (set_tail (Some p));
            segment_append p b
        | _ => mret ()
        end
  end.

Definition queue_Current : Q (list Z) :=
  q ← st_get h_queue;
  match q_head q with
  | None => st_fail ErrNotOpen
  | Some hd => segment_current hd
  end.

(** An error of [advance] other than [io.EOF] is not returned. *)
Definition queue_Advance : Q unit :=
  q ← st_get h_queue;
  match q_head q with
  | None => st_fail ErrNotOpen
  | Some hd =>
      r ← st_try (segment_advance hd);
      match r with
      | inr ErrEOF => queue_trimHead
      | _ => mret ()
      end
  end.
