(* ===== verification/HhSegment.v ===== *)
(** * Segments of the disk queue

    What the methods of [segment] do to a segment file that holds a list of
    blocks: each is run on an explicit state, the file operations first. *)

From stdpp Require Import base list gmap strings.
From Stdlib Require Import ZArith Lia.
From S2P Require Import Prelude Binary HhQueue.

Local Open Scope Z_scope.

(** ** The layout of a segment file *)

(** A block is its length and its bytes; the footer is the offset of the first
    block that was not consumed ([dn] are the consumed ones). *)
Definition block (b : list Z) : list Z := hh_u64tob (go_len b) ++ b.
Definition blocks (l : list (list Z)) : list Z := l ≫= block.
Definition layout (dn rest : list (list Z)) : list Z :=
  blocks dn ++ blocks rest ++ hh_u64tob (go_len (blocks dn)).

(** The length of the first block that is left, 0 if there is none. *)
Definition first_len (rest : list (list Z)) : Z :=
  match rest with [] => 0 | b :: _ => go_len b end.

Lemma go_len_u64tob v : go_len (hh_u64tob v) = 8.
Proof. unfold go_len, hh_u64tob. by rewrite PutUint64_length. Qed.

Lemma go_len_block b : go_len (block b) = 8 + go_len b.
Proof. unfold block. by rewrite go_len_app, go_len_u64tob. Qed.

Lemma blocks_app l k : blocks (l ++ k) = blocks l ++ blocks k.
Proof. apply bind_app. Qed.

Lemma blocks_cons b l : blocks (b :: l) = block b ++ blocks l.
Proof. done. Qed.

Lemma blocks_singleton b : blocks [b] = block b.
Proof. unfold blocks. cbn. by rewrite app_nil_r. Qed.

Lemma go_len_layout dn rest : go_len (layout dn rest) = go_len (blocks dn) + go_len (blocks rest) + 8.
Proof. unfold layout. rewrite !go_len_app, go_len_u64tob. lia. Qed.

(** ** Writing and reading at an offset *)

Lemma write_at_footer x old b :
  length old = length b → write_at (go_len x) b (x ++ old) = x ++ b.
Proof.
  intros Hl. unfold write_at, go_len. rewrite Nat2Z.id, take_app_le by (rewrite length_app; lia).
  rewrite take_app_length. f_equal. rewrite drop_ge; [apply app_nil_r|]. rewrite length_app. lia.
Qed.

Lemma write_at_end x b : write_at (go_len x) b x = x ++ b.
Proof.
  unfold write_at, go_len. rewrite Nat2Z.id, take_app_length, drop_ge by lia. by rewrite app_nil_r.
Qed.

Lemma read_at {A} (x y z : list A) : take (length y) (drop (Z.to_nat (go_len x)) (x ++ y ++ z)) = y.
Proof. unfold go_len. by rewrite Nat2Z.id, drop_app_length, take_app_length. Qed.

(** ** File operations on an explicit state *)

Section explicit.
Context (h : HhState) (d : gmap string inode) (p : nat) (path : string) (mx : Z).
Context (Hp : (p < length (h_heap h))%nat) (Hd : h_dir h = Some d).

(** The state [h] with segment [p] and its file set. *)
Definition U (size : Z) (file : option Z) (pos cur : Z) (c : list Z) (t : Time) : HhState :=
  mkHh (Some (<[path := FileNode c t]> d)) (h_now h)
    (<[p := mkSegment size file path pos cur mx]> (h_heap h)) (h_queue h).

Lemma U_same size file pos cur c t :
  h_heap h !! p = Some (mkSegment size file path pos cur mx) → d !! path = Some (FileNode c t) →
  U size file pos cur c t = h.
Proof.
  intros Hs Hf. unfold U. rewrite insert_id, list_insert_id by done. destruct h; cbn in *. congruence.
Qed.

Lemma U_deref size file pos cur c t :
  deref p (U size file pos cur c t) = (U size file pos cur c t, Ok (mkSegment size file path pos cur mx)).
Proof. unfold deref, U. cbn. by rewrite list_lookup_insert_eq. Qed.

Lemma U_content size file pos cur c t :
  content_of (mkSegment size file path pos cur mx) (U size file pos cur c t) = (U size file pos cur c t, Ok c).
Proof. unfold content_of, U. cbn. by rewrite lookup_insert_eq. Qed.

Lemma U_upd (f : segment → segment) size file pos cur c t size' file' pos' cur' :
  f (mkSegment size file path pos cur mx) = mkSegment size' file' path pos' cur' mx →
  upd_seg p f (U size file pos cur c t) = (U size' file' pos' cur' c t, Ok ()).
Proof.
  intros Hf. unfold upd_seg, st_put, U, set_heap. cbn. do 2 f_equal.
  rewrite <- Hf. apply list_eq. intros i. destruct (decide (i = p)) as [->|].
  - by rewrite list_lookup_alter_eq, !list_lookup_insert_eq.
  - by rewrite list_lookup_alter_ne, !list_lookup_insert_ne by done.
Qed.

(** Run the first call of the goal with an equation. *)
Local Ltac step lem := etransitivity; [eapply st_bind_ok; eapply lem; done|]; cbv beta;
  cbn [seg_size seg_file seg_path seg_pos seg_currentSize seg_maxSize].

Lemma U_seek size off pos cur c t o :
  0 ≤ o → segment_seek p o (U size (Some off) pos cur c t) = (U size (Some o) pos cur c t, Ok ()).
Proof.
  intros Ho. unfold segment_seek, File_Seek.
  rewrite (st_bind_ok _ _ _ (U size (Some o) pos cur c t) o).
  { by rewrite Z.eqb_refl. }
  step U_deref. cbn [seg_file]. step U_content. destruct (Z.ltb_spec o 0); [lia|].
  by step U_upd.
Qed.

Lemma U_seekEnd size off pos cur x foot t :
  length foot = 8%nat →
  segment_seekEnd p (- footerSize) (U size (Some off) pos cur (x ++ foot) t) =
  (U size (Some (go_len x)) pos cur (x ++ foot) t, Ok ()).
Proof.
  intros Hf. unfold segment_seekEnd, File_Seek.
  rewrite (st_bind_ok _ _ _ (U size (Some (go_len x)) pos cur (x ++ foot) t) (go_len x)); [done|].
  step U_deref. cbn [seg_file]. step U_content.
  assert (Hlen : go_len (x ++ foot) + - footerSize = go_len x).
  { rewrite go_len_app. unfold go_len at 2. rewrite Hf. unfold footerSize. lia. }
  rewrite Hlen. pose proof (go_len_nonneg x). destruct (Z.ltb_spec (go_len x) 0); [lia|].
  by step U_upd.
Qed.

Lemma U_write size off pos cur c t b :
  segment_writeBytes p b (U size (Some off) pos cur c t) =
  (U size (Some (off + go_len b)) pos cur (write_at off b c) (h_now h), Ok ()).
Proof.
  unfold segment_writeBytes, File_Write.
  rewrite (st_bind_ok _ _ _ (U size (Some (off + go_len b)) pos cur (write_at off b c) (h_now h)) (go_len b)).
  { by rewrite Z.eqb_refl. }
  step U_deref. cbn [seg_file]. step U_content.
  rewrite (st_bind_ok _ _ _ (U size (Some off) pos cur (write_at off b c) (h_now h)) ()).
  { by step U_upd. }
  unfold st_put, set_dir, U. cbn. by rewrite insert_insert_eq.
Qed.

Lemma U_read size pos cur x y z t :
  segment_readBytes p (go_len y) (U size (Some (go_len x)) pos cur (x ++ y ++ z) t) =
  (U size (Some (go_len x + go_len y)) pos cur (x ++ y ++ z) t, Ok y).
Proof.
  unfold segment_readBytes, File_Read.
  rewrite (st_bind_ok _ _ _ (U size (Some (go_len x + go_len y)) pos cur (x ++ y ++ z) t) y).
  { by rewrite Z.eqb_refl. }
  step U_deref. cbn [seg_file]. step U_content.
  replace (Z.to_nat (go_len y)) with (length y) by (unfold go_len; lia). rewrite read_at.
  destruct (Z.ltb_spec 0 (go_len y)), (Z.eqb_spec (go_len y) 0); try lia; cbn [andb]; by step U_upd.
Qed.

Lemma U_readUint64 size pos cur x v z t :
  is_u64 v →
  segment_readUint64 p (U size (Some (go_len x)) pos cur (x ++ hh_u64tob v ++ z) t) =
  (U size (Some (go_len x + 8)) pos cur (x ++ hh_u64tob v ++ z) t, Ok v).
Proof.
  intros Hv. unfold segment_readUint64. pose proof (U_read size pos cur x (hh_u64tob v) z t) as Hr.
  rewrite go_len_u64tob in Hr. rewrite (st_bind_ok _ _ _ _ _ Hr).
  unfold hh_btou64, hh_u64tob. by rewrite Uint64_PutUint64_nil.
Qed.

Lemma U_sync size off pos cur c t :
  File_Sync p (U size (Some off) pos cur c t) = (U size (Some off) pos cur c t, Ok ()).
Proof. unfold File_Sync. by step U_deref. Qed.

Lemma U_close size off pos cur c t :
  segment_close p (U size (Some off) pos cur c t) = (U size None pos cur c t, Ok ()).
Proof.
  unfold segment_close, File_Close.
  rewrite (st_bind_ok _ _ _ (U size (Some off) pos cur c t) ()); [by apply U_upd|].
  by step U_deref.
Qed.

(** ** Segment methods on a file with the layout *)

(** A new segment gets its footer. *)
Lemma U_open_new t :
  segment_open p (U 0 (Some 0) 0 0 [] t) = (U 8 (Some 8) 0 0 (layout [] []) (h_now h), Ok ()).
Proof.
  unfold segment_open. step U_deref. cbn [seg_size]. change (0 =? 0) with true. cbv iota.
  step U_upd. step U_upd. unfold segment_writeUint64. step U_write. step U_sync.
  unfold footerSize. apply U_upd. done.
Qed.

Lemma layout_snoc dn rest b :
  layout dn (rest ++ [b]) =
  ((blocks dn ++ blocks rest) ++ hh_u64tob (go_len b)) ++ b ++ hh_u64tob (go_len (blocks dn)).
Proof. unfold layout. rewrite blocks_app, blocks_singleton. unfold block. by rewrite <- !app_assoc. Qed.

(** [currentSize] is set when the first block that is left is the new one. *)
Lemma U_bump size file pos rest b c t :
  Forall (λ b, b ≠ []) rest →
  (if first_len rest =? 0 then upd_seg p (set_seg_currentSize (go_len b)) else mret ())
    (U size file pos (first_len rest) c t) = (U size file pos (first_len (rest ++ [b])) c t, Ok ()).
Proof.
  intros Hne. destruct rest as [|b' rest]; [by apply U_upd|]. inversion Hne; subst. cbn [first_len app].
  destruct (Z.eqb_spec (go_len b') 0) as [H0|]; [|done]. by destruct b'.
Qed.

Lemma U_append off cur dn rest b t :
  go_len (layout dn rest) + go_len b ≤ mx → mx < 2 ^ 62 → cur = first_len rest → Forall (λ b, b ≠ []) rest →
  segment_append p b (U (go_len (layout dn rest)) (Some off) (go_len (blocks dn)) cur (layout dn rest) t) =
  (U (go_len (layout dn (rest ++ [b]))) (Some (go_len (layout dn (rest ++ [b])))) (go_len (blocks dn))
     (first_len (rest ++ [b])) (layout dn (rest ++ [b])) (h_now h), Ok ()).
Proof.
  intros Hfit Hmx -> Hne. unfold segment_append. step U_deref. cbn [seg_file seg_size seg_maxSize seg_pos seg_currentSize].
  pose proof (go_len_nonneg b). pose proof (go_len_nonneg (blocks dn)). pose proof (go_len_nonneg (blocks rest)).
  pose proof (go_len_layout dn rest) as Hlen.
  rewrite i64_small by (unfold is_i64; lia). destruct (Z.ltb_spec mx (go_len (layout dn rest) + go_len b)); [lia|].
  unfold layout at 2. rewrite (app_assoc (blocks dn)). step U_seekEnd. unfold segment_writeUint64. step U_write.
  rewrite write_at_footer by done. rewrite !u64_small by (unfold is_u64; lia).
  step U_write. rewrite <- (go_len_app (blocks dn ++ blocks rest)), write_at_end.
  step U_write. rewrite <- (go_len_app _ b), write_at_end, <- (go_len_app _ (hh_u64tob (go_len (blocks dn)))).
  step U_sync. rewrite <- !(app_assoc _ b), <- layout_snoc.
  step U_bump.
  apply U_upd. unfold set_seg_size. cbn [seg_size seg_file seg_path seg_pos seg_currentSize seg_maxSize].
  assert (Hlen' : go_len (layout dn (rest ++ [b])) = go_len (layout dn rest) + (go_len b + 8)).
  { rewrite !go_len_layout, blocks_app, go_len_app, blocks_singleton, go_len_block. lia. }
  rewrite Hlen', !go_len_app, !go_len_u64tob, i64_small by (unfold is_i64; lia). f_equal; f_equal; lia.
Qed.

Lemma layout_cons dn b rest :
  layout dn (b :: rest) =
  blocks dn ++ hh_u64tob (go_len b) ++ b ++ blocks rest ++ hh_u64tob (go_len (blocks dn)).
Proof. unfold layout. rewrite blocks_cons. unfold block. by rewrite <- !app_assoc. Qed.

Lemma U_current off cur dn b rest t :
  go_len (layout dn (b :: rest)) < 2 ^ 63 → go_len b ≤ mx →
  segment_current p (U (go_len (layout dn (b :: rest))) (Some off) (go_len (blocks dn)) cur (layout dn (b :: rest)) t) =
  (U (go_len (layout dn (b :: rest))) (Some (go_len (blocks dn) + go_len (block b))) (go_len (blocks dn))
     (go_len b) (layout dn (b :: rest)) t, Ok b).
Proof.
  intros Hlt Hb. unfold segment_current. step U_deref. cbn [seg_pos seg_size seg_maxSize].
  pose proof (go_len_nonneg b). pose proof (go_len_nonneg (blocks dn)). pose proof (go_len_nonneg (blocks rest)).
  pose proof (go_len_layout dn (b :: rest)) as Hlen. rewrite blocks_cons, go_len_app, go_len_block in Hlen.
  set (sz := go_len (layout dn (b :: rest))) in *. clearbody sz.
  rewrite i64_small by (unfold is_i64; lia).
  destruct (Z.eqb_spec (go_len (blocks dn)) (sz - 8)); [lia|].
  unfold segment_seekToCurrent.
  etransitivity; [eapply st_bind_ok; etransitivity; [eapply st_bind_ok, U_deref|]; by apply U_seek|].
  rewrite layout_cons. etransitivity; [eapply st_bind_ok, U_readUint64; unfold is_u64; lia|]. cbv beta.
  step U_upd. rewrite i64_small by (unfold is_i64; lia). destruct (Z.ltb_spec mx (go_len b)); [lia|].
  destruct (Z.leb_spec (2 ^ 63) (go_len b)); [lia|].
  pose proof (U_read sz (go_len (blocks dn)) (go_len b)
    (blocks dn ++ hh_u64tob (go_len b)) b (blocks rest ++ hh_u64tob (go_len (blocks dn))) t) as Hr.
  rewrite go_len_app, go_len_u64tob, <- app_assoc in Hr. rewrite Hr.
  by rewrite go_len_block, <- Z.add_assoc.
Qed.

Lemma U_current_eof off cur dn t :
  go_len (layout dn []) < 2 ^ 63 →
  segment_current p (U (go_len (layout dn [])) (Some off) (go_len (blocks dn)) cur (layout dn []) t) =
  (U (go_len (layout dn [])) (Some off) (go_len (blocks dn)) cur (layout dn []) t, Err ErrEOF).
Proof.
  intros Hlt. unfold segment_current. step U_deref. cbn [seg_pos seg_size].
  pose proof (go_len_nonneg (blocks dn)). rewrite (go_len_layout dn []) in *. change (go_len (blocks [])) with 0 in *.
  rewrite i64_small by (unfold is_i64; lia).
  destruct (Z.eqb_spec (go_len (blocks dn)) (go_len (blocks dn) + 0 + 8 - 8)); [done|lia].
Qed.

Lemma U_seekToCurrent size off pos cur c t :
  0 ≤ pos → segment_seekToCurrent p (U size (Some off) pos cur c t) = (U size (Some pos) pos cur c t, Ok ()).
Proof. intros Hpos. unfold segment_seekToCurrent. step U_deref. by apply U_seek. Qed.

Lemma layout_advance dn b rest :
  layout (dn ++ [b]) rest = (blocks dn ++ blocks (b :: rest)) ++ hh_u64tob (go_len (blocks (dn ++ [b]))).
Proof.
  unfold layout. rewrite blocks_app, blocks_singleton, blocks_cons. by rewrite <- !app_assoc.
Qed.

(** The eight bytes at the new position: the next length or the footer. *)
Lemma layout_next dn rest :
  ∃ z, layout dn rest =
    blocks dn ++ hh_u64tob (match rest with [] => go_len (blocks dn) | b :: _ => go_len b end) ++ z.
Proof.
  destruct rest as [|b rest]; [exists []; unfold layout; by rewrite app_nil_r|].
  rewrite layout_cons. eauto.
Qed.

Lemma U_advance off dn b rest t :
  go_len (layout dn (b :: rest)) < 2 ^ 63 →
  ∃ off', segment_advance p
    (U (go_len (layout dn (b :: rest))) (Some off) (go_len (blocks dn)) (go_len b) (layout dn (b :: rest)) t) =
  (U (go_len (layout (dn ++ [b]) rest)) (Some off') (go_len (blocks (dn ++ [b]))) (first_len rest)
     (layout (dn ++ [b]) rest) (h_now h),
   match rest with [] => Err ErrEOF | _ => Ok () end).
Proof.
  intros Hlt. exists (go_len (blocks (dn ++ [b])) + 8). unfold segment_advance. step U_deref.
  pose proof (go_len_nonneg b). pose proof (go_len_nonneg (blocks dn)). pose proof (go_len_nonneg (blocks rest)).
  pose proof (go_len_layout dn (b :: rest)) as Hlen. rewrite blocks_cons, go_len_app, go_len_block in Hlen.
  assert (Hpos : go_len (blocks dn) + go_len b + 8 = go_len (blocks (dn ++ [b])))
    by (rewrite blocks_app, go_len_app, blocks_singleton, go_len_block; lia).
  assert (Hsz : go_len (layout (dn ++ [b]) rest) = go_len (layout dn (b :: rest)))
    by (rewrite Hlen, go_len_layout; lia).
  rewrite Hsz. set (sz := go_len (layout dn (b :: rest))) in *. clearbody sz.
  rewrite !i64_small by (unfold is_i64, footerSize; lia). unfold footerSize at 1.
  destruct (Z.eqb_spec (go_len (blocks dn)) (sz - 8)); [lia|].
  unfold layout at 1. rewrite (app_assoc (blocks dn)). step U_seekEnd. unfold segment_writeUint64. step U_write.
  rewrite write_at_footer, u64_small by (done || unfold is_u64; lia).
  rewrite Hpos, <- layout_advance.
  step U_sync. step U_upd.
  etransitivity; [eapply st_bind_ok, U_seekToCurrent; lia|]. cbv beta.
  destruct (layout_next (dn ++ [b]) rest) as [z Hz]. rewrite Hz.
  etransitivity; [eapply st_bind_ok, U_readUint64|].
  { unfold is_u64. destruct rest as [|b' rest]; [lia|]. rewrite blocks_cons, go_len_app, go_len_block in *.
    pose proof (go_len_nonneg b'). pose proof (go_len_nonneg (blocks rest)). lia. }
  cbv beta. rewrite <- Hz. step U_upd. unfold footerSize. destruct rest as [|b' rest].
  - change (go_len (blocks [])) with 0 in *. rewrite (proj2 (Z.eqb_eq _ _)) by lia. by step U_upd.
  - rewrite blocks_cons, go_len_app, go_len_block in *. pose proof (go_len_nonneg b'). pose proof (go_len_nonneg (blocks rest)).
    rewrite (proj2 (Z.eqb_neq _ _)) by lia. rewrite i64_small by (unfold is_i64; lia). done.
Qed.

Lemma U_advance_eof off cur dn t :
  go_len (layout dn []) < 2 ^ 63 →
  segment_advance p (U (go_len (layout dn [])) (Some off) (go_len (blocks dn)) cur (layout dn []) t) =
  (U (go_len (layout dn [])) (Some off) (go_len (blocks dn)) 0 (layout dn []) t, Err ErrEOF).
Proof.
  intros Hlt. unfold segment_advance. step U_deref.
  pose proof (go_len_nonneg (blocks dn)). pose proof (go_len_layout dn []) as Hlen. change (go_len (blocks [])) with 0 in *.
  rewrite i64_small by (unfold is_i64, footerSize; lia). unfold footerSize at 1.
  rewrite (proj2 (Z.eqb_eq _ _)) by lia. by step U_upd.
Qed.

(** Opening a segment that exists finds the first block that is left. *)
Lemma U_open dn rest t :
  go_len (layout dn rest) < 2 ^ 63 →
  ∃ off', segment_open p (U (go_len (layout dn rest)) (Some 0) 0 0 (layout dn rest) t) =
  (U (go_len (layout dn rest)) (Some off') (go_len (blocks dn)) (first_len rest) (layout dn rest) t, Ok ()).
Proof.
  intros Hlt. unfold segment_open.
  pose proof (go_len_nonneg (blocks dn)). pose proof (go_len_nonneg (blocks rest)).
  pose proof (go_len_layout dn rest) as Hlen.
  exists (match rest with [] => go_len (blocks dn) | _ => go_len (blocks dn) + 8 end).
  step U_deref. set (sz := go_len (layout dn rest)) in *. clearbody sz.
  destruct (Z.eqb_spec sz 0); [lia|].
  assert (Hl : layout dn rest = (blocks dn ++ blocks rest) ++ hh_u64tob (go_len (blocks dn)) ++ [])
    by (unfold layout; by rewrite app_nil_r, <- app_assoc).
  rewrite Hl at 1. step U_seekEnd.
  etransitivity; [eapply st_bind_ok, U_readUint64; unfold is_u64; lia|]. cbv beta. rewrite <- Hl.
  step U_upd. rewrite i64_small by (unfold is_i64; lia).
  etransitivity; [eapply st_bind_ok, U_seekToCurrent; lia|]. cbv beta. step U_deref.
  unfold footerSize. rewrite i64_small by (unfold is_i64; lia). destruct rest as [|b rest].
  - change (go_len (blocks [])) with 0 in *. rewrite (proj2 (Z.ltb_ge _ _)) by lia. done.
  - rewrite blocks_cons, go_len_app, go_len_block in Hlen. pose proof (go_len_nonneg b). pose proof (go_len_nonneg (blocks rest)).
    rewrite (proj2 (Z.ltb_lt _ _)) by lia. rewrite layout_cons.
    etransitivity; [eapply st_bind_ok, U_readUint64; unfold is_u64; lia|]. cbv beta.
    rewrite i64_small by (unfold is_i64; lia). by apply U_upd.
Qed.

End explicit.
