(* ===== verification/HhSpec.v ===== *)
(** * The disk queue against its specification

    The specification is a list of segments, each with its size on disk and the
    blocks that are left in it; appending, reading and advancing are functions
    on that list.  [R] relates it to the state of the queue: files, handles,
    pointers and offsets.  Every method keeps [R] and returns what the
    specification returns. *)

From stdpp Require Import base list gmap strings sorting.
From Stdlib Require Import ZArith Lia DecimalString DecimalN DecimalPos.
From S2P Require Import Prelude Binary HhQueue HhSegment.

Local Open Scope Z_scope.

(** ** The specification *)

Record aseg := ASeg { a_size : Z; a_rest : list (list Z) }.

Record aqueue := AQueue {
  aq_segs : list aseg;
  aq_segMax : Z;
  aq_max : Z
}.

Fixpoint usage (l : list aseg) : Z :=
  match l with [] => 0 | s :: l => a_size s + usage l end.

(** What is left, oldest first. *)
Definition pending (a : aqueue) : list (list Z) := aq_segs a ≫= a_rest.

Definition grow (b : list Z) (s : aseg) : aseg := ASeg (a_size s + (go_len b + 8)) (a_rest s ++ [b]).
Definition with_segs (l : list aseg) (a : aqueue) : aqueue := AQueue l (aq_segMax a) (aq_max a).

Definition spec_Append (b : list Z) (a : aqueue) : aqueue * outcome hhError unit :=
  if aq_max a <? usage (aq_segs a) + go_len b then (a, Err ErrQueueFull)
  else match last (aq_segs a) with
       | None => (a, Err ErrNotOpen)
       | Some z =>
           if aq_segMax a <? a_size z + go_len b then
             if aq_segMax a <? 8 + go_len b then (with_segs (aq_segs a ++ [ASeg 8 []]) a, Err ErrSegmentFull)
             else (with_segs (aq_segs a ++ [grow b (ASeg 8 [])]) a, Ok ())
           else (with_segs (alter (grow b) (pred (length (aq_segs a))) (aq_segs a)) a, Ok ())
       end.

Definition spec_Current (a : aqueue) : outcome hhError (list Z) :=
  match aq_segs a with
  | ASeg _ (b :: _) :: _ => Ok b
  | _ => Err ErrEOF
  end.

(** A head without blocks is dropped when there is another segment. *)
Definition spec_trim (l : list aseg) : list aseg :=
  match l with
  | ASeg _ [] :: (_ :: _) as l' => l'
  | _ => l
  end.

Definition spec_Advance (a : aqueue) : aqueue :=
  match aq_segs a with
  | ASeg n (b :: rest) :: l => with_segs (spec_trim (ASeg n rest :: l)) a
  | l => with_segs (spec_trim l) a
  end.

(** ** The relation *)

Definition file_at (h : HhState) (name : string) : option inode := h_dir h ≫= lookup name.

(** Segment number [x.2] at pointer [x.1] is open and holds the blocks of [a]
    after some that were consumed. *)
Definition seg_rep (mx : Z) (h : HhState) (x : nat * Z) (a : aseg) : Prop :=
  ∃ dn off t,
    h_heap h !! x.1 = Some (mkSegment (a_size a) (Some off) (FormatUint x.2)
      (go_len (blocks dn)) (first_len (a_rest a)) mx) ∧
    file_at h (FormatUint x.2) = Some (FileNode (layout dn (a_rest a)) t) ∧
    a_size a = go_len (layout dn (a_rest a)) ∧
    Forall (λ b, b ≠ [] ∧ go_len b ≤ mx) (a_rest a).

(** [k] bounds the segment numbers. *)
Record Rel (k : Z) (h : HhState) (ids : list (nat * Z)) (a : aqueue) : Prop := {
  r_dir : ∃ d, h_dir h = Some d ∧ ∀ name, is_Some (d !! name) → ∃ x, x ∈ ids ∧ name = FormatUint x.2;
  r_ids : StronglySorted Z.lt ids.*2;
  r_pos : Forall (λ x : nat * Z, 0 < x.2 ≤ k) ids;
  r_ptr : NoDup ids.*1;
  r_segments : q_segments (h_queue h) = Some ids.*1;
  r_head : q_head (h_queue h) = head ids.*1;
  r_tail : q_tail (h_queue h) = last ids.*1;
  r_some : ids ≠ [];
  r_segMax : q_maxSegmentSize (h_queue h) = aq_segMax a;
  r_max : q_maxSize (h_queue h) = aq_max a;
  r_segs : Forall2 (seg_rep (aq_segMax a) h) ids (aq_segs a);
  r_usage : usage (aq_segs a) ≤ aq_max a + 16;
  r_bounds : 0 ≤ aq_segMax a < 2 ^ 61 ∧ 0 ≤ aq_max a < 2 ^ 61
}.

Definition R (k : Z) (h : HhState) (a : aqueue) : Prop := ∃ ids, Rel k h ids a.

(** ** Names of segment files *)

Lemma ParseUint_FormatUint n : 0 ≤ n < 2 ^ 64 → ParseUint (FormatUint n) = Some n.
Proof.
  intros Hn. unfold ParseUint, FormatUint. rewrite NilZero.usu.
  - rewrite DecimalN.Unsigned.of_to, Z2N.id by lia. by rewrite (proj2 (Z.ltb_lt _ _)) by lia.
  - destruct (Z.to_N n) as [|q]; [done|]. apply DecimalPos.Unsigned.to_uint_nonnil.
Qed.

Lemma FormatUint_inj n m : 0 ≤ n < 2 ^ 64 → 0 ≤ m < 2 ^ 64 → FormatUint n = FormatUint m → n = m.
Proof.
  intros Hn Hm H. apply (f_equal ParseUint) in H. rewrite !ParseUint_FormatUint in H by done. congruence.
Qed.

(** ** Frames *)

(** A segment is not touched by what happens to other pointers and names. *)
Lemma seg_rep_frame mx h h' x a :
  h_heap h' !! x.1 = h_heap h !! x.1 → file_at h' (FormatUint x.2) = file_at h (FormatUint x.2) →
  seg_rep mx h x a → seg_rep mx h' x a.
Proof. intros H1 H2 (dn & off & t & ? & ? & ? & ?). exists dn, off, t. by rewrite H1, H2. Qed.

Lemma U_heap_ne h d p path mx size file pos cur c t q :
  q ≠ p → h_heap (U h d p path mx size file pos cur c t) !! q = h_heap h !! q.
Proof. intros. cbn. by rewrite list_lookup_insert_ne. Qed.

Lemma U_file_ne h d p path mx size file pos cur c t name :
  h_dir h = Some d → name ≠ path → file_at (U h d p path mx size file pos cur c t) name = file_at h name.
Proof. intros Hd Hn. unfold file_at. rewrite Hd. cbn. by rewrite lookup_insert_ne. Qed.

Lemma seg_size_nonneg mx h x a : seg_rep mx h x a → 8 ≤ a_size a.
Proof.
  intros (dn & off & t & _ & _ & -> & _). rewrite go_len_layout.
  pose proof (go_len_nonneg (blocks dn)). pose proof (go_len_nonneg (blocks (a_rest a))). lia.
Qed.

Lemma usage_app l k : usage (l ++ k) = usage l + usage k.
Proof. induction l as [|s l IH]; cbn in *; lia. Qed.

Lemma usage_nonneg mx h ids l : Forall2 (seg_rep mx h) ids l → 0 ≤ usage l.
Proof. induction 1 as [|x a ids l Ha%seg_size_nonneg _ IH]; cbn in *; lia. Qed.

Lemma usage_elem mx h ids l a : Forall2 (seg_rep mx h) ids l → a ∈ l → a_size a ≤ usage l.
Proof.
  induction 1 as [|x a' ids l Ha%seg_size_nonneg Hf IH]; [by intros ?%not_elem_of_nil|].
  pose proof (usage_nonneg _ _ _ _ Hf). intros [->|Hin]%elem_of_cons; cbn; [lia|]. specialize (IH Hin). lia.
Qed.

(** ** Disk usage *)

Lemma usage_loop_spec mx h ids l acc :
  Forall2 (seg_rep mx h) ids l → 0 ≤ acc → acc + usage l < 2 ^ 63 →
  usage_loop ids.*1 acc h = (h, Ok (acc + usage l)).
Proof.
  intros Hf. revert acc. induction Hf as [|x a ids l Ha Hf IH]; intros acc Hacc Hb; cbn [usage_loop fmap list_fmap].
  - cbn. by rewrite Z.add_0_r.
  - pose proof (seg_size_nonneg _ _ _ _ Ha). pose proof (usage_nonneg _ _ _ _ Hf).
    destruct Ha as (dn & off & t & Hs & _). cbn in Hb.
    rewrite (st_bind_ok _ _ _ h (a_size a)).
    + rewrite i64_small by (unfold is_i64; lia). rewrite IH by lia. cbn. by rewrite Z.add_assoc.
    + unfold segment_diskUsage, mbind, ST_bind, deref. by rewrite Hs.
Qed.

Lemma diskUsage_spec k h ids a : Rel k h ids a → queue_diskUsage h = (h, Ok (usage (aq_segs a))).
Proof.
  intros HR. unfold queue_diskUsage, get_segments. rewrite (st_bind_ok _ _ _ h ids.*1).
  - eapply (usage_loop_spec _ _ _ _ 0); [apply HR|done|].
    pose proof (r_usage _ _ _ _ HR). pose proof (r_bounds _ _ _ _ HR). lia.
  - unfold st_get. by rewrite (r_segments _ _ _ _ HR).
Qed.

(** ** One segment changes *)

Lemma Rel_dir k h ids a : Rel k h ids a → ∃ d, h_dir h = Some d.
Proof. intros [(d & ? & _)]. eauto. Qed.

Lemma Rel_name_ne k h ids1 ids2 x y a :
  Rel k h (ids1 ++ x :: ids2) a → k < 2 ^ 64 → y ∈ ids1 ++ ids2 → y.1 ≠ x.1 ∧ FormatUint y.2 ≠ FormatUint x.2.
Proof.
  intros HR Hk Hy. pose proof (r_ptr _ _ _ _ HR) as Hp. pose proof (r_ids _ _ _ _ HR) as Hi.
  pose proof (r_pos _ _ _ _ HR) as Hpos. rewrite Forall_forall in Hpos.
  assert (Hxb : 0 < x.2 ≤ k) by (apply Hpos, elem_of_app; right; by left).
  assert (Hyb : 0 < y.2 ≤ k) by (apply Hpos; rewrite elem_of_app, elem_of_cons; apply elem_of_app in Hy; tauto).
  rewrite fmap_app, fmap_cons in Hp. rewrite fmap_app, fmap_cons in Hi. split.
  - intros He. rewrite NoDup_app, NoDup_cons in Hp. destruct Hp as (_ & H1 & H2 & _).
    apply elem_of_app in Hy as [Hy|Hy].
    + apply (H1 y.1); [by apply list_elem_of_fmap_2|]. rewrite He. by left.
    + apply H2. rewrite <- He. by apply list_elem_of_fmap_2.
  - intros He%FormatUint_inj; [|lia..]. apply StronglySorted_app in Hi as (H1 & _ & H2).
    apply StronglySorted_cons in H2 as [H2 _]. rewrite Forall_forall in H2.
    apply elem_of_app in Hy as [Hy|Hy].
    + assert (y.2 < x.2); [|lia]. apply H1; [by apply list_elem_of_fmap_2|by left].
    + assert (x.2 < y.2); [|lia]. apply H2. by apply list_elem_of_fmap_2.
Qed.

(** A change of segment [x] and its file only. *)
Lemma Rel_touch k h d ids1 ids2 x a l1 l2 s s' size file pos cur c t :
  Rel k h (ids1 ++ x :: ids2) a → k < 2 ^ 64 → h_dir h = Some d →
  aq_segs a = l1 ++ s :: l2 → length ids1 = length l1 →
  let h' := U h d x.1 (FormatUint x.2) (aq_segMax a) size file pos cur c t in
  seg_rep (aq_segMax a) h' x s' → usage (l1 ++ s' :: l2) ≤ aq_max a + 16 →
  Rel k h' (ids1 ++ x :: ids2) (with_segs (l1 ++ s' :: l2) a).
Proof.
  intros HR Hk Hd Hl Hlen h' Hs' Hu. pose proof (Rel_name_ne k h ids1 ids2 x) as Hne.
  pose proof (r_dir _ _ _ _ HR) as Hdir. pose proof (r_segs _ _ _ _ HR) as Hsegs.
  split; try apply HR; cbn [aq_segs aq_segMax aq_max with_segs].
  - destruct Hdir as (d' & Hd' & Hdom). rewrite Hd in Hd'. simplify_eq. eexists. split; [done|].
    intros name [i Hi]. destruct (decide (name = FormatUint x.2)) as [->|].
    + exists x. set_solver.
    + rewrite lookup_insert_ne in Hi by done. eauto.
  - rewrite Hl in Hsegs. apply Forall2_app_inv in Hsegs as [H1 H2]; [|done].
    inversion H2 as [|? ? ? ? Hx H2' E1 E2]; subst.
    assert (Hfr : ∀ y b, y ∈ ids1 ++ ids2 → seg_rep (aq_segMax a) h y b → seg_rep (aq_segMax a) h' y b).
    { intros y b Hy. destruct (Hne y a HR Hk Hy). apply seg_rep_frame.
      - by apply U_heap_ne.
      - by apply U_file_ne. }
    apply Forall2_app; [|constructor; [done|]].
    + eapply Forall2_impl_elem; [exact H1|]. intros. apply Hfr; set_solver.
    + eapply Forall2_impl_elem; [exact H2'|]. intros. apply Hfr; set_solver.
  - done.
Qed.

(** The state in which a segment is at rest, as an explicit one. *)
Lemma seg_rep_U mx h d x a :
  seg_rep mx h x a → h_dir h = Some d →
  ∃ dn off t,
    (x.1 < length (h_heap h))%nat ∧ a_size a = go_len (layout dn (a_rest a)) ∧
    h = U h d x.1 (FormatUint x.2) mx (a_size a) (Some off) (go_len (blocks dn)) (first_len (a_rest a))
          (layout dn (a_rest a)) t.
Proof.
  intros (dn & off & t & Hs & Hf & Hsz & _) Hd. exists dn, off, t. split_and!; [by eapply lookup_lt_Some|done|].
  symmetry. unfold file_at in Hf. rewrite Hd in Hf. apply U_same; [by eapply lookup_lt_Some|done..].
Qed.

Lemma U_seg_rep mx h d x a dn off t :
  (x.1 < length (h_heap h))%nat → a_size a = go_len (layout dn (a_rest a)) →
  Forall (λ b, b ≠ [] ∧ go_len b ≤ mx) (a_rest a) →
  seg_rep mx (U h d x.1 (FormatUint x.2) mx (a_size a) (Some off) (go_len (blocks dn)) (first_len (a_rest a))
    (layout dn (a_rest a)) t) x a.
Proof.
  intros Hlt Hsz Hall. exists dn, off, t. split_and!; [|unfold file_at; cbn; by rewrite lookup_insert_eq|done..].
  cbn. by rewrite list_lookup_insert_eq.
Qed.

Lemma seg_rep_blocks mx h x a : seg_rep mx h x a → Forall (λ b, b ≠ [] ∧ go_len b ≤ mx) (a_rest a).
Proof. by intros (? & ? & ? & _ & _ & _ & ?). Qed.

Lemma grow_layout dn a b :
  a_size a = go_len (layout dn (a_rest a)) → a_size (grow b a) = go_len (layout dn (a_rest (grow b a))).
Proof.
  cbn. intros ->. rewrite !go_len_layout, blocks_app, go_len_app, blocks_singleton, go_len_block. lia.
Qed.

(** Appending to a segment with room. *)
Lemma append_touch mx h d x a b :
  seg_rep mx h x a → h_dir h = Some d → a_size a + go_len b ≤ mx → mx < 2 ^ 61 → b ≠ [] → go_len b ≤ mx →
  ∃ size file pos cur c t,
    let h' := U h d x.1 (FormatUint x.2) mx size file pos cur c t in
    segment_append x.1 b h = (h', Ok ()) ∧ seg_rep mx h' x (grow b a).
Proof.
  intros Hrep Hd Hfit Hmx Hb Hbm. pose proof (seg_rep_blocks _ _ _ _ Hrep) as Hall.
  destruct (seg_rep_U _ _ _ _ _ Hrep Hd) as (dn & off & t & Hlt & Hsz & Hh).
  pose proof (U_append h d x.1 (FormatUint x.2) mx Hlt off (first_len (a_rest a)) dn (a_rest a) b t) as Ha.
  rewrite <- Hsz, <- Hh in Ha. do 6 eexists. split; [apply Ha|].
  - done.
  - lia.
  - done.
  - eapply Forall_impl; [exact Hall|]. by intros ? [].
  - assert (Hg : go_len (layout dn (a_rest a ++ [b])) = a_size (grow b a)) by (symmetry; by apply grow_layout).
    rewrite Hg. apply (U_seg_rep mx h d x (grow b a)); [done|by apply grow_layout|].
    cbn. apply Forall_app. split; [done|]. by constructor.
Qed.

(** ** Splitting off the last and the first segment *)

Lemma Rel_last k h ids a :
  Rel k h ids a → ∃ ids0 x l0 z, ids = ids0 ++ [x] ∧ aq_segs a = l0 ++ [z] ∧ length ids0 = length l0 ∧
    q_tail (h_queue h) = Some x.1 ∧ seg_rep (aq_segMax a) h x z.
Proof.
  intros HR. pose proof (r_segs _ _ _ _ HR) as Hs. pose proof (r_tail _ _ _ _ HR) as Ht.
  destruct ids as [|x ids0 _] using rev_ind; [by destruct (r_some _ _ _ _ HR)|].
  apply Forall2_app_inv_l in Hs as (l0 & k2 & H1 & H2 & ->).
  inversion H2 as [|? z ? l' Hx Hnil]; subst. inversion Hnil; subst.
  exists ids0, x, l0, z. split_and!; [done..|by eapply Forall2_length| |done].
  by rewrite Ht, fmap_app, last_app.
Qed.

Lemma Rel_first k h ids a :
  Rel k h ids a → ∃ x ids' s l, ids = x :: ids' ∧ aq_segs a = s :: l ∧
    q_head (h_queue h) = Some x.1 ∧ seg_rep (aq_segMax a) h x s.
Proof.
  intros HR. pose proof (r_segs _ _ _ _ HR) as Hs. pose proof (r_head _ _ _ _ HR) as Hh.
  destruct ids as [|x ids']; [by destruct (r_some _ _ _ _ HR)|].
  inversion Hs as [|? s ? l Hx Hl E1 E2]; subst. by exists x, ids', s, l.
Qed.

(** ** A new segment *)

Lemma foldl_max l m :
  let r := foldl (λ maxID id, if maxID <? id then id else maxID) m l in
  m ≤ r ∧ (∀ x, x ∈ l → x ≤ r) ∧ (r = m ∨ r ∈ l).
Proof.
  revert m. induction l as [|x l IH]; intros m; cbn; [split_and!; [lia|by intros ? ?%not_elem_of_nil|by left]|].
  destruct (Z.ltb_spec m x).
  - destruct (IH x) as (H1 & H2 & H3). split_and!; [lia| |].
    + intros y [->|Hy]%elem_of_cons; [done|by apply H2].
    + right. destruct H3 as [->|]; [by left|by right].
  - destruct (IH m) as (H1 & H2 & H3). split_and!; [lia| |].
    + intros y [->|Hy]%elem_of_cons; [lia|by apply H2].
    + destruct H3 as [->|]; [by left|right; by right].
Qed.

(** The next segment number is one more than the last. *)
Lemma nextSegmentID_spec k h ids x a :
  Rel k h (ids ++ [x]) a → k + 1 < 2 ^ 64 → queue_nextSegmentID h = (h, Ok (x.2 + 1)).
Proof.
  intros HR Hk. destruct (r_dir _ _ _ _ HR) as (d & Hd & Hdom). unfold queue_nextSegmentID.
  rewrite (st_bind_ok _ _ _ h (insertion_sort (λ x y, String.ltb x.1 y.1) (map_to_list d))).
  2: { unfold ReadDir. by rewrite Hd. }
  pose proof (r_pos _ _ _ _ HR) as Hpos. rewrite Forall_forall in Hpos.
  set (l := segment_ids _).
  assert (Hin : ∀ n, n ∈ l ↔ n ∈ (ids ++ [x]).*2).
  { intros n. unfold l, segment_ids. rewrite list_elem_of_omap. split.
    - intros ([name i] & Hi & Hn). unfold insertion_sort in Hi. rewrite foldl_insert_perm in Hi. cbn in Hi.
      apply elem_of_map_to_list in Hi. destruct (Hdom name) as (y & Hy & ->); [eauto|].
      cbn in Hn. destruct i; [|done]. pose proof (Hpos y Hy). rewrite ParseUint_FormatUint in Hn by lia.
      simplify_eq. by apply list_elem_of_fmap_2.
    - intros (y & -> & Hy)%list_elem_of_fmap. pose proof (Hpos y Hy) as Hyb.
      pose proof (r_segs _ _ _ _ HR) as Hs. apply list_elem_of_lookup in Hy as [j Hj].
      destruct (Forall2_lookup_l _ _ _ _ _ Hs Hj) as (s & _ & (dn & off & t & _ & Hf & _)).
      exists (FormatUint y.2, FileNode (layout dn (a_rest s)) t). split.
      + unfold insertion_sort. rewrite foldl_insert_perm. cbn. apply elem_of_map_to_list.
        unfold file_at in Hf. by rewrite Hd in Hf.
      + cbn. apply ParseUint_FormatUint. lia. }
  destruct (foldl_max l 0) as (H1 & H2 & H3). set (r := foldl _ _ _) in *.
  assert (Hx : 0 < x.2 ≤ k) by (apply Hpos; set_solver).
  assert (Hxr : x.2 ≤ r) by (apply H2, Hin, list_elem_of_fmap_2; set_solver).
  assert (r = x.2) as ->.
  { destruct H3 as [|H3]; [lia|]. apply Hin in H3. pose proof (r_ids _ _ _ _ HR) as Hsort.
    rewrite fmap_app in H3, Hsort. apply elem_of_app in H3 as [H3|H3]; [|by apply list_elem_of_singleton in H3].
    apply StronglySorted_app in Hsort as (Hlt & _). specialize (Hlt r x.2 H3 ltac:(by left)). lia. }
  unfold mret, ST_ret. rewrite u64_small by (unfold is_u64; lia). done.
Qed.

Lemma newSegment_spec h d path mx :
  h_dir h = Some d → d !! path = None →
  newSegment path mx h =
  (U (set_heap (h_heap h ++ [mkSegment 0 (Some 0) path 0 0 mx]) h) d (length (h_heap h)) path mx
     8 (Some 8) 0 0 (layout [] []) (h_now h), Ok (length (h_heap h))).
Proof.
  intros Hd Hn. unfold newSegment. rewrite Hd, Hn. cbn [default].
  set (h0 := set_heap (h_heap h ++ [mkSegment 0 (Some 0) path 0 0 mx]) h).
  assert (Hlt : (length (h_heap h) < length (h_heap h0))%nat) by (cbn; rewrite length_app; cbn; lia).
  pose proof (U_open_new h0 d (length (h_heap h)) path mx Hlt (h_now h)) as Ho.
  apply (st_bind_ok _ (λ _, mret (length (h_heap h)))) in Ho. etransitivity; [|exact Ho].
  f_equal. unfold U, set_heap, set_dir. cbn. f_equal.
  by rewrite insert_app_r_alt, Nat.sub_diag by lia.
Qed.

(** A state with one more segment, empty and open, at the end. *)
Lemma Rel_snoc k h h' d ids x a p t :
  Rel k h (ids ++ [x]) a → usage (aq_segs a) + 8 ≤ aq_max a + 16 →
  h_dir h = Some d → h_dir h' = Some (<[FormatUint (x.2 + 1) := FileNode (layout [] []) t]> d) →
  d !! FormatUint (x.2 + 1) = None → 0 < x.2 ≤ k →
  (∀ q, (q < p)%nat → h_heap h' !! q = h_heap h !! q) → p = length (h_heap h) →
  h_heap h' !! p = Some (mkSegment 8 (Some 8) (FormatUint (x.2 + 1)) 0 0 (aq_segMax a)) →
  h_queue h' = mkQueue (q_head (h_queue h)) (Some p) (aq_segMax a) (aq_max a) (Some ((ids ++ [x]).*1 ++ [p])) →
  Rel (k + 1) h' (ids ++ [x] ++ [(p, x.2 + 1)]) (with_segs (aq_segs a ++ [ASeg 8 []]) a).
Proof.
  intros HR Hu Hd Hd' Hfresh Hx Hheap Hp Hnew Hq. rewrite app_assoc.
  pose proof (r_segs _ _ _ _ HR) as Hs.
  assert (Hptr : ∀ y, y ∈ ids ++ [x] → (y.1 < p)%nat ∧ FormatUint y.2 ≠ FormatUint (x.2 + 1)).
  { intros y [j Hj]%list_elem_of_lookup. destruct (Forall2_lookup_l _ _ _ _ _ Hs Hj) as (s & _ & Hrep).
    destruct Hrep as (dn & off & t' & Hl & Hf & _). rewrite Hp. split; [by eapply lookup_lt_Some|].
    intros He. unfold file_at in Hf. rewrite Hd, He in Hf. cbn in Hf. congruence. }
  split; rewrite ?Hq; cbn [q_head q_tail q_maxSegmentSize q_maxSize q_segments with_segs aq_segs aq_segMax aq_max];
    try apply HR; rewrite ?fmap_app; try done.
  - eexists. split; [done|]. intros name Hname. destruct (decide (name = FormatUint (x.2 + 1))) as [->|].
    + exists (p, x.2 + 1). set_solver.
    + rewrite lookup_insert_ne in Hname by done. destruct (r_dir _ _ _ _ HR) as (d0 & Hd0 & Hdom).
      rewrite Hd in Hd0. simplify_eq. destruct (Hdom name Hname) as (y & Hy & ->). exists y. set_solver.
  - rewrite <- fmap_app. apply StronglySorted_app. split_and!; [|apply HR|repeat constructor].
    pose proof (r_ids _ _ _ _ HR) as Hi. rewrite fmap_app in Hi |- *.
    apply StronglySorted_app in Hi as (Hlt & _). intros u v Hu' ->%list_elem_of_singleton. cbn.
    apply elem_of_app in Hu' as [Hu'|Hu'%list_elem_of_singleton]; [|subst; cbn; lia].
    specialize (Hlt u x.2 Hu' ltac:(by left)). lia.
  - apply Forall_app. split; [|constructor; [cbn; lia|constructor]].
    eapply Forall_impl; [apply HR|]. cbn. lia.
  - rewrite <- fmap_app. apply NoDup_app. split_and!; [apply HR| |apply NoDup_singleton].
    intros q (y & -> & Hy)%list_elem_of_fmap Hq'%list_elem_of_singleton. cbn in Hq'.
    destruct (Hptr y Hy). lia.
  - rewrite (r_head _ _ _ _ HR), fmap_app. by destruct ids.
  - by rewrite last_app.
  - by destruct ids.
  - apply Forall2_app; [|constructor; [|constructor]].
    + eapply Forall2_impl_elem; [exact Hs|]. intros y s Hy. destruct (Hptr y Hy). apply seg_rep_frame; [by apply Hheap|].
      unfold file_at. rewrite Hd, Hd'. cbn. by rewrite lookup_insert_ne.
    + exists [], 8, t. unfold file_at. rewrite Hd'. cbn. rewrite lookup_insert_eq. by split_and!.
  - rewrite usage_app. cbn. lia.
Qed.

Lemma Rel_newest k h ids x a y : Rel k h (ids ++ [x]) a → y ∈ ids ++ [x] → 0 < y.2 ≤ x.2.
Proof.
  intros HR Hy. pose proof (r_pos _ _ _ _ HR) as Hpos. rewrite Forall_forall in Hpos. specialize (Hpos y Hy).
  pose proof (r_ids _ _ _ _ HR) as Hids. rewrite fmap_app in Hids.
  apply elem_of_app in Hy as [Hy|Hy%list_elem_of_singleton]; [|subst; lia].
  apply StronglySorted_app in Hids as (Hlt & _).
  specialize (Hlt y.2 x.2 (list_elem_of_fmap_2 snd _ _ Hy) ltac:(by left)). cbn in Hpos. lia.
Qed.

(** [addSegment] makes a file with the next number; the tail pointer is not its
    business. *)
Lemma addSegment_run k h d ids x a :
  Rel k h (ids ++ [x]) a → k + 1 < 2 ^ 64 → h_dir h = Some d →
  let p := length (h_heap h) in
  let path := FormatUint (x.2 + 1) in
  d !! path = None ∧
  queue_addSegment h =
    (set_queue (set_segments (Some ((ids ++ [x]).*1 ++ [p])) (h_queue h))
       (U (set_heap (h_heap h ++ [mkSegment 0 (Some 0) path 0 0 (aq_segMax a)]) h) d p path (aq_segMax a)
          8 (Some 8) 0 0 (layout [] []) (h_now h)), Ok p).
Proof.
  intros HR Hk Hd p path. pose proof (Rel_newest k h ids x a x HR ltac:(set_solver)) as Hx.
  pose proof (r_pos _ _ _ _ HR) as Hpos. rewrite Forall_forall in Hpos. specialize (Hpos x ltac:(set_solver)). cbn in Hpos.
  destruct (r_dir _ _ _ _ HR) as (d0 & Hd0 & Hdom). rewrite Hd in Hd0. injection Hd0 as <-.
  assert (Hfresh : d !! path = None).
  { apply eq_None_not_Some. intros (y & Hy & He)%Hdom. pose proof (Rel_newest k h ids x a y HR Hy).
    apply FormatUint_inj in He; lia. }
  split; [done|]. pose proof (newSegment_spec h d path (aq_segMax a) Hd Hfresh) as Hnew.
  unfold queue_addSegment. erewrite st_bind_ok by (by eapply nextSegmentID_spec).
  erewrite st_bind_ok by done. rewrite (r_segMax _ _ _ _ HR), (st_bind_ok _ _ _ _ _ Hnew).
  erewrite st_bind_ok by done. unfold set_segments. cbn. by rewrite (r_segments _ _ _ _ HR).
Qed.

Lemma addSegment_spec k h ids x a :
  Rel k h (ids ++ [x]) a → k + 1 < 2 ^ 64 → usage (aq_segs a) + 8 ≤ aq_max a + 16 →
  ∃ h' p, queue_addSegment h = (h', Ok p) ∧
    Rel (k + 1) (set_queue (set_tail (Some p) (h_queue h')) h') (ids ++ [x] ++ [(p, x.2 + 1)])
      (with_segs (aq_segs a ++ [ASeg 8 []]) a).
Proof.
  intros HR Hk Hu. destruct (Rel_dir _ _ _ _ HR) as (d & Hd).
  destruct (addSegment_run k h d ids x a HR Hk Hd) as [Hfresh Hadd]. do 2 eexists. split; [exact Hadd|].
  pose proof (r_pos _ _ _ _ HR) as Hpos. rewrite Forall_forall in Hpos. specialize (Hpos x ltac:(set_solver)).
  eapply (Rel_snoc k h _ d ids x a (length (h_heap h)) (h_now h)); try done.
  - intros q Hq. cbn. rewrite list_lookup_insert_ne, lookup_app_l by lia. done.
  - cbn. rewrite list_lookup_insert_eq; [done|]. rewrite length_app. cbn. lia.
  - cbn. unfold set_tail, set_segments. cbn. by rewrite (r_segMax _ _ _ _ HR), (r_max _ _ _ _ HR).
Qed.

(** ** [Append] *)

Lemma Rel_weaken k k' h ids a : k ≤ k' → Rel k h ids a → Rel k' h ids a.
Proof.
  intros Hk HR. split; try apply HR. eapply Forall_impl; [apply HR|]. cbn. lia.
Qed.

Lemma append_full mx h x a b :
  seg_rep mx h x a → mx < a_size a + go_len b < 2 ^ 63 → segment_append x.1 b h = (h, Err ErrSegmentFull).
Proof.
  intros Hrep Hb. pose proof (seg_size_nonneg _ _ _ _ Hrep). destruct Hrep as (dn & off & t & Hs & _).
  pose proof (go_len_nonneg b).
  unfold segment_append. rewrite (st_bind_ok _ _ _ h _) by (unfold deref; by rewrite Hs).
  cbn [seg_file seg_maxSize seg_size]. rewrite i64_small by (unfold is_i64; lia).
  by rewrite (proj2 (Z.ltb_lt _ _)) by lia.
Qed.

Lemma Rel_seg_last k h ids x a l0 z :
  Rel k h (ids ++ [x]) a → aq_segs a = l0 ++ [z] → length ids = length l0 → seg_rep (aq_segMax a) h x z.
Proof.
  intros HR Hl Hlen. pose proof (r_segs _ _ _ _ HR) as Hs. rewrite Hl in Hs.
  apply Forall2_app_inv in Hs as [_ Hs]; [|done]. by inversion Hs.
Qed.

(** Appending to the last segment. *)
Lemma append_last k h ids x a l0 z b :
  Rel k h (ids ++ [x]) a → aq_segs a = l0 ++ [z] → length ids = length l0 → k < 2 ^ 64 →
  b ≠ [] → a_size z + go_len b ≤ aq_segMax a → usage (aq_segs a) + go_len b ≤ aq_max a + 8 →
  ∃ h', segment_append x.1 b h = (h', Ok ()) ∧ Rel k h' (ids ++ [x]) (with_segs (l0 ++ [grow b z]) a).
Proof.
  intros HR Hl Hlen Hk Hb Hfit Hu. destruct (Rel_dir _ _ _ _ HR) as [d Hd].
  pose proof (r_bounds _ _ _ _ HR). pose proof (Rel_seg_last _ _ _ _ _ _ _ HR Hl Hlen) as Hz.
  pose proof (seg_size_nonneg _ _ _ _ Hz).
  destruct (append_touch _ h d x z b Hz Hd) as (size & file & pos & cur & c & t & Ha & Hrep); [lia|lia|done|lia|].
  eexists. split; [exact Ha|]. eapply (Rel_touch k h d ids [] x a l0 [] z); try done.
  rewrite usage_app. rewrite Hl, usage_app in Hu. cbn in *. lia.
Qed.

Lemma alter_last {A} (f : A → A) l (z : A) : alter f (pred (length (l ++ [z]))) (l ++ [z]) = l ++ [f z].
Proof.
  rewrite length_app, Nat.add_1_r. cbn [pred length]. rewrite (alter_app_r_alt f) by lia.
  by rewrite Nat.sub_diag.
Qed.

Lemma Append_refines k h a b :
  R k h a → k + 1 < 2 ^ 64 → b ≠ [] → go_len b < 2 ^ 62 →
  ∃ h', queue_Append b h = (h', (spec_Append b a).2) ∧ R (k + 1) h' (spec_Append b a).1.
Proof.
  intros [ids HR] Hk Hb Hbig. unfold queue_Append. rewrite (st_bind_ok _ _ _ h (h_queue h)) by done.
  destruct (Rel_last _ _ _ _ HR) as (ids0 & x & l0 & z & -> & Hl & Hlen & Htl & Hz).
  pose proof (r_usage _ _ _ _ HR). pose proof (r_bounds _ _ _ _ HR). pose proof (go_len_nonneg b).
  pose proof (usage_nonneg _ _ _ _ (r_segs _ _ _ _ HR)) as Hu0.
  rewrite Htl, (st_bind_ok _ _ _ h _) by (eapply diskUsage_spec, HR).
  assert (Hin : a_size z ≤ usage (aq_segs a)).
  { eapply usage_elem; [apply HR|]. rewrite Hl. set_solver. }
  rewrite (r_max _ _ _ _ HR). unfold spec_Append.
  rewrite i64_small by (unfold is_i64; lia).
  destruct (Z.ltb_spec (aq_max a) (usage (aq_segs a) + go_len b)) as [Hfull|Hroom].
  { exists h. split; [done|]. exists (ids0 ++ [x]). eapply Rel_weaken; [|exact HR]. lia. }
  assert (Hlast : last (aq_segs a) = Some z) by (rewrite Hl; apply last_snoc). rewrite Hlast.
  destruct (Z.ltb_spec (aq_segMax a) (a_size z + go_len b)).
  - rewrite (st_bind_ok _ _ _ h _) by (eapply st_try_err, append_full; [exact Hz|lia]).
    destruct (addSegment_spec k h ids0 x a HR Hk) as (h1 & p & Hadd & HR1); [lia|].
    rewrite (st_bind_ok _ _ _ _ _ Hadd). erewrite st_bind_ok by done.
    fold (set_queue (set_tail (Some p) (h_queue h1)) h1). set (h2 := set_queue _ _) in *.
    rewrite app_assoc in HR1. destruct (Z.ltb_spec (aq_segMax a) (8 + go_len b)).
    + exists h2. split; [|by eexists]. 
      apply (append_full (aq_segMax a) h2 (p, x.2 + 1) (ASeg 8 [])); [|cbn; lia].
      eapply (Rel_seg_last _ _ _ _ _ (aq_segs a) _ HR1); [done|]. rewrite Hl, !length_app. cbn. lia.
    + destruct (append_last (k + 1) h2 (ids0 ++ [x]) (p, x.2 + 1) _ (aq_segs a) (ASeg 8 []) b HR1)
        as (h3 & Ha & HR3); cbn; try done; try lia.
      * rewrite Hl, !length_app. cbn. lia.
      * rewrite usage_app. cbn. lia.
      * exists h3. split; [exact Ha|by eexists].
  - destruct (append_last k h ids0 x a l0 z b HR Hl Hlen) as (h3 & Ha & HR3); [lia|done|lia|lia|].
    rewrite (st_bind_ok _ _ _ h3 _) by (by apply st_try_ok). exists h3. split; [done|].
    rewrite Hl, alter_last. eexists. eapply Rel_weaken; [|exact HR3]. lia.
Qed.

(** ** [Current] *)

Lemma with_segs_id a : with_segs (aq_segs a) a = a.
Proof. by destruct a. Qed.

Lemma Rel_size_lt k h ids a s : Rel k h ids a → s ∈ aq_segs a → a_size s < 2 ^ 62.
Proof.
  intros HR Hin. pose proof (usage_elem _ _ _ _ _ (r_segs _ _ _ _ HR) Hin).
  pose proof (r_usage _ _ _ _ HR). pose proof (r_bounds _ _ _ _ HR). lia.
Qed.

Lemma Current_refines k h a :
  R k h a → k < 2 ^ 64 → ∃ h', queue_Current h = (h', spec_Current a) ∧ R k h' a.
Proof.
  intros [ids HR] Hk. destruct (Rel_first _ _ _ _ HR) as (x & ids' & s & l & -> & Hl & Hhd & Hs).
  destruct (Rel_dir _ _ _ _ HR) as [d Hd].
  assert (Hlt : a_size s < 2 ^ 62) by (eapply Rel_size_lt; [exact HR|rewrite Hl; by left]).
  unfold queue_Current, spec_Current. rewrite (st_bind_ok _ _ _ h (h_queue h)) by done. rewrite Hhd, Hl.
  pose proof (seg_rep_blocks _ _ _ _ Hs) as Hall.
  destruct (seg_rep_U _ _ _ _ _ Hs Hd) as (dn & off & t & Hp & Hsz & Hh). destruct s as [n [|b rest]]; cbn in *.
  - exists h. split; [|by eexists]. rewrite Hh at 1. subst n.
    rewrite U_current_eof by (done || lia). by rewrite <- Hh.
  - pose proof (Forall_inv Hall) as [Hb Hbm]. subst n.
    pose proof (U_current h d x.1 (FormatUint x.2) (aq_segMax a) Hp off (go_len b) dn b rest t) as Hc.
    rewrite <- Hh in Hc. eexists. split; [apply Hc; [lia|done]|]. exists (x :: ids').
    rewrite <- (with_segs_id a), Hl. cbn [aq_segMax].
    apply (Rel_touch k h d [] ids' x a [] l (ASeg (go_len (layout dn (b :: rest))) (b :: rest))); try done.
    + by apply (U_seg_rep _ h d x (ASeg (go_len (layout dn (b :: rest))) (b :: rest)) dn).
    + pose proof (r_usage _ _ _ _ HR) as Hu. by rewrite Hl in Hu.
Qed.

(** ** [trimHead] and [Advance] *)

Lemma trim_run mx h d x s y r :
  q_segments (h_queue h) = Some (x.1 :: y :: r) → q_head (h_queue h) = Some x.1 →
  seg_rep mx h x s → h_dir h = Some d →
  ∃ closed, seg_file closed = None ∧ queue_trimHead h =
    (mkHh (Some (delete (FormatUint x.2) d)) (h_now h) (<[x.1 := closed]> (h_heap h))
       (set_head (Some y) (set_segments (Some (y :: r)) (h_queue h))), Ok ()).
Proof.
  intros Hq Hhd Hx Hd. destruct (seg_rep_U _ _ _ _ _ Hx Hd) as (dn & off & t & Hp & Hsz & Hh).
  unfold queue_trimHead, get_segments. rewrite (st_bind_ok _ _ _ h (x.1 :: y :: r)).
  2: { unfold st_get. by rewrite Hq. }
  erewrite st_bind_ok by done. fold (set_queue (set_segments (Some (y :: r)) (h_queue h)) h).
  set (h1 := set_queue _ h). rewrite (st_bind_ok _ _ _ h1 (h_queue h1)) by done.
  rewrite (st_bind_ok _ _ _ h1 x.1) by (cbn; by rewrite Hhd).
  pose proof (U_close h1 d x.1 (FormatUint x.2) mx Hp (a_size s) off (go_len (blocks dn))
    (first_len (a_rest s)) (layout dn (a_rest s)) t) as Hc.
  assert (Hh1 : U h1 d x.1 (FormatUint x.2) mx (a_size s) (Some off) (go_len (blocks dn))
    (first_len (a_rest s)) (layout dn (a_rest s)) t = h1).
  { unfold h1 at 2. rewrite Hh at 2. done. }
  rewrite Hh1 in Hc. rewrite (st_bind_ok _ _ _ _ _ Hc). erewrite st_bind_ok by (by apply U_deref).
  cbn [seg_path]. set (h2 := U _ _ _ _ _ _ _ _ _ _ _).
  rewrite (st_bind_ok _ _ _ (set_dir (Some (delete (FormatUint x.2) d)) h2) ()).
  2: { unfold os_Remove, h2. cbn. rewrite lookup_insert_eq. cbn. by rewrite delete_insert_eq. }
  eexists. split; [|reflexivity]. done.
Qed.

Lemma drop_head k h x y ids a s l :
  Rel k h (x :: y :: ids) a → aq_segs a = s :: l → k < 2 ^ 64 →
  ∃ h', queue_trimHead h = (h', Ok ()) ∧ Rel k h' (y :: ids) (with_segs l a) ∧
    h_now h' = h_now h ∧ h_dir h' = delete (FormatUint x.2) <$> h_dir h.
Proof.
  intros HR Hl Hk. destruct (r_dir _ _ _ _ HR) as (d & Hd & Hdom).
  pose proof (r_segs _ _ _ _ HR) as Hs. rewrite Hl in Hs. inversion Hs as [|? ? ? ? Hx Hrest]; subst.
  pose proof (seg_size_nonneg _ _ _ _ Hx).
  destruct (trim_run _ h d x s y.1 ids.*1 (r_segments _ _ _ _ HR) (r_head _ _ _ _ HR) Hx Hd) as (cl & _ & Ht).
  eexists. split; [exact Ht|]. pose proof (Rel_name_ne k h [] (y :: ids) x) as Hne.
  split; [|by rewrite Hd]. split; cbn; try done; try apply HR.
  - eexists. split; [done|]. intros name Hn. destruct (decide (name = FormatUint x.2)) as [->|].
    + rewrite lookup_delete_eq in Hn. by destruct Hn.
    + rewrite lookup_delete_ne in Hn by done. destruct (Hdom name Hn) as (z & Hz & ->).
      exists z. split; [|done]. apply elem_of_cons in Hz as [->|]; done.
  - pose proof (r_ids _ _ _ _ HR) as Hi. by apply StronglySorted_inv in Hi as [].
  - pose proof (r_pos _ _ _ _ HR) as Hi. by inversion Hi.
  - pose proof (r_ptr _ _ _ _ HR) as Hi. by apply NoDup_cons in Hi as [].
  - eapply Forall2_impl_elem; [exact Hrest|]. intros z b Hz. destruct (Hne z a HR Hk Hz). apply seg_rep_frame.
    + cbn. by rewrite list_lookup_insert_ne.
    + unfold file_at. rewrite Hd. cbn. by rewrite lookup_delete_ne.
  - pose proof (r_usage _ _ _ _ HR) as Hu. rewrite Hl in Hu. cbn in Hu. lia.
Qed.

Lemma trim_refines k h ids a n l :
  Rel k h ids a → aq_segs a = ASeg n [] :: l → k < 2 ^ 64 →
  ∃ h', queue_trimHead h = (h', Ok ()) ∧ R k h' (with_segs (spec_trim (aq_segs a)) a).
Proof.
  intros HR Hl Hk. pose proof (r_segs _ _ _ _ HR) as Hs. rewrite Hl in Hs.
  destruct l as [|s l].
  - inversion Hs as [|x ? ids' ? _ Hnil]; subst. inversion Hnil; subst. exists h. split.
    + unfold queue_trimHead, get_segments. rewrite (st_bind_ok _ _ _ h [x.1]); [done|].
      unfold st_get. by rewrite (r_segments _ _ _ _ HR).
    + exists [x]. rewrite Hl. cbn. rewrite <- Hl. by rewrite with_segs_id.
  - inversion Hs as [|x ? ids' ? _ Hrest]; subst. inversion Hrest as [|y ? ids ? ]; subst.
    destruct (drop_head k h x y ids a (ASeg n []) (s :: l) HR Hl Hk) as (h' & Ht & HR' & _).
    exists h'. split; [done|]. rewrite Hl. by exists (y :: ids).
Qed.

(** The head moves past its first block. *)
Lemma advance_head k h ids a n b rest l :
  Rel k h ids a → aq_segs a = ASeg n (b :: rest) :: l → k < 2 ^ 64 →
  ∃ h' hd, q_head (h_queue h) = Some hd ∧
    segment_advance hd h = (h', match rest with [] => Err ErrEOF | _ => Ok () end) ∧
    Rel k h' ids (with_segs (ASeg n rest :: l) a).
Proof.
  intros HR Hl Hk. destruct (Rel_first _ _ _ _ HR) as (x & ids' & s & l' & -> & Hl' & Hhd & Hs).
  rewrite Hl in Hl'. injection Hl' as <- <-. destruct (Rel_dir _ _ _ _ HR) as [d Hd].
  assert (Hlt : n < 2 ^ 62) by (eapply (Rel_size_lt k h _ a (ASeg n (b :: rest)) HR); rewrite Hl; by left).
  pose proof (seg_rep_blocks _ _ _ _ Hs) as Hall. cbn in Hall. inversion Hall as [|? ? _ Hall']; subst.
  destruct (seg_rep_U _ _ _ _ _ Hs Hd) as (dn & off & t & Hp & Hsz & Hh). cbn in *. subst n.
  destruct (U_advance h d x.1 (FormatUint x.2) (aq_segMax a) Hp off dn b rest t) as [off' Ha]; [lia|].
  rewrite <- Hh in Ha. eexists _, x.1. split; [done|]. split; [exact Ha|].
  assert (Hsz : go_len (layout (dn ++ [b]) rest) = go_len (layout dn (b :: rest))).
  { rewrite !go_len_layout, blocks_app, blocks_singleton, blocks_cons, !go_len_app. lia. }
  rewrite Hsz.
  apply (Rel_touch k h d [] ids' x a [] l (ASeg (go_len (layout dn (b :: rest))) (b :: rest))
    (ASeg (go_len (layout dn (b :: rest))) rest)); try done.
  - by apply (U_seg_rep _ h d x (ASeg (go_len (layout dn (b :: rest))) rest) (dn ++ [b])).
  - pose proof (r_usage _ _ _ _ HR) as Hu. by rewrite Hl in Hu.
Qed.

(** At the end of the head nothing moves. *)
Lemma advance_end k h ids a n l :
  Rel k h ids a → aq_segs a = ASeg n [] :: l →
  ∃ hd, q_head (h_queue h) = Some hd ∧ segment_advance hd h = (h, Err ErrEOF).
Proof.
  intros HR Hl. destruct (Rel_first _ _ _ _ HR) as (x & ids' & s & l' & -> & Hl' & Hhd & Hs).
  rewrite Hl in Hl'. injection Hl' as <- <-. destruct (Rel_dir _ _ _ _ HR) as [d Hd].
  assert (Hlt : n < 2 ^ 62) by (eapply (Rel_size_lt k h _ a (ASeg n []) HR); rewrite Hl; by left).
  destruct (seg_rep_U _ _ _ _ _ Hs Hd) as (dn & off & t & Hp & Hsz & Hh). cbn in *. subst n.
  exists x.1. split; [done|]. rewrite Hh at 1. rewrite U_advance_eof by (done || lia). by rewrite <- Hh.
Qed.

Lemma Advance_refines k h a :
  R k h a → k < 2 ^ 64 → ∃ h', queue_Advance h = (h', Ok ()) ∧ R k h' (spec_Advance a).
Proof.
  intros [ids HR] Hk. unfold queue_Advance, spec_Advance. rewrite (st_bind_ok _ _ _ h (h_queue h)) by done.
  destruct (Rel_first _ _ _ _ HR) as (_ & _ & [n [|b rest]] & l & _ & Hl & _ & _); rewrite Hl.
  - destruct (advance_end _ _ _ _ _ _ HR Hl) as (hd & -> & Ha).
    rewrite (st_bind_ok _ _ _ h _) by (by apply st_try_err).
    rewrite <- Hl. by eapply trim_refines.
  - destruct (advance_head _ _ _ _ _ _ _ _ HR Hl Hk) as (h1 & hd & -> & Ha & HR1).
    destruct rest as [|b' rest].
    + rewrite (st_bind_ok _ _ _ h1 _) by (by apply st_try_err).
      by apply (trim_refines k h1 ids (with_segs (ASeg n [] :: l) a) n l).
    + rewrite (st_bind_ok _ _ _ h1 _) by (by apply st_try_ok). exists h1. split; [done|by exists ids].
Qed.
