(* ===== verification/HhProps.v ===== *)
(** * What the disk queue of hinted handoff guarantees

    Runs of [Append], [Current] and [Advance] against the specification of
    [HhSpec]; order and completeness of delivery; and three ways in which blocks
    are held back, lost or reordered. *)

From stdpp Require Import base list gmap strings sorting.
From Stdlib Require Import ZArith Lia.
From S2P Require Import Prelude Binary HhQueue HhSegment HhSpec.

Local Open Scope Z_scope.

(** ** Runs *)

Inductive Op := OpAppend (b : list Z) | OpCurrent | OpAdvance.

#[export] Instance Op_eq_dec : EqDecision Op.
Proof. solve_decision. Defined.

Definition Result : Type := outcome hhError (option (list Z)).

Definition exec_op (op : Op) (h : HhState) : HhState * Result :=
  match op with
  | OpAppend b => let '(h, r) := queue_Append b h in (h, outcome_map (λ _, None) r)
  | OpCurrent => let '(h, r) := queue_Current h in (h, outcome_map Some r)
  | OpAdvance => let '(h, r) := queue_Advance h in (h, outcome_map (λ _, None) r)
  end.

Definition spec_op (op : Op) (a : aqueue) : aqueue * Result :=
  match op with
  | OpAppend b => let '(a, r) := spec_Append b a in (a, outcome_map (λ _, None) r)
  | OpCurrent => (a, outcome_map Some (spec_Current a))
  | OpAdvance => (spec_Advance a, Ok None)
  end.

Fixpoint run {S : Type} (step : Op → S → S * Result) (ops : list Op) (s : S) : S * list Result :=
  match ops with
  | [] => (s, [])
  | op :: ops =>
      let '(s, r) := step op s in
      let '(s, rs) := run step ops s in (s, r :: rs)
  end.

(** The blocks whose [Append] returned nil. *)
Fixpoint accepted (ops : list Op) (rs : list Result) : list (list Z) :=
  match ops, rs with
  | OpAppend b :: ops, Ok _ :: rs => b :: accepted ops rs
  | _ :: ops, _ :: rs => accepted ops rs
  | _, _ => []
  end.

(** The blocks that were current when [Advance] was called. *)
Definition block_at {S} (current : S → outcome hhError (list Z)) (op : Op) (s : S) : list (list Z) :=
  match op, current s with
  | OpAdvance, Ok b => [b]
  | _, _ => []
  end.
Fixpoint delivered {S} (step : Op → S → S * Result) (current : S → outcome hhError (list Z))
    (ops : list Op) (s : S) : list (list Z) :=
  match ops with
  | [] => []
  | op :: ops => block_at current op s ++ delivered step current ops (step op s).1
  end.

(** Blocks are never empty: [marshalWrite] puts the shard ID in front. *)
Definition op_ok (op : Op) : Prop :=
  match op with OpAppend b => b ≠ [] ∧ go_len b < 2 ^ 62 | _ => True end.

(** A queue on an empty directory, before and after [Open]. *)
Definition fresh (now : Time) (segMax maxSize : Z) : HhState :=
  mkHh (Some ∅) now [] (set_maxSegmentSize segMax (newQueue maxSize)).
Definition opened (now : Time) (segMax maxSize : Z) : HhState := (queue_Open (fresh now segMax maxSize)).1.
Definition spec_opened (segMax maxSize : Z) : aqueue := AQueue [ASeg 8 []] segMax maxSize.

(** ** Runs are related *)

Lemma run_app {S} (step : Op → S → S * Result) l1 l2 s :
  run step (l1 ++ l2) s =
  ((run step l2 (run step l1 s).1).1, (run step l1 s).2 ++ (run step l2 (run step l1 s).1).2).
Proof.
  revert s. induction l1 as [|op l1 IH]; intros s; cbn [app run].
  - cbn. by destruct (run step l2 s).
  - destruct (step op s) as [s1 r]. rewrite IH. by destruct (run step l1 s1).
Qed.

Lemma opened_eq now segMax maxSize :
  queue_Open (fresh now segMax maxSize) =
  (mkHh (Some {["1"%string := FileNode (layout [] []) now]}) now
     [mkSegment 8 (Some 8) "1" 0 0 segMax] (mkQueue (Some 0%nat) (Some 0%nat) segMax maxSize (Some [0%nat])), Ok ()).
Proof. reflexivity. Qed.

Lemma opened_R now segMax maxSize :
  0 ≤ segMax < 2 ^ 61 → 0 ≤ maxSize < 2 ^ 61 → R 1 (opened now segMax maxSize) (spec_opened segMax maxSize).
Proof.
  intros H1 H2. unfold opened. rewrite opened_eq. exists [(0%nat, 1)]. split; cbn; try done.
  - eexists. split; [done|]. intros name Hn. destruct (decide (name = "1"%string)) as [->|].
    + exists (0%nat, 1). split; [by left|done].
    + rewrite lookup_singleton_ne in Hn by done. by destruct Hn.
  - repeat constructor.
  - constructor; [cbn; lia|constructor].
  - apply NoDup_singleton.
  - repeat constructor. exists [], 8, now. split_and!; try done.
  - lia.
Qed.

Lemma step_refines k h a op :
  R k h a → k + 1 < 2 ^ 64 → op_ok op →
  ∃ h', exec_op op h = (h', (spec_op op a).2) ∧ R (k + 1) h' (spec_op op a).1.
Proof.
  intros HR Hk Hop. assert (Hw : ∀ h' a', R k h' a' → R (k + 1) h' a').
  { intros h' a' [ids H]. exists ids. eapply Rel_weaken; [|exact H]. lia. }
  destruct op as [b| |]; cbn.
  - destruct Hop. destruct (Append_refines k h a b HR) as (h' & -> & HR'); [done..|].
    exists h'. by destruct (spec_Append b a).
  - destruct (Current_refines k h a HR) as (h' & -> & HR'); [lia|]. exists h'. auto.
  - destruct (Advance_refines k h a HR) as (h' & -> & HR'); [lia|]. exists h'. auto.
Qed.

Lemma run_refines k h a ops :
  R k h a → k + Z.of_nat (length ops) < 2 ^ 64 → Forall op_ok ops →
  (run exec_op ops h).2 = (run spec_op ops a).2 ∧
  R (k + Z.of_nat (length ops)) (run exec_op ops h).1 (run spec_op ops a).1 ∧
  delivered exec_op (λ h, (queue_Current h).2) ops h = delivered spec_op spec_Current ops a.
Proof.
  intros HR Hk Hops. revert k h a HR Hk. induction Hops as [|op ops Hop _ IH]; intros k h a HR Hk; cbn [run delivered].
  - split_and!; [done| |done]. cbn. by rewrite Z.add_0_r.
  - cbn [length] in *. destruct (step_refines k h a op HR ltac:(lia) Hop) as (h1 & Hs & HR1).
    rewrite Hs. destruct (spec_op op a) as [a1 r] eqn:Ha. cbn in HR1 |- *.
    destruct (IH (k + 1) h1 a1 HR1 ltac:(lia)) as (H1 & H2 & H3). rewrite H3.
    assert (Hb : block_at (λ h, (queue_Current h).2) op h = block_at spec_Current op a).
    { unfold block_at. destruct (Current_refines k h a HR) as (h' & -> & _); [lia|done]. }
    rewrite Hb. destruct (run exec_op ops h1) as [h2 rs], (run spec_op ops a1) as [a2 rs']. cbn in *.
    split_and!; [by rewrite H1| |done]. by replace (k + Z.of_nat (S (length ops))) with (k + 1 + Z.of_nat (length ops)) by lia.
Qed.

(** ** Accounting on the specification *)

Lemma pending_snoc l segMax m s : pending (AQueue (l ++ [s]) segMax m) = (l ≫= a_rest) ++ a_rest s.
Proof. unfold pending. cbn. rewrite bind_app. cbn. by rewrite app_nil_r. Qed.

Lemma spec_Append_pending b a :
  pending (spec_Append b a).1 = pending a ++ match (spec_Append b a).2 with Ok _ => [b] | _ => [] end.
Proof.
  unfold spec_Append. destruct (_ <? _); [by rewrite app_nil_r|].
  destruct (last (aq_segs a)) as [z|] eqn:Hz; [|by rewrite app_nil_r].
  apply last_Some in Hz as [l Hl]. unfold with_segs. rewrite Hl. destruct (_ <? _); [destruct (_ <? _)|].
  - cbn [fst snd]. rewrite pending_snoc. unfold pending. by rewrite Hl.
  - cbn [fst snd]. rewrite pending_snoc. unfold pending. by rewrite Hl.
  - cbn [fst snd]. rewrite alter_last, pending_snoc. unfold pending. rewrite Hl, bind_app. cbn.
    by rewrite app_nil_r, app_assoc.
Qed.

Lemma spec_trim_pending l : spec_trim l ≫= a_rest = l ≫= a_rest.
Proof. by destruct l as [|[n [|b rest]] [|s l]]. Qed.

Lemma spec_Advance_pending a :
  pending a = block_at spec_Current OpAdvance a ++ pending (spec_Advance a).
Proof.
  unfold pending, spec_Advance, block_at, spec_Current. destruct (aq_segs a) as [|[n [|b rest]] l]; [done| |].
  - cbn [aq_segs with_segs]. by rewrite spec_trim_pending.
  - cbn [aq_segs with_segs]. by rewrite spec_trim_pending.
Qed.

Lemma spec_run_pending ops a :
  pending a ++ accepted ops (run spec_op ops a).2 =
  delivered spec_op spec_Current ops a ++ pending (run spec_op ops a).1.
Proof.
  revert a. induction ops as [|op ops IH]; intros a; cbn [run delivered]; [by rewrite app_nil_r|].
  destruct (spec_op op a) as [a1 r] eqn:Ha. specialize (IH a1).
  destruct (run spec_op ops a1) as [a2 rs]. cbn [fst snd] in *. rewrite <- app_assoc, <- IH. destruct op as [b| |].
  - cbn in Ha. pose proof (spec_Append_pending b a) as Hp. destruct (spec_Append b a) as [a' r']. simplify_eq.
    cbn in Hp. destruct r'; cbn; rewrite Hp; by rewrite <- ?app_assoc, ?app_nil_r.
  - cbn in Ha. simplify_eq. by destruct (outcome_map Some (spec_Current a1)).
  - cbn in Ha. simplify_eq. cbn [accepted]. by rewrite (spec_Advance_pending a), <- app_assoc.
Qed.

(** ** Draining *)

(** Every [Advance] on a queue with blocks removes a block or a segment. *)
Definition weight (a : aqueue) : nat := length (pending a) + length (aq_segs a).

Lemma spec_Advance_weight a : pending a ≠ [] → (weight (spec_Advance a) < weight a)%nat.
Proof.
  unfold weight, pending, spec_Advance. destruct (aq_segs a) as [|[n [|b rest]] l]; [done| |];
    cbn [aq_segs with_segs]; rewrite spec_trim_pending; intros Hne.
  - destruct l as [|s l]; [done|]. cbn. lia.
  - cbn. destruct rest, l; cbn; lia.
Qed.

Lemma spec_Advance_empty a : pending a = [] → pending (spec_Advance a) = [].
Proof.
  intros He. pose proof (spec_Advance_pending a) as Hp. rewrite He in Hp. symmetry in Hp.
  by apply app_nil in Hp as [_ Hp].
Qed.

Lemma spec_op_weight op a : (weight (spec_op op a).1 ≤ weight a + 2)%nat.
Proof.
  destruct op as [b| |]; cbn; [|lia|].
  - pose proof (spec_Append_pending b a) as Hp. unfold weight.
    assert (Hs : (length (aq_segs (spec_Append b a).1) ≤ length (aq_segs a) + 1)%nat).
    { unfold spec_Append, with_segs. go_solve; cbn; rewrite ?length_app, ?length_alter; cbn; lia. }
    destruct (spec_Append b a) as [a' r]. cbn in *. rewrite Hp, length_app. destruct r; cbn; lia.
  - destruct (decide (pending a = [])) as [He|Hn]; [|pose proof (spec_Advance_weight a Hn); lia].
    unfold weight. rewrite (spec_Advance_empty a He), He. unfold spec_Advance.
    destruct (aq_segs a) as [|[n [|b [|b' rest]]] [|s l]]; cbn; lia.
Qed.

Lemma spec_run_weight ops a : (weight (run spec_op ops a).1 ≤ weight a + 2 * length ops)%nat.
Proof.
  revert a. induction ops as [|op ops IH]; intros a; cbn [run length]; [cbn; lia|].
  pose proof (spec_op_weight op a). destruct (spec_op op a) as [a1 r]. specialize (IH a1).
  destruct (run spec_op ops a1). cbn in *. lia.
Qed.

Lemma spec_drain n a : (weight a ≤ n)%nat → pending (run spec_op (replicate n OpAdvance) a).1 = [].
Proof.
  intros Hw. assert (Hn : pending a = [] ∨ (weight a ≤ n)%nat) by (by right). clear Hw.
  revert a Hn. induction n as [|n IH]; intros a Hn; cbn [replicate run spec_op].
  - cbn. destruct Hn as [|Hn]; [done|]. unfold weight in Hn. destruct (pending a); [done|cbn in Hn; lia].
  - specialize (IH (spec_Advance a)). destruct (run spec_op (replicate n OpAdvance) (spec_Advance a)). apply IH.
    destruct (decide (pending a = [])) as [He|Hne]; [left; by apply spec_Advance_empty|].
    destruct Hn as [|Hn]; [done|]. right. pose proof (spec_Advance_weight a Hne). lia.
Qed.


Lemma run_results_length {S} (step : Op → S → S * Result) ops s : length (run step ops s).2 = length ops.
Proof.
  revert s. induction ops as [|op ops IH]; intros s; cbn [run]; [done|].
  destruct (step op s) as [s1 r]. specialize (IH s1). destruct (run step ops s1). cbn in *. lia.
Qed.

Lemma accepted_app ops ops' rs rs' :
  length ops = length rs → accepted (ops ++ ops') (rs ++ rs') = accepted ops rs ++ accepted ops' rs'.
Proof.
  revert rs. induction ops as [|op ops IH]; intros [|r rs] Hl; cbn in *; try done.
  destruct op, r; rewrite IH by lia; done.
Qed.

Lemma accepted_no_append n rs : accepted (replicate n OpAdvance) rs = [].
Proof. revert rs. induction n as [|n IH]; intros [|r rs]; cbn; auto. Qed.

(** ** Theorems *)

(** C22: the disk queue implements its specification, a list of segments with
    the blocks that are left in each: for fewer than [2^63] calls of [Append],
    [Current] and [Advance] after [Open] on an empty directory, in any order, with
    blocks that are not empty and shorter than [2^62] bytes and with limits below
    [2^61] for the segments and the queue, every call returns what the specification
    returns, errors included, and no call panics.  The segment files, their footers
    and the offsets of the handles are not visible.  ([marshalWrite], the only
    caller, never makes an empty block; the queue loses its place behind one:
    [empty_block_misread].) *)
Theorem queue_refines_spec now segMax maxSize ops :
  0 ≤ segMax < 2 ^ 61 → 0 ≤ maxSize < 2 ^ 61 → Z.of_nat (length ops) < 2 ^ 63 → Forall op_ok ops →
  (queue_Open (fresh now segMax maxSize)).2 = Ok () ∧
  (run exec_op ops (opened now segMax maxSize)).2 = (run spec_op ops (spec_opened segMax maxSize)).2.
Proof.
  intros Hs Hm Hn Hops. split; [by rewrite opened_eq|].
  destruct (run_refines 1 _ _ ops (opened_R now segMax maxSize Hs Hm)) as (H & _ & _); [lia|done|done].
Qed.

(** Two blocks that fill a segment of 20 bytes, a third that opens another. *)
Definition demo_ops : list Op :=
  [OpAppend [1; 2]; OpAppend [3]; OpAppend [4]; OpCurrent; OpAdvance; OpCurrent; OpAdvance; OpAdvance; OpCurrent].

Lemma queue_refines_spec_witness :
  (run exec_op demo_ops (opened 0 20 1000)).2 = (run spec_op demo_ops (spec_opened 20 1000)).2 ∧
  (run spec_op demo_ops (spec_opened 20 1000)).2 =
    [Ok None; Ok None; Ok None; Ok (Some [1; 2]); Ok None; Ok (Some [3]); Ok None; Ok None; Err ErrEOF].
Proof.
  split; [|vm_compute; reflexivity]. apply queue_refines_spec; [lia|lia|cbn; lia|].
  repeat constructor; (discriminate || vm_compute; reflexivity).
Defined.

(** An empty block at the head: [append] takes the size 0 of the current block for
    no block and stores the size of the one appended, so that [advance] moves past
    the start of the next block. *)
Example empty_block_misread :
  (run exec_op [OpAppend []; OpAppend [7]; OpAdvance; OpCurrent] (opened 0 20 1000)).2 =
    [Ok None; Ok None; Ok None; Err (ErrMsg "record size out of range")] ∧
  (run spec_op [OpAppend []; OpAppend [7]; OpAdvance; OpCurrent] (spec_opened 20 1000)).2 =
    [Ok None; Ok None; Ok None; Ok (Some [7])].
Proof. split; vm_compute; reflexivity. Qed.

(** Every block whose [Append] returned nil is delivered once and in
    order: after any run, enough calls of [Advance] pass over exactly the
    accepted blocks, oldest first, each of them current when it is passed. *)
Theorem queue_delivers_in_order now segMax maxSize ops :
  0 ≤ segMax < 2 ^ 61 → 0 ≤ maxSize < 2 ^ 61 → Z.of_nat (length ops) < 2 ^ 62 → Forall op_ok ops →
  let h := opened now segMax maxSize in
  delivered exec_op (λ h, (queue_Current h).2) (ops ++ replicate (2 * length ops + 1) OpAdvance) h =
  accepted ops (run exec_op ops h).2.
Proof.
  intros Hs Hm Hn Hops h. set (n := (2 * length ops + 1)%nat).
  pose proof (opened_R now segMax maxSize Hs Hm) as HR. set (a := spec_opened segMax maxSize) in *.
  destruct (run_refines 1 h a ops HR) as (Hres & _ & _); [lia|done|].
  destruct (run_refines 1 h a (ops ++ replicate n OpAdvance) HR) as (_ & _ & Hdel).
  { rewrite length_app, length_replicate. unfold n. lia. }
  { apply Forall_app. split; [done|]. by apply Forall_replicate. }
  rewrite Hdel, Hres. pose proof (spec_run_pending (ops ++ replicate n OpAdvance) a) as Hp.
  rewrite run_app in Hp. cbn [fst snd] in Hp. rewrite accepted_app in Hp by (by rewrite run_results_length).
  rewrite accepted_no_append, spec_drain, !app_nil_r in Hp; [done|].
  pose proof (spec_run_weight ops a) as Hw. unfold weight at 2 in Hw. cbn in Hw. unfold n. lia.
Qed.

Lemma queue_delivers_in_order_witness :
  delivered exec_op (λ h, (queue_Current h).2)
    ([OpAppend [1; 2]; OpAppend [3]; OpAppend [4]] ++ replicate 7 OpAdvance) (opened 0 20 1000) = [[1; 2]; [3]; [4]].
Proof.
  etransitivity; [apply (queue_delivers_in_order 0 20 1000 [OpAppend [1; 2]; OpAppend [3]; OpAppend [4]])|].
  - lia.
  - lia.
  - cbn; lia.
  - repeat constructor; (discriminate || vm_compute; reflexivity).
  - vm_compute. reflexivity.
Defined.

(** ** A head without blocks *)

(** The head has been read to its end, and there is another segment. *)
Definition head_drained (a : aqueue) : Prop := ∃ n s l, aq_segs a = ASeg n [] :: s :: l.

Lemma spec_Append_head_drained b a : head_drained a → head_drained (spec_Append b a).1.
Proof.
  intros (n & s & l & Hl). unfold spec_Append, head_drained, with_segs. rewrite Hl.
  assert (Halt : ∃ s' l', alter (grow b) (pred (length (ASeg n [] :: s :: l))) (ASeg n [] :: s :: l) = ASeg n [] :: s' :: l').
  { cbn. destruct l; cbn; eauto. }
  destruct Halt as (s' & l' & Halt). go_solve; cbn [fst aq_segs]; rewrite ?Halt; cbn; eauto.
Qed.

Lemma run_head_drained ops a :
  OpAdvance ∉ ops → head_drained a → head_drained (run spec_op ops a).1.
Proof.
  revert a. induction ops as [|op ops IH]; intros a Hno Ha; cbn [run]; [done|].
  apply not_elem_of_cons in Hno as [Hop Hno].
  destruct (spec_op op a) as [a1 r] eqn:Hs. specialize (IH a1 Hno). destruct (run spec_op ops a1). apply IH.
  destruct op as [b| |]; cbn in Hs; [|by simplify_eq|done].
  pose proof (spec_Append_head_drained b a Ha). destruct (spec_Append b a). by simplify_eq.
Qed.

Lemma run_no_advance_delivers {S} (step : Op → S → S * Result) cur ops s :
  OpAdvance ∉ ops → delivered step cur ops s = [].
Proof.
  revert s. induction ops as [|op ops IH]; intros s Hno; cbn; [done|].
  apply not_elem_of_cons in Hno as [Hop Hno]. rewrite IH by done. by destruct op.
Qed.

(** A queue whose head segment has been read to its end while another
    segment exists reports [io.EOF] from [Current] for good: appending never
    helps, though every accepted block is kept.  Only [Advance] gets past it,
    and [NodeProcessor.SendWrite] calls [Advance] only after [Current]
    succeeded. *)
Theorem drained_head_blocks_queue k h a ops :
  R k h a → head_drained a → k + Z.of_nat (length ops) < 2 ^ 64 → Forall op_ok ops → OpAdvance ∉ ops →
  let h' := (run exec_op ops h).1 in
  (queue_Current h').2 = Err ErrEOF ∧
  ∃ a', R (k + Z.of_nat (length ops)) h' a' ∧
    pending a' = pending a ++ accepted ops (run exec_op ops h).2.
Proof.
  intros HR Ha Hk Hops Hno h'. destruct (run_refines k h a ops HR Hk Hops) as (Hres & HR' & _).
  destruct (run_head_drained ops a Hno Ha) as (n & s & l & Hl). split.
  - destruct (Current_refines _ _ _ HR' Hk) as (h2 & Hc & _). fold h' in Hc. rewrite Hc.
    unfold spec_Current. by rewrite Hl.
  - eexists. split; [exact HR'|]. rewrite Hres, spec_run_pending. by rewrite run_no_advance_delivers.
Qed.

(** One block is delivered; the next does not fit into the segment. *)
Definition rollover : list Op := [OpAppend [1; 2; 3; 4]; OpAdvance; OpAppend [5]].

Lemma drained_head_blocks_queue_witness :
  let h := (run exec_op rollover (opened 0 20 1000)).1 in
  (run exec_op rollover (opened 0 20 1000)).2 = [Ok None; Ok None; Ok None] ∧
  (queue_Current (run exec_op [OpAppend [6]; OpCurrent] h).1).2 = Err ErrEOF.
Proof.
  intros h. split; [vm_compute; reflexivity|].
  destruct (run_refines 1 (opened 0 20 1000) (spec_opened 20 1000) rollover) as (_ & HR & _).
  - apply opened_R; lia.
  - cbn; lia.
  - repeat constructor; (discriminate || vm_compute; reflexivity).
  - apply (drained_head_blocks_queue _ h _ [OpAppend [6]; OpCurrent] HR).
    + vm_compute. eauto.
    + cbn; lia.
    + repeat constructor; (discriminate || vm_compute; reflexivity).
    + set_solver.
Defined.

(** ** Purging *)

(** Every file of the queue is older than the cutoff. *)
Definition all_older (cutoff : Time) (h : HhState) : Prop :=
  ∀ name c t, file_at h name = Some (FileNode c t) → t < cutoff.

(** Nothing is left but a new empty segment, and the tail is a closed one. *)
Definition tail_closed (h : HhState) : Prop :=
  ∃ p q s s', q_segments (h_queue h) = Some [p] ∧ q_head (h_queue h) = Some p ∧ q_tail (h_queue h) = Some q ∧
    h_heap h !! q = Some s ∧ seg_file s = None ∧
    h_heap h !! p = Some s' ∧ seg_size s' = 8 ∧ seg_pos s' = 0.

Lemma head_lastModified k h x ids a :
  Rel k h (x :: ids) a → ∃ c t, file_at h (FormatUint x.2) = Some (FileNode c t) ∧
    segment_lastModified x.1 h = (h, Ok t).
Proof.
  intros HR. pose proof (r_segs _ _ _ _ HR) as Hs. inversion Hs as [|? s ? l (dn & off & t & Hh & Hf & _)]; subst.
  eexists _, t. split; [exact Hf|]. unfold segment_lastModified.
  rewrite (st_bind_ok _ _ _ h _) by (unfold deref; by rewrite Hh). cbn [seg_file seg_path].
  unfold os_Stat_ModTime. unfold file_at in Hf. by rewrite Hf.
Qed.

(** A round on a segment that is too old goes on with [addSegment] and
    [trimHead]. *)
Lemma purge_round k h x ids a cutoff fuel :
  Rel k h (x :: ids) a → all_older cutoff h →
  purge_loop (S fuel) cutoff h =
  (_ ← (if Nat.eqb (length (x :: ids)) 1 then _ ← queue_addSegment; mret () else mret ());
   _ ← queue_trimHead; purge_loop fuel cutoff) h.
Proof.
  intros HR Hold. destruct (head_lastModified _ _ _ _ _ HR) as (c & t & Hf & Hm). pose proof (Hold _ _ _ Hf).
  cbn [purge_loop]. rewrite (st_bind_ok _ _ _ h (h_queue h)) by done.
  rewrite (st_bind_ok _ _ _ h x.1) by (rewrite (r_head _ _ _ _ HR); done).
  rewrite (st_bind_ok _ _ _ h t) by done. unfold Time_After.
  rewrite (proj2 (Z.ltb_ge _ _)), (proj2 (Z.eqb_neq _ _)) by lia. cbn [orb].
  rewrite (st_bind_ok _ _ _ h (x :: ids).*1) by (unfold get_segments, st_get; by rewrite (r_segments _ _ _ _ HR)).
  by rewrite length_fmap.
Qed.

(** The last segment: a new one takes its place, but not as the tail. *)
Lemma purge_last k h x a cutoff :
  Rel k h [x] a → k + 1 < 2 ^ 64 → all_older cutoff h → cutoff ≤ h_now h →
  ∃ h', purge_loop 2 cutoff h = (h', Ok ()) ∧ tail_closed h' ∧ q_maxSize (h_queue h') = aq_max a.
Proof.
  intros HR Hk Hold Hnow. rewrite (purge_round _ _ _ _ _ _ _ HR Hold). cbn [length Nat.eqb].
  destruct (Rel_dir _ _ _ _ HR) as [d Hd]. destruct (addSegment_run k h d [] x a HR Hk Hd) as [Hfresh Hadd].
  set (p := length (h_heap h)) in *. set (path := FormatUint (x.2 + 1)) in *. set (h1 := set_queue _ _) in Hadd.
  rewrite (st_bind_ok _ _ _ h1 ()) by (by rewrite (st_bind_ok _ _ _ _ _ Hadd)).
  pose proof (r_segs _ _ _ _ HR) as Hs. inversion Hs as [|? s ? ? Hx _]; subst.
  assert (Hxp : (x.1 < p)%nat) by (destruct Hx as (? & ? & ? & Hl & _); by eapply lookup_lt_Some).
  assert (Hne : FormatUint x.2 ≠ path).
  { intros He. destruct Hx as (? & ? & ? & _ & Hf & _). unfold file_at in Hf. rewrite Hd, He in Hf. cbn in Hf. congruence. }
  destruct (trim_run (aq_segMax a) h1 (<[path := FileNode (layout [] []) (h_now h)]> d) x s p []) as (cl & Hcl & Ht).
  - done.
  - exact (r_head _ _ _ _ HR).
  - eapply seg_rep_frame; [| |exact Hx].
    + cbn. rewrite list_lookup_insert_ne, lookup_app_l by lia. done.
    + unfold file_at. rewrite Hd. cbn. by rewrite lookup_insert_ne.
  - done.
  - rewrite (st_bind_ok _ _ _ _ _ Ht). set (h2 := mkHh _ _ _ _).
    assert (Hp2 : h_heap h2 !! p = Some (mkSegment 8 (Some 8) path 0 0 (aq_segMax a))).
    { cbn. rewrite list_lookup_insert_ne by lia. rewrite list_lookup_insert_eq; [done|].
      rewrite length_app. cbn. lia. }
    cbn [purge_loop]. rewrite (st_bind_ok _ _ _ h2 (h_queue h2)) by done.
    rewrite (st_bind_ok _ _ _ h2 p) by done.
    rewrite (st_bind_ok _ _ _ h2 (h_now h)).
    2: { unfold segment_lastModified. rewrite (st_bind_ok _ _ _ h2 _) by (unfold deref; by rewrite Hp2).
         cbn. unfold os_Stat_ModTime. cbn. by rewrite lookup_delete_ne, lookup_insert_eq by done. }
    assert (Hc : Time_After (h_now h) cutoff || (h_now h =? cutoff) = true).
    { unfold Time_After. apply orb_true_iff. rewrite Z.ltb_lt, Z.eqb_eq. lia. }
    rewrite Hc. exists h2. split; [done|]. split; [|cbn; apply HR].
    eexists p, x.1, cl, _. split_and!; try done; [exact (r_tail _ _ _ _ HR)|].
    cbn. rewrite list_lookup_insert_eq; [done|]. rewrite length_insert, length_app. lia.
Qed.

Lemma purge_all k h ids a cutoff :
  Rel k h ids a → k + 1 < 2 ^ 64 → all_older cutoff h → cutoff ≤ h_now h →
  ∃ h', purge_loop (S (length ids)) cutoff h = (h', Ok ()) ∧ tail_closed h' ∧ q_maxSize (h_queue h') = aq_max a.
Proof.
  revert h a. induction ids as [|x [|y ids] IH]; intros h a HR Hk Hold Hnow.
  - by destruct (r_some _ _ _ _ HR).
  - by eapply purge_last.
  - rewrite (purge_round _ _ _ _ _ _ _ HR Hold). cbn [length Nat.eqb].
    destruct (Rel_first _ _ _ _ HR) as (x' & ids' & s & l & [= <- <-] & Hl & _ & _).
    destruct (drop_head k h x y ids a s l HR Hl) as (h1 & Ht & HR1 & Hnow1 & Hdir); [lia|].
    rewrite (st_bind_ok _ _ _ h ()) by done. rewrite (st_bind_ok _ _ _ _ _ Ht).
    apply (IH h1 (with_segs l a)); [done|done| |lia].
    intros name c t Hf. apply (Hold name c t). unfold file_at in *. rewrite Hdir in Hf.
    destruct (h_dir h) as [d|]; [|done]. cbn in *. by apply lookup_delete_Some in Hf as [].
Qed.

Lemma tail_closed_Append h b :
  tail_closed h → go_len b + 8 ≤ q_maxSize (h_queue h) < 2 ^ 61 → queue_Append b h = (h, Ok ()).
Proof.
  intros (p & q & s & s' & Hsegs & Hhd & Htl & Hq & Hfile & Hp & Hsz & Hpos) Hb. pose proof (go_len_nonneg b).
  unfold queue_Append. rewrite (st_bind_ok _ _ _ h (h_queue h)) by done. rewrite Htl.
  rewrite (st_bind_ok _ _ _ h 8).
  - rewrite i64_small by (unfold is_i64; lia). rewrite (proj2 (Z.ltb_ge _ _)) by lia.
    rewrite (st_bind_ok _ _ _ h (inr ErrNotOpen)); [done|]. apply st_try_err. unfold segment_append.
    rewrite (st_bind_ok _ _ _ h s) by (unfold deref; by rewrite Hq). by rewrite Hfile.
  - unfold queue_diskUsage, get_segments. rewrite (st_bind_ok _ _ _ h [p]) by (unfold st_get; by rewrite Hsegs).
    cbn [usage_loop]. rewrite (st_bind_ok _ _ _ h 8); [done|]. unfold segment_diskUsage.
    rewrite (st_bind_ok _ _ _ h s') by (unfold deref; by rewrite Hp). by rewrite Hsz.
Qed.

Lemma tail_closed_Current h : tail_closed h → queue_Current h = (h, Err ErrEOF).
Proof.
  intros (p & q & s & s' & Hsegs & Hhd & Htl & Hq & Hfile & Hp & Hsz & Hpos).
  unfold queue_Current. rewrite (st_bind_ok _ _ _ h (h_queue h)) by done. rewrite Hhd. unfold segment_current.
  rewrite (st_bind_ok _ _ _ h s') by (unfold deref; by rewrite Hp). by rewrite Hsz, Hpos.
Qed.

(** When [PurgeOlderThan] finds every segment too old it returns nil and
    leaves a queue that loses every write: [Append] returns nil, the queue does
    not change, and [Current] stays at [io.EOF].  The segment that replaces the
    last one becomes the head, but the tail still is the closed one, and
    [Append] drops the error that writing to it gives. *)
Theorem PurgeOlderThan_loses_writes k h a when :
  R k h a → k + 1 < 2 ^ 64 → Time_Truncate when Second ≤ h_now h → all_older (Time_Truncate when Second) h →
  ∃ h', queue_PurgeOlderThan when h = (h', Ok ()) ∧
    ∀ b, go_len b + 8 ≤ aq_max a →
      queue_Append b h' = (h', Ok ()) ∧ (queue_Current h').2 = Err ErrEOF.
Proof.
  intros [ids HR] Hk Hnow Hold. destruct (purge_all k h ids a _ HR Hk Hold Hnow) as (h' & Hp & Htc & Hm).
  exists h'. split.
  - unfold queue_PurgeOlderThan. rewrite (st_bind_ok _ _ _ h ids.*1).
    + destruct ids as [|x ids]; [by destruct (r_some _ _ _ _ HR)|]. cbn [fmap list_fmap] in *.
      rewrite <- Hp. cbn [length]. by rewrite length_fmap.
    + unfold get_segments, st_get. by rewrite (r_segments _ _ _ _ HR).
  - intros b Hb. pose proof (r_bounds _ _ _ _ HR). rewrite tail_closed_Append, tail_closed_Current; [done..|].
    rewrite Hm. lia.
Qed.

Lemma PurgeOlderThan_loses_writes_witness :
  let h := set_now (10 * Second) (run exec_op [OpAppend [1; 2]] (opened 0 100 1000)).1 in
  ∃ h', queue_PurgeOlderThan (9 * Second) h = (h', Ok ()) ∧
    queue_Append [7] h' = (h', Ok ()) ∧ (queue_Current h').2 = Err ErrEOF.
Proof.
  intros h. destruct (run_refines 1 (opened 0 100 1000) (spec_opened 100 1000) [OpAppend [1; 2]]) as (_ & HR & _).
  - apply opened_R; lia.
  - cbn; lia.
  - repeat constructor; (discriminate || vm_compute; reflexivity).
  - destruct (PurgeOlderThan_loses_writes 2 h (run spec_op [OpAppend [1; 2]] (spec_opened 100 1000)).1 (9 * Second))
      as (h' & Hp & Ha).
    + destruct HR as [ids []]. exists ids. by split.
    + lia.
    + vm_compute. discriminate.
    + intros name c t Hf. assert (Hd : h_dir h = Some {["1"%string := FileNode
        [0; 0; 0; 0; 0; 0; 0; 2; 1; 2; 0; 0; 0; 0; 0; 0; 0; 0] 0]}) by (vm_compute; reflexivity).
      unfold file_at in Hf. rewrite Hd in Hf. cbn in Hf. apply lookup_singleton_Some in Hf as [_ [= _ <-]].
      vm_compute. reflexivity.
    + exists h'. split; [exact Hp|]. apply Ha. vm_compute. discriminate.
Defined.

(** Closing and opening a queue changes the order of its blocks when a
    segment number gains a digit: [loadSegments] takes the files in the order
    of their names, and 10 comes before 9. *)
Theorem reopen_reorders_blocks :
  let blocks_of i := OpAppend [i; i] in
  let h := (run exec_op ((blocks_of <$> seqZ 1 10) ++ replicate 8 OpAdvance) (opened 0 10 1000)).1 in
  let h' := (_ ← queue_Close; queue_Open) h in
  h'.2 = Ok () ∧
  (run exec_op [OpCurrent; OpAdvance; OpCurrent] h).2 = [Ok (Some [9; 9]); Ok None; Ok (Some [10; 10])] ∧
  (run exec_op [OpCurrent; OpAdvance; OpCurrent] h'.1).2 = [Ok (Some [10; 10]); Ok None; Ok (Some [9; 9])].
Proof. vm_compute. auto. Qed.
