(* ===== verification/QlToken.v ===== *)
(** * Tokens of InfluxQL: [influxql/token.go]

    The tokens, their texts, the keywords and the precedence of operators. *)

From stdpp Require Import base list strings.
From Stdlib Require Import ZArith Lia.
From S2P Require Import Prelude.

Local Open Scope Z_scope.

(** The marks between the groups ([literal_beg] and the like) are never
    scanned and are left out. *)
Inductive Token :=
| ILLEGAL | EOF | WS | IDENT | NUMBER | DURATION_VAL | STRING | BADSTRING | BADESCAPE
| TRUE | FALSE | REGEX | BADREGEX | ADD | SUB | MUL | DIV | AND | OR | EQ | NEQ
| EQREGEX | NEQREGEX | LT | LTE | GT | GTE | LPAREN | RPAREN | COMMA | COLON
| SEMICOLON | DOT | ALL | ALTER | ANY | AS | ASC | BEGIN | BY | CREATE | CONTINUOUS
| DATABASE | DATABASES | DEFAULT | DELETE | DESC | DESTINATIONS | DIAGNOSTICS
| DISTINCT | DROP | DURATION | END | EXISTS | EXPLAIN | FIELD | FOR | FORCE | FROM
| GRANT | GRANTS | GROUP | IF | IN | INF | INNER | INSERT | INTO | KEY | KEYS | LIMIT
| MEASUREMENT | MEASUREMENTS | NOT | OFFSET | ON | ORDER | PASSWORD | POLICY | POLICIES
| PRIVILEGES | QUERIES | QUERY | READ | REPLICATION | RETENTION | REVOKE | SELECT
| SERIES | SERVER | SERVERS | SET | SHOW | SHARDS | SLIMIT | SOFFSET | STATS
| SUBSCRIPTION | SUBSCRIPTIONS | TAG | TO | USER | USERS | VALUES | WHERE | WITH
| WRITE.

(** The tokens in the order of their numbers, and the number of each. *)
Definition all_tokens : list Token :=
  [ILLEGAL; EOF; WS; IDENT; NUMBER; DURATION_VAL; STRING; BADSTRING; BADESCAPE; TRUE;
   FALSE; REGEX; BADREGEX; ADD; SUB; MUL; DIV; AND; OR; EQ; NEQ; EQREGEX; NEQREGEX; LT;
   LTE; GT; GTE; LPAREN; RPAREN; COMMA; COLON; SEMICOLON; DOT; ALL; ALTER; ANY; AS;
   ASC; BEGIN; BY; CREATE; CONTINUOUS; DATABASE; DATABASES; DEFAULT; DELETE; DESC;
   DESTINATIONS; DIAGNOSTICS; DISTINCT; DROP; DURATION; END; EXISTS; EXPLAIN; FIELD;
   FOR; FORCE; FROM; GRANT; GRANTS; GROUP; IF; IN; INF; INNER; INSERT; INTO; KEY; KEYS;
   LIMIT; MEASUREMENT; MEASUREMENTS; NOT; OFFSET; ON; ORDER; PASSWORD; POLICY;
   POLICIES; PRIVILEGES; QUERIES; QUERY; READ; REPLICATION; RETENTION; REVOKE; SELECT;
   SERIES; SERVER; SERVERS; SET; SHOW; SHARDS; SLIMIT; SOFFSET; STATS; SUBSCRIPTION;
   SUBSCRIPTIONS; TAG; TO; USER; USERS; VALUES; WHERE; WITH; WRITE].
Definition Token_index (tok : Token) : nat :=
  match tok with
  | ILLEGAL => 0 | EOF => 1 | WS => 2 | IDENT => 3 | NUMBER => 4 | DURATION_VAL => 5
  | STRING => 6 | BADSTRING => 7 | BADESCAPE => 8 | TRUE => 9 | FALSE => 10
  | REGEX => 11 | BADREGEX => 12 | ADD => 13 | SUB => 14 | MUL => 15 | DIV => 16
  | AND => 17 | OR => 18 | EQ => 19 | NEQ => 20 | EQREGEX => 21 | NEQREGEX => 22
  | LT => 23 | LTE => 24 | GT => 25 | GTE => 26 | LPAREN => 27 | RPAREN => 28
  | COMMA => 29 | COLON => 30 | SEMICOLON => 31 | DOT => 32 | ALL => 33 | ALTER => 34
  | ANY => 35 | AS => 36 | ASC => 37 | BEGIN => 38 | BY => 39 | CREATE => 40
  | CONTINUOUS => 41 | DATABASE => 42 | DATABASES => 43 | DEFAULT => 44 | DELETE => 45
  | DESC => 46 | DESTINATIONS => 47 | DIAGNOSTICS => 48 | DISTINCT => 49 | DROP => 50
  | DURATION => 51 | END => 52 | EXISTS => 53 | EXPLAIN => 54 | FIELD => 55 | FOR => 56
  | FORCE => 57 | FROM => 58 | GRANT => 59 | GRANTS => 60 | GROUP => 61 | IF => 62
  | IN => 63 | INF => 64 | INNER => 65 | INSERT => 66 | INTO => 67 | KEY => 68
  | KEYS => 69 | LIMIT => 70 | MEASUREMENT => 71 | MEASUREMENTS => 72 | NOT => 73
  | OFFSET => 74 | ON => 75 | ORDER => 76 | PASSWORD => 77 | POLICY => 78
  | POLICIES => 79 | PRIVILEGES => 80 | QUERIES => 81 | QUERY => 82 | READ => 83
  | REPLICATION => 84 | RETENTION => 85 | REVOKE => 86 | SELECT => 87 | SERIES => 88
  | SERVER => 89 | SERVERS => 90 | SET => 91 | SHOW => 92 | SHARDS => 93 | SLIMIT => 94
  | SOFFSET => 95 | STATS => 96 | SUBSCRIPTION => 97 | SUBSCRIPTIONS => 98 | TAG => 99
  | TO => 100 | USER => 101 | USERS => 102 | VALUES => 103 | WHERE => 104 | WITH => 105
  | WRITE => 106
  end.

Lemma all_tokens_index tok : all_tokens !! Token_index tok = Some tok.
Proof. by destruct tok. Qed.

#[export] Instance Token_eq_dec : EqDecision Token.
Proof.
  refine (λ x y, match decide (Token_index x = Token_index y) with
                 | left H => left _ | right H => right _ end).
  - pose proof (all_tokens_index x) as Hx. rewrite H, all_tokens_index in Hx. congruence.
  - congruence.
Defined.

(** [tokens] and [Token.String]; [BADREGEX] has no text. *)
Definition Token_String (tok : Token) : string :=
  match tok with
  | ILLEGAL => "ILLEGAL"
  | EOF => "EOF"
  | WS => "WS"
  | IDENT => "IDENT"
  | NUMBER => "NUMBER"
  | DURATION_VAL => "DURATION_VAL"
  | STRING => "STRING"
  | BADSTRING => "BADSTRING"
  | BADESCAPE => "BADESCAPE"
  | TRUE => "TRUE"
  | FALSE => "FALSE"
  | REGEX => "REGEX"
  | BADREGEX => ""
  | ADD => "+"
  | SUB => "-"
  | MUL => "*"
  | DIV => "/"
  | AND => "AND"
  | OR => "OR"
  | EQ => "="
  | NEQ => "!="
  | EQREGEX => "=~"
  | NEQREGEX => "!~"
  | LT => "<"
  | LTE => "<="
  | GT => ">"
  | GTE => ">="
  | LPAREN => "("
  | RPAREN => ")"
  | COMMA => ","
  | COLON => ":"
  | SEMICOLON => ";"
  | DOT => "."
  | ALL => "ALL"
  | ALTER => "ALTER"
  | ANY => "ANY"
  | AS => "AS"
  | ASC => "ASC"
  | BEGIN => "BEGIN"
  | BY => "BY"
  | CREATE => "CREATE"
  | CONTINUOUS => "CONTINUOUS"
  | DATABASE => "DATABASE"
  | DATABASES => "DATABASES"
  | DEFAULT => "DEFAULT"
  | DELETE => "DELETE"
  | DESC => "DESC"
  | DESTINATIONS => "DESTINATIONS"
  | DIAGNOSTICS => "DIAGNOSTICS"
  | DISTINCT => "DISTINCT"
  | DROP => "DROP"
  | DURATION => "DURATION"
  | END => "END"
  | EXISTS => "EXISTS"
  | EXPLAIN => "EXPLAIN"
  | FIELD => "FIELD"
  | FOR => "FOR"
  | FORCE => "FORCE"
  | FROM => "FROM"
  | GRANT => "GRANT"
  | GRANTS => "GRANTS"
  | GROUP => "GROUP"
  | IF => "IF"
  | IN => "IN"
  | INF => "INF"
  | INNER => "INNER"
  | INSERT => "INSERT"
  | INTO => "INTO"
  | KEY => "KEY"
  | KEYS => "KEYS"
  | LIMIT => "LIMIT"
  | MEASUREMENT => "MEASUREMENT"
  | MEASUREMENTS => "MEASUREMENTS"
  | NOT => "NOT"
  | OFFSET => "OFFSET"
  | ON => "ON"
  | ORDER => "ORDER"
  | PASSWORD => "PASSWORD"
  | POLICY => "POLICY"
  | POLICIES => "POLICIES"
  | PRIVILEGES => "PRIVILEGES"
  | QUERIES => "QUERIES"
  | QUERY => "QUERY"
  | READ => "READ"
  | REPLICATION => "REPLICATION"
  | RETENTION => "RETENTION"
  | REVOKE => "REVOKE"
  | SELECT => "SELECT"
  | SERIES => "SERIES"
  | SERVER => "SERVER"
  | SERVERS => "SERVERS"
  | SET => "SET"
  | SHOW => "SHOW"
  | SHARDS => "SHARDS"
  | SLIMIT => "SLIMIT"
  | SOFFSET => "SOFFSET"
  | STATS => "STATS"
  | SUBSCRIPTION => "SUBSCRIPTION"
  | SUBSCRIPTIONS => "SUBSCRIPTIONS"
  | TAG => "TAG"
  | TO => "TO"
  | USER => "USER"
  | USERS => "USERS"
  | VALUES => "VALUES"
  | WHERE => "WHERE"
  | WITH => "WITH"
  | WRITE => "WRITE"
  end.

(** Between [keyword_beg] and [keyword_end]. *)
Definition keyword_tokens : list Token :=
  [ALL; ALTER; ANY; AS; ASC; BEGIN; BY; CREATE; CONTINUOUS; DATABASE; DATABASES;
   DEFAULT; DELETE; DESC; DESTINATIONS; DIAGNOSTICS; DISTINCT; DROP; DURATION; END;
   EXISTS; EXPLAIN; FIELD; FOR; FORCE; FROM; GRANT; GRANTS; GROUP; IF; IN; INF; INNER;
   INSERT; INTO; KEY; KEYS; LIMIT; MEASUREMENT; MEASUREMENTS; NOT; OFFSET; ON; ORDER;
   PASSWORD; POLICY; POLICIES; PRIVILEGES; QUERIES; QUERY; READ; REPLICATION;
   RETENTION; REVOKE; SELECT; SERIES; SERVER; SERVERS; SET; SHOW; SHARDS; SLIMIT;
   SOFFSET; STATS; SUBSCRIPTION; SUBSCRIPTIONS; TAG; TO; USER; USERS; VALUES; WHERE;
   WITH; WRITE].

(** Between [operator_beg] and [operator_end]. *)
Definition Token_isOperator (tok : Token) : bool :=
  match tok with
  | ADD | SUB | MUL | DIV | AND | OR | EQ | NEQ | EQREGEX | NEQREGEX | LT | LTE | GT |
    GTE => true
  | _ => false
  end.

Definition Token_Precedence (tok : Token) : Z :=
  match tok with
  | OR => 1
  | AND => 2
  | EQ | NEQ | EQREGEX | NEQREGEX | LT | LTE | GT | GTE => 3
  | ADD | SUB => 4
  | MUL | DIV => 5
  | _ => 0
  end.

Definition IsRegexOp (t : Token) : bool :=
  match t with EQREGEX | NEQREGEX => true | _ => false end.

(** [strings.ToLower], as far as a comparison with an ASCII word shows it: the
    letters A to Z, and the two letters beyond ASCII whose lower case is ASCII
    (U+0130, bytes C4 B0, and U+212A, bytes E2 84 AA).  Other letters stay other
    than ASCII letters and are left alone. *)
Fixpoint ToLower (s : string) : string :=
  match s with
  | EmptyString => EmptyString
  | String c s' =>
      let n := Ascii.nat_of_ascii c in
      if Nat.leb 65 n && Nat.leb n 90 then String (Ascii.ascii_of_nat (n + 32)) (ToLower s')
      else match s' with
           | String c1 s1 =>
               if Nat.eqb n 196 && Nat.eqb (Ascii.nat_of_ascii c1) 176 then String (Ascii.ascii_of_nat 105) (ToLower s1)
               else match s1 with
                    | String c2 s2 =>
                        if Nat.eqb n 226 && Nat.eqb (Ascii.nat_of_ascii c1) 132 && Nat.eqb (Ascii.nat_of_ascii c2) 170
                        then String (Ascii.ascii_of_nat 107) (ToLower s2)
                        else String c (ToLower s')
                    | EmptyString => String c (ToLower s')
                    end
           | EmptyString => String c EmptyString
           end
  end.

(** [keywords] as [init] fills it. *)
Definition keywords : list (string * Token) :=
  ((λ tok, (ToLower (Token_String tok), tok)) <$> keyword_tokens ++ [AND; OR]) ++
  [("true", TRUE); ("false", FALSE)].

Definition Lookup (ident : string) : Token :=
  match list_find (λ kt, kt.1 = ToLower ident) keywords with
  | Some (_, (_, tok)) => tok
  | None => IDENT
  end.

Definition tokstr (tok : Token) (lit : string) : string :=
  if bool_decide (lit = EmptyString) then Token_String tok else lit.

Record Pos := mkPos { Line : Z; Char : Z }.
