(* ===== verification/QlExpr.v ===== *)
(** * Expressions of InfluxQL: [influxql/ast.go]

    The expressions of the query language, their evaluation against the fields
    of a point ([Eval]), their simplification ([Reduce]) and the time range a
    condition allows ([TimeRange]). *)

From stdpp Require Import base list strings.
From Stdlib Require Import ZArith Lia SpecFloat.
From S2P Require Import Prelude QlToken.

Local Open Scope Z_scope.

(** ** [float64]

    IEEE 754 binary64 numbers and their operations as the Standard Library
    specifies them, rounding to nearest. *)

Definition float64 : Type := spec_float.

Definition f64_add : float64 → float64 → float64 := SFadd 53 1024.
Definition f64_sub : float64 → float64 → float64 := SFsub 53 1024.
Definition f64_mul : float64 → float64 → float64 := SFmul 53 1024.
Definition f64_div : float64 → float64 → float64 := SFdiv 53 1024.
Definition f64_zero : float64 := S754_zero false.
Definition f64_of_Z (z : Z) : float64 :=
  match z with
  | Z0 => f64_zero
  | Zpos p => binary_round 53 1024 false p 0
  | Zneg p => binary_round 53 1024 true p 0
  end.

(** [int64(f)] drops the fraction; outside of the range it gives the smallest
    integer, as the instruction on amd64 does. *)
Definition f64_trunc (f : float64) : option Z :=
  match f with
  | S754_zero _ => Some 0
  | S754_finite s m e =>
      let a := if 0 <=? e then Zpos m * 2 ^ e else Zpos m / 2 ^ (- e) in
      Some (if s then - a else a)
  | S754_infinity _ | S754_nan => None
  end.
Definition f64_to_int64 (f : float64) : Z :=
  match f64_trunc f with
  | Some z => if (- 2 ^ 63 <=? z) && (z <? 2 ^ 63) then z else - 2 ^ 63
  | None => - 2 ^ 63
  end.

#[export] Instance spec_float_eq_dec : EqDecision float64.
Proof. intros x y. unfold Decision. decide equality; solve [apply decide; apply _]. Defined.

(** ** Values behind [interface{}] *)

Inductive GoValue :=
| VNil
| VBool (b : bool)
| VFloat (f : float64)
| VInt (z : Z)
| VString (s : string)
| VTime (t : Time)
| VDuration (d : Duration).

(** [rhs, _ := rhs.(T)]: the zero value when the type is another. *)
Definition go_bool (v : GoValue) : bool := match v with VBool b => b | _ => false end.
Definition go_float (v : GoValue) : float64 := match v with VFloat f => f | _ => f64_zero end.
Definition go_string (v : GoValue) : string := match v with VString s => s | _ => EmptyString end.
Definition go_time (v : GoValue) : Time := match v with VTime t => t | _ => Time_zero end.

(** ** Expressions *)

(** A compiled regular expression is known by its text; what it matches is a
    parameter where it matters. *)
Inductive Expr :=
| BinaryExpr (Op : Token) (LHS RHS : Expr)
| BooleanLiteral (Val : bool)
| Call (Name : string) (Args : list Expr)
| Distinct (Val : string)
| DurationLiteral (Val : Duration)
| nilLiteral
| NumberLiteral (Val : float64)
| ParenExpr (E : Expr)
| RegexLiteral (Val : string)
| StringLiteral (Val : string)
| TimeLiteral (Val : Time)
| VarRef (Val : string)
| Wildcard.

(** Induction with hypotheses for the arguments of a call. *)
Section induction.
Context (P : Expr → Prop).
Context (HBin : ∀ op l r, P l → P r → P (BinaryExpr op l r)).
Context (HCall : ∀ name args, Forall P args → P (Call name args)).
Context (HParen : ∀ e, P e → P (ParenExpr e)).
Context (HOther : ∀ e, match e with BinaryExpr _ _ _ | Call _ _ | ParenExpr _ => False | _ => True end → P e).

Fixpoint Expr_rect' (e : Expr) : P e :=
  match e with
  | BinaryExpr op l r => HBin op l r (Expr_rect' l) (Expr_rect' r)
  | Call name args =>
      HCall name args ((fix go (l : list Expr) : Forall P l :=
        match l with
        | [] => Forall_nil_2 P
        | a :: l => Forall_cons_2 P a l (Expr_rect' a) (go l)
        end) args)
  | ParenExpr e => HParen e (Expr_rect' e)
  | e => HOther e I
  end.
End induction.

(** ** Copies

    [CloneExpr] panics on the literal that stands for a value of unknown type. *)
Definition exprE : Type → Type := outcome string.

Definition outcome_list (f : Expr → exprE Expr) : list Expr → exprE (list Expr) :=
  fix go (l : list Expr) : exprE (list Expr) :=
    match l with
    | [] => Ok []
    | a :: l => let! a := f a in let! l := go l in Ok (a :: l)
    end.

Fixpoint CloneExpr (e : Expr) : exprE Expr :=
  match e with
  | BinaryExpr op l r => let! l := CloneExpr l in let! r := CloneExpr r in Ok (BinaryExpr op l r)
  | Call name args => let! args := outcome_list CloneExpr args in Ok (Call name args)
  | ParenExpr e => let! e := CloneExpr e in Ok (ParenExpr e)
  | nilLiteral => Panic
  | e => Ok e
  end.

(** ** Time conditions *)

Definition is_time_name (s : string) : bool := bool_decide (ToLower s = "time").

Fixpoint HasTimeExpr (e : Expr) : bool :=
  match e with
  | BinaryExpr op l r =>
      if bool_decide (op = AND) || bool_decide (op = OR) then HasTimeExpr l || HasTimeExpr r
      else match l with VarRef v => is_time_name v | _ => false end
  | ParenExpr e => HasTimeExpr e
  | _ => false
  end.

Fixpoint OnlyTimeExpr (e : Expr) : bool :=
  match e with
  | BinaryExpr op l r =>
      if bool_decide (op = AND) || bool_decide (op = OR) then OnlyTimeExpr l && OnlyTimeExpr r
      else match l with VarRef v => is_time_name v | _ => false end
  | ParenExpr e => OnlyTimeExpr e
  | _ => false
  end.

(** [WalkFunc]: the nodes of an expression, a node before its parts. *)
Fixpoint walk (e : Expr) : list Expr :=
  e :: match e with
       | BinaryExpr _ l r => walk l ++ walk r
       | Call _ args => args ≫= walk
       | ParenExpr e => walk e
       | _ => []
       end.

Definition timeExprValue (ref lit : Expr) : Time :=
  match ref with
  | VarRef v =>
      if is_time_name v then
        match lit with
        | TimeLiteral t => t
        | DurationLiteral d => Time_Unix0 d
        | NumberLiteral n => Time_Unix0 (f64_to_int64 n)
        | _ => Time_zero
        end
      else Time_zero
  | _ => Time_zero
  end.

(** The operator seen from the other side. *)
Definition flip_op (op : Token) : Token :=
  match op with LT => GT | LTE => GTE | GT => LT | GTE => LTE | op => op end.

(** One node of [TimeRange]'s walk. *)
Definition narrow (acc : Time * Time) (n : Expr) : Time * Time :=
  let '(min, max) := acc in
  match n with
  | BinaryExpr op l r =>
      let '(value, op) :=
        if Time_IsZero (timeExprValue l r) then (timeExprValue r l, flip_op op)
        else (timeExprValue l r, op) in
      if Time_IsZero value then (min, max)
      else
        match op with
        | GT => (if Time_IsZero min || Time_After value min then Time_Add value 1 else min, max)
        | GTE => (if Time_IsZero min || Time_After value min then value else min, max)
        | LT => (min, if Time_IsZero max || Time_Before value max then Time_Add value (-1) else max)
        | LTE => (min, if Time_IsZero max || Time_Before value max then value else max)
        | EQ => (if Time_IsZero min || Time_After value min then value else min,
                 if Time_IsZero max || Time_Before value max then value else max)
        | _ => (min, max)
        end
  | _ => (min, max)
  end.

Definition TimeRange (e : Expr) : Time * Time := foldl narrow (Time_zero, Time_zero) (walk e).

Definition TimeRangeAsEpochNano (now : Time) (e : Expr) : Z * Z :=
  let '(tmin, tmax) := TimeRange e in
  (if Time_IsZero tmin then Time_UnixNano (Time_Unix0 0) else Time_UnixNano tmin,
   if Time_IsZero tmax then Time_UnixNano now else Time_UnixNano tmax).

(** ** Evaluation *)

Definition eval_float (op : Token) (l r : float64) : GoValue :=
  match op with
  | EQ => VBool (SFeqb l r)
  | NEQ => VBool (negb (SFeqb l r))
  | LT => VBool (SFltb l r)
  | LTE => VBool (SFleb l r)
  | GT => VBool (SFltb r l)
  | GTE => VBool (SFleb r l)
  | ADD => VFloat (f64_add l r)
  | SUB => VFloat (f64_sub l r)
  | MUL => VFloat (f64_mul l r)
  | DIV => VFloat (if SFeqb r f64_zero then f64_zero else f64_div l r)
  | _ => VNil
  end.

Definition eval_int (op : Token) (l r : Z) : GoValue :=
  match op with
  | EQ => VBool (l =? r)
  | NEQ => VBool (negb (l =? r))
  | LT => VBool (l <? r)
  | LTE => VBool (l <=? r)
  | GT => VBool (r <? l)
  | GTE => VBool (r <=? l)
  | ADD => VInt (i64 (l + r))
  | SUB => VInt (i64 (l - r))
  | MUL => VInt (i64 (l * r))
  | DIV => VInt (if r =? 0 then 0 else i64 (Z.quot l r))
  | _ => VNil
  end.

(** [evalBinaryExpr] on the values of both sides: the type of the left one
    decides. *)
Definition eval_values (op : Token) (lhs rhs : GoValue) : GoValue :=
  match lhs with
  | VBool l =>
      let r := go_bool rhs in
      match op with
      | AND => VBool (l && r)
      | OR => VBool (l || r)
      | EQ => VBool (Bool.eqb l r)
      | NEQ => VBool (negb (Bool.eqb l r))
      | _ => VNil
      end
  | VFloat l => eval_float op l (go_float rhs)
  | VInt l => eval_int op l (f64_to_int64 (go_float rhs))
  | VString l =>
      let r := go_string rhs in
      match op with
      | EQ => VBool (bool_decide (l = r))
      | NEQ => VBool (negb (bool_decide (l = r)))
      | _ => VNil
      end
  | _ => VNil
  end.

(** [m] gives the fields of a point, [VNil] for a missing one. *)
Fixpoint Eval (e : Expr) (m : string → GoValue) : GoValue :=
  match e with
  | BinaryExpr op l r => eval_values op (Eval l m) (Eval r m)
  | BooleanLiteral b => VBool b
  | NumberLiteral n => VFloat n
  | ParenExpr e => Eval e m
  | StringLiteral s => VString s
  | VarRef v => m v
  | _ => VNil
  end.

Definition EvalBool (e : Expr) (m : string → GoValue) : bool := go_bool (Eval e m).

(** ** Reduction *)

(** A [Valuer] gives a value, which may be nil, or says that it has none. *)
Definition Valuer : Type := string → option GoValue.
Definition NowValuer (now : Time) : Valuer := λ key,
  if bool_decide (key = "now()") then Some (VTime now) else None.

Definition isTrueLiteral (e : Expr) : bool := match e with BooleanLiteral true => true | _ => false end.
Definition isFalseLiteral (e : Expr) : bool := match e with BooleanLiteral false => true | _ => false end.

Definition reduceBinaryExprBooleanLHS (op : Token) (l : bool) (rhs : Expr) : Expr :=
  match rhs, op with
  | BooleanLiteral r, EQ => BooleanLiteral (Bool.eqb l r)
  | BooleanLiteral r, NEQ => BooleanLiteral (negb (Bool.eqb l r))
  | BooleanLiteral r, AND => BooleanLiteral (l && r)
  | BooleanLiteral r, OR => BooleanLiteral (l || r)
  | nilLiteral, _ => BooleanLiteral false
  | _, _ => BinaryExpr op (BooleanLiteral l) rhs
  end.

(** A number between -1 and 1 other than 0 passes the test for 0 and becomes
    the divisor 0. *)
Definition reduceBinaryExprDurationLHS (op : Token) (l : Duration) (rhs : Expr) : exprE Expr :=
  match rhs, op with
  | DurationLiteral r, ADD => Ok (DurationLiteral (i64 (l + r)))
  | DurationLiteral r, SUB => Ok (DurationLiteral (i64 (l - r)))
  | DurationLiteral r, EQ => Ok (BooleanLiteral (l =? r))
  | DurationLiteral r, NEQ => Ok (BooleanLiteral (negb (l =? r)))
  | DurationLiteral r, GT => Ok (BooleanLiteral (r <? l))
  | DurationLiteral r, GTE => Ok (BooleanLiteral (r <=? l))
  | DurationLiteral r, LT => Ok (BooleanLiteral (l <? r))
  | DurationLiteral r, LTE => Ok (BooleanLiteral (l <=? r))
  | NumberLiteral r, MUL => Ok (DurationLiteral (i64 (l * f64_to_int64 r)))
  | NumberLiteral r, DIV =>
      if SFeqb r f64_zero then Ok (DurationLiteral 0)
      else if f64_to_int64 r =? 0 then Panic
      else Ok (DurationLiteral (i64 (Z.quot l (f64_to_int64 r))))
  | TimeLiteral r, ADD => Ok (TimeLiteral (Time_Add r l))
  | nilLiteral, _ => Ok (BooleanLiteral false)
  | _, _ => Ok (BinaryExpr op (DurationLiteral l) rhs)
  end.

Definition reduceBinaryExprNilLHS (op : Token) (rhs : Expr) : Expr :=
  match op with
  | EQ | NEQ => BooleanLiteral false
  | _ => BinaryExpr op nilLiteral rhs
  end.

Definition reduceBinaryExprNumberLHS (op : Token) (l : float64) (rhs : Expr) : Expr :=
  match rhs, op with
  | NumberLiteral r, ADD => NumberLiteral (f64_add l r)
  | NumberLiteral r, SUB => NumberLiteral (f64_sub l r)
  | NumberLiteral r, MUL => NumberLiteral (f64_mul l r)
  | NumberLiteral r, DIV => NumberLiteral (if SFeqb r f64_zero then f64_zero else f64_div l r)
  | NumberLiteral r, EQ => BooleanLiteral (SFeqb l r)
  | NumberLiteral r, NEQ => BooleanLiteral (negb (SFeqb l r))
  | NumberLiteral r, GT => BooleanLiteral (SFltb r l)
  | NumberLiteral r, GTE => BooleanLiteral (SFleb r l)
  | NumberLiteral r, LT => BooleanLiteral (SFltb l r)
  | NumberLiteral r, LTE => BooleanLiteral (SFleb l r)
  | nilLiteral, _ => BooleanLiteral false
  | _, _ => BinaryExpr op (NumberLiteral l) rhs
  end.

Definition reduceBinaryExprStringLHS (op : Token) (l : string) (rhs : Expr) : Expr :=
  match rhs, op with
  | StringLiteral r, EQ => BooleanLiteral (bool_decide (l = r))
  | StringLiteral r, NEQ => BooleanLiteral (negb (bool_decide (l = r)))
  | StringLiteral r, ADD => StringLiteral (l +:+ r)
  | nilLiteral, EQ | nilLiteral, NEQ => BooleanLiteral false
  | _, _ => BinaryExpr op (StringLiteral l) rhs
  end.

(** [Time.Sub] stops at the largest and the smallest duration. *)
Definition Time_Sub (t u : Time) : Duration := Z.max (- 2 ^ 63) (Z.min (2 ^ 63 - 1) (t - u)).

Definition reduceBinaryExprTimeLHS (op : Token) (l : Time) (rhs : Expr) : Expr :=
  match rhs, op with
  | DurationLiteral r, ADD => TimeLiteral (Time_Add l r)
  | DurationLiteral r, SUB => TimeLiteral (Time_Add l (i64 (- r)))
  | TimeLiteral r, SUB => DurationLiteral (Time_Sub l r)
  | TimeLiteral r, EQ => BooleanLiteral (l =? r)
  | TimeLiteral r, NEQ => BooleanLiteral (negb (l =? r))
  | TimeLiteral r, GT => BooleanLiteral (Time_After l r)
  | TimeLiteral r, GTE => BooleanLiteral (Time_After l r || (l =? r))
  | TimeLiteral r, LT => BooleanLiteral (Time_Before l r)
  | TimeLiteral r, LTE => BooleanLiteral (Time_Before l r || (l =? r))
  | nilLiteral, _ => BooleanLiteral false
  | _, _ => BinaryExpr op (TimeLiteral l) rhs
  end.

Definition reduceVarRef (v : string) (valuer : option Valuer) : Expr :=
  match valuer with
  | None => VarRef v
  | Some valuer =>
      match valuer v with
      | None => VarRef v
      | Some (VBool b) => BooleanLiteral b
      | Some (VDuration d) => DurationLiteral d
      | Some (VFloat f) => NumberLiteral f
      | Some (VString s) => StringLiteral s
      | Some (VTime t) => TimeLiteral t
      | Some _ => nilLiteral
      end
  end.

(** [reduceBinaryExpr] once both sides are reduced; a nil side cannot occur. *)
Definition reduce_sides (op : Token) (lhs rhs : Expr) : exprE Expr :=
  if bool_decide (op = AND) && (isFalseLiteral lhs || isFalseLiteral rhs) then Ok (BooleanLiteral false)
  else if bool_decide (op = AND) && isTrueLiteral lhs then Ok rhs
  else if bool_decide (op = AND) && isTrueLiteral rhs then Ok lhs
  else if bool_decide (op = OR) && (isTrueLiteral lhs || isTrueLiteral rhs) then Ok (BooleanLiteral true)
  else if bool_decide (op = OR) && isFalseLiteral lhs then Ok rhs
  else if bool_decide (op = OR) && isFalseLiteral rhs then Ok lhs
  else match lhs with
       | BooleanLiteral l => Ok (reduceBinaryExprBooleanLHS op l rhs)
       | DurationLiteral l => reduceBinaryExprDurationLHS op l rhs
       | nilLiteral => Ok (reduceBinaryExprNilLHS op rhs)
       | NumberLiteral l => Ok (reduceBinaryExprNumberLHS op l rhs)
       | StringLiteral l => Ok (reduceBinaryExprStringLHS op l rhs)
       | TimeLiteral l => Ok (reduceBinaryExprTimeLHS op l rhs)
       | _ => Ok (BinaryExpr op lhs rhs)
       end.

Fixpoint reduce (e : Expr) (valuer : option Valuer) : exprE Expr :=
  match e with
  | BinaryExpr op l r =>
      let! lhs := reduce l valuer in
      let! rhs := reduce r valuer in
      reduce_sides op lhs rhs
  | Call name args =>
      match
        (if bool_decide (name = "now") && bool_decide (args = []) then
           match valuer with
           | Some valuer => valuer "now()"
           | None => None
           end
         else None)
      with
      | Some v => Ok (TimeLiteral (go_time v))
      | None => let! args := outcome_list (λ a, reduce a valuer) args in Ok (Call name args)
      end
  | ParenExpr e =>
      let! e := reduce e valuer in
      Ok (match e with BinaryExpr _ _ _ => ParenExpr e | _ => e end)
  | VarRef v => Ok (reduceVarRef v valuer)
  | e => CloneExpr e
  end.

Definition Reduce (e : Expr) (valuer : option Valuer) : exprE Expr :=
  let! e := reduce e valuer in
  Ok (match e with ParenExpr e => e | _ => e end).

(** ** Names *)

Fixpoint walkNames (e : Expr) : list string :=
  match e with
  | VarRef v => [v]
  | Call _ (VarRef v :: _) => [v]
  | BinaryExpr _ l r => walkNames l ++ walkNames r
  | ParenExpr e => walkNames e
  | _ => []
  end.

Fixpoint walkFunctionCalls (e : Expr) : list Expr :=
  match e with
  | Call _ _ => [e]
  | BinaryExpr _ l r => walkFunctionCalls l ++ walkFunctionCalls r
  | ParenExpr e => walkFunctionCalls e
  | _ => []
  end.
