(* ===== verification/QlExprProps.v ===== *)
(** * Theorems about the expressions of InfluxQL

    Simplification keeps the value of a condition, the time range of a
    conjunction contains every time that satisfies it, and where the two do
    not. *)

From stdpp Require Import base list strings.
From Stdlib Require Import ZArith Lia SpecFloat.
From S2P Require Import Prelude QlToken QlExpr.

Local Open Scope Z_scope.

(** ** Conditions

    The conditions of queries: comparisons of numbers, strings, booleans and
    references to fields, with arithmetic on numbers, joined by [AND] and
    [OR]. *)

Definition is_cmp (op : Token) : bool :=
  match op with EQ | NEQ | LT | LTE | GT | GTE => true | _ => false end.
Definition is_arith (op : Token) : bool :=
  match op with ADD | SUB | MUL | DIV => true | _ => false end.
Definition is_logic (op : Token) : bool :=
  match op with AND | OR => true | _ => false end.
Definition is_VBool (v : GoValue) : bool := match v with VBool _ => true | _ => false end.

Fixpoint arith (e : Expr) : bool :=
  match e with
  | NumberLiteral _ | VarRef _ => true
  | ParenExpr e => arith e
  | BinaryExpr op l r => is_arith op && arith l && arith r
  | _ => false
  end.

Fixpoint operand (e : Expr) : bool :=
  match e with
  | BooleanLiteral _ | StringLiteral _ => true
  | ParenExpr e => operand e
  | e => arith e
  end.

(** [e] is a condition and, with the fields [m], each of its comparisons
    gives a boolean: the fields it mentions are present. *)
Fixpoint decides (m : string → GoValue) (e : Expr) : bool :=
  match e with
  | BinaryExpr op l r =>
      if is_logic op then decides m l && decides m r
      else is_cmp op && operand l && operand r && is_VBool (Eval e m)
  | ParenExpr e => decides m e
  | BooleanLiteral _ => true
  | VarRef v => is_VBool (m v)
  | _ => false
  end.

Lemma arith_operand e : arith e = true → operand e = true.
Proof. by induction e. Qed.

(** Both sides being operands, the simplified node has the value of the node. *)
Lemma reduce_sides_arith op l r :
  is_arith op = true → arith l = true → arith r = true →
  ∃ e, reduce_sides op l r = Ok e ∧ arith e = true ∧
    ∀ m, Eval e m = eval_values op (Eval l m) (Eval r m).
Proof.
  intros Hop Hl Hr.
  destruct op; try discriminate Hop; destruct l; try discriminate Hl;
    destruct r; try discriminate Hr; simpl in *;
    try (eexists; split; [reflexivity|]; simpl; rewrite ?Hl, ?Hr; by auto).
Qed.

Lemma reduce_sides_cmp op l r :
  is_cmp op = true → operand l = true → operand r = true →
  ∃ e, reduce_sides op l r = Ok e ∧
    ∀ m, Eval e m = eval_values op (Eval l m) (Eval r m).
Proof.
  intros Hop Hl Hr.
  destruct op; try discriminate Hop; destruct l; try discriminate Hl;
    destruct r; try discriminate Hr; simpl in *; eexists; (split; [reflexivity|]); by simpl.
Qed.

Lemma reduce_arith e :
  arith e = true → ∃ e', reduce e None = Ok e' ∧ arith e' = true ∧ ∀ m, Eval e' m = Eval e m.
Proof.
  induction e; simpl; intros H; try discriminate H; try by eexists.
  - apply andb_prop in H as [[Hop Hl]%andb_prop Hr].
    destruct (IHe1 Hl) as (l' & -> & Hl' & El), (IHe2 Hr) as (r' & -> & Hr' & Er).
    destruct (reduce_sides_arith Op l' r') as (e' & He' & ? & E); [done..|].
    exists e'. simpl. split; [done|]. split; [done|]. intros m. by rewrite E, El, Er.
  - destruct (IHe H) as (e' & -> & He' & E). simpl.
    eexists; split; [reflexivity|]. by destruct e'.
Qed.

Lemma reduce_operand e :
  operand e = true → ∃ e', reduce e None = Ok e' ∧ operand e' = true ∧ ∀ m, Eval e' m = Eval e m.
Proof.
  induction e; intros H; try discriminate H; try by eexists.
  - destruct (reduce_arith _ H) as (e' & ? & ?%arith_operand & ?). by exists e'.
  - destruct (IHe H) as (e' & He & He' & E). simpl. rewrite He. simpl.
    eexists; split; [reflexivity|]. by destruct e'.
Qed.

Lemma decides_VBool m e : decides m e = true → ∃ b, Eval e m = VBool b.
Proof.
  induction e; simpl; intros H; try discriminate H; eauto.
  - destruct (is_logic Op) eqn:Hop.
    + apply andb_prop in H as [Hl Hr].
      destruct (IHe1 Hl) as [bl ->], (IHe2 Hr) as [br ->]. destruct Op; try discriminate Hop; eexists; done.
    + apply andb_prop in H as [_ H]. destruct (eval_values _ _ _); try discriminate H. eauto.
  - destruct (m Val); try discriminate H. eauto.
Qed.

(** An expression with a boolean value is a literal or is not simplified by
    its left side. *)
Lemma boolean_shape e m b :
  Eval e m = VBool b →
  e = BooleanLiteral b ∨
  match e with BinaryExpr _ _ _ | ParenExpr _ | VarRef _ => True | _ => False end.
Proof. destruct e; simpl; intros; simplify_eq; eauto. Qed.

(** The special cases of [AND] and [OR], for sides that have boolean values. *)
Lemma reduce_sides_logic op l r m bl br :
  is_logic op = true → Eval l m = VBool bl → Eval r m = VBool br →
  ∃ e, reduce_sides op l r = Ok e ∧ Eval e m = eval_values op (VBool bl) (VBool br).
Proof.
  intros Hop Hl Hr. unfold reduce_sides.
  destruct (boolean_shape l m bl Hl) as [->|Hsl], (boolean_shape r m br Hr) as [->|Hsr];
    destruct op; try discriminate Hop; simpl;
    try destruct bl; try destruct br; try destruct l; try done; try destruct r; try done;
    simpl in *; eexists; (split; [reflexivity|]); simpl; by rewrite ?Hl, ?Hr.
Qed.

Lemma reduce_decides m e :
  decides m e = true → ∃ e', reduce e None = Ok e' ∧ Eval e' m = Eval e m.
Proof.
  induction e; intros H; try discriminate H; try by eexists.
  - simpl in H. destruct (is_logic Op) eqn:Hop.
    + apply andb_prop in H as [Hl Hr].
      destruct (IHe1 Hl) as (l' & El & Vl), (IHe2 Hr) as (r' & Er & Vr).
      destruct (decides_VBool m e1 Hl) as [bl Hbl], (decides_VBool m e2 Hr) as [br Hbr].
      simpl. rewrite El, Er, Hbl, Hbr. simpl. apply reduce_sides_logic; congruence.
    + apply andb_prop in H as [[[Hc Hl]%andb_prop Hr]%andb_prop _].
      destruct (reduce_operand _ Hl) as (l' & El & Hl' & Vl), (reduce_operand _ Hr) as (r' & Er & Hr' & Vr).
      simpl. rewrite El, Er. simpl.
      destruct (reduce_sides_cmp Op l' r') as (e' & ? & E); [done..|].
      exists e'. split; [done|]. by rewrite E, Vl, Vr.
  - destruct (IHe H) as (e' & He & E). simpl. rewrite He. simpl.
    eexists; split; [reflexivity|]. by destruct e'.
Qed.

Lemma Reduce_decides m e :
  decides m e = true → ∃ e', Reduce e None = Ok e' ∧ Eval e' m = Eval e m.
Proof.
  intros (e' & He & E)%reduce_decides. unfold Reduce. rewrite He. simpl.
  eexists; split; [reflexivity|]. by destruct e'.
Qed.

(** ** Time conditions *)

(** The comparison with a time that a node is for [TimeRange], with the time
    on the right. *)
Definition time_node (n : Expr) : option (Token * Time) :=
  match n with
  | BinaryExpr op l r =>
      if negb (Time_IsZero (timeExprValue l r)) then Some (op, timeExprValue l r)
      else if negb (Time_IsZero (timeExprValue r l)) then Some (flip_op op, timeExprValue r l)
      else None
  | _ => None
  end.

Definition narrow_to (op : Token) (v : Time) (acc : Time * Time) : Time * Time :=
  let '(min, max) := acc in
  match op with
  | GT => (if Time_IsZero min || Time_After v min then Time_Add v 1 else min, max)
  | GTE => (if Time_IsZero min || Time_After v min then v else min, max)
  | LT => (min, if Time_IsZero max || Time_Before v max then Time_Add v (-1) else max)
  | LTE => (min, if Time_IsZero max || Time_Before v max then v else max)
  | EQ => (if Time_IsZero min || Time_After v min then v else min,
           if Time_IsZero max || Time_Before v max then v else max)
  | _ => (min, max)
  end.

Lemma narrow_node acc n :
  narrow acc n = match time_node n with Some (op, v) => narrow_to op v acc | None => acc end.
Proof.
  destruct acc as [min max], n; simpl; try done.
  destruct (Time_IsZero (timeExprValue n1 n2)) eqn:E1; simpl; [|by rewrite E1].
  by destruct (Time_IsZero (timeExprValue n2 n1)).
Qed.

(** What a comparison says of a time, and what it says up to equality. *)
Definition cmp_holds (op : Token) (t v : Time) : bool :=
  match op with
  | GT => v <? t | GTE => v <=? t | LT => t <? v | LTE => t <=? v
  | EQ => t =? v | NEQ => negb (t =? v) | _ => true
  end.
Definition cmp_weakly (op : Token) (t v : Time) : bool :=
  match op with
  | GT | GTE => v <=? t | LT | LTE => t <=? v | EQ => t =? v | _ => true
  end.

(** The value of a condition at time [t]; [P] decides the other comparisons. *)
Fixpoint time_sat (cmp : Token → Time → Time → bool) (P : Expr → bool) (t : Time) (e : Expr) : bool :=
  match e with
  | BinaryExpr op l r =>
      match op with
      | AND => time_sat cmp P t l && time_sat cmp P t r
      | OR => time_sat cmp P t l || time_sat cmp P t r
      | _ => match time_node e with Some (op, v) => cmp op t v | None => P e end
      end
  | ParenExpr e => time_sat cmp P t e
  | e => P e
  end.

(** A conjunction of comparisons, with no comparison with a time inside of
    another comparison. *)
Fixpoint conj (e : Expr) : bool :=
  match e with
  | BinaryExpr op l r =>
      match op with
      | AND => conj l && conj r
      | OR => false
      | _ => bool_decide (Forall (λ n, time_node n = None) (walk l ++ walk r))
      end
  | ParenExpr e => conj e
  | e => bool_decide (Forall (λ n, time_node n = None) (walk e))
  end.

Definition in_range (acc : Time * Time) (t : Time) : Prop :=
  (acc.1 = 0 ∨ acc.1 ≤ t) ∧ (acc.2 = 0 ∨ t ≤ acc.2).

Definition node_sat (cmp : Token → Time → Time → bool) (t : Time) (n : Expr) : Prop :=
  match time_node n with Some (op, v) => cmp op t v = true | None => True end.

(** Every time the condition compares with is after the zero time. *)
Definition times_set (e : Expr) : Prop :=
  Forall (λ n, match time_node n with Some (_, v) => 1 < v | None => True end) (walk e).

Lemma nodes_none_sat cmp t l : Forall (λ n, time_node n = None) l → Forall (node_sat cmp t) l.
Proof. intros H. eapply Forall_impl; [exact H|]. intros n Hn. unfold node_sat. by rewrite Hn. Qed.

Lemma time_node_logic op l r o v :
  is_logic op = true → time_node (BinaryExpr op l r) = Some (o, v) → o = op.
Proof. intros. destruct op; try done; simpl in *; repeat case_match; by simplify_eq. Qed.

(** In a conjunction the nodes decide, and only they. *)
Lemma conj_nodes (cmp : Token → Time → Time → bool) P t e :
  (∀ v, cmp AND t v = true) → conj e = true → time_sat cmp P t e = true → Forall (node_sat cmp t) (walk e).
Proof.
  intros Hand. revert P. induction e; intros P Hc Hs;
    try exact (nodes_none_sat _ _ _ (bool_decide_eq_true_1 _ Hc)).
  - assert (Hcase : Op = AND ∨ Op = OR ∨ is_logic Op = false) by (destruct Op; auto).
    destruct Hcase as [->|[->|Hop]]; [|done|].
    + simpl in Hc, Hs. apply andb_prop in Hc as [Hl Hr]. apply andb_prop in Hs as [Sl Sr]. simpl. constructor.
      * unfold node_sat. destruct (time_node _) as [[o v]|] eqn:E; [|done].
        apply time_node_logic in E as ->; [|done]. apply Hand.
      * apply Forall_app; split; eauto.
    + assert (Hc' : bool_decide (Forall (λ n, time_node n = None) (walk e1 ++ walk e2)) = true)
        by (destruct Op; done). apply bool_decide_eq_true_1 in Hc'.
      constructor; [|by apply nodes_none_sat].
      assert (Hs' : match time_node (BinaryExpr Op e1 e2) with Some (op, v) => cmp op t v | None => P (BinaryExpr Op e1 e2) end = true)
        by (destruct Op; done).
      unfold node_sat. by destruct (time_node _) as [[??]|].
  - constructor; [done|]. simpl in Hs. eauto.
Qed.

Lemma nodes_conj (cmp : Token → Time → Time → bool) t e :
  conj e = true → Forall (node_sat cmp t) (walk e) → time_sat cmp (λ _, true) t e = true.
Proof.
  induction e; intros Hc Hn; try done.
  - apply Forall_cons in Hn as [Hn [Hl Hr]%Forall_app].
    assert (Hcase : Op = AND ∨ Op = OR ∨ is_logic Op = false) by (destruct Op; auto).
    destruct Hcase as [->|[->|Hop]]; [|done|].
    + simpl in *. apply andb_prop in Hc as [??]. by rewrite IHe1, IHe2.
    + assert (Hs : time_sat cmp (λ _, true) t (BinaryExpr Op e1 e2) =
        match time_node (BinaryExpr Op e1 e2) with Some (op, v) => cmp op t v | None => true end)
        by (destruct Op; done).
      rewrite Hs. unfold node_sat in Hn. by destruct (time_node _) as [[??]|].
  - apply Forall_cons in Hn as [_ Hn]. simpl in *. eauto.
Qed.

Lemma narrow_sound acc n t : in_range acc t → node_sat cmp_holds t n → in_range (narrow acc n) t.
Proof.
  rewrite narrow_node. unfold node_sat. destruct (time_node n) as [[op v]|]; [|done].
  destruct acc as [min max]. unfold in_range. simpl. intros [Hmin Hmax] Hn.
  unfold narrow_to, Time_IsZero, Time_After, Time_Before, Time_Add.
  destruct op; simpl in *; repeat case_match; simpl; lia.
Qed.

Lemma narrow_complete acc n t :
  0 ≤ acc.1 → 0 ≤ acc.2 → match time_node n with Some (_, v) => 1 < v | None => True end →
  in_range (narrow acc n) t →
  (0 ≤ (narrow acc n).1 ∧ 0 ≤ (narrow acc n).2) ∧ in_range acc t ∧ node_sat cmp_weakly t n.
Proof.
  rewrite narrow_node. unfold node_sat. destruct (time_node n) as [[op v]|]; [|done].
  destruct acc as [min max]. unfold in_range, narrow_to, Time_IsZero, Time_After, Time_Before, Time_Add.
  simpl. intros Hmin Hmax Hv. destruct op; simpl; repeat case_match; simpl; lia.
Qed.

Lemma narrow_nonneg acc n :
  0 ≤ acc.1 → 0 ≤ acc.2 → match time_node n with Some (_, v) => 1 < v | None => True end →
  0 ≤ (narrow acc n).1 ∧ 0 ≤ (narrow acc n).2.
Proof.
  rewrite narrow_node. destruct (time_node n) as [[op v]|]; [|done].
  destruct acc as [min max]. unfold narrow_to, Time_IsZero, Time_After, Time_Before, Time_Add.
  simpl. intros Hmin Hmax Hv. destruct op; simpl; repeat case_match; simpl; lia.
Qed.

Lemma foldl_narrow_sound ns acc t :
  in_range acc t → Forall (node_sat cmp_holds t) ns → in_range (foldl narrow acc ns) t.
Proof.
  intros Hacc Hns. revert acc Hacc. induction Hns; intros acc Hacc; simpl; [done|].
  eauto using narrow_sound.
Qed.

Lemma foldl_narrow_complete ns acc t :
  0 ≤ acc.1 → 0 ≤ acc.2 →
  Forall (λ n, match time_node n with Some (_, v) => 1 < v | None => True end) ns →
  in_range (foldl narrow acc ns) t → in_range acc t ∧ Forall (node_sat cmp_weakly t) ns.
Proof.
  intros H1 H2 Hns. revert acc H1 H2. induction Hns as [|n ns Hn Hns IH]; intros acc H1 H2 Hr; [done|].
  simpl in Hr. destruct (narrow_nonneg acc n H1 H2 Hn) as [??].
  destruct (IH (narrow acc n)) as [Hr' Hw]; [done..|].
  destruct (narrow_complete acc n t H1 H2 Hn Hr') as (_ & ? & ?). eauto.
Qed.

(** ** The theorems *)

(** [Lookup] finds every keyword from its text. *)
Theorem Lookup_keywords (tok : Token) :
  tok ∈ keyword_tokens ++ [AND; OR; TRUE; FALSE] → Lookup (Token_String tok) = tok.
Proof.
  intros H. repeat (apply elem_of_cons in H as [->|H]; [vm_compute; reflexivity|]). inversion H.
Qed.

(** C12: [Reduce] without a valuer, as the index uses it to join filters, keeps
    the value of a condition on every point whose fields decide the condition's
    comparisons, and does not panic on it. *)
Theorem Reduce_preserves_condition (e : Expr) (m : string → GoValue) :
  decides m e = true →
  ∃ e', Reduce e None = Ok e' ∧ Eval e' m = Eval e m ∧ EvalBool e' m = EvalBool e m.
Proof.
  intros (e' & He & E)%Reduce_decides. exists e'. unfold EvalBool. by rewrite E.
Qed.

Definition example_condition : Expr :=
  BinaryExpr OR (BinaryExpr GT (VarRef "value") (BinaryExpr ADD (NumberLiteral (f64_of_Z 1)) (NumberLiteral (f64_of_Z 2))))
    (ParenExpr (BinaryExpr AND (BinaryExpr EQ (VarRef "state") (StringLiteral "up")) (BooleanLiteral true))).
Definition example_fields (v : string) : GoValue :=
  if bool_decide (v = "value") then VFloat (f64_of_Z 2)
  else if bool_decide (v = "state") then VString "up" else VNil.

Lemma Reduce_preserves_condition_witness :
  decides example_fields example_condition = true ∧
  ∃ e', Reduce example_condition None = Ok e' ∧ Eval e' example_fields = Eval example_condition example_fields
    ∧ EvalBool e' example_fields = EvalBool example_condition example_fields.
Proof.
  split; [vm_compute; reflexivity|].
  apply (Reduce_preserves_condition example_condition example_fields). vm_compute. reflexivity.
Defined.

(** [Eval] takes a comparison with a missing field on the left of an [OR] for
    the whole: the point is dropped whatever the other side says, while with
    the sides exchanged the other side decides. *)
Theorem Eval_OR_missing_left (m : string → GoValue) (a : string) (op : Token) (x r : Expr) (b : bool) :
  m a = VNil → Eval r m = VBool b →
  EvalBool (BinaryExpr OR (BinaryExpr op (VarRef a) x) r) m = false ∧
  EvalBool (BinaryExpr OR r (BinaryExpr op (VarRef a) x)) m = b.
Proof.
  intros Ha Hr. unfold EvalBool. simpl. rewrite Ha, Hr. simpl. by rewrite orb_false_r.
Qed.

(** Dividing a duration by a number panics exactly when the number is not zero
    and has no integer part. *)
Theorem Reduce_duration_division_panics (d : Duration) (n : float64) (v : option Valuer) :
  Reduce (BinaryExpr DIV (DurationLiteral d) (NumberLiteral n)) v = Panic ↔
  SFeqb n f64_zero = false ∧ f64_to_int64 n = 0.
Proof.
  unfold Reduce. simpl. unfold reduce_sides. simpl.
  destruct (SFeqb n f64_zero) eqn:E1; simpl; [naive_solver|].
  destruct (Z.eqb_spec (f64_to_int64 n) 0); simpl; naive_solver.
Qed.

Example half_hour_panics :
  Reduce (BinaryExpr DIV (DurationLiteral Hour) (NumberLiteral (f64_div (f64_of_Z 1) (f64_of_Z 2)))) None = Panic.
Proof. vm_compute. reflexivity. Qed.

(** C16: For a conjunction, [TimeRange] returns bounds that every time satisfying
    the condition lies within; and when all times in the condition are after the
    zero time, every time within the bounds satisfies the comparisons with
    times, strict ones up to equality. *)
Theorem TimeRange_brackets (e : Expr) (P : Expr → bool) (t : Time) :
  conj e = true → times_set e →
  (time_sat cmp_holds P t e = true → in_range (TimeRange e) t) ∧
  (in_range (TimeRange e) t → time_sat cmp_weakly (λ _, true) t e = true).
Proof.
  intros Hc Ht. unfold TimeRange. split; intros H.
  - apply foldl_narrow_sound; [by split; left|]. eapply conj_nodes; eauto.
  - apply nodes_conj; [done|]. eapply foldl_narrow_complete in H as [_ ?]; done.
Qed.

Definition example_time_condition : Expr :=
  BinaryExpr AND (BinaryExpr GT (VarRef "time") (TimeLiteral 1000))
    (ParenExpr (BinaryExpr AND (BinaryExpr GTE (TimeLiteral 2000) (VarRef "Time"))
                  (BinaryExpr EQ (VarRef "host") (StringLiteral "a")))).

Lemma TimeRange_brackets_witness :
  TimeRange example_time_condition = (1001, 2000) ∧
  (conj example_time_condition = true ∧ times_set example_time_condition) ∧
  (time_sat cmp_holds (λ _, true) 1500 example_time_condition = true → in_range (TimeRange example_time_condition) 1500) ∧
  (in_range (TimeRange example_time_condition) 1500 → time_sat cmp_weakly (λ _, true) 1500 example_time_condition = true).
Proof.
  assert (Hc : conj example_time_condition = true) by (vm_compute; reflexivity).
  assert (Ht : times_set example_time_condition)
    by (unfold times_set; repeat (constructor; [vm_compute; done|]); constructor).
  split; [vm_compute; reflexivity|]. split; [done|].
  exact (TimeRange_brackets example_time_condition (λ _, true) 1500 Hc Ht).
Defined.

(** [TimeRange] reads every condition as a conjunction: for a condition that
    excludes a gap it returns bounds that no time lies within, though every time
    outside of the gap satisfies the condition; and a strict bound after an equal
    one that is not strict is ignored, so the bound itself is let in. *)
Theorem TimeRange_misreads (a b : Time) :
  1 < a → a ≤ b →
  let gap := BinaryExpr OR (BinaryExpr LT (VarRef "time") (TimeLiteral a))
               (BinaryExpr GT (VarRef "time") (TimeLiteral b)) in
  let strict := BinaryExpr AND (BinaryExpr GTE (VarRef "time") (TimeLiteral a))
                  (BinaryExpr GT (VarRef "time") (TimeLiteral a)) in
  (∀ t, ¬ in_range (TimeRange gap) t) ∧
  (∀ P t, t < a ∨ b < t → time_sat cmp_holds P t gap = true) ∧
  in_range (TimeRange strict) a ∧
  (∀ P, time_sat cmp_holds P a strict = false).
Proof.
  intros Ha Hb. cbv zeta. unfold TimeRange. cbn [walk foldl app]. rewrite !narrow_node. unfold time_node, timeExprValue.
  replace (is_time_name "time") with true by (vm_compute; reflexivity).
  unfold time_sat, time_node, timeExprValue.
  replace (is_time_name "time") with true by (vm_compute; reflexivity).
  unfold Time_IsZero, Time_zero, in_range, narrow_to, Time_IsZero, Time_After, Time_Before, Time_Add, cmp_holds. simpl.
  destruct (Z.eqb_spec a 0); [lia|]. destruct (Z.eqb_spec b 0); [lia|]. simpl.
  rewrite Z.ltb_irrefl. simpl.
  rewrite (proj2 (Z.eqb_neq a 0)); [|done].
  repeat split; intros; simpl; lia.
Qed.

Lemma TimeRange_misreads_witness :
  (1 < 10 ∧ 10 ≤ 20) ∧
  (∀ t, ¬ in_range (TimeRange (BinaryExpr OR (BinaryExpr LT (VarRef "time") (TimeLiteral 10))
     (BinaryExpr GT (VarRef "time") (TimeLiteral 20)))) t).
Proof. split; [lia|]. refine (proj1 (TimeRange_misreads 10 20 _ _)); lia. Defined.
