(* ===== verification/QlSelect.v ===== *)
(** * Select statements: [influxql/ast.go]

    The parts of a select statement that planning looks at: names, wildcards,
    grouping, limits on series, and the validation that the parser runs. *)

From stdpp Require Import base list strings gmap.
From Stdlib Require Import ZArith Lia SpecFloat.
From S2P Require Import Prelude QlToken QlExpr.

Local Open Scope Z_scope.

(** ** Sets of names: [pkg/slices]

    [lower] is [strings.ToLower] on all of Unicode; nothing is assumed of it. *)

Definition slices_Exists (set : list string) (find : string) : bool :=
  existsb (λ s, bool_decide (s = find)) set.
Definition slices_ExistsIgnoreCase (lower : string → string) (set : list string) (find : string) : bool :=
  existsb (λ s, bool_decide (lower s = lower find)) set.
Definition slices_Union (lower : string → string) (setA setB : list string) (ignoreCase : bool) : list string :=
  foldl (λ a b,
    if ignoreCase then if slices_ExistsIgnoreCase lower a b then a else a ++ [b]
    else if slices_Exists a b then a else a ++ [b]) setA setB.

(** ** The statement *)

Record Field := mkField { Field_Expr : Expr; Field_Alias : string }.

Record Source := mkSource {
  Source_Database : string;
  Source_RetentionPolicy : string;
  Source_Name : string;
  Source_Regex : option string
}.

Inductive FillOption := NullFill | NoFill | NumberFill | PreviousFill.

Record SelectStatement := mkSelect {
  Fields : list Field;
  Target : option Source;
  Dimensions : list Expr;
  Sources : list Source;
  Condition : option Expr;
  SortFields : list (string * bool);
  Limit : Z;
  Offset : Z;
  SLimit : Z;
  SOffset : Z;
  groupByInterval : Duration;
  IsRawQuery : bool;
  Fill : FillOption;
  FillValue : GoValue
}.

Definition set_fields (s : SelectStatement) (fs : list Field) (ds : list Expr) (raw : bool) : SelectStatement :=
  mkSelect fs (Target s) ds (Sources s) (Condition s) (SortFields s) (Limit s) (Offset s) (SLimit s) (SOffset s)
    (groupByInterval s) raw (Fill s) (FillValue s).
Definition set_slimit (s : SelectStatement) (n : Z) : SelectStatement :=
  mkSelect (Fields s) (Target s) (Dimensions s) (Sources s) (Condition s) (SortFields s) (Limit s) (Offset s) n (SOffset s)
    (groupByInterval s) (IsRawQuery s) (Fill s) (FillValue s).
Definition set_condition (s : SelectStatement) (c : option Expr) : SelectStatement :=
  mkSelect (Fields s) (Target s) (Dimensions s) (Sources s) c (SortFields s) (Limit s) (Offset s) (SLimit s) (SOffset s)
    (groupByInterval s) (IsRawQuery s) (Fill s) (FillValue s).
Definition set_interval (s : SelectStatement) (d : Duration) : SelectStatement :=
  mkSelect (Fields s) (Target s) (Dimensions s) (Sources s) (Condition s) (SortFields s) (Limit s) (Offset s) (SLimit s) (SOffset s)
    d (IsRawQuery s) (Fill s) (FillValue s).

(** ** Names *)

Definition Field_Name (f : Field) : string :=
  if negb (bool_decide (Field_Alias f = EmptyString)) then Field_Alias f
  else match Field_Expr f with Call name _ => name | VarRef v => v | _ => EmptyString end.
Definition AliasNames (fs : list Field) : list string := Field_Name <$> fs.
Definition Fields_Names (fs : list Field) : list string :=
  (λ f, match Field_Expr f with Call name _ => name | VarRef v => v | _ => EmptyString end) <$> fs.
Definition Fields_Less (f g : Field) : bool := String.ltb (Field_Name f) (Field_Name g).

Definition SourceNames (s : SelectStatement) : list string := Source_Name <$> Sources s.
Definition NamesInWhere (s : SelectStatement) : list string :=
  match Condition s with Some e => walkNames e | None => [] end.
Definition NamesInSelect (s : SelectStatement) : list string := Fields s ≫= (walkNames ∘ Field_Expr).
Definition NamesInDimension (s : SelectStatement) : list string := Dimensions s ≫= walkNames.
Definition FunctionCalls (s : SelectStatement) : list Expr := Fields s ≫= (walkFunctionCalls ∘ Field_Expr).
Definition FunctionCallsByPosition (s : SelectStatement) : list (list Expr) :=
  walkFunctionCalls ∘ Field_Expr <$> Fields s.

Definition is_Wildcard (e : Expr) : bool := match e with Wildcard => true | _ => false end.
Definition HasFieldWildcard (s : SelectStatement) : bool := existsb (is_Wildcard ∘ Field_Expr) (Fields s).
Definition HasDimensionWildcard (s : SelectStatement) : bool := existsb is_Wildcard (Dimensions s).
Definition HasWildcard (s : SelectStatement) : bool := HasFieldWildcard s || HasDimensionWildcard s.
Definition HasTimeFieldSpecified (s : SelectStatement) : bool :=
  existsb (λ f, bool_decide (Field_Name f = "time")) (Fields s).
Definition TimeAscending (s : SelectStatement) : bool :=
  match SortFields s with [] => true | (_, ascending) :: _ => ascending end.

(** [strings.HasSuffix] *)
Definition HasSuffix (s suffix : string) : bool := String.prefix (String.rev suffix) (String.rev s).
Definition call_name (c : Expr) : string := match c with Call name _ => name | _ => EmptyString end.
Definition call_args (c : Expr) : list Expr := match c with Call _ args => args | _ => [] end.
Definition HasDerivative (s : SelectStatement) : bool :=
  existsb (λ c, HasSuffix (call_name c) "derivative") (FunctionCalls s).

Definition is_ref (e : Expr) : bool := match e with VarRef _ => true | _ => false end.

(** The first argument of every derivative is looked at until one is a
    reference. *)
Fixpoint simple_derivative (calls : list Expr) : exprE bool :=
  match calls with
  | [] => Ok false
  | c :: calls =>
      if HasSuffix (call_name c) "derivative" then
        match call_args c with
        | [] => Panic
        | a :: _ => if is_ref a then Ok true else simple_derivative calls
        end
      else simple_derivative calls
  end.
Definition IsSimpleDerivative (s : SelectStatement) : exprE bool := simple_derivative (FunctionCalls s).

(** The references among the arguments, each once. *)
Definition ref_names (args : list Expr) (keys : list string) : list string :=
  (foldl (λ (acc : gset string * list string) a,
     match a with
     | VarRef v => if decide (v ∈ acc.1) then acc else ({[v]} ∪ acc.1, acc.2 ++ [v])
     | _ => acc
     end) (∅, keys) args).2.
Definition Call_Fields (name : string) (args : list Expr) : exprE (list string) :=
  if bool_decide (name ∈ ["top"; "bottom"]) then
    Ok (match args with [] => [] | _ :: args => ref_names args [name] end)
  else if bool_decide (name ∈ ["min"; "max"; "first"; "last"; "sum"; "mean"]) then Ok (ref_names args [])
  else Panic.

Fixpoint column_names (lower : string → string) (names : list string) (fs : list Field) : exprE (list string) :=
  match fs with
  | [] => Ok names
  | f :: fs =>
      match Field_Expr f with
      | Call name args =>
          if bool_decide (name = "top") || bool_decide (name = "bottom") then
            if (length args =? 2)%nat then column_names lower (names ++ [name]) fs
            else let! fields := Call_Fields name args in column_names lower (slices_Union lower names fields true) fs
          else column_names lower (names ++ [Field_Name f]) fs
      | _ =>
          if bool_decide (Field_Name f = "time") then column_names lower names fs
          else column_names lower (names ++ [Field_Name f]) fs
      end
  end.
Definition ColumnNames (lower : string → string) (s : SelectStatement) : exprE (list string) :=
  column_names lower ["time"] (Fields s).

(** ** Rewriting *)

Definition Select_Clone (s : SelectStatement) : exprE SelectStatement :=
  let! cond := match Condition s with Some e => let! e := CloneExpr e in Ok (Some e) | None => Ok None end in
  let! exprs := outcome_list CloneExpr (Field_Expr <$> Fields s) in
  let! ds := outcome_list CloneExpr (Dimensions s) in
  Ok (mkSelect (zip_with mkField exprs (Field_Alias <$> Fields s)) (Target s) ds (Sources s) cond (SortFields s)
        (Limit s) (Offset s) (SLimit s) (SOffset s) 0 (IsRawQuery s) (Fill s) (FillValue s)).

Section rewriting.
Context {goSort : GoSort}.

(** The supplied fields are sorted in place at each wildcard. *)
Fixpoint rewrite_fields (fs supplied : list Field) : list Field :=
  match fs with
  | [] => []
  | f :: fs =>
      if is_Wildcard (Field_Expr f) then
        let supplied := sort_Sort Fields_Less supplied in supplied ++ rewrite_fields fs supplied
      else f :: rewrite_fields fs supplied
  end.
Definition rewrite_dimensions (ds supplied : list Expr) : list Expr :=
  ds ≫= λ d, if is_Wildcard d then supplied else [d].

Definition RewriteWildcards (s : SelectStatement) (fields : list Field) (dimensions : list Expr) : exprE SelectStatement :=
  let! other := Select_Clone s in
  let rwDimensions := rewrite_dimensions (Dimensions s) dimensions in
  Ok (set_fields other (rewrite_fields (Fields s) fields)
        (if HasFieldWildcard s && negb (HasDimensionWildcard s) then rwDimensions ++ dimensions else rwDimensions)
        (IsRawQuery other)).
End rewriting.

Definition Distinct_NewCall (v : string) : Expr := Call "distinct" [VarRef v].
Definition RewriteDistinct (s : SelectStatement) : SelectStatement :=
  set_fields s
    ((λ f, match Field_Expr f with Distinct v => mkField (Distinct_NewCall v) (Field_Alias f) | _ => f end) <$> Fields s)
    (Dimensions s)
    (IsRawQuery s && negb (existsb (λ f, match Field_Expr f with Distinct _ => true | _ => false end) (Fields s))).

(** ** Grouping and limits *)

Fixpoint normalize_loop (ds : list Expr) (dur : Duration) (ts : list string) : exprE (Duration * list string) :=
  match ds with
  | [] => Ok (dur, ts)
  | Call _ args :: ds =>
      match args with
      | DurationLiteral d :: _ => normalize_loop ds d ts
      | _ => Panic
      end
  | VarRef v :: ds => normalize_loop ds dur (ts ++ [v])
  | _ :: ds => normalize_loop ds dur ts
  end.
Definition Normalize (ds : list Expr) : exprE (Duration * list string) := normalize_loop ds 0 [].

Inductive SelectError :=
| ErrNonTimeField | ErrOnlyTimeCalls | ErrTimeOneArgument | ErrTimeDuration | ErrMultipleTime | ErrTimeFunction
| ErrDimensionKind | ErrDistinctCombined | ErrDistinctNoArgument | ErrDistinctArguments | ErrCountDistinct
| ErrMixedSelectors | ErrMixedAggregates | ErrArguments (name : string) (got : nat) | ErrInnerAggregate (name : string)
| ErrPercentile | ErrTopInteger (name : string) (found : Expr) | ErrTopLimit (name : string) (call limit : Z)
| ErrTopFields (name : string) (found : Expr)
| ErrFieldArgument (name : string) | ErrGroupByAggregate | ErrGroupByTimeCondition | ErrDerivativeFields
| ErrDerivativeField | ErrDerivativeDuration.

Definition selectE : Type → Type := outcome SelectError.

Fixpoint interval_of (ds : list Expr) : selectE Duration :=
  match ds with
  | [] => Ok 0
  | Call name args :: ds =>
      if bool_decide (name = "time") then
        match args with
        | [DurationLiteral d] => Ok d
        | [_] => Err ErrTimeDuration
        | _ => Err ErrTimeOneArgument
        end
      else interval_of ds
  | _ :: ds => interval_of ds
  end.
(** The interval is remembered in the statement. *)
Definition GroupByInterval (s : SelectStatement) : SelectStatement * selectE Duration :=
  if negb (groupByInterval s =? 0) then (s, Ok (groupByInterval s))
  else match Dimensions s with
       | [] => (s, Ok 0)
       | ds => match interval_of ds with
               | Ok d => (set_interval s d, Ok d)
               | r => (s, r)
               end
       end.

(** [a[lo:hi]] *)
Definition go_slice {A} (l : list A) (lo hi : Z) : exprE (list A) :=
  if (0 <=? lo) && (lo <=? hi) && (hi <=? Z.of_nat (length l))
  then Ok (take (Z.to_nat (hi - lo)) (drop (Z.to_nat lo) l)) else Panic.

(** The limit of the statement is lowered for good when it passes the end. *)
Definition LimitTagSets {A} (s : SelectStatement) (a : list A) : SelectStatement * exprE (list A) :=
  if (SLimit s =? 0) && (SOffset s =? 0) then (s, Ok a)
  else if Z.of_nat (length a) <? SOffset s then (s, Ok [])
  else
    let s := if Z.of_nat (length a) <? SOffset s + SLimit s
             then set_slimit s (Z.of_nat (length a) - SOffset s) else s in
    (s, go_slice a (SOffset s) (SOffset s + SLimit s)).

(** ** Validation *)

Definition validateFields (s : SelectStatement) : selectE unit :=
  match NamesInSelect s with
  | [n] => if bool_decide (n = "time") then Err ErrNonTimeField else Ok tt
  | _ => Ok tt
  end.

Fixpoint validate_dimensions (ds : list Expr) (dur : Duration) : selectE unit :=
  match ds with
  | [] => Ok tt
  | Call name args :: ds =>
      if negb (bool_decide (name = "time")) then Err ErrOnlyTimeCalls
      else match args with
           | [DurationLiteral d] => if negb (dur =? 0) then Err ErrMultipleTime else validate_dimensions ds d
           | [_] => Err ErrTimeDuration
           | _ => Err ErrTimeOneArgument
           end
  | VarRef v :: ds => if is_time_name v then Err ErrTimeFunction else validate_dimensions ds dur
  | Wildcard :: ds => validate_dimensions ds dur
  | _ => Err ErrDimensionKind
  end.
Definition validateDimensions (s : SelectStatement) : selectE unit := validate_dimensions (Dimensions s) 0.

Definition HasDistinct (s : SelectStatement) : bool :=
  existsb (λ f, match Field_Expr f with
    | Call name _ => bool_decide (name = "distinct") | Distinct _ => true | _ => false end) (Fields s).
Definition validateDistinct (s : SelectStatement) : selectE unit :=
  if negb (HasDistinct s) then Ok tt
  else match Fields s with
       | [f] => match Field_Expr f with
                | Call _ [] => Err ErrDistinctNoArgument
                | Call _ [_] => Ok tt
                | Call _ _ => Err ErrDistinctArguments
                | _ => Ok tt
                end
       | _ => Err ErrDistinctCombined
       end.

Definition is_distinct_arg (a : Expr) : bool :=
  match a with Distinct _ => true | Call name _ => bool_decide (name = "distinct") | _ => false end.
Definition HasCountDistinct (s : SelectStatement) : bool :=
  existsb (λ f, match Field_Expr f with
    | Call name args => bool_decide (name = "count") && existsb is_distinct_arg args | _ => false end) (Fields s).
(** The first [DISTINCT] among the arguments decides. *)
Fixpoint count_distinct_args (n : nat) (args : list Expr) : bool :=
  match args with
  | [] => true
  | Distinct _ :: _ => (n =? 1)%nat
  | Call name dargs :: args =>
      if bool_decide (name = "distinct") then (length dargs =? 1)%nat else count_distinct_args n args
  | _ :: args => count_distinct_args n args
  end.
Definition validateCountDistinct (s : SelectStatement) : selectE unit :=
  if negb (HasCountDistinct s) then Ok tt
  else if forallb (λ f, match Field_Expr f with
         | Call name args => negb (bool_decide (name = "count")) || count_distinct_args (length args) args
         | _ => true end) (Fields s) then Ok tt else Err ErrCountDistinct.

Definition is_selector (name : string) : bool := bool_decide (name ∈ ["top"; "bottom"; "max"; "min"; "first"; "last"]).
Definition validSelectWithAggregate (s : SelectStatement) : selectE unit :=
  let numAggregates := length (filter (λ cs, cs ≠ []) (FunctionCallsByPosition s)) in
  let onlySelectors := forallb (is_selector ∘ call_name) (FunctionCalls s) in
  let mixed := negb (numAggregates =? 0)%nat && negb (numAggregates =? length (Fields s))%nat in
  if onlySelectors && (numAggregates =? 1)%nat then Ok tt
  else if onlySelectors && (1 <? numAggregates)%nat && negb (length (Fields s) =? numAggregates)%nat then Err ErrMixedSelectors
  else if mixed then Err ErrMixedAggregates
  else Ok tt.

(** One call of the loop of [validateAggregates]: a derivative, and any other.  A
    derivative asks for the interval, which the statement remembers. *)
Definition validate_derivative_call (s : SelectStatement) (name : string) (args : list Expr) : SelectStatement * selectE unit :=
  match validSelectWithAggregate s with
  | Ok _ =>
      if (2 <? length args)%nat || (length args <? 1)%nat then (s, Err (ErrArguments name (length args)))
      else
        let '(s, d) := GroupByInterval s in
        (s, match d with
            | Ok d => if 0 <? d then match args with Call _ _ :: _ => Ok tt | _ => Err (ErrInnerAggregate name) end else Ok tt
            | _ => Ok tt
            end)
  | r => (s, r)
  end.
Definition validate_other_call (s : SelectStatement) (name : string) (args : list Expr) : selectE unit :=
  if bool_decide (name = "percentile") then
    let! _ := validSelectWithAggregate s in
    match args with
    | [_; NumberLiteral _] => Ok tt
    | [_; _] => Err ErrPercentile
    | _ => Err (ErrArguments name (length args))
    end
  else if bool_decide (name = "top") || bool_decide (name = "bottom") then
    if (length args <? 2)%nat then Err (ErrArguments name (length args))
    else match last args with
         | Some (NumberLiteral n) =>
             if (Limit s <? f64_to_int64 n) && negb (Limit s =? 0) then Err (ErrTopLimit name (f64_to_int64 n) (Limit s))
             else match find (λ v, negb (is_ref v)) (take (length args - 1) args) with
                  | None => Ok tt
                  | Some v => Err (ErrTopFields name v)
                  end
         | Some e => Err (ErrTopInteger name e)
         | None => Err (ErrArguments name 0)
         end
  else
    let! _ := validSelectWithAggregate s in
    match args with
    | [VarRef _] => Ok tt
    | [Call fname _] => if bool_decide (fname = "distinct") then Ok tt else Err (ErrFieldArgument name)
    | [Distinct _] => if bool_decide (name = "count") then Ok tt else Err (ErrFieldArgument name)
    | [_] => Err (ErrFieldArgument name)
    | _ => Err (ErrArguments name (length args))
    end.
Definition validate_call (s : SelectStatement) (name : string) (args : list Expr) : SelectStatement * selectE unit :=
  if bool_decide (name = "derivative") || bool_decide (name = "non_negative_derivative")
  then validate_derivative_call s name args else (s, validate_other_call s name args).

Fixpoint validate_calls (s : SelectStatement) (calls : list Expr) : SelectStatement * selectE unit :=
  match calls with
  | [] => (s, Ok tt)
  | c :: calls =>
      match validate_call s (call_name c) (call_args c) with
      | (s, Ok _) => validate_calls s calls
      | r => r
      end
  end.

Definition validateAggregates (s : SelectStatement) (targetRequired : bool) : SelectStatement * selectE unit :=
  match validate_calls s (FunctionCalls s) with
  | (s, Ok _) =>
      let '(s, d) := GroupByInterval s in
      let groupByDuration := match d with Ok d => d | _ => 0 end in
      (s, if IsRawQuery s && (0 <? groupByDuration) then Err ErrGroupByAggregate
          else if negb targetRequired && negb (IsRawQuery s) && (0 <? groupByDuration) &&
                  negb (match Condition s with Some e => HasTimeExpr e | None => false end) then Err ErrGroupByTimeCondition
          else Ok tt)
  | r => r
  end.

Definition validateDerivative (s : SelectStatement) : selectE unit :=
  if negb (HasDerivative s) then Ok tt
  else if negb (length (Fields s) =? 1)%nat then Err ErrDerivativeFields
  else match FunctionCalls s with
       | [c] =>
           match call_args c with
           | [] => Err ErrDerivativeField
           | a :: rest =>
               match a with
               | Call _ _ | VarRef _ =>
                   match rest with
                   | [DurationLiteral _] => Ok tt
                   | [_] => Err ErrDerivativeDuration
                   | _ => Ok tt
                   end
               | _ => Err ErrDerivativeField
               end
           end
       | _ => Err ErrDerivativeFields
       end.

Definition validate (s : SelectStatement) (targetRequired : bool) : SelectStatement * selectE unit :=
  match (let! _ := validateFields s in
         let! _ := validateDimensions s in
         let! _ := validateDistinct s in
         validateCountDistinct s) with
  | Ok _ =>
      match validateAggregates s targetRequired with
      | (s, Ok _) => (s, validateDerivative s)
      | r => r
      end
  | r => (s, r)
  end.
