(* ===== verification/QlSelectProps.v ===== *)
(** * Theorems about select statements *)

From stdpp Require Import base list strings gmap.
From Stdlib Require Import ZArith Lia SpecFloat.
From S2P Require Import Prelude QlToken QlExpr QlSelect.

Local Open Scope Z_scope.

(** ** Validation and what relies on it *)

Lemma normalize_validated ds dur x ts :
  validate_dimensions ds dur = Ok tt → ∃ r, normalize_loop ds x ts = Ok r.
Proof.
  revert dur x ts. induction ds as [|e ds IH]; intros dur x ts; simpl; [eauto|].
  destruct e; try done; simpl.
  - destruct (negb _); [done|]. destruct Args as [|[] [|? ?]]; try done. destruct (negb _); [done|]. eauto.
  - destruct (is_time_name Val); [done|]. eauto.
  - eauto.
Qed.

(** Only durations other than 0 are seen by the check for a second interval. *)
Definition nonzero_intervals (ds : list Expr) : bool :=
  forallb (λ e, match e with Call _ [DurationLiteral d] => negb (d =? 0) | _ => true end) ds.

Lemma interval_validated ds dur x ts :
  validate_dimensions ds dur = Ok tt → nonzero_intervals ds = true →
  ∃ d ts', interval_of ds = Ok d ∧ normalize_loop ds x ts = Ok (if d =? 0 then x else d, ts') ∧ (dur ≠ 0 → d = 0).
Proof.
  revert dur x ts. induction ds as [|e ds IH]; intros dur x ts Hv Hz; simpl in *; [by eexists 0, _|].
  apply andb_prop in Hz as [Hz Hzs]. destruct e; try done; simpl in *.
  - destruct (bool_decide (Name = "time")); [|done]. simpl in Hv.
    destruct Args as [|a [|? ?]]; [done| |by destruct a].
    destruct a; try done. destruct (Z.eqb_spec dur 0); [|done]. simpl in Hv. simplify_eq.
    destruct (IH Val Val ts Hv Hzs) as (d & ts' & _ & Hn & Hd).
    apply negb_true_iff, Z.eqb_neq in Hz. rewrite (Hd Hz), Z.eqb_refl in Hn.
    exists Val, ts'. rewrite (proj2 (Z.eqb_neq Val 0) Hz). split; [done|]. split; [exact Hn|]. lia.
  - destruct (is_time_name Val); [done|]. eauto.
  - eauto.
Qed.

Lemma column_names_ok lower names fs : ∃ r, column_names lower names fs = Ok r.
Proof.
  revert names. induction fs as [|f fs IH]; intros names; cbn [column_names]; [eauto|].
  destruct (Field_Expr f) as [| |name args| | | | | | | | | |];
    try (destruct (bool_decide (Field_Name f = "time")); apply IH).
  destruct (bool_decide (name = "top") || bool_decide (name = "bottom")) eqn:E; [|apply IH].
  destruct (length args =? 2)%nat; [apply IH|]. unfold Call_Fields.
  rewrite bool_decide_eq_true_2; [apply IH|].
  apply orb_true_iff in E as [->%bool_decide_eq_true_1| ->%bool_decide_eq_true_1]; repeat constructor.
Qed.

Lemma simple_derivative_ok calls :
  existsb (λ c, HasSuffix (call_name c) "derivative") calls = false → simple_derivative calls = Ok false.
Proof.
  induction calls as [|c calls IH]; intros H; [done|]. cbn [existsb simple_derivative] in *.
  apply orb_false_iff in H as [-> ?]. auto.
Qed.

Lemma derivative_validated s : validateDerivative s = Ok tt → ∃ b, IsSimpleDerivative s = Ok b.
Proof.
  unfold validateDerivative, IsSimpleDerivative, HasDerivative. intros H.
  destruct (existsb _ (FunctionCalls s)) eqn:E; simpl in H; [|rewrite simple_derivative_ok; eauto].
  destruct (negb _); [done|]. destruct (FunctionCalls s) as [|c [|? ?]]; try done.
  cbn [simple_derivative]. destruct (HasSuffix _ _); [|eauto].
  destruct (call_args c) as [|a rest]; [done|]. destruct (is_ref a); eauto.
Qed.

(** The statement with its interval remembered. *)
Definition asked (s : SelectStatement) : SelectStatement := (GroupByInterval s).1.
Lemma asked_again s : GroupByInterval (asked s) = (asked s, (GroupByInterval s).2).
Proof.
  unfold asked. destruct (GroupByInterval s) as [s1 r] eqn:E. simpl. pose proof E as E0. unfold GroupByInterval in E.
  destruct (negb _) eqn:En; [by injection E as <- <-|]. destruct (Dimensions s) as [|d ds] eqn:Ed; [by injection E as <- <-|].
  destruct (interval_of (d :: ds)) as [i|e|] eqn:Ei; injection E as <- <-; [|done..].
  unfold GroupByInterval. destruct (Z.eqb_spec i 0) as [->|Hi].
  - cbn [groupByInterval set_interval Dimensions]. rewrite Z.eqb_refl, Ed, Ei. done.
  - cbn [groupByInterval set_interval]. by rewrite (proj2 (Z.eqb_neq i 0) Hi).
Qed.
Lemma asked_same s : ∃ d, asked s = set_interval s d.
Proof.
  unfold asked, GroupByInterval. destruct (negb _); [exists (groupByInterval s); by destruct s|].
  destruct (Dimensions s) as [|d ds]; [exists (groupByInterval s); by destruct s|].
  destruct (interval_of (d :: ds)) as [i|e|]; [by exists i|exists (groupByInterval s); by destruct s..].
Qed.

Lemma validate_call_asked s name args s' r : validate_call s name args = (s', r) → s' = s ∨ s' = asked s.
Proof.
  unfold validate_call, validate_derivative_call, asked. destruct (_ || _); [|intros [= <- _]; tauto].
  destruct (validSelectWithAggregate s); [|intros [= <- _]; tauto..]. destruct (_ || _); [intros [= <- _]; tauto|].
  destruct (GroupByInterval s) as [s1 d]. intros [= <- _]. tauto.
Qed.
Lemma validate_calls_asked s0 calls : ∀ s s' r, s = s0 ∨ s = asked s0 → validate_calls s calls = (s', r) → s' = s0 ∨ s' = asked s0.
Proof.
  induction calls as [|c calls IH]; cbn [validate_calls]; intros s s' r Hs H; [by injection H as <- _|].
  destruct (validate_call s (call_name c) (call_args c)) as [s1 r1] eqn:E. apply validate_call_asked in E.
  assert (H1 : s1 = s0 ∨ s1 = asked s0).
  { destruct Hs as [-> | ->], E as [-> | ->]; try tauto. right. unfold asked at 1. by rewrite asked_again. }
  destruct r1 as [u|e|]; [by eapply IH|injection H as <- _; exact H1..].
Qed.
(** A validated statement is the statement with its interval remembered. *)
Lemma validate_parts s tr s' :
  validate s tr = (s', Ok tt) → s' = asked s ∧ validateDimensions s = Ok tt ∧ validateDerivative s' = Ok tt.
Proof.
  unfold validate. destruct (validateFields s) as [[]| |], (validateDimensions s) as [[]| |], (validateDistinct s) as [[]| |],
    (validateCountDistinct s) as [[]| |]; simpl; try done.
  unfold validateAggregates. destruct (validate_calls s (FunctionCalls s)) as [s1 r1] eqn:E.
  apply (validate_calls_asked s) in E; [|by left]. destruct r1 as [u|e|]; [|done..].
  destruct (GroupByInterval s1) as [s2 d] eqn:Eg. assert (s2 = asked s) as ->.
  { destruct E as [-> | ->]; [unfold asked; by rewrite Eg|]. rewrite asked_again in Eg. by injection Eg as <- _. }
  destruct (IsRawQuery (asked s) && _); [done|]. destruct (_ && _); [done|]. intros [= <- H]. done.
Qed.

(** What planning asks of a statement that passed validation: splitting its
    dimensions, asking for a simple derivative and computing its columns do not
    panic; and when no interval is 0, the interval that [GroupByInterval] finds
    first is the one that [Normalize] finds last. *)
Lemma validated_statement_planned (s s' : SelectStatement) (targetRequired : bool) :
  groupByInterval s = 0 → validate s targetRequired = (s', Ok tt) →
  (∃ r, Normalize (Dimensions s') = Ok r) ∧ (∃ b, IsSimpleDerivative s' = Ok b) ∧ (∀ lower, ∃ names, ColumnNames lower s' = Ok names) ∧
  (nonzero_intervals (Dimensions s') = true →
   ∃ d ts, groupByInterval s' = d ∧ (GroupByInterval s').2 = Ok d ∧ Normalize (Dimensions s') = Ok (d, ts)).
Proof.
  intros H0 (-> & Hd & Hv)%validate_parts. assert (Dimensions (asked s) = Dimensions s) as Ed by (by destruct (asked_same s) as [d ->]). split_and!.
  - rewrite Ed. by eapply normalize_validated.
  - by apply derivative_validated.
  - intros lower. apply column_names_ok.
  - rewrite Ed. intros Hz. destruct (interval_validated _ _ 0 [] Hd Hz) as (d & ts & Hi & Hn & _).
    exists d, ts. rewrite asked_again. unfold asked, GroupByInterval. rewrite H0, Z.eqb_refl. cbn [negb]. split_and!.
    + destruct (Dimensions s) as [|e ds]; [injection Hi as <-; done|]. by rewrite Hi.
    + destruct (Dimensions s) as [|e ds]; [exact Hi|]. by rewrite Hi.
    + unfold Normalize. rewrite Hn. by destruct (Z.eqb_spec d 0) as [->|].
Qed.

Definition example_select : SelectStatement :=
  mkSelect [mkField (Call "mean" [VarRef "value"]) ""] None
    [Call "time" [DurationLiteral Hour]; VarRef "host"] [mkSource "db" "rp" "cpu" None]
    (Some (BinaryExpr GT (VarRef "time") (TimeLiteral 1000))) [] 0 0 0 0 0 false NullFill VNil.

(** Two intervals are accepted when the first is 0, and then the two functions
    disagree. *)
Example zero_interval_disagrees :
  let s := mkSelect [mkField (Call "mean" [VarRef "value"]) ""] None
    [Call "time" [DurationLiteral 0]; Call "time" [DurationLiteral Hour]] [] None [] 0 0 0 0 0 false NullFill VNil in
  (validate s false).2 = Ok tt ∧ (GroupByInterval s).2 = Ok 0 ∧ Normalize (Dimensions s) = Ok (Hour, []).
Proof. vm_compute. done. Qed.

(** ** Limits on series *)

(** With a limit, [LimitTagSets] returns that many tag sets from the offset on. *)
Theorem LimitTagSets_exact {A} (s : SelectStatement) (a : list A) :
  0 < SLimit s → 0 ≤ SOffset s →
  (LimitTagSets s a).2 = Ok (take (Z.to_nat (SLimit s)) (drop (Z.to_nat (SOffset s)) a)).
Proof.
  intros Hl Ho. unfold LimitTagSets.
  rewrite (proj2 (Z.eqb_neq (SLimit s) 0)) by lia. cbn [andb].
  destruct (Z.ltb_spec (Z.of_nat (length a)) (SOffset s)); cbn [snd].
  - rewrite drop_ge by lia. by rewrite take_nil.
  - destruct (Z.ltb_spec (Z.of_nat (length a)) (SOffset s + SLimit s)); cbn [snd]; unfold go_slice; simpl.
    + rewrite !(proj2 (Z.leb_le _ _)) by lia. simpl. f_equal.
      rewrite !take_ge by (rewrite length_drop; lia). done.
    + rewrite !(proj2 (Z.leb_le _ _)) by lia. simpl. repeat f_equal. lia.
Qed.

(** An offset without a limit, which the statement documents as unlimited,
    returns nothing. *)
Theorem LimitTagSets_offset_alone {A} (s : SelectStatement) (a : list A) :
  SLimit s = 0 → 0 < SOffset s → (LimitTagSets s a).2 = Ok [].
Proof.
  intros Hl Ho. unfold LimitTagSets. rewrite Hl, (proj2 (Z.eqb_neq (SOffset s) 0)) by lia. cbn [andb Z.eqb].
  rewrite Z.add_0_r. destruct (Z.ltb_spec (Z.of_nat (length a)) (SOffset s)); cbn [snd]; [done|].
  unfold go_slice. rewrite Hl, Z.add_0_r, !(proj2 (Z.leb_le _ _)) by lia. simpl. by rewrite Z.sub_diag.
Qed.

(** The limit is lowered in the statement: asked about a short list first, the
    same statement returns fewer tag sets of a longer one than its limit. *)
Example LimitTagSets_remembers :
  let s := set_slimit example_select 2 in
  let s' := (LimitTagSets s [1%nat]).1 in
  (LimitTagSets s [1%nat; 2%nat; 3%nat]).2 = Ok [1%nat; 2%nat] ∧
  (LimitTagSets s' [1%nat; 2%nat; 3%nat]).2 = Ok [1%nat].
Proof. vm_compute. done. Qed.
