(* ===== verification/Escape.v ===== *)
(** * Escaping of names: [pkg/escape]

    The loops over the map of codes visit it in an order Go leaves open: the
    order is an argument, and the theorems hold for each. *)

From stdpp Require Import base list strings sets.
From Stdlib Require Import Ascii Lia.
From S2P Require Import Prelude.

(** ** The code *)

Definition dquote : ascii := "034"%char.
Definition backslash : ascii := "092"%char.

(** The keys of [Codes]; the code of a character is the character after a
    backslash. *)
Definition Codes : list ascii := [","; dquote; " "; "="]%char.
Definition code_of (c : ascii) : string := String backslash (String c EmptyString).
Definition codesStr : list (string * string) := (λ c, (String c EmptyString, code_of c)) <$> Codes.

(** [strings.Replace(s, old, new, -1)] for a non-empty [old]: the occurrences
    from the left, none within another. *)
Fixpoint replace_from (old new : string) (skip : nat) (s : string) : string :=
  match s with
  | EmptyString => EmptyString
  | String c s' =>
      match skip with
      | S k => replace_from old new k s'
      | O => if String.prefix old s then new +:+ replace_from old new (pred (String.length old)) s'
             else String c (replace_from old new O s')
      end
  end.
Definition strings_Replace (s old new : string) : string := replace_from old new O s.

Definition UnescapeString (order : list (string * string)) (s : string) : string :=
  foldl (λ s '(b, esc), strings_Replace s esc b) s order.
Definition escape_String (order : list (string * string)) (s : string) : string :=
  foldl (λ s '(b, esc), strings_Replace s b esc) s order.

(** [bytes.go]: [Bytes] is the same loop on bytes. *)
Definition escape_Bytes (order : list (string * string)) (s : string) : string :=
  foldl (λ s '(b, esc), strings_Replace s b esc) s order.

Definition is_code (c : ascii) : bool :=
  bool_decide (c = ","%char) || bool_decide (c = dquote) || bool_decide (c = " "%char) || bool_decide (c = "="%char).

Fixpoint Unescape (s : string) : string :=
  match s with
  | EmptyString => EmptyString
  | String x s' =>
      match s' with
      | String c s'' =>
          if bool_decide (x = backslash) && is_code c then String c (Unescape s'')
          else String x (Unescape s')
      | EmptyString => String x EmptyString
      end
  end.

(** ** One pass for a set of characters *)

Fixpoint unesc (S : list ascii) (s : string) : string :=
  match s with
  | EmptyString => EmptyString
  | String x s' =>
      match s' with
      | String c s'' =>
          if bool_decide (x = backslash) && bool_decide (c ∈ S) then String c (unesc S s'')
          else String x (unesc S s')
      | EmptyString => String x EmptyString
      end
  end.

Fixpoint esc (S : list ascii) (s : string) : string :=
  match s with
  | EmptyString => EmptyString
  | String c s => if bool_decide (c ∈ S) then String backslash (String c (esc S s)) else String c (esc S s)
  end.

(** Induction that removes one or two characters. *)
Lemma string_ind2 (P : string → Prop) :
  P EmptyString → (∀ x, P (String x EmptyString)) →
  (∀ x c s, P s → P (String c s) → P (String x (String c s))) → ∀ s, P s.
Proof.
  intros H0 H1 H2 s. enough (P s ∧ ∀ x, P (String x s)) by tauto.
  induction s as [|c s [IH1 IH2]]; split; eauto.
Qed.

Lemma is_code_spec c : is_code c = bool_decide (c ∈ Codes).
Proof.
  unfold is_code, Codes. repeat case_bool_decide; set_solver.
Qed.

Lemma Unescape_unesc s : Unescape s = unesc Codes s.
Proof.
  induction s as [|x|x c s IH1 IH2] using string_ind2; [done..|].
  cbn [Unescape unesc]. rewrite is_code_spec. case_match; [by rewrite IH1|f_equal; exact IH2].
Qed.

Lemma unesc_nil s : unesc [] s = s.
Proof.
  induction s as [|x|x c s IH1 IH2] using string_ind2; [done..|].
  cbn [unesc]. rewrite (bool_decide_eq_false_2 (c ∈ [])) by set_solver. rewrite andb_false_r.
  f_equal. exact IH2.
Qed.

(** The first character of a pass is the first of the text, or one that was
    escaped. *)
Lemma unesc_first S x s :
  ∃ c s', unesc S (String x s) = String c s' ∧ (c = x ∨ c ∈ S).
Proof.
  destruct s as [|c s]; [by eexists _, _; eauto|]. cbn [unesc].
  case_match eqn:E; [|by eexists _, _; eauto].
  apply andb_prop in E as [_ ?%bool_decide_eq_true_1]. eexists _, _; eauto.
Qed.

Lemma unesc_skip S x s : x ≠ backslash → unesc S (String x s) = String x (unesc S s).
Proof. intros Hx. destruct s; [done|]. cbn [unesc]. by rewrite bool_decide_eq_false_2 by done. Qed.

Lemma unesc_code S c s : c ∈ S → unesc S (String backslash (String c s)) = String c (unesc S s).
Proof. intros Hc. cbn [unesc]. rewrite (bool_decide_eq_true_2 (c ∈ S)) by done. by rewrite bool_decide_eq_true_2 by done. Qed.

Lemma unesc_other S x c s : c ∉ S → unesc S (String x (String c s)) = String x (unesc S (String c s)).
Proof. intros Hc. cbn [unesc]. by rewrite (bool_decide_eq_false_2 (c ∈ S)), andb_false_r. Qed.

(** Passes for disjoint sets of characters make one pass. *)
Lemma unesc_compose S T s :
  backslash ∉ S → backslash ∉ T → S ## T → unesc T (unesc S s) = unesc (T ++ S) s.
Proof.
  intros HS HT Hdisj. induction s as [|x|x c s IH1 IH2] using string_ind2; [done..|].
  destruct (decide (x = backslash)) as [->|Hx]; [|by rewrite !(unesc_skip _ x), IH2].
  destruct (decide (c ∈ S)) as [Hc|Hc].
  { rewrite !(unesc_code _ c), unesc_skip, IH1 by set_solver. done. }
  rewrite (unesc_other S) by done. destruct (decide (c ∈ T)) as [HcT|HcT].
  { rewrite (unesc_skip S c), !(unesc_code _ c), IH1 by set_solver. done. }
  rewrite (unesc_other (T ++ S)), <- IH2 by set_solver.
  destruct (unesc_first S c s) as (d & s' & -> & Hd).
  apply unesc_other. destruct Hd as [->|]; set_solver.
Qed.

(** ** The loops are passes *)

Lemma prefix_code c s :
  String.prefix (code_of c) s = true ↔ ∃ s', s = String backslash (String c s').
Proof.
  unfold code_of. generalize backslash as b. intros b. destruct s as [|x [|y s]]; simpl.
  - split; [done|by intros [??]].
  - split; [by destruct (Ascii.ascii_dec b x)|by intros [??]].
  - destruct (Ascii.ascii_dec b x) as [<-|Hx]; [destruct (Ascii.ascii_dec c y) as [<-|Hy]|];
      (split; [try done; eauto|intros [? [=]]; by destruct s]).
Qed.

Lemma replace_from_0 old new c s :
  replace_from old new 0 (String c s) =
    if String.prefix old (String c s) then new +:+ replace_from old new (pred (String.length old)) s
    else String c (replace_from old new 0 s).
Proof. done. Qed.

Lemma Replace_unesc c s :
  c ≠ backslash → strings_Replace s (code_of c) (String c EmptyString) = unesc [c] s.
Proof.
  intros Hc. unfold strings_Replace. induction s as [|x|x d s IH1 IH2] using string_ind2; [done|..].
  - rewrite replace_from_0. destruct (String.prefix _ _) eqn:E; [|done].
    by apply prefix_code in E as [? [=]].
  - rewrite replace_from_0. destruct (String.prefix _ _) eqn:E.
    + apply prefix_code in E as [? [= -> -> ->]]. rewrite unesc_code by set_solver. by rewrite <- IH1.
    + rewrite IH2. destruct (decide (x = backslash)) as [->|]; [|by rewrite (unesc_skip _ x)].
      symmetry. apply unesc_other. intros ->%list_elem_of_singleton.
      rewrite (proj2 (prefix_code c _)) in E by eauto. done.
Qed.

Lemma Replace_esc c s : strings_Replace s (String c EmptyString) (code_of c) = esc [c] s.
Proof.
  unfold strings_Replace. induction s as [|x s IH]; [done|]. rewrite replace_from_0.
  cbn [String.prefix esc]. destruct (Ascii.ascii_dec c x) as [<-|Hx].
  - rewrite bool_decide_eq_true_2 by set_solver. cbn [String.length pred]. rewrite IH. by destruct s.
  - rewrite bool_decide_eq_false_2 by set_solver. by rewrite IH.
Qed.

Lemma esc_compose S T s :
  backslash ∉ T → S ## T → esc T (esc S s) = esc (T ++ S) s.
Proof.
  intros HT Hdisj. induction s as [|x s IH]; [done|]. simpl.
  destruct (decide (x ∈ S)) as [Hx|Hx]; [|destruct (decide (x ∈ T)) as [HxT|HxT]].
  - rewrite !(bool_decide_eq_true_2 (x ∈ _)) by set_solver. simpl.
    rewrite !bool_decide_eq_false_2 by set_solver. by rewrite IH.
  - rewrite (bool_decide_eq_false_2 (x ∈ S)), (bool_decide_eq_true_2 (x ∈ T ++ S)) by set_solver.
    simpl. rewrite bool_decide_eq_true_2 by done. by rewrite IH.
  - rewrite (bool_decide_eq_false_2 (x ∈ S)), (bool_decide_eq_false_2 (x ∈ T ++ S)) by set_solver.
    simpl. rewrite bool_decide_eq_false_2 by done. by rewrite IH.
Qed.

Lemma unesc_set S T s : (∀ c, c ∈ S ↔ c ∈ T) → unesc S s = unesc T s.
Proof.
  intros HST. induction s as [|x|x c s IH1 IH2] using string_ind2; [done..|].
  cbn [unesc]. rewrite (bool_decide_ext _ _ (HST c)).
  case_match; [by rewrite IH1|]. f_equal. exact IH2.
Qed.

Lemma esc_set S T s : (∀ c, c ∈ S ↔ c ∈ T) → esc S s = esc T s.
Proof.
  intros HST. induction s as [|x s IH]; [done|]. cbn [esc].
  rewrite (bool_decide_ext _ _ (HST x)), IH. done.
Qed.

Definition pair_of (c : ascii) : string * string := (String c EmptyString, code_of c).

Lemma Unescape_order cs S s :
  NoDup cs → backslash ∉ cs → backslash ∉ S → cs ## S →
  UnescapeString (pair_of <$> cs) (unesc S s) = unesc (cs ++ S) s.
Proof.
  revert S. induction cs as [|c cs IH]; intros S Hnd Hb HS Hd; [done|].
  apply NoDup_cons in Hnd as [Hc Hnd].
  change (UnescapeString (pair_of <$> cs) (strings_Replace (unesc S s) (code_of c) (String c EmptyString)) = unesc ((c :: cs) ++ S) s).
  rewrite Replace_unesc, unesc_compose by set_solver.
  rewrite IH by set_solver. apply unesc_set. set_solver.
Qed.

Lemma escape_order cs S s :
  NoDup cs → backslash ∉ cs → cs ## S →
  escape_String (pair_of <$> cs) (esc S s) = esc (cs ++ S) s.
Proof.
  revert S. induction cs as [|c cs IH]; intros S Hnd Hb Hd; [done|].
  apply NoDup_cons in Hnd as [Hc Hnd].
  change (escape_String (pair_of <$> cs) (strings_Replace (esc S s) (String c EmptyString) (code_of c)) = esc ((c :: cs) ++ S) s).
  rewrite Replace_esc, esc_compose by set_solver.
  rewrite IH by set_solver. apply esc_set. set_solver.
Qed.

Lemma esc_nil s : esc [] s = s.
Proof.
  induction s as [|x s IH]; [done|]. cbn [esc].
  by rewrite (bool_decide_eq_false_2 (x ∈ [])), IH by set_solver.
Qed.

(** An order of the map's entries is an order of the characters. *)
Lemma order_codes order :
  order ≡ₚ codesStr → ∃ cs, order = pair_of <$> cs ∧ NoDup cs ∧ (∀ c, c ∈ cs ↔ c ∈ Codes) ∧ backslash ∉ cs.
Proof.
  intros (cs & -> & Hcs)%Permutation_map_inv. exists cs. split; [done|].
  assert (Hin : ∀ c, c ∈ cs ↔ c ∈ Codes) by (intros c; by rewrite Hcs).
  split; [rewrite <- Hcs; apply (bool_decide_unpack _); vm_compute; done|].
  split; [done|]. rewrite Hin. apply (bool_decide_unpack _). vm_compute. done.
Qed.

Lemma UnescapeString_unesc order s : order ≡ₚ codesStr → UnescapeString order s = unesc Codes s.
Proof.
  intros (cs & -> & Hnd & Hin & Hb)%order_codes.
  rewrite <- (unesc_nil s) at 1. rewrite Unescape_order by set_solver.
  apply unesc_set. set_solver.
Qed.

Lemma escape_String_esc order s : order ≡ₚ codesStr → escape_String order s = esc Codes s.
Proof.
  intros (cs & -> & Hnd & Hin & Hb)%order_codes.
  rewrite <- (esc_nil s) at 1. rewrite escape_order by set_solver.
  apply esc_set. set_solver.
Qed.

(** Removing the backslashes that were added gives the text back. *)
Lemma unesc_esc S s : backslash ∉ S → unesc S (esc S s) = s.
Proof.
  intros HS. induction s as [|x s IH]; [done|]. cbn [esc]. destruct (decide (x ∈ S)).
  - by rewrite bool_decide_eq_true_2, unesc_code, IH by done.
  - rewrite bool_decide_eq_false_2 by done. transitivity (String x (unesc S (esc S s))); [|by rewrite IH].
    destruct s as [|y s]; [done|]. cbn [esc]. case_bool_decide; by apply unesc_other.
Qed.

(** ** The theorem *)

(** Whatever the orders of the two loops, escaping and unescaping a text gives it back, on strings
    and on bytes, and the loop of [UnescapeString] gives what the single pass
    of [Unescape] gives, also on texts that are not escaped properly. *)
Theorem escape_roundtrip (order order' : list (string * string)) (s : string) :
  order ≡ₚ codesStr → order' ≡ₚ codesStr →
  UnescapeString order' (escape_String order s) = s ∧
  Unescape (escape_Bytes order s) = s ∧
  UnescapeString order s = Unescape s.
Proof.
  intros Ho Ho'. assert (Hb : backslash ∉ Codes) by (apply (bool_decide_unpack _); vm_compute; done).
  rewrite Unescape_unesc. change escape_Bytes with escape_String.
  by rewrite !UnescapeString_unesc, !escape_String_esc, unesc_esc, Unescape_unesc.
Qed.

Lemma escape_roundtrip_witness :
  (reverse codesStr ≡ₚ codesStr) ∧
  escape_String codesStr "a,b c\=" = "a\,b\ c\\=" ∧
  UnescapeString (reverse codesStr) (escape_String codesStr "a,b c\=") = "a,b c\=".
Proof.
  split; [apply reverse_Permutation|]. split; [vm_compute; reflexivity|].
  refine (proj1 (escape_roundtrip codesStr (reverse codesStr) "a,b c\=" _ _)); [done|apply reverse_Permutation].
Defined.
