(* ===== verification/QlPrint.v ===== *)
(** * Quoting: [influxql/parser.go], [influxql/scanner.go], [influxql/ast.go]

    The classes of characters the scanner knows, the quoting of identifiers and
    strings, and the text of a source.  A string is its bytes: a character beyond
    ASCII is in none of the classes, and neither are its bytes. *)

From stdpp Require Import base list strings.
From Stdlib Require Import ZArith Ascii Lia.
From S2P Require Import Prelude QlToken QlExpr QlSelect Escape.

Local Open Scope Z_scope.

(** ** Characters *)

(** A character is its code point; that of an ASCII character is its byte. *)
Abbreviation rune := Z.
Definition rn (c : ascii) : rune := Z.of_nat (nat_of_ascii c).

Definition newline : ascii := "010"%char.
Definition squote : ascii := "039"%char.

Definition between (lo hi : ascii) (ch : rune) : bool := (rn lo <=? ch) && (ch <=? rn hi).

Definition isWhitespace (ch : rune) : bool := (ch =? rn " ") || (ch =? rn "009") || (ch =? rn newline).
Definition isLetter (ch : rune) : bool := between "a" "z" ch || between "A" "Z" ch.
Definition isDigit (ch : rune) : bool := between "0" "9" ch.
Definition isIdentChar (ch : rune) : bool := isLetter ch || isDigit ch || (ch =? rn "_").
Definition isIdentFirstChar (ch : rune) : bool := isLetter ch || (ch =? rn "_").

(** ** Quotes *)

(** [strings.NewReplacer] with a newline, a backslash and the quote [q]: these
    characters are replaced in one pass. *)
Definition quoted_char (q c : ascii) : string :=
  if bool_decide (c = newline) then String backslash (String "n"%char EmptyString)
  else if bool_decide (c = backslash) then String backslash (String backslash EmptyString)
  else if bool_decide (c = q) then String backslash (String q EmptyString)
  else String c EmptyString.
Fixpoint quoted (q : ascii) (s : string) : string :=
  match s with EmptyString => EmptyString | String c s => quoted_char q c +:+ quoted q s end.

Definition QuoteString (s : string) : string :=
  String squote (quoted squote s +:+ String squote EmptyString).

Fixpoint all_ident_chars (s : string) : bool :=
  match s with EmptyString => true | String c s => isIdentChar (rn c) && all_ident_chars s end.
Definition IdentNeedsQuotes (ident : string) : bool :=
  if negb (bool_decide (Lookup ident = IDENT)) then true
  else match ident with
       | EmptyString => false
       | String c s => negb (isIdentFirstChar (rn c) && all_ident_chars s)
       end.

Definition quote_segment (needQuote : bool) (s : string) : string :=
  if needQuote then String dquote (quoted dquote s +:+ String dquote EmptyString) else quoted dquote s.
Fixpoint QuoteIdent (segments : list string) : string :=
  match segments with
  | [] => EmptyString
  | [s] => quote_segment (IdentNeedsQuotes s) s
  | s :: rest =>
      quote_segment (IdentNeedsQuotes s || negb (bool_decide (s = EmptyString))) s +:+ "." +:+ QuoteIdent rest
  end.

(** ** The text of a source *)

Definition RegexLiteral_String (re : string) : string :=
  "/" +:+ strings_Replace re "/" (String backslash "/") +:+ "/".

(** The database and the policy are put between quotes as they are. *)
Definition in_quotes (s : string) : string := String dquote (s +:+ String dquote EmptyString).
Definition Source_String (m : Source) : string :=
  let db := Source_Database m in
  let rp := Source_RetentionPolicy m in
  (if bool_decide (db = EmptyString) then EmptyString else in_quotes db +:+ ".") +:+
  (if bool_decide (rp = EmptyString) then EmptyString else in_quotes rp) +:+
  (if bool_decide (db = EmptyString) && bool_decide (rp = EmptyString) then EmptyString else ".") +:+
  (if negb (bool_decide (Source_Name m = EmptyString)) then QuoteIdent [Source_Name m]
   else match Source_Regex m with Some re => RegexLiteral_String re | None => EmptyString end).
