(* ===== verification/QlReader.v ===== *)
(** * The rune reader of the scanner: [influxql/scanner.go]

    The reader keeps the last three characters in a circular buffer so that they
    can be unread, as [bufScanner] does with tokens.  The buffer is modelled as it
    is, with its indices, and related to what it stands for: the entries that are
    unread, in the order in which they will be read again, and the ones before. *)

From stdpp Require Import base list strings.
From Stdlib Require Import ZArith Ascii Lia.
From S2P Require Import Prelude QlToken Escape QlExpr QlSelect QlPrint.

Local Open Scope Z_scope.

(** ** The circular buffer *)

Section ring.
Context {E : Type}.

Record ring := mkRing { ring_i : Z; ring_n : Z; ring_buf : list E }.

Definition ring_new (zero : E) : ring := mkRing 0 0 [zero; zero; zero].

(** [None]: the index is out of range. *)
Definition ring_curr (r : ring) : option E :=
  let j := Z.rem (ring_i r - ring_n r + 3) 3 in
  if j <? 0 then None else ring_buf r !! Z.to_nat j.
Definition ring_push (e : E) (r : ring) : ring :=
  let i := Z.rem (ring_i r + 1) 3 in mkRing i (ring_n r) (<[Z.to_nat i := e]> (ring_buf r)).
Definition ring_unread (r : ring) : ring := mkRing (ring_i r) (ring_n r + 1) (ring_buf r).
Definition ring_pop (r : ring) : ring := mkRing (ring_i r) (ring_n r - 1) (ring_buf r).

(** The entries, the last one written first. *)
Definition ring_entries (r : ring) : list E :=
  match ring_buf r with
  | [a; b; c] => if ring_i r =? 0 then [a; c; b] else if ring_i r =? 1 then [b; a; c] else [c; b; a]
  | _ => []
  end.

(** [pend] is unread and [back] was read, the last one first. *)
Definition ring_rep (r : ring) (pend back : list E) : Prop :=
  ring_n r = Z.of_nat (length pend) ∧ (ring_i r = 0 ∨ ring_i r = 1 ∨ ring_i r = 2) ∧
  length (ring_buf r) = 3%nat ∧ ring_entries r = reverse pend ++ back.

Lemma ring_rep_length r pend back : ring_rep r pend back → (length pend + length back = 3)%nat.
Proof.
  intros (_ & _ & Hb & He). apply (f_equal length) in He. rewrite length_app, length_reverse in He.
  destruct r as [i n [|a [|b [|c [|]]]]]; simpl in *; try done. unfold ring_entries in He. simpl in He.
  destruct (i =? 0), (i =? 1); simpl in He; lia.
Qed.

Lemma ring_new_rep zero : ring_rep (ring_new zero) [] [zero; zero; zero].
Proof. unfold ring_rep. simpl. auto. Qed.

Lemma ring_curr_rep r pend c back : ring_rep r pend (c :: back) → ring_curr r = Some c.
Proof.
  intros H. pose proof (ring_rep_length _ _ _ H) as Hl. destruct H as (Hn & Hi & Hb & He).
  destruct r as [i n [|x [|y [|z [|]]]]]; simpl in *; try done. unfold ring_curr, ring_entries in *. simpl in *.
  destruct pend as [|p [|q [|]]]; simpl in *; try lia; subst n;
    destruct Hi as [->|[->| ->]]; unfold reverse in He; simpl in *; by simplify_eq.
Qed.

Lemma ring_unread_rep r pend c back : ring_rep r pend (c :: back) → ring_rep (ring_unread r) (c :: pend) back.
Proof.
  intros (Hn & Hi & Hb & He). split_and!; [simpl; lia|done..|].
  rewrite reverse_cons, <- app_assoc. exact He.
Qed.

Lemma ring_pop_rep r pend c back : ring_rep r (c :: pend) back → ring_rep (ring_pop r) pend (c :: back).
Proof.
  intros (Hn & Hi & Hb & He). split_and!; [simpl in *; lia|done..|].
  rewrite reverse_cons, <- app_assoc in He. exact He.
Qed.

Lemma ring_push_rep r e back : ring_rep r [] back → ring_rep (ring_push e r) [] (e :: take 2 back).
Proof.
  intros (Hn & Hi & Hb & He). destruct r as [i n [|x [|y [|z [|]]]]]; simpl in *; try done. subst n.
  unfold ring_entries, ring_rep in *. simpl in *. rewrite <- He. clear He.
  destruct Hi as [->|[->| ->]]; simpl; split_and!; auto.
Qed.
End ring.
Arguments ring : clear implicits.

(** ** The reader

    The runes are those that [bufio.Reader] decodes.  [Err] is never the reader's:
    it says that a loop ran out of fuel. *)

Record reader := mkReader {
  rd_rest : list rune;
  rd_pos : Pos;
  rd_eof : bool;
  rd_ring : ring (rune * Pos)
}.

Definition scanM : Type → Type := ST reader unit.
Definition out_of_fuel {A} : scanM A := st_fail ().

Definition eof : rune := 0.
Definition carriage : rune := rn "013".

Definition newReader (runes : list rune) : reader :=
  mkReader runes (mkPos 0 0) false (ring_new (0, mkPos 0 0)).

Definition reader_curr : scanM (rune * Pos) := λ r,
  match ring_curr (rd_ring r) with Some e => (r, Ok e) | None => (r, Panic) end.
Definition reader_unread : scanM unit := λ r,
  (mkReader (rd_rest r) (rd_pos r) (rd_eof r) (ring_unread (rd_ring r)), Ok ()).

(** The next rune of the text, where a carriage return with or without a
    newline counts as a newline. *)
Definition next_rune (rest : list rune) : rune * list rune :=
  match rest with
  | [] => (eof, [])
  | ch :: rest =>
      if ch =? carriage then
        (rn newline, match rest with c :: rest' => if c =? rn newline then rest' else rest | [] => [] end)
      else (ch, rest)
  end.
Definition advance_pos (ch : rune) (seen_eof : bool) (p : Pos) : Pos :=
  if ch =? rn newline then mkPos (Line p + 1) 0
  else if negb seen_eof then mkPos (Line p) (Char p + 1) else p.

Definition reader_read : scanM (rune * Pos) := λ r,
  if 0 <? ring_n (rd_ring r) then
    reader_curr (mkReader (rd_rest r) (rd_pos r) (rd_eof r) (ring_pop (rd_ring r)))
  else
    let '(ch, rest) := next_rune (rd_rest r) in
    reader_curr (mkReader rest (advance_pos ch (rd_eof r) (rd_pos r)) (rd_eof r || (ch =? eof))
                   (ring_push (ch, rd_pos r) (rd_ring r))).

(** ** What the reader stands for *)

(** The text with its line ends made one. *)
Fixpoint normal (runes : list rune) : list rune :=
  match runes with
  | [] => []
  | ch :: rest =>
      if ch =? carriage then
        rn newline :: match rest with c :: rest' => if c =? rn newline then normal rest' else normal rest | [] => [] end
      else ch :: normal rest
  end.

Definition peek (l : list rune) : rune := match l with [] => eof | ch :: _ => ch end.
Definition push_back (ch : rune) (l : list rune) : list rune := if ch =? eof then l else ch :: l.

Lemma next_rune_normal rest : next_rune rest = (peek (normal rest), (next_rune rest).2) ∧
  normal (next_rune rest).2 = tail (normal rest).
Proof.
  destruct rest as [|ch rest]; [done|]. simpl. destruct (ch =? carriage); [|done]. simpl.
  destruct rest as [|c rest]; [done|]. by destruct (c =? rn newline).
Qed.

(** [n] characters are unread, [b] were read before them, and [l] is left to
    read; beyond its end the reader reads [eof] again and again. *)
Definition rep (r : reader) (n : nat) (b l : list rune) : Prop :=
  ∃ pend back j, ring_rep (rd_ring r) pend back ∧ length pend = n ∧ back.*1 = b ∧
    pend.*1 ++ normal (rd_rest r) = l ++ replicate j eof ∧ ((0 < j)%nat → normal (rd_rest r) = []).

Lemma rep_new runes : rep (newReader runes) 0 [0; 0; 0] (normal runes).
Proof.
  exists [], [(0, mkPos 0 0); (0, mkPos 0 0); (0, mkPos 0 0)], O. split; [apply ring_new_rep|].
  simpl. rewrite app_nil_r. split_and!; [done..|lia].
Qed.

Lemma rep_length r n b l : rep r n b l → (n + length b = 3)%nat.
Proof.
  intros (pend & back & j & H & <- & <- & _). apply ring_rep_length in H. by rewrite length_fmap.
Qed.

Lemma rep_curr r n c b l : rep r n (c :: b) l → ∃ pos, reader_curr r = (r, Ok (c, pos)).
Proof.
  intros (pend & back & j & H & _ & Hb & _). destruct back as [|[c' p] back]; [done|]. simpl in Hb. simplify_eq.
  exists p. unfold reader_curr. by rewrite (ring_curr_rep _ _ _ _ H).
Qed.

Lemma rep_unread r n c b l :
  rep r n (c :: b) l → c ≠ eof ∨ l = [] →
  ∃ r', reader_unread r = (r', Ok ()) ∧ rep r' (S n) b (push_back c l).
Proof.
  intros (pend & back & j & H & Hn & Hb & Hl & Hj) Hc. destruct back as [|[c' p] back]; [done|]. simpl in Hb. simplify_eq.
  eexists. split; [reflexivity|]. unfold push_back. exists ((c, p) :: pend), back.
  assert (Hr : ring_rep (ring_unread (rd_ring r)) ((c, p) :: pend) back) by by apply ring_unread_rep.
  destruct (Z.eqb_spec c eof) as [->|Hne].
  - destruct Hc as [? | ->]; [done|]. exists (S j). split_and!; [done..| |].
    + rewrite fmap_cons, <- app_comm_cons. cbn [rd_rest fst]. by rewrite Hl.
    + intros _. destruct j; [|apply Hj; lia]. by apply app_eq_nil in Hl as [_ ?].
  - exists j. split_and!; [done..| |done].
    rewrite fmap_cons, <- app_comm_cons. cbn [rd_rest fst]. by rewrite Hl.
Qed.

Lemma rep_read r n b l :
  rep r n b l →
  ∃ pos r', reader_read r = (r', Ok (peek l, pos)) ∧
    rep r' (pred n) (peek l :: match n with O => take 2 b | S _ => b end) (tail l).
Proof.
  intros (pend & back & j & H & Hn & Hb & Hl & Hj). unfold reader_read. destruct pend as [|[c p] pend]; simpl in Hn; subst n.
  - pose proof (proj1 H) as ->. simpl in Hl |- *. destruct (next_rune_normal (rd_rest r)) as [E1 E2].
    destruct (next_rune (rd_rest r)) as [ch rest]. simpl in E1, E2. injection E1 as ->.
    assert (peek (normal (rd_rest r)) = peek l ∧ tail (normal (rd_rest r)) = tail l ++ replicate j eof) as [Hp Ht].
    { destruct l as [|c l]; [|by rewrite Hl]. destruct j; [by rewrite Hl|]. simpl in Hl. specialize (Hj ltac:(lia)).
      by rewrite Hj in Hl. }
    rewrite Hp. pose proof (ring_push_rep (rd_ring r) (peek l, rd_pos r) back H) as Hr.
    eexists _, _. unfold reader_curr. simpl. rewrite (ring_curr_rep _ _ _ _ Hr). split; [done|].
    eexists [], _, j. split; [exact Hr|]. split_and!; [done| | |].
    + cbn [fmap list_fmap fst]. rewrite <- Hb. f_equal. by rewrite <- fmap_take.
    + simpl. by rewrite E2, Ht.
    + intros Hlt. simpl. rewrite E2, (Hj Hlt). done.
  - pose proof (proj1 H) as Hn. assert (0 <? ring_n (rd_ring r) = true) as -> by (apply Z.ltb_lt; rewrite Hn; simpl; lia).
    pose proof (ring_pop_rep _ _ _ _ H) as Hr. unfold reader_curr. simpl. rewrite (ring_curr_rep _ _ _ _ Hr).
    assert (c = peek l ∧ ∃ j', pend.*1 ++ normal (rd_rest r) = tail l ++ replicate j' eof ∧ ((0 < j')%nat → normal (rd_rest r) = []))
      as (-> & j' & Hl' & Hj').
    { destruct l as [|x l]; simpl in Hl; [|injection Hl as -> Hl; split; [done|]; by exists j].
      destruct j as [|j]; [done|]. simpl in Hl. injection Hl as -> Hl. split; [done|]. exists j. split; [done|].
      intros _. apply Hj. lia. }
    eexists p, _. split; [reflexivity|]. exists pend, ((peek l, p) :: back), j'.
    rewrite fmap_cons, Hb. by split_and!.
Qed.
