(* ===== verification/QlScan.v ===== *)
(** * The scanner of InfluxQL: [influxql/scanner.go]

    [Scan] and the functions it calls, on the reader with its circular buffer.
    Loops take fuel; more than the length of the text is always enough. *)

From stdpp Require Import base list strings.
From Stdlib Require Import ZArith Ascii Lia.
From S2P Require Import Prelude QlToken Escape QlExpr QlSelect QlPrint QlReader.

Local Open Scope Z_scope.

(** ** Text

    [Buffer.WriteRune] writes a rune in UTF-8; what is no code point is written
    as U+FFFD. *)

Definition byte_of (z : Z) : ascii := ascii_of_nat (Z.to_nat z).
Definition bytes_of (l : list Z) : string := foldr (λ z s, String (byte_of z) s) EmptyString l.
Definition EncodeRune (r : rune) : string :=
  bytes_of
    (if (r <? 0) || (0x10FFFF <? r) || ((0xD800 <=? r) && (r <=? 0xDFFF)) then [0xEF; 0xBF; 0xBD]
     else if r <? 0x80 then [r]
     else if r <? 0x800 then [0xC0 + r / 64; 0x80 + r mod 64]
     else if r <? 0x10000 then [0xE0 + r / 4096; 0x80 + r / 64 mod 64; 0x80 + r mod 64]
     else [0xF0 + r / 262144; 0x80 + r / 4096 mod 64; 0x80 + r / 64 mod 64; 0x80 + r mod 64]).
Definition utf8 (l : list rune) : string := foldr (λ r s, EncodeRune r +:+ s) EmptyString l.

Abbreviation Scanned := (Token * Pos * string)%type.

Definition dot : rune := rn ".".

(** The loop that reads the characters of a class: the first other one is
    unread.  At the end of the text the loop for digits unreads too, the ones for
    whitespace and identifiers do not. *)
Fixpoint read_while (p : rune → bool) (unread_eof : bool) (fuel : nat) : scanM (list rune) :=
  match fuel with
  | O => out_of_fuel
  | S fuel =>
      '(ch, _) ← reader_read;
      if negb unread_eof && (ch =? eof) then mret []
      else if negb (p ch) then reader_unread;; mret []
      else rest ← read_while p unread_eof fuel; mret (ch :: rest)
  end.

(** ** Strings and identifiers *)

Inductive ScanError := errBadString | errBadEscape | errOther.

Definition unescaped (ch1 : rune) : option rune :=
  if ch1 =? rn "n" then Some (rn newline)
  else if ch1 =? rn backslash then Some (rn backslash)
  else if ch1 =? rn dquote then Some (rn dquote)
  else if ch1 =? rn squote then Some (rn squote)
  else None.

Fixpoint ScanString_loop (fuel : nat) (ending : rune) (buf : list rune) : scanM (list rune * option ScanError) :=
  match fuel with
  | O => out_of_fuel
  | S fuel =>
      '(ch0, _) ← reader_read;
      if ch0 =? ending then mret (buf, None)
      else if (ch0 =? eof) || (ch0 =? rn newline) then mret (buf, Some errBadString)
      else if ch0 =? rn backslash then
        '(ch1, _) ← reader_read;
        match unescaped ch1 with
        | Some c => ScanString_loop fuel ending (buf ++ [c])
        | None => mret ([ch0; ch1], Some errBadEscape)
        end
      else ScanString_loop fuel ending (buf ++ [ch0])
  end.
Definition ScanString (fuel : nat) : scanM (list rune * option ScanError) :=
  '(ending, _) ← reader_read;
  if ending =? eof then mret ([], Some errBadString) else ScanString_loop fuel ending [].

Definition scanString (fuel : nat) : scanM Scanned :=
  reader_unread;;
  '(_, pos) ← reader_curr;
  '(lit, err) ← ScanString fuel;
  match err with
  | Some errBadString => mret (BADSTRING, pos, utf8 lit)
  | Some errBadEscape => '(_, pos) ← reader_curr; mret (BADESCAPE, pos, utf8 lit)
  | _ => mret (STRING, pos, utf8 lit)
  end.

Definition ScanBareIdent : nat → scanM (list rune) := read_while isIdentChar false.

(** The loop of [scanIdent] ends with the text of the identifier or, at a quote,
    with the token of the quoted text. *)
Fixpoint scanIdent_loop (fuel0 fuel : nat) (pos : Pos) (buf : list rune) : scanM (Scanned + list rune) :=
  match fuel with
  | O => out_of_fuel
  | S fuel =>
      '(ch, _) ← reader_read;
      if ch =? eof then mret (inr buf)
      else if ch =? rn dquote then
        '(tok0, pos0, lit0) ← scanString fuel0;
        match tok0 with
        | BADSTRING | BADESCAPE => mret (inl (tok0, pos0, lit0))
        | _ => mret (inl (IDENT, pos, lit0))
        end
      else if isIdentChar ch then
        reader_unread;;
        ident ← ScanBareIdent fuel0;
        scanIdent_loop fuel0 fuel pos (buf ++ ident)
      else reader_unread;; mret (inr buf)
  end.
Definition scanIdent (fuel : nat) : scanM Scanned :=
  '(_, pos) ← reader_read;
  reader_unread;;
  res ← scanIdent_loop fuel fuel pos [];
  match res with
  | inl t => mret t
  | inr buf =>
      let lit := utf8 buf in
      if negb (bool_decide (Lookup lit = IDENT)) then mret (Lookup lit, pos, EmptyString)
      else mret (IDENT, pos, lit)
  end.

(** ** Whitespace and numbers *)

Definition scanWhitespace (fuel : nat) : scanM Scanned :=
  '(ch, pos) ← reader_curr;
  rest ← read_while isWhitespace false fuel;
  mret (WS, pos, utf8 (ch :: rest)).

Definition scanDigits : nat → scanM (list rune) := read_while isDigit true.

(** The sign or the full stop that a number may start with: what is written to
    the buffer, or the token when it is no number. *)
Definition scanNumber_start : scanM (Scanned + list rune) :=
  '(ch, pos) ← reader_curr;
  if (ch =? rn "+") || (ch =? rn "-") then
    '(ch1, _) ← reader_read;
    '(ch2, _) ← reader_read;
    reader_unread;;
    reader_unread;;
    if isDigit ch1 || ((ch1 =? dot) && isDigit ch2) then mret (inr [ch])
    else if ch =? rn "+" then mret (inl (ADD, pos, EmptyString))
    else mret (inl (SUB, pos, EmptyString))
  else if ch =? dot then
    '(ch1, _) ← reader_read;
    reader_unread;;
    if negb (isDigit ch1) then mret (inl (ILLEGAL, pos, "."))
    else reader_unread;; mret (inr [])
  else reader_unread;; mret (inr []).

Definition scanFraction (fuel : nat) : scanM (list rune) :=
  '(ch0, _) ← reader_read;
  if ch0 =? dot then
    '(ch1, _) ← reader_read;
    if isDigit ch1 then rest ← scanDigits fuel; mret (ch0 :: ch1 :: rest)
    else reader_unread;; reader_unread;; mret []
  else reader_unread;; mret [].

Definition is_unit (ch : rune) : bool :=
  (ch =? rn "u") || (ch =? 0xB5) || (ch =? rn "s") || (ch =? rn "h") || (ch =? rn "d") || (ch =? rn "w").
Definition scanUnit : scanM (list rune) :=
  '(ch0, _) ← reader_read;
  if is_unit ch0 then mret [ch0]
  else if ch0 =? rn "m" then
    '(ch1, _) ← reader_read;
    if ch1 =? rn "s" then mret [ch0; ch1] else reader_unread;; mret [ch0]
  else reader_unread;; mret [].

(** The digits, the fraction and, when there is none, the unit of a duration. *)
Definition scanNumber_rest (fuel : nat) (sign : list rune) (pos : Pos) : scanM Scanned :=
  digits ← scanDigits fuel;
  fraction ← scanFraction fuel;
  let buf := sign ++ digits ++ fraction in
  if existsb (λ ch, ch =? dot) buf then mret (NUMBER, pos, utf8 buf)
  else
    unit_ ← scanUnit;
    mret (if bool_decide (unit_ = []) then NUMBER else DURATION_VAL, pos, utf8 (buf ++ unit_)).

Definition scanNumber (fuel : nat) : scanM Scanned :=
  '(_, pos) ← reader_curr;
  start ← scanNumber_start;
  match start with
  | inl t => mret t
  | inr sign => scanNumber_rest fuel sign pos
  end.

(** ** [Scan] *)

(** The tokens of one character that start no other token. *)
Definition single_token (ch : rune) : option Token :=
  if ch =? rn "*" then Some MUL
  else if ch =? rn "/" then Some DIV
  else if ch =? rn "(" then Some LPAREN
  else if ch =? rn ")" then Some RPAREN
  else if ch =? rn "," then Some COMMA
  else if ch =? rn ";" then Some SEMICOLON
  else if ch =? rn ":" then Some COLON
  else None.

Definition scan_operator (ch0 : rune) (pos : Pos) : scanM Scanned :=
  if ch0 =? rn "=" then
    '(ch1, _) ← reader_read;
    if ch1 =? rn "~" then mret (EQREGEX, pos, EmptyString)
    else reader_unread;; mret (EQ, pos, EmptyString)
  else if ch0 =? rn "!" then
    '(ch1, _) ← reader_read;
    if ch1 =? rn "=" then mret (NEQ, pos, EmptyString)
    else if ch1 =? rn "~" then mret (NEQREGEX, pos, EmptyString)
    else reader_unread;; mret (ILLEGAL, pos, utf8 [ch0])
  else if ch0 =? rn ">" then
    '(ch1, _) ← reader_read;
    if ch1 =? rn "=" then mret (GTE, pos, EmptyString)
    else reader_unread;; mret (GT, pos, EmptyString)
  else if ch0 =? rn "<" then
    '(ch1, _) ← reader_read;
    if ch1 =? rn "=" then mret (LTE, pos, EmptyString)
    else if ch1 =? rn ">" then mret (NEQ, pos, EmptyString)
    else reader_unread;; mret (LT, pos, EmptyString)
  else
    match single_token ch0 with
    | Some tok => mret (tok, pos, EmptyString)
    | None => mret (ILLEGAL, pos, utf8 [ch0])
    end.

Definition Scan (fuel : nat) : scanM Scanned :=
  '(ch0, pos) ← reader_read;
  if isWhitespace ch0 then scanWhitespace fuel
  else if isLetter ch0 || (ch0 =? rn "_") then reader_unread;; scanIdent fuel
  else if isDigit ch0 then scanNumber fuel
  else if ch0 =? eof then mret (EOF, pos, EmptyString)
  else if ch0 =? rn dquote then reader_unread;; scanIdent fuel
  else if ch0 =? rn squote then scanString fuel
  else if ch0 =? dot then
    '(ch1, _) ← reader_read;
    reader_unread;;
    if isDigit ch1 then scanNumber fuel else mret (DOT, pos, EmptyString)
  else if (ch0 =? rn "+") || (ch0 =? rn "-") then scanNumber fuel
  else scan_operator ch0 pos.

(** ** Regular expressions *)

Fixpoint ScanDelimited_loop (fuel : nat) (end_ : rune) (escapes : list (rune * rune)) (escapesPassThru : bool)
    (buf : list rune) : scanM (list rune * option ScanError) :=
  match fuel with
  | O => out_of_fuel
  | S fuel =>
      '(ch0, _) ← reader_read;
      if ch0 =? end_ then mret (buf, None)
      else if ch0 =? eof then mret (buf, Some errOther)
      else if ch0 =? rn newline then mret ([], Some errOther)
      else if ch0 =? rn backslash then
        '(ch1, _) ← reader_read;
        if ch1 =? eof then mret ([], Some errOther)
        else match list_find (λ e, e.1 = ch1) escapes with
             | Some (_, (_, c)) => ScanDelimited_loop fuel end_ escapes escapesPassThru (buf ++ [c])
             | None =>
                 if escapesPassThru then
                   reader_unread;; ScanDelimited_loop fuel end_ escapes escapesPassThru (buf ++ [ch0])
                 else mret ([ch0; ch1], Some errBadEscape)
             end
      else ScanDelimited_loop fuel end_ escapes escapesPassThru (buf ++ [ch0])
  end.
Definition ScanDelimited (fuel : nat) (start end_ : rune) (escapes : list (rune * rune)) (escapesPassThru : bool)
    : scanM (list rune * option ScanError) :=
  '(ch, _) ← reader_read;
  if (ch =? eof) || negb (ch =? start) then mret ([], Some errOther)
  else ScanDelimited_loop fuel end_ escapes escapesPassThru [].

Definition ScanRegex (fuel : nat) : scanM Scanned :=
  '(_, pos) ← reader_curr;
  '(b, err) ← ScanDelimited fuel (rn "/") (rn "/") [(rn "/", rn "/")] true;
  match err with
  | Some errBadEscape => '(_, pos) ← reader_curr; mret (BADESCAPE, pos, EmptyString)
  | Some _ => mret (BADREGEX, pos, EmptyString)
  | None => mret (REGEX, pos, utf8 b)
  end.

(** ** The buffer of tokens *)

Record bufScanner := mkBufScanner { bs_s : reader; bs_ring : ring Scanned }.
Definition newBufScanner (runes : list rune) : bufScanner :=
  mkBufScanner (newReader runes) (ring_new (ILLEGAL, mkPos 0 0, EmptyString)).

Definition bufScanner_curr : ST bufScanner unit Scanned := λ s,
  match ring_curr (bs_ring s) with Some t => (s, Ok t) | None => (s, Panic) end.
Definition bufScanner_scanFunc (scan : scanM Scanned) : ST bufScanner unit Scanned := λ s,
  if 0 <? ring_n (bs_ring s) then bufScanner_curr (mkBufScanner (bs_s s) (ring_pop (bs_ring s)))
  else
    match scan (bs_s s) with
    | (r, Ok t) => bufScanner_curr (mkBufScanner r (ring_push t (bs_ring s)))
    | (r, Err e) => (mkBufScanner r (bs_ring s), Err e)
    | (r, Panic) => (mkBufScanner r (bs_ring s), Panic)
    end.
Definition bufScanner_Scan (fuel : nat) : ST bufScanner unit Scanned := bufScanner_scanFunc (Scan fuel).
Definition bufScanner_ScanRegex (fuel : nat) : ST bufScanner unit Scanned := bufScanner_scanFunc (ScanRegex fuel).
Definition bufScanner_Unscan : ST bufScanner unit unit := λ s,
  (mkBufScanner (bs_s s) (ring_unread (bs_ring s)), Ok ()).
