(* ===== verification/QlScanSpec.v ===== *)
(** * What the scanner computes

    A lexer on lists of characters, without a reader, and the proof that [Scan]
    computes it: no text makes the scanner panic, run out of fuel or lose a
    character from its circular buffer.  The character NUL, which the reader
    takes for the end of the text, is excluded. *)

From stdpp Require Import base list strings sets.
From Stdlib Require Import ZArith Ascii Lia.
From S2P Require Import Prelude QlToken Escape QlExpr QlSelect QlPrint QlReader QlScan.

Local Open Scope Z_scope.

(** ** The lexer *)

Fixpoint span (p : rune → bool) (l : list rune) : list rune * list rune :=
  match l with
  | [] => ([], [])
  | ch :: l' => if p ch then let '(a, b) := span p l' in (ch :: a, b) else ([], l)
  end.

(** The text after the opening quote [q]. *)
Fixpoint lex_string (q : rune) (acc l : list rune) : Token * list rune * list rune :=
  match l with
  | [] => (BADSTRING, acc, [])
  | c :: l =>
      if c =? q then (STRING, acc, l)
      else if c =? rn newline then (BADSTRING, acc, l)
      else if c =? rn backslash then
        match l with
        | [] => (BADESCAPE, [c; eof], [])
        | c1 :: l' =>
            match unescaped c1 with
            | Some c2 => lex_string q (acc ++ [c2]) l'
            | None => (BADESCAPE, [c; c1], l')
            end
        end
      else lex_string q (acc ++ [c]) l
  end.

Definition lex_ident (l : list rune) : Token * list rune * list rune :=
  match span isIdentChar l with
  | (ident, c :: rest) =>
      if c =? rn dquote then
        match lex_string (rn dquote) [] rest with
        | (STRING, lit, rest) => (IDENT, lit, rest)
        | bad => bad
        end
      else if bool_decide (Lookup (utf8 ident) = IDENT) then (IDENT, ident, c :: rest)
      else (Lookup (utf8 ident), [], c :: rest)
  | (ident, []) =>
      if bool_decide (Lookup (utf8 ident) = IDENT) then (IDENT, ident, []) else (Lookup (utf8 ident), [], [])
  end.

Definition lex_fraction (l : list rune) : list rune * list rune :=
  match l with
  | c :: c1 :: l' =>
      if (c =? dot) && isDigit c1 then let '(ds, rest) := span isDigit l' in (c :: c1 :: ds, rest) else ([], l)
  | _ => ([], l)
  end.
Definition lex_unit (l : list rune) : list rune * list rune :=
  match l with
  | [] => ([], [])
  | c :: l' =>
      if is_unit c then ([c], l')
      else if c =? rn "m" then
        match l' with
        | c1 :: l'' => if c1 =? rn "s" then ([c; c1], l'') else ([c], l')
        | [] => ([c], [])
        end
      else ([], l)
  end.
(** A number after its sign. *)
Definition lex_number (sign l : list rune) : Token * list rune * list rune :=
  let '(digits, l) := span isDigit l in
  let '(fraction, l) := lex_fraction l in
  if negb (bool_decide (fraction = [])) then (NUMBER, sign ++ digits ++ fraction, l)
  else
    let '(unit_, l) := lex_unit l in
    (if bool_decide (unit_ = []) then NUMBER else DURATION_VAL, sign ++ digits ++ unit_, l).

Definition starts_number (l : list rune) : bool :=
  isDigit (peek l) || ((peek l =? dot) && isDigit (peek (tail l))).

Definition lex_operator (c : rune) (l : list rune) : Token * list rune * list rune :=
  let c1 := peek l in
  if c =? rn "=" then if c1 =? rn "~" then (EQREGEX, [], tail l) else (EQ, [], l)
  else if c =? rn "!" then
    if c1 =? rn "=" then (NEQ, [], tail l) else if c1 =? rn "~" then (NEQREGEX, [], tail l) else (ILLEGAL, [c], l)
  else if c =? rn ">" then if c1 =? rn "=" then (GTE, [], tail l) else (GT, [], l)
  else if c =? rn "<" then
    if c1 =? rn "=" then (LTE, [], tail l) else if c1 =? rn ">" then (NEQ, [], tail l) else (LT, [], l)
  else match single_token c with Some tok => (tok, [], l) | None => (ILLEGAL, [c], l) end.

(** The next token of a text, its literal and what is left. *)
Definition lex (l : list rune) : Token * list rune * list rune :=
  match l with
  | [] => (EOF, [], [])
  | c :: l' =>
      if isWhitespace c then let '(ws, rest) := span isWhitespace l' in (WS, c :: ws, rest)
      else if isLetter c || (c =? rn "_") || (c =? rn dquote) then lex_ident l
      else if isDigit c then lex_number [] l
      else if c =? rn squote then lex_string c [] l'
      else if c =? dot then if isDigit (peek l') then lex_number [] l else (DOT, [], l')
      else if (c =? rn "+") || (c =? rn "-") then
        if starts_number l' then lex_number [c] l' else (if c =? rn "+" then ADD else SUB, [], l')
      else lex_operator c l'
  end.

(** ** Running the reader *)

Definition no_nul (l : list rune) : Prop := eof ∉ l.

Lemma no_nul_tail l : no_nul l → no_nul (tail l).
Proof. unfold no_nul. destruct l; set_solver. Qed.
Lemma no_nul_cons c l : no_nul (c :: l) → c ≠ eof ∧ no_nul l.
Proof. unfold no_nul. set_solver. Qed.
Lemma peek_nul l : no_nul l → peek l ≠ eof ∨ tail l = [].
Proof. destruct l as [|c l]; [by right|]. intros [? _]%no_nul_cons. by left. Qed.
Lemma peek_eof l : no_nul l → peek l = eof → l = [].
Proof. destruct l as [|c l]; [done|]. by intros [? _]%no_nul_cons. Qed.
Lemma push_back_peek l : no_nul l → push_back (peek l) (tail l) = l.
Proof.
  destruct l as [|c l]; [done|]. intros [H _]%no_nul_cons. unfold push_back. simpl.
  by destruct (Z.eqb_spec c eof).
Qed.

(** A run that ends with [a] and leaves [l] to read. *)
Definition runs {A} (m : scanM A) (r : reader) (a : A) (l : list rune) : Prop :=
  ∃ r' n b, m r = (r', Ok a) ∧ rep r' n b l ∧ (n ≤ 2)%nat.
(** The same for tokens, with any position. *)
Definition scans (m : scanM Scanned) (r : reader) (t : Token * list rune * list rune) : Prop :=
  ∃ pos, runs m r (t.1.1, pos, utf8 t.1.2) t.2.

Lemma runs_ret {A} (a : A) r n b l : rep r n b l → (n ≤ 2)%nat → runs (mret a) r a l.
Proof. intros H Hn. by exists r, n, b. Qed.

Lemma runs_step {A B} (m : scanM A) (k : A → scanM B) r r' a b l :
  m r = (r', Ok a) → runs (k a) r' b l → runs (m ≫= k) r b l.
Proof. intros H (r2 & n & b2 & Hk & ?). exists r2, n, b2. by rewrite (st_bind_ok _ _ _ _ _ H). Qed.

Lemma runs_bind {A B} (m : scanM A) (k : A → scanM B) r a l b l' :
  runs m r a l → (∀ r' n b0, rep r' n b0 l → (n ≤ 2)%nat → runs (k a) r' b l') → runs (m ≫= k) r b l'.
Proof. intros (r2 & n & b2 & H & Hr & Hn) Hk. eapply runs_step; eauto. Qed.

(** Reading, and unreading what was read. *)
Lemma read_unread r n b l :
  rep r n b l → (n ≤ 2)%nat → no_nul l →
  ∃ pos r1 r2 b1, reader_read r = (r1, Ok (peek l, pos)) ∧ rep r1 (pred n) (peek l :: b1) (tail l) ∧
    reader_unread r1 = (r2, Ok ()) ∧ rep r2 (S (pred n)) b1 l.
Proof.
  intros Hr Hn Hl. destruct (rep_read _ _ _ _ Hr) as (pos & r1 & E1 & H1).
  destruct (rep_unread _ _ _ _ _ H1 (peek_nul l Hl)) as (r2 & E2 & H2). rewrite push_back_peek in H2 by done.
  eauto 10.
Qed.

(** One read: the facts about it, and the goal after it. *)
Local Ltac look H Hl :=
  let pos := fresh "pos" in let r1 := fresh "r" in let r2 := fresh "r" in let b1 := fresh "b" in
  let E1 := fresh "E" in let H1 := fresh "H" in let E2 := fresh "U" in let H2 := fresh "H" in
  destruct (read_unread _ _ _ _ H ltac:(lia) Hl) as (pos & r1 & r2 & b1 & E1 & H1 & E2 & H2).
Local Ltac rd H Hl :=
  look H Hl; eapply runs_step; [match goal with E : reader_read ?r = _ |- reader_read ?r = _ => exact E end|]; cbv beta iota.
Local Ltac un E := eapply runs_step; [exact E|]; cbv beta iota.

(** ** Loops over a class of characters *)

Lemma read_while_runs p unread_eof l r n b fuel :
  p eof = false → rep r n b l → (n ≤ 2)%nat → no_nul l → (length l < fuel)%nat →
  runs (read_while p unread_eof fuel) r (span p l).1 (span p l).2.
Proof.
  intros Hp. revert r n b fuel. induction l as [|c l IH]; intros r n b fuel Hr Hn Hl Hf;
    (destruct fuel as [|fuel]; [simpl in Hf; lia|]); cbn [read_while]; rd Hr Hl; simpl.
  - rewrite Hp. destruct unread_eof; simpl; [un U|]; (eapply runs_ret; [eassumption|lia]).
  - pose proof (no_nul_cons _ _ Hl) as [Hc%Z.eqb_neq Hl']. rewrite Hc, andb_false_r. destruct (p c); simpl.
    + simpl in H. specialize (IH r0 (pred n) (c :: b0) fuel H ltac:(lia) Hl' ltac:(simpl in Hf; lia)).
      destruct (span p l) as [a rest]. eapply runs_bind; [exact IH|]. intros. eapply runs_ret; eauto.
    + un U. eapply runs_ret; [eassumption|lia].
Qed.

Lemma span_app p l : (span p l).1 ++ (span p l).2 = l.
Proof. induction l as [|c l IH]; [done|]. simpl. destruct (p c); [|done]. destruct (span p l). simpl in *. by f_equal. Qed.
Lemma span_rest p l : no_nul l → no_nul (span p l).2.
Proof. unfold no_nul. intros H Hin. apply H. rewrite <- (span_app p l). set_solver. Qed.
Lemma span_rest_length p l : (length (span p l).2 ≤ length l)%nat.
Proof. rewrite <- (span_app p l) at 2. rewrite length_app. lia. Qed.
Lemma span_rest_peek p l : p eof = false → p (peek (span p l).2) = false.
Proof. intros H. induction l as [|c l IH]; [done|]. simpl. destruct (p c) eqn:E; [by destruct (span p l)|done]. Qed.

(** ** Strings *)

Lemma ScanString_loop_runs q acc l r n b fuel :
  q ≠ eof → rep r n b l → (n ≤ 2)%nat → no_nul l → (length l < fuel)%nat →
  ∃ err, runs (ScanString_loop fuel q acc) r ((lex_string q acc l).1.2, err) (lex_string q acc l).2 ∧
    (lex_string q acc l).1.1 =
      match err with None => STRING | Some errBadEscape => BADESCAPE | _ => BADSTRING end ∧
    err ≠ Some errOther.
Proof.
  intros Hq. revert acc l r n b. induction fuel as [|fuel IH]; intros acc l r n b Hr Hn Hl Hf; [lia|].
  cbn [ScanString_loop]. destruct l as [|c l].
  - exists (Some errBadString). split; [|done]. rd Hr Hl. cbn [peek].
    destruct (Z.eqb_spec eof q); [congruence|]. simpl. eapply runs_ret; [eassumption|lia].
  - pose proof (no_nul_cons _ _ Hl) as [Hc%Z.eqb_neq Hl']. cbn [lex_string].
    destruct (read_unread _ _ _ _ Hr Hn Hl) as (pos & r1 & r2 & b1 & E1 & H1 & _ & _). simpl in H1.
    assert (Hstep : ∀ A (k : rune * Pos → scanM A) a rest, runs (k (c, pos)) r1 a rest → runs (reader_read ≫= k) r a rest)
      by (intros; eapply runs_step; [exact E1|done]).
    destruct (c =? q) eqn:Eq.
    { exists None. split; [|done]. apply Hstep. cbv beta iota. rewrite Eq. eapply runs_ret; [eassumption|lia]. }
    destruct (c =? rn newline) eqn:En.
    { exists (Some errBadString). split; [|done]. apply Hstep. cbv beta iota. rewrite Eq, En, orb_true_r.
      eapply runs_ret; [eassumption|lia]. }
    destruct (c =? rn backslash) eqn:Eb.
    + look H1 Hl'. destruct l as [|c1 l]; simpl in *.
      { exists (Some errBadEscape). split; [|done]. apply Hstep. cbv beta iota. rewrite Eq, Hc, En, Eb. simpl.
        un E. simpl. eapply runs_ret; [eassumption|lia]. }
      pose proof (no_nul_cons _ _ Hl') as [_ Hl2]. destruct (unescaped c1) as [c2|] eqn:Eu.
      * destruct (IH (acc ++ [c2]) l r0 (pred (pred n)) _ H ltac:(lia) Hl2 ltac:(lia)) as (err & Hrun & ?).
        exists err. split; [|done]. apply Hstep. cbv beta iota. rewrite Eq, Hc, En, Eb. simpl. un E. by rewrite Eu.
      * exists (Some errBadEscape). split; [|done]. apply Hstep. cbv beta iota. rewrite Eq, Hc, En, Eb. simpl.
        un E. rewrite Eu. eapply runs_ret; [eassumption|lia].
    + destruct (IH (acc ++ [c]) l r1 (pred n) (c :: b1) H1 ltac:(lia) Hl' ltac:(simpl in Hf; lia)) as (err & Hrun & ?).
      exists err. split; [|done]. apply Hstep. cbv beta iota. by rewrite Eq, Hc, En, Eb.
Qed.

Lemma rep_curr_any r n b l : rep r n b l → (n ≤ 2)%nat → ∃ c pos, reader_curr r = (r, Ok (c, pos)).
Proof.
  intros H Hn. pose proof (rep_length _ _ _ _ H) as Hl. destruct b as [|c b]; [simpl in Hl; lia|].
  destruct (rep_curr _ _ _ _ _ H) as [pos ?]. eauto.
Qed.

(** After the opening quote was read. *)
Lemma scanString_scans r n q b l fuel :
  rep r n (q :: b) l → (n ≤ 1)%nat → q ≠ eof → no_nul l → (length l < fuel)%nat →
  scans (scanString fuel) r (lex_string q [] l).
Proof.
  intros Hr Hn Hq Hl Hf. destruct (rep_unread _ _ _ _ _ Hr (or_introl Hq)) as (r1 & E1 & H1).
  assert (push_back q l = q :: l) as Hpb by (unfold push_back; by destruct (Z.eqb_spec q eof)).
  rewrite Hpb in H1. assert (Hql : no_nul (q :: l)) by (unfold no_nul in *; set_solver).
  destruct (rep_curr_any _ _ _ _ H1 ltac:(lia)) as (c & pos & Ec). look H1 Hql. simpl in H.
  destruct (ScanString_loop_runs q [] l r0 _ _ fuel Hq H ltac:(lia) Hl Hf) as (err & Hrun & Htok & Herr).
  destruct (lex_string q [] l) as [[tok lit] rest]. simpl in *. unfold scans. simpl.
  destruct Hrun as (r9 & n9 & b9 & Hrun & H9 & Hn9). destruct (rep_curr_any _ _ _ _ H9 Hn9) as (c9 & pos9 & Ec9).
  assert (Hs : ScanString fuel r1 = (r9, Ok (lit, err))).
  { unfold ScanString. rewrite (st_bind_ok _ _ _ _ _ E). cbv beta iota. by destruct (Z.eqb_spec q eof). }
  exists (match err with Some errBadEscape => pos9 | _ => pos end). unfold scanString.
  un E1. un Ec. un Hs. destruct err as [[]|]; subst tok; try done; [| |]; [|un Ec9|]; eapply runs_ret; eauto.
Qed.

(** ** Identifiers *)

Definition ident_end (pos : Pos) (buf l : list rune) (res : Scanned + list rune) (rest : list rune) : Prop :=
  match l with
  | c :: l' =>
      if c =? rn dquote then
        ∃ pos', res = inl (match lex_string c [] l' with
                           | (STRING, lit, _) => (IDENT, pos, utf8 lit)
                           | (tok, lit, _) => (tok, pos', utf8 lit)
                           end) ∧ rest = (lex_string c [] l').2
      else res = inr buf ∧ rest = l
  | [] => res = inr buf ∧ rest = []
  end.

Lemma lex_string_tok q acc l : (lex_string q acc l).1.1 = STRING ∨ (lex_string q acc l).1.1 = BADSTRING ∨
  (lex_string q acc l).1.1 = BADESCAPE.
Proof.
  remember (length l) as k eqn:Hk. revert acc l Hk. induction (lt_wf k) as [k _ IH]. intros acc l ->.
  destruct l as [|c l]; simpl; [auto|]. destruct (c =? q); [auto|]. destruct (c =? rn newline); [auto|].
  destruct (c =? rn backslash); [|eapply IH; [|reflexivity]; simpl; lia].
  destruct l as [|c1 l]; [auto|]. destruct (unescaped c1); [|auto]. eapply IH; [|reflexivity]. simpl. lia.
Qed.

(** The loop at a character that is not part of an identifier. *)
Lemma scanIdent_loop_end l r n b fuel0 fuel pos buf :
  rep r n b l → (n ≤ 2)%nat → no_nul l → (length l < fuel0)%nat → isIdentChar (peek l) = false →
  ∃ res rest, runs (scanIdent_loop fuel0 (S fuel) pos buf) r res rest ∧ ident_end pos buf l res rest.
Proof.
  intros Hr Hn Hl Hf Hi. cbn [scanIdent_loop]. look Hr Hl. destruct l as [|c l]; simpl in *.
  { eexists _, []. split; [un E; simpl; eapply runs_ret; [eassumption|lia]|done]. }
  pose proof (no_nul_cons _ _ Hl) as [Hc Hl']. destruct (Z.eqb_spec c (rn dquote)) as [->|Hq].
  - destruct (scanString_scans r0 (pred n) (rn dquote) b0 l fuel0 H ltac:(lia) Hc Hl' ltac:(lia)) as [pos' Hs].
    pose proof (lex_string_tok (rn dquote) [] l) as Ht. destruct (lex_string (rn dquote) [] l) as [[tok lit] rest]. simpl in *.
    eexists _, rest. split; [|exists pos'; split; [reflexivity|done]]. un E. simpl.
    eapply runs_bind; [exact Hs|]. intros. cbv beta iota.
    destruct Ht as [->|[->| ->]]; eapply runs_ret; eauto.
  - eexists _, _. split; [|split; reflexivity]. un E.
    destruct (Z.eqb_spec c eof); [done|]. destruct (Z.eqb_spec c (rn dquote)); [done|]. rewrite Hi. un U.
    eapply runs_ret; [eassumption|lia].
Qed.

Lemma scanIdent_loop_runs l r n b fuel0 fuel pos :
  rep r n b l → (n ≤ 2)%nat → no_nul l → (length l < fuel0)%nat →
  ∃ res rest, runs (scanIdent_loop fuel0 (S (S fuel)) pos []) r res rest ∧
    ident_end pos (span isIdentChar l).1 (span isIdentChar l).2 res rest.
Proof.
  intros Hr Hn Hl Hf. destruct (isIdentChar (peek l)) eqn:Hi.
  - destruct l as [|c l]; [done|]. pose proof (no_nul_cons _ _ Hl) as [Hc _]. simpl in Hi.
    pose proof (span_rest isIdentChar _ Hl) as Hl2. pose proof (span_rest_length isIdentChar (c :: l)) as Hlen.
    pose proof (span_rest_peek isIdentChar (c :: l) eq_refl) as Hp. look Hr Hl.
    destruct (read_while_runs isIdentChar false (c :: l) r1 _ _ fuel0 eq_refl H0 ltac:(lia) Hl Hf) as (r9 & n9 & b9 & E9 & H9 & Hn9).
    destruct (scanIdent_loop_end _ r9 n9 b9 fuel0 fuel pos ([] ++ (span isIdentChar (c :: l)).1) H9 Hn9 Hl2 ltac:(lia) Hp)
      as (res & rest & Hrun & Hend).
    exists res, rest. split; [|done]. cbn [scanIdent_loop]. un E. simpl peek.
    destruct (Z.eqb_spec c eof); [done|].
    destruct (Z.eqb_spec c (rn dquote)) as [->|]; [done|]. rewrite Hi. un U. un E9. exact Hrun.
  - destruct (scanIdent_loop_end l r n b fuel0 (S fuel) pos [] Hr Hn Hl Hf Hi) as (res & rest & Hrun & Hend).
    exists res, rest. split; [done|]. destruct l as [|c l]; [done|]. simpl in *. by rewrite Hi.
Qed.

Lemma scanIdent_scans l r n b fuel :
  rep r n b l → (n ≤ 2)%nat → no_nul l → (length l + 1 < fuel)%nat → scans (scanIdent fuel) r (lex_ident l).
Proof.
  intros Hr Hn Hl Hf. unfold scans, scanIdent. look Hr Hl. destruct fuel as [|[|fuel]]; [lia..|].
  destruct (scanIdent_loop_runs l r1 _ _ (S (S fuel)) fuel pos H0 ltac:(lia) Hl ltac:(lia)) as (res & rest & Hrun & Hend).
  unfold lex_ident. destruct (span isIdentChar l) as [ident l2]. simpl in Hend.
  assert (Hstep : ∀ t rest', (∀ r' n' b', rep r' n' b' rest → (n' ≤ 2)%nat → runs (match res with
    | inl t => mret t
    | inr buf => let lit := utf8 buf in
        if negb (bool_decide (Lookup lit = IDENT)) then mret (Lookup lit, pos, EmptyString) else mret (IDENT, pos, lit)
    end) r' t rest') → runs (scanIdent (S (S fuel))) r t rest').
  { intros t rest' Hk. unfold scanIdent. un E. un U. eapply runs_bind; [exact Hrun|exact Hk]. }
  assert (Hplain : res = inr ident → rest = l2 → ∃ pos', runs (scanIdent (S (S fuel))) r
    ((if bool_decide (Lookup (utf8 ident) = IDENT) then IDENT else Lookup (utf8 ident)), pos',
     utf8 (if bool_decide (Lookup (utf8 ident) = IDENT) then ident else [])) l2).
  { intros -> ->. exists pos. apply Hstep. intros r' n' b' H' Hn'. cbv zeta.
    case_bool_decide; simpl; eapply runs_ret; eauto. }
  destruct l2 as [|c l2]; [|simpl in Hend; destruct (Z.eqb_spec c (rn dquote)) as [->|]].
  - destruct Hend as [Hres Hrest]. specialize (Hplain Hres Hrest). by case_bool_decide.
  - destruct Hend as (pos' & -> & ->). pose proof (lex_string_tok (rn dquote) [] l2) as Ht.
    destruct (lex_string (rn dquote) [] l2) as [[tok lit] rest']. simpl in Ht, Hstep.
    destruct Ht as [->|[->| ->]]; simpl; eexists; apply Hstep; intros; eapply runs_ret; eauto.
  - destruct Hend as [Hres Hrest]. specialize (Hplain Hres Hrest). by case_bool_decide.
Qed.

(** ** Numbers *)

(** Reading a character and unreading it, the one before it kept. *)
Lemma read_one r n c b l :
  rep r n (c :: b) l → (n ≤ 1)%nat → no_nul l →
  ∃ pos r1 r2 b', reader_read r = (r1, Ok (peek l, pos)) ∧ reader_unread r1 = (r2, Ok ()) ∧ rep r2 (S (pred n)) (c :: b') l.
Proof.
  intros Hr Hn Hl. destruct (rep_read _ _ _ _ Hr) as (pos & r1 & E1 & H1).
  assert (∃ b', rep r1 (pred n) (peek l :: c :: b') (tail l)) as [b' H1'] by (destruct n as [|[|]]; [eauto..|lia]).
  destruct (rep_unread _ _ _ _ _ H1' (peek_nul l Hl)) as (r2 & E2 & H2). rewrite push_back_peek in H2 by done.
  eauto 10.
Qed.

(** Reading two characters and unreading both. *)
Lemma read_two r n b l :
  rep r n b l → (n ≤ 2)%nat → no_nul l →
  ∃ p1 p2 r1 r2 r3 r4 b', reader_read r = (r1, Ok (peek l, p1)) ∧ reader_read r1 = (r2, Ok (peek (tail l), p2)) ∧
    reader_unread r2 = (r3, Ok ()) ∧ reader_unread r3 = (r4, Ok ()) ∧
    rep r2 0 (peek (tail l) :: peek l :: b') (tail (tail l)) ∧ rep r4 2 b' l.
Proof.
  intros Hr Hn Hl. destruct (rep_read _ _ _ _ Hr) as (p1 & r1 & E1 & H1).
  destruct (rep_read _ _ _ _ H1) as (p2 & r2 & E2 & H2). pose proof (no_nul_tail _ Hl) as Hl2.
  assert (∃ b', rep r2 0 (peek (tail l) :: peek l :: b') (tail (tail l))) as [b' H2'].
  { destruct n as [|[|[|n]]]; simpl in *; try lia; [destruct b as [|x b]| |]; eauto. }
  clear H2. destruct (rep_unread _ _ _ _ _ H2' (peek_nul _ Hl2)) as (r3 & E3 & H3). rewrite push_back_peek in H3 by done.
  destruct (rep_unread _ _ _ _ _ H3 (peek_nul _ Hl)) as (r4 & E4 & H4). rewrite push_back_peek in H4 by done.
  exists p1, p2, r1, r2, r3, r4, b'. by split_and!.
Qed.

Lemma scanFraction_runs l r n b fuel :
  rep r n b l → (n ≤ 2)%nat → no_nul l → (length l < fuel)%nat →
  runs (scanFraction fuel) r (lex_fraction l).1 (lex_fraction l).2.
Proof.
  intros Hr Hn Hl Hf. unfold scanFraction. destruct l as [|c l].
  - rd Hr Hl. simpl. un U. eapply runs_ret; [eassumption|lia].
  - destruct (c =? dot) eqn:Ed.
    + destruct (read_two _ _ _ _ Hr Hn Hl) as (p1 & p2 & r1 & r2 & r3 & r4 & b' & E1 & E2 & E3 & E4 & H2 & H4).
      un E1. simpl peek. rewrite Ed. un E2. simpl tail. destruct l as [|c1 l]; simpl.
      * un E3. un E4. eapply runs_ret; eauto.
      * rewrite Ed. destruct (isDigit c1); simpl.
        -- pose proof (read_while_runs isDigit true l r2 0 _ fuel eq_refl H2) as Hw. simpl in Hf.
           destruct (span isDigit l) as [ds rest]. simpl in Hw.
           pose proof (no_nul_cons _ _ Hl) as [_ [_ Hl']%no_nul_cons].
           eapply runs_bind; [apply Hw; [lia|done|lia]|]. intros. eapply runs_ret; eauto.
        -- un E3. un E4. eapply runs_ret; eauto.
    + rd Hr Hl. simpl peek. rewrite Ed. un U.
      assert (lex_fraction (c :: l) = ([], c :: l)) as ->.
      { simpl. rewrite Ed. by destruct l. }
      eapply runs_ret; [eassumption|lia].
Qed.

Lemma scanUnit_runs l r n b :
  rep r n b l → (n ≤ 2)%nat → no_nul l → runs scanUnit r (lex_unit l).1 (lex_unit l).2.
Proof.
  intros Hr Hn Hl. unfold scanUnit. rd Hr Hl. destruct l as [|c l]; simpl peek.
  - simpl. un U. eapply runs_ret; [eassumption|lia].
  - cbn [lex_unit]. destruct (is_unit c); [eapply runs_ret; [eassumption|lia]|].
    destruct (c =? rn "m"); [|un U; eapply runs_ret; [eassumption|lia]].
    pose proof (no_nul_cons _ _ Hl) as [_ Hl']. simpl in H. rd H Hl'. destruct l as [|c1 l]; simpl peek.
    + simpl. un U0. eapply runs_ret; [eassumption|lia].
    + destruct (c1 =? rn "s"); [eapply runs_ret; [eassumption|lia]|]. un U0. eapply runs_ret; [eassumption|lia].
Qed.

Lemma existsb_digits l : existsb (λ ch, ch =? dot) (span isDigit l).1 = false.
Proof.
  induction l as [|c l IH]; [done|]. simpl. destruct (isDigit c) eqn:E; [|done].
  destruct (span isDigit l). simpl in *. rewrite IH, orb_false_r. by destruct (Z.eqb_spec c dot) as [->|].
Qed.
Lemma existsb_fraction l : existsb (λ ch, ch =? dot) (lex_fraction l).1 = negb (bool_decide ((lex_fraction l).1 = [])).
Proof.
  destruct l as [|c [|c1 l]]; [done..|]. simpl. destruct (c =? dot) eqn:E; [|done]. destruct (isDigit c1); [|done].
  simpl. destruct (span isDigit l). simpl. by rewrite E.
Qed.
Lemma lex_fraction_app l : (lex_fraction l).1 ++ (lex_fraction l).2 = l.
Proof.
  destruct l as [|c [|c1 l]]; [done..|]. simpl. destruct (_ && _); [|done].
  pose proof (span_app isDigit l). destruct (span isDigit l). simpl in *. by subst.
Qed.

(** The part of [scanNumber] after the sign. *)
Lemma number_body_scans sign l r n b fuel pos :
  existsb (λ ch, ch =? dot) sign = false →
  rep r n b l → (n ≤ 2)%nat → no_nul l → (length l < fuel)%nat →
  runs (scanNumber_rest fuel sign pos) r
    ((lex_number sign l).1.1, pos, utf8 (lex_number sign l).1.2) (lex_number sign l).2.
Proof.
  intros Hs Hr Hn Hl Hf. pose proof (read_while_runs isDigit true l r n b fuel eq_refl Hr Hn Hl Hf) as Hd.
  pose proof (span_rest isDigit l Hl) as Hl1. pose proof (span_rest_length isDigit l) as Hlen.
  pose proof (existsb_digits l) as Hnd. unfold lex_number. destruct (span isDigit l) as [digits l1]. simpl in *.
  eapply runs_bind; [exact Hd|]. intros r1 n1 b1 H1 Hn1.
  pose proof (scanFraction_runs l1 r1 n1 b1 fuel H1 Hn1 Hl1 ltac:(lia)) as Hfr. pose proof (existsb_fraction l1) as Hfd.
  pose proof (lex_fraction_app l1) as Happ. destruct (lex_fraction l1) as [fraction l2]. simpl in *.
  eapply runs_bind; [exact Hfr|]. intros r2 n2 b2 H2 Hn2. cbv zeta.
  rewrite !existsb_app, Hs, Hnd, Hfd. simpl. case_bool_decide as Hf0; simpl; [|eapply runs_ret; eauto].
  assert (Hl2 : no_nul l2) by (unfold no_nul in *; subst l1; set_solver).
  pose proof (scanUnit_runs l2 r2 n2 b2 H2 Hn2 Hl2) as Hu. destruct (lex_unit l2) as [unit_ l3]. simpl in *.
  subst fraction. rewrite app_nil_r. eapply runs_bind; [exact Hu|]. intros. rewrite <- app_assoc.
  eapply runs_ret; eauto.
Qed.

Definition lex_number_at (c : rune) (l : list rune) : Token * list rune * list rune :=
  if (c =? rn "+") || (c =? rn "-") then
    if starts_number l then lex_number [c] l else (if c =? rn "+" then ADD else SUB, [], l)
  else if c =? dot then if isDigit (peek l) then lex_number [] (c :: l) else (ILLEGAL, [dot], l)
  else lex_number [] (c :: l).

(** After the first character was read. *)
Lemma scanNumber_scans c l r n b fuel :
  rep r n (c :: b) l → (n ≤ 1)%nat → c ≠ eof → no_nul l → (length l + 1 < fuel)%nat →
  scans (scanNumber fuel) r (lex_number_at c l).
Proof.
  intros Hr Hn Hc Hl Hf. destruct (rep_curr _ _ _ _ _ Hr) as [pos Ec]. exists pos. unfold scanNumber, scanNumber_start, lex_number_at.
  assert (Hcl : no_nul (c :: l)) by (unfold no_nul in *; set_solver).
  assert (Hpb : push_back c l = c :: l) by (unfold push_back; by destruct (Z.eqb_spec c eof)).
  un Ec. eapply runs_bind with (a := if (c =? rn "+") || (c =? rn "-") then
      if starts_number l then inr [c] else inl (if c =? rn "+" then ADD else SUB, pos, EmptyString)
    else if c =? dot then if isDigit (peek l) then inr [] else inl (ILLEGAL, pos, ".") else inr [])
    (l := if (c =? rn "+") || (c =? rn "-") then l else if c =? dot then if isDigit (peek l) then c :: l else l else c :: l).
  - un Ec. destruct ((c =? rn "+") || (c =? rn "-")) eqn:Es; [|destruct (c =? dot) eqn:Ed].
    + destruct (read_two _ _ _ _ Hr ltac:(lia) Hl) as (p1 & p2 & r1 & r2 & r3 & r4 & b' & E1 & E2 & E3 & E4 & H2 & H4).
      un E1. un E2. un E3. un E4. fold (starts_number l).
      destruct (starts_number l); [|destruct (c =? rn "+")]; eapply runs_ret; eauto.
    + destruct (read_one _ _ _ _ _ Hr Hn Hl) as (p1 & r1 & r2 & b' & E1 & E2 & H2).
      un E1. un E2. destruct (isDigit (peek l)); simpl; [|eapply runs_ret; [eassumption|lia]].
      destruct (rep_unread _ _ _ _ _ H2 (or_introl Hc)) as (r3 & E3 & H3). rewrite Hpb in H3. un E3.
      eapply runs_ret; [eassumption|lia].
    + destruct (rep_unread _ _ _ _ _ Hr (or_introl Hc)) as (r1 & E1 & H1). rewrite Hpb in H1. un E1.
      eapply runs_ret; [eassumption|lia].
  - intros r' n' b' H' Hn'. destruct ((c =? rn "+") || (c =? rn "-")) eqn:Es; [|destruct (c =? dot) eqn:Ed].
    + destruct (starts_number l).
      * eapply number_body_scans; eauto; [|lia]. simpl. rewrite orb_false_r.
        apply orb_true_iff in Es as [->%Z.eqb_eq| ->%Z.eqb_eq]; reflexivity.
      * simpl. eapply runs_ret; eauto.
    + destruct (isDigit (peek l)); [eapply number_body_scans; eauto; simpl; lia|]. simpl. eapply runs_ret; eauto.
    + eapply number_body_scans; eauto. simpl. lia.
Qed.

(** ** The whole scanner *)

Lemma scan_operator_scans c l r n b pos :
  rep r n b l → (n ≤ 1)%nat → no_nul l → scans (scan_operator c pos) r (lex_operator c l).
Proof.
  intros Hr Hn Hl. exists pos. unfold scan_operator, lex_operator.
  destruct (c =? rn "=").
  { rd Hr Hl. destruct (peek l =? rn "~"); [|un U]; (eapply runs_ret; [eassumption|lia]). }
  destruct (c =? rn "!").
  { rd Hr Hl. destruct (peek l =? rn "="); [|destruct (peek l =? rn "~"); [|un U]]; (eapply runs_ret; [eassumption|lia]). }
  destruct (c =? rn ">").
  { rd Hr Hl. destruct (peek l =? rn "="); [|un U]; (eapply runs_ret; [eassumption|lia]). }
  destruct (c =? rn "<").
  { rd Hr Hl. destruct (peek l =? rn "="); [|destruct (peek l =? rn ">"); [|un U]]; (eapply runs_ret; [eassumption|lia]). }
  destruct (single_token c); (eapply runs_ret; [eassumption|lia]).
Qed.

Lemma Scan_scans l r n b fuel :
  rep r n b l → (n ≤ 2)%nat → no_nul l → (length l + 1 < fuel)%nat → scans (Scan fuel) r (lex l).
Proof.
  intros Hr Hn Hl Hf. look Hr Hl. destruct l as [|c l].
  { exists pos. unfold Scan. un E. simpl. eapply runs_ret; [eassumption|lia]. }
  pose proof (no_nul_cons _ _ Hl) as [Hc Hl']. simpl peek in *. simpl tail in *. simpl in Hf.
  assert (Hstep : ∀ t, scans (
    if isWhitespace c then scanWhitespace fuel
    else if isLetter c || (c =? rn "_") then reader_unread;; scanIdent fuel
    else if isDigit c then scanNumber fuel
    else if c =? eof then mret (EOF, pos, EmptyString)
    else if c =? rn dquote then reader_unread;; scanIdent fuel
    else if c =? rn squote then scanString fuel
    else if c =? dot then '(ch1, _) ← reader_read; reader_unread;; if isDigit ch1 then scanNumber fuel else mret (DOT, pos, EmptyString)
    else if (c =? rn "+") || (c =? rn "-") then scanNumber fuel
    else scan_operator c pos) r0 t → scans (Scan fuel) r t).
  { intros t [pos' Ht]. exists pos'. unfold Scan. un E. exact Ht. }
  apply Hstep. clear Hstep. unfold lex. pose proof (proj2 (Z.eqb_neq c eof) Hc) as Hce.
  destruct (isWhitespace c).
  { destruct (rep_curr _ _ _ _ _ H) as [pos' Ec]. exists pos'.
    pose proof (read_while_runs isWhitespace false l r0 _ _ fuel eq_refl H ltac:(lia) Hl' ltac:(lia)) as Hw.
    destruct (span isWhitespace l) as [ws rest]. unfold scanWhitespace. un Ec.
    eapply runs_bind; [exact Hw|]. intros. eapply runs_ret; eauto. }
  assert (Hident : scans (reader_unread;; scanIdent fuel) r0 (lex_ident (c :: l))).
  { destruct (scanIdent_scans (c :: l) r1 _ _ fuel H0 ltac:(lia) Hl ltac:(simpl; lia)) as [pos' Hs]. exists pos'. un U. exact Hs. }
  destruct (isLetter c || (c =? rn "_")); [exact Hident|]. simpl.
  pose proof (scanNumber_scans c l r0 _ _ fuel H ltac:(lia) Hc Hl' ltac:(lia)) as Hnum. unfold lex_number_at in Hnum.
  destruct (c =? rn dquote) eqn:Eq.
  { assert (isDigit c = false) as -> by by apply Z.eqb_eq in Eq as ->. rewrite Hce. exact Hident. }
  destruct (isDigit c) eqn:Ed.
  { destruct (Z.eqb_spec c (rn "+")) as [->|]; [done|]. destruct (Z.eqb_spec c (rn "-")) as [->|]; [done|].
    destruct (Z.eqb_spec c dot) as [->|]; [done|]. exact Hnum. }
  rewrite Hce. destruct (Z.eqb_spec c (rn squote)) as [->|Hs].
  { apply (scanString_scans r0 _ (rn squote) _ l fuel H); [lia|done|done|lia]. }
  destruct (Z.eqb_spec c dot) as [->|Hd].
  { destruct (read_one _ _ _ _ _ H ltac:(lia) Hl') as (p1 & r2 & r3 & b' & E1 & E2 & H2).
    pose proof (scanNumber_scans dot l r3 _ _ fuel H2 ltac:(lia) Hc Hl' ltac:(lia)) as Hnum2. unfold lex_number_at in Hnum2.
    simpl in Hnum2. destruct (isDigit (peek l)) eqn:Ep.
    - destruct Hnum2 as [pos' Hn2]. exists pos'. un E1. un E2. by rewrite Ep.
    - exists pos. un E1. un E2. rewrite Ep. eapply runs_ret; [eassumption|lia]. }
  destruct ((c =? rn "+") || (c =? rn "-")); [exact Hnum|].
  eapply scan_operator_scans; eauto. lia.
Qed.
