(* ===== verification/QlScanProps.v ===== *)
(** * Theorems about the scanner *)

From stdpp Require Import base list strings sets.
From Stdlib Require Import ZArith Ascii Lia.
From S2P Require Import Prelude QlToken Escape QlExpr QlSelect QlPrint QlReader QlScan QlScanSpec.

Local Open Scope Z_scope.

(** ** Sequences of tokens *)

(** [k] calls of [Scan]. *)
Fixpoint scan_tokens (fuel k : nat) : scanM (list Scanned) :=
  match k with
  | O => mret []
  | S k => t ← Scan fuel; ts ← scan_tokens fuel k; mret (t :: ts)
  end.
Fixpoint lex_tokens (k : nat) (l : list rune) : list (Token * list rune) :=
  match k with
  | O => []
  | S k => let '(tok, lit, rest) := lex l in (tok, lit) :: lex_tokens k rest
  end.

(** A token and its text, without the position. *)
Definition token_text (t : Scanned) : Token * string := (t.1.1, t.2).
Definition lexed_text (t : Token * list rune) : Token * string := (t.1, utf8 t.2).

(** *** Progress *)

(** [rest] is a proper end of [l]. *)
Definition shrinks (l rest : list rune) : Prop := ∃ a, l = a ++ rest ∧ a ≠ [].

Lemma shrinks_cons c l rest : (∃ a, l = a ++ rest) → shrinks (c :: l) rest.
Proof. intros [a ->]. by exists (c :: a). Qed.
Lemma span_suffix p l : ∃ a, l = a ++ (span p l).2.
Proof. exists (span p l).1. by rewrite span_app. Qed.
Lemma suffix_trans (l l1 l2 : list rune) : (∃ a, l = a ++ l1) → (∃ a, l1 = a ++ l2) → ∃ a, l = a ++ l2.
Proof. intros [a ->] [b ->]. exists (a ++ b). by rewrite app_assoc. Qed.

Lemma lex_string_suffix q acc l : ∃ a, l = a ++ (lex_string q acc l).2.
Proof.
  remember (length l) as k eqn:Hk. revert acc l Hk. induction (lt_wf k) as [k _ IH]. intros acc l ->.
  destruct l as [|c l]; cbn [lex_string]; [by exists []|].
  destruct (c =? q); [by exists [c]|]. destruct (c =? rn newline); [by exists [c]|].
  destruct (c =? rn backslash).
  - destruct l as [|c1 l]; [by exists [c]|]. destruct (unescaped c1); [|by exists [c; c1]].
    apply (suffix_trans _ l); [by exists [c; c1]|]. eapply IH; [|reflexivity]. simpl. lia.
  - apply (suffix_trans _ l); [by exists [c]|]. eapply IH; [|reflexivity]. simpl. lia.
Qed.

Lemma lex_number_suffix sign l : ∃ a, l = a ++ (lex_number sign l).2.
Proof.
  unfold lex_number. pose proof (span_suffix isDigit l) as H1. destruct (span isDigit l) as [ds l1]. simpl in H1.
  pose proof (lex_fraction_app l1) as H2. destruct (lex_fraction l1) as [fr l2]. simpl in H2.
  apply (suffix_trans _ l1); [done|]. apply (suffix_trans _ l2); [by exists fr|].
  case_bool_decide; simpl; [|by exists []]. unfold lex_unit. destruct l2 as [|c l2]; [by exists []|].
  destruct (is_unit c); [by exists [c]|]. destruct (c =? rn "m"); [|by exists []].
  destruct l2 as [|c1 l2]; [by exists [c]|]. destruct (c1 =? rn "s"); [by exists [c; c1]|by exists [c]].
Qed.

Lemma tail_suffix (l : list rune) : ∃ a, l = a ++ tail l.
Proof. destruct l as [|c l]; [by exists []|by exists [c]]. Qed.

Lemma lex_operator_suffix c l : ∃ a, l = a ++ (lex_operator c l).2.
Proof.
  unfold lex_operator. repeat case_match; simpl; try apply tail_suffix; by exists [].
Qed.

(** A number that starts with a digit takes it. *)
Lemma lex_number_shrinks c l : isDigit c = true ∨ (c = dot ∧ isDigit (peek l) = true) → shrinks (c :: l) (lex_number [] (c :: l)).2.
Proof.
  intros H. destruct (lex_number_suffix [] (c :: l)) as [a Ha]. exists a. split; [done|]. intros ->.
  apply (f_equal length) in Ha. revert Ha. unfold lex_number. simpl. destruct H as [H|[-> H]].
  - rewrite H. pose proof (span_suffix isDigit l) as [a1 H1]. destruct (span isDigit l) as [ds l1]. simpl in *.
    pose proof (lex_fraction_app l1) as H2. destruct (lex_fraction l1) as [fr l2]. simpl in *.
    assert (Hlen : (length l2 ≤ length l)%nat) by (subst l l1; rewrite !length_app; lia).
    case_bool_decide; simpl; [|lia].
    assert (length (lex_unit l2).2 ≤ length l2)%nat by
      (destruct l2 as [|x [|y l2]]; simpl; repeat (case_match; simpl); lia).
    destruct (lex_unit l2). simpl in *. lia.
  - assert (isDigit dot = false) as -> by done. destruct l as [|c1 l]; [done|]. simpl in H.
    change (lex_fraction (dot :: c1 :: l)) with
      (if (dot =? dot) && isDigit c1 then let '(ds, rest) := span isDigit l in (dot :: c1 :: ds, rest) else ([], dot :: c1 :: l)).
    rewrite H, Z.eqb_refl. simpl. pose proof (span_rest_length isDigit l). destruct (span isDigit l). simpl in *. lia.
Qed.

Lemma lex_ident_shrinks c l : isIdentChar c = true ∨ c = rn dquote → shrinks (c :: l) (lex_ident (c :: l)).2.
Proof.
  intros H. unfold lex_ident. destruct H as [H| ->].
  - cbn [span]. rewrite H. pose proof (span_suffix isIdentChar l) as Hs. destruct (span isIdentChar l) as [w rest].
    simpl in Hs. apply shrinks_cons. eapply suffix_trans; [exact Hs|].
    destruct rest as [|d rest]; [case_bool_decide; by exists []|]. destruct (d =? rn dquote).
    + pose proof (lex_string_suffix (rn dquote) [] rest) as Hq. destruct (lex_string (rn dquote) [] rest) as [[tok lit] r'].
      simpl in *. apply (suffix_trans _ rest); [by exists [d]|]. by destruct tok.
    + case_bool_decide; by exists [].
  - simpl. pose proof (lex_string_suffix (rn dquote) [] l) as Hq. apply shrinks_cons.
    destruct (lex_string (rn dquote) [] l) as [[tok lit] r']. simpl in *. by destruct tok.
Qed.

Lemma lex_shrinks c l : shrinks (c :: l) (lex (c :: l)).2.
Proof.
  unfold lex. destruct (isWhitespace c).
  { pose proof (span_suffix isWhitespace l). destruct (span isWhitespace l). by apply shrinks_cons. }
  destruct (isLetter c || (c =? rn "_") || (c =? rn dquote)) eqn:Ei.
  { apply lex_ident_shrinks. apply orb_true_iff in Ei as [Ei|Ei%Z.eqb_eq]; [left|by right].
    unfold isIdentChar. apply orb_true_iff in Ei as [->| ->]; [done|by rewrite orb_true_r]. }
  destruct (isDigit c) eqn:Ed; [apply lex_number_shrinks; by left|].
  destruct (c =? rn squote); [apply shrinks_cons, lex_string_suffix|].
  destruct (c =? dot) eqn:Edot.
  { apply Z.eqb_eq in Edot as ->. destruct (isDigit (peek l)) eqn:Ep; [apply lex_number_shrinks; by right|].
    apply shrinks_cons. by exists []. }
  apply shrinks_cons. destruct ((c =? rn "+") || (c =? rn "-")); [|apply lex_operator_suffix].
  destruct (starts_number l); [apply lex_number_suffix|by exists []].
Qed.

Lemma lex_rest l : ∃ a, l = a ++ (lex l).2.
Proof. destruct l as [|c l]; [by exists []|]. destruct (lex_shrinks c l) as (a & Ha & _). by exists a. Qed.

Lemma lex_tokens_mono k k' l x : (k ≤ k')%nat → x ∈ lex_tokens k l → x ∈ lex_tokens k' l.
Proof.
  revert k' l. induction k as [|k IH]; intros k' l Hk Hx; [inversion Hx|]. destruct k' as [|k']; [lia|].
  cbn [lex_tokens] in *. destruct (lex l) as [[tok lit] rest]. apply elem_of_cons in Hx as [->|Hx]; [by left|].
  right. apply IH; [lia|done].
Qed.

(** Every token takes a character, so the end is reached. *)
Lemma lex_tokens_EOF l : (EOF, []) ∈ lex_tokens (S (length l)) l.
Proof.
  remember (length l) as k eqn:Hk. revert l Hk. induction (lt_wf k) as [k _ IH]. intros l ->.
  destruct l as [|c l]; [left|]. destruct (lex_shrinks c l) as (a & Ha & Hne). cbn [lex_tokens].
  assert (Hlen : (length (lex (c :: l)).2 ≤ length l)%nat).
  { apply (f_equal length) in Ha. rewrite length_app in Ha. destruct a; [done|]. cbn [length] in Ha. lia. }
  destruct (lex (c :: l)) as [[tok lit] rest]. simpl in Hlen. right.
  eapply lex_tokens_mono; [|eapply IH; [|reflexivity]]; simpl; lia.
Qed.

Lemma no_nul_suffix (l rest : list rune) : (∃ a, l = a ++ rest) → no_nul l → no_nul rest.
Proof. intros [a ->]. unfold no_nul. set_solver. Qed.

Lemma scan_tokens_runs fuel k r n b l :
  rep r n b l → (n ≤ 2)%nat → no_nul l → (length l + 1 < fuel)%nat →
  ∃ r' ts, scan_tokens fuel k r = (r', Ok ts) ∧ token_text <$> ts = lexed_text <$> lex_tokens k l.
Proof.
  revert r n b l. induction k as [|k IH]; intros r n b l Hr Hn Hl Hf; [by exists r, []|].
  destruct (Scan_scans l r n b fuel Hr Hn Hl Hf) as (pos & r1 & n1 & b1 & E1 & H1 & Hn1).
  pose proof (lex_rest l) as Hs. cbn [lex_tokens scan_tokens]. destruct (lex l) as [[tok lit] rest]. simpl in *.
  destruct (IH r1 n1 b1 rest H1 Hn1) as (r2 & ts & E2 & H2).
  { by eapply no_nul_suffix. }
  { destruct Hs as [a ->]. rewrite length_app in Hf. lia. }
  exists r2, ((tok, pos, utf8 lit) :: ts). rewrite (st_bind_ok _ _ _ _ _ E1), (st_bind_ok _ _ _ _ _ E2).
  split; [done|]. rewrite !fmap_cons, H2. done.
Qed.

Lemma normal_no_nul l : no_nul l → no_nul (normal l).
Proof.
  remember (length l) as k eqn:Hk. revert l Hk. induction (lt_wf k) as [k _ IH]. intros l -> Hl.
  destruct l as [|c l]; [done|]. pose proof (no_nul_cons _ _ Hl) as [Hc Hl']. cbn [normal].
  assert (IHl : no_nul (normal l)) by (eapply IH; [|reflexivity|done]; simpl; lia).
  destruct (c =? carriage); [|unfold no_nul in *; set_solver].
  assert (∀ m, no_nul m → no_nul (rn newline :: m)) as Hnl.
  { unfold no_nul. intros m Hm [H|H]%elem_of_cons; [discriminate H|done]. }
  destruct l as [|c1 l]; [by apply Hnl|]. destruct (c1 =? rn newline); apply Hnl; [|done].
  eapply IH; [|reflexivity|]; [simpl; lia|]. by apply no_nul_cons in Hl' as [_ ?].
Qed.
Lemma normal_length l : (length (normal l) ≤ length l)%nat.
Proof.
  remember (length l) as k eqn:Hk. revert l Hk. induction (lt_wf k) as [k _ IH]. intros l ->.
  destruct l as [|c l]; [done|]. cbn [normal].
  assert (length (normal l) ≤ length l)%nat by (eapply IH; [|reflexivity]; simpl; lia).
  destruct (c =? carriage); [|simpl; lia]. destruct l as [|c1 l]; [simpl; lia|].
  destruct (c1 =? rn newline); [|simpl in *; lia].
  assert (length (normal l) ≤ length l)%nat by (eapply IH; [|reflexivity]; simpl; lia). simpl. lia.
Qed.

(** C26: [Scan] with its circular buffer computes the lexer on lists: on a text
    without NUL characters no call panics, any number of calls returns the tokens
    and literals of the lexer, and the end of the text is among the first calls,
    one more than there are characters. *)
Theorem Scan_refines_lex (runes : list rune) (fuel k : nat) :
  eof ∉ runes → (length runes + 1 < fuel)%nat →
  (∃ r ts, scan_tokens fuel k (newReader runes) = (r, Ok ts) ∧
     token_text <$> ts = lexed_text <$> lex_tokens k (normal runes)) ∧
  (∃ r ts, scan_tokens fuel (S (length runes)) (newReader runes) = (r, Ok ts) ∧ EOF ∈ (λ t, t.1.1) <$> ts).
Proof.
  intros Hnul Hf. pose proof (normal_no_nul runes Hnul) as Hn. pose proof (normal_length runes) as Hlen. split.
  - eapply scan_tokens_runs; [apply rep_new|lia|done|lia].
  - destruct (scan_tokens_runs fuel (S (length runes)) _ _ _ _ (rep_new runes)) as (r & ts & E & Ht); [lia|done|lia|].
    exists r, ts. split; [done|]. assert (Hin : (EOF, EmptyString) ∈ token_text <$> ts).
    { rewrite Ht. apply list_elem_of_fmap. exists (EOF, []). split; [done|].
      eapply lex_tokens_mono; [|apply lex_tokens_EOF]. lia. }
    apply list_elem_of_fmap in Hin as (t & Heq & Hin). apply list_elem_of_fmap. exists t. split; [|done].
    unfold token_text in Heq. by injection Heq as <- _.
Qed.

(** ** Quoting and scanning *)

(** The code points of the characters in a goal. *)
Ltac rn_values :=
  repeat match goal with
  | H : context [rn ?c] |- _ => let v := eval vm_compute in (rn c) in change (rn c) with v in H
  | |- context [rn ?c] => let v := eval vm_compute in (rn c) in change (rn c) with v
  end.

(** A character of a text that can be quoted: a code point other than NUL and
    carriage return. *)
Definition text_rune (r : rune) : bool :=
  (0 <? r) && (r <=? 0x10FFFF) && negb ((0xD800 <=? r) && (r <=? 0xDFFF)) && negb (r =? carriage).
Definition is_text (rs : list rune) : Prop := Forall (λ r, text_rune r = true) rs.

(** [quoted] on characters. *)
Definition quote_rune (q r : rune) : list rune :=
  if r =? rn newline then [rn backslash; rn "n"]
  else if r =? rn backslash then [rn backslash; rn backslash]
  else if r =? q then [rn backslash; q]
  else [r].
Definition quote_runes (q : rune) (rs : list rune) : list rune := rs ≫= quote_rune q.

Lemma rn_inj a b : rn a = rn b → a = b.
Proof. unfold rn. intros H%Nat2Z.inj. rewrite <- (ascii_nat_embedding a), <- (ascii_nat_embedding b). by f_equal. Qed.
Lemma rn_byte_of z : 0 ≤ z < 256 → rn (byte_of z) = z.
Proof. intros H. unfold rn, byte_of. rewrite nat_ascii_embedding; lia. Qed.
Lemma rn_range c : 0 ≤ rn c < 256.
Proof. unfold rn. pose proof (nat_ascii_bounded c). lia. Qed.

Lemma string_app_assoc (a b c : string) : (a +:+ b) +:+ c = a +:+ b +:+ c.
Proof. induction a as [|x a IH]; [done|]. exact (f_equal (String x) IH). Qed.
Lemma string_app_nil (a : string) : a +:+ EmptyString = a.
Proof. induction a as [|x a IH]; [done|]. exact (f_equal (String x) IH). Qed.
Lemma utf8_app l1 l2 : utf8 (l1 ++ l2) = utf8 l1 +:+ utf8 l2.
Proof. induction l1 as [|r l1 IH]; [done|]. simpl. by rewrite IH, string_app_assoc. Qed.
Lemma quoted_app q a b : quoted q (a +:+ b) = quoted q a +:+ quoted q b.
Proof.
  induction a as [|x a IH]; [done|]. change (String x a +:+ b) with (String x (a +:+ b)). cbn [quoted].
  by rewrite IH, string_app_assoc.
Qed.
Lemma all_ident_chars_app a b : all_ident_chars (a +:+ b) = all_ident_chars a && all_ident_chars b.
Proof.
  induction a as [|x a IH]; [done|]. change (String x a +:+ b) with (String x (a +:+ b)). cbn [all_ident_chars].
  by rewrite IH, andb_assoc.
Qed.

(** Bytes beyond ASCII. *)
Fixpoint high (s : string) : Prop :=
  match s with EmptyString => True | String c s => 128 ≤ rn c ∧ high s end.

Lemma EncodeRune_ascii r : 0 ≤ r < 128 → EncodeRune r = String (byte_of r) EmptyString.
Proof.
  intros H. unfold EncodeRune. assert (((r <? 0) || (0x10FFFF <? r) || ((0xD800 <=? r) && (r <=? 0xDFFF))) = false) as -> by lia.
  by rewrite (proj2 (Z.ltb_lt r 0x80)) by lia.
Qed.
Lemma bytes_of_high l : Forall (λ z, 128 ≤ z < 256) l → high (bytes_of l).
Proof. induction 1 as [|z l Hz _ IH]; [done|]. simpl. split; [rewrite rn_byte_of; lia|done]. Qed.
Lemma EncodeRune_high r : 128 ≤ r → ∃ c s, EncodeRune r = String c s ∧ high (String c s).
Proof.
  intros H. assert (high (EncodeRune r) ∧ EncodeRune r ≠ EmptyString) as [Hh Hne].
  { unfold EncodeRune. destruct ((r <? 0) || (0x10FFFF <? r) || ((0xD800 <=? r) && (r <=? 0xDFFF))) eqn:E1;
      [split; [apply bytes_of_high; repeat constructor; lia|done]|].
    rewrite (proj2 (Z.ltb_ge r 0x80)) by lia.
    destruct (r <? 0x800) eqn:E2; [|destruct (r <? 0x10000) eqn:E3]; (split; [|done]); apply bytes_of_high;
      repeat apply List.Forall_cons; try apply List.Forall_nil; Z.to_euclidean_division_equations; lia. }
  destruct (EncodeRune r) as [|c s]; [done|]. eauto.
Qed.

Lemma quoted_high q s : high s → rn q < 128 → quoted q s = s.
Proof.
  intros Hs Hq. induction s as [|c s IH]; [done|]. destruct Hs as [Hc Hs]. cbn [quoted]. rewrite (IH Hs). unfold quoted_char.
  rewrite !bool_decide_eq_false_2; [done|..]; intros ->; first [lia|by vm_compute in Hc].
Qed.

Lemma quoted_ascii q r : 0 ≤ r < 128 → rn q < 128 → quoted_char q (byte_of r) = utf8 (quote_rune (rn q) r).
Proof.
  intros Hr Hq. unfold quoted_char, quote_rune.
  assert (Hd : ∀ c, bool_decide (byte_of r = c) = (r =? rn c)).
  { intros c. apply eq_true_iff_eq. rewrite bool_decide_eq_true, Z.eqb_eq. split.
    - intros <-. rewrite rn_byte_of; lia.
    - intros ->. apply rn_inj. rewrite rn_byte_of; [done|]. apply rn_range. }
  rewrite !Hd. destruct (r =? rn newline); [done|]. destruct (r =? rn backslash); [done|].
  pose proof (rn_range q). destruct (r =? rn q) eqn:E; simpl.
  - rewrite (EncodeRune_ascii (rn q)) by lia. by rewrite <- (rn_inj _ _ (rn_byte_of (rn q) ltac:(lia))) at 1.
  - rewrite (EncodeRune_ascii r) by lia. done.
Qed.

Lemma text_rune_spec r : text_rune r = true → 0 < r ∧ r ≠ carriage.
Proof. unfold text_rune. intros H. split; [lia|]. intros ->. by vm_compute in H. Qed.

Lemma quoted_utf8 q rs : is_text rs → rn q < 128 → quoted q (utf8 rs) = utf8 (quote_runes (rn q) rs).
Proof.
  intros Hrs Hq. induction Hrs as [|r rs Hr Hrs IH]; [done|]. apply text_rune_spec in Hr as [Hr _].
  change (quote_runes (rn q) (r :: rs)) with (quote_rune (rn q) r ++ quote_runes (rn q) rs).
  rewrite utf8_app, <- IH. cbn [utf8 foldr]. rewrite quoted_app. f_equal. destruct (Z.lt_ge_cases r 128) as [Hlt|Hge].
  - rewrite EncodeRune_ascii by lia. cbn [quoted]. rewrite string_app_nil. apply quoted_ascii; lia.
  - destruct (EncodeRune_high r Hge) as (c & s & E & Hh). rewrite E, quoted_high by done. unfold quote_rune.
    rewrite !(proj2 (Z.eqb_neq r _)); [|lia|intros ->; by vm_compute in Hge..].
    cbn [utf8 foldr]. by rewrite string_app_nil.
Qed.

Lemma lex_string_quoted q rs acc rest :
  unescaped q = Some q → q ≠ rn newline → q ≠ rn backslash →
  lex_string q acc (quote_runes q rs ++ q :: rest) = (STRING, acc ++ rs, rest).
Proof.
  intros Hu Hn Hb. revert acc. induction rs as [|r rs IH]; intros acc.
  - cbn [quote_runes mbind list_bind app lex_string]. by rewrite Z.eqb_refl, app_nil_r.
  - change (quote_runes q (r :: rs)) with (quote_rune q r ++ quote_runes q rs). rewrite <- app_assoc.
    assert (Hbq : (rn backslash =? q) = false) by (apply Z.eqb_neq; congruence).
    assert (Hstep : ∀ c, unescaped c = Some r → lex_string q acc ([rn backslash; c] ++ quote_runes q rs ++ q :: rest) =
      (STRING, acc ++ r :: rs, rest)).
    { intros c Hc. cbn [app lex_string]. rewrite Hbq. simpl (rn backslash =? rn newline). rewrite Z.eqb_refl, Hc, IH.
      by rewrite <- app_assoc. }
    unfold quote_rune. destruct (Z.eqb_spec r (rn newline)) as [->|Hr1]; [by apply Hstep|].
    destruct (Z.eqb_spec r (rn backslash)) as [->|Hr2]; [by apply Hstep|].
    destruct (Z.eqb_spec r q) as [->|Hr3]; [by apply Hstep|].
    cbn [app lex_string]. rewrite !(proj2 (Z.eqb_neq r _)) by done. rewrite IH. by rewrite <- app_assoc.
Qed.

(** What may follow an identifier that is not quoted. *)
Definition ident_stop (rest : list rune) : Prop := isIdentChar (peek rest) = false ∧ peek rest ≠ rn dquote.

Lemma span_all p l rest : forallb p l = true → p (peek rest) = false → span p (l ++ rest) = (l, rest).
Proof.
  intros Hl Hr. induction l as [|c l IH]; simpl in *; [|apply andb_true_iff in Hl as [-> Hl]; by rewrite IH].
  destruct rest as [|d rest]; [done|]. simpl in *. by rewrite Hr.
Qed.

Lemma lex_bare rs rest :
  match rs with [] => False | c :: _ => isIdentFirstChar c = true end → forallb isIdentChar rs = true →
  Lookup (utf8 rs) = IDENT → ident_stop rest → lex (rs ++ rest) = (IDENT, rs, rest).
Proof.
  intros Hf Hall Hk [Hs Hq]. destruct rs as [|c rs]; [done|]. simpl app. unfold lex.
  assert (isWhitespace c = false) as ->.
  { unfold isIdentFirstChar, isLetter, isWhitespace, between in *. rn_values. lia. }
  unfold isIdentFirstChar in Hf. rewrite Hf. simpl orb. unfold lex_ident.
  change (c :: rs ++ rest) with ((c :: rs) ++ rest). rewrite (span_all _ _ _ Hall Hs).
  destruct rest as [|d rest]; [by rewrite bool_decide_eq_true_2|]. simpl in Hq. rewrite (proj2 (Z.eqb_neq d _) Hq).
  by rewrite bool_decide_eq_true_2.
Qed.

Lemma isIdentChar_ascii c : isIdentChar c = true → 0 < c < 128 ∧ c ≠ rn newline ∧ c ≠ rn backslash ∧ c ≠ rn dquote.
Proof. unfold isIdentChar, isLetter, isDigit, between. rn_values. lia. Qed.

(** An identifier that needs no quotes is made of identifier characters. *)
Lemma all_ident_chars_utf8 rs : is_text rs → all_ident_chars (utf8 rs) = true → forallb isIdentChar rs = true.
Proof.
  intros Hrs. induction Hrs as [|r rs Hr Hrs IH]; [done|]. apply text_rune_spec in Hr as [Hr _]. cbn [utf8 foldr].
  rewrite all_ident_chars_app. intros [H1 H2]%andb_true_iff. simpl. rewrite (IH H2), andb_true_r.
  destruct (Z.lt_ge_cases r 128) as [Hlt|Hge].
  - rewrite EncodeRune_ascii in H1 by lia. simpl in H1. rewrite rn_byte_of, andb_true_r in H1 by lia. done.
  - destruct (EncodeRune_high r Hge) as (c & s & E & [Hc _]). rewrite E in H1. simpl in H1.
    apply andb_true_iff in H1 as [[? _]%isIdentChar_ascii _]. lia.
Qed.

Lemma quote_runes_plain rs : forallb isIdentChar rs = true → quote_runes (rn dquote) rs = rs.
Proof.
  induction rs as [|r rs IH]; [done|]. simpl. intros [(_ & ? & ? & ?)%isIdentChar_ascii Hrs]%andb_true_iff.
  change (quote_runes (rn dquote) (r :: rs)) with (quote_rune (rn dquote) r ++ quote_runes (rn dquote) rs).
  rewrite (IH Hrs). unfold quote_rune. by rewrite !(proj2 (Z.eqb_neq r _)).
Qed.

Lemma normal_app a rest : carriage ∉ a → normal (a ++ rest) = a ++ normal rest.
Proof.
  induction a as [|c a IH]; [done|]. intros H. cbn [normal app].
  rewrite (proj2 (Z.eqb_neq c carriage)) by set_solver. rewrite IH by set_solver. done.
Qed.

(** Text has no NUL and no carriage return, quoted or not. *)
Lemma text_clean rs : is_text rs → eof ∉ rs ∧ carriage ∉ rs.
Proof.
  intros H. unfold is_text in H. rewrite Forall_forall in H.
  split; intros [Hr ?]%H%text_rune_spec; [by vm_compute in Hr|done].
Qed.
Lemma text_app l1 l2 : is_text l1 → is_text l2 → is_text (l1 ++ l2).
Proof. intros. by apply Forall_app. Qed.
Lemma text_one c : text_rune c = true → is_text [c].
Proof. by repeat constructor. Qed.
Lemma quote_runes_text q rs : text_rune q = true → is_text rs → is_text (quote_runes q rs).
Proof.
  intros Hq. induction 1 as [|r rs Hr Hrs IH]; [constructor|].
  change (quote_runes q (r :: rs)) with (quote_rune q r ++ quote_runes q rs). apply text_app; [|done].
  unfold quote_rune. repeat case_match; by repeat constructor.
Qed.

(** What [Scan] makes of the start of a text. *)
Definition scanned_as (text rest : list rune) (tok : Token) (lit : list rune) : Prop :=
  ∀ fuel, (length (text ++ rest) + 1 < fuel)%nat →
    ∃ pos r n b, Scan fuel (newReader (text ++ rest)) = (r, Ok (tok, pos, utf8 lit)) ∧ rep r n b (normal rest).

Lemma lex_scanned text rest tok lit :
  is_text text → eof ∉ rest → lex (text ++ normal rest) = (tok, lit, normal rest) → scanned_as text rest tok lit.
Proof.
  intros [Hz Hc]%text_clean Hr Hlex fuel Hf. pose proof (rep_new (text ++ rest)) as Hrep. rewrite (normal_app _ _ Hc) in Hrep.
  pose proof (normal_length rest) as Hlen. rewrite length_app in Hf.
  destruct (Scan_scans _ _ _ _ fuel Hrep) as (pos & r & n & b & E & H & _); [lia| |rewrite length_app; lia|].
  { unfold no_nul in *. pose proof (normal_no_nul rest Hr). unfold no_nul in *. set_solver. }
  rewrite Hlex in E, H. eauto 6.
Qed.

Lemma in_quotes_runes q rs : is_text rs → rn q < 128 → rn q ≠ eof →
  utf8 (rn q :: quote_runes (rn q) rs ++ [rn q]) = String q (quoted q (utf8 rs) +:+ String q EmptyString).
Proof.
  intros Hrs Hq Hq0. pose proof (rn_range q). unfold eof in Hq0. cbn [utf8 foldr]. rewrite EncodeRune_ascii by lia.
  rewrite (rn_inj _ _ (rn_byte_of (rn q) ltac:(lia))). fold (utf8 (quote_runes (rn q) rs ++ [rn q])).
  rewrite utf8_app, <- quoted_utf8 by done. cbn [utf8 foldr]. rewrite EncodeRune_ascii by lia.
  by rewrite (rn_inj _ _ (rn_byte_of (rn q) ltac:(lia))).
Qed.

Lemma first_ident c : isIdentFirstChar c = true → isIdentChar c = true.
Proof. unfold isIdentFirstChar, isIdentChar. destruct (isLetter c), (c =? rn "_"); simpl; try done. by rewrite orb_true_r. Qed.

(** A name that needs no quotes. *)
Lemma bare_ident rs :
  rs ≠ [] → is_text rs → IdentNeedsQuotes (utf8 rs) = false →
  Lookup (utf8 rs) = IDENT ∧ match rs with [] => False | c :: _ => isIdentFirstChar c = true end ∧ forallb isIdentChar rs = true.
Proof.
  intros Hne Hrs Eq. unfold IdentNeedsQuotes in Eq. case_bool_decide as Hk; [simpl in Eq|done]. split; [done|].
  destruct Hrs as [|r rs Hr Hrs]; [done|]. apply text_rune_spec in Hr as [Hpos _]. clear Hk Hne.
  cbn [utf8 foldr] in Eq. fold (utf8 rs) in Eq. destruct (Z.lt_ge_cases r 128) as [Hlt|Hge].
  - rewrite EncodeRune_ascii in Eq by lia. simpl in Eq. rewrite rn_byte_of in Eq by lia.
    apply negb_false_iff, andb_true_iff in Eq as [Hf Hall]. split; [done|]. simpl.
    by rewrite (first_ident _ Hf), (all_ident_chars_utf8 rs Hrs Hall).
  - destruct (EncodeRune_high r Hge) as (c & s & E & [Hc _]). rewrite E in Eq. simpl in Eq.
    apply negb_false_iff, andb_true_iff in Eq as [[? _]%first_ident%isIdentChar_ascii _]. lia.
Qed.

Lemma quote_text q rs : is_text rs → text_rune q = true → is_text (q :: quote_runes q rs ++ [q]).
Proof. intros Hrs Hq. constructor; [done|]. apply text_app; [by apply quote_runes_text|by apply text_one]. Qed.
Lemma lex_quoted_string rs rest :
  lex ((rn squote :: quote_runes (rn squote) rs ++ [rn squote]) ++ rest) = (STRING, rs, rest).
Proof. cbn [app]. rewrite <- app_assoc. apply (lex_string_quoted (rn squote) rs [] rest); done. Qed.
(** The text of a name. *)
Lemma lex_quoted_ident rs : is_text rs → rs ≠ [] →
  ∃ text, utf8 text = QuoteIdent [utf8 rs] ∧ is_text text ∧ ∀ rest, ident_stop rest → lex (text ++ rest) = (IDENT, rs, rest).
Proof.
  intros Hrs Hne. simpl QuoteIdent. destruct (IdentNeedsQuotes (utf8 rs)) eqn:Eq.
  - exists (rn dquote :: quote_runes (rn dquote) rs ++ [rn dquote]).
    split; [by apply in_quotes_runes|]. split; [by apply quote_text|]. intros rest _.
    cbn [app]. rewrite <- app_assoc. cbn [app].
    change (match lex_string (rn dquote) [] (quote_runes (rn dquote) rs ++ rn dquote :: rest) with
            | (STRING, lit, rest) => (IDENT, lit, rest) | bad => bad end = (IDENT, rs, rest)).
    by rewrite lex_string_quoted.
  - destruct (bare_ident rs Hne Hrs Eq) as (Hk & Hf & Hall). exists rs.
    split; [|split; [done|intros rest Hstop; by apply lex_bare]].
    unfold quote_segment. rewrite quoted_utf8 by done. by rewrite quote_runes_plain.
Qed.

Lemma ident_chars_text r : forallb isIdentChar r = true → is_text r.
Proof.
  intros H. apply Forall_forall. intros c Hc. apply list_elem_of_In in Hc. apply (proj1 (forallb_forall _ _) H) in Hc.
  assert (c ≠ carriage) by (intros ->; by vm_compute in Hc). apply isIdentChar_ascii in Hc as [? _]. unfold text_rune. lia.
Qed.

(** What [QuoteString] writes is scanned as a string with the text that was
    quoted, and what [QuoteIdent] writes for a name as an identifier with this
    name, whatever follows it (after a name that needs no quotes, something that
    ends an identifier).  The text is any sequence of code points but NUL and
    carriage return. *)
Theorem quoting_roundtrip (rs rest : list rune) :
  is_text rs → eof ∉ rest →
  (∃ text, utf8 text = QuoteString (utf8 rs) ∧ scanned_as text rest STRING rs) ∧
  (rs ≠ [] → ident_stop (normal rest) →
   ∃ text, utf8 text = QuoteIdent [utf8 rs] ∧ scanned_as text rest IDENT rs).
Proof.
  intros Hrs Hr. split.
  - exists (rn squote :: quote_runes (rn squote) rs ++ [rn squote]). split; [by apply in_quotes_runes|].
    apply lex_scanned; [by apply quote_text|done|apply lex_quoted_string].
  - intros Hne Hstop. destruct (lex_quoted_ident rs Hrs Hne) as (text & Ht & Hc & Hlex). exists text.
    split; [done|]. apply lex_scanned; auto.
Qed.

(** Letters before an opening quote are lost: the identifier is the quoted text
    alone. *)
Theorem scanIdent_drops_prefix (prefix rs rest : list rune) :
  match prefix with [] => False | c :: _ => isIdentFirstChar c = true end → forallb isIdentChar prefix = true →
  is_text rs → eof ∉ rest →
  scanned_as (prefix ++ rn dquote :: quote_runes (rn dquote) rs ++ [rn dquote]) rest IDENT rs.
Proof.
  intros Hf Hall Hrs Hr. apply lex_scanned; [|done|].
  - apply text_app; [by apply ident_chars_text|by apply quote_text].
  - destruct prefix as [|c w]; [done|]. rewrite <- app_assoc. cbn [app]. rewrite <- app_assoc. unfold lex.
    assert (isWhitespace c = false) as ->.
    { unfold isIdentFirstChar, isLetter, isWhitespace, between in *. rn_values. lia. }
    unfold isIdentFirstChar in Hf. rewrite Hf. simpl orb. unfold lex_ident.
    change (c :: w ++ rn dquote :: quote_runes (rn dquote) rs ++ [rn dquote] ++ normal rest) with
      ((c :: w) ++ rn dquote :: quote_runes (rn dquote) rs ++ rn dquote :: normal rest).
    rewrite (span_all _ _ _ Hall) by done. rewrite Z.eqb_refl. by rewrite lex_string_quoted.
Qed.

(** The empty name is quoted as nothing. *)
Example QuoteIdent_empty : QuoteIdent [EmptyString] = EmptyString.
Proof. reflexivity. Qed.

(** ** Keywords *)

Fixpoint runes_of (s : string) : list rune :=
  match s with EmptyString => [] | String c s => rn c :: runes_of s end.

Lemma keyword_texts :
  forallb (λ tok, bool_decide (utf8 (runes_of (Token_String tok)) = Token_String tok) &&
                  forallb isLetter (runes_of (Token_String tok)) && negb (bool_decide (Token_String tok = EmptyString)) &&
                  bool_decide (Lookup (Token_String tok) = tok) && negb (bool_decide (tok = IDENT)))
    (keyword_tokens ++ [AND; OR; TRUE; FALSE]) = true.
Proof. vm_compute. reflexivity. Qed.

(** Letters that are a keyword, in any case. *)
Lemma lex_keyword c w rest :
  forallb isLetter (c :: w) = true → Lookup (utf8 (c :: w)) ≠ IDENT → ident_stop rest →
  lex ((c :: w) ++ rest) = (Lookup (utf8 (c :: w)), [], rest).
Proof.
  intros Hl Hi [Hs Hq]. assert (Hall : forallb isIdentChar (c :: w) = true).
  { clear -Hl. induction (c :: w) as [|x l IH]; [done|]. simpl in *. apply andb_true_iff in Hl as [Hx Hw].
    rewrite (IH Hw). unfold isIdentChar. by rewrite Hx. }
  assert (Hx : isLetter c = true) by (simpl in Hl; by apply andb_true_iff in Hl as [? _]).
  change ((c :: w) ++ rest) with (c :: (w ++ rest)). unfold lex. assert (isWhitespace c = false) as ->.
  { clear -Hx. unfold isLetter, isWhitespace, between in *. rn_values. lia. }
  rewrite Hx. simpl orb. unfold lex_ident. change (c :: (w ++ rest)) with ((c :: w) ++ rest).
  rewrite (span_all _ _ _ Hall Hs), bool_decide_eq_false_2 by done.
  destruct rest as [|d rest]; [done|]. simpl in Hq. by rewrite (proj2 (Z.eqb_neq d _) Hq).
Qed.

(** Every keyword is scanned as its token. *)
Theorem keywords_scanned (tok : Token) (rest : list rune) :
  tok ∈ keyword_tokens ++ [AND; OR; TRUE; FALSE] → ident_stop rest →
  lex (runes_of (Token_String tok) ++ rest) = (tok, [], rest).
Proof.
  intros Hin Hstop. pose proof (proj1 (forallb_forall _ _) keyword_texts tok (proj1 (list_elem_of_In _ _) Hin)) as H.
  rewrite !andb_true_iff, !negb_true_iff, !bool_decide_eq_true, !bool_decide_eq_false in H.
  destruct H as ((((Hu & Hl) & Hne) & Hk) & Hi). clear Hin. destruct (Token_String tok) as [|c s]; [done|].
  change (runes_of (String c s)) with (rn c :: runes_of s) in *. rewrite lex_keyword; rewrite ?Hu, ?Hk; done.
Qed.

(** ** Unreading tokens *)

Fixpoint unscans (k : nat) : ST bufScanner unit unit :=
  match k with O => mret () | S k => bufScanner_Unscan;; unscans k end.
Fixpoint rescans (fuel k : nat) : ST bufScanner unit (list Scanned) :=
  match k with O => mret [] | S k => t ← bufScanner_Scan fuel; ts ← rescans fuel k; mret (t :: ts) end.

Definition unread_by (s : bufScanner) (k : Z) : bufScanner :=
  mkBufScanner (bs_s s) (mkRing (ring_i (bs_ring s)) (ring_n (bs_ring s) + k) (ring_buf (bs_ring s))).

Lemma unread_by_0 s : unread_by s 0 = s.
Proof. destruct s as [r [i n b]]. unfold unread_by. simpl. by rewrite Z.add_0_r. Qed.
Lemma unread_by_add s j k : unread_by (unread_by s j) k = unread_by s (j + k).
Proof. unfold unread_by. simpl. by rewrite Z.add_assoc. Qed.

Lemma unscans_run k s : unscans k s = (unread_by s (Z.of_nat k), Ok ()).
Proof.
  revert s. induction k as [|k IH]; intros s; [by rewrite unread_by_0|]. cbn [unscans].
  rewrite (st_bind_ok _ _ s (unread_by s 1) ()) by done. rewrite IH, unread_by_add. do 2 f_equal. lia.
Qed.

Lemma rescans_run fuel ts pend back s :
  ring_rep (bs_ring s) (ts ++ pend) back →
  rescans fuel (length ts) s = (unread_by s (- Z.of_nat (length ts)), Ok ts).
Proof.
  revert back s. induction ts as [|t ts IH]; intros back s H; [by rewrite unread_by_0|].
  pose proof (ring_pop_rep _ _ _ _ H) as Hp. cbn [rescans length].
  assert (E : bufScanner_Scan fuel s = (unread_by s (-1), Ok t)).
  { unfold bufScanner_Scan, bufScanner_scanFunc. destruct H as (Hn & _).
    rewrite (proj2 (Z.ltb_lt 0 (ring_n (bs_ring s)))) by (rewrite Hn; cbn [app length]; lia).
    unfold bufScanner_curr. simpl. rewrite (ring_curr_rep _ _ _ _ Hp). done. }
  rewrite (st_bind_ok _ _ _ _ _ E). rewrite (st_bind_ok _ _ _ _ _ (IH (t :: back) (unread_by s (-1)) Hp)).
  rewrite unread_by_add.
  by replace (-1 + - Z.of_nat (length ts)) with (- Z.of_nat (S (length ts))) by lia.
Qed.

(** Up to three tokens can be unread: they are scanned again in the same order,
    without reading the text, and the scanner is as before. *)
Theorem Unscan_replays (fuel : nat) (s : bufScanner) (ts back : list Scanned) :
  ring_rep (bs_ring s) [] (reverse ts ++ back) →
  (unscans (length ts);; rescans fuel (length ts)) s = (s, Ok ts).
Proof.
  intros H. rewrite (st_bind_ok _ _ _ _ _ (unscans_run (length ts) s)).
  assert (Hr : ring_rep (bs_ring (unread_by s (Z.of_nat (length ts)))) (ts ++ []) back).
  { destruct H as (Hn & Hi & Hb & He). split_and!; [|done..|].
    { rewrite app_nil_r. cbn [unread_by bs_ring ring_n]. rewrite Hn. simpl. lia. }
    rewrite app_nil_r. exact He. }
  rewrite (rescans_run fuel ts [] back _ Hr), unread_by_add, Z.add_opp_diag_r. by rewrite unread_by_0.
Qed.

(** ** Witnesses *)

Lemma Scan_refines_lex_witness :
  let runes := runes_of "SELECT mean(value) FROM cpu WHERE host = 'a' AND time > now() - 1h" in
  (length runes + 1 < 100)%nat ∧
  (∃ r ts, scan_tokens 100 10 (newReader runes) = (r, Ok ts) ∧
     token_text <$> ts = lexed_text <$> lex_tokens 10 (normal runes)) ∧
  (∃ r ts, scan_tokens 100 (S (length runes)) (newReader runes) = (r, Ok ts) ∧ EOF ∈ (λ t, t.1.1) <$> ts).
Proof.
  cbv zeta. split; [vm_compute; lia|]. apply Scan_refines_lex; [|vm_compute; lia].
  apply (bool_decide_unpack _). vm_compute. exact I.
Defined.

Example scanned_query :
  (scan_tokens 100 8 (newReader (runes_of "x=~1.5ms 'it\'s'"))).2 =
  Ok [(IDENT, mkPos 0 0, "x"); (EQREGEX, mkPos 0 1, EmptyString); (NUMBER, mkPos 0 3, "1.5"); (IDENT, mkPos 0 6, "ms");
      (WS, mkPos 0 8, " "); (STRING, mkPos 0 8, "it's"); (EOF, mkPos 0 16, EmptyString); (EOF, mkPos 0 17, EmptyString)].
Proof. vm_compute. reflexivity. Qed.

Lemma quoting_roundtrip_witness :
  let rs := runes_of "it's" ++ [0x20AC] in
  (∃ text, utf8 text = QuoteString (utf8 rs) ∧ scanned_as text [] STRING rs) ∧
  (rs ≠ [] → ident_stop (normal []) → ∃ text, utf8 text = QuoteIdent [utf8 rs] ∧ scanned_as text [] IDENT rs).
Proof.
  cbv zeta. apply (quoting_roundtrip (runes_of "it's" ++ [0x20AC]) []).
  - apply (bool_decide_unpack _). vm_compute. exact I.
  - apply not_elem_of_nil.
Defined.
