(* ===== verification/QlUtf8.v ===== *)
(** * The characters of a Go string

    [bufio.Reader.ReadRune], which the scanner reads its text with
    (influxql/scanner.go, [reader.read]): the bytes of a string are decoded as
    UTF-8, and a byte that starts no well-formed character is U+FFFD by itself. *)

From stdpp Require Import base list strings.
From Stdlib Require Import ZArith Ascii Lia.
From S2P Require Import Prelude QlToken Escape QlPrint QlReader QlScan QlScanSpec QlScanProps.

Local Open Scope Z_scope.

Definition rune_error : rune := 0xFFFD.

Definition byte_in (lo hi z : Z) : bool := (lo <=? z) && (z <=? hi).
Definition tail_byte : Z → bool := byte_in 0x80 0xBF.

(** The range of the second byte, which excludes encodings that are too long,
    surrogates and values over U+10FFFF. *)
Definition second_byte (b0 b1 : Z) : bool :=
  byte_in (if b0 =? 0xE0 then 0xA0 else if b0 =? 0xF0 then 0x90 else 0x80)
           (if b0 =? 0xED then 0x9F else if b0 =? 0xF4 then 0x8F else 0xBF) b1.

(** The first character of a text and the number of its bytes. *)
Definition DecodeRune (l : list Z) : rune * nat :=
  match l with
  | [] => (rune_error, 0%nat)
  | b0 :: l1 =>
      if b0 <? 0x80 then (b0, 1%nat)
      else
        match l1 with
        | b1 :: l2 =>
            if byte_in 0xC2 0xDF b0 && tail_byte b1 then ((b0 - 0xC0) * 64 + (b1 - 0x80), 2%nat)
            else
              match l2 with
              | b2 :: l3 =>
                  if byte_in 0xE0 0xEF b0 && second_byte b0 b1 && tail_byte b2 then
                    ((b0 - 0xE0) * 4096 + (b1 - 0x80) * 64 + (b2 - 0x80), 3%nat)
                  else
                    match l3 with
                    | b3 :: _ =>
                        if byte_in 0xF0 0xF4 b0 && second_byte b0 b1 && tail_byte b2 && tail_byte b3 then
                          ((b0 - 0xF0) * 262144 + (b1 - 0x80) * 4096 + (b2 - 0x80) * 64 + (b3 - 0x80), 4%nat)
                        else (rune_error, 1%nat)
                    | [] => (rune_error, 1%nat)
                    end
              | [] => (rune_error, 1%nat)
              end
        | [] => (rune_error, 1%nat)
        end
  end.

(** The characters of a text, after [skip] bytes of the one before. *)
Fixpoint decode (skip : nat) (l : list Z) : list rune :=
  match l with
  | [] => []
  | _ :: l' =>
      match skip with
      | S skip => decode skip l'
      | O => let '(r, w) := DecodeRune l in r :: decode (pred w) l'
      end
  end.
Definition runes (s : string) : list rune := decode 0 (rn <$> String.list_ascii_of_string s).

(** ** What is encoded is decoded *)

Lemma list_ascii_app a b : String.list_ascii_of_string (a +:+ b) = String.list_ascii_of_string a ++ String.list_ascii_of_string b.
Proof. induction a as [|c a IH]; [done|]. simpl. by f_equal. Qed.
Lemma bytes_of_codes l : Forall (λ z, 0 ≤ z < 256) l → rn <$> String.list_ascii_of_string (bytes_of l) = l.
Proof. induction 1 as [|z l Hz Hl IH]; [done|]. change (rn (byte_of z) :: (rn <$> String.list_ascii_of_string (bytes_of l)) = z :: l). by rewrite IH, rn_byte_of. Qed.

Lemma decode_skip l1 l2 : decode (length l1) (l1 ++ l2) = decode 0 l2.
Proof. induction l1; [by destruct l2|done]. Qed.
Lemma decode_one b l l2 r : DecodeRune ((b :: l) ++ l2) = (r, length (b :: l)) → decode 0 ((b :: l) ++ l2) = r :: decode 0 l2.
Proof. intros H. change (decode 0 ((b :: l) ++ l2)) with (let '(r, w) := DecodeRune ((b :: l) ++ l2) in r :: decode (pred w) (l ++ l2)). rewrite H. simpl. by rewrite decode_skip. Qed.

Ltac byte_range x := unfold x, byte_in; repeat (let E := fresh in match goal with |- context [if ?b then _ else _] => destruct b eqn:E end); lia.
Lemma decode_two a b l : 2 ≤ a < 32 → 0 ≤ b < 64 → DecodeRune ([0xC0 + a; 0x80 + b] ++ l) = (a * 64 + b, 2%nat).
Proof.
  intros. unfold DecodeRune. cbn [app]. rewrite (proj2 (Z.ltb_ge _ 0x80)) by lia.
  assert (byte_in 0xC2 0xDF (0xC0 + a) = true) as -> by byte_range byte_in.
  assert (tail_byte (0x80 + b) = true) as -> by byte_range tail_byte. simpl andb. f_equal. lia.
Qed.
Lemma decode_three a b c l :
  0 ≤ a < 16 → 0 ≤ b < 64 → 0 ≤ c < 64 → 0x800 ≤ a * 4096 + b * 64 + c → ¬ 0xD800 ≤ a * 4096 + b * 64 + c ≤ 0xDFFF →
  DecodeRune ([0xE0 + a; 0x80 + b; 0x80 + c] ++ l) = (a * 4096 + b * 64 + c, 3%nat).
Proof.
  intros. unfold DecodeRune. cbn [app]. rewrite (proj2 (Z.ltb_ge _ 0x80)) by lia.
  assert (byte_in 0xC2 0xDF (0xE0 + a) = false) as -> by byte_range byte_in.
  assert (byte_in 0xE0 0xEF (0xE0 + a) = true) as -> by byte_range byte_in.
  assert (second_byte (0xE0 + a) (0x80 + b) = true) as -> by byte_range second_byte.
  assert (tail_byte (0x80 + c) = true) as -> by byte_range tail_byte. simpl andb. f_equal. lia.
Qed.
Lemma decode_four a b c d l :
  0 ≤ a < 5 → 0 ≤ b < 64 → 0 ≤ c < 64 → 0 ≤ d < 64 → 0x10000 ≤ a * 262144 + b * 4096 + c * 64 + d ≤ 0x10FFFF →
  DecodeRune ([0xF0 + a; 0x80 + b; 0x80 + c; 0x80 + d] ++ l) = (a * 262144 + b * 4096 + c * 64 + d, 4%nat).
Proof.
  intros. unfold DecodeRune. cbn [app]. rewrite (proj2 (Z.ltb_ge _ 0x80)) by lia.
  assert (byte_in 0xC2 0xDF (0xF0 + a) = false) as -> by byte_range byte_in.
  assert (byte_in 0xE0 0xEF (0xF0 + a) = false) as -> by byte_range byte_in.
  assert (byte_in 0xF0 0xF4 (0xF0 + a) = true) as -> by byte_range byte_in.
  assert (second_byte (0xF0 + a) (0x80 + b) = true) as -> by byte_range second_byte.
  assert (tail_byte (0x80 + c) = true) as -> by byte_range tail_byte.
  assert (tail_byte (0x80 + d) = true) as -> by byte_range tail_byte. simpl andb. f_equal. lia.
Qed.

Lemma decode_encode r l : text_rune r = true →
  decode 0 ((rn <$> String.list_ascii_of_string (EncodeRune r)) ++ l) = r :: decode 0 l.
Proof.
  intros Hr. unfold text_rune in Hr. unfold EncodeRune.
  assert (((r <? 0) || (0x10FFFF <? r) || ((0xD800 <=? r) && (r <=? 0xDFFF))) = false) as -> by lia.
  destruct (Z.ltb_spec r 0x80); [|destruct (Z.ltb_spec r 0x800); [|destruct (Z.ltb_spec r 0x10000)]];
    rewrite bytes_of_codes by (rewrite ?Forall_cons, ?Forall_nil; split_and?; try done; Z.to_euclidean_division_equations; lia);
    apply decode_one.
  - simpl. by rewrite (proj2 (Z.ltb_lt r 0x80)) by lia.
  - rewrite decode_two by (Z.to_euclidean_division_equations; lia). f_equal. Z.to_euclidean_division_equations; lia.
  - rewrite decode_three by (Z.to_euclidean_division_equations; lia). f_equal. Z.to_euclidean_division_equations; lia.
  - rewrite decode_four by (Z.to_euclidean_division_equations; lia). f_equal. Z.to_euclidean_division_equations; lia.
Qed.

Lemma runes_utf8 rs : is_text rs → runes (utf8 rs) = rs.
Proof.
  induction 1 as [|r rs Hr Hrs IH]; [done|]. unfold runes in *. cbn [utf8 foldr]. fold (utf8 rs).
  by rewrite list_ascii_app, fmap_app, decode_encode, IH.
Qed.

Example runes_malformed : runes (bytes_of [0x61; 0xC3; 0xA9; 0xC3; 0x62; 0xED; 0xA0]) = [0x61; 0xE9; 0xFFFD; 0x62; 0xFFFD; 0xFFFD].
Proof. reflexivity. Qed.
