(* ===== verification/QlDuration.v ===== *)
(** * Durations as text: [influxql/parser.go]

    [ParseDuration] and [FormatDuration], and what the scanner makes of a
    formatted duration. *)

From stdpp Require Import base list strings sets.
From Stdlib Require Import ZArith Ascii Lia DecimalString DecimalN DecimalPos.
From S2P Require Import Prelude QlToken Escape QlExpr QlSelect QlPrint QlReader QlScan QlScanSpec QlScanProps.

Local Open Scope Z_scope.

Definition Microsecond : Duration := 1000.
Definition Millisecond : Duration := 1000 * Microsecond.
Definition Second : Duration := 1000 * Millisecond.
Definition Minute : Duration := 60 * Second.

(** ** Numbers as text *)

Definition decimal (n : Z) : string := NilZero.string_of_uint (N.to_uint (Z.to_N n)).
(** [%d] *)
Definition Sprintf_d (z : Z) : string := if z <? 0 then String "-"%char (decimal (- z)) else decimal z.

(** [strconv.ParseInt(s, 10, 64)]; [None] is an error. *)
Definition ParseInt (s : string) : option Z :=
  let '(negative, digits) :=
    match s with
    | String c s' => if bool_decide (c = "-"%char) then (true, s') else if bool_decide (c = "+"%char) then (false, s') else (false, s)
    | EmptyString => (false, s)
    end in
  match NilZero.uint_of_string digits with
  | Some d =>
      let n := (if negative then -1 else 1) * Z.of_N (N.of_uint d) in
      if (- 2 ^ 63 <=? n) && (n <? 2 ^ 63) then Some n else None
  | None => None
  end.

(** ** The code *)

Definition micro : string := bytes_of [0xC2; 0xB5].
Definition drop_last (k : nat) (s : string) : string := String.substring 0 (String.length s - k) s.
Definition last_of (s : string) : string := String.substring (String.length s - 1) 1 s.

Definition unit_of (uom : string) : option Duration :=
  if bool_decide (uom = "u") || bool_decide (uom = micro) then Some Microsecond
  else if bool_decide (uom = "ms") then Some Millisecond
  else if bool_decide (uom = "s") then Some Second
  else if bool_decide (uom = "m") then Some Minute
  else if bool_decide (uom = "h") then Some Hour
  else if bool_decide (uom = "d") then Some (24 * Hour)
  else if bool_decide (uom = "w") then Some (7 * 24 * Hour)
  else None.

(** The number and the unit: the last character, or two for [ms] and for the
    micro sign, which has two bytes.  A digit at the end means microseconds. *)
Definition split_duration (s : string) : string * string :=
  match last_of s with
  | String c EmptyString =>
      if isDigit (rn c) then (s, "u")
      else if Nat.ltb 2 (String.length s) && HasSuffix s "ms" then (drop_last 2 s, "ms")
      else if HasSuffix s micro then (drop_last 2 s, micro)
      else (drop_last 1 s, last_of s)
  | _ => (s, EmptyString)
  end.

(** [None] is [ErrInvalidDuration]. *)
Definition ParseDuration (s : string) : option Duration :=
  if bool_decide (s = EmptyString) then None
  else if Nat.eqb (String.length s) 1 then n ← ParseInt s; Some (i64 (n * Microsecond))
  else
    let '(num, uom) := split_duration s in
    n ← ParseInt num;
    u ← unit_of uom;
    Some (i64 (n * u)).

(** The units that are tried, the largest first. *)
Definition format_units : list (Duration * string) :=
  [(7 * 24 * Hour, "w"); (24 * Hour, "d"); (Hour, "h"); (Minute, "m"); (Second, "s"); (Millisecond, "ms")].
Definition FormatDuration (d : Duration) : string :=
  if d =? 0 then "0s"
  else match list_find (λ u, Z.rem d u.1 = 0) format_units with
       | Some (_, (u, text)) => Sprintf_d (Z.quot d u) +:+ text
       | None => Sprintf_d (Z.quot d Microsecond)
       end.

(** ** Numbers *)

Lemma decimal_nonnil n : N.to_uint n ≠ Decimal.Nil.
Proof. destruct n as [|p]; [done|]. apply DecimalPos.Unsigned.to_uint_nonnil. Qed.

Lemma uint_of_decimal n : 0 ≤ n → NilZero.uint_of_string (decimal n) = Some (N.to_uint (Z.to_N n)).
Proof. intros H. apply NilZero.usu, decimal_nonnil. Qed.

(** All characters are digits, and there is one. *)
Fixpoint all_digits (s : string) : bool :=
  match s with EmptyString => true | String c s => isDigit (rn c) && all_digits s end.

Lemma string_of_uint_digits d : all_digits (NilEmpty.string_of_uint d) = true.
Proof. induction d; simpl; auto. Qed.
Lemma decimal_digits n : all_digits (decimal n) = true ∧ decimal n ≠ EmptyString.
Proof.
  unfold decimal. pose proof (decimal_nonnil (Z.to_N n)). destruct (N.to_uint (Z.to_N n)); [done|..];
    (split; [|done]); apply string_of_uint_digits.
Qed.

Lemma ParseInt_Sprintf z : is_i64 z → ParseInt (Sprintf_d z) = Some z.
Proof.
  intros Hz. unfold is_i64 in Hz. unfold ParseInt, Sprintf_d. destruct (Z.ltb_spec z 0) as [Hneg|Hpos].
  - rewrite bool_decide_eq_true_2 by done. rewrite uint_of_decimal by lia.
    rewrite DecimalN.Unsigned.of_to, Z2N.id by lia.
    assert ((- 2 ^ 63 <=? -1 * - z) && (-1 * - z <? 2 ^ 63) = true) as -> by lia. f_equal. lia.
  - destruct (decimal_digits z) as [Hd Hne]. pose proof (uint_of_decimal z Hpos) as Hu.
    destruct (decimal z) as [|c s]; [done|]. simpl in Hd. apply andb_true_iff in Hd as [Hc _].
    rewrite !bool_decide_eq_false_2 by (intros ->; by vm_compute in Hc). rewrite Hu.
    rewrite DecimalN.Unsigned.of_to, Z2N.id by lia. rewrite Z.mul_1_l.
    by assert ((- 2 ^ 63 <=? z) && (z <? 2 ^ 63) = true) as -> by lia.
Qed.

(** ** Ends of strings *)

Lemma string_length_app (a b : string) : String.length (a +:+ b) = (String.length a + String.length b)%nat.
Proof. induction a as [|c a IH]; [done|]. exact (f_equal S IH). Qed.
Lemma substring_start (a b : string) : String.substring 0 (String.length a) (a +:+ b) = a.
Proof. induction a as [|c a IH]; [by destruct b|]. exact (f_equal (String c) IH). Qed.
Lemma substring_end (a b : string) : String.substring (String.length a) (String.length b) (a +:+ b) = b.
Proof.
  induction a as [|c a IH]; [|exact IH]. pose proof (substring_start b EmptyString) as H. rewrite string_app_nil in H. exact H.
Qed.

Lemma drop_last_app (a b : string) : drop_last (String.length b) (a +:+ b) = a.
Proof.
  unfold drop_last. rewrite string_length_app. replace (_ + _ - _)%nat with (String.length a) by lia. apply substring_start.
Qed.
Lemma last_of_app (a : string) c : last_of (a +:+ String c EmptyString) = String c EmptyString.
Proof.
  unfold last_of. rewrite string_length_app. replace (_ + _ - _)%nat with (String.length a) by (simpl; lia).
  apply (substring_end a (String c EmptyString)).
Qed.

Lemma rev_app_app (a b : string) : String.rev_app a b = String.rev a +:+ b.
Proof.
  unfold String.rev. revert b. assert (H : ∀ a b c, String.rev_app a (b +:+ c) = String.rev_app a b +:+ c).
  { clear. intros a. induction a as [|x a IH]; intros b c; [done|]. apply (IH (String x b) c). }
  intros b. apply (H a EmptyString b).
Qed.
Lemma rev_last (a : string) c : String.rev (a +:+ String c EmptyString) = String c (String.rev a).
Proof.
  induction a as [|x a IH]; [done|]. change (String.rev (String x a +:+ String c EmptyString))
    with (String.rev_app (a +:+ String c EmptyString) (String x EmptyString)).
  change (String.rev (String x a)) with (String.rev_app a (String x EmptyString)).
  rewrite !rev_app_app, IH. done.
Qed.

(** A text whose last character is a digit. *)
Definition ends_in_digit (s : string) : Prop := ∃ y c, s = y +:+ String c EmptyString ∧ isDigit (rn c) = true.

Lemma all_digits_end s : all_digits s = true → s ≠ EmptyString → ends_in_digit s.
Proof.
  induction s as [|c s IH]; [done|]. simpl. intros [Hc Hs]%andb_true_iff _. destruct s as [|c' s].
  - by exists EmptyString, c.
  - destruct (IH Hs) as (y & e & -> & He); [done|]. by exists (String c y), e.
Qed.
Lemma Sprintf_end z : ends_in_digit (Sprintf_d z).
Proof.
  unfold Sprintf_d. destruct (z <? 0); [|by apply all_digits_end; apply decimal_digits].
  destruct (all_digits_end (decimal (- z))) as (y & c & E & Hc); [apply decimal_digits..|].
  exists (String "-" y), c. by rewrite E.
Qed.

(** The unit is split from the number. *)
Lemma split_unit x u text :
  ends_in_digit x → (u, text) ∈ format_units → split_duration (x +:+ text) = (x, text).
Proof.
  intros (y & c & -> & Hc) Hin. assert (Hcm : c ≠ "m"%char) by (intros ->; by vm_compute in Hc).
  assert (Hone : ∀ e, isDigit (rn e) = false → e ≠ "181"%char→
    split_duration ((y +:+ String c EmptyString) +:+ String e EmptyString) = (y +:+ String c EmptyString, String e EmptyString)).
  { intros e He Hm. unfold split_duration. rewrite last_of_app, He. unfold HasSuffix. rewrite rev_last, rev_last.
    assert (String.prefix (String.rev "ms") (String e (String c (String.rev y))) = false) as ->.
    { change (String.rev "ms") with "sm". cbn [String.prefix]. destruct (ascii_dec "s" e); [|done].
      destruct (ascii_dec "m" c); [congruence|done]. }
    rewrite andb_false_r. assert (String.prefix (String.rev micro) (String e (String c (String.rev y))) = false) as ->.
    { change (String.rev micro) with (String "181" (String "194" EmptyString)). cbn [String.prefix].
      destruct (ascii_dec "181" e); [congruence|done]. }
    f_equal. apply (drop_last_app _ (String e EmptyString)). }
  unfold format_units in Hin. rewrite !elem_of_cons, elem_of_nil in Hin.
  destruct Hin as [[= _ ->]|[[= _ ->]|[[= _ ->]|[[= _ ->]|[[= _ ->]|[[= _ ->]|[]]]]]]];
    try (by apply Hone).
  set (x := y +:+ String c EmptyString). assert (E : x +:+ "ms" = (x +:+ "m") +:+ "s") by by rewrite string_app_assoc.
  assert (HasSuffix (x +:+ "ms") "ms" = true) as Hsuf.
  { unfold HasSuffix. rewrite E, !rev_last. by destruct (String.rev x). }
  unfold split_duration. rewrite Hsuf. rewrite E at 1. rewrite last_of_app.
  rewrite (proj2 (Nat.ltb_lt 2 (String.length (x +:+ "ms")))).
  - simpl andb. cbv iota. change (isDigit (rn "s")) with false. cbv iota. f_equal. apply (drop_last_app x "ms").
  - unfold x. rewrite !string_length_app. simpl. lia.
Qed.

Lemma unit_of_format u text : (u, text) ∈ format_units → unit_of text = Some u.
Proof.
  unfold format_units. rewrite !elem_of_cons, elem_of_nil.
  intros [[= -> ->]|[[= -> ->]|[[= -> ->]|[[= -> ->]|[[= -> ->]|[[= -> ->]|[]]]]]]]; reflexivity.
Qed.

Lemma ParseDuration_unit z u text :
  is_i64 z → (u, text) ∈ format_units → ParseDuration (Sprintf_d z +:+ text) = Some (i64 (z * u)).
Proof.
  intros Hz Hin. unfold ParseDuration. destruct (Sprintf_end z) as (y & c & E & _).
  assert (Hlen : (2 ≤ String.length (Sprintf_d z +:+ text))%nat).
  { rewrite E, !string_length_app. unfold format_units in Hin. rewrite !elem_of_cons, elem_of_nil in Hin.
    destruct Hin as [[= _ ->]|[[= _ ->]|[[= _ ->]|[[= _ ->]|[[= _ ->]|[[= _ ->]|[]]]]]]]; simpl; lia. }
  rewrite bool_decide_eq_false_2 by (intros H; rewrite H in Hlen; simpl in Hlen; lia).
  rewrite (proj2 (Nat.eqb_neq _ 1)) by lia. rewrite (split_unit _ u) by (done || apply Sprintf_end).
  rewrite (ParseInt_Sprintf z Hz). simpl. by rewrite (unit_of_format u).
Qed.

Lemma ParseDuration_plain z : is_i64 z → ParseDuration (Sprintf_d z) = Some (i64 (z * Microsecond)).
Proof.
  intros Hz. unfold ParseDuration. destruct (Sprintf_end z) as (y & c & E & Hc).
  rewrite bool_decide_eq_false_2 by (rewrite E; by destruct y). rewrite (ParseInt_Sprintf z Hz).
  destruct (Nat.eqb _ 1); [done|]. unfold split_duration. rewrite E, last_of_app, Hc, <- E.
  by rewrite (ParseInt_Sprintf z Hz).
Qed.

(** ** Scanning a formatted duration *)

Lemma runes_of_app a b : runes_of (a +:+ b) = runes_of a ++ runes_of b.
Proof. induction a as [|c a IH]; [done|]. exact (f_equal (cons (rn c)) IH). Qed.
Lemma runes_of_digits s : all_digits s = true → forallb isDigit (runes_of s) = true.
Proof. induction s as [|c s IH]; [done|]. simpl. intros [-> Hs]%andb_true_iff. by rewrite IH. Qed.

(** What may follow a number or a duration. *)
Definition number_stop (rest : list rune) : Prop :=
  isIdentChar (peek rest) = false ∧ peek rest ≠ dot ∧ peek rest ≠ 0xB5.

Lemma number_stop_spec rest : number_stop rest → isDigit (peek rest) = false ∧ (peek rest =? dot) = false ∧
  is_unit (peek rest) = false ∧ (peek rest =? rn "m") = false ∧ (peek rest =? rn "s") = false.
Proof.
  intros (Hi & Hd & Hm). unfold is_unit. unfold isIdentChar, isLetter, isDigit, between, dot in *.
  rn_values. lia.
Qed.

Lemma lex_fraction_stop l : (peek l =? dot) = false → lex_fraction l = ([], l).
Proof. destruct l as [|c [|c1 l]]; [done..|]. simpl. by intros ->. Qed.

(** Digits with a unit, or with nothing, after a sign. *)
Lemma lex_number_unit sign digits unit_ rest :
  forallb isDigit digits = true → isDigit (peek (unit_ ++ rest)) = false → (peek (unit_ ++ rest) =? dot) = false →
  lex_unit (unit_ ++ rest) = (unit_, rest) →
  lex_number sign (digits ++ unit_ ++ rest) =
    (if bool_decide (unit_ = []) then NUMBER else DURATION_VAL, sign ++ digits ++ unit_, rest).
Proof.
  intros Hd Hp Hdot Hu. unfold lex_number. rewrite (span_all _ _ _ Hd Hp), (lex_fraction_stop _ Hdot). simpl.
  by rewrite Hu.
Qed.

Lemma lex_digit c l : isDigit c = true → lex (c :: l) = lex_number [] (c :: l).
Proof.
  intros Hc. unfold lex. assert (isWhitespace c = false ∧ isLetter c || (c =? rn "_") || (c =? rn dquote) = false) as [-> ->].
  { unfold isWhitespace, isLetter, isDigit, between in *. rn_values. lia. }
  by rewrite Hc.
Qed.

Lemma lex_Sprintf z unit_ rest :
  isDigit (peek (unit_ ++ rest)) = false → (peek (unit_ ++ rest) =? dot) = false → lex_unit (unit_ ++ rest) = (unit_, rest) →
  lex (runes_of (Sprintf_d z) ++ unit_ ++ rest) =
    (if bool_decide (unit_ = []) then NUMBER else DURATION_VAL, runes_of (Sprintf_d z) ++ unit_, rest).
Proof.
  intros Hp Hdot Hu. unfold Sprintf_d.
  assert (Hdec : ∀ n, forallb isDigit (runes_of (decimal n)) = true ∧ ∃ c l, runes_of (decimal n) = c :: l).
  { intros n. destruct (decimal_digits n) as [H1 H2]. split; [by apply runes_of_digits|]. destruct (decimal n); [done|]. by eexists _, _. }
  destruct (z <? 0).
  - destruct (Hdec (- z)) as [Hall (c & l & E)]. cbn [runes_of app].
    change (lex (rn "-" :: (runes_of (decimal (- z)) ++ unit_ ++ rest))) with
      (if starts_number (runes_of (decimal (- z)) ++ unit_ ++ rest) then lex_number [rn "-"] (runes_of (decimal (- z)) ++ unit_ ++ rest)
       else (SUB, [], runes_of (decimal (- z)) ++ unit_ ++ rest)).
    assert (starts_number (runes_of (decimal (- z)) ++ unit_ ++ rest) = true) as ->.
    { unfold starts_number. rewrite E in *. simpl in *. by apply andb_true_iff in Hall as [-> _]. }
    by rewrite lex_number_unit.
  - destruct (Hdec z) as [Hall (c & l & E)]. rewrite E in *. simpl app. rewrite lex_digit; [|by apply andb_true_iff in Hall as [? _]].
    change (c :: l ++ unit_ ++ rest) with ((c :: l) ++ unit_ ++ rest). by rewrite lex_number_unit.
Qed.

Lemma lex_unit_format u text rest :
  (u, text) ∈ format_units → number_stop rest →
  isDigit (peek (runes_of text ++ rest)) = false ∧ (peek (runes_of text ++ rest) =? dot) = false ∧
  lex_unit (runes_of text ++ rest) = (runes_of text, rest) ∧ runes_of text ≠ [].
Proof.
  intros Hin (_ & _ & _ & _ & Hs)%number_stop_spec. unfold format_units in Hin. rewrite !elem_of_cons, elem_of_nil in Hin.
  destruct Hin as [[= _ ->]|[[= _ ->]|[[= _ ->]|[[= _ ->]|[[= _ ->]|[[= _ ->]|[]]]]]]]; try (by split_and!).
  split_and!; [done..| |done]. destruct rest as [|c rest]; [done|]. simpl in Hs |- *. by rewrite Hs.
Qed.

Lemma format_units_ms d :
  match list_find (λ u, Z.rem d u.1 = 0) format_units with
  | Some (_, (u, text)) => (u, text) ∈ format_units ∧ Z.rem d u = 0 ∧ Z.rem d Millisecond = 0
  | None => Z.rem d Millisecond ≠ 0
  end.
Proof.
  destruct (list_find _ _) as [[i [u text]]|] eqn:E.
  - apply list_find_Some in E as (Hi & Hu & _). apply list_elem_of_lookup_2 in Hi. split_and!; [done..|]. simpl in Hu.
    unfold format_units in Hi. rewrite !elem_of_cons, elem_of_nil in Hi.
    apply Z.rem_divide in Hu; [|destruct Hi as [[= -> _]|[[= -> _]|[[= -> _]|[[= -> _]|[[= -> _]|[[= -> _]|[]]]]]]]; done].
    apply Z.rem_divide; [done|]. etransitivity; [|exact Hu].
    destruct Hi as [[= -> _]|[[= -> _]|[[= -> _]|[[= -> _]|[[= -> _]|[[= -> _]|[]]]]]]];
      (apply Z.mod_divide; [done|reflexivity]).
  - apply list_find_None in E. rewrite Forall_forall in E. apply (E (Millisecond, "ms")).
    unfold format_units. set_solver.
Qed.

Lemma quot_range d u : is_i64 d → 0 < u → is_i64 (Z.quot d u).
Proof.
  unfold is_i64. intros Hd Hu. destruct (Z.le_gt_cases 0 d).
  - pose proof (Z.quot_pos d u). pose proof (Z.quot_le_upper_bound d u d). nia.
  - pose proof (Z.quot_opp_l d u). pose proof (Z.quot_pos (- d) u). pose proof (Z.quot_le_upper_bound (- d) u (- d)). nia.
Qed.
Lemma whole_range d : is_i64 d → is_i64 (d - Z.rem d Microsecond).
Proof. unfold is_i64, Microsecond. intros H. Z.to_euclidean_division_equations; lia. Qed.

(** A formatted duration is parsed back to the duration, cut to whole
    microseconds.  In a query its text is scanned as a duration exactly when it
    is a whole number of milliseconds: otherwise it has no unit, and is scanned
    as a number. *)
Theorem FormatDuration_roundtrip (d : Duration) (rest : list rune) :
  is_i64 d → number_stop rest →
  ParseDuration (FormatDuration d) = Some (d - Z.rem d Microsecond) ∧
  lex (runes_of (FormatDuration d) ++ rest) =
    (if Z.rem d Millisecond =? 0 then DURATION_VAL else NUMBER, runes_of (FormatDuration d), rest).
Proof.
  intros Hd Hstop. unfold FormatDuration. destruct (Z.eqb_spec d 0) as [->|Hd0].
  { split; [reflexivity|]. destruct (lex_unit_format Second "s" rest) as (H1 & H2 & H3 & _); [unfold format_units; set_solver|done|].
    exact (lex_Sprintf 0 (runes_of "s") rest H1 H2 H3). }
  assert (Hq : ∀ u, 0 < u → is_i64 (Z.quot d u) ∧ Z.quot d u * u = d - Z.rem d u).
  { intros u Hu. pose proof (Z.quot_rem' d u). split; [by apply quot_range|lia]. }
  pose proof (format_units_ms d) as Hf. destruct (list_find _ _) as [[i [u text]]|].
  - destruct Hf as (Hin & Hu & Hms). assert (Hpos : 0 < u).
    { unfold format_units in Hin. rewrite !elem_of_cons, elem_of_nil in Hin.
      destruct Hin as [[= -> _]|[[= -> _]|[[= -> _]|[[= -> _]|[[= -> _]|[[= -> _]|[]]]]]]]; reflexivity. }
    destruct (Hq u Hpos) as [H64 Hmul]. split.
    + rewrite (ParseDuration_unit _ u) by done. rewrite Hmul, Hu, Z.sub_0_r, i64_small by done. f_equal.
      assert (Z.rem d Microsecond = 0); [|lia]. apply Z.rem_divide in Hms; [|done]. apply Z.rem_divide; [done|].
      etransitivity; [|exact Hms]. by exists 1000.
    + rewrite Hms, runes_of_app, <- app_assoc. destruct (lex_unit_format u text rest Hin Hstop) as (H1 & H2 & H3 & H4).
      rewrite lex_Sprintf by done. by rewrite bool_decide_eq_false_2.
  - destruct (Hq Microsecond) as [H64 Hmul]; [done|]. split.
    + rewrite ParseDuration_plain by done. rewrite Hmul, i64_small; [done|]. by apply whole_range.
    + rewrite (proj2 (Z.eqb_neq _ 0)) by done. destruct (number_stop_spec rest Hstop) as (H1 & H2 & H3 & H4 & _).
      pose proof (lex_Sprintf (Z.quot d Microsecond) [] rest H1 H2) as H. rewrite app_nil_r in H. apply H.
      destruct rest as [|c rest]; [done|]. simpl in H3, H4 |- *. by rewrite H3, H4.
Qed.

(** A duration of one and a half milliseconds loses its unit in a query. *)
Example FormatDuration_no_unit :
  FormatDuration (1500 * Microsecond) = "1500" ∧ (lex (runes_of "1500")).1.1 = NUMBER.
Proof. vm_compute. done. Qed.

(** The product of number and unit is not checked. *)
Example ParseDuration_wraps : ParseDuration "20000w" = Some (20000 * (7 * 24 * Hour) - 2 ^ 64).
Proof. vm_compute. reflexivity. Qed.

Lemma FormatDuration_roundtrip_witness :
  let rest := runes_of " GROUP BY host" in
  is_i64 (90 * Minute) ∧ number_stop rest ∧
  ParseDuration (FormatDuration (90 * Minute)) = Some (90 * Minute - Z.rem (90 * Minute) Microsecond) ∧
  lex (runes_of (FormatDuration (90 * Minute)) ++ rest) =
    (if Z.rem (90 * Minute) Millisecond =? 0 then DURATION_VAL else NUMBER, runes_of (FormatDuration (90 * Minute)), rest).
Proof.
  cbv zeta. assert (H1 : is_i64 (90 * Minute)) by (unfold is_i64; vm_compute; split; congruence).
  assert (H2 : number_stop (runes_of " GROUP BY host")) by (unfold number_stop; vm_compute; split_and!; congruence).
  split; [exact H1|]. split; [exact H2|]. exact (FormatDuration_roundtrip (90 * Minute) (runes_of " GROUP BY host") H1 H2).
Defined.
