(* ===== verification/QlNumber.v ===== *)
(** * Numbers and times as text

    What the parser and the printer of InfluxQL use of [strconv]: [ParseFloat] on
    the texts that the scanner gives for a number, [FormatFloat] with three
    decimals, [ParseUint] and [Atoi].  Times as text, the shortest text of a float
    and the syntax of regular expressions are a class. *)

From stdpp Require Import base list strings.
From Stdlib Require Import ZArith Ascii Lia SpecFloat DecimalString DecimalN.
From S2P Require Import Prelude QlToken Escape QlExpr QlSelect QlPrint QlReader QlScan QlScanSpec QlScanProps QlDuration.

Local Open Scope Z_scope.

(** ** [strconv.ParseFloat(s, 64)] *)

(** The float nearest to [n / d], ties to even.  The quotient is computed to at
    least 59 bits, and a last bit says whether something is left. *)
Definition round_ratio (neg : bool) (n d : Z) : float64 :=
  if n =? 0 then S754_zero neg
  else
    let s := Z.max 0 (60 + Z.log2 d - Z.log2 n) in
    let q := Z.shiftl n s / d in
    let sticky := if Z.shiftl n s mod d =? 0 then 0 else 1 in
    binary_round 53 1024 neg (Z.to_pos (2 * q + sticky)) (- s - 1).

(** The digits of a number with at most one full stop: their value, how many
    there are after the full stop, and whether there are any. *)
Fixpoint read_decimal (s : string) (acc : Z) (frac : option Z) (some : bool) : option (Z * Z) :=
  match s with
  | EmptyString => if some then Some (acc, default 0 frac) else None
  | String c s =>
      if isDigit (rn c) then read_decimal s (10 * acc + (rn c - rn "0")) ((Z.add 1) <$> frac) true
      else if bool_decide (c = "."%char) then
        match frac with None => read_decimal s acc (Some 0) some | Some _ => None end
      else None
  end.

(** The sign that a number may start with. *)
Definition read_sign (s : string) : bool * string :=
  match s with
  | String c s' => if bool_decide (c = "-"%char) then (true, s') else if bool_decide (c = "+"%char) then (false, s') else (false, s)
  | EmptyString => (false, s)
  end.

(** [None] is an error: the text is no number, or the number is out of range. *)
Definition ParseFloat (s : string) : option float64 :=
  let '(neg, digits) := read_sign s in
  '(n, frac) ← read_decimal digits 0 None false;
  match round_ratio neg n (10 ^ frac) with
  | S754_infinity _ => None
  | f => Some f
  end.

(** ** [strconv.FormatFloat(f, 'f', 3, 64)] *)

Definition digit_char (n : Z) : ascii := byte_of (rn "0" + n).
Definition three_digits (n : Z) : string :=
  String (digit_char (n / 100)) (String (digit_char (n / 10 mod 10)) (String (digit_char (n mod 10)) EmptyString)).

(** [n / d] to the nearest integer, ties to even. *)
Definition round_half_even (n d : Z) : Z :=
  let q := n / d in
  match 2 * (n mod d) ?= d with Lt => q | Gt => q + 1 | Eq => if Z.even q then q else q + 1 end.

Definition sign_text (neg : bool) : string := if neg then "-" else EmptyString.
Definition FormatFloat (f : float64) : string :=
  match f with
  | S754_nan => "NaN"
  | S754_infinity neg => (if neg then "-" else "+") +:+ "Inf"
  | S754_zero neg => sign_text neg +:+ "0.000"
  | S754_finite neg m e =>
      let n := if 0 <=? e then Zpos m * 2 ^ e * 1000 else round_half_even (Zpos m * 1000) (2 ^ (- e)) in
      sign_text neg +:+ decimal (n / 1000) +:+ "." +:+ three_digits (n mod 1000)
  end.

(** ** Integers *)

(** [strconv.ParseUint(s, 10, bits)] takes no sign. *)
Definition ParseUint (bits : Z) (s : string) : option Z :=
  match NilZero.uint_of_string s with
  | Some d => let n := Z.of_N (N.of_uint d) in if n <? 2 ^ bits then Some n else None
  | None => None
  end.

(** [strconv.Atoi] with an [int] of 64 bits. *)
Definition Atoi : string → option Z := ParseInt.

(** The value that [ParseInt] returns next to its error: the nearest bound when
    the number is out of range, 0 when the text is no number. *)
Definition ParseInt_value (s : string) : Z :=
  match ParseInt s with
  | Some n => n
  | None =>
      let '(neg, digits) := read_sign s in
      match NilZero.uint_of_string digits with
      | Some _ => if neg then - 2 ^ 63 else 2 ^ 63 - 1
      | None => 0
      end
  end.

(** ** Packages [time], [fmt] and [regexp]

    [time_Format t] is the text of [t.UTC()] in the layout [time.RFC3339Nano],
    [time_Parse] takes a layout and a text, [Sprintf_v] is [%v] of a [float64],
    [regexp_Compile] says whether a regular expression compiles, [strings_ToLower]
    is [strings.ToLower] on all of Unicode, and [error_Error] is the text of the
    error that a function gives for an argument.  Nothing is assumed of them. *)
Class GoText := {
  time_Format : Time → string;
  time_Parse : string → string → option Time;
  Sprintf_v : float64 → string;
  regexp_Compile : string → bool;
  strings_ToLower : string → string;
  error_Error : string → string → string
}.

(** ** Precision *)

Definition number_of (s : string) : float64 := default S754_nan (ParseFloat s).

Example ParseFloat_rounds :
  ParseFloat "0.1" = Some (S754_finite false 7205759403792794 (-56)) ∧
  ParseFloat "-2.5" = Some (S754_finite true 5629499534213120 (-51)) ∧
  ParseFloat "9007199254740993" = Some (S754_finite false 4503599627370496 1) ∧
  ParseFloat "1..2" = None ∧ ParseFloat "-" = None.
Proof. repeat split; vm_compute; reflexivity. Qed.

Example FormatFloat_rounds :
  FormatFloat (number_of "0.1") = "0.100" ∧ FormatFloat (number_of "12345.6785") = "12345.678" ∧
  FormatFloat (number_of "-0.0001") = "-0.000" ∧ FormatFloat (number_of "9007199254740993") = "9007199254740992.000".
Proof. repeat split; vm_compute; reflexivity. Qed.

(** An instance for the examples: two times, each with its text. *)
Definition sample_start : Time := Time_Unix0 (1420070400 * 10 ^ 9).
Definition sample_stop : Time := Time_Unix0 (1420074000 * 10 ^ 9).
Definition sample_text : GoText := {|
  time_Format t := if t =? sample_start then "2015-01-01T00:00:00Z" else "2015-01-01T01:00:00Z";
  time_Parse layout s :=
    if bool_decide (layout = "2006-01-02T15:04:05.999999999Z07:00") then
      if bool_decide (s = "2015-01-01T00:00:00Z") then Some sample_start
      else if bool_decide (s = "2015-01-01T01:00:00Z") then Some sample_stop else None
    else None;
  Sprintf_v := FormatFloat;
  regexp_Compile _ := true;
  strings_ToLower := ToLower;
  error_Error _ _ := EmptyString
|}.
