(* ===== verification/QlStmt.v ===== *)
(** * Statements of InfluxQL: [influxql/ast.go]

    Every statement of the query language, the text that [String] gives for it,
    and the privileges that are required to execute it. *)

From stdpp Require Import base list strings gmap.
From Stdlib Require Import ZArith Ascii Lia SpecFloat.
From S2P Require Import Prelude MetaData QlToken Escape QlExpr QlSelect QlPrint QlReader QlScan QlScanSpec QlScanProps QlDuration QlNumber.

Local Open Scope Z_scope.

(** ** The statements

    A constructor for each type of statement, its fields in the order of the
    source.  A nil condition or source is [None]; a nil list is empty. *)

Inductive Statement :=
| CreateDatabaseStatement (Name : string) (IfNotExists : bool)
| DropDatabaseStatement (Name : string) (IfExists : bool)
| DropRetentionPolicyStatement (Name Database : string)
| CreateUserStatement (Name Password : string) (Admin : bool)
| DropUserStatement (Name : string)
| GrantStatement (Privilege : Z) (On User : string)
| GrantAdminStatement (User : string)
| SetPasswordUserStatement (Password Name : string)
| RevokeStatement (Privilege : Z) (On User : string)
| RevokeAdminStatement (User : string)
| CreateRetentionPolicyStatement (Name Database : string) (dur : Duration) (Replication : Z) (Default : bool)
| AlterRetentionPolicyStatement (Name Database : string) (dur : option Duration) (Replication : option Z) (Default : bool)
| SelectStmt (s : SelectStatement)
| DeleteStatement (source : Source) (cond : option Expr)
| ShowSeriesStatement (sources : list Source) (cond : option Expr) (sort : list (string * bool)) (limit offset : Z)
| DropSeriesStatement (sources : list Source) (cond : option Expr)
| DropServerStatement (NodeID : Z) (Force : bool)
| ShowContinuousQueriesStatement
| ShowGrantsForUserStatement (Name : string)
| ShowServersStatement
| ShowDatabasesStatement
| CreateContinuousQueryStatement (Name Database : string) (source : SelectStatement)
| DropContinuousQueryStatement (Name Database : string)
| ShowMeasurementsStatement (source : option Source) (cond : option Expr) (sort : list (string * bool)) (limit offset : Z)
| DropMeasurementStatement (Name : string)
| ShowRetentionPoliciesStatement (Database : string)
| ShowStatsStatement (Module_ : string)
| ShowShardsStatement
| ShowDiagnosticsStatement (Module_ : string)
| CreateSubscriptionStatement (Name Database RetentionPolicy : string) (Destinations : list string) (Mode : string)
| DropSubscriptionStatement (Name Database RetentionPolicy : string)
| ShowSubscriptionsStatement
| ShowTagKeysStatement (sources : list Source) (cond : option Expr) (sort : list (string * bool)) (limit offset slimit soffset : Z)
| ShowTagValuesStatement (sources : list Source) (TagKeys : list string) (cond : option Expr) (sort : list (string * bool)) (limit offset : Z)
| ShowUsersStatement
| ShowFieldKeysStatement (sources : list Source) (sort : list (string * bool)) (limit offset : Z).

(** A query is its list of statements. *)
Definition Query : Type := list Statement.

(** ** Privileges *)

Record ExecutionPrivilege := mkEP { ep_Admin : bool; ep_Name : string; ep_Privilege : Z }.

Definition admin_only : list ExecutionPrivilege := [mkEP true EmptyString AllPrivileges].
Definition on_database (name : string) (p : Z) : ExecutionPrivilege := mkEP false name p.

Definition SelectStatement_RequiredPrivileges (s : SelectStatement) : list ExecutionPrivilege :=
  on_database EmptyString ReadPrivilege ::
  match Target s with Some m => [on_database (Source_Database m) WritePrivilege] | None => [] end.

(** The target of a continuous query is followed without a test for nil. *)
Definition CreateContinuousQueryStatement_RequiredPrivileges (database : string) (source : SelectStatement)
    : exprE (list ExecutionPrivilege) :=
  match Target source with
  | None => Panic
  | Some m =>
      Ok (on_database database ReadPrivilege ::
          (if bool_decide (Source_Database m = EmptyString) then []
           else [on_database (Source_Database m) WritePrivilege]))
  end.

(** The method of each type of statement. *)
Definition RequiredPrivileges (stmt : Statement) : exprE (list ExecutionPrivilege) :=
  match stmt with
  | CreateDatabaseStatement _ _ | DropDatabaseStatement _ _ | CreateUserStatement _ _ _ | DropUserStatement _
  | GrantStatement _ _ _ | GrantAdminStatement _ | SetPasswordUserStatement _ _ | RevokeStatement _ _ _
  | RevokeAdminStatement _ | CreateRetentionPolicyStatement _ _ _ _ _ | AlterRetentionPolicyStatement _ _ _ _ _
  | ShowGrantsForUserStatement _ | ShowServersStatement | ShowDatabasesStatement | DropMeasurementStatement _
  | ShowStatsStatement _ | ShowShardsStatement | ShowDiagnosticsStatement _ | CreateSubscriptionStatement _ _ _ _ _
  | DropSubscriptionStatement _ _ _ | ShowSubscriptionsStatement | ShowUsersStatement => Ok admin_only
  | DropRetentionPolicyStatement _ database => Ok [on_database database WritePrivilege]
  | SelectStmt s => Ok (SelectStatement_RequiredPrivileges s)
  | DeleteStatement _ _ | DropSeriesStatement _ _ | DropContinuousQueryStatement _ _ =>
      Ok [on_database EmptyString WritePrivilege]
  | DropServerStatement _ _ => Ok [on_database EmptyString AllPrivileges]
  | ShowSeriesStatement _ _ _ _ _ | ShowContinuousQueriesStatement | ShowMeasurementsStatement _ _ _ _ _
  | ShowRetentionPoliciesStatement _ | ShowTagKeysStatement _ _ _ _ _ _ _ | ShowTagValuesStatement _ _ _ _ _ _
  | ShowFieldKeysStatement _ _ _ _ => Ok [on_database EmptyString ReadPrivilege]
  | CreateContinuousQueryStatement _ database source => CreateContinuousQueryStatement_RequiredPrivileges database source
  end.

(** [HasDefaultDatabase] is implemented by continuous queries only. *)
Definition DefaultDatabase (stmt : Statement) : option string :=
  match stmt with CreateContinuousQueryStatement _ database _ => Some database | _ => None end.

(** ** Text *)

(** [strings.Join] *)
Fixpoint strings_Join (l : list string) (sep : string) : string :=
  match l with
  | [] => EmptyString
  | [s] => s
  | s :: l => s +:+ sep +:+ strings_Join l sep
  end.

Section text.
Context {goText : GoText}.

Fixpoint Expr_String (e : Expr) : string :=
  match e with
  | BinaryExpr op l r => Expr_String l +:+ " " +:+ Token_String op +:+ " " +:+ Expr_String r
  | BooleanLiteral b => if b then "true" else "false"
  | Call name args => name +:+ "(" +:+ strings_Join (Expr_String <$> args) ", " +:+ ")"
  | Distinct v => "DISTINCT " +:+ v
  | DurationLiteral d => FormatDuration d
  | nilLiteral => "nil"
  | NumberLiteral f => FormatFloat f
  | ParenExpr e => "(" +:+ Expr_String e +:+ ")"
  | RegexLiteral re => RegexLiteral_String re
  | StringLiteral s => QuoteString s
  | TimeLiteral t => String squote (time_Format t +:+ String squote EmptyString)
  | VarRef v => QuoteIdent [v]
  | Wildcard => "*"
  end.

(** The alias is put between quotes as it is. *)
Definition Field_String (f : Field) : string :=
  if bool_decide (Field_Alias f = EmptyString) then Expr_String (Field_Expr f)
  else Expr_String (Field_Expr f) +:+ " AS " +:+ in_quotes (Field_Alias f).
Definition Fields_String (fs : list Field) : string := strings_Join (Field_String <$> fs) ", ".
Definition Dimensions_String (ds : list Expr) : string := strings_Join (Expr_String <$> ds) ", ".
Definition Sources_String (l : list Source) : string := strings_Join (Source_String <$> l) ", ".
Definition SortField_String (f : string * bool) : string :=
  (if bool_decide (f.1 = EmptyString) then EmptyString else f.1 +:+ " ") +:+ (if f.2 then "ASC" else "DESC").
Definition SortFields_String (l : list (string * bool)) : string := strings_Join (SortField_String <$> l) ", ".

Definition Target_String (m : Source) : string :=
  "INTO " +:+ Source_String m +:+ (if bool_decide (Source_Name m = EmptyString) then ":MEASUREMENT" else EmptyString).

(** The clauses that several statements share. *)
Definition from_text (l : list Source) : string :=
  match l with [] => EmptyString | l => " FROM " +:+ Sources_String l end.
Definition where_text (cond : option Expr) : string :=
  match cond with None => EmptyString | Some e => " WHERE " +:+ Expr_String e end.
Definition order_text (l : list (string * bool)) : string :=
  match l with [] => EmptyString | l => " ORDER BY " +:+ SortFields_String l end.
Definition number_text (clause : string) (n : Z) : string :=
  if 0 <? n then clause +:+ Sprintf_d n else EmptyString.
Definition fill_text (fill : FillOption) (value : GoValue) : string :=
  match fill with
  | NullFill => EmptyString
  | NoFill => " fill(none)"
  | NumberFill => " fill(" +:+ match value with VFloat f => Sprintf_v f | _ => "<nil>" end +:+ ")"
  | PreviousFill => " fill(previous)"
  end.

Definition Select_String (s : SelectStatement) : string :=
  "SELECT " +:+ Fields_String (Fields s) +:+
  match Target s with Some m => " " +:+ Target_String m | None => EmptyString end +:+
  from_text (Sources s) +:+ where_text (Condition s) +:+
  match Dimensions s with [] => EmptyString | ds => " GROUP BY " +:+ Dimensions_String ds end +:+
  fill_text (Fill s) (FillValue s) +:+ order_text (SortFields s) +:+
  number_text " LIMIT " (Limit s) +:+ number_text " OFFSET " (Offset s) +:+
  number_text " SLIMIT " (SLimit s) +:+ number_text " SOFFSET " (SOffset s).

(** The texts of the errors of validation. *)
Definition arguments_text (name : string) : string :=
  if bool_decide (name = "derivative") || bool_decide (name = "non_negative_derivative")
  then "at least 1 but no more than 2"
  else if bool_decide (name = "percentile") then "2"
  else if bool_decide (name = "top") || bool_decide (name = "bottom") then "at least 2"
  else "1".
Definition SelectError_Error (e : SelectError) : string :=
  match e with
  | ErrNonTimeField => "at least 1 non-time field must be queried"
  | ErrOnlyTimeCalls => "only time() calls allowed in dimensions"
  | ErrTimeOneArgument => "time dimension expected one argument"
  | ErrTimeDuration => "time dimension must have one duration argument"
  | ErrMultipleTime => "multiple time dimensions not allowed"
  | ErrTimeFunction => "time() is a function and expects at least one argument"
  | ErrDimensionKind => "only time and tag dimensions allowed"
  | ErrDistinctCombined => "aggregate function distinct() can not be combined with other functions or fields"
  | ErrDistinctNoArgument => "distinct function requires at least one argument"
  | ErrDistinctArguments => "distinct function can only have one argument"
  | ErrCountDistinct => "count(distinct <field>) can only have one argument"
  | ErrMixedSelectors => "mixing multiple selector functions with tags or fields is not supported"
  | ErrMixedAggregates => "mixing aggregate and non-aggregate queries is not supported"
  | ErrArguments name got =>
      "invalid number of arguments for " +:+ name +:+ ", expected " +:+ arguments_text name +:+ ", got " +:+ Sprintf_d (Z.of_nat got)
  | ErrInnerAggregate name => "aggregate function required inside the call to " +:+ name
  | ErrPercentile => "expected float argument in percentile()"
  | ErrTopInteger name found => "expected integer as last argument in " +:+ name +:+ "(), found " +:+ Expr_String found
  | ErrTopLimit name call limit =>
      "limit (" +:+ Sprintf_d call +:+ ") in " +:+ name +:+ " function can not be larger than the LIMIT (" +:+
      Sprintf_d limit +:+ ") in the select statement"
  | ErrTopFields name found => "only fields or tags are allowed in " +:+ name +:+ "(), found " +:+ Expr_String found
  | ErrFieldArgument name => "expected field argument in " +:+ name +:+ "()"
  | ErrGroupByAggregate => "GROUP BY requires at least one aggregate function"
  | ErrGroupByTimeCondition => "aggregate functions with GROUP BY time require a WHERE time clause"
  | ErrDerivativeFields => "derivative cannot be used with other fields"
  | ErrDerivativeField => "derivative requires a field argument"
  | ErrDerivativeDuration => "derivative requires a duration argument"
  end.

Definition Privilege_String (p : Z) : string :=
  if p =? NoPrivileges then "NO PRIVILEGES" else if p =? ReadPrivilege then "READ"
  else if p =? WritePrivilege then "WRITE" else if p =? AllPrivileges then "ALL PRIVILEGES" else EmptyString.

Definition flag_text (b : bool) (text : string) : string := if b then text else EmptyString.
Definition module_text (m : string) : string := if bool_decide (m = EmptyString) then EmptyString else "FOR " +:+ m.

(** Names are written without quotes in most statements. *)
Definition CreateDatabase_String (name : string) (e : bool) : string :=
  "CREATE DATABASE " +:+ flag_text e "IF NOT EXISTS " +:+ name.
Definition DropDatabase_String (name : string) (e : bool) : string :=
  "DROP DATABASE " +:+ flag_text e "IF EXISTS " +:+ name.
Definition DropRetentionPolicy_String (name : string) (db : string) : string :=
  "DROP RETENTION POLICY " +:+ name +:+ " ON " +:+ db.
Definition CreateUser_String (name : string) (admin : bool) : string :=
  "CREATE USER " +:+ name +:+ " WITH PASSWORD " +:+ "[REDACTED]" +:+ flag_text admin " WITH ALL PRIVILEGES".
Definition DropUser_String (name : string) : string :=
  "DROP USER " +:+ name.
Definition Grant_String (p : Z) (on : string) (user : string) : string :=
  "GRANT " +:+ Privilege_String p +:+ " ON " +:+ on +:+ " TO " +:+ user.
Definition GrantAdmin_String (user : string) : string :=
  "GRANT ALL PRIVILEGES TO " +:+ user.
Definition SetPasswordUser_String (name : string) : string :=
  "SET PASSWORD FOR " +:+ name +:+ " = " +:+ "[REDACTED]".
Definition Revoke_String (p : Z) (on : string) (user : string) : string :=
  "REVOKE " +:+ Privilege_String p +:+ " ON " +:+ on +:+ " FROM " +:+ user.
Definition RevokeAdmin_String (user : string) : string :=
  "REVOKE ALL PRIVILEGES FROM " +:+ user.
Definition CreateRetentionPolicy_String (name : string) (db : string) (d : Duration) (n : Z) (def : bool) : string :=
  "CREATE RETENTION POLICY " +:+ name +:+ " ON " +:+ db +:+ " DURATION " +:+ FormatDuration d +:+
  " REPLICATION " +:+ Sprintf_d n +:+ flag_text def " DEFAULT".
Definition AlterRetentionPolicy_String (name : string) (db : string) (d : option Duration) (n : option Z) (def : bool) : string :=
  "ALTER RETENTION POLICY " +:+ name +:+ " ON " +:+ db +:+
  match d with Some d => " DURATION " +:+ FormatDuration d | None => EmptyString end +:+
  match n with Some n => " REPLICATION " +:+ Sprintf_d n | None => EmptyString end +:+ flag_text def " DEFAULT".
Definition Delete_String (source : Source) (cond : option Expr) : string :=
  "DELETE " +:+ Source_String source +:+ where_text cond.
Definition ShowSeries_String (sources : list Source) (cond : option Expr) (sort : list (string * bool)) (limit : Z) (offset : Z) : string :=
  "SHOW SERIES" +:+ from_text sources +:+ where_text cond +:+ order_text sort +:+
  number_text " LIMIT " limit +:+ number_text " OFFSET " offset.
Definition DropSeries_String (sources : list Source) (cond : option Expr) : string :=
  "DROP SERIES" +:+ from_text sources +:+ where_text cond.
Definition DropServer_String (id : Z) (force : bool) : string :=
  "DROP SERVER " +:+ decimal id +:+ flag_text force " FORCE".
Definition ShowContinuousQueries_String : string :=
  "SHOW CONTINUOUS QUERIES".
Definition ShowGrantsForUser_String (name : string) : string :=
  "SHOW GRANTS FOR " +:+ name.
Definition ShowServers_String : string :=
  "SHOW SERVERS".
Definition ShowDatabases_String : string :=
  "SHOW DATABASES".
Definition CreateContinuousQuery_String (name : string) (db : string) (source : SelectStatement) : string :=
  "CREATE CONTINUOUS QUERY " +:+ QuoteIdent [name] +:+ " ON " +:+ QuoteIdent [db] +:+ " BEGIN " +:+
  Select_String source +:+ " END".
Definition DropContinuousQuery_String (name : string) : string :=
  "DROP CONTINUOUS QUERY " +:+ name.
Definition ShowMeasurements_String (cond : option Expr) (sort : list (string * bool)) (limit : Z) (offset : Z) : string :=
  "SHOW MEASUREMENTS" +:+ where_text cond +:+ order_text sort +:+
  number_text " LIMIT " limit +:+ number_text " OFFSET " offset.
Definition DropMeasurement_String (name : string) : string :=
  "DROP MEASUREMENT " +:+ name.
Definition ShowRetentionPolicies_String (db : string) : string :=
  "SHOW RETENTION POLICIES " +:+ db.
Definition ShowStats_String (m : string) : string :=
  "SHOW STATS " +:+ module_text m.
Definition ShowShards_String : string :=
  "SHOW SHARDS".
Definition ShowDiagnostics_String (m : string) : string :=
  "SHOW DIAGNOSTICS " +:+ module_text m.
Definition CreateSubscription_String (name : string) (db : string) (rp : string) (dests : list string) (mode : string) : string :=
  "CREATE SUBSCRIPTION " +:+ in_quotes name +:+ " ON " +:+ in_quotes db +:+ "." +:+ in_quotes rp +:+
  " DESTINATIONS " +:+ mode +:+ " " +:+
  strings_Join ((λ d, String squote (d +:+ String squote EmptyString)) <$> dests) ", " +:+ " ".
Definition DropSubscription_String (name : string) (db : string) (rp : string) : string :=
  "DROP SUBSCRIPTION " +:+ in_quotes name +:+ " ON " +:+ in_quotes db +:+ "." +:+ in_quotes rp.
Definition ShowSubscriptions_String : string :=
  "SHOW SUBSCRIPTIONS".
Definition ShowTagKeys_String (sources : list Source) (cond : option Expr) (sort : list (string * bool)) (limit : Z) (offset : Z) (slimit : Z) (soffset : Z) : string :=
  "SHOW TAG KEYS" +:+ from_text sources +:+ where_text cond +:+ order_text sort +:+
  number_text " LIMIT " limit +:+ number_text " OFFSET " offset +:+
  number_text " SLIMIT " slimit +:+ number_text " SOFFSET " soffset.
Definition ShowTagValues_String (sources : list Source) (cond : option Expr) (sort : list (string * bool)) (limit : Z) (offset : Z) : string :=
  "SHOW TAG VALUES" +:+ from_text sources +:+ where_text cond +:+ order_text sort +:+
  number_text " LIMIT " limit +:+ number_text " OFFSET " offset.
Definition ShowUsers_String : string :=
  "SHOW USERS".
Definition ShowFieldKeys_String (sources : list Source) (sort : list (string * bool)) (limit : Z) (offset : Z) : string :=
  "SHOW FIELD KEYS" +:+ from_text sources +:+ order_text sort +:+
  number_text " LIMIT " limit +:+ number_text " OFFSET " offset.

Definition Statement_String (stmt : Statement) : string :=
  match stmt with
  | CreateDatabaseStatement name e => CreateDatabase_String name e
  | DropDatabaseStatement name e => DropDatabase_String name e
  | DropRetentionPolicyStatement name db => DropRetentionPolicy_String name db
  | CreateUserStatement name _ admin => CreateUser_String name admin
  | DropUserStatement name => DropUser_String name
  | GrantStatement p on user => Grant_String p on user
  | GrantAdminStatement user => GrantAdmin_String user
  | SetPasswordUserStatement _ name => SetPasswordUser_String name
  | RevokeStatement p on user => Revoke_String p on user
  | RevokeAdminStatement user => RevokeAdmin_String user
  | CreateRetentionPolicyStatement name db d n def => CreateRetentionPolicy_String name db d n def
  | AlterRetentionPolicyStatement name db d n def => AlterRetentionPolicy_String name db d n def
  | SelectStmt s => Select_String s
  | DeleteStatement source cond => Delete_String source cond
  | ShowSeriesStatement sources cond sort limit offset => ShowSeries_String sources cond sort limit offset
  | DropSeriesStatement sources cond => DropSeries_String sources cond
  | DropServerStatement id force => DropServer_String id force
  | ShowContinuousQueriesStatement => ShowContinuousQueries_String
  | ShowGrantsForUserStatement name => ShowGrantsForUser_String name
  | ShowServersStatement => ShowServers_String
  | ShowDatabasesStatement => ShowDatabases_String
  | CreateContinuousQueryStatement name db source => CreateContinuousQuery_String name db source
  | DropContinuousQueryStatement name _ => DropContinuousQuery_String name
  | ShowMeasurementsStatement _ cond sort limit offset => ShowMeasurements_String cond sort limit offset
  | DropMeasurementStatement name => DropMeasurement_String name
  | ShowRetentionPoliciesStatement db => ShowRetentionPolicies_String db
  | ShowStatsStatement m => ShowStats_String m
  | ShowShardsStatement => ShowShards_String
  | ShowDiagnosticsStatement m => ShowDiagnostics_String m
  | CreateSubscriptionStatement name db rp dests mode => CreateSubscription_String name db rp dests mode
  | DropSubscriptionStatement name db rp => DropSubscription_String name db rp
  | ShowSubscriptionsStatement => ShowSubscriptions_String
  | ShowTagKeysStatement sources cond sort limit offset slimit soffset => ShowTagKeys_String sources cond sort limit offset slimit soffset
  | ShowTagValuesStatement sources _ cond sort limit offset => ShowTagValues_String sources cond sort limit offset
  | ShowUsersStatement => ShowUsers_String
  | ShowFieldKeysStatement sources sort limit offset => ShowFieldKeys_String sources sort limit offset
  end.

Definition Query_String (q : Query) : string := strings_Join (Statement_String <$> q) (String ";"%char (String newline EmptyString)).
End text.
