(* ===== verification/QlParse.v ===== *)
(** * The parser of InfluxQL: [influxql/parser.go]

    The parser reads tokens from the buffer of the scanner, up to three of which
    it can put back.  Every method of [Parser] is a computation over that buffer
    which gives a value or an error.  Recursion and loops take fuel. *)

From stdpp Require Import base list strings.
From Stdlib Require Import ZArith Ascii Lia SpecFloat.
From S2P Require Import Prelude MetaData QlToken Escape QlExpr QlSelect QlPrint QlReader QlScan QlScanSpec QlScanProps.
From S2P Require Import QlDuration QlNumber QlStmt.

Local Open Scope Z_scope.

(** ** Errors *)

Record ParseError := mkParseError {
  Message : string;
  Found : string;
  Expected : list string;
  ErrPos : Pos
}.
Definition newParseError (found : string) (expected : list string) (pos : Pos) : ParseError :=
  mkParseError EmptyString found expected pos.

(** What a method of the parser returns as its error.  [OutOfFuel] is not the
    code's: it says that a loop of the model was cut off. *)
Inductive parse_err :=
| OutOfFuel
| PError (e : ParseError)
| SError (e : SelectError)
| OError (text : string).

Definition line_text (pos : Pos) : string :=
  " at line " +:+ Sprintf_d (Line pos + 1) +:+ ", char " +:+ Sprintf_d (Char pos + 1).
Definition ParseError_Error (e : ParseError) : string :=
  if bool_decide (Message e = EmptyString) then
    "found " +:+ Found e +:+ ", expected " +:+ strings_Join (Expected e) ", " +:+ line_text (ErrPos e)
  else Message e +:+ line_text (ErrPos e).

Definition parseM : Type → Type := ST bufScanner parse_err.

Definition expected {A} (t : Scanned) (texts : list string) : parseM A :=
  st_fail (PError (newParseError (tokstr t.1.1 t.2) texts t.1.2)).
Definition message {A} (text : string) (pos : Pos) : parseM A :=
  st_fail (PError (mkParseError text EmptyString [] pos)).

(** The scanner has no errors but for the fuel. *)
Definition of_scanner {A} (m : ST bufScanner unit A) : parseM A := λ s,
  match m s with
  | (s, Ok a) => (s, Ok a)
  | (s, Err _) => (s, Err OutOfFuel)
  | (s, Panic) => (s, Panic)
  end.

Section parser.
Context {goText : GoText}.
(** The fuel of every scan and of every loop over a list. *)
Context (F : nat).

(** ** Tokens *)

Definition scan : parseM Scanned := of_scanner (bufScanner_Scan F).
Definition unscan : parseM unit := of_scanner bufScanner_Unscan.

Definition scanIgnoreWhitespace : parseM Scanned :=
  t ← scan;
  if bool_decide (t.1.1 = WS) then scan else mret t.
Definition consumeWhitespace : parseM unit :=
  t ← scan;
  if bool_decide (t.1.1 = WS) then mret tt else unscan.

(** The next rune behind the tokens that were scanned already. *)
Definition peekRune : parseM rune := λ s,
  match (t ← reader_read; if t.1 =? eof then mret t.1 else reader_unread;; mret t.1) (bs_s s) with
  | (r, Ok ch) => (mkBufScanner r (bs_ring s), Ok ch)
  | (r, Err _) => (mkBufScanner r (bs_ring s), Err OutOfFuel)
  | (r, Panic) => (mkBufScanner r (bs_ring s), Panic)
  end.

(** A token that has to come next. *)
Definition expect (tok : Token) (texts : list string) : parseM unit :=
  t ← scanIgnoreWhitespace;
  if bool_decide (t.1.1 = tok) then mret tt else expected t texts.

Fixpoint parseTokens (toks : list Token) : parseM unit :=
  match toks with
  | [] => mret tt
  | tok :: toks => expect tok [Token_String tok];; parseTokens toks
  end.

(** A token that may come next: whether it does.  Another one is put back. *)
Definition optional (tok : Token) : parseM bool :=
  t ← scanIgnoreWhitespace;
  if bool_decide (t.1.1 = tok) then mret true else unscan;; mret false.

(** ** Literals *)

Definition contains_dot (s : string) : bool := existsb (λ c, bool_decide (c = "."%char)) (String.list_ascii_of_string s).

Definition parseInt (min max : Z) : parseM Z :=
  t ← scanIgnoreWhitespace;
  if negb (bool_decide (t.1.1 = NUMBER)) then expected t ["number"]
  else if contains_dot t.2 then message "number must be an integer" t.1.2
  else
    match Atoi t.2 with
    | None => message (error_Error "strconv.Atoi" t.2) t.1.2
    | Some n =>
        if (n <? min) || (max <? n) then
          message ("invalid value " +:+ Sprintf_d n +:+ ": must be " +:+ Sprintf_d min +:+ " <= n <= " +:+ Sprintf_d max) t.1.2
        else mret n
    end.

Definition parseUInt (bits : Z) : parseM Z :=
  t ← scanIgnoreWhitespace;
  if negb (bool_decide (t.1.1 = NUMBER)) then expected t ["number"]
  else match ParseUint bits t.2 with
       | None => message (error_Error "strconv.ParseUint" t.2) t.1.2
       | Some n => mret n
       end.
Definition parseUInt32 : parseM Z := parseUInt 32.
Definition parseUInt64 : parseM Z := parseUInt 64.

Definition parseDuration : parseM Duration :=
  t ← scanIgnoreWhitespace;
  match t.1.1 with
  | INF => mret 0
  | DURATION_VAL =>
      match ParseDuration t.2 with
      | None => message "invalid duration" t.1.2
      | Some d => mret d
      end
  | _ => expected t ["duration"]
  end.

Definition parseIdent : parseM string :=
  t ← scanIgnoreWhitespace;
  if bool_decide (t.1.1 = IDENT) then mret t.2 else expected t ["identifier"].
Definition parseString : parseM string :=
  t ← scanIgnoreWhitespace;
  if bool_decide (t.1.1 = STRING) then mret t.2 else expected t ["string"].

(** Items with commas between them; the token after the last one is put back.
    [next] is [scan] or [scanIgnoreWhitespace]. *)
Fixpoint comma_list {A} (fuel : nat) (next : parseM Scanned) (item : parseM A) : parseM (list A) :=
  match fuel with
  | O => st_fail OutOfFuel
  | S fuel =>
      x ← item;
      t ← next;
      if bool_decide (t.1.1 = COMMA) then rest ← comma_list fuel next item; mret (x :: rest)
      else unscan;; mret [x]
  end.

Definition parseIdentList : parseM (list string) := comma_list F scanIgnoreWhitespace parseIdent.
Definition parseStringList : parseM (list string) := comma_list F scanIgnoreWhitespace parseString.

(** The segments after the first one: a full stop before a slash or a colon is
    consumed and left to the caller. *)
Fixpoint segments_loop (fuel : nat) (idents : list string) : parseM (list string) :=
  match fuel with
  | O => st_fail OutOfFuel
  | S fuel =>
      t ← scan;
      if negb (bool_decide (t.1.1 = DOT)) then unscan;; mret idents
      else
        ch ← peekRune;
        if (ch =? rn "/") || (ch =? rn ":") then mret idents
        else if ch =? dot then segments_loop fuel (idents ++ [EmptyString])
        else ident ← parseIdent; segments_loop fuel (idents ++ [ident])
  end.
Definition parseSegmentedIdents : parseM (list string) :=
  ident ← parseIdent;
  idents ← segments_loop F [ident];
  if (3 <? length idents)%nat then message ("too many segments in " +:+ QuoteIdent idents) (mkPos 0 0)
  else mret idents.

Definition parsePrivilege : parseM Z :=
  t ← scanIgnoreWhitespace;
  match t.1.1 with
  | READ => mret ReadPrivilege
  | WRITE => mret WritePrivilege
  | ALL => optional PRIVILEGES;; mret AllPrivileges
  | _ => expected t ["READ"; "WRITE"; "ALL [PRIVILEGES]"]
  end.

(** ** Expressions *)

(** [^\d{4}-\d{2}-\d{2}], and what follows it. *)
Definition date_prefix (s : string) : option (list ascii) :=
  match String.list_ascii_of_string s with
  | y1 :: y2 :: y3 :: y4 :: s1 :: m1 :: m2 :: s2 :: d1 :: d2 :: rest =>
      if forallb (λ c, isDigit (rn c)) [y1; y2; y3; y4; m1; m2; d1; d2] &&
         bool_decide (s1 = "-"%char) && bool_decide (s2 = "-"%char) then Some rest else None
  | _ => None
  end.
Definition isDateString (s : string) : bool :=
  match date_prefix s with Some [] => true | _ => false end.
Definition isDateTimeString (s : string) : bool :=
  match date_prefix s with Some (c :: _) => negb (bool_decide (c = newline)) | _ => false end.

Definition DateFormat : string := "2006-01-02".
Definition DateTimeFormat : string := "2006-01-02 15:04:05.999999".
Definition RFC3339Nano : string := "2006-01-02T15:04:05.999999999Z07:00".

Definition parseRegex : parseM (option string) :=
  ch ← peekRune;
  (if isWhitespace ch then consumeWhitespace else mret tt);;
  ch ← peekRune;
  if negb (ch =? rn "/") then mret None
  else
    t ← of_scanner (bufScanner_ScanRegex F);
    match t.1.1 with
    | BADESCAPE => message ("bad escape: " +:+ t.2) t.1.2
    | BADREGEX => message ("bad regex: " +:+ t.2) t.1.2
    | REGEX =>
        if regexp_Compile t.2 then mret (Some t.2)
        else message (error_Error "regexp.Compile" t.2) t.1.2
    | _ => expected t ["regex"]
    end.

Definition parseVarRef : parseM Expr :=
  segments ← parseSegmentedIdents;
  mret (VarRef (strings_Join segments ".")).

(** The string literals that are times. *)
Definition string_literal (t : Scanned) : parseM Expr :=
  if isDateTimeString t.2 then
    match time_Parse DateTimeFormat t.2 with
    | Some v => mret (TimeLiteral v)
    | None =>
        match time_Parse RFC3339Nano t.2 with
        | Some v => mret (TimeLiteral v)
        | None => message "unable to parse datetime" t.1.2
        end
    end
  else if isDateString t.2 then
    match time_Parse DateFormat t.2 with
    | Some v => mret (TimeLiteral v)
    | None => message "unable to parse date" t.1.2
    end
  else mret (StringLiteral t.2).

Section nested.
(** [ParseExpr], for the expressions inside of this one. *)
Context (parse : parseM Expr).

Definition parseCall (name : string) : parseM Expr :=
  let name := strings_ToLower name in
  t ← scan;
  if bool_decide (t.1.1 = RPAREN) then mret (Call name [])
  else
    unscan;;
    args ← comma_list F scan parse;
    t ← scan;
    if bool_decide (t.1.1 = RPAREN) then mret (Call name args) else expected t [")"].

Definition parse_distinct : parseM Expr :=
  t0 ← scan;
  match t0.1.1 with
  | LPAREN => parseCall "distinct"
  | WS =>
      t1 ← scanIgnoreWhitespace;
      if bool_decide (t1.1.1 = IDENT) then mret (Distinct t1.2) else expected t1 ["identifier"]
  | _ => expected t0 ["("; "identifier"]
  end.

(** What starts with the token [t], which is no parenthesis. *)
Definition parse_unary_token (t : Scanned) : parseM Expr :=
  match t.1.1 with
  | IDENT =>
      t0 ← scan;
      if bool_decide (t0.1.1 = LPAREN) then parseCall t.2
      else unscan;; unscan;; parseVarRef
  | DISTINCT => parse_distinct
  | STRING => string_literal t
  | NUMBER =>
      match ParseFloat t.2 with
      | Some v => mret (NumberLiteral v)
      | None => message "unable to parse number" t.1.2
      end
  | TRUE => mret (BooleanLiteral true)
  | FALSE => mret (BooleanLiteral false)
  | DURATION_VAL => mret (DurationLiteral (default 0 (ParseDuration t.2)))
  | MUL => mret Wildcard
  | REGEX =>
      if regexp_Compile t.2 then mret (RegexLiteral t.2)
      else message (error_Error "regexp.Compile" t.2) t.1.2
  | _ => expected t ["identifier"; "string"; "number"; "bool"]
  end.

Definition parseUnaryExpr : parseM Expr :=
  t ← scanIgnoreWhitespace;
  if bool_decide (t.1.1 = LPAREN) then
    e ← parse;
    expect RPAREN [")"];;
    mret (ParenExpr e)
  else
    unscan;;
    t ← scanIgnoreWhitespace;
    parse_unary_token t.

(** The right side of an operator. *)
Definition operand (op : Token) : parseM Expr :=
  if IsRegexOp op then
    consumeWhitespace;;
    re ← parseRegex;
    match re with
    | Some re => mret (RegexLiteral re)
    | None => t ← scanIgnoreWhitespace; expected t ["regex"]
    end
  else parseUnaryExpr.
End nested.

(** The descent along the right sides of the tree: the new operator takes the
    place of the first node that binds at least as strongly, or of the leaf. *)
Fixpoint insert_op (op : Token) (rhs root : Expr) : Expr :=
  match root with
  | BinaryExpr op' l r =>
      if Token_Precedence op <=? Token_Precedence op' then BinaryExpr op root rhs
      else BinaryExpr op' l (insert_op op rhs r)
  | e => BinaryExpr op e rhs
  end.

Fixpoint operators (parse : parseM Expr) (fuel : nat) (root : Expr) : parseM Expr :=
  match fuel with
  | O => st_fail OutOfFuel
  | S fuel =>
      t ← scanIgnoreWhitespace;
      if negb (Token_isOperator t.1.1) then unscan;; mret root
      else
        rhs ← operand parse t.1.1;
        operators parse fuel (insert_op t.1.1 rhs root)
  end.

(** [n] bounds the nesting of the expression. *)
Fixpoint ParseExpr_at (n : nat) : parseM Expr :=
  match n with
  | O => st_fail OutOfFuel
  | S n =>
      root ← parseUnaryExpr (ParseExpr_at n);
      operators (ParseExpr_at n) F root
  end.
Definition ParseExpr : parseM Expr := ParseExpr_at F.
End parser.
