(* ===== verification/QlParseSpec.v ===== *)
(** * The parser's view of its input

    What the methods that the parser is built from do to the buffer of tokens and
    to the text behind it: [scan], [unscan], [peekRune] and the scan of a regular
    expression. *)

From stdpp Require Import base list strings sets.
From Stdlib Require Import ZArith Ascii Lia SpecFloat Wf_nat.
From S2P Require Import Prelude MetaData QlToken Escape QlExpr QlSelect QlPrint QlReader QlScan QlScanSpec QlScanProps.
From S2P Require Import QlDuration QlNumber QlStmt QlParse.

Local Open Scope Z_scope.

(** ** Regular expressions on lists *)

Definition slash : rune := rn "/".

(** The text up to a slash that no backslash stands before; a backslash before a
    slash is dropped. *)
Fixpoint lex_delimited (acc l : list rune) : Token * list rune * list rune :=
  match l with
  | [] => (BADREGEX, [], [])
  | c :: l =>
      if c =? slash then (REGEX, acc, l)
      else if c =? rn newline then (BADREGEX, [], l)
      else if c =? rn backslash then
        match l with
        | [] => (BADREGEX, [], [])
        | c1 :: l' => if c1 =? slash then lex_delimited (acc ++ [slash]) l' else lex_delimited (acc ++ [c]) l
        end
      else lex_delimited (acc ++ [c]) l
  end.
Definition lex_regex (l : list rune) : Token * list rune * list rune :=
  match l with
  | c :: l => if c =? slash then lex_delimited [] l else (BADREGEX, [], l)
  | [] => (BADREGEX, [], [])
  end.

Lemma lex_delimited_suffix acc l : ∃ a, l = a ++ (lex_delimited acc l).2.
Proof.
  revert acc. induction l as [l IH] using (induction_ltof1 _ (@length rune)). unfold ltof in IH.
  intros acc. destruct l as [|c l]; [by exists []|].
  assert (Hc : ∀ acc, ∃ a, c :: l = a ++ (lex_delimited acc l).2).
  { intros acc'. destruct (IH l ltac:(simpl; lia) acc') as [a Ha]. exists (c :: a). simpl. by rewrite <- Ha. }
  cbn [lex_delimited]. destruct (c =? slash); [by exists [c]|]. destruct (c =? rn newline); [by exists [c]|].
  destruct (c =? rn backslash); [|apply Hc]. destruct l as [|c1 l]; [by exists [c]|].
  destruct (c1 =? slash); [|apply Hc]. destruct (IH l ltac:(simpl; lia) (acc ++ [slash])) as [a Ha]. exists (c :: c1 :: a). simpl. by rewrite <- Ha.
Qed.

Lemma lex_regex_shrinks l : peek l = slash → (length (lex_regex l).2 < length l)%nat ∧ ∃ a, l = a ++ (lex_regex l).2.
Proof.
  destruct l as [|c l]; [done|]. simpl. intros ->. rewrite Z.eqb_refl. destruct (lex_delimited_suffix [] l) as [a Ha].
  split; [|exists (slash :: a); simpl; by rewrite <- Ha]. apply (f_equal length) in Ha. rewrite length_app in Ha. lia.
Qed.

(** ** The scan of a regular expression *)

Definition regex_escapes : list (rune * rune) := [(rn "/", rn "/")].

Lemma find_escape c : list_find (λ e : rune * rune, e.1 = c) regex_escapes =
  if c =? slash then Some (O, (slash, slash)) else None.
Proof.
  unfold regex_escapes. cbn [list_find]. unfold slash. destruct (decide _) as [H|H]; simpl in H.
  - subst c. by rewrite Z.eqb_refl.
  - by rewrite (proj2 (Z.eqb_neq c (rn "/"))) by congruence.
Qed.

#[local] Opaque regex_escapes.

(** The token that the scanner makes of an error. *)
Definition regex_token (err : option ScanError) : Token :=
  match err with None => REGEX | Some errBadEscape => BADESCAPE | Some _ => BADREGEX end.

Lemma ScanDelimited_loop_runs acc l r n b fuel :
  rep r n b l → (n ≤ 2)%nat → no_nul l → (length l < fuel)%nat →
  ∃ lit err, runs (ScanDelimited_loop fuel slash regex_escapes true acc) r (lit, err) (lex_delimited acc l).2 ∧
    (lex_delimited acc l).1.1 = regex_token err ∧ (err = None → lit = (lex_delimited acc l).1.2) ∧ err ≠ Some errBadEscape ∧
    (err ≠ None → (lex_delimited acc l).1.2 = []).
Proof.
  revert acc l r n b. induction fuel as [|fuel IH]; intros acc l r n b Hr Hn Hl Hf; [lia|]. cbn [ScanDelimited_loop].
  destruct (read_unread _ _ _ _ Hr Hn Hl) as (pos & r1 & r2 & b1 & E1 & H1 & _ & _).
  assert (Hstep : ∀ A (k : rune * Pos → scanM A) a rest, runs (k (peek l, pos)) r1 a rest → runs (reader_read ≫= k) r a rest)
    by (intros; eapply runs_step; [exact E1|done]).
  destruct l as [|c l]; simpl in *.
  { exists acc, (Some errOther). split; [|done]. apply Hstep. cbv beta iota. simpl. eapply runs_ret; [eassumption|lia]. }
  pose proof (no_nul_cons _ _ Hl) as [Hc%Z.eqb_neq Hl']. destruct (c =? slash) eqn:Es.
  { exists acc, None. split; [|done]. apply Hstep. cbv beta iota. rewrite Es. eapply runs_ret; [eassumption|lia]. }
  destruct (c =? rn newline) eqn:En.
  { exists [], (Some errOther). split; [|done]. apply Hstep. cbv beta iota. rewrite Es, Hc, En. eapply runs_ret; [eassumption|lia]. }
  destruct (c =? rn backslash) eqn:Eb.
  - destruct (read_unread _ _ _ _ H1 ltac:(lia) Hl') as (pos2 & r3 & r4 & b3 & E3 & H3 & E4 & H4).
    destruct l as [|c1 l]; simpl in *.
    { exists [], (Some errOther). split; [|done]. apply Hstep. cbv beta iota. rewrite Es, Hc, En, Eb.
      eapply runs_step; [exact E3|]. simpl. eapply runs_ret; [eassumption|lia]. }
    pose proof (no_nul_cons _ _ Hl') as [Hc1%Z.eqb_neq Hl2]. destruct (c1 =? slash) eqn:E5.
    + destruct (IH (acc ++ [slash]) l r3 _ _ H3 ltac:(lia) Hl2 ltac:(lia)) as (lit & err & Hrun & ?).
      exists lit, err. split; [|done]. apply Hstep. cbv beta iota. rewrite Es, Hc, En, Eb.
      eapply runs_step; [exact E3|]. cbv beta iota. rewrite Hc1, find_escape, E5. done.
    + destruct (IH (acc ++ [c]) (c1 :: l) r4 _ _ H4 ltac:(lia) Hl' ltac:(simpl; lia)) as (lit & err & Hrun & Hres).
      cbn [lex_delimited] in Hrun, Hres. rewrite E5 in Hrun, Hres. exists lit, err. split; [|done]. apply Hstep. cbv beta iota. rewrite Es, Hc, En, Eb.
      eapply runs_step; [exact E3|]. cbv beta iota. rewrite Hc1, find_escape, E5. eapply runs_step; [exact E4|]. done.
  - destruct (IH (acc ++ [c]) l r1 _ _ H1 ltac:(lia) Hl' ltac:(lia)) as (lit & err & Hrun & ?).
    exists lit, err. split; [|done]. apply Hstep. cbv beta iota. by rewrite Es, Hc, En, Eb.
Qed.

Lemma ScanRegex_scans l r n b fuel :
  rep r n b l → (n ≤ 2)%nat → no_nul l → (length l < fuel)%nat → peek l = slash →
  scans (ScanRegex fuel) r (lex_regex l).
Proof.
  intros Hr Hn Hl Hf Hs. destruct l as [|c l]; [done|]. simpl in Hs. subst c. change (lex_regex (slash :: l)) with (lex_delimited [] l).
  destruct (rep_curr_any _ _ _ _ Hr Hn) as (c & pos & Ec).
  destruct (read_unread _ _ _ _ Hr Hn Hl) as (pos1 & r1 & _ & b1 & E1 & H1 & _ & _).
  pose proof (no_nul_cons _ _ Hl) as [_ Hl']. simpl in *.
  destruct (ScanDelimited_loop_runs [] l r1 _ _ fuel H1 ltac:(lia) Hl' ltac:(lia)) as (lit & err & Hrun & Ht & Hlit & Hne & Hnil).
  exists pos. unfold ScanRegex. eapply runs_step; [exact Ec|]. cbv beta iota.
  eapply runs_bind.
  { unfold ScanDelimited. eapply runs_step; [exact E1|]. simpl. exact Hrun. }
  intros r' k b0 Hr' Hk. cbv beta iota. destruct (lex_delimited [] l) as [[tok lt] rest]. simpl in *.
  destruct err as [[]|]; simpl in *; try done; subst tok; try rewrite (Hnil ltac:(done)); try rewrite (Hlit eq_refl);
    (eapply runs_ret; eassumption).
Qed.

(** ** The buffer of tokens *)

(** [pend] was put back, [back] was scanned before it, the last one first, and
    [l] is the text that was not scanned yet. *)
Definition at_ (s : bufScanner) (pend back : list Scanned) (l : list rune) : Prop :=
  ring_rep (bs_ring s) pend back ∧ no_nul l ∧ ∃ k b, rep (bs_s s) k b l ∧ (k ≤ 2)%nat.

Lemma at_new text : no_nul text →
  at_ (newBufScanner text) [] (replicate 3 (ILLEGAL, mkPos 0 0, EmptyString)) (normal text).
Proof.
  intros H. split; [apply ring_new_rep|]. split; [by apply normal_no_nul|]. eexists _, _. split; [apply rep_new|lia].
Qed.
Lemma at_length s pend back l : at_ s pend back l → (length pend + length back = 3)%nat.
Proof. intros [H _]. by eapply ring_rep_length. Qed.

Lemma scanFunc_pending scan s t pend back l :
  at_ s (t :: pend) back l → ∃ s', of_scanner (bufScanner_scanFunc scan) s = (s', Ok t) ∧ at_ s' pend (t :: back) l.
Proof.
  intros (Hr & Hl & Hk). pose proof (ring_pop_rep _ _ _ _ Hr) as Hp.
  exists (mkBufScanner (bs_s s) (ring_pop (bs_ring s))). split; [|done].
  unfold of_scanner, bufScanner_scanFunc. destruct Hr as (Hn & _). rewrite (proj2 (Z.ltb_lt 0 (ring_n (bs_ring s)))).
  - unfold bufScanner_curr. simpl. by rewrite (ring_curr_rep _ _ _ _ Hp).
  - rewrite Hn. simpl. lia.
Qed.

Lemma scanFunc_text scan s back l tok lit rest :
  at_ s [] back l → scans scan (bs_s s) (tok, lit, rest) → (∃ a, l = a ++ rest) →
  ∃ pos s', of_scanner (bufScanner_scanFunc scan) s = (s', Ok (tok, pos, utf8 lit)) ∧
    at_ s' [] ((tok, pos, utf8 lit) :: take 2 back) rest.
Proof.
  intros (Hr & Hl & Hk) (pos & r & n & b & E & Hrep & Hn) Hsuf. exists pos. simpl in *.
  pose proof (ring_push_rep _ (tok, pos, utf8 lit) _ Hr) as Hp.
  exists (mkBufScanner r (ring_push (tok, pos, utf8 lit) (bs_ring s))). split.
  - unfold of_scanner, bufScanner_scanFunc. pose proof (proj1 Hr) as ->. simpl. rewrite E.
    unfold bufScanner_curr. simpl. by rewrite (ring_curr_rep _ _ _ _ Hp).
  - split; [exact Hp|]. split; [by eapply no_nul_suffix|]. eauto.
Qed.

Lemma unscan_at s t pend back l : at_ s pend (t :: back) l → ∃ s', unscan s = (s', Ok tt) ∧ at_ s' (t :: pend) back l.
Proof.
  intros (Hr & Hl & Hk). eexists. split; [reflexivity|]. split; [|done]. by apply ring_unread_rep.
Qed.

Lemma peekRune_at s pend back l : at_ s pend back l → ∃ s', peekRune s = (s', Ok (peek l)) ∧ at_ s' pend back l.
Proof.
  intros (Hr & Hl & k & b & Hk & Hle). destruct (read_unread _ _ _ _ Hk Hle Hl) as (pos & r1 & r2 & b1 & E1 & H1 & E2 & H2).
  unfold peekRune. rewrite (st_bind_ok _ _ _ _ _ E1). cbn [fst].
  destruct (Z.eqb_spec (peek l) eof) as [He|Hne].
  - eexists. split; [reflexivity|]. split; [done|]. split; [done|]. apply peek_eof in He as ->; [|done]. simpl in *.
    eexists _, _. split; [exact H1|lia].
  - rewrite (st_bind_ok _ _ _ _ _ E2). eexists. split; [reflexivity|]. split; [done|]. split; [done|].
    eexists _, _. split; [exact H2|lia].
Qed.

Section scanning.
Context (F : nat).

Lemma scan_pending s t pend back l :
  at_ s (t :: pend) back l → ∃ s', scan F s = (s', Ok t) ∧ at_ s' pend (t :: back) l.
Proof. apply scanFunc_pending. Qed.

Lemma scan_text s back l : at_ s [] back l → (length l + 1 < F)%nat →
  ∃ pos s', scan F s = (s', Ok ((lex l).1.1, pos, utf8 (lex l).1.2)) ∧
    at_ s' [] (((lex l).1.1, pos, utf8 (lex l).1.2) :: take 2 back) (lex l).2.
Proof.
  intros H Hf. pose proof H as (_ & Hl & k & b & Hk & Hle).
  apply (scanFunc_text _ _ _ l _ _ _ H); [|apply lex_rest].
  pose proof (Scan_scans l _ _ _ F Hk Hle Hl Hf) as Hs. by destruct (lex l) as [[] ?].
Qed.

Lemma scanRegex_pending s t pend back l :
  at_ s (t :: pend) back l → ∃ s', of_scanner (bufScanner_ScanRegex F) s = (s', Ok t) ∧ at_ s' pend (t :: back) l.
Proof. apply scanFunc_pending. Qed.

Lemma scanRegex_text s back l : at_ s [] back l → (length l < F)%nat → peek l = slash →
  ∃ pos s', of_scanner (bufScanner_ScanRegex F) s = (s', Ok ((lex_regex l).1.1, pos, utf8 (lex_regex l).1.2)) ∧
    at_ s' [] (((lex_regex l).1.1, pos, utf8 (lex_regex l).1.2) :: take 2 back) (lex_regex l).2.
Proof.
  intros H Hf Hp. pose proof H as (_ & Hl & k & b & Hk & Hle).
  apply (scanFunc_text _ _ _ l _ _ _ H); [|by apply lex_regex_shrinks].
  pose proof (ScanRegex_scans l _ _ _ F Hk Hle Hl Hf Hp) as Hs. by destruct (lex_regex l) as [[] ?].
Qed.
End scanning.
