(* ===== verification/QlParseStmt.v ===== *)
(** * The statements of the parser: [influxql/parser.go]

    The clauses of statements, the parser of every statement, [ParseStatement]
    and [ParseQuery]. *)

From stdpp Require Import base list strings.
From Stdlib Require Import ZArith Ascii Lia SpecFloat.
From S2P Require Import Prelude MetaData QlToken Escape QlExpr QlSelect QlPrint QlReader QlScan QlScanSpec QlScanProps.
From S2P Require Import QlUtf8 QlDuration QlNumber QlStmt QlParse.

Local Open Scope Z_scope.

Section parser.
Context {goText : GoText}.
Context (F : nat).

Local Abbreviation scan := (scan F).
Local Abbreviation scanIgnoreWhitespace := (scanIgnoreWhitespace F).
Local Abbreviation expect := (expect F).
Local Abbreviation optional := (optional F).
Local Abbreviation parseTokens := (parseTokens F).
Local Abbreviation parseIdent := (parseIdent F).
Local Abbreviation parseString := (parseString F).
Local Abbreviation parseSegmentedIdents := (parseSegmentedIdents F).

(** ** Fields *)

(** [validateField] on every node of an expression: the last operator found that
    gives a boolean.  Nothing is looked at below such an operator. *)
Definition is_boolean_op (op : Token) : bool :=
  match op with
  | EQ | NEQ | EQREGEX | NEQREGEX | LT | LTE | GT | GTE | AND | OR => true
  | _ => false
  end.
Fixpoint validateField (bad : option Token) (e : Expr) : option Token :=
  match e with
  | BinaryExpr op l r => if is_boolean_op op then Some op else validateField (validateField bad l) r
  | Call _ args => foldl validateField bad args
  | ParenExpr e => validateField bad e
  | _ => bad
  end.

Definition parseAlias : parseM string :=
  b ← optional AS;
  if b : bool then parseIdent else mret EmptyString.

Definition parseField : parseM Field :=
  t ← scanIgnoreWhitespace;
  unscan;;
  e ← ParseExpr F;
  match validateField None e with
  | Some op =>
      st_fail (OError ("invalid operator " +:+ Token_String op +:+ " in SELECT clause" +:+ line_text t.1.2 +:+
        "; operator is intended for WHERE clause"))
  | None =>
      alias ← parseAlias;
      consumeWhitespace F;;
      mret (mkField e alias)
  end.
Definition parseFields : parseM (list Field) := comma_list F scan parseField.

(** ** Sources and targets *)

Definition parseSource : parseM Source :=
  re ← parseRegex F;
  match re with
  | Some re => mret (mkSource EmptyString EmptyString EmptyString (Some re))
  | None =>
      idents ← parseSegmentedIdents;
      match idents with
      | [db; rp; name] => mret (mkSource db rp name None)
      | _ =>
          re ← parseRegex F;
          mret match idents, re with
               | [rp], Some re => mkSource EmptyString rp EmptyString (Some re)
               | [name], None => mkSource EmptyString EmptyString name None
               | [db; rp], Some re => mkSource db rp EmptyString (Some re)
               | [rp; name], None => mkSource EmptyString rp name None
               | _, re => mkSource EmptyString EmptyString EmptyString re
               end
      end
  end.
Definition parseSources : parseM (list Source) := comma_list F scanIgnoreWhitespace parseSource.

Definition parseTarget (required : bool) : parseM (option Source) :=
  t ← scanIgnoreWhitespace;
  if negb (bool_decide (t.1.1 = INTO)) then
    if required then expected t ["INTO"] else unscan;; mret None
  else
    idents ← parseSegmentedIdents;
    ch ← (if (length idents <? 3)%nat then peekRune else mret 0);
    idents ← (if ch =? rn ":" then parseTokens [COLON; MEASUREMENT];; mret (idents ++ [EmptyString]) else mret idents);
    mret (Some match idents with
               | [name] => mkSource EmptyString EmptyString name None
               | [rp; name] => mkSource EmptyString rp name None
               | [db; rp; name] => mkSource db rp name None
               | _ => mkSource EmptyString EmptyString EmptyString None
               end).

(** ** Clauses *)

Definition parseCondition : parseM (option Expr) :=
  b ← optional WHERE;
  if b : bool then e ← ParseExpr F; mret (Some e) else mret None.

Definition parseDimension : parseM Expr :=
  e ← ParseExpr F;
  consumeWhitespace F;;
  mret e.
Definition parseDimensions : parseM (list Expr) :=
  b ← optional GROUP;
  if b : bool then expect BY ["BY"];; comma_list F scan parseDimension else mret [].

(** The expression is parsed whatever it is; when it is no [fill] call, one
    token is put back. *)
Definition parseFill : parseM (FillOption * GoValue) :=
  r ← st_try (ParseExpr F);
  match r with
  | inl (Call name args) =>
      if negb (bool_decide (strings_ToLower name = "fill")) then unscan;; mret (NullFill, VNil)
      else
        match args with
        | [arg] =>
            if bool_decide (Expr_String arg = "null") then mret (NullFill, VNil)
            else if bool_decide (Expr_String arg = "none") then mret (NoFill, VNil)
            else if bool_decide (Expr_String arg = "previous") then mret (PreviousFill, VNil)
            else match arg with
                 | NumberLiteral f => mret (NumberFill, VFloat f)
                 | _ => st_fail (OError "expected number argument in fill()")
                 end
        | _ => st_fail (OError "fill requires an argument, e.g.: 0, null, none, previous")
        end
  | inr OutOfFuel => st_fail OutOfFuel
  | _ => unscan;; mret (NullFill, VNil)
  end.

(** A number out of range is taken as the nearest bound. *)
Definition parseOptionalTokenAndInt (tok : Token) : parseM Z :=
  b ← optional tok;
  if b : bool then
    t ← scanIgnoreWhitespace;
    if negb (bool_decide (t.1.1 = NUMBER)) then expected t ["number"]
    else if contains_dot t.2 then message ("fractional parts not allowed in " +:+ Token_String tok) t.1.2
    else if ParseInt_value t.2 <? 0 then message (Token_String tok +:+ " must be >= 0") t.1.2
    else mret (ParseInt_value t.2)
  else mret 0.

Definition parseSortField : parseM (string * bool) :=
  name ← parseIdent;
  t ← scanIgnoreWhitespace;
  match t.1.1 with
  | ASC => mret (name, true)
  | DESC => mret (name, false)
  | _ => unscan;; mret (name, true)
  end.

Definition only_time {A} : parseM A := st_fail (OError "only ORDER BY time supported at this time").

Fixpoint more_sort_fields (fuel : nat) (fields : list (string * bool)) : parseM (list (string * bool)) :=
  match fuel with
  | O => st_fail OutOfFuel
  | S fuel =>
      b ← optional COMMA;
      if b : bool then f ← parseSortField; more_sort_fields fuel (fields ++ [f]) else mret fields
  end.
Definition parseSortFields : parseM (list (string * bool)) :=
  t ← scanIgnoreWhitespace;
  first ← match t.1.1 with
          | ASC => mret (EmptyString, true)
          | DESC => mret (EmptyString, false)
          | IDENT =>
              unscan;;
              f ← parseSortField;
              if bool_decide (t.2 = "time") then mret f else only_time
          | _ => expected t ["identifier"; "ASC"; "DESC"]
          end;
  fields ← more_sort_fields F [first];
  if (1 <? length fields)%nat then only_time else mret fields.
Definition parseOrderBy : parseM (list (string * bool)) :=
  b ← optional ORDER;
  if b : bool then expect BY ["BY"];; parseSortFields else mret [].

(** The [FROM] clause where it may be missing. *)
Definition optional_sources : parseM (list Source) :=
  b ← optional FROM;
  if b : bool then parseSources else mret [].

Definition parseTagKeys : parseM (list string) :=
  parseTokens [WITH; KEY];;
  t ← scanIgnoreWhitespace;
  match t.1.1 with
  | IN =>
      expect LPAREN ["("];;
      keys ← parseIdentList F;
      expect RPAREN ["("];;
      mret keys
  | EQ => ident ← parseIdent; mret [ident]
  | _ => expected t ["IN"; "="]
  end.

(** ** Select statements *)

Definition is_Call (e : Expr) : bool := match e with Call _ _ => true | _ => false end.
Definition raw_query (fs : list Field) : bool := forallb (λ f, negb (existsb is_Call (walk (Field_Expr f)))) fs.

Definition validated (s : SelectStatement) (targetRequired : bool) : parseM SelectStatement :=
  match validate s targetRequired with
  | (s, Ok _) => mret s
  | (_, Err e) => st_fail (SError e)
  | (_, Panic) => st_panic
  end.

Definition parseSelectStatement (targetRequired : bool) : parseM SelectStatement :=
  fields ← parseFields;
  target ← parseTarget targetRequired;
  expect FROM ["FROM"];;
  sources ← parseSources;
  cond ← parseCondition;
  dims ← parseDimensions;
  fill ← parseFill;
  sort ← parseOrderBy;
  limit ← parseOptionalTokenAndInt LIMIT;
  offset ← parseOptionalTokenAndInt OFFSET;
  slimit ← parseOptionalTokenAndInt SLIMIT;
  soffset ← parseOptionalTokenAndInt SOFFSET;
  validated (mkSelect fields target dims sources cond sort limit offset slimit soffset 0 (raw_query fields) fill.1 fill.2)
    targetRequired.

(** ** The other statements *)

Definition parseSetPasswordUserStatement : parseM Statement :=
  parseTokens [PASSWORD; FOR];;
  name ← parseIdent;
  expect EQ ["="];;
  password ← parseString;
  mret (SetPasswordUserStatement password name).

(** [scan] is used for the full stop: there is no space before it. *)
Definition expect_dot : parseM unit :=
  t ← scan;
  if bool_decide (t.1.1 = DOT) then mret tt else expected t ["."].

Definition parseCreateSubscriptionStatement : parseM Statement :=
  name ← parseIdent;
  expect ON ["ON"];;
  db ← parseIdent;
  expect_dot;;
  rp ← parseIdent;
  expect DESTINATIONS ["DESTINATIONS"];;
  t ← scanIgnoreWhitespace;
  mode ← (if bool_decide (t.1.1 = ALL) || bool_decide (t.1.1 = ANY) then mret (Token_String t.1.1)
          else expected t ["ALL"; "ANY"]);
  destinations ← parseStringList F;
  mret (CreateSubscriptionStatement name db rp destinations mode).

(** An option at the end of a statement: anything else but the end of the
    statement is an error, and the end is consumed. *)
Definition last_option (tok : Token) (text : string) : parseM bool :=
  t ← scanIgnoreWhitespace;
  if bool_decide (t.1.1 = tok) then mret true
  else if bool_decide (t.1.1 = EOF) || bool_decide (t.1.1 = SEMICOLON) then mret false
  else expected t [text].

Definition MaxInt32 : Z := 2 ^ 31 - 1.

Definition parseCreateRetentionPolicyStatement : parseM Statement :=
  name ← parseIdent;
  expect ON ["ON"];;
  db ← parseIdent;
  expect DURATION ["DURATION"];;
  d ← parseDuration F;
  expect REPLICATION ["REPLICATION"];;
  n ← parseInt F 1 MaxInt32;
  def ← last_option DEFAULT "DEFAULT";
  mret (CreateRetentionPolicyStatement name db d n def).

(** At most three options; the first one is required. *)
Fixpoint alter_options (k : nat) (first : bool) (d : option Duration) (n : option Z) (def : bool)
    : parseM (option Duration * option Z * bool) :=
  match k with
  | O => mret (d, n, def)
  | S k =>
      t ← scanIgnoreWhitespace;
      match t.1.1 with
      | DURATION => d ← parseDuration F; alter_options k false (Some d) n def
      | REPLICATION => n ← parseInt F 1 MaxInt32; alter_options k false d (Some n) def
      | DEFAULT => alter_options k false d n true
      | _ =>
          if first then expected t ["DURATION"; "RETENTION"; "DEFAULT"]
          else unscan;; mret (d, n, def)
      end
  end.
Definition parseAlterRetentionPolicyStatement : parseM Statement :=
  t ← scanIgnoreWhitespace;
  name ← match t.1.1 with
         | DEFAULT => mret "default"
         | IDENT => mret t.2
         | _ => expected t ["identifier"]
         end;
  expect ON ["ON"];;
  db ← parseIdent;
  '(d, n, def) ← alter_options 3 true None None false;
  mret (AlterRetentionPolicyStatement name db d n def).

Definition parseRevokeOnStatement (priv : Z) : parseM Statement :=
  db ← parseIdent;
  expect FROM ["FROM"];;
  user ← parseIdent;
  mret (RevokeStatement priv db user).
Definition parseRevokeAdminStatement : parseM Statement :=
  user ← parseIdent;
  mret (RevokeAdminStatement user).
Definition parseRevokeStatement : parseM Statement :=
  priv ← parsePrivilege F;
  t ← scanIgnoreWhitespace;
  match t.1.1 with
  | ON => parseRevokeOnStatement priv
  | FROM => if priv =? AllPrivileges then parseRevokeAdminStatement else expected t ["ON"]
  | _ => expected t (if priv =? AllPrivileges then ["ON"; "FROM"] else ["ON"])
  end.

Definition parseGrantOnStatement (priv : Z) : parseM Statement :=
  db ← parseIdent;
  expect TO ["TO"];;
  user ← parseIdent;
  mret (GrantStatement priv db user).
Definition parseGrantAdminStatement : parseM Statement :=
  user ← parseIdent;
  mret (GrantAdminStatement user).
Definition parseGrantStatement : parseM Statement :=
  priv ← parsePrivilege F;
  t ← scanIgnoreWhitespace;
  match t.1.1 with
  | ON => parseGrantOnStatement priv
  | TO => if priv =? AllPrivileges then parseGrantAdminStatement else expected t ["ON"]
  | _ => expected t (if priv =? AllPrivileges then ["ON"; "TO"] else ["ON"])
  end.

Definition parseDeleteStatement : parseM Statement :=
  expect FROM ["FROM"];;
  source ← parseSource;
  cond ← parseCondition;
  mret (DeleteStatement source cond).

Definition parseShowSeriesStatement : parseM Statement :=
  sources ← optional_sources;
  cond ← parseCondition;
  sort ← parseOrderBy;
  limit ← parseOptionalTokenAndInt LIMIT;
  offset ← parseOptionalTokenAndInt OFFSET;
  mret (ShowSeriesStatement sources cond sort limit offset).

Definition with_measurement : parseM (option Source) :=
  b ← optional WITH;
  if b : bool then
    parseTokens [MEASUREMENT];;
    t ← scanIgnoreWhitespace;
    match t.1.1 with
    | EQ | EQREGEX => s ← parseSource; mret (Some s)
    | _ => expected t ["="; "=~"]
    end
  else mret None.
Definition parseShowMeasurementsStatement : parseM Statement :=
  source ← with_measurement;
  cond ← parseCondition;
  sort ← parseOrderBy;
  limit ← parseOptionalTokenAndInt LIMIT;
  offset ← parseOptionalTokenAndInt OFFSET;
  mret (ShowMeasurementsStatement source cond sort limit offset).

Definition parseShowRetentionPoliciesStatement : parseM Statement :=
  expect ON ["ON"];;
  db ← parseIdent;
  mret (ShowRetentionPoliciesStatement db).

Definition parseShowTagKeysStatement : parseM Statement :=
  sources ← optional_sources;
  cond ← parseCondition;
  sort ← parseOrderBy;
  limit ← parseOptionalTokenAndInt LIMIT;
  offset ← parseOptionalTokenAndInt OFFSET;
  slimit ← parseOptionalTokenAndInt SLIMIT;
  soffset ← parseOptionalTokenAndInt SOFFSET;
  mret (ShowTagKeysStatement sources cond sort limit offset slimit soffset).

Definition parseShowTagValuesStatement : parseM Statement :=
  sources ← optional_sources;
  keys ← parseTagKeys;
  cond ← parseCondition;
  sort ← parseOrderBy;
  limit ← parseOptionalTokenAndInt LIMIT;
  offset ← parseOptionalTokenAndInt OFFSET;
  mret (ShowTagValuesStatement sources keys cond sort limit offset).

Definition parseShowFieldKeysStatement : parseM Statement :=
  sources ← optional_sources;
  sort ← parseOrderBy;
  limit ← parseOptionalTokenAndInt LIMIT;
  offset ← parseOptionalTokenAndInt OFFSET;
  mret (ShowFieldKeysStatement sources sort limit offset).

Definition parseDropMeasurementStatement : parseM Statement :=
  name ← parseIdent;
  mret (DropMeasurementStatement name).

Definition parseDropSeriesStatement : parseM Statement :=
  t ← scanIgnoreWhitespace;
  sources ← (if bool_decide (t.1.1 = FROM) then parseSources else unscan;; mret []);
  cond ← parseCondition;
  match cond, sources with
  | None, [] => expected t ["FROM"; "WHERE"]
  | _, _ => mret (DropSeriesStatement sources cond)
  end.

Definition parseDropServerStatement : parseM Statement :=
  id ← parseUInt64 F;
  force ← last_option FORCE "FORCE";
  mret (DropServerStatement id force).

Definition parseShowContinuousQueriesStatement : parseM Statement :=
  expect QUERIES ["QUERIES"];;
  mret ShowContinuousQueriesStatement.

Definition parseGrantsForUserStatement : parseM Statement :=
  expect FOR ["FOR"];;
  name ← parseIdent;
  mret (ShowGrantsForUserStatement name).

(** An aggregated continuous query needs an interval; the token that the error
    names is found by putting back two tokens. *)
Definition require_interval (source : SelectStatement) : parseM SelectStatement :=
  if IsRawQuery source then mret source
  else
    let '(source, d) := GroupByInterval source in
    let missing texts := unscan;; unscan;; t ← scanIgnoreWhitespace; expected t ("GROUP BY time(...)" :: texts) in
    match d with
    | Ok d => if d =? 0 then missing [] else mret source
    | Err e => missing [SelectError_Error e]
    | Panic => st_panic
    end.
Definition parseCreateContinuousQueryStatement : parseM Statement :=
  expect QUERY ["QUERY"];;
  name ← parseIdent;
  expect ON ["ON"];;
  db ← parseIdent;
  parseTokens [BEGIN; SELECT];;
  source ← parseSelectStatement true;
  source ← require_interval source;
  expect END ["END"];;
  mret (CreateContinuousQueryStatement name db source).

Definition parseCreateDatabaseStatement : parseM Statement :=
  b ← optional IF;
  (if b : bool then parseTokens [NOT; EXISTS] else mret tt);;
  name ← parseIdent;
  mret (CreateDatabaseStatement name b).
Definition parseDropDatabaseStatement : parseM Statement :=
  b ← optional IF;
  (if b : bool then parseTokens [EXISTS] else mret tt);;
  name ← parseIdent;
  mret (DropDatabaseStatement name b).

Definition parseDropSubscriptionStatement : parseM Statement :=
  name ← parseIdent;
  expect ON ["ON"];;
  db ← parseIdent;
  expect_dot;;
  rp ← parseIdent;
  mret (DropSubscriptionStatement name db rp).

Definition parseDropRetentionPolicyStatement : parseM Statement :=
  name ← parseIdent;
  expect ON ["ON"];;
  db ← parseIdent;
  mret (DropRetentionPolicyStatement name db).

Definition parseCreateUserStatement : parseM Statement :=
  name ← parseIdent;
  parseTokens [WITH; PASSWORD];;
  password ← parseString;
  b ← optional WITH;
  (if b : bool then parseTokens [ALL; PRIVILEGES] else mret tt);;
  mret (CreateUserStatement name password b).

Definition parseDropUserStatement : parseM Statement :=
  name ← parseIdent;
  mret (DropUserStatement name).

(** [parseRetentionPolicy] is called by no other method. *)
Definition parseRetentionPolicy : parseM (string * bool) :=
  t ← scanIgnoreWhitespace;
  let dfault := bool_decide (t.1.1 = DEFAULT) in
  t ← (if dfault then scanIgnoreWhitespace else mret t);
  (if bool_decide (t.1.1 = RETENTION) then mret tt else expected t ["RETENTION"]);;
  expect POLICY ["POLICY"];;
  name ← parseIdent;
  mret (name, dfault).

Definition for_module : parseM string :=
  b ← optional FOR;
  if b : bool then parseString else mret EmptyString.
Definition parseShowStatsStatement : parseM Statement :=
  m ← for_module;
  mret (ShowStatsStatement m).
Definition parseShowDiagnosticsStatement : parseM Statement :=
  m ← for_module;
  mret (ShowDiagnosticsStatement m).

Definition parseDropContinuousQueryStatement : parseM Statement :=
  expect QUERY ["QUERY"];;
  name ← parseIdent;
  expect ON ["ON"];;
  db ← parseIdent;
  mret (DropContinuousQueryStatement name db).

(** ** By the first tokens *)

Definition showQueryKeywords : list string :=
  ["CONTINUOUS"; "DATABASES"; "DIAGNOSTICS"; "FIELD"; "GRANTS"; "MEASUREMENTS"; "RETENTION"; "SERIES";
   "SERVERS"; "SHARDS"; "STATS"; "SUBSCRIPTIONS"; "TAG"; "USERS"].

Definition parseShowStatement : parseM Statement :=
  t ← scanIgnoreWhitespace;
  match t.1.1 with
  | CONTINUOUS => parseShowContinuousQueriesStatement
  | GRANTS => parseGrantsForUserStatement
  | DATABASES => mret ShowDatabasesStatement
  | SERVERS => mret ShowServersStatement
  | FIELD => expect KEYS ["KEYS"; "VALUES"];; parseShowFieldKeysStatement
  | MEASUREMENTS => parseShowMeasurementsStatement
  | RETENTION => expect POLICIES ["POLICIES"];; parseShowRetentionPoliciesStatement
  | SERIES => parseShowSeriesStatement
  | SHARDS => mret ShowShardsStatement
  | STATS => parseShowStatsStatement
  | DIAGNOSTICS => parseShowDiagnosticsStatement
  | TAG =>
      t ← scanIgnoreWhitespace;
      match t.1.1 with
      | KEYS => parseShowTagKeysStatement
      | VALUES => parseShowTagValuesStatement
      | _ => expected t ["KEYS"; "VALUES"]
      end
  | USERS => mret ShowUsersStatement
  | SUBSCRIPTIONS => mret ShowSubscriptionsStatement
  | _ => expected t showQueryKeywords
  end.

Definition parseCreateStatement : parseM Statement :=
  t ← scanIgnoreWhitespace;
  match t.1.1 with
  | CONTINUOUS => parseCreateContinuousQueryStatement
  | DATABASE => parseCreateDatabaseStatement
  | USER => parseCreateUserStatement
  | RETENTION => expect POLICY ["POLICY"];; parseCreateRetentionPolicyStatement
  | SUBSCRIPTION => parseCreateSubscriptionStatement
  | _ => expected t ["CONTINUOUS"; "DATABASE"; "USER"; "RETENTION"; "SUBSCRIPTION"]
  end.

Definition parseDropStatement : parseM Statement :=
  t ← scanIgnoreWhitespace;
  match t.1.1 with
  | SERIES => parseDropSeriesStatement
  | MEASUREMENT => parseDropMeasurementStatement
  | CONTINUOUS => parseDropContinuousQueryStatement
  | DATABASE => parseDropDatabaseStatement
  | RETENTION => expect POLICY ["POLICY"];; parseDropRetentionPolicyStatement
  | USER => parseDropUserStatement
  | SERVER => parseDropServerStatement
  | SUBSCRIPTION => parseDropSubscriptionStatement
  | _ => expected t ["SERIES"; "CONTINUOUS"; "MEASUREMENT"; "SERVER"; "SUBSCRIPTION"]
  end.

Definition parseAlterStatement : parseM Statement :=
  t ← scanIgnoreWhitespace;
  match t.1.1 with
  | RETENTION => expect POLICY ["POLICY"];; parseAlterRetentionPolicyStatement
  | _ => expected t ["RETENTION"]
  end.

Definition ParseStatement : parseM Statement :=
  t ← scanIgnoreWhitespace;
  match t.1.1 with
  | SELECT => s ← parseSelectStatement false; mret (SelectStmt s)
  | DELETE => parseDeleteStatement
  | SHOW => parseShowStatement
  | CREATE => parseCreateStatement
  | DROP => parseDropStatement
  | GRANT => parseGrantStatement
  | REVOKE => parseRevokeStatement
  | ALTER => parseAlterStatement
  | SET => parseSetPasswordUserStatement
  | _ => expected t ["SELECT"; "DELETE"; "SHOW"; "CREATE"; "DROP"; "GRANT"; "REVOKE"; "ALTER"; "SET"]
  end.

(** One semicolon is skipped before each statement. *)
Fixpoint ParseQuery_loop (fuel : nat) (semi : bool) (statements : list Statement) : parseM Query :=
  match fuel with
  | O => st_fail OutOfFuel
  | S fuel =>
      t ← scanIgnoreWhitespace;
      if bool_decide (t.1.1 = EOF) then mret statements
      else if negb semi && bool_decide (t.1.1 = SEMICOLON) then ParseQuery_loop fuel true statements
      else
        unscan;;
        s ← ParseStatement;
        ParseQuery_loop fuel false (statements ++ [s])
  end.
Definition ParseQuery : parseM Query := ParseQuery_loop F false [].
End parser.

(** The functions of the package, on a string.  More fuel than the string has
    characters is enough. *)
Section text.
Context {goText : GoText}.
Definition NewParser (s : string) : bufScanner := newBufScanner (runes s).
Definition enough (s : string) : nat := S (S (length (runes s))).
Definition ParseExpr_text (s : string) : outcome parse_err Expr := (ParseExpr (enough s) (NewParser s)).2.
Definition ParseStatement_text (s : string) : outcome parse_err Statement := (ParseStatement (enough s) (NewParser s)).2.
Definition ParseQuery_text (s : string) : outcome parse_err Query := (ParseQuery (enough s) (NewParser s)).2.
(** [panic(err.Error())] on an error. *)
Definition MustParseStatement (s : string) : outcome parse_err Statement :=
  match ParseStatement_text s with Err _ => Panic | r => r end.
End text.
