(* ===== verification/QlParseSafe.v ===== *)
(** * The parser ends: [influxql/parser.go]

    A calculus for the methods of the parser.  Every token that is scanned
    uses up the text, tokens that are put back count again, and at most two are
    put back at a time.  So loops and recursion end, the fuel is enough, and the
    circular buffer of tokens is never read out of range. *)

From stdpp Require Import base list strings sets.
From Stdlib Require Import ZArith Ascii Lia SpecFloat.
From S2P Require Import Prelude MetaData QlToken Escape QlExpr QlSelect QlPrint QlReader QlScan QlScanSpec QlScanProps.
From S2P Require Import QlDuration QlNumber QlStmt QlParse QlParseSpec QlParseStmt.

Local Open Scope nat_scope.

(** ** Runs *)

Definition wp {A} (m : parseM A) (Q : A → bufScanner → Prop) (E : bufScanner → Prop) (s : bufScanner) : Prop :=
  match m s with
  | (s', Ok a) => Q a s'
  | (s', Err e) => e ≠ OutOfFuel ∧ E s'
  | (_, Panic) => False
  end.

Lemma wp_bind {A B} (m : parseM A) (k : A → parseM B) Q E s :
  wp m (λ a s', wp (k a) Q E s') E s → wp (m ≫= k) Q E s.
Proof. unfold wp, mbind, ST_bind. by destruct (m s) as [s' []]. Qed.
Lemma wp_mono {A} (m : parseM A) (Q Q' : A → bufScanner → Prop) (E E' : bufScanner → Prop) s :
  wp m Q E s → (∀ a s', Q a s' → Q' a s') → (∀ s', E s' → E' s') → wp m Q' E' s.
Proof. unfold wp. destruct (m s) as [s' []]; naive_solver. Qed.
Lemma wp_ok {A} (m : parseM A) Q E s s' a : m s = (s', Ok a) → Q a s' → wp m Q E s.
Proof. unfold wp. by intros ->. Qed.

(** ** What is left to read *)

Definition weight (t : Scanned) : nat := if bool_decide (t.1.1 = EOF) then 0 else 1.
Definition size (pend : list Scanned) (l : list rune) : nat := sum_list_with weight pend + length l.

(** At most [k] tokens are put back and at most [m] is left. *)
Definition St (k m : nat) (s : bufScanner) : Prop :=
  ∃ pend back l, at_ s pend back l ∧ length pend ≤ k ∧ size pend l ≤ m.
(** The same, and the token [t] can be put back. *)
Definition Sc (k m : nat) (t : Scanned) (s : bufScanner) : Prop :=
  ∃ pend back l, at_ s pend (t :: back) l ∧ length pend ≤ k ∧ weight t + size pend l ≤ m.

Lemma weight_1 t : t.1.1 ≠ EOF → weight t = 1.
Proof. intros H. unfold weight. by rewrite bool_decide_false. Qed.
Lemma weight_le t : weight t ≤ 1.
Proof. unfold weight. case_bool_decide; lia. Qed.

Lemma St_mono k k' m m' s : St k m s → k ≤ k' → m ≤ m' → St k' m' s.
Proof. intros (pend & back & l & H & Hk & Hm) ??. exists pend, back, l. split_and!; [done|lia..]. Qed.
Lemma Sc_mono k k' m m' t s : Sc k m t s → k ≤ k' → m ≤ m' → Sc k' m' t s.
Proof. intros (pend & back & l & H & Hk & Hm) ??. exists pend, back, l. split_and!; [done|lia..]. Qed.
Lemma Sc_St k m t s : Sc k m t s → weight t ≤ m ∧ St k (m - weight t) s.
Proof. intros (pend & back & l & H & Hk & Hm). split; [lia|]. exists pend, (t :: back), l. split_and!; [done|lia..]. Qed.
Lemma St_Sc k m s : St k m s → k ≤ 2 → ∃ t, Sc k (S m) t s.
Proof.
  intros (pend & back & l & H & Hk & Hm) Hle. pose proof (at_length _ _ _ _ H). destruct back as [|t back]; [simpl in *; lia|].
  exists t, pend, back, l. pose proof (weight_le t). split_and!; [done|lia..].
Qed.
Lemma St_unscan k m s : St k m s → k ≤ 2 → ∃ s', unscan s = (s', Ok tt) ∧ St (S k) (S m) s'.
Proof.
  intros Hs Hle. destruct (St_Sc _ _ _ Hs Hle) as (t & pend & back & l & H & Hk & Hm). destruct (unscan_at _ _ _ _ _ H) as (s' & E & H').
  exists s'. split; [done|]. exists (t :: pend), back, l. unfold size in *. simpl. split_and!; [done|lia..].
Qed.
Lemma Sc_unscan k m t s : Sc k m t s → ∃ s', unscan s = (s', Ok tt) ∧ St (S k) m s'.
Proof.
  intros (pend & back & l & H & Hk & Hm). destruct (unscan_at _ _ _ _ _ H) as (s' & E & H').
  exists s'. split; [done|]. exists (t :: pend), back, l. unfold size in *. simpl. split_and!; [done|lia..].
Qed.
Lemma St_peek k m s : St k m s → ∃ ch s', peekRune s = (s', Ok ch) ∧ St k m s'.
Proof.
  intros (pend & back & l & H & Hk & Hm). destruct (peekRune_at _ _ _ _ H) as (s' & E & H').
  exists (peek l), s'. split; [done|]. by exists pend, back, l.
Qed.

Section safe.
Context {goText : GoText} (F : nat).

Lemma lex_weight l pos lit : weight ((lex l).1.1, pos, lit) + length (lex l).2 ≤ length l.
Proof.
  destruct l as [|c l]; [done|]. destruct (lex_shrinks c l) as (a & Ha & Hne). apply (f_equal length) in Ha.
  rewrite length_app in Ha. destruct a as [|x a]; [done|]. pose proof (weight_le ((lex (c :: l)).1.1, pos, lit)).
  cbn [length] in *. lia.
Qed.

Lemma St_scan k m s : St k m s → m + 1 < F → ∃ t s', scan F s = (s', Ok t) ∧ Sc (pred k) m t s'.
Proof.
  intros (pend & back & l & H & Hk & Hm) Hf. unfold size in Hm. destruct pend as [|t pend].
  - simpl in Hm. destruct (scan_text F s back l H ltac:(lia)) as (pos & s' & E & H'). eexists _, s'. split; [exact E|].
    eexists [], _, _. split; [exact H'|]. split; [simpl; lia|]. pose proof (lex_weight l pos (utf8 (lex l).1.2)). unfold size. simpl. lia.
  - destruct (scan_pending F s t pend back l H) as (s' & E & H'). exists t, s'. split; [done|].
    exists pend, back, l. unfold size. simpl in *. split_and!; [done|lia..].
Qed.

Lemma St_ignore k m s : St k m s → m + 1 < F → ∃ t s', scanIgnoreWhitespace F s = (s', Ok t) ∧ Sc (pred k) m t s'.
Proof.
  intros H Hf. destruct (St_scan _ _ _ H Hf) as (t & s1 & E1 & H1). unfold scanIgnoreWhitespace.
  rewrite (st_bind_ok _ _ _ _ _ E1). case_bool_decide; [|by eexists _, _].
  apply Sc_St in H1 as [Hw H1]. destruct (St_scan _ _ _ H1 ltac:(lia)) as (t2 & s2 & E2 & H2).
  exists t2, s2. split; [done|]. eapply Sc_mono; [exact H2|lia..].
Qed.

(** ** Triples *)

(** With [strict], the last token can be put back after an error, and then at
    most [e] is left. *)
Definition Er (strict : bool) (e : nat) (s : bufScanner) : Prop := if strict then ∃ t, Sc 1 e t s else True.

(** From at most [k] tokens put back and at most [m] left to at most [k'], with
    [c a] less left when the result is [a]. *)
Definition safe {A} (strict : bool) (e m : nat) (p : parseM A) (k k' : nat) (c : A → nat) : Prop :=
  ∀ s, St k m s → wp p (λ a s', c a ≤ m ∧ St k' (m - c a) s') (Er strict e) s.
(** The same just after the token [t] was scanned. *)
Definition after {A} (strict : bool) (e m : nat) (t : Scanned) (p : parseM A) (k k' : nat) (c : A → nat) : Prop :=
  ∀ s, Sc k m t s → wp p (λ a s', c a ≤ m ∧ St k' (m - c a) s') (Er strict e) s.

Lemma Er_Sc b e k m t s : Sc k m t s → k ≤ 1 → m ≤ e → Er b e s.
Proof. destruct b; [|done]. intros H ??. exists t. by eapply Sc_mono. Qed.

Lemma safe_ret {A} b e m (a : A) k k' c : k ≤ k' → c a = 0 → safe b e m (mret a) k k' c.
Proof. intros Hk Hc s H. unfold wp. simpl. rewrite Hc. split; [lia|]. eapply St_mono; [exact H|lia..]. Qed.
Lemma safe_fail {A} b e m err k k' (c : A → nat) : k ≤ 1 → m < e → err ≠ OutOfFuel → safe b e m (st_fail err) k k' c.
Proof.
  intros Hk Hm He s H. split; [done|]. destruct (St_Sc _ _ _ H ltac:(lia)) as [t Ht]. eapply Er_Sc; [exact Ht|lia..].
Qed.
Lemma safe_bind {A B} b e m (p : parseM A) (q : A → parseM B) k k1 k' c1 c :
  safe b e m p k k1 c1 → (∀ a, c1 a ≤ m → safe b e (m - c1 a) (q a) k1 k' (λ x, c x - c1 a)) → safe b e m (p ≫= q) k k' c.
Proof.
  intros Hp Hq s H. apply wp_bind. eapply wp_mono; [by apply Hp| |done]. intros a s1 [Hm H1].
  eapply wp_mono; [by apply (Hq a)| |done].
  intros x s2 [Hm2 H2]. split; [lia|]. eapply St_mono; [exact H2|lia..].
Qed.
Lemma safe_mono {A} b e m (p : parseM A) k1 k2 k1' k2' c c' :
  safe b e m p k1 k2 c → k1' ≤ k1 → k2 ≤ k2' → (∀ a, c' a ≤ c a) → safe b e m p k1' k2' c'.
Proof.
  intros Hp H1 H2 Hc s H. eapply wp_mono; [apply Hp; by eapply St_mono| |done]. simpl. intros a s' [Hm H'].
  specialize (Hc a). split; [lia|]. eapply St_mono; [exact H'|lia..].
Qed.
Lemma safe_lax {A} e e' m (p : parseM A) k k' c : safe true e m p k k' c → safe false e' m p k k' c.
Proof. intros Hp s H. eapply wp_mono; [by apply Hp|done|done]. Qed.

Lemma safe_scan {A} b e m (q : Scanned → parseM A) k k' c :
  m + 1 < F → (∀ t, after b e m t (q t) (pred k) k' c) → safe b e m (scan F ≫= q) k k' c.
Proof.
  intros Hf Hq s H. destruct (St_scan _ _ _ H Hf) as (t & s' & E & H').
  apply wp_bind. eapply wp_ok; [exact E|]. by apply Hq.
Qed.
Lemma safe_ignore {A} b e m (q : Scanned → parseM A) k k' c :
  m + 1 < F → (∀ t, after b e m t (q t) (pred k) k' c) → safe b e m (scanIgnoreWhitespace F ≫= q) k k' c.
Proof.
  intros Hf Hq s H. destruct (St_ignore _ _ _ H Hf) as (t & s' & E & H').
  apply wp_bind. eapply wp_ok; [exact E|]. by apply Hq.
Qed.
Lemma safe_peek {A} b e m (q : rune → parseM A) k k' c :
  (∀ ch, safe b e m (q ch) k k' c) → safe b e m (peekRune ≫= q) k k' c.
Proof.
  intros Hq s H. destruct (St_peek _ _ _ H) as (ch & s' & E & H').
  apply wp_bind. eapply wp_ok; [exact E|]. by apply Hq.
Qed.

Lemma after_ret {A} b e m t (a : A) k k' c : k ≤ k' → c a ≤ weight t → after b e m t (mret a) k k' c.
Proof.
  intros Hk Hc s [Hw H]%Sc_St. unfold wp. simpl. split; [lia|]. eapply St_mono; [exact H|lia..].
Qed.
Lemma after_fail {A} b e m t err k k' (c : A → nat) : k ≤ 1 → m ≤ e → err ≠ OutOfFuel → after b e m t (st_fail err) k k' c.
Proof. intros Hk Hm He s H. split; [done|]. by eapply Er_Sc. Qed.
Lemma after_unscan {A} b e m t (p : parseM A) k k' c : safe b e m p (S k) k' c → after b e m t (unscan;; p) k k' c.
Proof.
  intros Hp s (s' & E & H)%Sc_unscan. apply wp_bind. eapply wp_ok; [exact E|]. by apply Hp.
Qed.
Lemma after_safe {A} b e m t (p : parseM A) k k' c :
  (weight t ≤ m → safe b e (m - weight t) p k k' (λ a, c a - weight t)) → after b e m t p k k' c.
Proof.
  intros Hp s [Hw H]%Sc_St. eapply wp_mono; [by apply Hp| |done].
  intros a s' [Hm H']. split; [lia|]. eapply St_mono; [exact H'|lia..].
Qed.
Lemma after_eq {A} b e m t tok (p : parseM A) k k' c :
  t.1.1 = tok → tok ≠ EOF → (1 ≤ m → safe b e (m - 1) p k k' (λ a, c a - 1)) → after b e m t p k k' c.
Proof. intros Ht Hne Hp. apply after_safe. rewrite weight_1 by congruence. done. Qed.

(** One more token than was scanned last. *)
Lemma safe_unscan {A} b e m (p : parseM A) k k' c : k ≤ 2 →
  safe b e (S m) p (S k) k' (λ a, S (c a)) → safe b e m (unscan;; p) k k' c.
Proof.
  intros Hk Hp s H. destruct (St_unscan _ _ _ H Hk) as (s' & E & H'). apply wp_bind. eapply wp_ok; [exact E|].
  eapply wp_mono; [by apply Hp| |done]. intros a s2 [Hm H2]. split; [lia|]. eapply St_mono; [exact H2|lia..].
Qed.

Local Ltac sl := intros; cbv beta in *; lia.

(** ** Names *)

Lemma parseIdent_safe b e m k : m + 1 < F → m ≤ e → k ≤ 2 → safe b e m (parseIdent F) k (pred k) (λ _, 1).
Proof.
  intros Hf Hm Hk. apply safe_ignore; [done|]. intros t. case_bool_decide as Ht.
  - apply after_ret; [done|]. by rewrite weight_1 by congruence.
  - apply after_fail; [lia|done..].
Qed.

Lemma segments_loop_safe b e m fuel idents : m + 1 < F → m ≤ e → m < fuel →
  safe b e m (segments_loop F fuel idents) 1 1 (λ _, 0).
Proof.
  revert m idents. induction fuel as [|fuel IH]; intros m idents Hf Hm Hfuel; [lia|]. cbn [segments_loop].
  apply safe_scan; [done|]. intros t. case_bool_decide as Ht; cbn [negb].
  2: { apply after_unscan. by apply safe_ret. }
  eapply after_eq; [exact Ht|done|]. intros H1. apply safe_peek. intros ch.
  destruct (_ || _)%bool; [by apply safe_ret; [lia|]|]. destruct (ch =? dot)%Z.
  - eapply safe_mono; [apply (IH (m - 1)); lia|sl..].
  - eapply safe_bind; [eapply (parseIdent_safe _ _ _ 0); lia|]. intros ident Hi.
    eapply safe_mono; [apply IH; sl|sl..].
Qed.

Lemma parseSegmentedIdents_safe b e m k : m + 1 < F → m ≤ e → k ≤ 2 → safe b e m (parseSegmentedIdents F) k 1 (λ _, 1).
Proof.
  intros Hf Hm Hk. eapply safe_bind; [by apply parseIdent_safe|]. intros ident Hi.
  eapply (safe_bind _ _ _ _ _ _ 1 _ (λ _, 0)); [eapply safe_mono; [apply (segments_loop_safe _ _ _ F); lia|sl..]|]. intros idents _.
  destruct (3 <? length idents)%nat; [apply safe_fail; [sl..|done]|by apply safe_ret].
Qed.

(** ** Lists *)

Lemma comma_list_safe {A} b e m fuel next (item : parseM A) :
  next = scan F ∨ next = scanIgnoreWhitespace F →
  m + 1 < F → m ≤ e → m < fuel → (∀ m', m' ≤ m → safe b e m' item 2 2 (λ _, 0)) →
  safe b e m (comma_list fuel next item) 2 2 (λ _, 0).
Proof.
  intros Hnext. revert m. induction fuel as [|fuel IH]; intros m Hf Hm Hfuel Hitem; [lia|]. cbn [comma_list].
  eapply safe_bind; [by apply Hitem|]. intros x _. rewrite Nat.sub_0_r.
  assert (Hrest : ∀ t, after b e m t (if bool_decide (t.1.1 = COMMA) then rest ← comma_list fuel next item; mret (x :: rest)
      else unscan;; mret [x]) 1 2 (λ _, 0)).
  { intros t. case_bool_decide as Ht; [|apply after_unscan; by apply safe_ret].
    eapply after_eq; [exact Ht|done|]. intros H1. eapply safe_mono with (k1 := 2) (k2 := 2) (c := λ _, 0); [|sl..].
    eapply safe_bind; [apply IH; [lia..|]|intros; by apply safe_ret]. intros. apply Hitem. lia. }
  destruct Hnext as [->| ->]; [apply safe_scan|apply safe_ignore]; done.
Qed.

(** ** Regular expressions *)

Lemma after_unscan_last b e m t k c : c tt = 0 → after b e m t unscan k (S k) c.
Proof.
  intros Hc s (s' & E & H)%Sc_unscan. eapply wp_ok; [exact E|]. simpl. rewrite Hc. split; [lia|]. by rewrite Nat.sub_0_r.
Qed.

Lemma consumeWhitespace_safe b e m k : m + 1 < F → 1 ≤ k → safe b e m (consumeWhitespace F) k k (λ _, 0).
Proof.
  intros Hf Hk. apply safe_scan; [done|]. intros t. case_bool_decide; [apply after_ret; lia|].
  destruct k; [lia|]. by apply after_unscan_last.
Qed.

Lemma lex_regex_weight l pos lit : peek l = slash →
  weight ((lex_regex l).1.1, pos, lit) + length (lex_regex l).2 ≤ length l.
Proof. intros [H _]%lex_regex_shrinks. pose proof (weight_le ((lex_regex l).1.1, pos, lit)). lia. Qed.

Lemma safe_regex {A} b e m (p : parseM A) (q : Scanned → parseM A) k k' c : m + 1 < F →
  safe b e m p k k' c → (∀ t, after b e m t (q t) (pred k) k' c) →
  safe b e m (ch ← peekRune; if negb (ch =? rn "/")%Z then p else of_scanner (bufScanner_ScanRegex F) ≫= q) k k' c.
Proof.
  intros Hf Hp Hq s (pend & back & l & H & Hk & Hm). destruct (peekRune_at _ _ _ _ H) as (s1 & E & H1).
  apply wp_bind. eapply wp_ok; [exact E|]. cbv beta. destruct (Z.eqb_spec (peek l) (rn "/")) as [Hs|_]; cbn [negb].
  2: { apply Hp. by exists pend, back, l. }
  apply wp_bind. unfold size in Hm. destruct pend as [|t pend].
  - simpl in Hm. destruct (scanRegex_text F s1 back l H1 ltac:(lia) Hs) as (pos & s2 & E2 & H2). eapply wp_ok; [exact E2|].
    apply Hq. eexists [], _, _. split; [exact H2|]. split; [simpl; lia|].
    pose proof (lex_regex_weight l pos (utf8 (lex_regex l).1.2) Hs). unfold size. simpl. lia.
  - destruct (scanRegex_pending F s1 t pend back l H1) as (s2 & E2 & H2). eapply wp_ok; [exact E2|].
    apply Hq. exists pend, back, l. unfold size. simpl in *. split_and!; [done|lia..].
Qed.

Lemma parseRegex_safe b e m k : m + 1 < F → m ≤ e → 1 ≤ k ≤ 2 →
  safe b e m (parseRegex F) k k (λ r, match r with Some _ => 1 | None => 0 end).
Proof.
  intros Hf Hm Hk. apply safe_peek. intros ch. eapply (safe_bind _ _ _ _ _ _ k _ (λ _, 0)).
  { destruct (isWhitespace ch); [by apply consumeWhitespace_safe; [|lia]|by apply safe_ret]. }
  intros _ _. rewrite Nat.sub_0_r. eapply safe_mono with (k1 := k) (k2 := k); [|lia|lia|intros; apply Nat.le_sub_l].
  apply safe_regex; [done|by apply safe_ret|]. intros t.
  assert (Hfail : ∀ err, err ≠ OutOfFuel → after b e m t (st_fail err) (pred k) k
    (λ r : option string, match r with Some _ => 1 | None => 0 end)) by (intros; apply after_fail; [lia|done..]).
  destruct t.1.1 eqn:Ht; try by apply Hfail. destruct (regexp_Compile t.2); [|by apply Hfail].
  apply after_ret; [lia|]. by rewrite weight_1 by congruence.
Qed.

(** ** Expressions *)

Lemma expect_safe b e m tok texts k : m + 1 < F → m ≤ e → k ≤ 2 → tok ≠ EOF → safe b e m (expect F tok texts) k (pred k) (λ _, 1).
Proof.
  intros Hf Hm Hk Hne. apply safe_ignore; [done|]. intros t. case_bool_decide as Ht.
  - apply after_ret; [done|]. by rewrite weight_1 by congruence.
  - apply after_fail; [lia|done..].
Qed.

Lemma string_literal_after b e m t k : k ≤ 1 → m ≤ e → after b e m t (string_literal t) k k (λ _, weight t).
Proof.
  intros Hk Hm. assert (Hret : ∀ x, after b e m t (mret x) k k (λ _ : Expr, weight t)) by (intros; by apply after_ret).
  assert (Hfail : ∀ err, err ≠ OutOfFuel → after b e m t (st_fail err) k k (λ _ : Expr, weight t)) by (intros; by apply after_fail).
  unfold string_literal, message. repeat case_match; auto; by apply Hfail.
Qed.

Section nested.
Context (b : bool) (e M : nat) (parse : parseM Expr).
Context (Hfuel : M + 1 < F) (He : M ≤ e).
(** The expressions inside of this one start behind its first token. *)
Context (Hparse : ∀ m, m < M → safe b e m parse 2 1 (λ _, 1)).

Lemma parseCall_safe m name : m < M → safe b e m (parseCall F parse name) 1 1 (λ _, 0).
Proof.
  intros Hm. unfold parseCall. apply safe_scan; [lia|]. intros t. case_bool_decide; [apply after_ret; lia|].
  apply after_unscan. eapply (safe_bind _ _ _ _ _ _ 2 _ (λ _, 0)).
  { eapply safe_mono; [apply (comma_list_safe _ _ m F); [by left|lia..|]|sl..].
    intros m' Hle. eapply safe_mono; [apply Hparse; lia|sl..]. }
  intros args _. rewrite Nat.sub_0_r. apply safe_scan; [lia|]. intros t'.
  case_bool_decide; [apply after_ret; sl|apply after_fail; [lia..|done]].
Qed.

Lemma parse_distinct_safe m : m < M → safe b e m (parse_distinct F parse) 1 1 (λ _, 0).
Proof.
  intros Hm. unfold parse_distinct. apply safe_scan; [lia|]. intros t. simpl pred.
  assert (Hfail : after b e m t (expected t ["("; "identifier"]) 0 1 (λ _ : Expr, 0)) by (apply after_fail; [lia..|done]).
  destruct t.1.1 eqn:Ht; try exact Hfail.
  - eapply after_eq; [exact Ht|done|]. intros H1. apply safe_ignore; [lia|]. intros t1.
    case_bool_decide; [apply after_ret; sl|apply after_fail; [lia..|done]].
  - eapply after_eq; [exact Ht|done|]. intros H1. eapply safe_mono; [apply parseCall_safe; lia|sl..].
Qed.

Lemma parseUnaryExpr_safe m : m ≤ M → safe b e m (parseUnaryExpr F parse) 2 1 (λ _, 1).
Proof.
  intros Hm. unfold parseUnaryExpr. apply safe_ignore; [lia|]. intros t. case_bool_decide as Ht; simpl pred.
  { eapply after_eq; [exact Ht|done|]. intros H1. eapply (safe_bind _ _ _ _ _ _ 1 _ (λ _, 1)); [eapply safe_mono; [apply Hparse; lia|lia|lia|done]|].
    intros x Hx. eapply safe_bind; [apply (expect_safe _ _ _ _ _ 1); [sl..|done]|]. intros u _. apply safe_ret; sl. }
  apply after_unscan. apply safe_ignore; [lia|]. intros t2. simpl pred. clear Ht.
  unfold parse_unary_token.
  assert (Hret : ∀ x, t2.1.1 ≠ EOF → after b e m t2 (mret x) 1 1 (λ _ : Expr, 1)).
  { intros x Hne. apply after_ret; [done|]. by rewrite weight_1. }
  assert (Hfail : ∀ err, err ≠ OutOfFuel → after b e m t2 (st_fail err) 1 1 (λ _ : Expr, 1)) by (intros; apply after_fail; [lia..|done]).
  destruct t2.1.1 eqn:Ht; try (by apply Hfail); try (by apply Hret).
  - eapply after_eq; [exact Ht|done|]. intros H1. apply safe_scan; [lia|]. intros t0. case_bool_decide as Ht0; simpl pred.
    + eapply after_eq; [exact Ht0|done|]. intros H2. eapply safe_mono; [apply parseCall_safe; lia|sl..].
    + apply after_unscan, safe_unscan; [lia|]. replace (S (m - 1)) with m by lia. unfold parseVarRef.
      eapply safe_bind; [apply parseSegmentedIdents_safe; lia|]. intros segs _. apply safe_ret; sl.
  - destruct (ParseFloat t2.2); [by apply Hret|by apply Hfail].
  - pose proof (string_literal_after b e m t2 1 ltac:(lia) ltac:(lia)) as H. by rewrite weight_1 in H by congruence.
  - destruct (regexp_Compile t2.2); [by apply Hret|by apply Hfail].
  - eapply after_eq; [exact Ht|done|]. intros H1. eapply safe_mono; [apply parse_distinct_safe; lia|sl..].
Qed.

Lemma operand_safe m op : m ≤ M → safe b e m (operand F parse op) 1 1 (λ _, 0).
Proof.
  intros Hm. unfold operand. destruct (IsRegexOp op); [|eapply safe_mono; [by apply parseUnaryExpr_safe|sl..]].
  eapply safe_bind; [apply consumeWhitespace_safe; lia|]. intros u _. rewrite Nat.sub_0_r.
  eapply safe_bind; [apply parseRegex_safe; lia|]. intros [re|] Hre; [by apply safe_ret|].
  apply safe_ignore; [lia|]. intros t. apply after_fail; [lia..|done].
Qed.

Lemma operators_safe m fuel root : m ≤ M → m < fuel → safe b e m (operators F parse fuel root) 1 1 (λ _, 0).
Proof.
  revert m root. induction fuel as [|fuel IH]; intros m root Hm Hf; [lia|]. cbn [operators].
  apply safe_ignore; [lia|]. intros t. destruct (Token_isOperator t.1.1) eqn:Hop; simpl.
  2: { apply after_unscan. by apply safe_ret. }
  eapply after_eq; [reflexivity|by intros Heq; rewrite Heq in Hop|]. intros H1.
  eapply (safe_bind _ _ _ _ _ _ 1 _ (λ _, 0)); [eapply safe_mono; [apply operand_safe; lia|sl..]|].
  intros rhs _. rewrite Nat.sub_0_r. eapply safe_mono; [apply IH; lia|sl..].
Qed.
End nested.

(** Nesting needs text. *)
Lemma ParseExpr_at_safe b e m n : m + 1 < F → m ≤ e → m < n → safe b e m (ParseExpr_at F n) 2 1 (λ _, 1).
Proof.
  revert m. induction n as [|n IH]; intros m Hf He Hn; [lia|]. cbn [ParseExpr_at].
  eapply safe_bind; [apply (parseUnaryExpr_safe b e m); [lia|lia| |lia]|]. { intros m' Hm'. apply IH; lia. }
  intros root Hr. eapply safe_mono; [apply (operators_safe b e m); [lia|lia| |sl|sl]|sl..]. intros m' Hm'. apply IH; lia.
Qed.
Lemma ParseExpr_safe b e m : m + 1 < F → m ≤ e → safe b e m (ParseExpr F) 2 1 (λ _, 1).
Proof. intros. apply ParseExpr_at_safe; lia. Qed.
End safe.
