(* ===== verification/QlParseTotal.v ===== *)
(** * Every text has a result: [influxql/parser.go]

    The clauses and statements of the parser in the calculus of [QlParseSafe], and
    the theorem that [ParseQuery] ends on every text. *)

From stdpp Require Import base list strings sets.
From Stdlib Require Import ZArith Ascii Lia SpecFloat.
From S2P Require Import Prelude MetaData QlToken Escape QlExpr QlSelect QlPrint QlReader QlScan QlScanSpec QlScanProps.
From S2P Require Import QlUtf8 QlDuration QlNumber QlStmt QlParse QlParseSpec QlParseStmt QlParseSafe.

Local Open Scope nat_scope.

Create HintDb fine.

Local Ltac sl := intros; cbv beta in *; lia.

Section total.
Context {goText : GoText} (F : nat).

(** ** Methods that keep what is left

    Started with at most two tokens put back, such a method ends with at most
    two put back and nothing more left to read, or with an error of the code. *)

Definition fine {A} (p : parseM A) : Prop := ∀ m, m + 1 < F → safe false 0 m p 2 2 (λ _, 0).
Definition fine_after {A} (t : Scanned) (p : parseM A) : Prop := ∀ m, m + 1 < F → after false 0 m t p 1 2 (λ _, 0).

Lemma fine_ret {A} (a : A) : fine (mret a).
Proof. intros m _. by apply safe_ret. Qed.
Lemma fine_fail {A} e : e ≠ OutOfFuel → fine (st_fail e : parseM A).
Proof. intros He m _ s H. by split. Qed.
Lemma fine_bind {A B} (p : parseM A) (q : A → parseM B) : fine p → (∀ a, fine (q a)) → fine (p ≫= q).
Proof.
  intros Hp Hq m Hm. eapply safe_bind; [by apply Hp|]. intros a _. rewrite Nat.sub_0_r. by apply Hq.
Qed.
Lemma fine_ignore {A} (q : Scanned → parseM A) : (∀ t, fine_after t (q t)) → fine (scanIgnoreWhitespace F ≫= q).
Proof. intros Hq m Hm. apply safe_ignore; [done|]. intros t. by apply Hq. Qed.
Lemma fine_scan {A} (q : Scanned → parseM A) : (∀ t, fine_after t (q t)) → fine (scan F ≫= q).
Proof. intros Hq m Hm. apply safe_scan; [done|]. intros t. by apply Hq. Qed.
Lemma fine_peek : fine peekRune.
Proof.
  intros m Hm s H. destruct (St_peek _ _ _ H) as (ch & s' & E & H'). eapply wp_ok; [exact E|]. split; [lia|].
  by rewrite Nat.sub_0_r.
Qed.
Lemma fine_after_fine {A} t (p : parseM A) : fine p → fine_after t p.
Proof.
  intros Hp m Hm. apply after_safe. intros Hw. eapply safe_mono; [apply Hp; lia|sl..].
Qed.
Lemma fine_after_unscan {A} t (p : parseM A) : fine p → fine_after t (unscan;; p).
Proof. intros Hp m Hm. apply after_unscan. by apply Hp. Qed.
Lemma fine_after_bind {A B} t (p : parseM A) (q : A → parseM B) :
  fine_after t p → (∀ a, fine (q a)) → fine_after t (p ≫= q).
Proof.
  intros Hp Hq m Hm s H. apply wp_bind. eapply wp_mono; [by apply Hp| |done]. intros a s1 [_ H1].
  rewrite Nat.sub_0_r in H1. by apply Hq.
Qed.
Lemma fine_after_unscan_last t : fine_after t unscan.
Proof. intros m Hm. by apply after_unscan_last. Qed.
Lemma fine_safe {A} (p : parseM A) k' c : k' ≤ 2 → (∀ m, m + 1 < F → safe true m m p 2 k' c) → fine p.
Proof. intros Hk Hp m Hm. eapply safe_mono; [eapply safe_lax, Hp; lia|sl..]. Qed.

Lemma comma_list_fine {A} next (item : parseM A) :
  next = scan F ∨ next = scanIgnoreWhitespace F → fine item → fine (comma_list F next item).
Proof.
  intros Hn Hi m Hm. apply (comma_list_safe F false m); [done|lia..|]. intros m' Hle. apply Hi. lia.
Qed.
End total.

#[local] Hint Resolve fine_ret fine_peek fine_after_unscan_last : fine.

(** One step of a proof that a method is fine, by the shape of the method. *)
Ltac fine_step :=
  lazymatch goal with
  | |- fine _ (mret _) => apply fine_ret
  | |- fine _ (st_fail _) => apply fine_fail; discriminate
  | |- fine _ (expected _ _) => apply fine_fail; discriminate
  | |- fine _ (message _ _) => apply fine_fail; discriminate
  | |- fine _ (scanIgnoreWhitespace _ ≫= _) => apply fine_ignore; intros ?
  | |- fine _ (scan _ ≫= _) => apply fine_scan; intros ?
  | |- fine _ (_ ≫= _) => apply fine_bind; [|intros ?]
  | |- fine_after _ _ (unscan ≫= _) => apply fine_after_unscan
  | |- fine_after _ _ (scanIgnoreWhitespace _ ≫= _) => apply fine_after_fine
  | |- fine_after _ _ (scan _ ≫= _) => apply fine_after_fine
  | |- fine_after _ _ (_ ≫= _) => apply fine_after_bind; [|intros ?]
  | |- fine_after _ _ unscan => apply fine_after_unscan_last
  | |- fine_after _ _ (if ?b then _ else _) => destruct b
  | |- fine_after _ ?t (match ?t.1.1 with _ => _ end) => destruct t.1.1
  | |- fine_after _ _ _ => apply fine_after_fine
  | |- fine _ (if ?b then _ else _) => destruct b
  | |- fine _ (match ?x with _ => _ end) => destruct x
  end.
Ltac fine := repeat first [progress cbv beta | solve [auto with fine nocore] | fine_step].

Section clauses.
Context {goText : GoText} (F : nat).

Lemma expect_fine tok texts : fine F (expect F tok texts).
Proof. unfold expect. fine. Qed.
Lemma optional_fine tok : fine F (optional F tok).
Proof. unfold optional. fine. Qed.
Lemma parseTokens_fine toks : fine F (parseTokens F toks).
Proof. pose proof expect_fine. induction toks; cbn [parseTokens]; fine. Qed.
Lemma consumeWhitespace_fine : fine F (consumeWhitespace F).
Proof. unfold consumeWhitespace. fine. Qed.
Lemma parseInt_fine lo hi : fine F (parseInt F lo hi).
Proof. unfold parseInt. fine. Qed.
Lemma parseUInt_fine bits : fine F (parseUInt F bits).
Proof. unfold parseUInt. fine. Qed.
Lemma parseDuration_fine : fine F (parseDuration F).
Proof. unfold parseDuration. fine. Qed.
Lemma parseIdent_fine : fine F (parseIdent F).
Proof. unfold parseIdent. fine. Qed.
Lemma parseString_fine : fine F (parseString F).
Proof. unfold parseString. fine. Qed.
Lemma parsePrivilege_fine : fine F (parsePrivilege F).
Proof. pose proof optional_fine. unfold parsePrivilege. fine. Qed.
Lemma parseSegmentedIdents_fine : fine F (parseSegmentedIdents F).
Proof. eapply (fine_safe F _ 1); [lia|]. intros. apply parseSegmentedIdents_safe; lia. Qed.
Lemma parseRegex_fine : fine F (parseRegex F).
Proof. eapply (fine_safe F _ 2); [lia|]. intros. apply parseRegex_safe; lia. Qed.
Lemma ParseExpr_fine : fine F (ParseExpr F).
Proof. eapply (fine_safe F _ 1); [lia|]. intros. apply ParseExpr_safe; lia. Qed.
Lemma comma_scan_fine {A} (item : parseM A) : fine F item → fine F (comma_list F (scan F) item).
Proof. apply comma_list_fine. by left. Qed.
Lemma comma_ignore_fine {A} (item : parseM A) : fine F item → fine F (comma_list F (scanIgnoreWhitespace F) item).
Proof. apply comma_list_fine. by right. Qed.
End clauses.

#[local] Hint Resolve expect_fine optional_fine parseTokens_fine consumeWhitespace_fine parseInt_fine parseUInt_fine
  parseDuration_fine parseIdent_fine parseString_fine parsePrivilege_fine parseSegmentedIdents_fine parseRegex_fine
  ParseExpr_fine comma_scan_fine comma_ignore_fine : fine.

(** ** Clauses *)

Section statements.
Context {goText : GoText} (F : nat).

(** [parseFill] puts one token back after any expression and after any error. *)
Lemma parseFill_fine : fine F (parseFill F).
Proof.
  intros m Hm s H. pose proof (ParseExpr_safe F true m m Hm ltac:(lia) s H) as He. unfold wp in He.
  assert (Hback : ∀ s', St 2 m s' → wp (mret (NullFill, VNil)) (λ (_ : FillOption * GoValue) s', 0 ≤ m ∧ St 2 (m - 0) s') (Er false 0) s').
  { intros s' Hs. split; [lia|]. by rewrite Nat.sub_0_r. }
  assert (Hun : ∀ s', St 1 (m - 1) s' → 1 ≤ m →
    wp (unscan;; mret (NullFill, VNil)) (λ (_ : FillOption * GoValue) s', 0 ≤ m ∧ St 2 (m - 0) s') (Er false 0) s').
  { intros s' Hs H1. destruct (St_unscan _ _ _ Hs ltac:(lia)) as (s2 & E2 & H2). apply wp_bind. eapply wp_ok; [exact E2|].
    apply Hback. by replace m with (S (m - 1)) by lia. }
  unfold parseFill. apply wp_bind. destruct (ParseExpr F s) as [s1 [x|err|]] eqn:E; [| |done].
  - destruct He as [H1 Hs]. eapply wp_ok; [by apply st_try_ok|]. cbv beta.
    assert (Hok : ∀ v : FillOption * GoValue, wp (mret v) (λ _ s', 0 ≤ m ∧ St 2 (m - 0) s') (Er false 0) s1).
    { intros v. split; [lia|]. eapply St_mono; [exact Hs|lia..]. }
    destruct x; try by apply Hun. destruct (negb _); [by apply Hun|].
    repeat (case_match; try apply Hok; try by split).
  - destruct He as [Hne [t Ht]]. eapply wp_ok; [by apply st_try_err|]. cbv beta.
    destruct (Sc_unscan _ _ _ _ Ht) as (s2 & E2 & H2).
    destruct err; try done; (apply wp_bind; eapply wp_ok; [exact E2|]; by apply Hback).
Qed.
Lemma parseSortField_fine : fine F (parseSortField F).
Proof. unfold parseSortField. fine. Qed.

Lemma more_sort_fields_safe m fuel fields : m + 1 < F → m < fuel →
  safe false 0 m (more_sort_fields F fuel fields) 2 2 (λ _, 0).
Proof.
  revert m fields. induction fuel as [|fuel IH]; intros m fields Hf Hfuel; [lia|]. cbn [more_sort_fields].
  eapply (safe_bind _ _ _ _ _ _ 2 _ (λ b : bool, if b then 1 else 0)).
  { apply safe_ignore; [done|]. intros t. case_bool_decide as Ht.
    - apply after_ret; [lia|]. by rewrite weight_1 by congruence.
    - apply after_unscan. by apply safe_ret. }
  intros [] Hb; [|by apply safe_ret]. eapply (safe_bind _ _ _ _ _ _ 2 _ (λ _, 0)); [apply parseSortField_fine; lia|].
  intros f _. eapply safe_mono; [apply IH; lia|sl..].
Qed.
Lemma more_sort_fields_fine fields : fine F (more_sort_fields F F fields).
Proof. intros m Hm. apply more_sort_fields_safe; lia. Qed.

(** Validation never panics. *)
Lemma interval_of_no_panic ds : interval_of ds ≠ Panic.
Proof. induction ds as [|[] ds IH]; cbn [interval_of]; try done. repeat case_match; done. Qed.
Lemma GroupByInterval_no_panic st : (GroupByInterval st).2 ≠ Panic.
Proof.
  unfold GroupByInterval. destruct (negb _); [done|]. destruct (Dimensions st) as [|d ds]; [done|].
  pose proof (interval_of_no_panic (d :: ds)). by destruct (interval_of (d :: ds)).
Qed.
Lemma validate_dimensions_no_panic ds : ∀ d, validate_dimensions ds d ≠ Panic.
Proof. induction ds as [|[] ds IH]; intros d; cbn [validate_dimensions]; try done; repeat case_match; done. Qed.
Lemma validSelect_no_panic st : validSelectWithAggregate st ≠ Panic.
Proof. unfold validSelectWithAggregate. repeat case_match; done. Qed.
Lemma validate_call_no_panic st name args : (validate_call st name args).2 ≠ Panic.
Proof.
  pose proof (validSelect_no_panic st) as Hs. unfold validate_call. destruct (_ || _).
  - unfold validate_derivative_call. destruct (validSelectWithAggregate st); [|done..]. destruct (_ || _); [done|].
    destruct (GroupByInterval st) as [st' [d|e|]]; simpl; [|done..]. repeat case_match; done.
  - simpl. unfold validate_other_call. repeat (destruct (_ || _)%bool || destruct (bool_decide _));
      try (destruct (validSelectWithAggregate st); [|done..]); simpl; repeat case_match; done.
Qed.
Lemma validate_calls_no_panic calls : ∀ st, (validate_calls st calls).2 ≠ Panic.
Proof.
  induction calls as [|c calls IH]; intros st; cbn [validate_calls]; [done|].
  pose proof (validate_call_no_panic st (call_name c) (call_args c)) as Hc.
  destruct (validate_call st (call_name c) (call_args c)) as [st' [u|e|]]; simpl in *; [apply IH|done..].
Qed.
Lemma validate_no_panic st tr : (validate st tr).2 ≠ Panic.
Proof.
  unfold validate.
  destruct (validateFields st) eqn:E1; simpl; [|done|revert E1; unfold validateFields; repeat case_match; done].
  destruct (validateDimensions st) eqn:E2; simpl; [|done|by apply validate_dimensions_no_panic in E2].
  destruct (validateDistinct st) eqn:E3; simpl; [|done|revert E3; unfold validateDistinct; repeat case_match; done].
  destruct (validateCountDistinct st) eqn:E4; simpl; [|done|revert E4; unfold validateCountDistinct; repeat case_match; done].
  unfold validateAggregates. pose proof (validate_calls_no_panic (FunctionCalls st) st) as Hc.
  destruct (validate_calls st (FunctionCalls st)) as [st' [v|e|]]; simpl in *; [|done..].
  assert (Hd : ∀ x, validateDerivative x ≠ Panic) by (intros x; unfold validateDerivative; repeat case_match; done).
  destruct (GroupByInterval st') as [st2 d]. repeat (case_match; simplify_eq/=; try done; try apply Hd).
Qed.
Lemma validated_fine st tr : fine F (validated st tr).
Proof.
  unfold validated. pose proof (validate_no_panic st tr). destruct (validate st tr) as [st' [u|e|]]; [apply fine_ret|by apply fine_fail|done].
Qed.

(** The two tokens that [parseCreateContinuousQueryStatement] puts back may be one
    more than the buffer holds; the next scan still finds a token. *)
Lemma ignore_pending s t1 t2 pend back l : at_ s (t1 :: t2 :: pend) back l →
  ∃ t s', scanIgnoreWhitespace F s = (s', Ok t).
Proof.
  intros H. destruct (scan_pending F _ _ _ _ _ H) as (s1 & E1 & H1). destruct (scan_pending F _ _ _ _ _ H1) as (s2 & E2 & _).
  unfold scanIgnoreWhitespace. rewrite (st_bind_ok _ _ _ _ _ E1). case_bool_decide; eauto.
Qed.
Lemma unscan_full s a b c l : at_ s [a; b; c] [] l →
  ∃ s1 t, unscan s = (s1, Ok tt) ∧ scan F s1 = (s, Ok t).
Proof.
  intros ((Hn & Hi & Hb & He) & _). destruct s as [r [i n buf]]. simpl in *. subst n.
  eexists. unfold scan, of_scanner, bufScanner_Scan, bufScanner_scanFunc, bufScanner_curr, ring_curr, ring_unread, ring_pop. simpl.
  destruct buf as [|x [|y [|z [|]]]]; try done.
  destruct Hi as [->|[->| ->]]; simpl; eexists; (split; [reflexivity|]); reflexivity.
Qed.
Lemma rewind_ends {A} m s texts Q E : (∀ s', E s') → St 2 m s →
  wp (unscan;; unscan;; t ← scanIgnoreWhitespace F; expected t texts : parseM A) Q E s.
Proof.
  intros HE (pend & back & l & H & Hk & _). pose proof (at_length _ _ _ _ H). destruct back as [|t1 back]; [simpl in *; lia|].
  destruct (unscan_at _ _ _ _ _ H) as (s1 & E1 & H1). apply wp_bind. eapply wp_ok; [exact E1|].
  assert (∃ s2 t s3, unscan s1 = (s2, Ok tt) ∧ scanIgnoreWhitespace F s2 = (s3, Ok t)) as (s2 & t & s3 & E2 & E3).
  { destruct back as [|t2 back].
    - destruct pend as [|p1 [|p2 [|]]]; simpl in *; try lia. destruct (unscan_full _ _ _ _ _ H1) as (s2 & t & E2 & E3).
      exists s2. destruct (scan_pending F _ _ _ _ _ H1) as (s3 & E4 & _). unfold scanIgnoreWhitespace.
      rewrite (st_bind_ok _ _ _ _ _ E3). case_bool_decide; eauto.
    - destruct (unscan_at _ _ _ _ _ H1) as (s2 & E2 & H2). destruct (ignore_pending _ _ _ _ _ _ H2) as (t & s3 & E3). eauto. }
  apply wp_bind. eapply wp_ok; [exact E2|]. apply wp_bind. eapply wp_ok; [exact E3|]. by split.
Qed.
Lemma require_interval_fine source : fine F (require_interval F source).
Proof.
  unfold require_interval. destruct (IsRawQuery source); [apply fine_ret|].
  pose proof (GroupByInterval_no_panic source). destruct (GroupByInterval source) as [st [d|e|]]; [| |done].
  - destruct (d =? 0)%Z; [|apply fine_ret]. intros m Hm s Hs. by eapply rewind_ends.
  - intros m Hm s Hs. by eapply rewind_ends.
Qed.
End statements.

#[local] Hint Resolve parseFill_fine parseSortField_fine more_sort_fields_fine validated_fine require_interval_fine : fine.

(** ** Statements *)

Section query.
Context {goText : GoText} (F : nat).

Lemma parseField_fine : fine F (parseField F).
Proof. unfold parseField, parseAlias. fine. Qed.
Lemma parseSource_fine : fine F (parseSource F).
Proof. unfold parseSource. fine. Qed.
Lemma parseTarget_fine b : fine F (parseTarget F b).
Proof. unfold parseTarget. fine. Qed.
Lemma parseCondition_fine : fine F (parseCondition F).
Proof. unfold parseCondition. fine. Qed.
Lemma parseDimension_fine : fine F (parseDimension F).
Proof. unfold parseDimension. fine. Qed.
Lemma parseOptionalTokenAndInt_fine tok : fine F (parseOptionalTokenAndInt F tok).
Proof. unfold parseOptionalTokenAndInt. fine. Qed.
Lemma parseSortFields_fine : fine F (parseSortFields F).
Proof. unfold parseSortFields, only_time. fine. Qed.
Lemma alter_options_fine k first d n def : fine F (alter_options F k first d n def).
Proof. revert first d n def. induction k as [|k IH]; intros; cbn [alter_options]; fine. Qed.
End query.

#[local] Hint Resolve parseField_fine parseSource_fine parseTarget_fine parseCondition_fine parseDimension_fine
  parseOptionalTokenAndInt_fine parseSortFields_fine alter_options_fine : fine.

Section query.
Context {goText : GoText} (F : nat).

Lemma parseSources_fine : fine F (parseSources F).
Proof. unfold parseSources. fine. Qed.
Lemma optional_sources_fine : fine F (optional_sources F).
Proof. pose proof parseSources_fine. unfold optional_sources. fine. Qed.
Lemma parseOrderBy_fine : fine F (parseOrderBy F).
Proof. unfold parseOrderBy. fine. Qed.
Lemma parseDimensions_fine : fine F (parseDimensions F).
Proof. unfold parseDimensions. fine. Qed.
Lemma parseFields_fine : fine F (parseFields F).
Proof. unfold parseFields. fine. Qed.
Lemma parseTagKeys_fine : fine F (parseTagKeys F).
Proof. unfold parseTagKeys, parseIdentList. fine. Qed.
Lemma parseStringList_fine : fine F (parseStringList F).
Proof. unfold parseStringList. fine. Qed.
Lemma expect_dot_fine : fine F (expect_dot F).
Proof. unfold expect_dot. fine. Qed.
Lemma last_option_fine tok text : fine F (last_option F tok text).
Proof. unfold last_option. fine. Qed.
Lemma for_module_fine : fine F (for_module F).
Proof. unfold for_module. fine. Qed.
Lemma with_measurement_fine : fine F (with_measurement F).
Proof. unfold with_measurement. fine. Qed.
End query.

#[local] Hint Resolve parseSources_fine optional_sources_fine parseOrderBy_fine parseDimensions_fine parseFields_fine
  parseTagKeys_fine parseStringList_fine expect_dot_fine last_option_fine for_module_fine with_measurement_fine : fine.

Section query.
Context {goText : GoText} (F : nat).

Lemma parseSelectStatement_fine b : fine F (parseSelectStatement F b).
Proof. unfold parseSelectStatement. fine. Qed.

(** Every statement, by its first tokens. *)
Lemma parseShowStatement_fine : fine F (parseShowStatement F).
Proof.
  unfold parseShowStatement, parseShowContinuousQueriesStatement, parseGrantsForUserStatement, parseShowFieldKeysStatement,
    parseShowMeasurementsStatement, parseShowRetentionPoliciesStatement, parseShowSeriesStatement, parseShowStatsStatement,
    parseShowDiagnosticsStatement, parseShowTagKeysStatement, parseShowTagValuesStatement. fine.
Qed.
Lemma parseCreateStatement_fine : fine F (parseCreateStatement F).
Proof.
  pose proof (parseSelectStatement_fine true).
  unfold parseCreateStatement, parseCreateContinuousQueryStatement, parseCreateDatabaseStatement, parseCreateUserStatement,
    parseCreateRetentionPolicyStatement, parseCreateSubscriptionStatement. fine.
Qed.
Lemma parseDropStatement_fine : fine F (parseDropStatement F).
Proof.
  unfold parseDropStatement, parseDropSeriesStatement, parseDropMeasurementStatement, parseDropContinuousQueryStatement,
    parseDropDatabaseStatement, parseDropRetentionPolicyStatement, parseDropUserStatement, parseDropServerStatement,
    parseDropSubscriptionStatement, parseUInt64. fine.
Qed.
Lemma parseGrantStatement_fine : fine F (parseGrantStatement F).
Proof. unfold parseGrantStatement, parseGrantOnStatement, parseGrantAdminStatement. fine. Qed.
Lemma parseRevokeStatement_fine : fine F (parseRevokeStatement F).
Proof. unfold parseRevokeStatement, parseRevokeOnStatement, parseRevokeAdminStatement. fine. Qed.
Lemma parseAlterStatement_fine : fine F (parseAlterStatement F).
Proof. unfold parseAlterStatement, parseAlterRetentionPolicyStatement. fine. Qed.
End query.

#[local] Hint Resolve parseSelectStatement_fine parseShowStatement_fine parseCreateStatement_fine parseDropStatement_fine
  parseGrantStatement_fine parseRevokeStatement_fine parseAlterStatement_fine : fine.

Section query.
Context {goText : GoText} (F : nat).

(** A statement takes at least its first token. *)
Lemma ParseStatement_safe m : m + 1 < F → safe false 0 m (ParseStatement F) 2 2 (λ _, 1).
Proof.
  intros Hm. unfold ParseStatement. apply safe_ignore; [done|]. intros t. simpl pred.
  assert (Hp : ∀ p : parseM Statement, t.1.1 ≠ EOF → fine F p → after false 0 m t p 1 2 (λ _, 1)).
  { intros p Ht Hp. eapply after_eq; [reflexivity|done|]. intros H1. eapply safe_mono; [apply Hp; lia|sl..]. }
  destruct t.1.1 eqn:Ht; try (intros s Hs; by split);
    (apply Hp; [congruence|]; unfold parseDeleteStatement, parseSetPasswordUserStatement; fine).
Qed.

Lemma ParseQuery_loop_safe m fuel semi stmts : m + 1 < F → m < fuel →
  safe false 0 m (ParseQuery_loop F fuel semi stmts) 2 2 (λ _, 0).
Proof.
  revert m semi stmts. induction fuel as [|fuel IH]; intros m semi stmts Hf Hfuel; [lia|]. cbn [ParseQuery_loop].
  apply safe_ignore; [done|]. intros t. case_bool_decide as Ht; [apply after_ret; lia|].
  destruct (negb semi && _)%bool.
  - eapply after_eq; [reflexivity|done|]. intros H1. eapply safe_mono; [apply IH; lia|sl..].
  - apply after_unscan. eapply safe_bind; [by apply ParseStatement_safe|]. intros st H1.
    eapply safe_mono; [apply IH; sl|sl..].
Qed.
End query.

(** ** Results *)

(** A value or an error of the code. *)
Definition has_result {A} (r : outcome parse_err A) : Prop :=
  (∃ a, r = Ok a) ∨ (∃ e, r = Err e ∧ e ≠ OutOfFuel).

Lemma safe_result {A} F text e k' c (p : parseM A) : no_nul text → (length text + 1 < F) →
  (∀ m, m + 1 < F → safe false e m p 2 k' c) → has_result (p (newBufScanner text)).2.
Proof.
  intros Hn Hf Hp. assert (Hs : St 2 (length text) (newBufScanner text)).
  { eexists _, _, _. split; [by apply at_new|]. split; [simpl; lia|]. apply normal_length. }
  specialize (Hp (length text) Hf _ Hs). unfold wp in Hp.
  destruct (p (newBufScanner text)) as [s [a|err|]]; simpl; [left; eauto| |done]. right. exists err. by destruct Hp.
Qed.

(** C8: Every text without NUL characters is parsed to an end: [ParseQuery],
    [ParseStatement] and [ParseExpr] return a value or an error of the code, with
    the fuel that is the length of the text and with any more.  They do not run out
    of fuel, and they do not panic:
    neither the buffers of runes and tokens are read out of range nor does the
    validation of a statement fail on what the parser built. *)
Theorem parsing_terminates {goText : GoText} (s : string) (F : nat) :
  eof ∉ runes s → enough s ≤ F →
  has_result (ParseQuery F (NewParser s)).2 ∧
  has_result (ParseStatement F (NewParser s)).2 ∧
  has_result (ParseExpr F (NewParser s)).2.
Proof.
  unfold enough, NewParser. intros Hn Hf. assert (Hf' : length (runes s) + 1 < F) by lia. split_and!; eapply (safe_result F _ 0); try done; intros m Hm.
  - apply ParseQuery_loop_safe; lia.
  - by apply ParseStatement_safe.
  - eapply safe_lax, (ParseExpr_safe F true m); lia.
Qed.

Lemma parsing_terminates_witness :
  has_result (@ParseQuery sample_text 80 (NewParser "SELECT mean(value) FROM cpu WHERE time > now() - 1h; DROP")).2 ∧
  has_result (@ParseStatement sample_text 80 (NewParser "SELECT mean(value) FROM cpu WHERE time > now() - 1h; DROP")).2 ∧
  has_result (@ParseExpr sample_text 80 (NewParser "SELECT mean(value) FROM cpu WHERE time > now() - 1h; DROP")).2.
Proof.
  apply (@parsing_terminates sample_text "SELECT mean(value) FROM cpu WHERE time > now() - 1h; DROP" 80).
  - apply (bool_decide_unpack _). vm_compute. exact I.
  - apply Nat.leb_le. vm_compute. reflexivity.
Defined.
