(* ===== verification/QlParseView.v ===== *)
(** * Parsing printed expressions: the parts

    A state of the parser as the text that is still to be parsed, whether or not
    its first tokens were scanned already; how the tokens of a printed expression
    are scanned; and the tree that the loop over operators builds. *)

From stdpp Require Import base list strings sets.
From Stdlib Require Import ZArith Ascii Lia SpecFloat.
From S2P Require Import Prelude MetaData QlToken Escape QlExpr QlSelect QlPrint QlReader QlScan QlScanSpec QlScanProps.
From S2P Require Import QlDuration QlNumber QlStmt QlParse QlParseSpec.

Local Open Scope Z_scope.

(** ** The tree *)

(** The operands of a chain of operators from left to right. *)
Fixpoint spine (e : Expr) : Expr * list (Token * Expr) :=
  match e with
  | BinaryExpr op l r => ((spine l).1, (spine l).2 ++ (op, (spine r).1) :: (spine r).2)
  | e => (e, [])
  end.
Definition is_binary (e : Expr) : bool := match e with BinaryExpr _ _ _ => true | _ => false end.
(** An operator on the left binds at least as strongly, one on the right more
    strongly. *)
Definition left_ok (op : Token) (l : Expr) : Prop :=
  match l with BinaryExpr op' _ _ => Token_Precedence op <= Token_Precedence op' | _ => True end.
Definition right_ok (op : Token) (r : Expr) : Prop :=
  match r with BinaryExpr op' _ _ => Token_Precedence op < Token_Precedence op' | _ => True end.
Fixpoint ordered (e : Expr) : Prop :=
  match e with
  | BinaryExpr op l r => left_ok op l ∧ right_ok op r ∧ ordered l ∧ ordered r
  | _ => True
  end.

(** The tree that the loop builds. *)
Definition build (e0 : Expr) (ops : list (Token * Expr)) : Expr := foldl (λ root ox, insert_op ox.1 ox.2 root) e0 ops.

Lemma insert_op_spine op rhs root : is_binary rhs = false →
  spine (insert_op op rhs root) = ((spine root).1, (spine root).2 ++ [(op, rhs)]).
Proof.
  intros Hr. assert (Hs : spine rhs = (rhs, [])) by by destruct rhs.
  induction root as [op' l IHl r IHr| | | | | | | | | | | |]; simpl; rewrite ?Hs; try done.
  destruct (Token_Precedence op <=? Token_Precedence op'); simpl; [by rewrite Hs|].
  rewrite IHr. simpl. by rewrite <- app_assoc.
Qed.

Lemma insert_op_right_ok op' op rhs r : right_ok op' r → Token_Precedence op' < Token_Precedence op → right_ok op' (insert_op op rhs r).
Proof. destruct r; simpl; try done. intros. destruct (_ <=? _); simpl; lia. Qed.
Lemma insert_op_ordered op rhs root : is_binary rhs = false → ordered root → ordered (insert_op op rhs root).
Proof.
  intros Hb. assert (Hr : right_ok op rhs ∧ ordered rhs) by by destruct rhs.
  induction root as [op' l IHl r IHr| | | | | | | | | | | |]; simpl; try (intros _; tauto).
  intros (H1 & H2 & H3 & H4). destruct (Z.leb_spec (Token_Precedence op) (Token_Precedence op')); simpl; [tauto|].
  split_and!; [done|by apply insert_op_right_ok|done|by apply IHr].
Qed.

Lemma build_ordered e0 ops : is_binary e0 = false → Forall (λ ox, is_binary ox.2 = false) ops →
  ordered (build e0 ops) ∧ spine (build e0 ops) = (e0, ops).
Proof.
  intros H0 Hops. induction ops as [|[op x] ops IH] using rev_ind; [by destruct e0|].
  apply Forall_app in Hops as [Hops Hx]. apply Forall_cons in Hx as [Hx _]. destruct (IH Hops) as [IH1 IH2].
  unfold build in *. rewrite foldl_app. simpl. split; [by apply insert_op_ordered|].
  rewrite insert_op_spine by done. by rewrite IH2.
Qed.

(** All operators of an ordered tree bind at least as strongly as its root. *)
Lemma spine_precedence p e : ordered e →
  match e with BinaryExpr op _ _ => p <= Token_Precedence op | _ => True end →
  Forall (λ ox, p <= Token_Precedence ox.1) (spine e).2.
Proof.
  induction e as [op l IHl r IHr| | | | | | | | | | | |]; simpl; try (intros; apply Forall_nil_2).
  intros (H1 & H2 & H3 & H4) Hp. apply Forall_app_2; [|constructor; [done|]].
  - apply IHl; [done|]. destruct l; simpl in *; try done. lia.
  - apply IHr; [done|]. destruct r; simpl in *; try done. lia.
Qed.
Lemma insert_op_left op rhs l : left_ok op l → insert_op op rhs l = BinaryExpr op l rhs.
Proof. destruct l; simpl; try done. intros H. by rewrite (proj2 (Z.leb_le _ _) H). Qed.
Lemma foldl_right op l r ops : Forall (λ ox, Token_Precedence op < Token_Precedence ox.1) ops →
  foldl (λ root ox, insert_op ox.1 ox.2 root) (BinaryExpr op l r) ops = BinaryExpr op l (build r ops).
Proof.
  revert r. induction ops as [|[op2 x] ops IH]; intros r H; [done|]. apply Forall_cons in H as [H1 H2]. simpl in *.
  rewrite (proj2 (Z.leb_gt _ _) H1). by rewrite IH.
Qed.
Lemma build_spine e : ordered e → build (spine e).1 (spine e).2 = e.
Proof.
  induction e as [op l IHl r IHr| | | | | | | | | | | |]; simpl; try done. intros (H1 & H2 & H3 & H4).
  unfold build in *. rewrite foldl_app. simpl. rewrite IHl, insert_op_left by done. rewrite foldl_right.
  - unfold build. by rewrite IHr.
  - eapply Forall_impl; [apply (spine_precedence (Token_Precedence op + 1) r H4)|simpl; intros; lia].
    destruct r; simpl in *; try done. lia.
Qed.

(** ** The text to come *)

Lemma parse_bind_ret {A B} (a : A) (k : A → parseM B) s : ((mret a : parseM A) ≫= k) s = k a s.
Proof. done. Qed.

Inductive lexes : list rune → list Scanned → list rune → Prop :=
| lexes_nil l : lexes l [] l
| lexes_cons L tok lit L' pos pend l :
    lex L = (tok, lit, L') → lexes L' pend l → lexes L ((tok, pos, utf8 lit) :: pend) l.

(** [L] is to be parsed, at most [k] tokens of it were put back, and [done] can
    be put back, the last one first. *)
Definition view (k : nat) (s : bufScanner) (done : list Scanned) (L : list rune) : Prop :=
  ∃ pend back l, at_ s pend (done ++ back) l ∧ (length pend ≤ k)%nat ∧ lexes L pend l.

Lemma view_new text : no_nul text → view 0 (newBufScanner text) [] (normal text).
Proof. intros H. eexists [], _, _. split; [by apply at_new|]. split; [done|constructor]. Qed.
Lemma view_mono k k' s done L : view k s done L → (k ≤ k')%nat → view k' s done L.
Proof. intros (pend & back & l & H & Hk & Hl) Hle. exists pend, back, l. split_and!; [done|lia|done]. Qed.
Lemma view_forget k s done L : view k s done L → view k s [] L.
Proof. intros (pend & back & l & H & Hk & Hl). by exists pend, (done ++ back), l. Qed.

Lemma lexes_length L pend l : lexes L pend l → (length l ≤ length L)%nat.
Proof.
  induction 1 as [|L tok lit L' pos pend l E H IH]; [done|]. destruct (lex_rest L) as [a Ha]. rewrite E in Ha.
  apply (f_equal length) in Ha. rewrite length_app in Ha. simpl in Ha. lia.
Qed.

Section view.
Context (F : nat).

Lemma view_scan k s done L tok lit L' :
  view k s done L → (length L + 1 < F)%nat → (length done ≤ 1)%nat → lex L = (tok, lit, L') →
  ∃ pos s', scan F s = (s', Ok (tok, pos, utf8 lit)) ∧ view (pred k) s' ((tok, pos, utf8 lit) :: done) L'.
Proof.
  intros (pend & back & l & H & Hk & Hl) Hf Hd E. destruct Hl as [L|L tok0 lit0 L0 pos pend l E0 Hl].
  - destruct (scan_text F s _ L H Hf) as (pos & s' & E' & H'). rewrite E in E', H'. simpl in *. exists pos, s'. split; [done|].
    exists [], (take (2 - length done) back), L'. split; [|split; [simpl; lia|constructor]].
    by rewrite take_app, take_ge in H' by lia.
  - rewrite E in E0. simplify_eq. destruct (scan_pending F s _ _ _ _ H) as (s' & E' & H'). exists pos, s'. split; [done|].
    exists pend, back, l. split; [done|]. split; [simpl in *; lia|done].
Qed.

Lemma view_unscan k s done L tok pos lit L' :
  view k s ((tok, pos, utf8 lit) :: done) L' → lex L = (tok, lit, L') →
  ∃ s', unscan s = (s', Ok tt) ∧ view (S k) s' done L.
Proof.
  intros (pend & back & l & H & Hk & Hl) E. destruct (unscan_at _ _ _ _ _ H) as (s' & E' & H'). exists s'. split; [done|].
  eexists (_ :: pend), back, l. split; [exact H'|]. split; [simpl; lia|]. by econstructor.
Qed.

(** Whitespace of at most one space before a token. *)
Definition gap (ws : list rune) : Prop := ws = [] ∨ ws = [rn " "].

Lemma lex_space L : isWhitespace (peek L) = false → lex (rn " " :: L) = (WS, [rn " "], L).
Proof.
  intros H. unfold lex. simpl. replace (span isWhitespace L) with ([] : list rune, L); [done|].
  destruct L as [|c L]; [done|]. simpl in *. by rewrite H.
Qed.

Lemma view_ignore k s ws L tok lit L' :
  view k s [] (ws ++ L) → (length (ws ++ L) + 1 < F)%nat → gap ws → isWhitespace (peek L) = false →
  lex L = (tok, lit, L') → tok ≠ WS →
  ∃ pos s', scanIgnoreWhitespace F s = (s', Ok (tok, pos, utf8 lit)) ∧ view (pred k) s' [(tok, pos, utf8 lit)] L'.
Proof.
  intros H Hf Hgap Hp E Hne. unfold scanIgnoreWhitespace. destruct Hgap as [->| ->]; simpl in *.
  - destruct (view_scan _ _ _ _ _ _ _ H Hf ltac:(simpl; lia) E) as (pos & s' & E' & H'). exists pos, s'.
    rewrite (st_bind_ok _ _ _ _ _ E'). simpl. by rewrite bool_decide_false.
  - destruct (view_scan _ _ _ _ _ _ _ H Hf ltac:(simpl; lia) (lex_space _ Hp)) as (pos & s1 & E1 & H1).
    rewrite (st_bind_ok _ _ _ _ _ E1). simpl. apply view_forget in H1.
    destruct (view_scan _ _ _ _ _ _ _ H1 ltac:(lia) ltac:(simpl; lia) E) as (pos' & s' & E' & H').
    exists pos', s'. split; [done|]. eapply view_mono; [exact H'|lia].
Qed.

(** Scanned and put back: the whitespace is gone. *)
Lemma view_ignore_unscan {A} k s ws L tok lit L' (q : Scanned → parseM A) :
  view k s [] (ws ++ L) → (length (ws ++ L) + 1 < F)%nat → gap ws → isWhitespace (peek L) = false →
  lex L = (tok, lit, L') → tok ≠ WS →
  ∃ pos s', view (S (pred k)) s' [] L ∧ (scanIgnoreWhitespace F ≫= λ t, unscan;; q t) s = q (tok, pos, utf8 lit) s'.
Proof.
  intros H Hf Hgap Hp E Hne. destruct (view_ignore _ _ _ _ _ _ _ H Hf Hgap Hp E Hne) as (pos & s1 & E1 & H1).
  destruct (view_unscan _ _ _ _ _ _ _ _ H1 E) as (s2 & E2 & H2). exists pos, s2. split; [done|].
  by rewrite (st_bind_ok _ _ _ _ _ E1), (st_bind_ok _ _ _ _ _ E2).
Qed.

Lemma view_expect k s L tok texts lit L' :
  view k s [] L → (length L + 1 < F)%nat → isWhitespace (peek L) = false → lex L = (tok, lit, L') → tok ≠ WS →
  ∃ s', expect F tok texts s = (s', Ok tt) ∧ view (pred k) s' [] L'.
Proof.
  intros H Hf Hp E Hne. destruct (view_ignore _ _ [] _ _ _ _ H Hf (or_introl eq_refl) Hp E Hne) as (pos & s1 & E1 & H1).
  exists s1. unfold expect. rewrite (st_bind_ok _ _ _ _ _ E1). simpl. rewrite bool_decide_true by done.
  split; [done|]. by eapply view_forget.
Qed.
End view.
