(* ===== verification/QlRoundtrip.v ===== *)
(** * Printed expressions are parsed back: [influxql/ast.go], [influxql/parser.go]

    Which expressions [ParseExpr] gives back from the text that [String] gives for
    them, and what the others become. *)

From stdpp Require Import base list strings sets.
From Stdlib Require Import ZArith Ascii Lia SpecFloat.
From S2P Require Import Prelude MetaData QlToken Escape QlExpr QlSelect QlPrint QlReader QlScan QlScanSpec QlScanProps.
From S2P Require Import QlDuration QlNumber QlStmt QlParse QlParseSpec QlParseView.

Local Open Scope Z_scope.

(** ** Text *)

Definition is_ascii (s : string) : bool := forallb (λ c, rn c <? 128) (String.list_ascii_of_string s).
Lemma utf8_runes_of s : is_ascii s = true → utf8 (runes_of s) = s.
Proof.
  induction s as [|c s IH]; [done|]. unfold is_ascii. simpl. intros [Hc%Z.ltb_lt Hs]%andb_true_iff.
  pose proof (rn_range c). rewrite EncodeRune_ascii by lia. rewrite (rn_inj _ _ (rn_byte_of (rn c) ltac:(lia))).
  simpl. f_equal. by apply IH.
Qed.
Lemma runes_of_text s : forallb (λ c, negb (rn c =? eof) && negb (rn c =? carriage)) (String.list_ascii_of_string s) = true → is_text (runes_of s).
Proof.
  induction s as [|c s IH]; [constructor|]. simpl. intros [[H1 H2]%andb_true_iff Hs]%andb_true_iff.
  constructor; [|by apply IH]. pose proof (rn_range c). unfold text_rune, eof in *. lia.
Qed.

(** What may come after an operand. *)
Definition stop (rest : list rune) : Prop :=
  rest = [] ∨ ∃ c rest', rest = c :: rest' ∧ (c = rn " " ∨ c = rn ")" ∨ c = rn ",").

Lemma stop_spec rest : stop rest → ident_stop rest ∧ number_stop rest ∧ isDigit (peek rest) = false.
Proof.
  intros [->|(c & rest' & -> & H)]; [by vm_compute|]. destruct H as [->|[->| ->]]; vm_compute; split_and!; congruence.
Qed.
Lemma stop_lex rest : stop rest → ∃ tok lit L, lex rest = (tok, lit, L) ∧ tok ≠ LPAREN ∧ tok ≠ DOT.
Proof.
  intros [->|(c & rest' & -> & H)]; [by eexists _, _, _|]. destruct H as [->|[->| ->]].
  - unfold lex. simpl. destruct (span isWhitespace rest'). by eexists _, _, _.
  - by eexists _, _, _.
  - by eexists _, _, _.
Qed.

Section roundtrip.
Context {goText : GoText}.

(** The text [rs] of [e], which is no binary expression, is parsed as [e] when
    nothing follows that belongs to it. *)
Definition unit_text (rs : list rune) (e : Expr) : Prop :=
  utf8 rs = Expr_String e ∧ is_text rs ∧ rs ≠ [] ∧ isWhitespace (peek rs) = false.
Definition unit_parses (rs : list rune) (e : Expr) : Prop :=
  ∀ F n s ws rest, stop rest → gap ws → (length (ws ++ rs ++ rest) + 1 < F)%nat → (length (rs ++ rest) ≤ n)%nat →
    view 2 s [] (ws ++ rs ++ rest) →
    ∃ s', parseUnaryExpr F (ParseExpr_at F n) s = (s', Ok e) ∧ view 1 s' [] rest.

(** *** One token *)

(** The text starts with the token [tok], and [tl] follows it. *)
Lemma token_parses rs tok lit tl e :
  (∀ rest, stop rest → lex (rs ++ rest) = (tok, lit, tl ++ rest)) → tok ≠ WS → tok ≠ LPAREN →
  rs ≠ [] → isWhitespace (peek rs) = false →
  (∀ F n s rest pos, stop rest → (length (rs ++ rest) + 1 < F)%nat → (length (rs ++ rest) ≤ n)%nat →
     view 1 s [(tok, pos, utf8 lit)] (tl ++ rest) →
     ∃ s', parse_unary_token F (ParseExpr_at F n) (tok, pos, utf8 lit) s = (s', Ok e) ∧ view 1 s' [] rest) →
  unit_parses rs e.
Proof.
  intros Hlex H1 H2 Hne Hws Hp F n s ws rest Hstop Hgap Hf Hn Hv. specialize (Hlex rest Hstop).
  assert (Hws' : isWhitespace (peek (rs ++ rest)) = false) by by destruct rs.
  destruct (view_ignore F _ _ _ _ _ _ _ Hv Hf Hgap Hws' Hlex H1) as (pos & s1 & E1 & V1).
  destruct (view_unscan _ _ _ _ _ _ _ _ V1 Hlex) as (s2 & E2 & V2).
  assert (Hf' : (length (rs ++ rest) + 1 < F)%nat) by (rewrite length_app in Hf; lia).
  destruct (view_ignore F _ _ [] _ _ _ _ V2 Hf' (or_introl eq_refl) Hws' Hlex H1) as (pos2 & s3 & E3 & V3).
  destruct (Hp F n s3 rest pos2 Hstop Hf' Hn (view_mono _ 1 _ _ _ V3 ltac:(simpl; lia))) as (s4 & E4 & V4). exists s4. split; [|done].
  unfold parseUnaryExpr. rewrite (st_bind_ok _ _ _ _ _ E1). simpl fst. rewrite bool_decide_false by done.
  by rewrite (st_bind_ok _ _ _ _ _ E2), (st_bind_ok _ _ _ _ _ E3).
Qed.

(** A literal is given back without looking further. *)
Lemma literal_parses rs tok lit e :
  (∀ rest, stop rest → lex (rs ++ rest) = (tok, lit, rest)) → tok ≠ WS → tok ≠ LPAREN →
  rs ≠ [] → isWhitespace (peek rs) = false →
  (∀ F parse pos s, parse_unary_token F parse (tok, pos, utf8 lit) s = (s, Ok e)) → unit_parses rs e.
Proof.
  intros Hlex H1 H2 Hne Hws Hp. eapply (token_parses _ _ _ []); [done..|]. intros F n s rest pos _ _ _ Hv. exists s.
  split; [apply Hp|]. by eapply view_forget.
Qed.

(** ** Literals *)

Lemma boolean_parses b : ∃ rs, unit_text rs (BooleanLiteral b) ∧ unit_parses rs (BooleanLiteral b).
Proof.
  exists (runes_of (Expr_String (BooleanLiteral b))). split.
  - split_and!; [by destruct b|apply runes_of_text; by destruct b|by destruct b..].
  - apply (literal_parses _ (if b then TRUE else FALSE) []); try by destruct b.
    intros rest (Hi & _)%stop_spec. by destruct b; apply lex_keyword.
Qed.

Lemma wildcard_parses : ∃ rs, unit_text rs Wildcard ∧ unit_parses rs Wildcard.
Proof.
  exists [rn "*"]. split; [split_and!; [done|by apply text_one|done..]|]. by apply (literal_parses _ MUL []).
Qed.

Lemma string_parses s : isDateTimeString (utf8 s) = false → isDateString (utf8 s) = false → is_text s →
  ∃ rs, unit_text rs (StringLiteral (utf8 s)) ∧ unit_parses rs (StringLiteral (utf8 s)).
Proof.
  intros Hdt Hd Ht. exists (rn squote :: quote_runes (rn squote) s ++ [rn squote]). split.
  - split_and!; [by apply in_quotes_runes|by apply quote_text|done..].
  - apply (literal_parses _ STRING s); [|done..|]; [intros; apply lex_quoted_string|]. intros. unfold parse_unary_token, string_literal.
    simpl. by rewrite Hdt, Hd.
Qed.

(** The text of a time is a string that [time.Parse] gives the time back for. *)
Definition time_ok (t : Time) : Prop :=
  ∃ r, is_text r ∧ utf8 r = time_Format t ∧ quote_runes (rn squote) r = r ∧ isDateTimeString (time_Format t) = true ∧
    (time_Parse DateTimeFormat (time_Format t) = Some t ∨
     time_Parse DateTimeFormat (time_Format t) = None ∧ time_Parse RFC3339Nano (time_Format t) = Some t).

Lemma time_parses t : time_ok t → ∃ rs, unit_text rs (TimeLiteral t) ∧ unit_parses rs (TimeLiteral t).
Proof.
  intros (r & Ht & Hr & Hq & Hd & Hp). exists (rn squote :: quote_runes (rn squote) r ++ [rn squote]). split.
  - split_and!; [|by apply quote_text|done..]. rewrite in_quotes_runes by done. simpl. rewrite quoted_utf8, Hq, Hr by done. done.
  - apply (literal_parses _ STRING r); [|done..|]; [intros; apply lex_quoted_string|]. intros. unfold parse_unary_token, string_literal.
    simpl. rewrite Hr, Hd. destruct Hp as [->|[-> ->]]; done.
Qed.

(** The characters of numbers and durations. *)
Definition number_char (c : ascii) : bool :=
  isDigit (rn c) || isLetter (rn c) || bool_decide (c = "-"%char) || bool_decide (c = "."%char).
Definition number_chars (s : string) : bool := forallb number_char (String.list_ascii_of_string s).

Lemma number_chars_app a b : number_chars (a +:+ b) = number_chars a && number_chars b.
Proof.
  unfold number_chars. induction a as [|c a IH]; [done|]. simpl. rewrite IH. by rewrite andb_assoc.
Qed.
Lemma number_chars_digits s : all_digits s = true → number_chars s = true.
Proof.
  induction s as [|c s IH]; [done|]. simpl. intros [Hc Hs]%andb_true_iff. unfold number_chars. simpl.
  apply andb_true_iff. split; [unfold number_char; by rewrite Hc|by apply IH].
Qed.
Lemma number_chars_Sprintf z : number_chars (Sprintf_d z) = true.
Proof.
  unfold Sprintf_d. destruct (z <? 0); [change (number_chars (decimal (- z)) = true)|];
    apply number_chars_digits, decimal_digits.
Qed.
Lemma number_char_spec c : number_char c = true → 0 < rn c < 128 ∧ rn c ≠ carriage ∧ isWhitespace (rn c) = false.
Proof.
  unfold number_char. intros H. destruct (decide (c = "-"%char)) as [->|H1]; [by vm_compute|].
  destruct (decide (c = "."%char)) as [->|H2]; [by vm_compute|]. rewrite !bool_decide_eq_false_2, !orb_false_r in H by done.
  unfold carriage. unfold isDigit, isLetter, isWhitespace, between in *. clear H1 H2. generalize dependent (rn c). intros r H. rn_values. lia.
Qed.
Lemma number_chars_text s : number_chars s = true → s ≠ EmptyString →
  utf8 (runes_of s) = s ∧ is_text (runes_of s) ∧ runes_of s ≠ [] ∧ isWhitespace (peek (runes_of s)) = false.
Proof.
  intros H Hne. split_and!.
  - apply utf8_runes_of. unfold is_ascii, number_chars in *. apply forallb_forall. intros c Hc.
    apply Z.ltb_lt, number_char_spec. by apply (proj1 (forallb_forall _ _) H).
  - apply runes_of_text. apply forallb_forall. intros c Hc.
    pose proof (number_char_spec c (proj1 (forallb_forall _ _) H c Hc)) as (H1 & H2 & _). unfold eof. lia.
  - by destruct s.
  - destruct s as [|c s]; [done|]. unfold number_chars in H. simpl in H. apply andb_true_iff in H as [H _].
    by apply number_char_spec in H as (_ & _ & ?).
Qed.

(** A duration of whole milliseconds. *)
Lemma format_units_chars u text : (u, text) ∈ format_units → number_chars text = true.
Proof.
  intros Hin. unfold format_units in Hin. rewrite !elem_of_cons, elem_of_nil in Hin.
  destruct Hin as [[= _ ->]|[[= _ ->]|[[= _ ->]|[[= _ ->]|[[= _ ->]|[[= _ ->]|[]]]]]]]; reflexivity.
Qed.
Lemma FormatDuration_chars d : number_chars (FormatDuration d) = true ∧ FormatDuration d ≠ EmptyString.
Proof.
  assert (Hs : ∀ z t, Sprintf_d z +:+ t ≠ EmptyString).
  { intros z t. unfold Sprintf_d. destruct (z <? 0); [done|]. destruct (decimal_digits z) as [_ H]. by destruct (decimal z). }
  unfold FormatDuration. destruct (d =? 0); [done|]. pose proof (format_units_ms d) as Hf.
  destruct (list_find _ _) as [[i [u text]]|].
  - split; [|apply Hs]. rewrite number_chars_app, number_chars_Sprintf. apply (format_units_chars u). tauto.
  - split; [apply number_chars_Sprintf|]. rewrite <- (string_app_nil (Sprintf_d _)). apply Hs.
Qed.
Lemma duration_parses d : is_i64 d → Z.rem d Millisecond = 0 →
  ∃ rs, unit_text rs (DurationLiteral d) ∧ unit_parses rs (DurationLiteral d).
Proof.
  intros Hd Hms. destruct (FormatDuration_chars d) as [Hc Hne]. destruct (number_chars_text _ Hc Hne) as (H1 & H2 & H3 & H4).
  exists (runes_of (FormatDuration d)). split; [done|].
  assert (Hp : ∀ rest, stop rest → ParseDuration (FormatDuration d) = Some d ∧
    lex (runes_of (FormatDuration d) ++ rest) = (DURATION_VAL, runes_of (FormatDuration d), rest)).
  { intros rest (_ & Hn & _)%stop_spec. destruct (FormatDuration_roundtrip d rest Hd Hn) as [-> ->]. rewrite Hms. split; [|done].
    f_equal. assert (Z.rem d Microsecond = 0); [|lia]. apply Z.rem_divide in Hms; [|done]. apply Z.rem_divide; [done|].
    etransitivity; [|exact Hms]. by exists 1000. }
  apply (literal_parses _ DURATION_VAL (runes_of (FormatDuration d))); try done.
  - intros rest Hs. by apply Hp.
  - intros F parse pos s. unfold parse_unary_token. simpl. rewrite H1. by rewrite (proj1 (Hp [] (or_introl eq_refl))).
Qed.

(** A number that its text gives back. *)
Lemma three_digits_spec n : 0 <= n < 1000 → ∃ a b c, three_digits n = String a (String b (String c EmptyString)) ∧
  isDigit (rn a) = true ∧ isDigit (rn b) = true ∧ isDigit (rn c) = true.
Proof.
  intros H. eexists _, _, _. split; [reflexivity|].
  assert (Hd : ∀ k, 0 <= k < 10 → isDigit (rn (digit_char k)) = true).
  { intros k Hk. unfold digit_char. rewrite rn_byte_of by (rn_values; lia). unfold isDigit, between. rn_values. lia. }
  split_and!; apply Hd; Z.to_euclidean_division_equations; lia.
Qed.
Lemma lex_decimal neg digits frac rest :
  all_digits digits = true → digits ≠ EmptyString → all_digits frac = true → frac ≠ EmptyString → isDigit (peek rest) = false →
  lex (runes_of (sign_text neg +:+ digits +:+ "." +:+ frac) ++ rest) =
    (NUMBER, runes_of (sign_text neg +:+ digits +:+ "." +:+ frac), rest).
Proof.
  intros H1 H2 H3 H4 Hr. apply runes_of_digits in H1, H3.
  assert (Hn : ∀ sign, lex_number sign (runes_of digits ++ dot :: runes_of frac ++ rest) =
    (NUMBER, sign ++ runes_of digits ++ dot :: runes_of frac, rest)).
  { intros sign. unfold lex_number. rewrite (span_all _ _ _ H1) by done. destruct frac as [|f frac]; [done|]. simpl in H3 |- *.
    apply andb_true_iff in H3 as [Hf H3]. rewrite Hf. change (dot =? dot) with true. simpl.
    by rewrite (span_all _ _ _ H3 Hr). }
  destruct digits as [|d digits]; [done|]. rewrite !runes_of_app. change (runes_of ".") with [dot]. rewrite <- !app_assoc.
  assert (Hd : isDigit (rn d) = true) by (simpl in H1; by apply andb_true_iff in H1 as [? _]). destruct neg.
  - change (runes_of (sign_text true)) with [rn "-"]. cbn [app]. specialize (Hn [rn "-"]).
    change (lex (rn "-" :: ?l)) with (if starts_number l then lex_number [rn "-"] l else (SUB, [], l)).
    match goal with |- (if starts_number ?l then _ else _) = _ => assert (starts_number l = true) as -> end.
    { unfold starts_number. simpl. by rewrite Hd. }
    exact Hn.
  - cbn [sign_text runes_of app] in Hn |- *. rewrite lex_digit by done. apply (Hn []).
Qed.
Lemma FormatFloat_shape f g : ParseFloat (FormatFloat f) = Some g →
  ∃ neg digits frac, FormatFloat f = sign_text neg +:+ digits +:+ "." +:+ frac ∧ all_digits digits = true ∧ digits ≠ EmptyString ∧
    all_digits frac = true ∧ frac ≠ EmptyString.
Proof.
  destruct f as [neg|neg| |neg m e]; [|by destruct neg|done|]; intros _.
  - by exists neg, "0", "000".
  - unfold FormatFloat. set (n := if 0 <=? e then _ else _). exists neg, (decimal (n / 1000)), (three_digits (n mod 1000)).
    destruct (decimal_digits (n / 1000)) as [H1 H2].
    destruct (three_digits_spec (n mod 1000)) as (a & b & c & E & Ha & Hb & Hc); [by apply Z.mod_pos_bound|].
    split_and!; [done..| |]; rewrite E; [|done]. simpl. by rewrite Ha, Hb, Hc.
Qed.
Lemma number_parses f : ParseFloat (FormatFloat f) = Some f →
  ∃ rs, unit_text rs (NumberLiteral f) ∧ unit_parses rs (NumberLiteral f).
Proof.
  intros Hp. destruct (FormatFloat_shape f f Hp) as (neg & digits & frac & E & H1 & H2 & H3 & H4).
  assert (Hc : number_chars (FormatFloat f) = true).
  { rewrite E, !number_chars_app, (number_chars_digits digits), (number_chars_digits frac) by done. by destruct neg. }
  assert (Hne : FormatFloat f ≠ EmptyString) by (rewrite E; destruct neg, digits; done).
  destruct (number_chars_text _ Hc Hne) as (T1 & T2 & T3 & T4). exists (runes_of (FormatFloat f)). split; [done|].
  apply (literal_parses _ NUMBER (runes_of (FormatFloat f))); try done.
  - intros rest (_ & _ & Hs)%stop_spec. rewrite E. by apply lex_decimal.
  - intros F parse pos s. unfold parse_unary_token. simpl. by rewrite T1, Hp.
Qed.

(** ** Regular expressions *)

Definition esc_runes (r : list rune) : list rune := r ≫= λ c, if c =? slash then [rn backslash; slash] else [c].

Lemma esc_app S a b : esc S (a +:+ b) = esc S a +:+ esc S b.
Proof.
  induction a as [|c a IH]; [done|]. change (String c a +:+ b) with (String c (a +:+ b)). cbn [esc].
  case_bool_decide; by rewrite IH.
Qed.
Lemma esc_high s : high s → esc ["/"%char] s = s.
Proof.
  induction s as [|c s IH]; [done|]. intros [Hc Hs]. cbn [esc]. rewrite bool_decide_eq_false_2; [by rewrite IH|].
  intros ->%list_elem_of_singleton. by vm_compute in Hc.
Qed.
Lemma esc_utf8 r : is_text r → esc ["/"%char] (utf8 r) = utf8 (esc_runes r).
Proof.
  induction 1 as [|c r Hc Hr IH]; [done|]. apply text_rune_spec in Hc as [Hc _].
  change (esc_runes (c :: r)) with ((if c =? slash then [rn backslash; slash] else [c]) ++ esc_runes r).
  rewrite utf8_app, <- IH. cbn [utf8 foldr]. rewrite esc_app. f_equal. destruct (Z.lt_ge_cases c 128) as [Hlt|Hge].
  - rewrite EncodeRune_ascii by lia. cbn [esc]. destruct (Z.eqb_spec c slash) as [->|Hne]; [done|].
    rewrite bool_decide_eq_false_2; [cbn [utf8 foldr]; by rewrite EncodeRune_ascii by lia|].
    intros H%list_elem_of_singleton. apply Hne. unfold slash. rewrite <- H, rn_byte_of; lia.
  - destruct (EncodeRune_high c Hge) as (x & t & E & Hh). rewrite E, esc_high by done.
    rewrite (proj2 (Z.eqb_neq c slash)) by (intros ->; by vm_compute in Hge). cbn [utf8 foldr]. rewrite E. by rewrite string_app_nil.
Qed.
Lemma lex_delimited_esc r acc rest : rn newline ∉ r → last r ≠ Some (rn backslash) →
  lex_delimited acc (esc_runes r ++ slash :: rest) = (REGEX, acc ++ r, rest).
Proof.
  revert acc. induction r as [|c r IH]; intros acc Hn Hl; [by rewrite app_nil_r|].
  change (esc_runes (c :: r)) with ((if c =? slash then [rn backslash; slash] else [c]) ++ esc_runes r). rewrite <- app_assoc.
  assert (Hstep : ∀ acc, lex_delimited acc (esc_runes r ++ slash :: rest) = (REGEX, acc ++ r, rest)).
  { intros acc'. apply IH; [set_solver|]. by destruct r. }
  destruct (Z.eqb_spec c slash) as [->|Hc].
  { cbn [app lex_delimited]. change (rn backslash =? slash) with false. change (rn backslash =? rn newline) with false.
    rewrite !Z.eqb_refl, Hstep. by rewrite <- app_assoc. }
  cbn [app lex_delimited]. rewrite (proj2 (Z.eqb_neq c slash) Hc), (proj2 (Z.eqb_neq c (rn newline))) by set_solver.
  destruct (Z.eqb_spec c (rn backslash)) as [->|Hb]; [|rewrite Hstep; by rewrite <- app_assoc].
  destruct r as [|d r]; [done|].
  assert (∃ x l, esc_runes (d :: r) ++ slash :: rest = x :: l ∧ x ≠ slash) as (x & l & E & Hx).
  { change (esc_runes (d :: r)) with ((if d =? slash then [rn backslash; slash] else [d]) ++ esc_runes r).
    destruct (Z.eqb_spec d slash); by eexists _, _. }
  rewrite E at 1. rewrite (proj2 (Z.eqb_neq x slash) Hx), Hstep. by rewrite <- app_assoc.
Qed.

(** A regular expression that the scanner can give. *)
Definition regex_ok (re : string) : Prop :=
  regexp_Compile re = true ∧ ∃ r, is_text r ∧ re = utf8 r ∧ rn newline ∉ r ∧ last r ≠ Some (rn backslash).

Lemma esc_runes_text r : is_text r → is_text (esc_runes r).
Proof.
  intros H. unfold is_text in *. rewrite Forall_forall in H |- *. intros x Hx. unfold esc_runes in Hx. apply list_elem_of_bind in Hx as (c & Hx & Hin).
  destruct (Z.eqb_spec c slash); [|apply H; set_solver]. assert (x = rn backslash ∨ x = slash) as [-> | ->] by set_solver; done.
Qed.

Lemma regex_parses re : regex_ok re → ∃ rs, unit_text rs (RegexLiteral re) ∧ peek rs = slash ∧
  ∀ F s rest, (length (rs ++ rest) < F)%nat → view 0 s [] (rs ++ rest) →
    ∃ s', parseRegex F s = (s', Ok (Some re)) ∧ view 0 s' [] rest.
Proof.
  intros (Hc & r & Ht & -> & Hn & Hl). exists (slash :: esc_runes r ++ [slash]). split; [|split; [done|]].
  - split_and!; [|apply Forall_cons_2; [done|apply text_app; [by apply esc_runes_text|by apply text_one]]|done..].
    simpl. unfold RegexLiteral_String. change (String backslash "/") with (code_of "/"). rewrite Replace_esc, esc_utf8 by done.
    rewrite utf8_app. done.
  - intros F s rest Hf (pend & back & l & H & Hk & Hlex). destruct pend; [|simpl in Hk; lia]. inversion Hlex; subst l.
    destruct (peekRune_at _ _ _ _ H) as (s1 & E1 & H1). destruct (peekRune_at _ _ _ _ H1) as (s2 & E2 & H2).
    destruct (scanRegex_text F s2 _ _ H2 Hf eq_refl) as (pos & s3 & E3 & H3).
    assert (Hr : lex_regex ((slash :: esc_runes r ++ [slash]) ++ rest) = (REGEX, r, rest)).
    { cbn [app]. rewrite <- app_assoc. exact (lex_delimited_esc r [] rest Hn Hl). }
    rewrite Hr in E3, H3. exists s3. split.
    + unfold parseRegex. rewrite (st_bind_ok _ _ _ _ _ E1). cbn [app peek]. change (isWhitespace slash) with false.
      cbv iota. rewrite parse_bind_ret. rewrite (st_bind_ok _ _ _ _ _ E2). cbn [app peek].
      change (slash =? rn "/") with true. cbn [negb]. rewrite (st_bind_ok _ _ _ _ _ E3). simpl. by rewrite Hc.
    + eexists [], _, rest. split; [exact H3|]. split; [done|constructor].
Qed.

(** ** Names *)

Lemma lexed_nonempty rs tok lit : lex rs = (tok, lit, []) → tok ≠ EOF → rs ≠ [].
Proof. intros H Hne ->. by injection H as <- _. Qed.

Lemma segments_stop F s v rest : stop rest → (length rest + 1 < F)%nat → view 1 s [] rest →
  ∃ s', segments_loop F F [v] s = (s', Ok [v]) ∧ view 1 s' [] rest.
Proof.
  intros Hs Hf Hv. destruct (stop_lex rest Hs) as (tok & lit & L & E & _ & Hdot).
  destruct (view_scan F _ _ _ _ _ _ _ Hv Hf ltac:(simpl; lia) E) as (pos & s1 & E1 & V1).
  destruct (view_unscan _ _ _ _ _ _ _ _ V1 E) as (s2 & E2 & V2). exists s2. destruct F; [lia|]. split; [|done].
  cbn [segments_loop]. rewrite (st_bind_ok _ _ _ _ _ E1). simpl fst. rewrite bool_decide_false by done. cbn [negb].
  by rewrite (st_bind_ok _ _ _ _ _ E2).
Qed.

Lemma varref_parses v : is_text v → v ≠ [] → ∃ rs, unit_text rs (VarRef (utf8 v)) ∧ unit_parses rs (VarRef (utf8 v)).
Proof.
  intros Ht Hne. destruct (lex_quoted_ident v Ht Hne) as (rs & E & Hc & Hlex). exists rs.
  assert (Hne' : rs ≠ []).
  { specialize (Hlex [] ltac:(vm_compute; split; congruence)). rewrite app_nil_r in Hlex. by eapply lexed_nonempty. }
  assert (Hws : isWhitespace (peek rs) = false).
  { destruct rs as [|c rs]; [done|]. simpl. specialize (Hlex [] ltac:(vm_compute; split; congruence)). simpl in Hlex.
    destruct (isWhitespace c); [|done]. by destruct (span isWhitespace (rs ++ [])). }
  assert (Hlex' : ∀ rest, stop rest → lex (rs ++ rest) = (IDENT, v, rest)) by (intros rest (Hi & _)%stop_spec; auto).
  split; [done|]. apply (token_parses _ IDENT v []); [done..|]. intros F n s rest pos Hs Hf Hn Hv. clear Hlex Hn.
  destruct (stop_lex rest Hs) as (tok & lit & L & E0 & Hl & _). assert (Hf' : (length rest + 1 < F)%nat) by (rewrite length_app in Hf; lia).
  destruct (view_scan F _ _ _ _ _ _ _ Hv Hf' ltac:(simpl; lia) E0) as (pos0 & s1 & E1 & V1).
  destruct (view_unscan _ _ _ _ _ _ _ _ V1 E0) as (s2 & E2 & V2).
  destruct (view_unscan _ _ _ _ _ _ _ _ V2 (Hlex' rest Hs)) as (s3 & E3 & V3).
  assert (Hws' : isWhitespace (peek (rs ++ rest)) = false) by by destruct rs.
  destruct (view_ignore F _ _ [] _ _ _ _ V3 Hf (or_introl eq_refl) Hws' (Hlex' rest Hs)) as (pos4 & s4 & E4 & V4); [done|].
  destruct (segments_stop F s4 (utf8 v) rest Hs Hf') as (s5 & E5 & V5); [eapply view_mono, le_n; by eapply view_forget|].
  exists s5. split; [|done]. unfold parse_unary_token. cbn [fst]. rewrite (st_bind_ok _ _ _ _ _ E1). cbn [fst].
  rewrite bool_decide_false by done. rewrite (st_bind_ok _ _ _ _ _ E2), (st_bind_ok _ _ _ _ _ E3).
  unfold parseVarRef, parseSegmentedIdents, parseIdent.
  assert (Ei : (t ← scanIgnoreWhitespace F; if bool_decide (t.1.1 = IDENT) then mret t.2 else expected t ["identifier"]) s3 =
    (s4, Ok (utf8 v))) by by rewrite (st_bind_ok _ _ _ _ _ E4).
  unfold mbind at 1, ST_bind at 1. rewrite (st_bind_ok _ _ _ _ _ Ei), (st_bind_ok _ _ _ _ _ E5). done.
Qed.

(** A name that needs no quotes. *)
Definition plain_name (v : string) : Prop :=
  Lookup v = IDENT ∧ ∃ r, v = utf8 r ∧ forallb isIdentChar r = true ∧
    match r with [] => False | c :: _ => isIdentFirstChar c = true end.

Lemma ident_first_space c : isIdentFirstChar c = true → isWhitespace c = false.
Proof. unfold isIdentFirstChar, isLetter, isWhitespace, between. intros H. rn_values. lia. Qed.

Lemma distinct_parses v : plain_name v → ∃ rs, unit_text rs (Distinct v) ∧ unit_parses rs (Distinct v).
Proof.
  intros (Hk & r & -> & Hall & Hfirst). exists (runes_of "DISTINCT " ++ r). split.
  { split_and!; [by rewrite utf8_app|apply text_app; [by apply runes_of_text|by apply ident_chars_text]|done..]. }
  assert (Hr : isWhitespace (peek r) = false) by (destruct r; [done|by apply ident_first_space]).
  apply (token_parses _ DISTINCT [] (rn " " :: r)); [|done..|].
  { intros rest _. exact (lex_keyword (rn "D") (runes_of "ISTINCT") (rn " " :: r ++ rest) eq_refl
      ltac:(by vm_compute) ltac:(vm_compute; split; congruence)). }
  intros F n s rest pos Hs Hf _ Hv. apply view_forget in Hv. rewrite <- app_assoc in Hf. rewrite length_app in Hf. simpl in Hf.
  assert (Hlex : lex (r ++ rest) = (IDENT, r, rest)) by (apply lex_bare; [done..|]; by apply stop_spec).
  assert (Hws : isWhitespace (peek (r ++ rest)) = false) by by destruct r.
  destruct (view_scan F _ _ _ _ _ _ _ Hv ltac:(simpl; lia) ltac:(simpl; lia) (lex_space _ Hws)) as (pos1 & s1 & E1 & V1).
  apply view_forget in V1.
  destruct (view_ignore F _ _ [] _ _ _ _ V1 ltac:(simpl; lia) (or_introl eq_refl) Hws Hlex) as (pos2 & s2 & E2 & V2); [done|].
  exists s2. split; [|eapply view_mono; [by eapply view_forget|lia]].
  unfold parse_unary_token, parse_distinct. cbn [fst]. rewrite (st_bind_ok _ _ _ _ _ E1). cbn [fst].
  by rewrite (st_bind_ok _ _ _ _ _ E2).
Qed.

(** ** Operators *)

(** What may come after an expression: something that is no operator, after at
    most one space. *)
Definition closing (ws rest : list rune) : Prop :=
  gap ws ∧ stop (ws ++ rest) ∧ isWhitespace (peek rest) = false ∧ (lex rest).1.1 ≠ WS ∧ Token_isOperator (lex rest).1.1 = false.
Definition expr_parses (rs : list rune) (e : Expr) : Prop :=
  ∀ F n s ws ws' rest, closing ws' rest → gap ws → (length (ws ++ rs ++ ws' ++ rest) + 1 < F)%nat →
    (length (rs ++ ws' ++ rest) < n)%nat → view 2 s [] (ws ++ rs ++ ws' ++ rest) →
    ∃ s', ParseExpr_at F n s = (s', Ok e) ∧ view 1 s' [] rest.

Lemma lex_op op rest : Token_isOperator op = true →
  lex (runes_of (Token_String op) ++ rn " " :: rest) = (op, [], rn " " :: rest) ∧ op ≠ WS ∧ op ≠ EOF ∧
  isWhitespace (peek (runes_of (Token_String op) ++ rn " " :: rest)) = false ∧
  utf8 (runes_of (Token_String op)) = Token_String op ∧ is_text (runes_of (Token_String op)).
Proof.
  intros H. destruct op; try done; (split_and!; [|done..|by apply runes_of_text]); try reflexivity.
Qed.

(** The text of an operand, by its operator. *)
Definition operand_text (op : Token) (rs : list rune) (x : Expr) : Prop :=
  unit_text rs x ∧ is_binary x = false ∧
  ∀ F n s rest, stop rest → (length (rn " " :: rs ++ rest) + 1 < F)%nat → (length (rs ++ rest) ≤ n)%nat →
    view 0 s [] (rn " " :: rs ++ rest) → ∃ s', operand F (ParseExpr_at F n) op s = (s', Ok x) ∧ view 1 s' [] rest.

Lemma operand_unit op rs x : IsRegexOp op = false → unit_text rs x → is_binary x = false → unit_parses rs x → operand_text op rs x.
Proof.
  intros Hop Ht Hb Hp. split_and!; [done..|]. intros F n s rest Hs Hf Hn Hv. unfold operand. rewrite Hop.
  eapply (Hp F n s [rn " "]); [done|by right|done..|]. eapply view_mono; [exact Hv|lia].
Qed.
Lemma operand_regex op re : IsRegexOp op = true → regex_ok re → ∃ rs, operand_text op rs (RegexLiteral re).
Proof.
  intros Hop Hre. destruct (regex_parses re Hre) as (rs & Ht & Hpeek & Hp). exists rs. split_and!; [done..|].
  intros F n s rest Hs Hf _ Hv. unfold operand. rewrite Hop. destruct Ht as (_ & _ & Hne & Hws).
  assert (Hws' : isWhitespace (peek (rs ++ rest)) = false) by by destruct rs.
  destruct (view_scan F _ _ _ _ _ _ _ Hv Hf ltac:(simpl; lia) (lex_space _ Hws')) as (pos & s1 & E1 & V1).
  destruct (Hp F s1 rest) as (s2 & E2 & V2); [simpl in Hf; lia|by eapply view_forget|]. exists s2.
  split; [|by eapply view_mono, Nat.le_0_l].
  assert (Ec : consumeWhitespace F s = (s1, Ok tt)) by (unfold consumeWhitespace; by rewrite (st_bind_ok _ _ _ _ _ E1)).
  by rewrite (st_bind_ok _ _ _ _ _ Ec), (st_bind_ok _ _ _ _ _ E2).
Qed.

Inductive chain : list (Token * Expr) → list rune → Prop :=
| chain_nil : chain [] []
| chain_cons op x rs ops txt :
    Token_isOperator op = true → operand_text op rs x → chain ops txt →
    chain ((op, x) :: ops) (rn " " :: runes_of (Token_String op) ++ rn " " :: rs ++ txt).

Lemma chain_app a b t1 t2 : chain a t1 → chain b t2 → chain (a ++ b) (t1 ++ t2).
Proof.
  induction 1 as [|op x rs ops txt Hop Hx Hc IH]; [done|]. intros H. simpl. rewrite <- app_assoc. simpl. rewrite <- app_assoc.
  constructor; auto.
Qed.
Lemma chain_length ops txt : chain ops txt → (length ops ≤ length txt)%nat.
Proof. induction 1 as [|op x rs ops txt Hop Hx Hc IH]; [done|]. simpl. rewrite !length_app. simpl. rewrite length_app. lia. Qed.
Lemma chain_stop ops txt rest : chain ops txt → stop rest → stop (txt ++ rest).
Proof. intros [|op x rs ops' txt' _ _ _] H; [done|]. right. eexists _, _. split; [reflexivity|by left]. Qed.
Lemma chain_text ops txt : chain ops txt → is_text txt.
Proof.
  induction 1 as [|op x rs ops txt Hop (Hx & _) Hc IH]; [constructor|].
  apply Forall_cons_2; [done|]. apply text_app; [by apply (lex_op op [])|]. apply Forall_cons_2; [done|].
  apply text_app; [apply Hx|done].
Qed.
Lemma chain_units ops txt : chain ops txt → Forall (λ ox, is_binary ox.2 = false) ops.
Proof. induction 1 as [|op x rs ops txt Hop (_ & Hx & _) Hc IH]; by constructor. Qed.

Lemma operators_parses ops txt : chain ops txt → ∀ F n s root ws' rest fuel,
  closing ws' rest → (length (txt ++ ws' ++ rest) + 1 < F)%nat → (length (txt ++ ws' ++ rest) ≤ n)%nat → (length ops < fuel)%nat →
  view 1 s [] (txt ++ ws' ++ rest) →
  ∃ s', operators F (ParseExpr_at F n) fuel root s = (s', Ok (build root ops)) ∧ view 1 s' [] rest.
Proof.
  induction 1 as [|op x rs ops txt Hop Hx Hc IH]; intros F n s root ws' rest fuel Hcl Hf Hn Hfuel Hv;
    (destruct fuel as [|fuel]; [simpl in Hfuel; lia|]); cbn [operators].
  - destruct Hcl as (Hgap & Hstop & Hws & Hne & Hop). destruct (lex rest) as [[tok lit] L] eqn:E. simpl in *.
    destruct (view_ignore F _ _ _ _ _ _ _ Hv Hf Hgap Hws E Hne) as (pos & s1 & E1 & V1).
    destruct (view_unscan _ _ _ _ _ _ _ _ V1 E) as (s2 & E2 & V2). exists s2. split; [|done].
    rewrite (st_bind_ok _ _ _ _ _ E1). cbn [fst]. rewrite Hop. cbn [negb]. by rewrite (st_bind_ok _ _ _ _ _ E2).
  - destruct (lex_op op (rs ++ txt ++ ws' ++ rest) Hop) as (E & Hne & _ & Hws & _).
    destruct Hx as (Ht & Hb & Hx). cbn [app length] in *. rewrite <- app_assoc in *. cbn [app] in *. rewrite <- app_assoc in *.
    destruct (view_ignore F _ s [rn " "] _ _ _ _ Hv Hf (or_intror eq_refl) Hws E Hne) as (pos & s1 & E1 & V1).
    apply view_forget in V1. simpl in V1. rewrite length_app in Hf, Hn. cbn [length] in Hf, Hn.
    destruct (Hx F n s1 (txt ++ ws' ++ rest)) as (s2 & E2 & V2);
      [eapply chain_stop; [done|apply Hcl]|cbn [length]; lia|lia|done|].
    destruct (IH F n s2 (insert_op op x root) ws' rest fuel Hcl) as (s3 & E3 & V3);
      [rewrite !length_app in *; lia..|done|]. exists s3. split; [|done].
    rewrite (st_bind_ok _ _ _ _ _ E1). cbn [fst]. rewrite Hop. cbn [negb]. by rewrite (st_bind_ok _ _ _ _ _ E2).
Qed.

(** An operand and the operators after it. *)
Lemma chain_parses e0 rs0 ops txt e : unit_text rs0 e0 → unit_parses rs0 e0 → chain ops txt → build e0 ops = e →
  expr_parses (rs0 ++ txt) e.
Proof.
  intros Ht Hp Hc <- F n s ws ws' rest Hcl Hgap Hf Hn Hv. destruct n as [|n]; [lia|]. cbn [ParseExpr_at].
  rewrite <- app_assoc in *. destruct (Hp F n s ws (txt ++ ws' ++ rest)) as (s1 & E1 & V1);
    [eapply chain_stop; [done|apply Hcl]|done|done|lia|done|].
  pose proof (chain_length _ _ Hc). rewrite !length_app in Hf, Hn.
  destruct (operators_parses ops txt Hc F n s1 e0 ws' rest F Hcl) as (s2 & E2 & V2); [rewrite ?length_app in *; lia..|done|].
  exists s2. split; [|done]. by rewrite (st_bind_ok _ _ _ _ _ E1).
Qed.

(** ** Parentheses and calls *)

Lemma closing_mark c rest : c = rn ")" ∨ c = rn "," → closing [] (c :: rest).
Proof.
  intros H. split_and!; [by left|right; eexists _, _; split; [reflexivity|tauto]|by destruct H as [->| ->]..].
Qed.

Lemma paren_parses rs e : unit_text rs e → expr_parses rs e →
  ∃ rs', unit_text rs' (ParenExpr e) ∧ unit_parses rs' (ParenExpr e).
Proof.
  intros (Ht & Hc & Hne & Hws) Hp. exists (rn "(" :: rs ++ [rn ")"]). split.
  { split_and!; [|apply Forall_cons_2; [done|apply text_app; [done|by apply text_one]]|done..].
    change (utf8 (rn "(" :: rs ++ [rn ")"])) with ("(" +:+ utf8 (rs ++ [rn ")"])). by rewrite utf8_app, Ht. }
  intros F n s ws rest Hs Hgap Hf Hn Hv. cbn [app] in *. rewrite <- app_assoc in *. cbn [app] in *.
  destruct (view_ignore F _ _ _ _ _ _ _ Hv Hf Hgap eq_refl eq_refl ltac:(done)) as (pos & s1 & E1 & V1). simpl in V1.
  apply view_forget in V1. rewrite !length_app in Hf. cbn [length] in Hf, Hn. rewrite !length_app in Hf.
  destruct (Hp F n s1 [] [] (rn ")" :: rest)) as (s2 & E2 & V2);
    [apply closing_mark; by left|by left|cbn [app]; rewrite ?length_app in *; cbn [length] in *; lia|
     cbn [app]; rewrite ?length_app in *; cbn [length] in *; lia|eapply view_mono; [exact V1|lia]|].
  destruct (view_expect F _ _ _ RPAREN [")"] _ _ V2 ltac:(rewrite ?length_app in *; cbn [length] in *; lia) eq_refl eq_refl ltac:(done))
    as (s3 & E3 & V3).
  exists s3. split; [|eapply view_mono; [exact V3|simpl; lia]]. unfold parseUnaryExpr. rewrite (st_bind_ok _ _ _ _ _ E1).
  cbn [fst]. rewrite bool_decide_true by done. by rewrite (st_bind_ok _ _ _ _ _ E2), (st_bind_ok _ _ _ _ _ E3).
Qed.

(** The arguments of a call. *)
Inductive args_text : list Expr → list rune → Prop :=
| args_one e rs : unit_text rs e → expr_parses rs e → args_text [e] rs
| args_more e rs es txt : unit_text rs e → expr_parses rs e → args_text es txt →
    args_text (e :: es) (rs ++ rn "," :: rn " " :: txt).

Lemma args_string es txt : args_text es txt → utf8 txt = strings_Join (Expr_String <$> es) ", " ∧ is_text txt.
Proof.
  induction 1 as [e rs (Ht & Hc & _) _|e rs es txt (Ht & Hc & _) _ Hargs [IH1 IH2]]; [done|]. split.
  - rewrite utf8_app, Ht. change (utf8 (rn "," :: rn " " :: txt)) with (", " +:+ utf8 txt). rewrite IH1.
    destruct es; [by inversion Hargs|done].
  - apply text_app; [done|]. by do 2 (apply Forall_cons_2; [done|]).
Qed.
Lemma args_length es txt : args_text es txt → (length es ≤ length txt)%nat.
Proof.
  induction 1 as [e rs (_ & _ & Hne & _) _|e rs es txt (_ & _ & Hne & _) _ Hargs IH].
  - destruct rs; [done|]. simpl. lia.
  - rewrite length_app. simpl. lia.
Qed.

Lemma comma_list_parses es txt : args_text es txt → ∀ F n fuel s ws rest,
  gap ws → (length (ws ++ txt ++ rn ")" :: rest) + 1 < F)%nat → (length (txt ++ rn ")" :: rest) < n)%nat → (length es ≤ fuel)%nat →
  view 2 s [] (ws ++ txt ++ rn ")" :: rest) →
  ∃ s', comma_list fuel (scan F) (ParseExpr_at F n) s = (s', Ok es) ∧ view 2 s' [] (rn ")" :: rest).
Proof.
  induction 1 as [e rs Ht Hp|e rs es txt Ht Hp Hargs IH]; intros F n fuel s ws rest Hgap Hf Hn Hfuel Hv;
    (destruct fuel as [|fuel]; [simpl in Hfuel; lia|]); cbn [comma_list].
  - destruct (Hp F n s ws [] (rn ")" :: rest)) as (s1 & E1 & V1); [apply closing_mark; by left|done..|].
    rewrite !length_app in Hf. cbn [length] in Hf.
    destruct (view_scan F _ _ _ _ _ _ _ V1 ltac:(cbn [length]; lia) ltac:(simpl; lia) eq_refl) as (pos & s2 & E2 & V2).
    destruct (view_unscan _ _ _ (rn ")" :: rest) _ _ _ _ V2 eq_refl) as (s3 & E3 & V3). exists s3.
    split; [|eapply view_mono; [exact V3|simpl; lia]]. rewrite (st_bind_ok _ _ _ _ _ E1), (st_bind_ok _ _ _ _ _ E2).
    cbn [fst]. rewrite bool_decide_false by done. by rewrite (st_bind_ok _ _ _ _ _ E3).
  - rewrite <- app_assoc in *. cbn [app] in *.
    destruct (Hp F n s ws [] (rn "," :: rn " " :: txt ++ rn ")" :: rest)) as (s1 & E1 & V1); [apply closing_mark; by right|done..|].
    rewrite ?length_app in Hf, Hn. cbn [length] in Hf, Hn. rewrite ?length_app in Hf. cbn [length] in Hf.
    destruct (view_scan F _ _ _ _ _ _ _ V1 ltac:(cbn [length]; rewrite ?length_app in *; cbn [length] in *; lia) ltac:(simpl; lia) eq_refl)
      as (pos & s2 & E2 & V2). apply view_forget in V2. cbn [tail] in V2.
    destruct (IH F n fuel s2 [rn " "] rest) as (s3 & E3 & V3);
      [by right|cbn [app length]; rewrite ?length_app in *; cbn [length] in *; lia|rewrite ?length_app in *; cbn [length] in *; lia|simpl in Hfuel; lia|
       eapply view_mono; [exact V2|lia]|]. exists s3. split; [|done].
    rewrite (st_bind_ok _ _ _ _ _ E1), (st_bind_ok _ _ _ _ _ E2). cbn [fst]. rewrite bool_decide_true by done.
    by rewrite (st_bind_ok _ _ _ _ _ E3).
Qed.

(** A closing parenthesis starts no expression. *)
Lemma paren_no_expr F n s L lit L' : view 2 s [] L → (length L + 1 < F)%nat → isWhitespace (peek L) = false →
  lex L = (RPAREN, lit, L') → ∃ s' err, ParseExpr_at F (S n) s = (s', Err err).
Proof.
  intros Hv Hf Hws E. destruct (view_ignore F _ _ [] _ _ _ _ Hv Hf (or_introl eq_refl) Hws E ltac:(done)) as (pos & s1 & E1 & V1).
  destruct (view_unscan _ _ _ _ _ _ _ _ V1 E) as (s2 & E2 & V2).
  destruct (view_ignore F _ _ [] _ _ _ _ V2 Hf (or_introl eq_refl) Hws E ltac:(done)) as (pos2 & s3 & E3 & V3).
  eexists s3, _. cbn [ParseExpr_at]. apply st_bind_err. unfold parseUnaryExpr. rewrite (st_bind_ok _ _ _ _ _ E1). cbn [fst].
  rewrite bool_decide_false by done. rewrite (st_bind_ok _ _ _ _ _ E2), (st_bind_ok _ _ _ _ _ E3). reflexivity.
Qed.

Lemma args_first es txt rest F n s : args_text es txt →
  (length (txt ++ rn ")" :: rest) + 1 < F)%nat → (length (txt ++ rn ")" :: rest) < n)%nat →
  view 2 s [] (txt ++ rn ")" :: rest) →
  isWhitespace (peek (txt ++ rn ")" :: rest)) = false ∧ ∃ s' e, ParseExpr_at F n s = (s', Ok e).
Proof.
  intros Ha Hf Hn Hv. destruct Ha as [e rs (_ & _ & Hne & Hws) Hp|e rs es txt (_ & _ & Hne & Hws) Hp _].
  - split; [by destruct rs|]. destruct (Hp F n s [] [] (rn ")" :: rest)) as (s1 & E1 & _); [apply closing_mark; by left|by left|done..|].
    eauto.
  - rewrite <- app_assoc in *. split; [by destruct rs|].
    destruct (Hp F n s [] [] ((rn "," :: rn " " :: txt) ++ rn ")" :: rest)) as (s1 & E1 & _); [apply closing_mark; by right|by left|done..|].
    eauto.
Qed.

Lemma parseCall_parses name args txt rest F n s :
  args = [] ∧ txt = [] ∨ args_text args txt → strings_ToLower name = name →
  (length (txt ++ rn ")" :: rest) + 1 < F)%nat → (length (txt ++ rn ")" :: rest) < n)%nat →
  view 1 s [] (txt ++ rn ")" :: rest) →
  ∃ s', parseCall F (ParseExpr_at F n) name s = (s', Ok (Call name args)) ∧ view 1 s' [] rest.
Proof.
  intros Ha Hname Hf Hn Hv. unfold parseCall. rewrite Hname. destruct Ha as [[-> ->]|Ha].
  { destruct (view_scan F _ _ _ _ _ _ _ Hv Hf ltac:(simpl; lia) eq_refl) as (pos & s1 & E1 & V1). exists s1.
    split; [by rewrite (st_bind_ok _ _ _ _ _ E1)|]. eapply view_mono; [by eapply view_forget|simpl; lia]. }
  destruct (lex (txt ++ rn ")" :: rest)) as [[tok lit] L] eqn:E.
  destruct (view_scan F _ _ _ _ _ _ _ Hv Hf ltac:(simpl; lia) E) as (pos & s1 & E1 & V1).
  destruct (view_unscan _ _ _ _ _ _ _ _ V1 E) as (s2 & E2 & V2). apply (view_mono _ 2) in V2; [|simpl; lia].
  destruct (args_first _ _ _ _ _ _ Ha Hf Hn V2) as (Hws & sx & e & Ex).
  assert (tok ≠ RPAREN) as Hne.
  { intros ->. destruct n as [|n]; [lia|]. destruct (paren_no_expr F n s2 _ _ _ V2 Hf Hws E) as (? & ? & Ey). congruence. }
  pose proof (args_length _ _ Ha). rewrite length_app in Hf. cbn [length] in Hf.
  destruct (comma_list_parses _ _ Ha F n F s2 [] rest (or_introl eq_refl)) as (s3 & E3 & V3);
    [cbn [app]; rewrite length_app; cbn [length]; lia|done|lia|done|].
  destruct (view_scan F _ _ _ _ _ _ _ V3 ltac:(cbn [length]; lia) ltac:(simpl; lia) eq_refl) as (pos4 & s4 & E4 & V4).
  exists s4. split; [|eapply view_mono; [by eapply view_forget|simpl; lia]].
  rewrite (st_bind_ok _ _ _ _ _ E1). cbn [fst]. rewrite bool_decide_false by done.
  by rewrite (st_bind_ok _ _ _ _ _ E2), (st_bind_ok _ _ _ _ _ E3), (st_bind_ok _ _ _ _ _ E4).
Qed.

Definition call_name_ok (name : string) : Prop := strings_ToLower name = name ∧ (plain_name name ∨ name = "distinct").

Lemma call_parses name args txt : args = [] ∧ txt = [] ∨ args_text args txt → call_name_ok name →
  ∃ rs, unit_text rs (Call name args) ∧ unit_parses rs (Call name args).
Proof.
  intros Ha [Hlow Hname].
  assert (Htxt : utf8 txt = strings_Join (Expr_String <$> args) ", " ∧ is_text txt).
  { destruct Ha as [[-> ->]|Ha]; [split; [done|constructor]|by apply args_string]. }
  assert (∃ r, utf8 r = name ∧ is_text r ∧ r ≠ [] ∧ isWhitespace (peek r) = false ∧
    ∃ tok lit, (∀ l, lex (r ++ rn "(" :: l) = (tok, lit, rn "(" :: l)) ∧ (tok = IDENT ∧ lit = r ∨ tok = DISTINCT ∧ name = "distinct"))
    as (r & Hr & Hc & Hne & Hws & tok & lit & Hlex & Htok).
  { destruct Hname as [(Hk & r & -> & Hall & Hfirst)| ->].
    - exists r. split_and!; [done|by apply ident_chars_text|by destruct r|destruct r; [done|by apply ident_first_space]|].
      exists IDENT, r. split; [|by left]. intros l. apply lex_bare; [done..|]. vm_compute. split; congruence.
    - exists (runes_of "distinct"). split_and!; [done|by apply runes_of_text|done..|]. exists DISTINCT, []. split; [|by right].
      intros l. apply (lex_keyword (rn "d") (runes_of "istinct")); [done|by vm_compute|]. vm_compute. split; congruence. }
  exists (r ++ rn "(" :: txt ++ [rn ")"]). split.
  { split_and!; [| |by destruct r..].
    - rewrite utf8_app, Hr. change (utf8 (rn "(" :: txt ++ [rn ")"])) with ("(" +:+ utf8 (txt ++ [rn ")"])).
      by rewrite utf8_app, (proj1 Htxt).
    - apply text_app; [done|]. apply Forall_cons_2; [done|]. apply text_app; [apply Htxt|by apply text_one]. }
  apply (token_parses _ tok lit (rn "(" :: txt ++ [rn ")"])); [|by destruct Htok as [[-> _]|[-> _]]..|by destruct r|by destruct r|].
  { intros rest _. rewrite <- app_assoc. apply Hlex. }
  intros F n s rest pos Hs Hf Hn Hv. rewrite <- app_assoc in Hf, Hn. rewrite length_app in Hf, Hn.
  cbn [app length] in Hf, Hn, Hv. rewrite <- !app_assoc in *. cbn [app] in *. apply view_forget in Hv.
  destruct (view_scan F _ _ _ _ _ _ _ Hv ltac:(cbn [length]; lia) ltac:(simpl; lia) eq_refl) as (pos1 & s1 & E1 & V1).
  apply view_forget in V1. destruct (parseCall_parses name args txt rest F n s1 Ha Hlow) as (s2 & E2 & V2);
    [lia|lia|eapply view_mono; [exact V1|simpl; lia]|]. exists s2. split; [|done].
  unfold parse_unary_token. cbn [fst snd]. destruct Htok as [[-> ->]|[-> ->]].
  - rewrite (st_bind_ok _ _ _ _ _ E1). cbn [fst]. rewrite bool_decide_true by done. by rewrite Hr.
  - unfold parse_distinct. by rewrite (st_bind_ok _ _ _ _ _ E1).
Qed.

(** ** Expressions *)

(** What [ParseExpr] gives back from its text: trees that keep the precedence of
    operators, regular expressions on the right of their operators only, names
    of calls without quotes, durations of whole milliseconds, numbers that three
    decimals are enough for, strings that are no dates. *)
Fixpoint printable (e : Expr) : Prop :=
  match e with
  | BinaryExpr op l r =>
      Token_isOperator op = true ∧ left_ok op l ∧ right_ok op r ∧ printable l ∧
      (if IsRegexOp op then match r with RegexLiteral re => regex_ok re | _ => False end else printable r)
  | BooleanLiteral _ | Wildcard => True
  | Call name args =>
      call_name_ok name ∧ (fix all (l : list Expr) : Prop := match l with [] => True | a :: l => printable a ∧ all l end) args
  | Distinct v => plain_name v
  | DurationLiteral d => is_i64 d ∧ Z.rem d Millisecond = 0
  | NumberLiteral f => ParseFloat (FormatFloat f) = Some f
  | ParenExpr e => printable e
  | StringLiteral v => isDateTimeString v = false ∧ isDateString v = false ∧ ∃ r, is_text r ∧ v = utf8 r
  | TimeLiteral t => time_ok t
  | VarRef v => ∃ r, is_text r ∧ r ≠ [] ∧ v = utf8 r
  | RegexLiteral _ | nilLiteral => False
  end.

Lemma printable_ordered e : printable e → ordered e.
Proof.
  induction e as [op l r IHl IHr|name args _|e IH|e He] using Expr_rect'; simpl; try done; [|by destruct e].
  intros (_ & H1 & H2 & H3 & H4). split_and!; [done..|by apply IHl|]. destruct (IsRegexOp op); [by destruct r|by apply IHr].
Qed.

(** The text of an expression as its first operand and the operators after it. *)
Definition decomposes (e : Expr) : Prop :=
  ∃ rs0 txt, unit_text rs0 (spine e).1 ∧ unit_parses rs0 (spine e).1 ∧ is_binary (spine e).1 = false ∧
    chain (spine e).2 txt ∧ utf8 (rs0 ++ txt) = Expr_String e.

Lemma unit_decomposes e : is_binary e = false → (∃ rs, unit_text rs e ∧ unit_parses rs e) → decomposes e.
Proof.
  intros Hb (rs & Ht & Hp). assert (spine e = (e, [])) as E by by destruct e. exists rs, []. rewrite E.
  split_and!; [done..|constructor|]. rewrite app_nil_r. apply Ht.
Qed.
Lemma decomposes_parses e : ordered e → decomposes e → ∃ rs, unit_text rs e ∧ expr_parses rs e.
Proof.
  intros Ho (rs0 & txt & Ht & Hp & Hb & Hc & Hs). exists (rs0 ++ txt). split.
  - destruct Ht as (_ & H2 & H3 & H4). split_and!; [done|apply text_app; [done|by eapply chain_text]|by destruct rs0..].
  - eapply chain_parses; [done..|]. by apply build_spine.
Qed.

Lemma printable_decomposes e : printable e → decomposes e.
Proof.
  induction e as [op l r IHl IHr|name args IH|e IH|e He] using Expr_rect'.
  - intros (Hop & Hl & Hr & Pl & Pr). destruct (IHl Pl) as (rs0 & txt & Ht & Hp & Hb & Hc & Hs).
    assert (∃ rs' txt', operand_text op rs' (spine r).1 ∧ chain (spine r).2 txt' ∧ utf8 (rs' ++ txt') = Expr_String r)
      as (rs' & txt' & Hx & Hc' & Hs').
    { destruct (IsRegexOp op) eqn:Ere.
      - destruct r; try done. destruct (operand_regex op _ Ere Pr) as [rs Hx]. exists rs, []. split_and!; [done|constructor|].
        rewrite app_nil_r. apply Hx.
      - destruct (IHr Pr) as (rs & txt2 & T & P & B & C & S). exists rs, txt2. split_and!; [by apply operand_unit|done..]. }
    destruct (lex_op op [] Hop) as (_ & _ & _ & _ & Hu & _).
    exists rs0, (txt ++ rn " " :: runes_of (Token_String op) ++ rn " " :: rs' ++ txt'). split_and!; [done..| |].
    + simpl. apply chain_app; [done|]. by constructor.
    + rewrite app_assoc, utf8_app, Hs. simpl. f_equal.
      change (utf8 (rn " " :: runes_of (Token_String op) ++ rn " " :: rs' ++ txt')) with
        (" " +:+ utf8 (runes_of (Token_String op) ++ rn " " :: rs' ++ txt')).
      rewrite utf8_app, Hu. change (utf8 (rn " " :: rs' ++ txt')) with (" " +:+ utf8 (rs' ++ txt')). by rewrite Hs'.
  - intros [Hn Ha]. apply unit_decomposes; [done|]. 
    assert (args = [] ∨ ∃ txt, args_text args txt) as [->|[txt Ht]]; [|eapply call_parses; [left; done|done]|by eapply call_parses; [right|]].
    induction args as [|a args IHargs]; [by left|]. right. apply Forall_cons in IH as [IHa IH]. destruct Ha as [Pa Ha].
    destruct (decomposes_parses a (printable_ordered a Pa) (IHa Pa)) as (rs & T & P).
    destruct (IHargs IH Ha) as [->|[txt Ht]]; eexists; [by apply args_one|by apply args_more].
  - intros Pe. apply unit_decomposes; [done|]. destruct (decomposes_parses e (printable_ordered e Pe) (IH Pe)) as (rs & T & P).
    by eapply paren_parses.
  - intros Pe. apply unit_decomposes; [by destruct e|]. destruct e; try done; simpl in Pe.
    + apply boolean_parses.
    + by apply distinct_parses.
    + destruct Pe. by apply duration_parses.
    + by apply number_parses.
    + destruct Pe as (H1 & H2 & r & Hr & ->). by apply string_parses.
    + by apply time_parses.
    + destruct Pe as (r & H1 & H2 & ->). by apply varref_parses.
    + apply wildcard_parses.
Qed.
End roundtrip.
