(* ===== verification/QlParseProps.v ===== *)
(** * Theorems about the parser of InfluxQL *)

From stdpp Require Import base list strings sets.
From Stdlib Require Import ZArith Ascii Lia SpecFloat.
From S2P Require Import Prelude MetaData QlToken Escape QlExpr QlSelect QlSelectProps QlPrint QlReader QlScan QlScanSpec QlScanProps.
From S2P Require Import QlDuration QlNumber QlStmt QlParse QlParseSpec QlUtf8 QlParseStmt QlParseView QlRoundtrip.

Local Open Scope Z_scope.

(** ** Precedence *)

(** Every tree of operators in an expression keeps the precedence. *)
Fixpoint well_ordered (e : Expr) : Prop :=
  match e with
  | BinaryExpr op l r => left_ok op l ∧ right_ok op r ∧ well_ordered l ∧ well_ordered r
  | Call _ args => (fix all (l : list Expr) : Prop := match l with [] => True | a :: l => well_ordered a ∧ all l end) args
  | ParenExpr e => well_ordered e
  | _ => True
  end.

(** Whatever a method returns has the property. *)
Definition returns {A} (p : parseM A) (P : A → Prop) : Prop := ∀ s s' a, p s = (s', Ok a) → P a.

Lemma returns_ret {A} (a : A) (P : A → Prop) : P a → returns (mret a) P.
Proof. intros H s s' b [= _ <-]. done. Qed.
Lemma returns_fail {A} e (P : A → Prop) : returns (st_fail e) P.
Proof. by intros s s' a [=]. Qed.
Lemma returns_any {A} (p : parseM A) : returns p (λ _, True).
Proof. done. Qed.
Lemma returns_bind {A B} (p : parseM A) (q : A → parseM B) (P : A → Prop) (Q : B → Prop) :
  returns p P → (∀ a, P a → returns (q a) Q) → returns (p ≫= q) Q.
Proof.
  intros Hp Hq s s' b. unfold mbind, ST_bind. destruct (p s) as [s1 [a|e|]] eqn:E; try by intros [=].
  apply Hq. by eapply Hp.
Qed.
Lemma returns_next {A B} (p : parseM A) (q : A → parseM B) (Q : B → Prop) :
  (∀ a, returns (q a) Q) → returns (p ≫= q) Q.
Proof. intros Hq. eapply returns_bind; [apply returns_any|auto]. Qed.

(** The steps of a method whose results before the last one do not matter. *)
Ltac returns :=
  repeat first
    [ progress cbv beta
    | lazymatch goal with
      | |- returns (mret _) _ => apply returns_ret; simpl; auto
      | |- returns (st_fail _) _ => apply returns_fail
      | |- returns (expected _ _) _ => apply returns_fail
      | |- returns (message _ _) _ => apply returns_fail
      | |- returns (_ ≫= _) _ => apply returns_next; intros ?
      | |- returns (match ?x with _ => _ end) _ => destruct x
      end ].

Lemma insert_op_well_ordered op rhs root :
  is_binary rhs = false → well_ordered rhs → well_ordered root → well_ordered (insert_op op rhs root).
Proof.
  intros Hb Hw. assert (Hr : right_ok op rhs) by by destruct rhs.
  induction root as [op' l IHl r IHr| | | | | | | | | | | |]; simpl; try (intros; by split_and!).
  intros (H1 & H2 & H3 & H4). destruct (Z.leb_spec (Token_Precedence op) (Token_Precedence op')); simpl; [by split_and!|].
  split_and!; [done|by apply insert_op_right_ok|done|by apply IHr].
Qed.

Section precedence.
Context {goText : GoText} (F : nat).

Lemma comma_list_returns {A} fuel next (item : parseM A) P :
  returns item P → returns (comma_list fuel next item) (Forall P).
Proof.
  intros Hi. induction fuel as [|fuel IH]; cbn [comma_list]; [apply returns_fail|].
  eapply returns_bind; [exact Hi|]. intros x Hx. apply returns_next. intros t. case_bool_decide.
  - eapply returns_bind; [exact IH|]. intros l Hl. apply returns_ret. by constructor.
  - apply returns_next. intros _. apply returns_ret. by repeat constructor.
Qed.

Lemma well_ordered_args args : Forall well_ordered args →
  (fix all (l : list Expr) : Prop := match l with [] => True | a :: l => well_ordered a ∧ all l end) args.
Proof. by induction 1. Qed.

Definition leaf (e : Expr) : Prop := is_binary e = false ∧ well_ordered e.

Lemma parseCall_returns parse name : returns parse well_ordered → returns (parseCall F parse name) leaf.
Proof.
  intros Hp. unfold parseCall. apply returns_next. intros t. case_bool_decide; [by apply returns_ret|].
  apply returns_next. intros _. eapply returns_bind; [by apply comma_list_returns|]. intros args Ha. apply returns_next. intros t'.
  case_bool_decide; [apply returns_ret|apply returns_fail]. split; [done|by apply well_ordered_args].
Qed.
Lemma parseUnaryExpr_returns parse : returns parse well_ordered → returns (parseUnaryExpr F parse) leaf.
Proof.
  intros Hp. unfold parseUnaryExpr. apply returns_next. intros t. case_bool_decide.
  { eapply returns_bind; [exact Hp|]. intros e He. apply returns_next. intros _. by apply returns_ret. }
  apply returns_next. intros _. apply returns_next. intros t2. clear t H.
  unfold parse_unary_token, string_literal, parseVarRef, parse_distinct, leaf.
  destruct t2.1.1; try (by apply returns_fail); returns; by apply parseCall_returns.
Qed.
Lemma operand_returns parse op : returns parse well_ordered → returns (operand F parse op) leaf.
Proof.
  intros Hp. unfold operand. destruct (IsRegexOp op); [|by apply parseUnaryExpr_returns]. unfold leaf. returns.
Qed.
Lemma operators_returns parse fuel root : returns parse well_ordered → well_ordered root →
  returns (operators F parse fuel root) well_ordered.
Proof.
  intros Hp. revert root. induction fuel as [|fuel IH]; intros root Hr; cbn [operators]; [apply returns_fail|].
  apply returns_next. intros t. destruct (negb _); [apply returns_next; intros _; by apply returns_ret|].
  eapply returns_bind; [by apply operand_returns|]. intros rhs [H1 H2]. apply IH. by apply insert_op_well_ordered.
Qed.
Lemma ParseExpr_at_returns n : returns (ParseExpr_at F n) well_ordered.
Proof.
  induction n as [|n IH]; cbn [ParseExpr_at]; [apply returns_fail|].
  eapply returns_bind; [by apply parseUnaryExpr_returns|]. intros root [_ H]. by apply operators_returns.
Qed.
End precedence.

(** C15: [ParseExpr] returns only expressions in which an operator on the left of
    another binds at least as strongly and one on the right more strongly, so
    operators of one precedence associate to the left; and there is one such tree
    for each sequence of operands and operators. *)
Theorem ParseExpr_precedence {goText : GoText} (s : string) (e : Expr) :
  ParseExpr_text s = Ok e →
  well_ordered e ∧ ∀ e', ordered e' → spine e' = spine e → e' = e.
Proof.
  unfold ParseExpr_text, ParseExpr. destruct (ParseExpr_at _ _ _) as [s' r] eqn:E. simpl. intros ->.
  pose proof (ParseExpr_at_returns _ _ _ _ _ E) as Hw. split; [done|]. intros e' Ho Hs.
  assert (ordered e) as He.
  { clear -Hw. induction e; simpl in *; try done. destruct Hw as (H1 & H2 & H3 & H4). by split_and!; auto. }
  by rewrite <- (build_spine e He), <- (build_spine e' Ho), Hs.
Qed.

Lemma ParseExpr_precedence_witness :
  well_ordered (BinaryExpr SUB (BinaryExpr SUB (VarRef "a") (BinaryExpr MUL (VarRef "b") (VarRef "c"))) (VarRef "d")) ∧
  ∀ e', ordered e' → spine e' = (VarRef "a", [(SUB, VarRef "b"); (MUL, VarRef "c"); (SUB, VarRef "d")]) →
    e' = BinaryExpr SUB (BinaryExpr SUB (VarRef "a") (BinaryExpr MUL (VarRef "b") (VarRef "c"))) (VarRef "d").
Proof.
  apply (@ParseExpr_precedence sample_text "a - b * c - d"). vm_compute. reflexivity.
Defined.

(** ** Printing and parsing *)

Lemma ParseExpr_String {goText : GoText} (e : Expr) : printable e → ParseExpr_text (Expr_String e) = Ok e.
Proof.
  intros Hp. destruct (decomposes_parses e (printable_ordered e Hp) (printable_decomposes e Hp)) as (rs & Ht & He).
  destruct Ht as (Hs & Htext & _). destruct (text_clean rs Htext) as [Hn Hc].
  unfold ParseExpr_text, NewParser, enough. rewrite <- Hs, runes_utf8 by done.
  pose proof (view_new rs Hn) as Hv. rewrite <- (app_nil_r rs) in Hv at 2. rewrite (normal_app _ _ Hc) in Hv.
  destruct (He (S (S (length rs))) (S (S (length rs))) (newBufScanner rs) [] [] []) as (s' & E & _).
  - split_and!; [by left|by left|done..].
  - by left.
  - simpl. rewrite app_nil_r. lia.
  - simpl. rewrite app_nil_r. lia.
  - eapply view_mono; [exact Hv|lia].
  - unfold ParseExpr. by rewrite E.
Qed.

(** C40: What [String] writes for an expression, [ParseExpr] reads as this
    expression, when the expression is one that can be written: its operators
    keep the precedence, its numbers have at most three decimals and its durations
    whole milliseconds, its strings do not look like dates, its function names are
    lower case identifiers, its names and strings are text, and the texts of its
    times are read back by [time.Parse]. *)
Theorem ParseExpr_roundtrip {goText : GoText} (e : Expr) :
  printable e → ParseExpr_text (Expr_String e) = Ok e.
Proof. apply ParseExpr_String. Qed.

Definition sample_condition : Expr :=
  BinaryExpr OR (BinaryExpr EQREGEX (VarRef "host") (RegexLiteral "^a/b"))
    (BinaryExpr AND (BinaryExpr GT (VarRef "value") (NumberLiteral (number_of "2.5")))
       (ParenExpr (BinaryExpr LT (Call "f" [VarRef "time"; BinaryExpr SUB (VarRef "x y") (DurationLiteral 3600000000000)]) (StringLiteral "it's")))).

Lemma text_string (v : string) :
  is_ascii v && forallb (λ c, negb (rn c =? eof) && negb (rn c =? carriage)) (String.list_ascii_of_string v) = true →
  ∃ r, is_text r ∧ v = utf8 r.
Proof.
  intros [H1 H2]%andb_true_iff. exists (runes_of v). split; [by apply runes_of_text|by rewrite utf8_runes_of].
Qed.
Lemma text_name (v : string) :
  is_ascii v && forallb (λ c, negb (rn c =? eof) && negb (rn c =? carriage)) (String.list_ascii_of_string v) = true → v ≠ EmptyString →
  ∃ r, is_text r ∧ r ≠ [] ∧ v = utf8 r.
Proof. intros (r & H1 & H2)%text_string Hne. exists r. split_and!; [done| |done]. by intros ->. Qed.

Lemma ParseExpr_roundtrip_witness :
  @ParseExpr_text sample_text (@Expr_String sample_text sample_condition) = Ok sample_condition.
Proof.
  apply (@ParseExpr_roundtrip sample_text). cbn [sample_condition printable IsRegexOp].
  split_and!;
    lazymatch goal with
    | |- ∃ r, is_text r ∧ r ≠ [] ∧ _ => apply text_name; [vm_compute; reflexivity|discriminate]
    | |- ∃ r, is_text r ∧ _ => apply text_string; vm_compute; reflexivity
    | |- ParseFloat _ = _ => vm_compute; reflexivity
    | |- _ = _ => vm_compute; reflexivity
    | |- True => exact I
    | |- left_ok _ _ => vm_compute; first [exact I|discriminate]
    | |- right_ok _ _ => vm_compute; first [exact I|reflexivity]
    | |- is_i64 _ => unfold is_i64; lia
    | |- _ => idtac
    end.
  - split; [reflexivity|]. exists (runes_of "^a/b"). split_and!; [by apply runes_of_text|vm_compute; reflexivity| |discriminate].
    apply (bool_decide_unpack _). vm_compute. exact I.
  - split; [reflexivity|]. left. split; [vm_compute; reflexivity|]. exists [rn "f"]. done.
Defined.

(** ** What planning asks of a parsed statement *)

Lemma parseSelect_validated {goText : GoText} F tr b b' s : parseSelectStatement F tr b = (b', Ok s) →
  ∃ s0, groupByInterval s0 = 0 ∧ validate s0 tr = (s, Ok tt).
Proof.
  unfold parseSelectStatement. intros H. do 12 (apply st_bind_inv in H as (? & ? & _ & H)). unfold validated in H.
  destruct (validate _ tr) as [s1 [[]|e|]] eqn:E in H; [|done..]. injection H as _ <-. eexists. split; [|exact E]. done.
Qed.

(** C13: For every select statement that the parser returns, splitting its
    dimensions ([Normalize]), asking whether it is a simple derivative
    ([IsSimpleDerivative]) and computing its columns ([ColumnNames]) do not panic;
    and when no [time()] dimension is 0, the interval that validation stored in the
    statement is the one that [GroupByInterval] returns and the one that
    [Normalize] finds.  (Planning also reduces the condition, which may panic:
    [Reduce_duration_division_panics].) *)
Theorem parsed_statement_planned {goText : GoText} (fuel : nat) (targetRequired : bool) (b b' : bufScanner) (s : SelectStatement) :
  parseSelectStatement fuel targetRequired b = (b', Ok s) →
  (∃ r, Normalize (Dimensions s) = Ok r) ∧ (∃ simple, IsSimpleDerivative s = Ok simple) ∧
  (∀ lower, ∃ names, ColumnNames lower s = Ok names) ∧
  (nonzero_intervals (Dimensions s) = true →
   ∃ d ts, groupByInterval s = d ∧ (GroupByInterval s).2 = Ok d ∧ Normalize (Dimensions s) = Ok (d, ts)).
Proof. intros (s0 & H0 & H)%parseSelect_validated. by apply (validated_statement_planned s0 s targetRequired). Qed.

Definition hourly_text : string := " mean(value) FROM cpu WHERE time > now() - 1d GROUP BY time(1h), host".
Definition hourly : SelectStatement :=
  match (@parseSelectStatement sample_text 100 false (NewParser hourly_text)).2 with Ok s => s | _ => example_select end.
Lemma parsed_statement_planned_witness :
  ∃ d ts, groupByInterval hourly = d ∧ (GroupByInterval hourly).2 = Ok d ∧ Normalize (Dimensions hourly) = Ok (d, ts).
Proof.
  destruct (@parsed_statement_planned sample_text 100 false (NewParser hourly_text)
    (@parseSelectStatement sample_text 100 false (NewParser hourly_text)).1 hourly) as (_ & _ & _ & H); [vm_compute; reflexivity|].
  apply H. vm_compute. reflexivity.
Defined.

(** ** Some texts

    Runs of [ParseStatement] and of [String] that show where a text is not read
    as it is meant, or where what is printed is read as something else. *)

Module ParseExamples.
#[local] Instance example_text : GoText := sample_text.

Definition printed (s : string) : option string :=
  match ParseStatement_text s with Ok stmt => Some (Statement_String stmt) | _ => None end.
Definition error_of (s : string) : option string :=
  match ParseStatement_text s with Err (PError e) => Some (ParseError_Error e) | _ => None end.

(** [parseFill] reads any expression before it looks for the name: what stands
    between [GROUP BY] and [LIMIT] is swallowed. *)
Example fill_swallows :
  printed "SELECT value FROM cpu nonsense LIMIT 1" = Some "SELECT value FROM cpu LIMIT 1" ∧
  printed "SELECT value FROM cpu 1 + 2 * 3 LIMIT 1" = Some "SELECT value FROM cpu LIMIT 1".
Proof. split; vm_compute; reflexivity. Qed.

(** A regular expression right behind the comma of [FROM] is looked for before
    the comma is read. *)
Example regex_after_comma :
  error_of "SELECT value FROM cpu,/mem/" = Some "found ,, expected regex at line 1, char 22" ∧
  printed "SELECT value FROM cpu, /mem/" = Some "SELECT value FROM cpu, /mem/".
Proof. split; vm_compute; reflexivity. Qed.

(** The error of the conversion of a number is ignored where [LIMIT] is read. *)
Example limit_overflows :
  printed "SELECT value FROM cpu LIMIT 99999999999999999999" = Some "SELECT value FROM cpu LIMIT 9223372036854775807".
Proof. vm_compute. reflexivity. Qed.

(** What statements are printed as. *)
Example number_printed :
  printed "SELECT value FROM cpu WHERE value > 0.0001" = Some "SELECT value FROM cpu WHERE value > 0.000".
Proof. vm_compute. reflexivity. Qed.
Example microseconds_printed :
  printed "SELECT value FROM cpu WHERE x < 1500u" = Some "SELECT value FROM cpu WHERE x < 1500".
Proof. vm_compute. reflexivity. Qed.
Example clauses_not_printed :
  printed "SHOW TAG VALUES WITH KEY = host" = Some "SHOW TAG VALUES" ∧
  printed "SHOW MEASUREMENTS WITH MEASUREMENT = cpu" = Some "SHOW MEASUREMENTS" ∧
  printed "DROP CONTINUOUS QUERY a ON b" = Some "DROP CONTINUOUS QUERY a" ∧
  printed "SHOW RETENTION POLICIES ON b" = Some "SHOW RETENTION POLICIES b" ∧
  printed "DELETE FROM cpu" = Some "DELETE cpu" ∧
  printed "DELETE cpu" = None ∧ printed "SHOW RETENTION POLICIES b" = None ∧ printed "DROP CONTINUOUS QUERY a" = None.
Proof. repeat split; vm_compute; reflexivity. Qed.

(** What error messages say is expected. *)
Example expected_texts :
  error_of "ALTER RETENTION POLICY p ON d" = Some "found EOF, expected DURATION, RETENTION, DEFAULT at line 1, char 31" ∧
  error_of "SHOW TAG VALUES WITH KEY IN (a" = Some "found EOF, expected ( at line 1, char 32" ∧
  error_of "DROP foo" = Some "found foo, expected SERIES, CONTINUOUS, MEASUREMENT, SERVER, SUBSCRIPTION at line 1, char 6" ∧
  printed "DROP DATABASE d" = Some "DROP DATABASE d".
Proof. repeat split; vm_compute; reflexivity. Qed.
End ParseExamples.
