(* ===== verification/QlRewrite.v ===== *)
(** * Rewriting conditions: [influxql/ast.go]

    [Rewrite], [rewriteWithoutTimeDimensions], [SetTimeRange], which continuous
    queries set the times of a run with, and [Substatement].  [SetTimeRange] goes
    through text: it prints the condition, appends the times, and parses the
    result. *)

From stdpp Require Import base list strings sets.
From Stdlib Require Import ZArith Ascii Lia SpecFloat.
From S2P Require Import Prelude MetaData QlToken Escape QlExpr QlExprProps QlSelect QlPrint QlReader QlScan QlScanSpec QlScanProps.
From S2P Require Import QlUtf8 QlDuration QlNumber QlStmt QlParse QlParseStmt QlParseView QlRoundtrip QlParseProps.

Local Open Scope Z_scope.

(** ** Rewriting *)

Section rewrite.
Context (fn : Expr → Expr).

(** The nodes of an expression, from the leaves to the root. *)
Fixpoint Rewrite (e : Expr) : Expr :=
  fn (match e with
      | BinaryExpr op l r => BinaryExpr op (Rewrite l) (Rewrite r)
      | ParenExpr e => ParenExpr (Rewrite e)
      | Call name args => Call name (Rewrite <$> args)
      | e => e
      end).

(** [Rewrite] assigns to the fields of the nodes.  This is what it leaves behind
    the pointer that it is called with. *)
Definition rewritten_node (e : Expr) : Expr :=
  match e with
  | BinaryExpr op l r => BinaryExpr op (Rewrite l) (Rewrite r)
  | ParenExpr e => ParenExpr (Rewrite e)
  | Call name args => Call name (Rewrite <$> args)
  | e => e
  end.
End rewrite.

Section time_range.
Context {goText : GoText}.

Definition without_time (n : Expr) : Expr :=
  match n with
  | BinaryExpr _ l _ => if bool_decide (Expr_String l = "time") then BooleanLiteral true else n
  | Call _ _ => BooleanLiteral true
  | n => n
  end.

(** The condition that is printed, and what is left in the statement. *)
Definition rewriteWithoutTimeDimensions (c : Expr) : string * Expr :=
  (Expr_String (Rewrite without_time c), rewritten_node without_time c).

Definition time_quoted (t : Time) : string := String squote (time_Format t +:+ String squote EmptyString).
Definition range_text (start stop : Time) : string :=
  "time >= " +:+ time_quoted start +:+ " AND time < " +:+ time_quoted stop.

(** The error is one of the parser; [Reduce] panics where it divides by zero. *)
Definition SetTimeRange (s : SelectStatement) (start stop : Time) : SelectStatement * outcome parse_err unit :=
  let cond := range_text start stop in
  let '(cond, s) :=
    match Condition s with
    | None => (cond, s)
    | Some c =>
        let '(text, node) := rewriteWithoutTimeDimensions c in
        (text +:+ " AND " +:+ cond, set_condition s (Some node))
    end in
  match ParseExpr_text cond with
  | Err e => (s, Err e)
  | Panic => (s, Panic)
  | Ok expr =>
      match Reduce expr None with
      | Ok c => (set_condition s (Some c), Ok tt)
      | _ => (s, Panic)
      end
  end.
End time_range.

(** ** Statements of one source *)

Definition HasPrefix (s prefix : string) : bool := String.prefix prefix s.

Definition MatchSource (sources : list Source) (name : string) : string :=
  match list_find (λ src, HasPrefix name (Source_Name src) = true) sources with
  | Some (_, src) => Source_Name src
  | None => EmptyString
  end.

(** Nil is [None]. *)
Fixpoint filterExprBySource (name : string) (expr : Expr) : option Expr :=
  match expr with
  | VarRef v => if HasPrefix v name then Some expr else None
  | BinaryExpr op l r =>
      let lhs := filterExprBySource name l in
      let rhs := filterExprBySource name r in
      if bool_decide (op = AND) || bool_decide (op = OR) then
        match lhs, rhs with
        | Some l, Some r => Some (BinaryExpr op l r)
        | Some l, None => Some l
        | None, r => r
        end
      else
        match lhs, rhs with
        | Some l, Some r => Some (BinaryExpr op l r)
        | _, _ => None
        end
  | ParenExpr e => match filterExprBySource name e with Some e => Some (ParenExpr e) | None => None end
  | e => Some e
  end.

(** The error has the name that no source matches. *)
Definition Substatement (s : SelectStatement) (ref : string) : outcome string SelectStatement :=
  let other sources cond :=
    mkSelect [mkField (VarRef ref) EmptyString] None (Dimensions s) sources cond (SortFields s) (Limit s) (Offset s) 0 0 0 false
      NullFill VNil in
  match Sources s with
  | [src] => Ok (other [src] (Condition s))
  | sources =>
      let name := MatchSource sources ref in
      if bool_decide (name = EmptyString) then Err ref
      else
        Ok (other [mkSource EmptyString EmptyString name None]
              (match Condition s with None => None | Some c => filterExprBySource name c end))
  end.

(** ** What [SetTimeRange] sets *)

Section set_time_range.
Context {goText : GoText}.

Definition from_time (t : Time) : Expr := BinaryExpr GTE (VarRef "time") (TimeLiteral t).
Definition until_time (t : Time) : Expr := BinaryExpr LT (VarRef "time") (TimeLiteral t).

Lemma time_name_printable : printable (VarRef "time").
Proof. exists (runes "time"). split; [repeat constructor|]. split; [discriminate|reflexivity]. Qed.
Lemma from_printable t : time_ok t → printable (from_time t).
Proof. intros H. repeat (split; [done || apply time_name_printable|]); done. Qed.
Lemma until_printable t : time_ok t → printable (until_time t).
Proof. intros H. repeat (split; [done || apply time_name_printable|]); done. Qed.

(** The text that is parsed is the one of the condition with the times added by
    [AND], wherever the precedence puts them. *)
Lemma insert_op_String op rhs root :
  Expr_String (insert_op op rhs root) = Expr_String root +:+ " " +:+ Token_String op +:+ " " +:+ Expr_String rhs.
Proof.
  induction root as [op' l IHl r IHr| | | | | | | | | | | |]; try reflexivity. cbn [insert_op].
  destruct (_ <=? _); [reflexivity|]. cbn [Expr_String]. rewrite IHr. by rewrite !string_app_assoc.
Qed.

Lemma insert_printable op rhs root :
  Token_isOperator op = true → Token_Precedence op <= 3 → IsRegexOp op = false → right_ok op rhs → printable rhs →
  printable root → printable (insert_op op rhs root).
Proof.
  intros H1 H2 H3 H4 H5. assert (G : ∀ e, left_ok op e → printable e → printable (BinaryExpr op e rhs)).
  { intros e He Hp. cbn [printable]. rewrite H3. tauto. }
  induction root as [op' l IHl r IHr| | | | | | | | | | | |]; intros Hr; cbn [insert_op]; try by apply G.
  destruct (Z.leb_spec (Token_Precedence op) (Token_Precedence op')) as [Hle|Hlt].
  - by apply G.
  - cbn [printable] in Hr |- *. destruct Hr as (R1 & R2 & R3 & R4 & R5).
    assert (IsRegexOp op' = false) as Ho by (destruct op'; simpl in *; done || lia). rewrite Ho in *.
    split_and!; [done..|by apply insert_op_right_ok|done|by apply IHr].
Qed.

(** The expression that is parsed. *)
Definition ranged (c : Expr) (start stop : Time) : Expr :=
  insert_op AND (until_time stop) (insert_op AND (from_time start) c).

Lemma range_text_eq start stop :
  range_text start stop = Expr_String (from_time start) +:+ " AND " +:+ Expr_String (until_time stop).
Proof. reflexivity. Qed.
Lemma ranged_parsed c start stop : printable c → time_ok start → time_ok stop →
  ParseExpr_text (Expr_String c +:+ " AND " +:+ range_text start stop) = Ok (ranged c start stop).
Proof.
  intros Hc H1 H2. rewrite <- (ParseExpr_String (ranged c start stop)).
  - f_equal. unfold ranged. rewrite range_text_eq, !insert_op_String, !string_app_assoc. reflexivity.
  - apply insert_printable; [done..|by apply until_printable|].
    apply insert_printable; [done..|by apply from_printable|done].
Qed.
Lemma range_parsed start stop : time_ok start → time_ok stop →
  ParseExpr_text (range_text start stop) = Ok (BinaryExpr AND (from_time start) (until_time stop)).
Proof.
  intros H1 H2. rewrite <- (ParseExpr_String (BinaryExpr AND (from_time start) (until_time stop))).
  - reflexivity.
  - cbn [printable]. split_and!; [done..|by apply from_printable|by apply until_printable].
Qed.
End set_time_range.

(** *** Reducing adds no names *)

Definition time_free (e : Expr) : Prop := ∀ v, VarRef v ∈ walk e → is_time_name v = false.

Lemma time_free_binary op l r : time_free (BinaryExpr op l r) ↔ time_free l ∧ time_free r.
Proof. unfold time_free. simpl. set_solver. Qed.
Lemma time_free_sub e e' : (∀ v, VarRef v ∈ walk e' → VarRef v ∈ walk e) → time_free e → time_free e'.
Proof. unfold time_free. auto. Qed.

(** The two sides, one of them, or a literal. *)
Lemma reduce_sides_cases op l r e :
  reduce_sides op l r = Ok e → e = BinaryExpr op l r ∨ e = l ∨ e = r ∨ (walk e = [e] ∧ is_ref e = false).
Proof.
  unfold reduce_sides. repeat (case_match; [intros [= <-]; tauto|]).
  destruct l; try (intros [= <-]; tauto);
    unfold reduceBinaryExprBooleanLHS, reduceBinaryExprDurationLHS, reduceBinaryExprNilLHS, reduceBinaryExprNumberLHS,
      reduceBinaryExprStringLHS, reduceBinaryExprTimeLHS;
    repeat case_match; intros [= <-]; tauto.
Qed.
Lemma reduce_sides_refs op l r e v :
  reduce_sides op l r = Ok e → VarRef v ∈ walk e → VarRef v ∈ walk l ∨ VarRef v ∈ walk r.
Proof.
  intros [->|[->|[->|[-> H]]]]%reduce_sides_cases; [simpl; set_solver|tauto..|].
  intros Hv%list_elem_of_singleton. by rewrite <- Hv in H.
Qed.

Lemma reduce_refs e : ∀ e' v, reduce e None = Ok e' → VarRef v ∈ walk e' → VarRef v ∈ walk e.
Proof.
  induction e as [op l r IHl IHr|name args IH|e IH|e He] using Expr_rect'; cbn [reduce]; intros e' v H Hv.
  - destruct (reduce l None) as [l'| |] eqn:El; try done. destruct (reduce r None) as [r'| |] eqn:Er; try done. simpl in H.
    destruct (reduce_sides_refs _ _ _ _ _ H Hv) as [Hl|Hr]; simpl; [specialize (IHl _ _ eq_refl Hl)|specialize (IHr _ _ eq_refl Hr)]; set_solver.
  - assert (H' : (let! args := outcome_list (λ a, reduce a None) args in Ok (Call name args)) = Ok e') by (by destruct (_ && _)).
    clear H. destruct (outcome_list _ args) as [args'| |] eqn:Ea; try done. injection H' as <-.
    simpl in *. apply elem_of_cons in Hv as [?|Hv]; [done|]. right.
    revert args' Ea Hv. induction IH as [|a args Ha Hargs IH]; cbn [outcome_list]; intros args' Ea Hv.
    { injection Ea as <-. done. }
    destruct (reduce a None) as [a'| |] eqn:Er; try done. simpl in Ea.
    destruct (outcome_list _ args) as [args''| |] eqn:Ea'; try done. injection Ea as <-. simpl in *.
    apply elem_of_app in Hv as [Hv|Hv]; apply elem_of_app; [left; by eapply Ha|right; by eapply IH].
  - destruct (reduce e None) as [e1| |] eqn:Er; try done. injection H as <-. simpl. right. apply (IH e1 v eq_refl).
    destruct e1; try done. simpl in Hv. by apply elem_of_cons in Hv as [?|?].
  - destruct e; try done; simpl in H; by injection H as <-.
Qed.

(** *** The times of the result *)

Lemma time_free_node e n : time_free e → n ∈ walk e → time_node n = None.
Proof.
  intros Hf Hn. destruct n as [op l r| | | | | | | | | | | |]; try done.
  assert (Hv : ∀ v, VarRef v = l ∨ VarRef v = r → is_time_name v = false).
  { intros v Hv. apply Hf. clear Hf. induction e as [op' l' r' IHl IHr|name args IH|e IH|e He] using Expr_rect'; simpl in Hn.
    - apply elem_of_cons in Hn as [[= -> -> ->]|Hn]; [simpl; destruct Hv as [<-|<-]; simpl; set_solver|].
      apply elem_of_app in Hn as [Hn|Hn]; [specialize (IHl Hn)|specialize (IHr Hn)]; simpl; set_solver.
    - apply elem_of_cons in Hn as [?|Hn]; [done|]. simpl. right. apply list_elem_of_bind in Hn as (a & Hn & Ha).
      rewrite Forall_forall in IH. apply list_elem_of_bind. exists a. split; [by apply IH|done].
    - apply elem_of_cons in Hn as [?|Hn]; [done|]. simpl. right. by apply IH.
    - destruct e; try done; by apply list_elem_of_singleton in Hn. }
  assert (Ht : ∀ a b, a = l ∨ a = r → timeExprValue a b = Time_zero).
  { intros a b Ha. destruct a; try done. simpl. rewrite Hv; [done|]. naive_solver. }
  simpl. rewrite !Ht by tauto. done.
Qed.
Lemma time_free_narrow e acc : time_free e → foldl narrow acc (walk e) = acc.
Proof.
  intros Hf. assert (H : ∀ n, n ∈ walk e → time_node n = None) by (intros n; by apply time_free_node).
  induction (walk e) as [|n ns IH]; [done|]. simpl. rewrite narrow_node, H by set_solver. apply IH. set_solver.
Qed.

Lemma reduce_from t : reduce (from_time t) None = Ok (from_time t).
Proof. reflexivity. Qed.
Lemma reduce_until t : reduce (until_time t) None = Ok (until_time t).
Proof. reflexivity. Qed.
Lemma and_comparison d op l r : op = GTE ∨ op = LT →
  reduce_sides AND d (BinaryExpr op l r) =
  Ok (if isFalseLiteral d then BooleanLiteral false
      else if isTrueLiteral d then BinaryExpr op l r else BinaryExpr AND d (BinaryExpr op l r)).
Proof. intros Hop. destruct d as [| [] | | | | | | | | | | |]; reflexivity. Qed.

Lemma range_of_times start stop acc : start ≠ Time_zero → stop ≠ Time_zero → acc = (Time_zero, Time_zero) →
  foldl narrow acc (walk (from_time start) ++ walk (until_time stop)) = (start, Time_Add stop (-1)).
Proof.
  intros H1 H2 ->. simpl. unfold Time_IsZero, Time_zero in *. simpl.
  rewrite !(proj2 (Z.eqb_neq start 0)) by done. simpl. unfold Time_IsZero, Time_zero.
  rewrite !(proj2 (Z.eqb_neq stop 0)) by done. reflexivity.
Qed.

Lemma Reduce_ok e d : reduce e None = Ok d → Reduce e None = Ok (match d with ParenExpr e => e | _ => d end).
Proof. unfold Reduce. by intros ->. Qed.

(** Where the times are added to the whole condition. *)
Lemma ranged_reduced c start stop d : left_ok AND c → reduce c None = Ok d →
  Reduce (ranged c start stop) None =
  Ok (if isFalseLiteral d then BooleanLiteral false
      else BinaryExpr AND (if isTrueLiteral d then from_time start else BinaryExpr AND d (from_time start)) (until_time stop)).
Proof.
  intros Hl Hd. unfold ranged. rewrite (insert_op_left AND (from_time start) c Hl). cbn [insert_op]. rewrite Z.leb_refl.
  assert (H : reduce (BinaryExpr AND (BinaryExpr AND c (from_time start)) (until_time stop)) None =
    (let! x := reduce_sides AND d (from_time start) in reduce_sides AND x (until_time stop))).
  { cbn [reduce]. rewrite Hd. reflexivity. }
  unfold from_time in H at 2. rewrite and_comparison in H by tauto. cbn [outcome_bind] in H.
  unfold until_time in H at 2. rewrite and_comparison in H by tauto. apply Reduce_ok in H. rewrite H.
  destruct d as [| [] | | | | | | | | | | |]; reflexivity.
Qed.

Lemma and_no_time d op l r : time_node (BinaryExpr AND d (BinaryExpr op l r)) = None.
Proof. destruct d; try reflexivity. simpl. by destruct (is_time_name _). Qed.

(** The times of the condition with the range added. *)
Lemma ranged_times d start stop : time_free d → start ≠ Time_zero → stop ≠ Time_zero →
  TimeRange (BinaryExpr AND (if isTrueLiteral d then from_time start else BinaryExpr AND d (from_time start)) (until_time stop)) =
  (start, Time_Add stop (-1)).
Proof.
  intros Hf H1 H2. unfold TimeRange.
  change (walk (BinaryExpr AND ?x ?y)) with (BinaryExpr AND x y :: walk x ++ walk y). cbn [foldl].
  rewrite narrow_node. unfold until_time at 1. rewrite and_no_time. destruct (isTrueLiteral d); [by apply range_of_times|].
  change (walk (BinaryExpr AND d ?y)) with (BinaryExpr AND d y :: walk d ++ walk y). cbn [foldl app].
  rewrite narrow_node. unfold from_time at 1. rewrite and_no_time, <- app_assoc, foldl_app, time_free_narrow by done.
  by apply range_of_times.
Qed.

(** C17: [SetTimeRange] replaces the times of a condition.  When what is left of the
    condition without its comparisons [time op ...] is printable, has no reference
    to [time] any more (as a comparison with the time on the right would leave),
    is no disjunction ([left_ok AND]) and is reduced without a panic, and when both
    times are ones whose text is read back and not the zero time, then
    [SetTimeRange] succeeds, and [TimeRange] of the new condition is [start] and the
    last nanosecond before [stop], earlier or later than the times that were there
    before; unless the rest of the condition is false, which the condition then
    is.  (For a disjunction the range is lost, [SetTimeRange_or_loses_range], and a
    time on the right stays, [SetTimeRange_time_on_the_right].) *)
Theorem SetTimeRange_exact {goText : GoText} (s : SelectStatement) (start stop : Time) (c d : Expr) :
  Condition s = Some c →
  printable (Rewrite without_time c) → time_free (Rewrite without_time c) → left_ok AND (Rewrite without_time c) →
  reduce (Rewrite without_time c) None = Ok d →
  time_ok start → time_ok stop → start ≠ Time_zero → stop ≠ Time_zero →
  ∃ c', SetTimeRange s start stop = (set_condition s (Some c'), Ok tt) ∧
    (if isFalseLiteral d then c' = BooleanLiteral false else TimeRange c' = (start, Time_Add stop (-1))).
Proof.
  intros Hc Hp Hf Hl Hd H1 H2 Hz1 Hz2. eexists. split.
  - unfold SetTimeRange, rewriteWithoutTimeDimensions. rewrite Hc, ranged_parsed by done.
    by rewrite (ranged_reduced _ _ _ d).
  - assert (Hfd : time_free d) by (intros v Hv; by eapply Hf, reduce_refs).
    destruct (isFalseLiteral d); [done|]. by apply ranged_times.
Qed.

(** Without a condition the times are the condition. *)
Lemma SetTimeRange_no_condition {goText : GoText} s start stop :
  Condition s = None → time_ok start → time_ok stop →
  SetTimeRange s start stop = (set_condition s (Some (BinaryExpr AND (from_time start) (until_time stop))), Ok tt).
Proof. intros Hc H1 H2. unfold SetTimeRange. rewrite Hc, range_parsed by done. reflexivity. Qed.

(** [AND] is appended to the text of the condition, so after a disjunction the
    times belong to its last part.  A comparison of time in the first part has
    become true by then, and so does the new condition: the range is lost. *)
Theorem SetTimeRange_or_loses_range {goText : GoText} (s : SelectStatement) (start stop : Time) (op : Token) (x b d : Expr) :
  Condition s = Some (BinaryExpr OR (BinaryExpr op (VarRef "time") x) b) →
  printable (Rewrite without_time b) → right_ok OR (Rewrite without_time b) →
  reduce (ranged (Rewrite without_time b) start stop) None = Ok d →
  time_ok start → time_ok stop →
  SetTimeRange s start stop = (set_condition s (Some (BooleanLiteral true)), Ok tt) ∧
  TimeRange (BooleanLiteral true) = (Time_zero, Time_zero).
Proof.
  intros Hc Hp Hr Hd H1 H2. split; [|done]. unfold SetTimeRange, rewriteWithoutTimeDimensions. rewrite Hc.
  set (b' := Rewrite without_time b) in *.
  change (Rewrite without_time (BinaryExpr OR (BinaryExpr op (VarRef "time") x) b)) with
    (without_time (BinaryExpr OR (without_time (BinaryExpr op (VarRef "time") (Rewrite without_time x))) b')).
  change (without_time (BinaryExpr op (VarRef "time") _)) with (BooleanLiteral true).
  change (without_time (BinaryExpr OR (BooleanLiteral true) b')) with (BinaryExpr OR (BooleanLiteral true) b').
  rewrite ranged_parsed; [|cbn [printable]; by split_and!|done..].
  assert (Reduce (ranged (BinaryExpr OR (BooleanLiteral true) b') start stop) None = Ok (BooleanLiteral true)) as ->; [|done].
  change (ranged (BinaryExpr OR (BooleanLiteral true) b') start stop) with (BinaryExpr OR (BooleanLiteral true) (ranged b' start stop)).
  unfold Reduce. cbn [reduce CloneExpr outcome_bind]. by rewrite Hd.
Qed.

(** *** Examples *)

Definition where_ (c : Expr) : SelectStatement :=
  mkSelect [mkField (VarRef "value") EmptyString] None [] [mkSource EmptyString EmptyString "cpu" None] (Some c) [] 0 0 0 0 0 true
    NullFill VNil.
Definition on_host : Expr := BinaryExpr EQ (VarRef "host") (StringLiteral "a").
Definition since (t : Time) : Expr := BinaryExpr GT (VarRef "time") (TimeLiteral t).

Lemma sample_time_ok t : t = sample_start ∨ t = sample_stop → @time_ok sample_text t.
Proof.
  intros Ht. exists (runes_of (@time_Format sample_text t)).
  destruct Ht as [-> | ->]; (split; [apply runes_of_text; vm_compute; reflexivity|]); repeat (split; [vm_compute; reflexivity|]);
    right; split; vm_compute; reflexivity.
Qed.
Lemma on_host_printable : @printable sample_text on_host.
Proof.
  cbn [printable on_host IsRegexOp]. split_and!; try done.
  - exists (runes_of "host"). split; [by apply runes_of_text|done].
  - exists (runes_of "a"). split; [by apply runes_of_text|done].
Qed.

Lemma SetTimeRange_exact_witness :
  ∃ c', @SetTimeRange sample_text (where_ (BinaryExpr AND (since sample_stop) on_host)) sample_start sample_stop =
    (set_condition (where_ (BinaryExpr AND (since sample_stop) on_host)) (Some c'), Ok tt) ∧
    (if isFalseLiteral on_host then c' = BooleanLiteral false else TimeRange c' = (sample_start, Time_Add sample_stop (-1))).
Proof.
  apply (@SetTimeRange_exact sample_text (where_ (BinaryExpr AND (since sample_stop) on_host)) sample_start sample_stop (BinaryExpr AND (since sample_stop) on_host) on_host eq_refl).
  - change (@printable sample_text (BinaryExpr AND (BooleanLiteral true) on_host)).
    cbn [printable]. split_and!; try done. apply on_host_printable.
  - change (time_free (BinaryExpr AND (BooleanLiteral true) on_host)). intros v Hv. simpl in Hv.
    repeat (apply elem_of_cons in Hv as [Hv|Hv]; [first [discriminate|injection Hv as ->; reflexivity]|]). by apply not_elem_of_nil in Hv.
  - done.
  - reflexivity.
  - apply sample_time_ok. by left.
  - apply sample_time_ok. by right.
  - done.
  - done.
Defined.

(** The bug above on [time > … OR host = 'a']; and a comparison with the time on
    the right, which is not removed and goes on to narrow the range. *)
Example SetTimeRange_or :
  (@SetTimeRange sample_text (where_ (BinaryExpr OR (since sample_stop) on_host)) sample_start sample_stop).1 =
  where_ (BooleanLiteral true).
Proof. vm_compute. reflexivity. Qed.
Example SetTimeRange_time_on_the_right :
  option_map TimeRange (Condition (@SetTimeRange sample_text (where_ (BinaryExpr LT (TimeLiteral sample_stop) (VarRef "time")))
    sample_start sample_stop).1) = Some (Time_Add sample_stop 1, Time_Add sample_stop (-1)).
Proof. vm_compute. reflexivity. Qed.

(** ** What [Substatement] keeps *)

(** A filtered condition only has names of the source, and a condition with only
    such names is kept as it is. *)
Lemma filterExprBySource_names name e e' v :
  filterExprBySource name e = Some e' → VarRef v ∈ walk e' → (∀ f args, Call f args ∉ walk e) → HasPrefix v name = true.
Proof.
  revert e'. induction e as [op l r IHl IHr|f args IH|e IH|e He] using Expr_rect'; intros e' H Hv Hc; cbn [filterExprBySource] in H.
  - assert (Hl : ∀ f args, Call f args ∉ walk l) by (intros f args ?; eapply (Hc f args); simpl; set_solver).
    assert (Hr : ∀ f args, Call f args ∉ walk r) by (intros f args ?; eapply (Hc f args); simpl; set_solver).
    destruct (filterExprBySource name l) as [l'|], (filterExprBySource name r) as [r'|]; destruct (_ || _); simplify_eq;
      simpl in Hv; rewrite ?elem_of_cons, ?elem_of_app in Hv; naive_solver.
  - exfalso. eapply (Hc f args). simpl. set_solver.
  - destruct (filterExprBySource name e) as [e1|]; simplify_eq. simpl in Hv. apply elem_of_cons in Hv as [?|Hv]; [done|].
    eapply IH; [done|done|]. intros f args ?. eapply (Hc f args). simpl. set_solver.
  - destruct e as [| | | | | | | | | | |w|]; try done; try (injection H as <-; by apply list_elem_of_singleton in Hv).
    cbn [filterExprBySource] in H. destruct (HasPrefix w name) eqn:E; [|done]. injection H as <-. apply list_elem_of_singleton in Hv. injection Hv as ->. done.
Qed.
Lemma filterExprBySource_keeps name e :
  (∀ v, VarRef v ∈ walk e → HasPrefix v name = true) → filterExprBySource name e = Some e.
Proof.
  induction e as [op l r IHl IHr|f args IH|e IH|e He] using Expr_rect'; intros H; cbn [filterExprBySource]; try done.
  - rewrite IHl, IHr by (intros v ?; apply H; simpl; set_solver). by destruct (_ || _).
  - rewrite IH; [done|]. intros v ?. apply H. simpl. set_solver.
  - destruct e; try done. cbn [filterExprBySource]. rewrite H; [done|]. simpl. set_solver.
Qed.
