(* ===== verification/Strconv.v ===== *)
(** * Numbers in the line protocol

    What [models/points.go] uses of [strconv]: [ParseFloat] with exponents,
    [FormatFloat] with the fewest digits that are read back, and [ParseBool]. *)

From stdpp Require Import base list strings.
From Stdlib Require Import ZArith Ascii Lia SpecFloat DecimalString DecimalN.
From S2P Require Import Prelude QlToken Escape QlExpr QlSelect QlPrint QlReader QlScan QlScanSpec QlScanProps QlDuration QlNumber.

Local Open Scope Z_scope.

(** ** [strconv.ParseFloat(s, 64)] *)

(** The text before the first [e] or [E], and the text behind it. *)
Fixpoint split_exponent (s : string) : string * option string :=
  match s with
  | EmptyString => (EmptyString, None)
  | String c s =>
      if bool_decide (c = "e"%char) || bool_decide (c = "E"%char) then (EmptyString, Some s)
      else let '(a, b) := split_exponent s in (String c a, b)
  end.

(** An exponent of five digits or more is out of range whatever it is. *)
Fixpoint read_exponent (s : string) (acc : Z) (some : bool) : option Z :=
  match s with
  | EmptyString => if some then Some acc else None
  | String c s =>
      if isDigit (rn c) then read_exponent s (if acc <? 10000 then 10 * acc + (rn c - rn "0") else acc) true
      else None
  end.

Definition exponent_of (e : option string) : option Z :=
  match e with
  | None => Some 0
  | Some s => let '(neg, digits) := read_sign s in (λ n, if neg : bool then - n else n) <$> read_exponent digits 0 false
  end.

Definition scaled (round : bool → Z → Z → float64) (neg : bool) (n e : Z) : float64 :=
  if 0 <=? e then round neg (n * 10 ^ e) 1 else round neg n (10 ^ (- e)).

(** [inf], [infinity] and [nan], in any case. *)
Definition special_float (neg : bool) (s : string) : option float64 :=
  let l := ToLower s in
  if bool_decide (l = "inf") || bool_decide (l = "infinity") then Some (S754_infinity neg)
  else if bool_decide (l = "nan") then Some S754_nan
  else None.

Definition ParseFloat_with (round : bool → Z → Z → float64) (s : string) : option float64 :=
  let '(neg, body) := read_sign s in
  match special_float neg body with
  | Some f => Some f
  | None =>
      let '(mantissa, e) := split_exponent body in
      '(n, frac) ← read_decimal mantissa 0 None false;
      e ← exponent_of e;
      match scaled round neg n (e - frac) with
      | S754_infinity _ => None
      | f => Some f
      end
  end.
Definition ParseFloat64 : string → option float64 := ParseFloat_with round_ratio.

(** A [float32] as the [float64] with its value. *)
Definition round_ratio32 (neg : bool) (n d : Z) : float64 :=
  if n =? 0 then S754_zero neg
  else
    let s := Z.max 0 (60 + Z.log2 d - Z.log2 n) in
    let q := Z.shiftl n s / d in
    let sticky := if Z.shiftl n s mod d =? 0 then 0 else 1 in
    binary_round 24 128 neg (Z.to_pos (2 * q + sticky)) (- s - 1).

(** ** [strconv.FormatFloat(f, 'f', -1, bits)] *)

(** [n / d < 10 ^ x] *)
Definition below10 (n d x : Z) : bool := if 0 <=? x then n <? d * 10 ^ x else n * 10 ^ (- x) <? d.
(** The number of digits of [n / d] before the full stop; not positive for a
    number with zeros after it. *)
Fixpoint digits_from (k : nat) (n d x : Z) : Z :=
  match k with
  | O => x
  | S k => if below10 n d x then x else digits_from k n d (x + 1)
  end.
Definition digits_before (n d : Z) : Z :=
  digits_from 6 n d ((Z.log2 n - Z.log2 d - 1) * 30103 / 100000 - 1).

Fixpoint zeros (k : nat) : string := match k with O => EmptyString | S k => String "0"%char (zeros k) end.
Fixpoint insert_point (k : nat) (s : string) : string :=
  match k, s with
  | O, _ => String "."%char s
  | S k, String c s => String c (insert_point k s)
  | S k, EmptyString => EmptyString
  end.
(** [digits * 10 ^ e] without an exponent. *)
Definition fixed_text (digits e : Z) : string :=
  let s := decimal digits in
  if 0 <=? e then s +:+ zeros (Z.to_nat e)
  else
    let l := Z.of_nat (String.length s) in
    if - e <? l then insert_point (Z.to_nat (l + e)) s
    else "0." +:+ zeros (Z.to_nat (- e - l)) +:+ s.

(** With [k] digits: the two numbers next to [n / d], those that are read back
    as the float, and the nearer of the two when both are. *)
Definition shortest_with (reads : string → bool) (n d x k : Z) : option string :=
  let e := x - k in
  let '(n', d') := if 0 <=? e then (n, d * 10 ^ e) else (n * 10 ^ (- e), d) in
  let lo := n' / d' in
  let down := (0 <? lo) && reads (fixed_text lo e) in
  let up := reads (fixed_text (lo + 1) e) in
  if down && up then Some (fixed_text (round_half_even n' d') e)
  else if down then Some (fixed_text lo e)
  else if up then Some (fixed_text (lo + 1) e)
  else None.
Fixpoint shortest_from (reads : string → bool) (n d x : Z) (more : nat) (k : Z) : string :=
  match more with
  | O => EmptyString
  | S more =>
      match shortest_with reads n d x k with
      | Some s => s
      | None => shortest_from reads n d x more (k + 1)
      end
  end.
(** 17 digits tell all floats apart. *)
Definition FormatFloat_shortest (round : bool → Z → Z → float64) (f : float64) : string :=
  match f with
  | S754_nan => "NaN"
  | S754_infinity neg => (if neg then "-" else "+") +:+ "Inf"
  | S754_zero neg => sign_text neg +:+ "0"
  | S754_finite neg m e =>
      let '(n, d) := if 0 <=? e then (Zpos m * 2 ^ e, 1) else (Zpos m, 2 ^ (- e)) in
      let reads s := bool_decide (ParseFloat_with round s = Some (S754_finite false m e)) in
      sign_text neg +:+ shortest_from reads n d (digits_before n d) 17 1
  end.
Definition FormatFloat64 : float64 → string := FormatFloat_shortest round_ratio.
Definition FormatFloat32 : float64 → string := FormatFloat_shortest round_ratio32.

(** ** [strconv.ParseBool] *)

Definition ParseBool (s : string) : option bool :=
  if bool_decide (s ∈ ["1"; "t"; "T"; "TRUE"; "true"; "True"]) then Some true
  else if bool_decide (s ∈ ["0"; "f"; "F"; "FALSE"; "false"; "False"]) then Some false
  else None.

Example ParseFloat64_examples :
  ParseFloat64 "1e3" = Some (number_of "1000") ∧ ParseFloat64 "-25E-1" = Some (number_of "-2.5") ∧
  ParseFloat64 "1e400" = None ∧ ParseFloat64 "1e" = None ∧ ParseFloat64 "." = None ∧ ParseFloat64 "-" = None ∧
  ParseFloat64 "1e-400" = Some (S754_zero false) ∧ ParseFloat64 "+Inf" = Some (S754_infinity false).
Proof. repeat split; vm_compute; reflexivity. Qed.

Example FormatFloat64_examples :
  FormatFloat64 (number_of "0.1") = "0.1" ∧ FormatFloat64 (number_of "-1234.5") = "-1234.5" ∧
  FormatFloat64 (number_of "1000000") = "1000000" ∧ FormatFloat64 (number_of "0.000125") = "0.000125" ∧
  FormatFloat64 (number_of "0.3333333333333333148") = "0.3333333333333333" ∧
  FormatFloat64 (number_of "9007199254740993") = "9007199254740992" ∧
  ParseFloat64 (FormatFloat64 (S754_finite false 1 (-1074))) = Some (S754_finite false 1 (-1074)).
Proof. repeat split; vm_compute; reflexivity. Qed.
