(* ===== verification/TsdbMerge.v ===== *)
(** * Merging of sorted slices: the loops of [tsdb/meta.go]

    [SeriesIDs] and [Measurements] are sorted slices used as sets.  Their
    methods run two indices over two slices; here a slice is what an index has
    not passed yet.  The loops compare a key, the id or the name. *)

From stdpp Require Import base list strings sets sorting.
From Stdlib Require Import ZArith Lia.
From S2P Require Import Prelude.

(** ** The order of keys *)

Class KeyOrder (K : Type) := {
  klt : K → K → bool;
  klt_irrefl : ∀ x, klt x x = false;
  klt_trans : ∀ x y z, klt x y = true → klt y z = true → klt x z = true;
  klt_total : ∀ x y, klt x y = false → klt y x = false → x = y
}.

#[export] Instance Z_key : KeyOrder Z.
Proof. refine {| klt := Z.ltb |}; intros; lia. Defined.

#[export] Instance string_key : KeyOrder string.
Proof.
  refine {| klt := String.ltb |}.
  - intros x. unfold String.ltb. pose proof (String.compare_antisym x x) as H.
    by destruct (String.compare x x).
  - assert (Hlt : ∀ x y, String.ltb x y = true ↔ String.le x y ∧ ¬ String.le y x).
    { intros x y. unfold String.ltb, String.le, String.leb. rewrite (String.compare_antisym y x).
      destruct (String.compare x y); simpl; naive_solver. }
    intros x y z [H1 H1']%Hlt [H2 H2']%Hlt. apply Hlt. split; [by transitivity y|].
    intros H3. apply H1'. by transitivity z.
  - intros x y H1 H2. unfold String.ltb in H1, H2. rewrite String.compare_antisym in H2.
    destruct (String.compare x y) eqn:E; simpl in *; try done. by apply String.compare_eq_iff.
Defined.

(** ** The loops *)

Section merge.
Context {A K : Type} `{!EqDecision K, !KeyOrder K} (key : A → K).

Fixpoint union_loop (l : list A) : list A → list A :=
  fix go (r : list A) : list A :=
    match l, r with
    | [], _ => r
    | _, [] => l
    | x :: l', y :: r' =>
        if bool_decide (key x = key y) then x :: union_loop l' r'
        else if klt (key x) (key y) then x :: union_loop l' r
        else y :: go r'
    end.

Fixpoint intersect_loop (l : list A) : list A → list A :=
  fix go (r : list A) : list A :=
    match l, r with
    | [], _ | _, [] => []
    | x :: l', y :: r' =>
        if bool_decide (key x = key y) then x :: intersect_loop l' r'
        else if klt (key x) (key y) then intersect_loop l' r
        else go r'
    end.

Fixpoint reject_loop (l : list A) : list A → list A :=
  fix go (r : list A) : list A :=
    match l, r with
    | [], _ => []
    | _, [] => l
    | x :: l', y :: r' =>
        if bool_decide (key x = key y) then reject_loop l' r'
        else if klt (key x) (key y) then x :: reject_loop l' r
        else go r'
    end.

(** The shorter slice is walked first. *)
Definition intersect_slices (a other : list A) : list A :=
  if (length other <? length a)%nat then intersect_loop other a else intersect_loop a other.

(** ** Sorted slices as sets of keys *)

Definition before (x y : A) : Prop := klt (key x) (key y) = true.
Definition sorted (l : list A) : Prop := StronglySorted before l.
Definition keys (l : list A) : list K := key <$> l.

#[local] Notation "k ∈k l" := (k ∈ keys l) (at level 70).

Lemma elem_of_keys_cons k x l : k ∈k (x :: l) ↔ k = key x ∨ k ∈k l.
Proof. unfold keys. rewrite fmap_cons. set_solver. Qed.

Lemma sorted_cons x l : sorted (x :: l) ↔ (∀ k, k ∈k l → klt (key x) k = true) ∧ sorted l.
Proof.
  unfold sorted, keys. split.
  - intros [Hl Hx]%StronglySorted_inv. split; [|done].
    intros k (y & -> & Hy)%list_elem_of_fmap. rewrite Forall_forall in Hx. by apply Hx.
  - intros [Hx Hl]. constructor; [done|]. apply Forall_forall. intros y Hy. apply Hx.
    apply list_elem_of_fmap. eauto.
Qed.

Lemma klt_asym x y : klt x y = true → klt y x = false.
Proof.
  intros H. destruct (klt y x) eqn:E; [|done]. pose proof (klt_trans x y x H E) as H'.
  by rewrite klt_irrefl in H'.
Qed.

Lemma klt_lt x y : x ≠ y → klt x y = false → klt y x = true.
Proof. intros Hn H. destruct (klt y x) eqn:E; [done|]. destruct Hn. by apply klt_total. Qed.

(** A key before all keys of a slice is not in it. *)
Lemma not_elem_before x l : (∀ k, k ∈k l → klt x k = true) → ¬ x ∈k l.
Proof. intros H Hx. specialize (H x Hx). by rewrite klt_irrefl in H. Qed.

(** The loops, one round unfolded. *)
Lemma union_loop_cons x l y r :
  union_loop (x :: l) (y :: r) =
    if bool_decide (key x = key y) then x :: union_loop l r
    else if klt (key x) (key y) then x :: union_loop l (y :: r)
    else y :: union_loop (x :: l) r.
Proof. done. Qed.
Lemma intersect_loop_cons x l y r :
  intersect_loop (x :: l) (y :: r) =
    if bool_decide (key x = key y) then x :: intersect_loop l r
    else if klt (key x) (key y) then intersect_loop l (y :: r)
    else intersect_loop (x :: l) r.
Proof. done. Qed.
Lemma reject_loop_cons x l y r :
  reject_loop (x :: l) (y :: r) =
    if bool_decide (key x = key y) then reject_loop l r
    else if klt (key x) (key y) then x :: reject_loop l (y :: r)
    else reject_loop (x :: l) r.
Proof. done. Qed.

Lemma union_loop_nil_r l : union_loop l [] = l.
Proof. by destruct l. Qed.

Lemma elem_of_union_loop l r k :
  k ∈k union_loop l r ↔ k ∈k l ∨ k ∈k r.
Proof.
  revert r. induction l as [|x l IHl]; intros r; [destruct r; set_solver|].
  induction r as [|y r IHr]; [cbn [union_loop]; unfold keys; set_solver|]. rewrite union_loop_cons.
  case_bool_decide as Hxy; [|destruct (klt (key x) (key y))];
    rewrite !elem_of_keys_cons, ?IHl, ?IHr, ?elem_of_keys_cons; try rewrite Hxy; tauto.
Qed.

Lemma union_loop_sorted l r : sorted l → sorted r → sorted (union_loop l r).
Proof.
  revert r. induction l as [|x l IHl]; intros r Hl Hr; [by destruct r|].
  induction r as [|y r IHr]; [done|]. rewrite union_loop_cons.
  pose proof Hl as [Hx Hl']%sorted_cons. pose proof Hr as [Hy Hr']%sorted_cons.
  case_bool_decide as Hxy; [|destruct (klt (key x) (key y)) eqn:E]; apply sorted_cons; split; auto.
  - intros k [?|?]%elem_of_union_loop; [by apply Hx|]. rewrite Hxy. by apply Hy.
  - intros k [?|[->|Hk%Hy]%elem_of_keys_cons]%elem_of_union_loop; [by apply Hx|done|].
    by eapply klt_trans.
  - apply klt_lt in E; [|done]. intros k [[->|Hk%Hx]%elem_of_keys_cons|?]%elem_of_union_loop;
      [done|by eapply klt_trans|by apply Hy].
Qed.

Lemma elem_of_intersect_loop l r k :
  sorted l → sorted r → k ∈k intersect_loop l r ↔ k ∈k l ∧ k ∈k r.
Proof.
  revert r. induction l as [|x l IHl]; intros r Hl Hr; [destruct r; set_solver|].
  induction r as [|y r IHr]; [cbn [intersect_loop]; unfold keys; set_solver|].
  pose proof Hl as [Hx Hl']%sorted_cons. pose proof Hr as [Hy Hr']%sorted_cons.
  rewrite intersect_loop_cons. case_bool_decide as Hxy; [|destruct (klt (key x) (key y)) eqn:E].
  - rewrite !elem_of_keys_cons, IHl, <- Hxy by done.
    pose proof (not_elem_before _ _ Hx). rewrite <- Hxy in Hy. pose proof (not_elem_before _ _ Hy). naive_solver.
  - rewrite IHl, !elem_of_keys_cons by done. split; [tauto|]. intros [[->|?] Hk]; [exfalso|tauto].
    destruct Hk as [?|Hk%Hy%klt_asym]; congruence.
  - apply klt_lt in E; [|done]. rewrite IHr, !elem_of_keys_cons by done. split; [tauto|].
    intros [Hk [->|?]]; [exfalso|tauto]. destruct Hk as [?|Hk%Hx%klt_asym]; congruence.
Qed.

Lemma intersect_loop_sorted l r : sorted l → sorted r → sorted (intersect_loop l r).
Proof.
  revert r. induction l as [|x l IHl]; intros r Hl Hr; [by destruct r; constructor|].
  induction r as [|y r IHr]; [constructor|]. rewrite intersect_loop_cons.
  pose proof Hl as [Hx Hl']%sorted_cons. pose proof Hr as [Hy Hr']%sorted_cons.
  case_bool_decide; [|case_match; auto]. apply sorted_cons. split; [|auto].
  intros k [? _]%elem_of_intersect_loop; auto.
Qed.

Lemma elem_of_reject_loop l r k :
  sorted l → sorted r → k ∈k reject_loop l r ↔ k ∈k l ∧ ¬ k ∈k r.
Proof.
  revert r. induction l as [|x l IHl]; intros r Hl Hr; [destruct r; set_solver|].
  induction r as [|y r IHr]; [cbn [reject_loop]; unfold keys; set_solver|].
  pose proof Hl as [Hx Hl']%sorted_cons. pose proof Hr as [Hy Hr']%sorted_cons.
  pose proof (not_elem_before _ _ Hx). pose proof (not_elem_before _ _ Hy).
  rewrite reject_loop_cons. case_bool_decide as Hxy; [|destruct (klt (key x) (key y)) eqn:E].
  - rewrite IHl, !elem_of_keys_cons, <- Hxy by done. naive_solver.
  - rewrite !elem_of_keys_cons, IHl, !elem_of_keys_cons by done.
    split; [|tauto]. intros [->|?]; [|tauto]. split; [by left|].
    intros [?|Hk%Hy%klt_asym]; congruence.
  - apply klt_lt in E; [|done]. rewrite IHr, !elem_of_keys_cons by done.
    split; [|tauto]. intros [Hk Hn]. split; [done|]. intros [->|?]; [|done].
    destruct Hk as [?|Hk%Hx%klt_asym]; congruence.
Qed.

Lemma reject_loop_sorted l r : sorted l → sorted r → sorted (reject_loop l r).
Proof.
  revert r. induction l as [|x l IHl]; intros r Hl Hr; [by destruct r; constructor|].
  induction r as [|y r IHr]; [done|]. rewrite reject_loop_cons.
  pose proof Hl as [Hx Hl']%sorted_cons. pose proof Hr as [Hy Hr']%sorted_cons.
  case_bool_decide; [auto|]. case_match; [|auto]. apply sorted_cons. split; [|auto].
  intros k [? _]%elem_of_reject_loop; auto.
Qed.

Lemma elem_of_intersect_slices a b k :
  sorted a → sorted b → k ∈k intersect_slices a b ↔ k ∈k a ∧ k ∈k b.
Proof.
  intros. unfold intersect_slices. case_match; rewrite elem_of_intersect_loop by done; tauto.
Qed.

Lemma intersect_slices_sorted a b : sorted a → sorted b → sorted (intersect_slices a b).
Proof. intros. unfold intersect_slices. case_match; by apply intersect_loop_sorted. Qed.

(** A sorted slice is given by its set of keys. *)
Lemma sorted_keys_unique l r :
  sorted l → sorted r → (∀ k, k ∈k l ↔ k ∈k r) → keys l = keys r.
Proof.
  revert r. induction l as [|x l IH]; intros [|y r] Hl Hr Heq; [done|..].
  - exfalso. assert (key y ∈k []) as H by (apply Heq, elem_of_keys_cons; by left). set_solver.
  - exfalso. assert (key x ∈k []) as H by (apply Heq, elem_of_keys_cons; by left). set_solver.
  - apply sorted_cons in Hl as [Hx Hl], Hr as [Hy Hr].
    assert (key x = key y) as Hxy.
    { assert (key x ∈k (y :: r)) as [?|H1%Hy]%elem_of_keys_cons by (apply Heq, elem_of_keys_cons; by left); [done|].
      assert (key y ∈k (x :: l)) as [?|H2%Hx]%elem_of_keys_cons by (apply Heq, elem_of_keys_cons; by left); [done|].
      apply klt_asym in H1. congruence. }
    cbn. rewrite Hxy. f_equal. apply IH; [done..|]. intros k. specialize (Heq k).
    rewrite !elem_of_keys_cons, <- Hxy in Heq. rewrite <- Hxy in Hy.
    pose proof (not_elem_before _ _ Hx). pose proof (not_elem_before _ _ Hy). naive_solver.
Qed.
End merge.
