(* ===== verification/TsdbIndex.v ===== *)
(** * The index of series: [tsdb/meta.go]

    A database keeps in memory which series each measurement has and which
    series have which tag, and answers with it which series a [WHERE] clause
    concerns and with which filter on their points.

    Measurements are shared: the index, and every series, hold pointers to them.
    They live in a store of objects, [objects], and a pointer is a position in
    it.  A [Series] is not changed once it is in the index, so that maps hold
    its value. *)

From stdpp Require Import base list strings gmap sets sorting.
From Stdlib Require Import ZArith Lia Ascii.
From S2P Require Import Prelude QlToken QlExpr Escape TsdbMerge.

Local Open Scope Z_scope.

(** ** Identifiers of series *)

Abbreviation SeriesIDs := (list Z).

Definition SeriesIDs_Equals (a other : SeriesIDs) : bool :=
  (length a =? length other)%nat &&
  forallb (λ '(x, s), x =? s) (zip a other).
Definition SeriesIDs_Intersect (a other : SeriesIDs) : SeriesIDs := intersect_slices id a other.
Definition SeriesIDs_Union (a other : SeriesIDs) : SeriesIDs := union_loop id a other.
Definition SeriesIDs_Reject (a other : SeriesIDs) : SeriesIDs := reject_loop id a other.

(** ** The data *)

Abbreviation tags := (gmap string string).
Abbreviation pointer := nat.

Record Series := mkSeries {
  Series_Key : string;
  Series_Tags : tags;
  Series_id : Z;
  Series_measurement : option pointer
}.

Abbreviation tagIndex := (gmap string (gmap string SeriesIDs)).

Record Measurement := mkMeasurement {
  Measurement_Name : string;
  fieldNames : gset string;
  seriesByID : gmap Z Series;
  seriesByTagKeyValue : tagIndex;
  seriesIDs : SeriesIDs
}.

Record DatabaseIndex := mkDatabaseIndex {
  measurements : gmap string pointer;
  series : gmap string Series;
  lastID : Z;
  objects : list Measurement
}.

Definition NewSeries (key : string) (t : tags) : Series := mkSeries key t 0 None.
Definition NewMeasurement (name : string) : Measurement := mkMeasurement name ∅ ∅ ∅ [].
Definition NewDatabaseIndex : DatabaseIndex := mkDatabaseIndex ∅ ∅ 0 [].

(** ** Measurements *)

Section index.
Context {goSort : GoSort}.

Definition HasField (m : Measurement) (name : string) : bool := bool_decide (name ∈ fieldNames m).
Definition HasTagKey (m : Measurement) (k : string) : bool := bool_decide (is_Some (seriesByTagKeyValue m !! k)).
Definition HasSeries (m : Measurement) : bool := (0 <? size (seriesByID m))%nat.
Definition SeriesByID (m : Measurement) (id : Z) : option Series := seriesByID m !! id.
Definition SeriesKeys (m : Measurement) : list string := Series_Key ∘ snd <$> map_to_list (seriesByID m).
Definition SetFieldName (m : Measurement) (name : string) : Measurement :=
  mkMeasurement (Measurement_Name m) ({[name]} ∪ fieldNames m) (seriesByID m) (seriesByTagKeyValue m) (seriesIDs m).
Definition FieldNames (m : Measurement) : list string := elements (fieldNames m).

(** [sort.Strings]: equal strings are the same, so the algorithm does not matter. *)
Definition sort_Strings (l : list string) : list string := insertion_sort String.ltb l.
Definition TagKeys (m : Measurement) : list string := sort_Strings (fst <$> map_to_list (seriesByTagKeyValue m)).
Definition TagValues (m : Measurement) (key : string) : list string :=
  fst <$> map_to_list (default ∅ (seriesByTagKeyValue m !! key)).

(** [append], then [sort.Sort] only when the last two are out of order. *)
Definition append_id (ids : SeriesIDs) (id : Z) : SeriesIDs :=
  let ids := ids ++ [id] in
  if (1 <? length ids)%nat &&
     match last ids, ids !! (length ids - 2)%nat with Some x, Some y => x <? y | _, _ => false end
  then sort_Sort Z.ltb ids else ids.

(** One round of the loop over the tags of a new series. *)
Definition add_tag (id : Z) (k v : string) (idx : tagIndex) : tagIndex :=
  let valueMap := default ∅ (idx !! k) in
  <[k := <[v := append_id (default [] (valueMap !! v)) id]> valueMap]> idx.

Definition AddSeries (m : Measurement) (s : Series) : Measurement * bool :=
  if decide (is_Some (seriesByID m !! Series_id s)) then (m, false)
  else
    (mkMeasurement (Measurement_Name m) (fieldNames m)
       (<[Series_id s := s]> (seriesByID m))
       (map_fold (add_tag (Series_id s)) (seriesByTagKeyValue m) (Series_Tags s))
       (append_id (seriesIDs m) (Series_id s)), true).

Definition without (id : Z) (ids : SeriesIDs) : SeriesIDs := filter (λ i, i ≠ id) ids.
(** The id is removed from every value; empty values and then empty keys are
    deleted. *)
Definition drop_value (id : Z) (ids : SeriesIDs) : option SeriesIDs :=
  match without id ids with [] => None | ids => Some ids end.
Definition drop_key (id : Z) (values : gmap string SeriesIDs) : option (gmap string SeriesIDs) :=
  let values := omap (drop_value id) values in
  if decide (values = ∅) then None else Some values.

Definition Measurement_DropSeries (m : Measurement) (id : Z) : Measurement :=
  if decide (is_Some (seriesByID m !! id)) then
    mkMeasurement (Measurement_Name m) (fieldNames m) (delete id (seriesByID m))
      (omap (drop_key id) (seriesByTagKeyValue m)) (without id (seriesIDs m))
  else m.

(** ** The database index *)

(** The object behind a pointer is replaced. *)
Definition set_object (d : DatabaseIndex) (p : pointer) (m : Measurement) : DatabaseIndex :=
  mkDatabaseIndex (measurements d) (series d) (lastID d) (<[p := m]> (objects d)).

Definition index_Series (d : DatabaseIndex) (key : string) : option Series := series d !! key.
Definition SeriesN (d : DatabaseIndex) : nat := size (series d).
Definition index_Measurement (d : DatabaseIndex) (name : string) : option Measurement :=
  p ← measurements d !! name; objects d !! p.
Definition MeasurementsByName (d : DatabaseIndex) (names : list string) : list Measurement :=
  omap (index_Measurement d) names.
Definition MeasurementSeriesCounts (d : DatabaseIndex) : nat * nat :=
  (size (measurements d), size (series d)).
Definition TagsForSeries (d : DatabaseIndex) (key : string) : option tags := Series_Tags <$> series d !! key.

Definition CreateMeasurementIndexIfNotExists (d : DatabaseIndex) (name : string) : DatabaseIndex * pointer :=
  let name := UnescapeString codesStr name in
  match measurements d !! name with
  | Some p => (d, p)
  | None =>
      let p := length (objects d) in
      (mkDatabaseIndex (<[name := p]> (measurements d)) (series d) (lastID d)
         (objects d ++ [NewMeasurement name]), p)
  end.

Definition CreateSeriesIndexIfNotExists (d : DatabaseIndex) (measurementName : string) (s : Series)
    : exprE (DatabaseIndex * Series) :=
  match series d !! Series_Key s with
  | Some ss => Ok (d, ss)
  | None =>
      let '(d, p) := CreateMeasurementIndexIfNotExists d measurementName in
      let s := mkSeries (Series_Key s) (Series_Tags s) (u64 (lastID d + 1)) (Some p) in
      let d := mkDatabaseIndex (measurements d) (<[Series_Key s := s]> (series d)) (u64 (lastID d + 1)) (objects d) in
      match objects d !! p with
      | None => Panic
      | Some m => Ok (set_object d p (AddSeries m s).1, s)
      end
  end.

Definition DropMeasurement (d : DatabaseIndex) (name : string) : exprE DatabaseIndex :=
  match measurements d !! name with
  | None => Ok d
  | Some p =>
      match objects d !! p with
      | None => Panic
      | Some m =>
          Ok (mkDatabaseIndex (delete name (measurements d))
                (foldl (λ ss key, delete key ss) (series d) (SeriesKeys m)) (lastID d) (objects d))
      end
  end.

(** One key of [DropSeries]; the series leads to its measurement. *)
Definition drop_series (d : DatabaseIndex) (k : string) : exprE DatabaseIndex :=
  match series d !! k with
  | None => Ok d
  | Some s =>
      match p ← Series_measurement s; m ← objects d !! p; Some (p, m) with
      | None => Panic
      | Some (p, m) =>
          let d := set_object d p (Measurement_DropSeries m (Series_id s)) in
          Ok (mkDatabaseIndex (measurements d) (delete k (series d)) (lastID d) (objects d))
      end
  end.
Fixpoint DropSeries (d : DatabaseIndex) (keys : list string) : exprE DatabaseIndex :=
  match keys with
  | [] => Ok d
  | k :: keys => let! d := drop_series d k in DropSeries d keys
  end.

(** [d.Measurement(name).SetFieldName(field)], as the shards call it. *)
Definition index_SetFieldName (d : DatabaseIndex) (p : pointer) (field : string) : exprE DatabaseIndex :=
  match objects d !! p with
  | None => Panic
  | Some m => Ok (set_object d p (SetFieldName m field))
  end.
End index.
