(* ===== verification/TsdbIndexInv.v ===== *)
(** * The invariant of the series index

    What the maps of [tsdb/meta.go] mean, and that every operation of the index
    keeps it. *)

From stdpp Require Import base list strings gmap sets sorting.
From Stdlib Require Import ZArith Lia.
From S2P Require Import Prelude QlToken QlExpr Escape TsdbMerge TsdbIndex.

Local Open Scope Z_scope.

Abbreviation ids_sorted := (sorted (id : Z → Z)).

(** ** Slices of ids *)

Lemma keys_id (l : list Z) : keys id l = l.
Proof. apply list_fmap_id. Qed.

Lemma ids_sorted_lt l : ids_sorted l ↔ StronglySorted Z.lt l.
Proof.
  unfold sorted, before. split; intros H; induction H as [|x l Hl IH Hx]; constructor; auto;
    (eapply Forall_impl; [exact Hx|]); intros y; simpl; lia.
Qed.

Lemma ids_sorted_snoc l i : ids_sorted l → (∀ j, j ∈ l → j < i) → ids_sorted (l ++ [i]).
Proof.
  rewrite !ids_sorted_lt. intros Hl Hi. apply StronglySorted_app. split_and!; [|done|repeat constructor].
  intros x y Hx ->%list_elem_of_singleton. auto.
Qed.

Lemma ids_sorted_filter l i : ids_sorted l → ids_sorted (without i l).
Proof.
  rewrite !ids_sorted_lt. unfold without. induction 1 as [|x l Hl IH Hx]; [constructor|].
  rewrite filter_cons. case_decide; [|done]. constructor; [done|].
  rewrite Forall_forall in *. intros y [_ ?]%list_elem_of_filter. auto.
Qed.

Lemma elem_of_without i j l : j ∈ without i l ↔ j ≠ i ∧ j ∈ l.
Proof. unfold without. by rewrite list_elem_of_filter. Qed.

Section invariant.
Context {goSort : GoSort}.

(** A new id is larger than the others, and no sort takes place. *)
Lemma append_id_fresh ids i : (∀ j, j ∈ ids → j < i) → append_id ids i = ids ++ [i].
Proof.
  intros H. unfold append_id. rewrite last_snoc, length_app. simpl.
  destruct (_ && _) eqn:E; [|done]. apply andb_prop in E as [_ E].
  replace (length ids + 1 - 2)%nat with (length ids - 1)%nat in E by lia.
  destruct ((ids ++ [i]) !! (length ids - 1)%nat) as [y|] eqn:Hy; [|done].
  destruct ids as [|z ids]; [simplify_eq/=; lia|].
  rewrite lookup_app_l in Hy by (simpl; lia).
  apply list_elem_of_lookup_2, H in Hy. lia.
Qed.

(** ** The tag index *)

(** The ids under a key and a value. *)
Definition ids_with (idx : tagIndex) (k v : string) : SeriesIDs :=
  default [] (vs ← idx !! k; vs !! v).

(** No empty entries. *)
Definition index_full (idx : tagIndex) : Prop :=
  ∀ k vs, idx !! k = Some vs → vs ≠ ∅ ∧ ∀ v l, vs !! v = Some l → l ≠ [].

Lemma ids_with_add_tag idx i k v k' v' :
  ids_with (add_tag i k v idx) k' v' =
    if decide (k' = k ∧ v' = v) then append_id (ids_with idx k v) i else ids_with idx k' v'.
Proof.
  unfold ids_with, add_tag. destruct (decide (k' = k)) as [->|Hk].
  - rewrite lookup_insert_eq. simpl. destruct (decide (v' = v)) as [->|Hv].
    + rewrite lookup_insert_eq, decide_True by done. simpl. by destruct (idx !! k).
    + rewrite lookup_insert_ne, decide_False by naive_solver. by destruct (idx !! k).
  - rewrite lookup_insert_ne, decide_False by naive_solver. done.
Qed.

Lemma append_id_nonempty ids i : append_id ids i ≠ [].
Proof.
  unfold append_id. case_match; [|by destruct ids]. intros Hn.
  pose proof (sort_perm _ Z.ltb (ids ++ [i])) as Hp. rewrite Hn in Hp.
  apply Permutation_nil_l in Hp. by destruct ids.
Qed.

Lemma index_full_add_tag idx i k v : index_full idx → index_full (add_tag i k v idx).
Proof.
  intros H k' vs. unfold add_tag. intros [[<- <-]|[Hk Hvs]]%lookup_insert_Some; [|by apply H in Hvs].
  split; [apply insert_non_empty|]. intros v' l [[<- <-]|[_ Hl]]%lookup_insert_Some.
  - apply append_id_nonempty.
  - destruct (idx !! k) as [vs|] eqn:Hvs; simpl in Hl; [|done]. by apply H in Hvs as [_ ?]; eauto.
Qed.

Lemma map_fold_add_tag i idx T k v :
  ids_with (map_fold (add_tag i) idx T) k v =
    if decide (T !! k = Some v) then append_id (ids_with idx k v) i else ids_with idx k v.
Proof.
  pose (P (r : tagIndex) (T : tags) := ∀ k v, ids_with r k v =
    if decide (T !! k = Some v) then append_id (ids_with idx k v) i else ids_with idx k v).
  revert k v. change (P (map_fold (add_tag i) idx T) T). revert T. apply map_fold_weak_ind; unfold P; clear P.
  - intros k v. by rewrite lookup_empty.
  - intros k v T' r Hk IH k' v'. rewrite ids_with_add_tag. destruct (decide (k' = k)) as [->|Hne].
    + rewrite lookup_insert_eq. rewrite !IH, !(decide_False (P := T' !! k = Some _)) by congruence.
      destruct (decide (v' = v)) as [->|]; [by rewrite !decide_True|].
      rewrite !decide_False by naive_solver. done.
    + rewrite lookup_insert_ne by done. rewrite decide_False by naive_solver. apply IH.
Qed.

Lemma map_fold_index_full i idx T : index_full idx → index_full (map_fold (add_tag i) idx T).
Proof.
  intros H. apply (map_fold_weak_ind (λ (r : tagIndex) (_ : tags), index_full r)); [done|]. intros. by apply index_full_add_tag.
Qed.

Lemma ids_with_drop idx i k v : ids_with (omap (drop_key i) idx) k v = without i (ids_with idx k v).
Proof.
  unfold ids_with. rewrite lookup_omap. destruct (idx !! k) as [vs|]; [|done]. simpl.
  assert (Hv : omap (drop_value i) vs !! v = vs !! v ≫= drop_value i) by apply lookup_omap.
  assert (Hd : ∀ o, default [] (o ≫= drop_value i) = without i (default [] o)).
  { intros [l|]; [|done]. simpl. unfold drop_value. by destruct (without i l). }
  unfold drop_key. case_decide as He; simpl.
  - rewrite <- Hd, <- Hv, He, lookup_empty. done.
  - rewrite Hv. apply Hd.
Qed.

Lemma index_full_drop idx i : index_full (omap (drop_key i) idx).
Proof.
  intros k vs. rewrite lookup_omap_Some. unfold drop_key. intros (vs0 & Hvs & H0).
  case_decide; simplify_eq. split; [done|].
  intros v l. rewrite lookup_omap_Some. unfold drop_value. intros (l0 & Hl & _).
  destruct (without i l0); by simplify_eq.
Qed.

(** ** Measurements *)

Record measurement_ok (m : Measurement) : Prop := {
  mo_sorted : ids_sorted (seriesIDs m);
  mo_ids : ∀ i, i ∈ seriesIDs m ↔ is_Some (seriesByID m !! i);
  mo_self : ∀ i s, seriesByID m !! i = Some s → Series_id s = i;
  mo_tags_sorted : ∀ k v, ids_sorted (ids_with (seriesByTagKeyValue m) k v);
  mo_tags : ∀ k v i, i ∈ ids_with (seriesByTagKeyValue m) k v ↔
    ∃ s, seriesByID m !! i = Some s ∧ Series_Tags s !! k = Some v;
  mo_full : index_full (seriesByTagKeyValue m)
}.

Lemma NewMeasurement_ok name : measurement_ok (NewMeasurement name).
Proof.
  split; simpl.
  - constructor.
  - intros i. rewrite lookup_empty. split; [set_solver|by intros [??]].
  - intros i s. by rewrite lookup_empty.
  - intros k v. unfold ids_with. rewrite lookup_empty. constructor.
  - intros k v i. unfold ids_with. rewrite lookup_empty. split; [set_solver|].
    intros (s & Hs & _). by rewrite lookup_empty in Hs.
  - intros k vs. by rewrite lookup_empty.
Qed.

(** The ids under a tag are ids of the measurement. *)
Lemma ids_with_mem m k v i :
  measurement_ok m → i ∈ ids_with (seriesByTagKeyValue m) k v → i ∈ seriesIDs m.
Proof. intros Hm (s & Hs & _)%(mo_tags m Hm). apply (mo_ids m Hm). eauto. Qed.

Lemma AddSeries_ok m s :
  measurement_ok m → (∀ i, i ∈ seriesIDs m → i < Series_id s) →
  measurement_ok (AddSeries m s).1 ∧ seriesByID (AddSeries m s).1 = <[Series_id s := s]> (seriesByID m).
Proof.
  intros Hm Hlt.
  assert (Hnew : seriesByID m !! Series_id s = None).
  { destruct (seriesByID m !! Series_id s) as [s'|] eqn:E; [|done].
    assert (Series_id s ∈ seriesIDs m) as H%Hlt by (apply (mo_ids m Hm); eauto). lia. }
  assert (Htag : ∀ k v j, j ∈ ids_with (seriesByTagKeyValue m) k v → j < Series_id s).
  { intros k v j Hj. apply Hlt. by eapply ids_with_mem. }
  unfold AddSeries. rewrite decide_False by (rewrite Hnew; by intros [??]). split; [|done].
  split; simpl.
  - rewrite append_id_fresh by done. apply ids_sorted_snoc; [apply Hm|done].
  - intros i. rewrite append_id_fresh, elem_of_app, list_elem_of_singleton, lookup_insert_is_Some, (mo_ids m Hm) by done.
    destruct (decide (Series_id s = i)); naive_solver.
  - intros i s' [[<- <-]|[_ Hs']]%lookup_insert_Some; [done|]. by apply (mo_self m Hm).
  - intros k v. rewrite map_fold_add_tag. case_decide; [|apply Hm].
    rewrite append_id_fresh by eauto. apply ids_sorted_snoc; [apply Hm|eauto].
  - intros k v i. rewrite map_fold_add_tag. destruct (decide (Series_id s = i)) as [<-|Hi].
    + rewrite lookup_insert_eq. case_decide as Ht.
      * rewrite append_id_fresh, elem_of_app, list_elem_of_singleton by eauto. naive_solver.
      * split; [intros Hin%Htag; lia|]. intros (? & [= <-] & ?). done.
    + rewrite lookup_insert_ne, <- (mo_tags m Hm) by done. case_decide; [|done].
      rewrite append_id_fresh, elem_of_app, list_elem_of_singleton by eauto. naive_solver.
  - apply map_fold_index_full, Hm.
Qed.

Lemma Measurement_DropSeries_ok m i :
  measurement_ok m →
  measurement_ok (Measurement_DropSeries m i) ∧ seriesByID (Measurement_DropSeries m i) = delete i (seriesByID m).
Proof.
  intros Hm. unfold Measurement_DropSeries. case_decide as Hi.
  2: { split; [done|]. symmetry. apply delete_id. by apply eq_None_not_Some. }
  split; [|done]. split; simpl.
  - apply ids_sorted_filter, Hm.
  - intros j. rewrite elem_of_without, (mo_ids m Hm), lookup_delete_is_Some. naive_solver.
  - intros j s [_ ?]%lookup_delete_Some. by apply (mo_self m Hm).
  - intros k v. rewrite ids_with_drop. apply ids_sorted_filter, Hm.
  - intros k v j. rewrite ids_with_drop, elem_of_without, (mo_tags m Hm).
    setoid_rewrite lookup_delete_Some. naive_solver.
  - apply index_full_drop.
Qed.

Lemma SetFieldName_ok m f : measurement_ok m → measurement_ok (SetFieldName m f).
Proof. by intros [? ? ? ? ? ?]. Qed.

(** A key of the tag index is a tag of some series. *)
Lemma HasTagKey_spec m k :
  measurement_ok m →
  HasTagKey m k = true ↔ ∃ i s v, seriesByID m !! i = Some s ∧ Series_Tags s !! k = Some v.
Proof.
  intros Hm. unfold HasTagKey. rewrite bool_decide_eq_true. split.
  - intros [vs Hvs]. pose proof (mo_full m Hm k vs Hvs) as [Hne Hl].
    apply map_choose in Hne as (v & l & Hv). specialize (Hl v l Hv).
    destruct l as [|i l]; [done|].
    assert (Hi : i ∈ ids_with (seriesByTagKeyValue m) k v).
    { unfold ids_with. rewrite Hvs. simpl. rewrite Hv. set_solver. }
    apply (mo_tags m Hm) in Hi as (s & ? & ?). eauto.
  - intros (i & s & v & Hs & Hv).
    assert (Hi : i ∈ ids_with (seriesByTagKeyValue m) k v) by (apply (mo_tags m Hm); eauto).
    unfold ids_with in Hi. destruct (seriesByTagKeyValue m !! k); [eauto|set_solver].
Qed.

(** ** The database index *)

(** [m] is the measurement in use under [name]. *)
Definition live (d : DatabaseIndex) (name : string) (p : pointer) (m : Measurement) : Prop :=
  measurements d !! name = Some p ∧ objects d !! p = Some m.

Record index_ok (d : DatabaseIndex) : Prop := {
  ix_live : ∀ name p, measurements d !! name = Some p →
    ∃ m, live d name p m ∧ Measurement_Name m = name ∧ measurement_ok m;
  ix_series : ∀ key s, series d !! key = Some s →
    Series_Key s = key ∧ 0 < Series_id s ≤ lastID d ∧
    ∃ name p m, Series_measurement s = Some p ∧ live d name p m ∧ seriesByID m !! Series_id s = Some s;
  ix_members : ∀ name p m i s, live d name p m → seriesByID m !! i = Some s →
    series d !! Series_Key s = Some s ∧ Series_measurement s = Some p;
  ix_lastID : 0 ≤ lastID d
}.

Lemma NewDatabaseIndex_ok : index_ok NewDatabaseIndex.
Proof.
  split; simpl; [intros ??; by rewrite lookup_empty..| |done].
  intros name p m i s [H _]. simpl in H. by rewrite lookup_empty in H.
Qed.

Lemma live_inj d n n' p m m' : index_ok d → live d n p m → live d n' p m' → n = n' ∧ m = m'.
Proof.
  intros Hd [H1 H2] [H3 H4]. simplify_eq.
  destruct (ix_live d Hd _ _ H1) as (? & [_ ?] & ? & _), (ix_live d Hd _ _ H3) as (? & [_ ?] & ? & _).
  naive_solver.
Qed.

(** The ids of a measurement in use have been given out. *)
Lemma live_ids d n p m i : index_ok d → live d n p m → i ∈ seriesIDs m → i ≤ lastID d.
Proof.
  intros Hd Hl Hi. destruct (ix_live d Hd n p (proj1 Hl)) as (m' & Hl' & _ & Hm).
  destruct (live_inj d n n p m m' Hd Hl Hl') as [_ <-].
  apply (mo_ids m Hm) in Hi as [s Hs]. pose proof (mo_self m Hm _ _ Hs) as <-.
  destruct (ix_members d Hd _ _ _ _ _ Hl Hs) as [Hk _].
  destruct (ix_series d Hd _ _ Hk) as (_ & ? & _). lia.
Qed.

Lemma CreateMeasurement_ok d name d' p :
  index_ok d → CreateMeasurementIndexIfNotExists d name = (d', p) →
  index_ok d' ∧ (∃ m, live d' (UnescapeString codesStr name) p m) ∧
  series d' = series d ∧ lastID d' = lastID d.
Proof.
  intros Hd. unfold CreateMeasurementIndexIfNotExists. generalize (UnescapeString codesStr name) as n. intros n.
  destruct (measurements d !! n) as [q|] eqn:E; intros [= <- <-].
  { destruct (ix_live d Hd _ _ E) as (m & ? & _). split; [done|]. eauto. }
  set (d' := mkDatabaseIndex _ _ _ _).
  assert (Hnew : live d' n (length (objects d)) (NewMeasurement n)).
  { split; simpl; [by rewrite lookup_insert_eq|]. by rewrite lookup_app_r, Nat.sub_diag by lia. }
  assert (Hold : ∀ n' p m, live d n' p m → live d' n' p m).
  { intros n' p m [H1 H2]. split; simpl.
    - rewrite lookup_insert_ne; congruence.
    - apply lookup_app_l_Some, H2. }
  assert (Hinv : ∀ n' p m, live d' n' p m → live d n' p m ∨ n' = n ∧ p = length (objects d) ∧ m = NewMeasurement n).
  { intros n' p m [H1 H2]. simpl in H1, H2. apply lookup_insert_Some in H1 as [[<- <-]|[_ H1]].
    - right. rewrite lookup_app_r, Nat.sub_diag in H2 by lia. by simplify_eq/=.
    - left. destruct (ix_live d Hd _ _ H1) as (m' & [_ H3] & _).
      rewrite (lookup_app_l_Some _ _ _ _ H3) in H2. simplify_eq. done. }
  split; [|eauto]. split; simpl; [|..|by apply ix_lastID].
  - intros n' p [[<- <-]|[_ Hp]]%lookup_insert_Some; [eauto using NewMeasurement_ok|].
    destruct (ix_live d Hd _ _ Hp) as (m & ? & ? & ?). eauto 10.
  - intros key s Hs. destruct (ix_series d Hd _ _ Hs) as (? & ? & n' & p & m & ? & ? & ?). eauto 10.
  - intros n' p m i s [Hl|(-> & -> & ->)]%Hinv Hs; [by eapply ix_members|]. simpl in Hs. by rewrite lookup_empty in Hs.
Qed.

(** Replacing the object of a measurement in use. *)
Lemma live_set_object d n p m m' n' p' m'' :
  index_ok d → live d n p m →
  live (set_object d p m') n' p' m'' ↔ (n' = n ∧ p' = p ∧ m'' = m') ∨ (p' ≠ p ∧ live d n' p' m'').
Proof.
  intros Hd [Hn Hp]. unfold live. simpl. destruct (decide (p' = p)) as [->|Hne].
  - rewrite list_lookup_insert_eq by (apply lookup_lt_is_Some; eauto). split; [|naive_solver].
    intros [H [= <-]]. left. split_and!; try done.
    by destruct (live_inj d n' n p m m Hd) as [-> _].
  - rewrite list_lookup_insert_ne by done. naive_solver.
Qed.

(** Two indexes with the same measurements and objects. *)
Lemma live_same d d' n p m :
  measurements d' = measurements d → objects d' = objects d → live d' n p m ↔ live d n p m.
Proof. unfold live. by intros -> ->. Qed.

(** The last steps of [CreateSeriesIndexIfNotExists]: the series goes into the
    index and into its measurement. *)
Lemma insert_series_ok d n p m sk t :
  index_ok d → live d n p m → series d !! sk = None →
  let s' := mkSeries sk t (lastID d + 1) (Some p) in
  let d' := set_object (mkDatabaseIndex (measurements d) (<[sk := s']> (series d)) (lastID d + 1) (objects d))
              p (AddSeries m s').1 in
  index_ok d' ∧ ∃ m', live d' n p m' ∧ seriesByID m' !! Series_id s' = Some s'.
Proof.
  intros Hd Hm Hs s' d'.
  destruct (ix_live d Hd n p (proj1 Hm)) as (m0 & Hm0 & Hname & Hmok).
  destruct (live_inj d n n p m m0 Hd Hm Hm0) as [_ <-].
  destruct (AddSeries_ok m s') as [Hmok' Hby]; [done| |].
  { intros i Hi. simpl. pose proof (live_ids d n p m i Hd Hm Hi). lia. }
  set (m' := (AddSeries m s').1) in *.
  assert (Hlive : ∀ n' p' m'', live d' n' p' m'' ↔ (n' = n ∧ p' = p ∧ m'' = m') ∨ (p' ≠ p ∧ live d n' p' m'')).
  { intros. rewrite <- (live_set_object d n p m m') by done. by apply live_same. }
  assert (Hname' : Measurement_Name m' = n).
  { rewrite <- Hname. unfold m', AddSeries. by case_decide. }
  split; [split; simpl; [..|pose proof (ix_lastID d Hd); lia]|].
  - intros n' q Hq. destruct (decide (q = p)) as [->|Hne].
    + destruct (live_inj d n' n p m m Hd) as [-> _]; [by split; [|apply Hm]|done|].
      exists m'. split; [|done]. apply Hlive. naive_solver.
    + destruct (ix_live d Hd n' q Hq) as (m1 & ? & ? & ?). exists m1. split; [|done]. apply Hlive. auto.
  - intros k0 s0 [[<- <-]|[Hk Hs0]]%lookup_insert_Some.
    { split; [done|]. simpl. pose proof (ix_lastID d Hd). split; [lia|].
      exists n, p, m'. split; [done|]. rewrite Hby, lookup_insert_eq. split; [apply Hlive; auto|done]. }
    destruct (ix_series d Hd _ _ Hs0) as (? & ? & n1 & q & m1 & Hq & Hl & Hin). split; [done|]. split; [lia|].
    destruct (decide (q = p)) as [->|Hne].
    + destruct (live_inj d n1 n p m1 m Hd Hl Hm) as [-> ->]. exists n, p, m'. rewrite Hby, lookup_insert_ne by (simpl; lia).
      split_and!; [done|apply Hlive; auto|done].
    + exists n1, q, m1. split_and!; [done|apply Hlive; auto|done].
  - intros n1 q m1 i s0 [(-> & -> & ->)|[Hne Hl]]%Hlive Hin.
    + rewrite Hby in Hin. apply lookup_insert_Some in Hin as [[_ <-]|[_ Hin]]; [by rewrite lookup_insert_eq|].
      destruct (ix_members d Hd _ _ _ _ _ Hm Hin) as [Hk ?].
      rewrite lookup_insert_ne; [done|]. intros E. simpl in E. congruence.
    + destruct (ix_members d Hd _ _ _ _ _ Hl Hin) as [Hk ?].
      rewrite lookup_insert_ne; [done|]. intros E. simpl in E. congruence.
  - exists m'. rewrite Hby, lookup_insert_eq. split; [apply Hlive; auto|done].
Qed.

Lemma CreateSeries_ok d name s :
  index_ok d → lastID d < 2 ^ 64 - 1 →
  ∃ d' s', CreateSeriesIndexIfNotExists d name s = Ok (d', s') ∧ index_ok d' ∧
    lastID d ≤ lastID d' ≤ lastID d + 1 ∧ series d' !! Series_Key s = Some s' ∧
    (series d !! Series_Key s = Some s' ∧ d' = d ∨
     series d !! Series_Key s = None ∧ Series_Tags s' = Series_Tags s ∧ series d' = <[Series_Key s := s']> (series d) ∧
     ∃ p m, live d' (UnescapeString codesStr name) p m ∧ seriesByID m !! Series_id s' = Some s').
Proof.
  intros Hd Hmax. unfold CreateSeriesIndexIfNotExists.
  destruct (series d !! Series_Key s) as [ss|] eqn:Hs.
  { exists d, ss. split_and!; auto; lia. }
  destruct (CreateMeasurementIndexIfNotExists d name) as [d1 p] eqn:Hc.
  destruct (CreateMeasurement_ok d name d1 p Hd Hc) as (Hd1 & [m Hm] & Hs1 & Hl1).
  assert (Hid : u64 (lastID d1 + 1) = lastID d1 + 1).
  { apply u64_small. unfold is_u64. pose proof (ix_lastID d1 Hd1). lia. }
  simpl. rewrite (proj2 Hm), Hid. rewrite <- Hs1 in Hs |- *.
  destruct (insert_series_ok d1 _ p m _ (Series_Tags s) Hd1 Hm Hs) as (Hok & m' & Hm' & Hin).
  eexists _, _. split; [reflexivity|]. split; [exact Hok|]. simpl. rewrite lookup_insert_eq.
  split; [lia|]. split; [done|]. right. eauto 10.
Qed.

(** Deleting keys one after the other. *)
Lemma lookup_foldl_delete {A} (ks : list string) (M : gmap string A) k :
  foldl (λ ss k, delete k ss) M ks !! k = if decide (k ∈ ks) then None else M !! k.
Proof.
  revert M. induction ks as [|k' ks IH]; intros M; [done|].
  cbn [foldl]. rewrite IH. destruct (decide (k = k')) as [->|Hk].
  - rewrite lookup_delete_eq, (decide_True (P := k' ∈ k' :: ks)) by set_solver. by case_decide.
  - rewrite lookup_delete_ne by done.
    destruct (decide (k ∈ ks)); [rewrite decide_True|rewrite decide_False]; set_solver.
Qed.

Lemma elem_of_SeriesKeys m k : k ∈ SeriesKeys m ↔ ∃ i s, seriesByID m !! i = Some s ∧ Series_Key s = k.
Proof.
  unfold SeriesKeys. rewrite list_elem_of_fmap. split.
  - intros ([i s] & -> & H%elem_of_map_to_list). eauto.
  - intros (i & s & H & <-). exists (i, s). by rewrite elem_of_map_to_list.
Qed.

Lemma DropMeasurement_ok d name :
  index_ok d →
  ∃ d', DropMeasurement d name = Ok d' ∧ index_ok d' ∧ lastID d' = lastID d ∧
    measurements d' = delete name (measurements d) ∧ objects d' = objects d ∧
    ∀ k s, series d' !! k = Some s ↔ series d !! k = Some s ∧
      ¬ ∃ p m i s', live d name p m ∧ seriesByID m !! i = Some s' ∧ Series_Key s' = k.
Proof.
  intros Hd. unfold DropMeasurement. destruct (measurements d !! name) as [p|] eqn:Hn.
  2: { exists d. split_and!; try done; [by rewrite delete_id|]. intros k s.
       split; [|tauto]. intros ?. split; [done|]. intros (? & ? & ? & ? & [? _] & _). congruence. }
  destruct (ix_live d Hd _ _ Hn) as (m & Hm & Hname & Hmok). rewrite (proj2 Hm).
  eexists. split; [reflexivity|]. set (d' := mkDatabaseIndex _ _ _ _).
  assert (Hlive : ∀ n' p' m', live d' n' p' m' ↔ n' ≠ name ∧ live d n' p' m').
  { intros. unfold live. simpl. rewrite lookup_delete_Some. naive_solver. }
  assert (Hser : ∀ k s, series d' !! k = Some s ↔ k ∉ SeriesKeys m ∧ series d !! k = Some s).
  { intros k s. simpl. rewrite lookup_foldl_delete. case_decide; naive_solver. }
  split; [split|split_and!; try done].
  - intros n' q Hq. simpl in Hq. apply lookup_delete_Some in Hq as [Hne Hq].
    destruct (ix_live d Hd _ _ Hq) as (m' & ? & ? & ?). exists m'. rewrite Hlive. auto.
  - intros k s [Hk Hs]%Hser. destruct (ix_series d Hd _ _ Hs) as (HK & ? & n' & q & m' & Hq & Hl & Hin).
    split; [done|]. split; [done|]. exists n', q, m'. rewrite Hlive. split_and!; try done. intros ->.
    destruct Hl as [Hl1 Hl2], Hm as [Hm1 Hm2]. simplify_eq. apply Hk, elem_of_SeriesKeys. eauto.
  - intros n' q m' i s [Hne Hl]%Hlive Hin. destruct (ix_members d Hd _ _ _ _ _ Hl Hin) as [Hk Hq].
    split; [|done]. apply Hser. split; [|done]. intros (i2 & s2 & Hin2 & Hk2)%elem_of_SeriesKeys.
    destruct (ix_members d Hd _ _ _ _ _ Hm Hin2) as [Hk3 Hq2]. rewrite Hk2, Hk in Hk3. simplify_eq.
    destruct (live_inj d n' (Measurement_Name m) q m' m Hd Hl Hm) as [-> _]. done.
  - apply (ix_lastID d Hd).
  - intros k s. rewrite Hser, elem_of_SeriesKeys. split; intros [H1 H2]; (split; try done).
    + intros (q & m' & i & s' & [? ?] & Hin & HK). destruct Hm as [Hm1 Hm2]. simplify_eq. eauto.
    + intros (i & s' & ? & ?). eauto 10.
Qed.

Lemma drop_series_ok d k :
  index_ok d →
  ∃ d', drop_series d k = Ok d' ∧ index_ok d' ∧ lastID d' = lastID d ∧
    measurements d' = measurements d ∧ series d' = delete k (series d).
Proof.
  intros Hd. unfold drop_series. destruct (series d !! k) as [s|] eqn:Hs.
  2: { exists d. by rewrite delete_id. }
  destruct (ix_series d Hd _ _ Hs) as (HK & Hid & n & p & m & Hp & Hl & Hin).
  rewrite Hp. simpl. rewrite (proj2 Hl). simpl. eexists. split; [reflexivity|].
  destruct (ix_live d Hd n p (proj1 Hl)) as (m0 & Hm0 & Hname & Hmok).
  destruct (live_inj d n n p m m0 Hd Hl Hm0) as [_ <-].
  destruct (Measurement_DropSeries_ok m (Series_id s) Hmok) as [Hmok' Hby].
  assert (Hname' : Measurement_Name (Measurement_DropSeries m (Series_id s)) = n).
  { rewrite <- Hname. unfold Measurement_DropSeries. by case_decide. }
  set (m' := Measurement_DropSeries m (Series_id s)) in *. set (d' := mkDatabaseIndex _ _ _ _).
  assert (Hlive : ∀ n' p' m'', live d' n' p' m'' ↔ (n' = n ∧ p' = p ∧ m'' = m') ∨ (p' ≠ p ∧ live d n' p' m'')).
  { intros. rewrite <- (live_set_object d n p m m') by done. by apply live_same. }
  split; [split|done].
  - intros n' q Hq. destruct (decide (q = p)) as [->|Hne].
    + destruct (live_inj d n' n p m m Hd) as [-> _]; [by split; [|apply Hl]|done|].
      exists m'. split; [|done]. apply Hlive. naive_solver.
    + destruct (ix_live d Hd n' q Hq) as (m1 & ? & ? & ?). exists m1. split; [|done]. apply Hlive. auto.
  - intros k0 s0 Hs0. simpl in Hs0. apply lookup_delete_Some in Hs0 as [Hk Hs0].
    destruct (ix_series d Hd _ _ Hs0) as (? & ? & n1 & q & m1 & Hq & Hl1 & Hin1). split; [done|]. split; [done|].
    destruct (decide (q = p)) as [->|Hne].
    + destruct (live_inj d n1 n p m1 m Hd Hl1 Hl) as [-> ->]. exists n, p, m'. rewrite Hby, lookup_delete_ne by congruence.
      split_and!; [done|apply Hlive; auto|done].
    + exists n1, q, m1. split_and!; [done|apply Hlive; auto|done].
  - intros n1 q m1 i s0 [(-> & -> & ->)|[Hne Hl1]]%Hlive Hin1; simpl.
    + rewrite Hby in Hin1. apply lookup_delete_Some in Hin1 as [Hi Hin1].
      destruct (ix_members d Hd _ _ _ _ _ Hl Hin1) as [Hk ?]. split; [|done].
      rewrite lookup_delete_ne; [done|]. intros E. rewrite <- E, Hs in Hk. simplify_eq.
      by apply Hi, (mo_self m Hmok).
    + destruct (ix_members d Hd _ _ _ _ _ Hl1 Hin1) as [Hk ?]. split; [|done].
      rewrite lookup_delete_ne; [done|]. intros E. rewrite <- E, Hs in Hk. congruence.
  - apply (ix_lastID d Hd).
Qed.

Lemma DropSeries_ok ks d :
  index_ok d →
  ∃ d', DropSeries d ks = Ok d' ∧ index_ok d' ∧ lastID d' = lastID d ∧
    measurements d' = measurements d ∧
    ∀ k, series d' !! k = if decide (k ∈ ks) then None else series d !! k.
Proof.
  revert d. induction ks as [|k ks IH]; intros d Hd; simpl.
  { exists d. split_and!; try done. }
  destruct (drop_series_ok d k Hd) as (d1 & -> & Hd1 & Hl1 & Hm1 & Hs1). simpl.
  destruct (IH d1 Hd1) as (d2 & -> & Hd2 & Hl2 & Hm2 & Hs2). exists d2. split_and!; try congruence.
  intros k'. rewrite Hs2, Hs1. destruct (decide (k' = k)) as [->|Hk].
  - rewrite lookup_delete_eq, (decide_True (P := k ∈ k :: ks)) by set_solver. by case_decide.
  - rewrite lookup_delete_ne by done.
    destruct (decide (k' ∈ ks)); [rewrite decide_True|rewrite decide_False]; set_solver.
Qed.

Lemma index_SetFieldName_ok d n p m f :
  index_ok d → live d n p m →
  ∃ d', index_SetFieldName d p f = Ok d' ∧ index_ok d' ∧ lastID d' = lastID d.
Proof.
  intros Hd Hl. unfold index_SetFieldName. rewrite (proj2 Hl). eexists. split; [reflexivity|]. split; [|done].
  set (m' := SetFieldName m f). set (d' := set_object d p m').
  assert (Hlive : ∀ n' p' m'', live d' n' p' m'' ↔ (n' = n ∧ p' = p ∧ m'' = m') ∨ (p' ≠ p ∧ live d n' p' m''))
    by (intros; by apply (live_set_object d n p m)).
  destruct (ix_live d Hd n p (proj1 Hl)) as (m0 & Hm0 & Hname & Hmok).
  destruct (live_inj d n n p m m0 Hd Hl Hm0) as [_ <-].
  split.
  - intros n' q Hq. simpl in Hq. destruct (decide (q = p)) as [->|Hne].
    + destruct (live_inj d n' n p m m Hd) as [-> _]; [by split; [|apply Hl]|done|].
      exists m'. split; [apply Hlive; auto|]. split; [done|]. by apply SetFieldName_ok.
    + destruct (ix_live d Hd n' q Hq) as (m1 & ? & ? & ?). exists m1. split; [|done]. apply Hlive. auto.
  - intros k s Hs. destruct (ix_series d Hd _ _ Hs) as (? & ? & n1 & q & m1 & Hq & Hl1 & Hin1). split; [done|]. split; [done|].
    destruct (decide (q = p)) as [->|Hne].
    + destruct (live_inj d n1 n p m1 m Hd Hl1 Hl) as [-> ->]. exists n, p, m'. split_and!; [done|apply Hlive; auto|done].
    + exists n1, q, m1. split_and!; [done|apply Hlive; auto|done].
  - intros n1 q m1 i s [(-> & -> & ->)|[Hne Hl1]]%Hlive Hin.
    + exact (ix_members d Hd n p m i s Hl Hin).
    + exact (ix_members d Hd _ _ _ _ _ Hl1 Hin).
  - apply (ix_lastID d Hd).
Qed.

(** ** Sequences of operations *)

Inductive index_op :=
| OpSeries (name key : string) (t : tags)
| OpField (name field : string)
| OpDropMeasurement (name : string)
| OpDropSeries (keys : list string).

(** As the shards and the query executor call the index. *)
Definition run_index_op (d : DatabaseIndex) (o : index_op) : exprE DatabaseIndex :=
  match o with
  | OpSeries name key t => let! (d, _) := CreateSeriesIndexIfNotExists d name (NewSeries key t) in Ok d
  | OpField name field =>
      let '(d, p) := CreateMeasurementIndexIfNotExists d name in index_SetFieldName d p field
  | OpDropMeasurement name => DropMeasurement d name
  | OpDropSeries keys => DropSeries d keys
  end.

Fixpoint run_index (d : DatabaseIndex) (ops : list index_op) : exprE DatabaseIndex :=
  match ops with
  | [] => Ok d
  | o :: ops => let! d := run_index_op d o in run_index d ops
  end.

Lemma run_index_op_ok d o :
  index_ok d → lastID d < 2 ^ 64 - 1 →
  ∃ d', run_index_op d o = Ok d' ∧ index_ok d' ∧ lastID d' ≤ lastID d + 1.
Proof.
  intros Hd Hmax. destruct o as [name k t|name field|name|ks]; simpl.
  - destruct (CreateSeries_ok d name (NewSeries k t) Hd Hmax) as (d' & s' & -> & ? & ? & _). simpl. eexists. split; [reflexivity|].
    split; [done|lia].
  - destruct (CreateMeasurementIndexIfNotExists d name) as [d1 p] eqn:E.
    destruct (CreateMeasurement_ok d name d1 p Hd E) as (Hd1 & [m Hm] & _ & Hl).
    destruct (index_SetFieldName_ok d1 _ p m field Hd1 Hm) as (d' & -> & ? & ?). eexists. split; [reflexivity|].
    split; [done|lia].
  - destruct (DropMeasurement_ok d name Hd) as (d' & -> & ? & ? & _). eexists. split; [reflexivity|]. split; [done|lia].
  - destruct (DropSeries_ok ks d Hd) as (d' & -> & ? & ? & _). eexists. split; [reflexivity|]. split; [done|lia].
Qed.

Lemma run_index_ok ops d :
  index_ok d → lastID d + Z.of_nat (length ops) < 2 ^ 64 →
  ∃ d', run_index d ops = Ok d' ∧ index_ok d' ∧ lastID d' ≤ lastID d + Z.of_nat (length ops).
Proof.
  revert d. induction ops as [|o ops IH]; intros d Hd Hmax; simpl in *.
  { exists d. split_and!; [done..|lia]. }
  destruct (run_index_op_ok d o Hd) as (d1 & -> & Hd1 & Hl1); [lia|]. simpl.
  destruct (IH d1 Hd1) as (d2 & -> & Hd2 & Hl2); [lia|]. exists d2. split_and!; [done..|lia].
Qed.
End invariant.
