(* ===== verification/TsdbWhere.v ===== *)
(** * Queries on the series index: [tsdb/meta.go]

    Which series a [WHERE] clause concerns and with which filter on their
    points, the tag sets of [GROUP BY], and the measurements with given tags. *)

From stdpp Require Import base list strings gmap sets sorting.
From Stdlib Require Import ZArith Lia Ascii.
From S2P Require Import Prelude QlToken QlExpr Escape TsdbMerge TsdbIndex.

Local Open Scope Z_scope.

(** [Regexp.MatchString], on the text of the expression and the string: the
    theorems hold for every matcher. *)
Class Regexp := { MatchString : string → string → bool }.

(** The errors; Go formats them into text. *)
Inductive IndexError :=
| ErrInvalidExpression (e : Expr)
| ErrLeftNotTagKey (op : Token)
| ErrRightNotRegex (op : Token)
| ErrRightNotString (op : Token)
| ErrInvalidOperator
| ErrUnexpected (e : Expr).

Definition whereE : Type → Type := outcome IndexError.

(** [Reduce] has no errors of its own. *)
Definition of_exprE {A} (e : Expr) (x : exprE A) : whereE A :=
  match x with Ok a => Ok a | Err _ => Err (ErrUnexpected e) | Panic => Panic end.

(** A filter may be nil, and so may be the map. *)
Abbreviation FilterExprs := (option (gmap Z (option Expr))).

Section conditions.
Context {regexp : Regexp}.

(** ** Comparisons *)

(** The reference of a comparison and what it is compared with. *)
Definition comparison_of (l r : Expr) : option (string * Expr) :=
  match l, r with
  | VarRef name, value => Some (name, value)
  | value, VarRef name => Some (name, value)
  | _, _ => None
  end.

Definition isTimeLiteral (e : Expr) : bool := match e with TimeLiteral _ => true | _ => false end.

(** One round of the loop over the values of a tag. *)
Definition match_value (op : Token) (re : string) (k : string) (tagged : SeriesIDs) (ids : SeriesIDs) : SeriesIDs :=
  let matches := MatchString re k in
  if matches && bool_decide (op = EQREGEX) then SeriesIDs_Union ids tagged
  else if matches && bool_decide (op = NEQREGEX) then SeriesIDs_Reject ids tagged
  else ids.

Definition idsForExpr (m : Measurement) (op : Token) (l r : Expr) : whereE (SeriesIDs * option Expr) :=
  match comparison_of l r with
  | None => Err (ErrInvalidExpression (BinaryExpr op l r))
  | Some (name, value) =>
      if isTimeLiteral value || bool_decide (name = "time") then Ok (seriesIDs m, Some (BooleanLiteral true))
      else if HasField m name then Ok (seriesIDs m, Some (BinaryExpr op l r))
      else
        match seriesByTagKeyValue m !! name with
        | None => Ok ([], None)
        | Some tagVals =>
            match value with
            | StringLiteral str =>
                Ok (if bool_decide (op = EQ) then default [] (tagVals !! str)
                    else if bool_decide (op = NEQ) then SeriesIDs_Reject (seriesIDs m) (default [] (tagVals !! str))
                    else [], Some (BooleanLiteral true))
            | RegexLiteral re =>
                let ids := if bool_decide (op = NEQREGEX) then seriesIDs m else [] in
                Ok (map_fold (match_value op re) ids tagVals, Some (BooleanLiteral true))
            | _ => Ok ([], None)
            end
        end
  end.

(** ** Conditions *)

Definition filter_of (fe : FilterExprs) (id : Z) : option Expr :=
  fe ← fe; mjoin (fe !! id).

Definition DeleteBoolLiteralTrues (fe : FilterExprs) : FilterExprs :=
  filter (λ x, match x.2 with Some e => isTrueLiteral e | None => false end = false) <$> fe.
Definition FilterExprs_Len (fe : FilterExprs) : nat := match fe with None => O | Some fe => size fe end.

Fixpoint mergeSeriesFilters (op : Token) (ids : SeriesIDs) (lfilters rfilters : FilterExprs)
    : whereE (SeriesIDs * gmap Z (option Expr)) :=
  match ids with
  | [] => Ok ([], ∅)
  | id :: ids =>
      let def := BooleanLiteral (bool_decide (op = OR)) in
      let be := BinaryExpr op (default def (filter_of lfilters id)) (default def (filter_of rfilters id)) in
      let! expr := of_exprE be (Reduce be None) in
      let! (series, filters) := mergeSeriesFilters op ids lfilters rfilters in
      if isFalseLiteral expr then Ok (series, filters) else Ok (id :: series, <[id := Some expr]> filters)
  end.

Definition is_comparison (op : Token) : bool :=
  match op with EQ | NEQ | LT | LTE | GT | GTE | EQREGEX | NEQREGEX => true | _ => false end.

Fixpoint walkWhereForSeriesIds (m : Measurement) (e : Expr) : whereE (SeriesIDs * FilterExprs) :=
  match e with
  | BinaryExpr op l r =>
      if is_comparison op then
        let! (ids, expr) := idsForExpr m op l r in
        Ok (ids, Some (foldl (λ fe id, <[id := expr]> fe) ∅ ids))
      else if bool_decide (op = AND) || bool_decide (op = OR) then
        let! (lids, lfilters) := walkWhereForSeriesIds m l in
        let! (rids, rfilters) := walkWhereForSeriesIds m r in
        let ids := if bool_decide (op = AND) then SeriesIDs_Intersect lids rids else SeriesIDs_Union lids rids in
        let! (ids, filters) := mergeSeriesFilters op ids lfilters rfilters in
        Ok (ids, Some filters)
      else
        let! (ids, _) := idsForExpr m op l r in
        Ok (ids, None)
  | ParenExpr e => walkWhereForSeriesIds m e
  | _ => Ok ([], None)
  end.

(** Writing into a nil map panics. *)
Definition filters (m : Measurement) (condition : option Expr) : whereE (gmap Z (option Expr)) :=
  match condition with
  | Some e =>
      if OnlyTimeExpr e then Ok (foldl (λ fe id, <[id := None]> fe) ∅ (seriesIDs m))
      else
        let! (ids, fe) := walkWhereForSeriesIds m e in
        match fe with
        | Some fe =>
            Ok (foldl (λ fe id,
              match fe !! id with
              | None | Some (Some (BooleanLiteral true)) => <[id := None]> fe
              | _ => fe
              end) fe ids)
        | None => match ids with [] => Ok ∅ | _ => Panic end
        end
  | None => Ok (foldl (λ fe id, <[id := None]> fe) ∅ (seriesIDs m))
  end.

Definition seriesIDsAllOrByExpr (m : Measurement) (e : option Expr) : whereE SeriesIDs :=
  match e with
  | None => Ok (seriesIDs m)
  | Some e =>
      match seriesIDs m with
      | [] => Ok []
      | _ => let! (ids, _) := walkWhereForSeriesIds m e in Ok ids
      end
  end.
End conditions.
