(* ===== verification/TsdbWhereInv.v ===== *)
(** * What the walk over a [WHERE] clause computes

    The series selected by a condition and the value of the filter of each,
    for every condition of the forms that queries use. *)

From stdpp Require Import base list strings gmap sets sorting.
From Stdlib Require Import ZArith Lia.
From S2P Require Import Prelude QlToken QlExpr QlExprProps Escape TsdbMerge TsdbIndex TsdbIndexInv TsdbWhere.

Local Open Scope Z_scope.

(** ** Filters *)

Definition is_VarRef (e : Expr) : bool := match e with VarRef _ => true | _ => false end.

(** Comparisons of a field joined by [AND] and [OR]: simplification does not
    make a literal of them. *)
Fixpoint solid (e : Expr) : bool :=
  match e with
  | BinaryExpr op l r =>
      if is_logic op then solid l && solid r
      else is_cmp op && operand l && operand r && (is_VarRef l || is_VarRef r)
  | ParenExpr e => solid e
  | _ => false
  end.

Lemma solid_literal e b : solid e = true → e ≠ BooleanLiteral b.
Proof. by destruct e. Qed.

Lemma solid_isTrue e : solid e = true → isTrueLiteral e = false ∧ isFalseLiteral e = false.
Proof. by destruct e. Qed.

(** Simplification of a comparison with a reference keeps the comparison. *)
Lemma reduce_sides_ref op l r :
  is_cmp op = true → operand l = true → operand r = true → is_VarRef l || is_VarRef r = true →
  reduce_sides op l r = Ok (BinaryExpr op l r).
Proof.
  intros Hop Hl Hr Hv. destruct op; try discriminate Hop;
    destruct l; try discriminate Hl; destruct r; try discriminate Hr; by try discriminate Hv.
Qed.

Lemma reduce_sides_solid op l r :
  is_logic op = true → solid l = true → solid r = true → reduce_sides op l r = Ok (BinaryExpr op l r).
Proof.
  intros Hop Hl Hr. destruct (solid_isTrue l Hl) as [H1 H2], (solid_isTrue r Hr) as [H3 H4].
  unfold reduce_sides. rewrite H1, H2, H3, H4.
  destruct op; try discriminate Hop; cbn; by destruct l.
Qed.

Lemma reduce_VarRef_shape e e' : reduce e None = Ok e' → is_VarRef e = true → is_VarRef e' = true.
Proof. destruct e; simpl; intros; by simplify_eq. Qed.

Lemma reduce_solid e :
  solid e = true →
  ∃ e', reduce e None = Ok e' ∧ solid e' = true ∧
    ∀ f, Eval e' f = Eval e f ∧ (decides f e = true → decides f e' = true).
Proof.
  induction e; intros H; try discriminate H.
  - simpl in H. destruct (is_logic Op) eqn:Hop.
    + apply andb_prop in H as [Hl Hr].
      destruct (IHe1 Hl) as (l & El & Sl & Vl), (IHe2 Hr) as (r & Er & Sr & Vr).
      exists (BinaryExpr Op l r). simpl. rewrite El, Er. simpl. rewrite reduce_sides_solid, Hop, Sl, Sr by done.
      split_and!; [done..|]. intros f. destruct (Vl f) as [-> Dl], (Vr f) as [-> Dr]. split; [done|].
      intros [??]%andb_prop. by rewrite Dl, Dr.
    + apply andb_prop in H as [[[Hc Hl]%andb_prop Hr]%andb_prop Hv].
      destruct (reduce_operand _ Hl) as (l & El & Sl & Vl), (reduce_operand _ Hr) as (r & Er & Sr & Vr).
      assert (Hv' : is_VarRef l || is_VarRef r = true).
      { apply orb_true_iff in Hv. apply orb_true_iff. destruct Hv; [left|right]; by eapply reduce_VarRef_shape. }
      exists (BinaryExpr Op l r). simpl. rewrite El, Er. simpl.
      rewrite reduce_sides_ref, Hop, Hc, Sl, Sr, Hv' by done. split_and!; [done..|].
      intros f. rewrite Vl, Vr. split; [done|]. by intros [_ ->]%andb_prop.
  - destruct (IHe H) as (e' & He & Se & Ve). simpl. rewrite He. simpl. eexists. split; [reflexivity|].
    destruct e'; try discriminate Se; split_and!; try done; intros f; destruct (Ve f) as [<- D]; done.
Qed.

(** The filter of a series: the literal [true], or comparisons of fields. *)
Definition filter_ok (x : Expr) : Prop := x = BooleanLiteral true ∨ solid x = true.

Lemma Reduce_filter_ok x :
  filter_ok x → ∃ x', reduce x None = Ok x' ∧ filter_ok x' ∧
    ∀ f, Eval x' f = Eval x f ∧ (decides f x = true → decides f x' = true).
Proof.
  intros [->|Hx]; [eexists; split; [reflexivity|]; split; [by left|done]|].
  destruct (reduce_solid x Hx) as (x' & ? & ? & ?). exists x'. split; [done|]. split; [by right|done].
Qed.

Lemma filter_ok_not_false x : filter_ok x → isFalseLiteral x = false.
Proof. intros [->|Hx]; [done|]. by apply solid_isTrue in Hx as [_ ?]. Qed.

Lemma unwrap_paren x (f : string → GoValue) :
  filter_ok x → let y := match x with ParenExpr e => e | _ => x end in
  filter_ok y ∧ Eval y f = Eval x f ∧ (decides f x = true → decides f y = true).
Proof. intros [->|Hx]; [by split; [left|]|]. destruct x; try discriminate Hx; split; try done; by right. Qed.

(** Joining two filters. *)
Lemma Reduce_join op x y :
  is_logic op = true → filter_ok x → filter_ok y →
  ∃ z, Reduce (BinaryExpr op x y) None = Ok z ∧ filter_ok z ∧
    ∀ f, decides f x = true → decides f y = true →
      decides f z = true ∧ EvalBool z f = if bool_decide (op = AND) then EvalBool x f && EvalBool y f else EvalBool x f || EvalBool y f.
Proof.
  intros Hop Hx Hy.
  destruct (Reduce_filter_ok x Hx) as (x' & Ex & Hx' & Vx), (Reduce_filter_ok y Hy) as (y' & Ey & Hy' & Vy).
  assert (∃ z, reduce_sides op x' y' = Ok z ∧ filter_ok z ∧ ∀ f, decides f x' = true → decides f y' = true →
    decides f z = true ∧ EvalBool z f = if bool_decide (op = AND) then EvalBool x' f && EvalBool y' f else EvalBool x' f || EvalBool y' f)
    as (z & Ez & Hz & Vz).
  { destruct Hx' as [->|Sx], Hy' as [->|Sy].
    - destruct op; try discriminate Hop; eexists; (split; [reflexivity|]); (split; [by left|done]).
    - pose proof (solid_isTrue y' Sy) as [H1 H2]. unfold reduce_sides. rewrite H1, H2.
      destruct op; try discriminate Hop; cbn; eexists; (split; [reflexivity|]).
      + split; [by right|]. done.
      + split; [by left|]. done.
    - pose proof (solid_isTrue x' Sx) as [H1 H2]. unfold reduce_sides. rewrite H1, H2.
      destruct op; try discriminate Hop; cbn; eexists; (split; [reflexivity|]).
      + split; [by right|]. intros f. rewrite andb_true_r. done.
      + split; [by left|]. intros f. rewrite orb_true_r. done.
    - exists (BinaryExpr op x' y'). rewrite reduce_sides_solid by done. split; [done|].
      split; [right; simpl; by rewrite Hop, Sx, Sy|]. intros f Dx Dy. simpl. rewrite Hop, Dx, Dy. split; [done|].
      unfold EvalBool. simpl. destruct (decides_VBool f x' Dx) as [bx ->], (decides_VBool f y' Dy) as [by' ->].
      by destruct op. }
  unfold Reduce. simpl. rewrite Ex, Ey. simpl. rewrite Ez. simpl.
  eexists. split; [reflexivity|]. split; [by apply (unwrap_paren z (λ _, VNil))|].
  intros f Dx Dy. destruct (unwrap_paren z f Hz) as (_ & E & D).
  destruct (Vx f) as [E1 D1], (Vy f) as [E2 D2]. destruct (Vz f) as [Dz Ez']; [by auto..|].
  split; [by apply D|]. unfold EvalBool in *. by rewrite E, Ez', E1, E2.
Qed.

(** ** Sets of ids *)

Lemma elem_of_Union a b i : i ∈ SeriesIDs_Union a b ↔ i ∈ a ∨ i ∈ b.
Proof.
  pose proof (elem_of_union_loop id a b i) as H. rewrite !keys_id in H. exact H.
Qed.
Lemma elem_of_Intersect a b i :
  ids_sorted a → ids_sorted b → i ∈ SeriesIDs_Intersect a b ↔ i ∈ a ∧ i ∈ b.
Proof.
  intros Ha Hb. pose proof (elem_of_intersect_slices id a b i Ha Hb) as H. rewrite !keys_id in H. exact H.
Qed.
Lemma elem_of_Reject a b i :
  ids_sorted a → ids_sorted b → i ∈ SeriesIDs_Reject a b ↔ i ∈ a ∧ i ∉ b.
Proof.
  intros Ha Hb. pose proof (elem_of_reject_loop id a b i Ha Hb) as H. rewrite !keys_id in H. exact H.
Qed.

Lemma ids_sorted_unique a b : ids_sorted a → ids_sorted b → (∀ i, i ∈ a ↔ i ∈ b) → a = b.
Proof.
  intros Ha Hb H. pose proof (sorted_keys_unique id a b Ha Hb) as Hu. rewrite !keys_id in Hu. auto.
Qed.

Section conditions.
Context {goSort : GoSort} {regexp : Regexp}.

(** ** The meaning of a condition *)

(** A comparison with a tag, for the tags of a series. *)
Definition tag_sat (s : Series) (op : Token) (name : string) (value : Expr) : bool :=
  match value with
  | StringLiteral v =>
      if bool_decide (op = EQ) then bool_decide (Series_Tags s !! name = Some v)
      else if bool_decide (op = NEQ) then negb (bool_decide (Series_Tags s !! name = Some v))
      else false
  | RegexLiteral re =>
      let hit := match Series_Tags s !! name with Some v => MatchString re v | None => false end in
      if bool_decide (op = EQREGEX) then hit
      else if bool_decide (op = NEQREGEX) then negb hit
      else false
  | _ => false
  end.

(** What a comparison is about. *)
Inductive leaf := LTime | LField | LTag (name : string) (value : Expr) | LNone.
Definition leaf_of (m : Measurement) (l r : Expr) : leaf :=
  match comparison_of l r with
  | None => LNone
  | Some (name, value) =>
      if isTimeLiteral value || bool_decide (name = "time") then LTime
      else if HasField m name then LField else LTag name value
  end.

Definition leaf_selects (m : Measurement) (s : Series) (op : Token) (l r : Expr) : bool :=
  match leaf_of m l r with
  | LTime | LField => true
  | LTag name value => HasTagKey m name && tag_sat s op name value
  | LNone => false
  end.

(** The conditions covered: comparisons of references, the ones of fields with
    operands that [Eval] knows, joined by [AND] and [OR]. *)
Fixpoint where_form (m : Measurement) (e : Expr) : bool :=
  match e with
  | BinaryExpr op l r =>
      if is_logic op then where_form m l && where_form m r
      else is_comparison op &&
        match leaf_of m l r with
        | LNone => false
        | LField => is_cmp op && operand l && operand r
        | _ => true
        end
  | ParenExpr e => where_form m e
  | _ => false
  end.

(** The point has the fields that the condition compares. *)
Fixpoint fields_decide (m : Measurement) (f : string → GoValue) (e : Expr) : bool :=
  match e with
  | BinaryExpr op l r =>
      if is_logic op then fields_decide m f l && fields_decide m f r
      else match leaf_of m l r with LField => is_VBool (Eval e f) | _ => true end
  | ParenExpr e => fields_decide m f e
  | _ => true
  end.

(** Whether some point of the series may satisfy the condition, judging by tags. *)
Fixpoint selects (m : Measurement) (s : Series) (e : Expr) : bool :=
  match e with
  | BinaryExpr op l r =>
      if is_logic op then
        if bool_decide (op = AND) then selects m s l && selects m s r else selects m s l || selects m s r
      else leaf_selects m s op l r
  | ParenExpr e => selects m s e
  | _ => false
  end.

(** The filter that results: at an [OR] with one selected side it is [true]. *)
Fixpoint passes (m : Measurement) (s : Series) (f : string → GoValue) (e : Expr) : bool :=
  match e with
  | BinaryExpr op l r =>
      if is_logic op then
        if bool_decide (op = AND) then passes m s f l && passes m s f r
        else (if selects m s l then passes m s f l else true) || (if selects m s r then passes m s f r else true)
      else match leaf_of m l r with LField => EvalBool e f | _ => true end
  | ParenExpr e => passes m s f e
  | _ => true
  end.

(** ** Comparisons *)

Lemma is_logic_comparison op : is_logic op = true → is_comparison op = false.
Proof. by destruct op. Qed.
Lemma is_logic_spec op : is_logic op = bool_decide (op = AND) || bool_decide (op = OR).
Proof. by destruct op. Qed.

Lemma foldl_insert_lookup {A} (x : A) ids fe i :
  foldl (λ fe i, <[i := x]> fe) fe ids !! i = if decide (i ∈ ids) then Some x else (fe : gmap Z A) !! i.
Proof.
  revert fe. induction ids as [|j ids IH]; intros fe; [done|]. cbn [foldl]. rewrite IH.
  destruct (decide (i = j)) as [->|Hi].
  - rewrite lookup_insert_eq, (decide_True (P := j ∈ j :: ids)) by set_solver. by case_decide.
  - rewrite lookup_insert_ne by done. destruct (decide (i ∈ ids)); [rewrite decide_True|rewrite decide_False]; set_solver.
Qed.

(** A series has a value, among [vals], that matches. *)
Definition hits (re : string) (vals : gmap string SeriesIDs) (i : Z) : Prop :=
  ∃ v l, vals !! v = Some l ∧ MatchString re v = true ∧ i ∈ l.

Lemma hits_empty re i : ¬ hits re ∅ i.
Proof. intros (v & l & H & _). by rewrite lookup_empty in H. Qed.

Lemma hits_insert re vals v l i :
  vals !! v = None → hits re (<[v := l]> vals) i ↔ (MatchString re v = true ∧ i ∈ l) ∨ hits re vals i.
Proof.
  intros Hv. unfold hits. setoid_rewrite lookup_insert_Some. split.
  - intros (v' & l' & [[<- <-]|[Hne ?]] & ? & ?); [by left|right; eauto].
  - intros [[??]|(v' & l' & ? & ? & ?)]; [exists v, l; split; [by left|done]|]. exists v', l'. split; [right; split; congruence|done].
Qed.

(** The loop over the values of a tag. *)
Definition loop_result (op : Token) (re : string) (ids : SeriesIDs) (vals : gmap string SeriesIDs) (i : Z) : Prop :=
  if bool_decide (op = EQREGEX) then i ∈ ids ∨ hits re vals i
  else if bool_decide (op = NEQREGEX) then i ∈ ids ∧ ¬ hits re vals i else i ∈ ids.

Lemma match_values_spec op re vals ids :
  ids_sorted ids → (∀ v l, vals !! v = Some l → ids_sorted l) →
  ids_sorted (map_fold (match_value op re) ids vals) ∧
  ∀ i, i ∈ map_fold (match_value op re) ids vals ↔ loop_result op re ids vals i.
Proof.
  intros Hids. pose (P (r : list Z) (vals : gmap string SeriesIDs) :=
    (∀ v l, vals !! v = Some l → ids_sorted l) → ids_sorted r ∧ ∀ i, i ∈ r ↔ loop_result op re ids vals i).
  change (P (map_fold (match_value op re) ids vals) vals). revert vals. apply map_fold_weak_ind; unfold P; clear P.
  - intros _. split; [done|]. intros i. pose proof (hits_empty re i). unfold loop_result.
    repeat case_bool_decide; tauto.
  - intros v l vals r Hv IH Hs. destruct IH as [Hr Hi].
    { intros v' l' ?. apply (Hs v'). rewrite lookup_insert_ne by congruence. done. }
    assert (Hl : ids_sorted l) by (apply (Hs v); apply lookup_insert_eq).
    pose proof (λ i, hits_insert re vals v l i Hv) as Hhit. unfold match_value, loop_result in *.
    destruct (MatchString re v); cbn [andb];
      (destruct (bool_decide (op = EQREGEX)); [|destruct (bool_decide (op = NEQREGEX))]).
    + split; [by apply union_loop_sorted|]. intros i. rewrite elem_of_Union, Hi, Hhit. tauto.
    + split; [by apply reject_loop_sorted|]. intros i. rewrite elem_of_Reject, Hi, Hhit by done. tauto.
    + done.
    + split; [done|]. intros i. rewrite Hi, Hhit. naive_solver.
    + split; [done|]. intros i. rewrite Hi, Hhit. naive_solver.
    + done.
Qed.

Lemma tagVals_sorted m name vals v l :
  measurement_ok m → seriesByTagKeyValue m !! name = Some vals → vals !! v = Some l → ids_sorted l.
Proof.
  intros Hm Hn Hv. pose proof (mo_tags_sorted m Hm name v) as H. unfold ids_with in H. rewrite Hn in H. simpl in H.
  by rewrite Hv in H.
Qed.

Lemma tagVals_mem m name vals v i :
  measurement_ok m → seriesByTagKeyValue m !! name = Some vals →
  i ∈ default [] (vals !! v) ↔ ∃ s, seriesByID m !! i = Some s ∧ Series_Tags s !! name = Some v.
Proof.
  intros Hm Hn. rewrite <- (mo_tags m Hm). unfold ids_with. by rewrite Hn.
Qed.

(** A matching value of a series is found under the key. *)
Lemma regex_hits m name vals re i s :
  measurement_ok m → seriesByTagKeyValue m !! name = Some vals → seriesByID m !! i = Some s →
  hits re vals i ↔
  match Series_Tags s !! name with Some v => MatchString re v | None => false end = true.
Proof.
  intros Hm Hn Hs. split.
  - intros (v & l & Hv & Hre & Hi).
    assert (Hi' : i ∈ default [] (vals !! v)) by by rewrite Hv.
    apply (tagVals_mem m name) in Hi' as (s' & Hs' & Ht); [|done..]. simplify_eq. by rewrite Ht.
  - destruct (Series_Tags s !! name) as [v|] eqn:Ht; [|done]. intros Hre.
    assert (Hi : i ∈ default [] (vals !! v)) by (apply (tagVals_mem m name); eauto).
    destruct (vals !! v) as [l|] eqn:Hv; [by exists v, l|set_solver].
Qed.

(** [ids] are the series that satisfy [P]. *)
Definition selected (m : Measurement) (P : Series → bool) (ids : SeriesIDs) : Prop :=
  ids_sorted ids ∧ ∀ i, i ∈ ids ↔ ∃ s, seriesByID m !! i = Some s ∧ P s = true.

Lemma selected_none m P : (∀ s, P s = false) → selected m P [].
Proof.
  intros HP. split; [constructor|]. intros i. split; [set_solver|]. intros (s & _ & Hs). by rewrite HP in Hs.
Qed.

Lemma selected_all m P : measurement_ok m → (∀ s, P s = true) → selected m P (seriesIDs m).
Proof.
  intros Hm HP. split; [apply Hm|]. intros i. rewrite (mo_ids m Hm). split.
  - intros [s Hs]. eauto.
  - intros (s & Hs & _). eauto.
Qed.

Lemma selected_string m op name vals str :
  measurement_ok m → seriesByTagKeyValue m !! name = Some vals →
  selected m (λ s, tag_sat s op name (StringLiteral str))
    (if bool_decide (op = EQ) then default [] (vals !! str)
     else if bool_decide (op = NEQ) then SeriesIDs_Reject (seriesIDs m) (default [] (vals !! str)) else []).
Proof.
  intros Hm Hn. pose proof (mo_sorted m Hm) as Hall.
  assert (Hl : ids_sorted (default [] (vals !! str))).
  { destruct (vals !! str) eqn:E; [by eapply tagVals_sorted|constructor]. }
  unfold tag_sat. destruct (bool_decide (op = EQ)); [|destruct (bool_decide (op = NEQ))].
  - split; [done|]. intros i. rewrite (tagVals_mem m name) by done. setoid_rewrite bool_decide_eq_true. done.
  - split; [by apply reject_loop_sorted|]. intros i. rewrite elem_of_Reject, (mo_ids m Hm), (tagVals_mem m name) by done.
    setoid_rewrite negb_true_iff. setoid_rewrite bool_decide_eq_false. split.
    + intros [[s Hs] Hn']. exists s. split; [done|]. intros ?. apply Hn'. eauto.
    + intros (s & Hs & Ht). split; [eauto|]. intros (s' & ? & ?). by simplify_eq.
  - by apply selected_none.
Qed.

Lemma selected_regex m op name vals re :
  measurement_ok m → seriesByTagKeyValue m !! name = Some vals →
  selected m (λ s, tag_sat s op name (RegexLiteral re))
    (map_fold (match_value op re) (if bool_decide (op = NEQREGEX) then seriesIDs m else []) vals).
Proof.
  intros Hm Hn.
  destruct (match_values_spec op re vals (if bool_decide (op = NEQREGEX) then seriesIDs m else [])) as [Hs Hi].
  { case_match; [apply Hm|constructor]. }
  { intros v' l' ?. by eapply tagVals_sorted. }
  split; [done|]. intros i. rewrite Hi. unfold loop_result, tag_sat.
  assert (Hser : hits re vals i → is_Some (seriesByID m !! i)).
  { intros (v' & l' & Hv & _ & Hin). assert (Hin' : i ∈ default [] (vals !! v')) by by rewrite Hv.
    apply (tagVals_mem m name) in Hin' as (s & ? & _); eauto. }
  pose proof (λ s, regex_hits m name vals re i s Hm Hn) as Hh.
  destruct (bool_decide (op = EQREGEX)) eqn:E1; [|destruct (bool_decide (op = NEQREGEX)) eqn:E2].
  - apply bool_decide_eq_true_1 in E1 as ->. simpl. split.
    + intros [?|H]; [set_solver|]. destruct (Hser H) as [s Hs']. exists s. split; [done|]. by apply Hh.
    + intros (s & Hs' & H). right. by apply (Hh s).
  - rewrite (mo_ids m Hm). setoid_rewrite negb_true_iff. setoid_rewrite <- not_true_iff_false. split.
    + intros [[s Hs'] Hn']. exists s. by rewrite <- (Hh s).
    + intros (s & Hs' & H). rewrite <- (Hh s) in H by done. eauto.
  - split; [set_solver|]. by intros (? & _ & ?).
Qed.

Lemma idsForExpr_spec m op l r :
  measurement_ok m → leaf_of m l r ≠ LNone →
  ∃ ids x, idsForExpr m op l r = Ok (ids, x) ∧ selected m (λ s, leaf_selects m s op l r) ids ∧
    (ids ≠ [] → x = Some (match leaf_of m l r with LField => BinaryExpr op l r | _ => BooleanLiteral true end)).
Proof.
  intros Hm. unfold leaf_selects, leaf_of, idsForExpr. destruct (comparison_of l r) as [[name value]|]; [|done]. intros _.
  destruct (_ || _); [eexists _, _; split; [reflexivity|]; split; [by apply selected_all|done]|].
  destruct (HasField m name); [eexists _, _; split; [reflexivity|]; split; [by apply selected_all|done]|].
  unfold HasTagKey. destruct (seriesByTagKeyValue m !! name) as [vals|] eqn:Hn.
  2: { eexists _, _. split; [reflexivity|]. split; [|done]. apply selected_none. intros s.
       by rewrite bool_decide_eq_false_2 by (by intros [??]). }
  rewrite (bool_decide_eq_true_2 (is_Some (Some vals))) by (by exists vals). cbn [andb].
  destruct value; (eexists _, _; split; [reflexivity|]); (split; [|done]);
    solve [by apply selected_none | by apply selected_regex | by apply selected_string].
Qed.

(** ** The walk *)

(** The filters are those of the series in [ids], and the value of each is [V]. *)
Record walked (m : Measurement) (e : Expr) (ids : SeriesIDs) (fe : gmap Z (option Expr)) : Prop := {
  wk_ids : selected m (λ s, selects m s e) ids;
  wk_dom : ∀ i, is_Some (fe !! i) → i ∈ ids;
  wk_filter : ∀ i s, i ∈ ids → seriesByID m !! i = Some s →
    ∃ x, fe !! i = Some (Some x) ∧ filter_ok x ∧
      ∀ f, fields_decide m f e = true → decides f x = true ∧ EvalBool x f = passes m s f e
}.

Lemma merge_spec op ids lf rf :
  is_logic op = true →
  let def := BooleanLiteral (bool_decide (op = OR)) in
  (∀ i, i ∈ ids → filter_ok (default def (filter_of lf i)) ∧ filter_ok (default def (filter_of rf i))) →
  ∃ fe, mergeSeriesFilters op ids lf rf = Ok (ids, fe) ∧ (∀ i, is_Some (fe !! i) → i ∈ ids) ∧
    ∀ i, i ∈ ids → ∃ z, fe !! i = Some (Some z) ∧
      Reduce (BinaryExpr op (default def (filter_of lf i)) (default def (filter_of rf i))) None = Ok z.
Proof.
  intros Hop def. induction ids as [|j ids IH]; intros Hok.
  { exists ∅. split_and!; [done| |set_solver]. intros i [??]. by rewrite lookup_empty in H. }
  destruct IH as (fe & Hfe & Hdom & Hz); [set_solver|].
  destruct (Hok j) as [Hx Hy]; [set_solver|].
  destruct (Reduce_join op _ _ Hop Hx Hy) as (z & Ez & Hzok & _).
  exists (<[j := Some z]> fe). simpl. fold def. rewrite Ez. simpl. rewrite Hfe. simpl.
  rewrite (filter_ok_not_false z Hzok). split; [done|]. split.
  - intros i [<-|[_ ?%Hdom]]%lookup_insert_is_Some; set_solver.
  - intros i Hi. destruct (decide (i = j)) as [->|Hne]; [rewrite lookup_insert_eq; eauto|].
    rewrite lookup_insert_ne by done. apply Hz. set_solver.
Qed.

(** The filter of a side: its own where it selects the series, else the default. *)
Lemma side_filter m e ids fe op i s :
  walked m e ids fe → seriesByID m !! i = Some s →
  (bool_decide (op = AND) = true → i ∈ ids) → is_logic op = true →
  let x := default (BooleanLiteral (bool_decide (op = OR))) (filter_of (Some fe) i) in
  filter_ok x ∧ ∀ f, fields_decide m f e = true →
    decides f x = true ∧ EvalBool x f = if selects m s e then passes m s f e else true.
Proof.
  intros Hw Hs Hand Hop x. destruct (decide (i ∈ ids)) as [Hi|Hi].
  - destruct (wk_filter _ _ _ _ Hw i s Hi Hs) as (y & Hy & Hok & Hv).
    unfold x, filter_of. simpl. rewrite Hy. simpl. split; [done|].
    apply (wk_ids _ _ _ _ Hw) in Hi as (s' & Hs' & Hsel). simplify_eq. by rewrite Hsel.
  - assert (fe !! i = None) as Hn.
    { destruct (fe !! i) eqn:E; [|done]. destruct Hi. apply (wk_dom _ _ _ _ Hw). eauto. }
    unfold x, filter_of. simpl. rewrite Hn. simpl.
    assert (op = OR) as -> by (destruct op; try done; destruct Hi; by apply Hand).
    split; [by left|]. intros f _. split; [done|].
    destruct (selects m s e) eqn:Hsel; [|done]. destruct Hi. apply (wk_ids _ _ _ _ Hw). eauto.
Qed.

(** The series of both sides together. *)
Lemma selected_join m op l r lids rids :
  is_logic op = true → selected m (λ s, selects m s l) lids → selected m (λ s, selects m s r) rids →
  selected m (λ s, selects m s (BinaryExpr op l r))
    (if bool_decide (op = AND) then SeriesIDs_Intersect lids rids else SeriesIDs_Union lids rids).
Proof.
  intros Hop [Hls Hl] [Hrs Hr]. simpl. rewrite Hop. destruct (bool_decide (op = AND)).
  - split; [by apply intersect_slices_sorted|]. intros i. rewrite elem_of_Intersect, Hl, Hr by done. split.
    + intros [(s & Hs & H1) (s' & Hs' & H2)]. simplify_eq. exists s. by rewrite H1, H2.
    + intros (s & Hs & [H1 H2]%andb_prop). split; by exists s.
  - split; [by apply union_loop_sorted|]. intros i. rewrite elem_of_Union, Hl, Hr. split.
    + intros [(s & Hs & H)|(s & Hs & H)]; exists s; rewrite H; [done|by rewrite orb_true_r].
    + intros (s & Hs & [H|H]%orb_true_iff); [left|right]; by exists s.
Qed.

Lemma walk_leaf m op l r :
  measurement_ok m → is_logic op = false → where_form m (BinaryExpr op l r) = true →
  ∃ ids fe, walkWhereForSeriesIds m (BinaryExpr op l r) = Ok (ids, Some fe) ∧ walked m (BinaryExpr op l r) ids fe.
Proof.
  intros Hm Hop Hf. simpl in Hf. rewrite Hop in Hf. apply andb_prop in Hf as [Hcmp Hf].
  destruct (idsForExpr_spec m op l r Hm) as (ids & x & Hids & Hsel & Hx); [by intros E; rewrite E in Hf|].
  simpl. rewrite Hcmp, Hids. simpl. eexists _, _. split; [reflexivity|]. split.
  - simpl. by rewrite Hop.
  - intros i [y Hy]. rewrite foldl_insert_lookup in Hy. by case_decide.
  - intros i s Hi Hs. rewrite foldl_insert_lookup, decide_True by done. rewrite Hx by (intros ->; inversion Hi).
    eexists. split; [reflexivity|]. simpl. rewrite Hop.
    destruct (leaf_of m l r) eqn:Hleaf; try done; try by (split; [by left|]).
    apply andb_prop in Hf as [[Hc Hl]%andb_prop Hr]. split.
    + right. simpl. rewrite Hop, Hc, Hl, Hr. simpl. unfold leaf_of in Hleaf. by destruct l, r.
    + intros f Hd. simpl. rewrite Hop, Hc, Hl, Hr. done.
Qed.

Lemma walk_spec m e :
  measurement_ok m → where_form m e = true →
  ∃ ids fe, walkWhereForSeriesIds m e = Ok (ids, Some fe) ∧ walked m e ids fe.
Proof.
  intros Hm. induction e as [op l r IHl IHr|name args _|e IHe|e He] using Expr_rect'; intros Hf; try done.
  2: { destruct (IHe Hf) as (ids & fe & ? & [? ? ?]). exists ids, fe. split; [done|]. by split. }
  2: { by destruct e. }
  destruct (is_logic op) eqn:Hop; [|by apply walk_leaf]. pose proof Hf as Hf'. simpl in Hf'. rewrite Hop in Hf'.
  apply andb_prop in Hf' as [Hl Hr].
  destruct (IHl Hl) as (lids & lf & El & Wl), (IHr Hr) as (rids & rf & Er & Wr).
  pose proof (selected_join m op l r lids rids Hop (wk_ids _ _ _ _ Wl) (wk_ids _ _ _ _ Wr)) as Hsel.
  simpl. rewrite is_logic_comparison, <- is_logic_spec, Hop, El, Er by done. simpl.
  set (ids := if bool_decide (op = AND) then _ else _) in *.
  assert (Hside : ∀ i, i ∈ ids → bool_decide (op = AND) = true → i ∈ lids ∧ i ∈ rids).
  { intros i Hi Hand. unfold ids in Hi. rewrite Hand in Hi.
    by apply elem_of_Intersect in Hi; [|apply Wl|apply Wr]. }
  destruct (merge_spec op ids (Some lf) (Some rf) Hop) as (fe & Hfe & Hdom & Hz).
  { intros i Hi. apply Hsel in Hi as Hi'. destruct Hi' as (s & Hs & _).
    split; eapply side_filter; naive_solver. }
  rewrite Hfe. simpl. eexists _, _. split; [reflexivity|]. split; [done..|].
  intros i s Hi Hs. destruct (Hz i Hi) as (z & Hzl & Ez). exists z. split; [done|].
  destruct (side_filter m l lids lf op i s) as [Lok Lv]; [naive_solver..|].
  destruct (side_filter m r rids rf op i s) as [Rok Rv]; [naive_solver..|].
  destruct (Reduce_join op _ _ Hop Lok Rok) as (z' & Ez' & Hzok & Hzv). rewrite Ez in Ez'. simplify_eq. split; [done|].
  intros f Hfd. simpl in Hfd. rewrite Hop in Hfd. apply andb_prop in Hfd as [Fl Fr].
  destruct (Lv f Fl) as [Dl Vl], (Rv f Fr) as [Dr Vr], (Hzv f Dl Dr) as [Dz Vz].
  split; [done|]. rewrite Vz, Vl, Vr. simpl. rewrite Hop. destruct (bool_decide (op = AND)) eqn:Hand; [|done].
  destruct (Hside i Hi eq_refl) as [(s1 & ? & H1)%Wl (s2 & ? & H2)%Wr]. simplify_eq. by rewrite H1, H2.
Qed.
End conditions.
