(* ===== verification/TsdbTags.v ===== *)
(** * Tag sets, measurements by tag and statements on series

    The rest of [tsdb/meta.go]: the tag sets of [GROUP BY] and the search for
    measurements; and the statements of [tsdb/query_executor.go] that drop
    series and measurements or list tag values. *)

From stdpp Require Import base list strings gmap sets sorting.
From Stdlib Require Import ZArith Lia Ascii.
From S2P Require Import Prelude QlToken QlExpr QlSelect Escape QlPrint TsdbMerge TsdbIndex TsdbWhere.

Local Open Scope Z_scope.

Abbreviation stringSet := (gset string).
Abbreviation Measurements := (list Measurement).

Section tags.
Context {goSort : GoSort} {regexp : Regexp}.

(** ** Sets of strings *)

Definition stringSet_add (s : stringSet) (ss : list string) : stringSet := foldl (λ s n, {[n]} ∪ s) s ss.
Definition stringSet_contains (s : stringSet) (x : string) : bool := bool_decide (x ∈ s).
Definition stringSet_list (s : stringSet) : list string := sort_Strings (elements s).
Definition stringSet_union (s o : stringSet) : stringSet := s ∪ o.
(** The keys of each set that the other has too. *)
Definition stringSet_intersect (s o : stringSet) : stringSet := filter (λ k, k ∈ o) s ∪ filter (λ k, k ∈ s) o.

(** ** Tag sets *)

Definition bar : string := "|".

Fixpoint join_values (l : list string) : string :=
  match l with
  | [] => EmptyString
  | [v] => v
  | v :: l => v +:+ bar +:+ join_values l
  end.

(** The keys in order, each followed by a bar, then the values with bars
    between. *)
Definition MarshalTags (t : tags) : string :=
  let keys := sort_Strings (fst <$> map_to_list t) in
  foldr (λ k b, k +:+ bar +:+ b) EmptyString keys +:+
  join_values ((λ k, default EmptyString (t !! k)) <$> keys).

Record TagSet := mkTagSet {
  TagSet_Tags : tags;
  TagSet_Filters : list (option Expr);
  TagSet_SeriesKeys : list string;
  TagSet_Key : string
}.

Definition AddFilter (t : TagSet) (key : string) (filter : option Expr) : TagSet :=
  mkTagSet (TagSet_Tags t) (TagSet_Filters t ++ [filter]) (TagSet_SeriesKeys t ++ [key]) (TagSet_Key t).

(** The values of the dimensions; a missing tag is the empty string. *)
Definition tags_for (s : Series) (dimensions : list string) : tags :=
  foldl (λ t dim, <[dim := default EmptyString (Series_Tags s !! dim)]> t) ∅ dimensions.

(** One series of the loop of [TagSets]. *)
Definition add_to_tagset (m : Measurement) (dimensions : list string) (tagSets : gmap string TagSet)
    (id : Z) (filter : option Expr) : whereE (gmap string TagSet) :=
  match seriesByID m !! id with
  | None => Panic
  | Some s =>
      let t := tags_for s dimensions in
      let tagsAsKey := MarshalTags t in
      let tagSet := default (mkTagSet t [] [] (MarshalTags t)) (tagSets !! tagsAsKey) in
      Ok (<[tagsAsKey := AddFilter tagSet (Series_Key s) filter]> tagSets)
  end.

Fixpoint add_all_to_tagsets (m : Measurement) (dimensions : list string) (tagSets : gmap string TagSet)
    (fs : list (Z * option Expr)) : whereE (gmap string TagSet) :=
  match fs with
  | [] => Ok tagSets
  | (id, filter) :: fs =>
      let! tagSets := add_to_tagset m dimensions tagSets id filter in
      add_all_to_tagsets m dimensions tagSets fs
  end.

Definition TagSets (m : Measurement) (condition : option Expr) (dimensions : list string) : whereE (list TagSet) :=
  let! fs := filters m condition in
  let! tagSets := add_all_to_tagsets m dimensions ∅ (map_to_list fs) in
  Ok (omap (λ k, tagSets !! k) (sort_Strings (fst <$> map_to_list tagSets))).

Definition tagValuesByKeyAndSeriesID (m : Measurement) (tagKeys : list string) (ids : SeriesIDs)
    : gmap string stringSet :=
  let tagKeys := match tagKeys with [] => fst <$> map_to_list (seriesByTagKeyValue m) | _ => tagKeys end in
  foldl (λ acc id,
    match seriesByID m !! id with
    | None => acc
    | Some s =>
        foldl (λ acc k,
          match Series_Tags s !! k with
          | None => acc
          | Some v => <[k := {[v]} ∪ default ∅ (acc !! k)]> acc
          end) acc tagKeys
    end) ∅ ids.

(** ** Measurements *)

Definition Measurements_Less (a b : Measurement) : bool := String.ltb (Measurement_Name a) (Measurement_Name b).
Definition Measurements_intersect (a other : Measurements) : Measurements := intersect_slices Measurement_Name a other.
Definition Measurements_union (a other : Measurements) : Measurements := union_loop Measurement_Name a other.

Definition all_measurements (d : DatabaseIndex) : Measurements :=
  omap (λ x, objects d !! x.2) (map_to_list (measurements d)).

Record TagFilter := mkTagFilter {
  TagFilter_Op : Token;
  TagFilter_Key : string;
  TagFilter_Value : string;
  TagFilter_Regex : string
}.

(** Whether the measurement passes the filter; [None] when it lacks the key. *)
Definition filter_measurement (m : Measurement) (f : TagFilter) : option bool :=
  tagVals ← seriesByTagKeyValue m !! TagFilter_Key f;
  let tagMatch :=
    if bool_decide (TagFilter_Op f = EQ) || bool_decide (TagFilter_Op f = NEQ)
    then bool_decide (is_Some (tagVals !! TagFilter_Value f))
    else existsb (λ x, MatchString (TagFilter_Regex f) x.1) (map_to_list tagVals) in
  let isEQ := bool_decide (TagFilter_Op f = EQ) || bool_decide (TagFilter_Op f = EQREGEX) in
  Some (Bool.eqb tagMatch isEQ).

Definition measurementsByTagFilters (d : DatabaseIndex) (fs : list TagFilter) : Measurements :=
  match fs with
  | [] => all_measurements d
  | _ => sort_Sort Measurements_Less
           (filter (λ m, existsb (λ f, default false (filter_measurement m f)) fs = true) (all_measurements d))
  end.

Fixpoint measurementsByExpr (d : DatabaseIndex) (e : Expr) : whereE Measurements :=
  match e with
  | BinaryExpr op l r =>
      match op with
      | EQ | NEQ | EQREGEX | NEQREGEX =>
          match l with
          | VarRef tag =>
              if IsRegexOp op then
                match r with
                | RegexLiteral re => Ok (measurementsByTagFilters d [mkTagFilter op tag EmptyString re])
                | _ => Err (ErrRightNotRegex op)
                end
              else
                match r with
                | StringLiteral s => Ok (measurementsByTagFilters d [mkTagFilter op tag s EmptyString])
                | _ => Err (ErrRightNotString op)
                end
          | _ => Err (ErrLeftNotTagKey op)
          end
      | OR | AND =>
          let! lhsIDs := measurementsByExpr d l in
          let! rhsIDs := measurementsByExpr d r in
          Ok (if bool_decide (op = OR) then Measurements_union lhsIDs rhsIDs else Measurements_intersect lhsIDs rhsIDs)
      | _ => Err ErrInvalidOperator
      end
  | ParenExpr e => measurementsByExpr d e
  | _ => Err (ErrUnexpected e)
  end.

Definition measurementsByRegex (d : DatabaseIndex) (re : string) : Measurements :=
  filter (λ m, MatchString re (Measurement_Name m) = true) (all_measurements d).

(** ** Series keys *)

(** [key[:strings.Index(key, ",")]], the whole key without a comma. *)
Fixpoint MeasurementFromSeriesKey (key : string) : string :=
  match key with
  | EmptyString => EmptyString
  | String c key => if bool_decide (c = ","%char) then EmptyString else String c (MeasurementFromSeriesKey key)
  end.

Definition Series_match (s : Series) (t : tags) : bool :=
  forallb (λ x, bool_decide (default EmptyString (Series_Tags s !! x.1) = x.2)) (map_to_list t).

(** [MarshalTags] and the index treat times as [time.Time]. *)
Definition timeBetweenInclusive (t min max : Time) : bool :=
  ((t =? min) || Time_After t min) && ((t =? max) || Time_Before t max).

(** ** Statements *)

Inductive ExecError :=
| ErrIndex (e : IndexError)
| ErrDropTime
| ErrDropFields
| ErrMeasurementNotFound (name : string)
| ErrStore.

Definition execE : Type → Type := outcome ExecError.
Definition of_whereE {A} (x : whereE A) : execE A :=
  match x with Ok a => Ok a | Err e => Err (ErrIndex e) | Panic => Panic end.

(** ** Sources

    The set of sources by their texts, and the texts in order of appearance.  A
    source without a regular expression is added whether or not it is there. *)
Definition add_source (acc : gmap string Source * list string) (src : Source) : gmap string Source * list string :=
  (<[Source_String src := src]> acc.1, acc.2 ++ [Source_String src]).
Definition add_match (src : Source) (acc : gmap string Source * list string) (m : Measurement)
    : gmap string Source * list string :=
  let m2 := mkSource (Source_Database src) (Source_RetentionPolicy src) (Measurement_Name m) None in
  if decide (is_Some (acc.1 !! Source_String m2)) then acc else add_source acc m2.
Definition expand_source (d : DatabaseIndex) (acc : gmap string Source * list string) (src : Source)
    : gmap string Source * list string :=
  match Source_Regex src with
  | None => add_source acc src
  | Some re => foldl (add_match src) acc (measurementsByRegex d re)
  end.
Definition expanded_sources (acc : gmap string Source * list string) : list Source :=
  omap (λ name, acc.1 !! name) (sort_Strings acc.2).

Definition ExpandSources (d : DatabaseIndex) (sources : list Source) : list Source :=
  expanded_sources (foldl (expand_source d) (∅, []) sources).

(** The executor looks the database of each regular expression up in the store;
    when it is missing there are no sources at all. *)
Fixpoint expand_in_store (dbs : gmap string DatabaseIndex) (sources : list Source)
    (acc : gmap string Source * list string) : list Source :=
  match sources with
  | [] => expanded_sources acc
  | src :: sources =>
      match Source_Regex src, dbs !! Source_Database src with
      | None, _ => expand_in_store dbs sources (add_source acc src)
      | Some _, None => []
      | Some _, Some d => expand_in_store dbs sources (expand_source d acc src)
      end
  end.
Definition expandSources (dbs : gmap string DatabaseIndex) (sources : list Source) : list Source :=
  expand_in_store dbs sources (∅, []).

Definition measurementsFromSourcesOrDB (d : DatabaseIndex) (sources : list Source) : Measurements :=
  sort_Sort Measurements_Less
    (match sources with
     | [] => filter (λ m, HasSeries m = true) (all_measurements d)
     | _ => omap (λ src, index_Measurement d (Source_Name src)) sources
     end).

Fixpoint keys_of_ids (m : Measurement) (ids : SeriesIDs) : whereE (list string) :=
  match ids with
  | [] => Ok []
  | id :: ids =>
      match seriesByID m !! id with
      | None => Panic
      | Some s => let! ks := keys_of_ids m ids in Ok (Series_Key s :: ks)
      end
  end.

(** The keys of the series of one measurement that the statement names. *)
Definition series_to_drop (m : Measurement) (condition : option Expr) : execE (list string) :=
  match condition with
  | Some e =>
      let! (ids, fs) := of_whereE (walkWhereForSeriesIds m e) in
      if (0 <? FilterExprs_Len (DeleteBoolLiteralTrues fs))%nat then Err ErrDropFields
      else of_whereE (keys_of_ids m ids)
  | None => of_whereE (keys_of_ids m (seriesIDs m))
  end.
Fixpoint all_series_to_drop (ms : Measurements) (condition : option Expr) : execE (list string) :=
  match ms with
  | [] => Ok []
  | m :: ms =>
      let! ks := series_to_drop m condition in
      let! ks' := all_series_to_drop ms condition in
      Ok (ks ++ ks')
  end.

(** [deleteSeries] says whether the store deleted the data of the keys.  The
    indexes of the databases after the statement, and its result with the keys it
    dropped. *)
Definition executeDropSeriesStatement (deleteSeries : list string → bool) (dbs : gmap string DatabaseIndex)
    (stmtSources : list Source) (condition : option Expr) (database : string)
    : gmap string DatabaseIndex * execE (list string) :=
  if match condition with Some e => HasTimeExpr e | None => false end then (dbs, Err ErrDropTime)
  else
    match dbs !! database with
    | None => (dbs, Ok [])
    | Some d =>
        let sources := expandSources dbs stmtSources in
        if negb (bool_decide (stmtSources = [])) && bool_decide (sources = []) then (dbs, Ok [])
        else
          match all_series_to_drop (measurementsFromSourcesOrDB d sources) condition with
          | Ok seriesKeys =>
              if deleteSeries seriesKeys then
                match DropSeries d seriesKeys with
                | Ok d => (<[database := d]> dbs, Ok seriesKeys)
                | _ => (dbs, Panic)
                end
              else (dbs, Err ErrStore)
          | Err e => (dbs, Err e)
          | Panic => (dbs, Panic)
          end
    end.

(** The measurement leaves the index before the store deletes its data. *)
Definition executeDropMeasurementStatement (deleteMeasurement : string → list string → bool)
    (dbs : gmap string DatabaseIndex) (name database : string) : gmap string DatabaseIndex * execE unit :=
  match dbs !! database with
  | None => (dbs, Ok tt)
  | Some d =>
      match index_Measurement d name with
      | None => (dbs, Err (ErrMeasurementNotFound name))
      | Some m =>
          match DropMeasurement d (Measurement_Name m) with
          | Ok d => (<[database := d]> dbs,
                     if deleteMeasurement (Measurement_Name m) (SeriesKeys m) then Ok tt else Err ErrStore)
          | _ => (dbs, Panic)
          end
      end
  end.
End tags.
