(* ===== verification/TsdbProps.v ===== *)
(** * Theorems about the series index *)

From stdpp Require Import base list strings gmap sets sorting.
From Stdlib Require Import ZArith Lia Ascii.
From S2P Require Import Prelude QlToken QlExpr QlExprProps QlSelect Escape QlPrint TsdbMerge TsdbIndex.
From S2P Require Import TsdbIndexInv TsdbWhere TsdbWhereInv TsdbTags.

Local Open Scope Z_scope.

(** ** What a condition means *)

Section meaning.
Context {regexp : Regexp}.

(** The meaning of a condition for a point with the fields [f] of the series
    [s]: comparisons of time are left to [TimeRange]. *)
Fixpoint sat (m : Measurement) (s : Series) (f : string → GoValue) (e : Expr) : bool :=
  match e with
  | BinaryExpr op l r =>
      if is_logic op then
        if bool_decide (op = AND) then sat m s f l && sat m s f r else sat m s f l || sat m s f r
      else
        match leaf_of m l r with
        | LTime => true
        | LField => EvalBool e f
        | LTag name value => tag_sat s op name value
        | LNone => false
        end
  | ParenExpr e => sat m s f e
  | _ => false
  end.

(** Every comparison satisfies [P]. *)
Fixpoint leaves (m : Measurement) (P : Token → leaf → bool) (e : Expr) : bool :=
  match e with
  | BinaryExpr op l r =>
      if is_logic op then leaves m P l && leaves m P r else P op (leaf_of m l r)
  | ParenExpr e => leaves m P e
  | _ => true
  end.

Definition tag_free (m : Measurement) : Expr → bool :=
  leaves m (λ _ x, match x with LTag _ _ => false | _ => true end).
Definition field_free (m : Measurement) : Expr → bool :=
  leaves m (λ _ x, match x with LField => false | _ => true end).
(** A tag that is compared with [!=] or [!~] is a tag of some series. *)
Definition tags_known (m : Measurement) : Expr → bool :=
  leaves m (λ op x, match x with
    | LTag name _ => bool_decide (op = EQ) || bool_decide (op = EQREGEX) || HasTagKey m name
    | _ => true end).

(** The sides of an [OR] are both about tags or both about fields. *)
Fixpoint or_uniform (m : Measurement) (e : Expr) : bool :=
  match e with
  | BinaryExpr op l r =>
      if is_logic op then
        (bool_decide (op = AND) || (tag_free m l && tag_free m r) || (field_free m l && field_free m r)) &&
        or_uniform m l && or_uniform m r
      else true
  | ParenExpr e => or_uniform m e
  | _ => true
  end.

Lemma tag_sat_known m i s op name value :
  measurement_ok m → seriesByID m !! i = Some s →
  bool_decide (op = EQ) || bool_decide (op = EQREGEX) || HasTagKey m name = true →
  HasTagKey m name && tag_sat s op name value = tag_sat s op name value.
Proof.
  intros Hm Hs Hk. destruct (HasTagKey m name) eqn:E; [done|]. simpl. rewrite orb_false_r in Hk.
  assert (Hn : Series_Tags s !! name = None).
  { destruct (Series_Tags s !! name) eqn:Ht; [|done].
    rewrite (proj2 (HasTagKey_spec m name Hm)) in E; [done|]. eauto. }
  unfold tag_sat. rewrite Hn. by destruct value, op.
Qed.

(** Conditions on tags: the series decide. *)
Lemma field_free_selects m i s f e :
  measurement_ok m → seriesByID m !! i = Some s → where_form m e = true →
  field_free m e = true → tags_known m e = true →
  selects m s e = sat m s f e ∧ passes m s f e = true.
Proof.
  intros Hm Hs. unfold field_free, tags_known. induction e; intros Hf Hff Hk; try done; [|by apply IHe].
  simpl in *. destruct (is_logic Op).
  - apply andb_prop in Hf as [??], Hff as [??], Hk as [??].
    destruct IHe1 as [S1 P1]; [done..|]. destruct IHe2 as [S2 P2]; [done..|].
    rewrite S1, P1, P2. split; [by rewrite S2|]. by repeat case_match.
  - unfold leaf_selects. destruct (leaf_of m e1 e2); try done. split; [|done]. by eapply tag_sat_known.
Qed.

(** Conditions on fields: the filter decides. *)
Lemma tag_free_selects m s f e :
  where_form m e = true → tag_free m e = true →
  selects m s e = true ∧ passes m s f e = sat m s f e.
Proof.
  unfold tag_free. induction e; intros Hf Htf; try done; [|by apply IHe].
  simpl in *. destruct (is_logic Op).
  - apply andb_prop in Hf as [??], Htf as [??].
    destruct IHe1 as [S1 P1]; [done..|]. destruct IHe2 as [S2 P2]; [done..|].
    rewrite S1, P1, S2, P2. by destruct (bool_decide (Op = AND)).
  - apply andb_prop in Hf as [_ Hf]. unfold leaf_selects. by destruct (leaf_of m e1 e2).
Qed.

Lemma uniform_sat m i s f e :
  measurement_ok m → seriesByID m !! i = Some s → where_form m e = true →
  or_uniform m e = true → tags_known m e = true →
  selects m s e && passes m s f e = sat m s f e.
Proof.
  intros Hm Hs. unfold tags_known. induction e; intros Hf Hu Hk; try done; [|by apply IHe].
  simpl in *. destruct (is_logic Op) eqn:Hop.
  - apply andb_prop in Hf as [Hf1 Hf2], Hu as [[Hor Hu1]%andb_prop Hu2], Hk as [Hk1 Hk2].
    specialize (IHe1 Hf1 Hu1 Hk1). specialize (IHe2 Hf2 Hu2 Hk2).
    destruct (bool_decide (Op = AND)); simpl in Hor.
    { rewrite <- IHe1, <- IHe2. by destruct (selects m s e1), (selects m s e2), (passes m s f e1), (passes m s f e2). }
    apply orb_true_iff in Hor as [[Ht1 Ht2]%andb_prop|[Hff1 Hff2]%andb_prop].
    + destruct (tag_free_selects m s f e1 Hf1 Ht1) as [-> ->], (tag_free_selects m s f e2 Hf2 Ht2) as [-> ->]. done.
    + destruct (field_free_selects m i s f e1 Hm Hs Hf1 Hff1 Hk1) as [-> ->],
        (field_free_selects m i s f e2 Hm Hs Hf2 Hff2 Hk2) as [-> ->].
      destruct (sat m s f e1), (sat m s f e2); done.
  - unfold leaf_selects. destruct (leaf_of m e1 e2); try done.
    rewrite andb_true_r. by eapply tag_sat_known.
Qed.
End meaning.

(** ** The series index *)

(** The loop that ends [filters]. *)
Definition clear_true (fe : gmap Z (option Expr)) (id : Z) : gmap Z (option Expr) :=
  match fe !! id with
  | None | Some (Some (BooleanLiteral true)) => <[id := None]> fe
  | _ => fe
  end.

Lemma clear_true_lookup fe j i :
  clear_true fe j !! i =
    if decide (i = j) then match fe !! i with None | Some (Some (BooleanLiteral true)) => Some None | o => o end
    else fe !! i.
Proof.
  unfold clear_true. destruct (decide (i = j)) as [->|Hne].
  - destruct (fe !! j) as [[[| [] | | | | | | | | | | |]|]|] eqn:E; rewrite ?lookup_insert_eq; done.
  - destruct (fe !! j) as [[[| [] | | | | | | | | | | |]|]|] eqn:E; rewrite ?lookup_insert_ne by done; done.
Qed.

Lemma foldl_clear_true ids fe i :
  foldl clear_true fe ids !! i =
    if decide (i ∈ ids) then match fe !! i with None | Some (Some (BooleanLiteral true)) => Some None | o => o end
    else fe !! i.
Proof.
  revert fe. induction ids as [|j ids IH]; intros fe; [done|]. cbn [foldl]. rewrite IH, clear_true_lookup.
  destruct (decide (i = j)) as [->|Hne].
  - rewrite (decide_True (P := j ∈ j :: ids)) by set_solver.
    destruct (decide (j ∈ ids)); [|done].
    by destruct (fe !! j) as [[[| [] | | | | | | | | | | |]|]|].
  - destruct (decide (i ∈ ids)); [rewrite decide_True|rewrite decide_False]; set_solver.
Qed.

Section theorems.
Context {goSort : GoSort} {regexp : Regexp}.

(** A point passes the filter of its series; nil lets everything pass. *)
Definition returned (fe : gmap Z (option Expr)) (i : Z) (f : string → GoValue) : Prop :=
  match fe !! i with
  | None => False
  | Some None => True
  | Some (Some x) => EvalBool x f = true
  end.

Lemma filters_walked m e :
  measurement_ok m → where_form m e = true → OnlyTimeExpr e = false →
  ∃ fe, filters m (Some e) = Ok fe ∧
    ∀ i s f, seriesByID m !! i = Some s → fields_decide m f e = true →
      returned fe i f ↔ selects m s e && passes m s f e = true.
Proof.
  intros Hm Hf Ht. destruct (walk_spec m e Hm Hf) as (ids & fe & Hw & [Hids Hdom Hfil]).
  unfold filters. rewrite Ht, Hw. simpl. eexists. split; [reflexivity|].
  intros i s f Hs Hd. unfold returned. fold clear_true. rewrite foldl_clear_true. case_decide as Hi.
  - destruct (Hfil i s Hi Hs) as (x & -> & Hok & Hv). destruct (Hv f Hd) as [_ Hx].
    apply Hids in Hi as (s' & Hs' & Hsel). simplify_eq. rewrite Hsel. simpl. rewrite <- Hx.
    destruct Hok as [->|Hsol]; [done|]. by destruct x as [| [] | | | | | | | | | | |].
  - destruct (fe !! i) eqn:E; [destruct Hi; apply Hdom; eauto|].
    destruct (selects m s e) eqn:Hsel; [|done]. destruct Hi. apply Hids. eauto.
Qed.

(** C24: The [WHERE] clause splits exactly.  Let the measurement be consistent with
    its index; let the condition be comparisons of tags, fields and times joined by
    [AND] and [OR] ([where_form]), not of times alone, none of whose [OR]s mixes tags
    with fields ([or_uniform]) and whose comparisons of tags by [!=] and [!~] are of
    tags that the measurement has ([tags_known]); and let the point have the fields
    that are compared, with values that can be ([fields_decide]).  Then the point is
    returned, that is its series is in the map and its filter accepts the point,
    exactly when the condition holds for the tags of its series and its fields,
    comparisons of time left to the time range of the query.  (Otherwise: [DropSeries_or_drops_everything]
    for mixed [OR]s, [unknown_tag_inequality] for unknown tags and
    [Eval_OR_missing_left] for missing fields.) *)
Theorem filters_exact (m : Measurement) (e : Expr) (i : Z) (s : Series) (f : string → GoValue) :
  measurement_ok m → where_form m e = true → or_uniform m e = true → tags_known m e = true →
  OnlyTimeExpr e = false → seriesByID m !! i = Some s → fields_decide m f e = true →
  ∃ fe, filters m (Some e) = Ok fe ∧ (returned fe i f ↔ sat m s f e = true).
Proof.
  intros Hm Hf Hu Hk Ht Hs Hd. destruct (filters_walked m e Hm Hf Ht) as (fe & Hfe & Hr).
  exists fe. split; [done|]. rewrite (Hr i s f Hs Hd). by rewrite (uniform_sat m i s f e).
Qed.

(** Joining a comparison of a field and one of a tag with [OR] drops the filter:
    a series without the tag is returned with all its points, though the
    condition then depends on the field. *)
Lemma or_filter m op v x k w i s :
  measurement_ok m → is_cmp op = true → operand x = true →
  HasField m v = true → v ≠ "time" → isTimeLiteral x = false →
  HasField m k = false → k ≠ "time" → HasTagKey m k = true →
  seriesByID m !! i = Some s → Series_Tags s !! k ≠ Some w →
  let l := BinaryExpr op (VarRef v) x in
  let r := BinaryExpr EQ (VarRef k) (StringLiteral w) in
  leaf_of m (VarRef v) x = LField ∧ leaf_of m (VarRef k) (StringLiteral w) = LTag k (StringLiteral w) ∧
  is_logic op = false ∧ where_form m (BinaryExpr OR l r) = true ∧
  selects m s l = true ∧ selects m s r = false.
Proof.
  intros Hm Hop Hx Hv Hvt Hxt Hk Hkt Hkk Hs Hw l r.
  assert (Hl : leaf_of m (VarRef v) x = LField).
  { unfold leaf_of. simpl. rewrite Hxt, bool_decide_eq_false_2, Hv by done. done. }
  assert (Hr : leaf_of m (VarRef k) (StringLiteral w) = LTag k (StringLiteral w)).
  { unfold leaf_of. simpl. rewrite bool_decide_eq_false_2, Hk by done. done. }
  assert (Hlog : is_logic op = false) by by destruct op.
  assert (Hcmp : is_comparison op = true) by by destruct op.
  split_and!; [done..| | |].
  - simpl. rewrite Hlog, Hl, Hr, Hcmp, Hop, Hx. done.
  - simpl. rewrite Hlog. unfold leaf_selects. by rewrite Hl.
  - simpl. unfold leaf_selects. rewrite Hr. simpl. by rewrite bool_decide_eq_false_2, andb_false_r.
Qed.

(** ** Helpers *)

Lemma Equals_eq a b : SeriesIDs_Equals a b = true ↔ a = b.
Proof.
  unfold SeriesIDs_Equals. rewrite andb_true_iff, Nat.eqb_eq. split; [|intros ->; split; [done|]].
  - revert b. induction a as [|x a IH]; intros [|y b] [Hlen H]; try done. simpl in *.
    apply andb_prop in H as [->%Z.eqb_eq H]. f_equal. apply IH. split; [lia|done].
  - induction b as [|y b IH]; [done|]. simpl. by rewrite Z.eqb_refl, IH.
Qed.

Lemma live_measurement_ok d name p m : index_ok d → live d name p m → measurement_ok m.
Proof.
  intros Hd Hl. destruct (ix_live d Hd name p (proj1 Hl)) as (m0 & Hm0 & _ & Hmok).
  by destruct (live_inj d name name p m m0 Hd Hl Hm0) as [_ ->].
Qed.

Lemma live_member d name p m k s :
  index_ok d → live d name p m → series d !! k = Some s → Series_measurement s = Some p →
  seriesByID m !! Series_id s = Some s.
Proof.
  intros Hd Hl Hs Hp. destruct (ix_series d Hd _ _ Hs) as (_ & _ & n' & p' & m' & Hp' & Hl' & Hin).
  rewrite Hp in Hp'. injection Hp' as <-. by destruct (live_inj d _ _ _ _ _ Hd Hl' Hl) as [_ ->].
Qed.

Lemma sources_single d src p m :
  live d (Source_Name src) p m → measurementsFromSourcesOrDB d [src] = [m].
Proof.
  intros Hl. assert (Hi : index_Measurement d (Source_Name src) = Some m)
    by (unfold index_Measurement; rewrite (proj1 Hl); apply Hl).
  unfold measurementsFromSourcesOrDB. cbn [omap list_omap]. rewrite Hi. apply Permutation_singleton_r, sort_perm.
Qed.

Lemma expandSources_single dbs src : Source_Regex src = None → expandSources dbs [src] = [src].
Proof.
  intros H. unfold expandSources. cbn [expand_in_store]. rewrite H. unfold add_source, expanded_sources. simpl.
  by rewrite lookup_insert_eq.
Qed.

(** The statement on one measurement is what its series are. *)
Lemma drop_statement_single dbs database d src p m e :
  dbs !! database = Some d → Source_Regex src = None → live d (Source_Name src) p m → HasTimeExpr e = false →
  executeDropSeriesStatement (λ _, true) dbs [src] (Some e) database =
  match series_to_drop m (Some e) with
  | Ok ks => match DropSeries d ks with Ok d => (<[database := d]> dbs, Ok ks) | _ => (dbs, Panic) end
  | Err x => (dbs, Err x)
  | Panic => (dbs, Panic)
  end.
Proof.
  intros Hd Hre Hl Ht. unfold executeDropSeriesStatement. rewrite Ht, Hd, (expandSources_single dbs src Hre).
  rewrite (sources_single d src p m Hl). unfold all_series_to_drop.
  destruct (series_to_drop m (Some e)) as [ks| |]; simpl; [|done..]. by rewrite app_nil_r.
Qed.

Lemma leaf_of_field m v x :
  HasField m v = true → is_time_name v = false → operand x = true → leaf_of m (VarRef v) x = LField.
Proof.
  intros Hv Hvt Hx. unfold leaf_of. simpl. rewrite Hv.
  assert (Hv' : bool_decide (v = "time") = false).
  { apply bool_decide_eq_false_2. intros ->. vm_compute in Hvt. done. }
  rewrite Hv'. by destruct x.
Qed.

Lemma HasTimeExpr_field op v x :
  is_cmp op = true → is_time_name v = false → HasTimeExpr (BinaryExpr op (VarRef v) x) = false.
Proof. intros Hop Hv. destruct op; try discriminate Hop; exact Hv. Qed.

(** ** Dropping series *)

Definition all_true (fe : gmap Z (option Expr)) : Prop :=
  ∀ i y, fe !! i = Some y → y = Some (BooleanLiteral true).

Lemma Reduce_or_true x : filter_ok x → Reduce (BinaryExpr OR x (BooleanLiteral true)) None = Ok (BooleanLiteral true).
Proof.
  intros Hx. destruct (Reduce_filter_ok x Hx) as (x' & Ex & Hx' & _). unfold Reduce. simpl. rewrite Ex. simpl.
  unfold reduce_sides. simpl. by rewrite orb_true_r.
Qed.

(** The filter a side gives to a joined series. *)
Lemma side_true m e ids fe op i :
  walked m e ids fe → all_true fe → is_logic op = true → (op = AND → i ∈ ids) → is_Some (seriesByID m !! i) →
  default (BooleanLiteral (bool_decide (op = OR))) (filter_of (Some fe) i) = BooleanLiteral true.
Proof.
  intros Hw Ht Hop Hand [s Hs]. unfold filter_of. simpl. destruct (fe !! i) as [y|] eqn:E; [by rewrite (Ht i y E)|].
  simpl. destruct op; try discriminate Hop; [|done].
  destruct (wk_filter _ _ _ _ Hw i s (Hand eq_refl) Hs) as (? & ? & _). congruence.
Qed.

(** The filters of a whole condition, from those of its sides. *)
Lemma walk_join_true m op l r lids lf rids rf ids fe :
  measurement_ok m → is_logic op = true →
  walkWhereForSeriesIds m l = Ok (lids, Some lf) → walked m l lids lf →
  walkWhereForSeriesIds m r = Ok (rids, Some rf) → walked m r rids rf →
  all_true rf → (op = OR ∨ all_true lf) →
  walkWhereForSeriesIds m (BinaryExpr op l r) = Ok (ids, Some fe) → all_true fe.
Proof.
  intros Hm Hop El Wl Er Wr Tr Tl. simpl. rewrite is_logic_comparison, <- is_logic_spec, Hop, El, Er by done. simpl.
  pose proof (selected_join m op l r lids rids Hop (wk_ids _ _ _ _ Wl) (wk_ids _ _ _ _ Wr)) as Hsel.
  set (js := if bool_decide (op = AND) then _ else _) in *.
  assert (Hin : ∀ i, i ∈ js → op = AND → i ∈ lids ∧ i ∈ rids).
  { intros i Hi ->. by apply elem_of_Intersect in Hi; [|apply Wl|apply Wr]. }
  assert (Hser : ∀ i, i ∈ js → is_Some (seriesByID m !! i)) by (intros i (s & Hs & _)%Hsel; eauto).
  assert (Hlok : ∀ i, i ∈ js → filter_ok (default (BooleanLiteral (bool_decide (op = OR))) (filter_of (Some lf) i))).
  { intros i Hi. destruct (Hser i Hi) as [s Hs]. eapply side_filter; [exact Wl|exact Hs| |done].
    intros ->%bool_decide_eq_true_1. by apply (Hin i). }
  assert (Hrt : ∀ i, i ∈ js → default (BooleanLiteral (bool_decide (op = OR))) (filter_of (Some rf) i) = BooleanLiteral true).
  { intros i Hi. eapply side_true; eauto. intros ->. by apply (Hin i). }
  destruct (merge_spec op js (Some lf) (Some rf) Hop) as (fe' & -> & Hdom & Hz).
  { intros i Hi. split; [by apply Hlok|]. rewrite Hrt by done. by left. }
  intros [= <- <-] i y Hy. assert (Hi : i ∈ js) by (apply Hdom; eauto).
  destruct (Hz i Hi) as (z & Hzl & Hr). rewrite Hrt in Hr by done.
  destruct (decide (op = OR)) as [->|Hno].
  - rewrite Reduce_or_true in Hr by by apply Hlok. congruence.
  - destruct Tl as [->|Tl]; [done|]. erewrite side_true in Hr; eauto; [|intros ->; by apply (Hin i)].
    destruct op; try done. vm_compute in Hr. congruence.
Qed.

Lemma walk_field_free m e ids fe :
  measurement_ok m → where_form m e = true → field_free m e = true →
  walkWhereForSeriesIds m e = Ok (ids, Some fe) → all_true fe.
Proof.
  intros Hm. unfold field_free. revert ids fe. induction e; intros ids fe Hf Hff Hw; try done; [|by eapply IHe].
  simpl in Hf, Hff. destruct (is_logic Op) eqn:Hop.
  - apply andb_prop in Hf as [Hf1 Hf2], Hff as [Hff1 Hff2].
    destruct (walk_spec m e1 Hm Hf1) as (lids & lf & El & Wl), (walk_spec m e2 Hm Hf2) as (rids & rf & Er & Wr).
    eapply (walk_join_true m Op e1 e2); eauto.
  - apply andb_prop in Hf as [Hc Hf].
    destruct (idsForExpr_spec m Op e1 e2 Hm) as (ids' & x & Hids & _ & Hx); [by intros E; rewrite E in Hf|].
    simpl in Hw. rewrite Hc, Hids in Hw. simpl in Hw. injection Hw as <- <-.
    intros i y. rewrite foldl_insert_lookup. case_decide as Hi; [|done]. intros [= <-].
    rewrite Hx by (intros ->; inversion Hi). by destruct (leaf_of m e1 e2).
Qed.

Lemma all_true_len fe : all_true fe → FilterExprs_Len (DeleteBoolLiteralTrues (Some fe)) = O.
Proof.
  intros H. simpl. apply map_size_empty_iff, map_eq. intros i. rewrite lookup_empty.
  apply map_lookup_filter_None. right. intros y Hy. rewrite (H i y Hy). done.
Qed.

Lemma keys_of_ids_spec m ids :
  (∀ i, i ∈ ids → is_Some (seriesByID m !! i)) →
  ∃ ks, keys_of_ids m ids = Ok ks ∧
    ∀ k, k ∈ ks ↔ ∃ i s, i ∈ ids ∧ seriesByID m !! i = Some s ∧ Series_Key s = k.
Proof.
  induction ids as [|i ids IH]; intros H; simpl.
  - exists []. split; [done|]. intros k. split; [intros Hk; inversion Hk|intros (? & ? & Hk & _); inversion Hk].
  - destruct (H i) as [s Hs]; [set_solver|]. destruct IH as (ks & -> & Hks); [set_solver|].
    rewrite Hs. simpl. eexists. split; [reflexivity|]. intros k. rewrite elem_of_cons, Hks. split.
    + intros [->|(j & s' & ? & ? & ?)]; [exists i, s|exists j, s']; set_solver.
    + intros (j & s' & [->|Hj]%elem_of_cons & Hs' & <-); [left; congruence|right; eauto].
Qed.

(** The statement on one measurement, once its filters are all [true]. *)
Lemma drop_where_ok dbs database d src p m e ids fe :
  dbs !! database = Some d → Source_Regex src = None →
  index_ok d → live d (Source_Name src) p m → walkWhereForSeriesIds m e = Ok (ids, Some fe) →
  selected m (λ s, selects m s e) ids → all_true fe → HasTimeExpr e = false →
  ∃ d' ks, executeDropSeriesStatement (λ _, true) dbs [src] (Some e) database = (<[database := d']> dbs, Ok ks) ∧
    index_ok d' ∧
    ∀ k s, series d' !! k = Some s ↔
      series d !! k = Some s ∧ ¬ (Series_measurement s = Some p ∧ selects m s e = true).
Proof.
  intros Hdb Hre Hd Hl Hw [_ Hsel] Ht Htime. rewrite (drop_statement_single dbs database d src p m e) by done.
  cbn [series_to_drop]. rewrite Hw. cbn [of_whereE outcome_bind].
  rewrite (all_true_len fe Ht). cbn.
  destruct (keys_of_ids_spec m ids) as (ks & -> & Hks); [intros i (s & ? & _)%Hsel; eauto|]. cbn.
  destruct (DropSeries_ok ks d Hd) as (d' & -> & Hd' & _ & _ & Hs').
  exists d', ks. split; [done|]. split; [done|]. intros k s. rewrite Hs'.
  assert (Hk : series d !! k = Some s → k ∈ ks ↔ Series_measurement s = Some p ∧ selects m s e = true).
  { intros Hs. rewrite Hks. split.
    - intros (i & s' & (s2 & Hin2 & Hse)%Hsel & Hin & HK). rewrite Hin in Hin2. injection Hin2 as <-.
      destruct (ix_members d Hd _ _ _ _ _ Hl Hin) as [Hk' ?]. rewrite HK, Hs in Hk'. by injection Hk' as ->.
    - intros [Hp Hse]. destruct (ix_series d Hd _ _ Hs) as (? & _ & n' & p' & m' & Hp' & Hl' & Hin).
      rewrite Hp in Hp'. simplify_eq. destruct (live_inj d _ _ _ _ _ Hd Hl' Hl) as [-> ->].
      exists (Series_id s), s. split; [apply Hsel; eauto|done]. }
  case_decide; naive_solver.
Qed.

(** A condition on a field is refused as soon as there is a series. *)
Lemma DropSeries_field_refused dbs database d src p m op v x :
  dbs !! database = Some d → Source_Regex src = None →
  index_ok d → live d (Source_Name src) p m → seriesIDs m ≠ [] → is_cmp op = true →
  leaf_of m (VarRef v) x = LField → HasTimeExpr (BinaryExpr op (VarRef v) x) = false →
  executeDropSeriesStatement (λ _, true) dbs [src] (Some (BinaryExpr op (VarRef v) x)) database = (dbs, Err ErrDropFields).
Proof.
  intros Hdb Hre Hd Hl Hne Hop Hleaf Ht. rewrite (drop_statement_single dbs database d src p m) by done.
  cbn [series_to_drop].
  assert (walkWhereForSeriesIds m (BinaryExpr op (VarRef v) x) =
    Ok (seriesIDs m, Some (foldl (λ fe id, <[id := Some (BinaryExpr op (VarRef v) x)]> fe) ∅ (seriesIDs m)))) as ->.
  { simpl. assert (is_comparison op = true) as -> by by destruct op.
    unfold leaf_of in Hleaf. unfold idsForExpr. simpl in *. destruct (_ || _); [done|].
    by destruct (HasField m v). }
  cbn [of_whereE outcome_bind]. destruct (seriesIDs m) as [|i ids]; [done|].
  set (fe := foldl _ _ _). assert (Hi : fe !! i = Some (Some (BinaryExpr op (VarRef v) x))).
  { unfold fe. rewrite foldl_insert_lookup, decide_True by set_solver. done. }
  clearbody fe. assert (0 <? FilterExprs_Len (DeleteBoolLiteralTrues (Some fe)) = true)%nat as ->; [|done].
  apply Nat.ltb_lt, Nat.neq_0_lt_0. intros H. cbn in H. apply map_size_empty_iff in H.
  apply (f_equal (lookup i)) in H. rewrite lookup_empty in H. apply map_lookup_filter_None in H as [H|H]; [by rewrite Hi in H|].
  by apply (H _ Hi).
Qed.

(** ** Claims on the index *)

(** C31: Every sequence of operations on an empty index, series and fields
    created and series and measurements dropped in any order, succeeds and keeps
    the index consistent: each tag key and value leads to exactly the series of
    the measurement with this tag, in ascending order of ids and without empty
    entries; the series of the measurements in use and the series by key are the
    same, and lead back to their measurement. *)
Theorem reachable_index_ok (ops : list index_op) :
  Z.of_nat (length ops) < 2 ^ 64 →
  ∃ d, run_index NewDatabaseIndex ops = Ok d ∧ index_ok d.
Proof.
  intros H. destruct (run_index_ok ops NewDatabaseIndex NewDatabaseIndex_ok) as (d & ? & ? & _); [done|]. eauto.
Qed.

(** On sorted slices of ids, [Union], [Intersect] and [Reject] are the
    operations on the sets of ids, in order, and [Equals] is equality of sets. *)
Theorem SeriesIDs_set_operations (a b : SeriesIDs) :
  ids_sorted a → ids_sorted b →
  (ids_sorted (SeriesIDs_Union a b) ∧ (list_to_set (SeriesIDs_Union a b) : gset Z) = list_to_set a ∪ list_to_set b) ∧
  (ids_sorted (SeriesIDs_Intersect a b) ∧ (list_to_set (SeriesIDs_Intersect a b) : gset Z) = list_to_set a ∩ list_to_set b) ∧
  (ids_sorted (SeriesIDs_Reject a b) ∧ (list_to_set (SeriesIDs_Reject a b) : gset Z) = list_to_set a ∖ list_to_set b) ∧
  (SeriesIDs_Equals a b = true ↔ (list_to_set a : gset Z) = list_to_set b).
Proof.
  intros Ha Hb. split_and!.
  - by apply union_loop_sorted.
  - apply set_eq. intros i. rewrite elem_of_union, !elem_of_list_to_set. apply elem_of_Union.
  - by apply intersect_slices_sorted.
  - apply set_eq. intros i. rewrite elem_of_intersection, !elem_of_list_to_set. by apply elem_of_Intersect.
  - by apply reject_loop_sorted.
  - apply set_eq. intros i. rewrite elem_of_difference, !elem_of_list_to_set. by apply elem_of_Reject.
  - rewrite Equals_eq. split; [by intros ->|]. intros H. apply ids_sorted_unique; [done..|].
    intros i. rewrite <- !(elem_of_list_to_set (C := gset Z)). by rewrite H.
Qed.

(** C11: [DROP SERIES] with a condition on tags drops exactly the series of the
    measurement that satisfy it, from the database the statement runs in (the
    database its source names does not matter), and keeps the index
    consistent. *)
Theorem DropSeries_statement_exact (dbs : gmap string DatabaseIndex) (database : string) (d : DatabaseIndex)
    (src : Source) (p : pointer) (m : Measurement) (e : Expr) :
  dbs !! database = Some d → Source_Regex src = None →
  index_ok d → live d (Source_Name src) p m →
  where_form m e = true → field_free m e = true → tags_known m e = true → HasTimeExpr e = false →
  ∃ d' ks, executeDropSeriesStatement (λ _, true) dbs [src] (Some e) database = (<[database := d']> dbs, Ok ks) ∧
    index_ok d' ∧
    ∀ k s, series d' !! k = Some s ↔
      series d !! k = Some s ∧ ¬ (Series_measurement s = Some p ∧ sat m s (λ _, VNil) e = true).
Proof.
  intros Hdb Hre Hd Hl Hf Hff Hk Ht. pose proof (live_measurement_ok d _ p m Hd Hl) as Hm.
  destruct (walk_spec m e Hm Hf) as (ids & fe & Hw & Hwalk).
  destruct (drop_where_ok dbs database d src p m e ids fe) as (d' & ks & He & Hd' & Hs'); [done..|apply Hwalk| |done|].
  { by eapply walk_field_free. }
  exists d', ks. split; [done|]. split; [done|]. intros k s. rewrite Hs'. split; intros [Hs Hn]; (split; [done|]); intros [Hp Hx];
    apply Hn; (split; [done|]); pose proof (live_member d _ p m k s Hd Hl Hs Hp) as Hin;
    destruct (field_free_selects m _ s (λ _, VNil) e Hm Hin Hf Hff Hk) as [Hsel _]; congruence.
Qed.

(** [DROP SERIES] refuses a condition on a field.  Joined by [OR] with a
    condition on tags the same condition is accepted, and every series of the
    measurement is dropped, whatever the condition on tags is. *)
Theorem DropSeries_or_drops_everything (dbs : gmap string DatabaseIndex) (database : string) (d : DatabaseIndex)
    (src : Source) (p : pointer) (m : Measurement) (op : Token) (v : string) (x r : Expr) :
  dbs !! database = Some d → Source_Regex src = None →
  index_ok d → live d (Source_Name src) p m → seriesIDs m ≠ [] →
  is_cmp op = true → operand x = true → HasField m v = true → is_time_name v = false →
  where_form m r = true → field_free m r = true → HasTimeExpr r = false →
  let l := BinaryExpr op (VarRef v) x in
  let drop e := executeDropSeriesStatement (λ _, true) dbs [src] (Some e) database in
  drop l = (dbs, Err ErrDropFields) ∧
  ∃ d' ks, drop (BinaryExpr OR l r) = (<[database := d']> dbs, Ok ks) ∧
    ∀ k s, series d' !! k = Some s ↔ series d !! k = Some s ∧ Series_measurement s ≠ Some p.
Proof.
  intros Hdb Hre Hd Hl Hne Hop Hx Hv Hvt Hf Hff Ht l drop. pose proof (live_measurement_ok d _ p m Hd Hl) as Hm.
  assert (Hlog : is_logic op = false) by by destruct op.
  assert (Hleaf : leaf_of m (VarRef v) x = LField) by by apply leaf_of_field.
  assert (Htl : HasTimeExpr l = false) by by apply HasTimeExpr_field.
  assert (Hfl : where_form m l = true).
  { simpl. rewrite Hlog, Hleaf, Hop, Hx. by destruct op. }
  split; [by apply (DropSeries_field_refused dbs database d src p m)|].
  assert (Hfo : where_form m (BinaryExpr OR l r) = true) by by apply andb_true_intro.
  destruct (walk_spec m l Hm Hfl) as (lids & lf & El & Wl), (walk_spec m r Hm Hf) as (rids & rf & Er & Wr).
  destruct (walk_spec m _ Hm Hfo) as (ids & fe & Hw & Hwalk).
  destruct (drop_where_ok dbs database d src p m (BinaryExpr OR l r) ids fe) as (d' & ks & He & _ & Hs'); [done..|apply Hwalk| | |].
  { eapply (walk_join_true m OR l r); eauto. by apply (walk_field_free m r rids rf). }
  { change (HasTimeExpr l || HasTimeExpr r = false). by rewrite Htl, Ht. }
  exists d', ks. split; [done|]. intros k s. rewrite Hs'.
  assert (selects m s (BinaryExpr OR l r) = true) as ->; [|naive_solver].
  simpl. rewrite Hlog. unfold leaf_selects. by rewrite Hleaf.
Qed.
End theorems.

(** ** Witnesses *)

Definition prefix_regexp : Regexp := {| MatchString := String.prefix |}.

Definition example_ops : list index_op :=
  [OpField "cpu" "value";
   OpSeries "cpu" "cpu,host=a" {[ "host" := "a" ]};
   OpSeries "cpu" "cpu,host=b" {[ "host" := "b" ]};
   OpSeries "mem" "mem,host=a" {[ "host" := "a" ]};
   OpDropMeasurement "mem";
   OpSeries "cpu" "cpu,host=b,region=x" (<["region" := "x"]> {[ "host" := "b" ]})].
Definition example_index : DatabaseIndex :=
  match run_index (goSort := insertion_GoSort) NewDatabaseIndex example_ops with
  | Ok d => d | _ => NewDatabaseIndex end.
Definition example_cpu : Measurement := default (NewMeasurement "") (objects example_index !! 0%nat).
Definition example_series : Series := default (NewSeries "" ∅) (seriesByID example_cpu !! 2).

Lemma example_index_ok : index_ok example_index.
Proof.
  destruct (run_index_ok (goSort := insertion_GoSort) example_ops NewDatabaseIndex NewDatabaseIndex_ok) as (d & Hd & Hok & _);
    [vm_compute; done|].
  unfold example_index. rewrite Hd. exact Hok.
Qed.
Lemma example_live : live example_index "cpu" 0%nat example_cpu.
Proof. split; vm_compute; reflexivity. Qed.
Lemma example_cpu_ok : measurement_ok example_cpu.
Proof. exact (live_measurement_ok _ _ _ _ example_index_ok example_live). Qed.

Definition on_host (h : string) : Expr := BinaryExpr EQ (VarRef "host") (StringLiteral h).
Definition value_above (n : Z) : Expr := BinaryExpr GT (VarRef "value") (NumberLiteral (f64_of_Z n)).
Definition point_with (n : Z) (v : string) : GoValue :=
  if bool_decide (v = "value") then VFloat (f64_of_Z n) else VNil.

Lemma filters_exact_witness :
  let e := BinaryExpr AND (ParenExpr (BinaryExpr OR (on_host "a") (on_host "b"))) (value_above 5) in
  seriesByID example_cpu !! 2 = Some example_series ∧
  ∃ fe, filters (regexp := prefix_regexp) example_cpu (Some e) = Ok fe ∧
    (returned fe 2 (point_with 7) ↔ sat (regexp := prefix_regexp) example_cpu example_series (point_with 7) e = true).
Proof.
  cbv zeta. assert (Hs : seriesByID example_cpu !! 2 = Some example_series) by (vm_compute; reflexivity).
  split; [exact Hs|]. refine (filters_exact (regexp := prefix_regexp) _ _ _ _ _ example_cpu_ok _ _ _ _ Hs _); vm_compute; reflexivity.
Defined.

Lemma reachable_index_ok_witness :
  Z.of_nat (length example_ops) < 2 ^ 64 ∧
  ∃ d, run_index (goSort := insertion_GoSort) NewDatabaseIndex example_ops = Ok d ∧ index_ok d.
Proof.
  split; [vm_compute; done|]. apply (reachable_index_ok (goSort := insertion_GoSort) example_ops). vm_compute. done.
Defined.

Lemma SeriesIDs_set_operations_witness :
  SeriesIDs_Union [1; 3; 5] [2; 3; 9] = [1; 2; 3; 5; 9] ∧ SeriesIDs_Intersect [1; 3; 5] [2; 3] = [3] ∧
  SeriesIDs_Reject [1; 3; 5] [2; 3; 9] = [1; 5] ∧
  (SeriesIDs_Equals [1; 3; 5] [2; 3; 9] = true ↔ (list_to_set [1; 3; 5] : gset Z) = list_to_set [2; 3; 9]).
Proof.
  split_and!; [vm_compute; reflexivity..|].
  assert (H1 : ids_sorted [1; 3; 5]) by (apply ids_sorted_lt; repeat (constructor; try lia)).
  assert (H2 : ids_sorted [2; 3; 9]) by (apply ids_sorted_lt; repeat (constructor; try lia)).
  destruct (SeriesIDs_set_operations [1; 3; 5] [2; 3; 9] H1 H2) as (_ & _ & _ & H). exact H.
Defined.

Definition example_dbs : gmap string DatabaseIndex := {[ "db0" := example_index ]}.
Definition from_cpu : Source := mkSource "db0" "default" "cpu" None.

Lemma DropSeries_statement_exact_witness :
  (where_form example_cpu (on_host "b") = true ∧ field_free example_cpu (on_host "b") = true ∧
   tags_known example_cpu (on_host "b") = true) ∧
  ∃ d' ks, executeDropSeriesStatement (goSort := insertion_GoSort) (regexp := prefix_regexp) (λ _, true)
    example_dbs [from_cpu] (Some (on_host "b")) "db0" = (<["db0" := d']> example_dbs, Ok ks) ∧ index_ok d' ∧
    ∀ k s, series d' !! k = Some s ↔ series example_index !! k = Some s ∧
      ¬ (Series_measurement s = Some 0%nat ∧ sat (regexp := prefix_regexp) example_cpu s (λ _, VNil) (on_host "b") = true).
Proof.
  split; [vm_compute; done|].
  refine (DropSeries_statement_exact (goSort := insertion_GoSort) (regexp := prefix_regexp) example_dbs "db0"
    example_index from_cpu _ _ _ _ _ example_index_ok example_live _ _ _ _); vm_compute; reflexivity.
Defined.

Lemma DropSeries_or_drops_everything_witness :
  let drop e := executeDropSeriesStatement (goSort := insertion_GoSort) (regexp := prefix_regexp) (λ _, true)
    example_dbs [from_cpu] (Some e) "db0" in
  drop (value_above 5) = (example_dbs, Err ErrDropFields) ∧
  ∃ d' ks, drop (BinaryExpr OR (value_above 5) (on_host "none")) = (<["db0" := d']> example_dbs, Ok ks) ∧
    ∀ k s, series d' !! k = Some s ↔ series example_index !! k = Some s ∧ Series_measurement s ≠ Some 0%nat.
Proof.
  refine (DropSeries_or_drops_everything (goSort := insertion_GoSort) (regexp := prefix_regexp) example_dbs "db0"
    example_index from_cpu _ _ GT "value" (NumberLiteral (f64_of_Z 5)) (on_host "none") _ _ example_index_ok example_live
    _ _ _ _ _ _ _ _); vm_compute; done.
Defined.
