(* ===== verification/TsdbTagProps.v ===== *)
(** * Theorems about tag sets and about conditions that are not comparisons *)

From stdpp Require Import base list strings gmap sets sorting.
From Stdlib Require Import ZArith Lia Ascii.
From S2P Require Import Prelude QlToken QlExpr QlExprProps QlSelect Escape QlPrint TsdbMerge TsdbIndex.
From S2P Require Import TsdbIndexInv TsdbWhere TsdbWhereInv TsdbTags TsdbProps.

Local Open Scope Z_scope.

(** ** [sort.Strings] *)

Abbreviation strings_sorted := (sorted (id : string → string)).

Lemma keys_id_string (l : list string) : keys id l = l.
Proof. apply list_fmap_id. Qed.

Lemma insert_string_perm x l : insert_by String.ltb x l ≡ₚ x :: l.
Proof.
  induction l as [|y l IH]; simpl; [done|]. case_match; [done|]. rewrite IH. by rewrite Permutation_swap.
Qed.

Lemma insert_string_sorted x l : strings_sorted l → x ∉ l → strings_sorted (insert_by String.ltb x l).
Proof.
  induction l as [|y l IH]; intros Hl Hx; simpl.
  { apply sorted_cons. split; [|constructor]. intros k Hk. inversion Hk. }
  pose proof Hl as [Hy Hl']%sorted_cons. rewrite keys_id_string in Hy.
  destruct (String.ltb x y) eqn:E; apply sorted_cons; rewrite keys_id_string; split.
  - intros k [->|Hk]%elem_of_cons; [exact E|]. exact (klt_trans x y k E (Hy k Hk)).
  - done.
  - intros k Hk. rewrite insert_string_perm in Hk. apply elem_of_cons in Hk as [->|Hk]; [|by apply Hy].
    apply klt_lt; [set_solver|exact E].
  - apply IH; set_solver.
Qed.

Lemma sort_Strings_spec l : NoDup l → sort_Strings l ≡ₚ l ∧ strings_sorted (sort_Strings l).
Proof.
  intros Hl. unfold sort_Strings, insertion_sort.
  assert (H : ∀ acc, NoDup (l ++ acc) → strings_sorted acc →
    foldl (λ acc x, insert_by String.ltb x acc) acc l ≡ₚ l ++ acc ∧
    strings_sorted (foldl (λ acc x, insert_by String.ltb x acc) acc l)).
  { clear Hl. induction l as [|x l IH]; intros acc Hnd Hacc; [done|]. simpl in *.
    apply NoDup_cons in Hnd as [Hx Hnd].
    destruct (IH (insert_by String.ltb x acc)) as [Hp Hs].
    - rewrite insert_string_perm. rewrite <- Permutation_middle. by apply NoDup_cons.
    - apply insert_string_sorted; [done|]. set_solver.
    - split; [|done]. rewrite Hp, insert_string_perm. by rewrite <- Permutation_middle. }
  rewrite <- (app_nil_r l) at 2. apply H; [by rewrite app_nil_r|constructor].
Qed.

(** The order of the keys of a map depends on the set of keys only. *)
Lemma sorted_keys_dom (t u : tags) :
  dom t = dom u → sort_Strings (fst <$> map_to_list t) = sort_Strings (fst <$> map_to_list u).
Proof.
  intros Hdom. destruct (sort_Strings_spec (fst <$> map_to_list t)) as [Hp1 Hs1]; [apply NoDup_fst_map_to_list|].
  destruct (sort_Strings_spec (fst <$> map_to_list u)) as [Hp2 Hs2]; [apply NoDup_fst_map_to_list|].
  rewrite <- (keys_id_string (sort_Strings _)). rewrite <- (keys_id_string (sort_Strings (fst <$> map_to_list u))).
  apply sorted_keys_unique; [done..|]. intros k. rewrite !keys_id_string, Hp1, Hp2.
  assert (Hin : ∀ v : tags, k ∈ fst <$> map_to_list v ↔ k ∈ dom v).
  { intros v. rewrite elem_of_dom, list_elem_of_fmap. split.
    - intros ([k' x] & -> & ?%elem_of_map_to_list). eauto.
    - intros [x Hx]. exists (k, x). by rewrite elem_of_map_to_list. }
  by rewrite !Hin, Hdom.
Qed.

(** ** [MarshalTags] *)

Fixpoint bar_free (s : string) : bool :=
  match s with EmptyString => true | String c s => negb (bool_decide (c = "|"%char)) && bar_free s end.

Lemma append_inj_l a b c : a +:+ b = a +:+ c → b = c.
Proof. apply String.app_inj. Qed.

Lemma append_cons c s t : String c s +:+ t = String c (s +:+ t).
Proof. done. Qed.

(** Text before the first bar. *)
Lemma before_bar a b s t :
  bar_free a = true → bar_free b = true → a +:+ bar +:+ s = b +:+ bar +:+ t → a = b ∧ s = t.
Proof.
  revert b. induction a as [|c a IH]; intros [|c' b] Ha Hb H; cbn [bar_free] in *.
  - split; [done|]. by injection H.
  - exfalso. rewrite append_cons in H. injection H as <- _. apply andb_prop in Hb as [Hb _]. vm_compute in Hb. done.
  - exfalso. rewrite append_cons in H. injection H as -> _. apply andb_prop in Ha as [Ha _]. vm_compute in Ha. done.
  - rewrite !append_cons in H. injection H as -> H. apply andb_prop in Ha as [_ Ha], Hb as [_ Hb].
    by destruct (IH b Ha Hb H) as [-> ->].
Qed.

Lemma join_values_inj l l' :
  length l = length l' → Forall (λ v, bar_free v = true) l → Forall (λ v, bar_free v = true) l' →
  join_values l = join_values l' → l = l'.
Proof.
  revert l'. induction l as [|v l IH]; intros [|v' l'] Hlen Hl Hl' H; try done.
  injection Hlen as Hlen. apply Forall_cons in Hl as [Hv Hl], Hl' as [Hv' Hl'].
  destruct l as [|w l], l' as [|w' l']; try done.
  - cbn in H. by rewrite H.
  - change (v +:+ bar +:+ join_values (w :: l) = v' +:+ bar +:+ join_values (w' :: l')) in H.
    apply before_bar in H as [-> H]; [|done..]. f_equal. by apply IH.
Qed.

(** Two tag sets over the same keys have the same key as a group exactly when they
    are equal, provided no value holds the separator; with it different tag
    sets can have the same key. *)
Theorem MarshalTags_injective (t u : tags) :
  dom t = dom u → (∀ k v, t !! k = Some v → bar_free v = true) → (∀ k v, u !! k = Some v → bar_free v = true) →
  MarshalTags t = MarshalTags u → t = u.
Proof.
  intros Hdom Ht Hu H. unfold MarshalTags in H. rewrite (sorted_keys_dom t u Hdom) in H.
  apply append_inj_l in H. set (ks := sort_Strings (fst <$> map_to_list u)) in *.
  assert (Hval : ∀ w : tags, (∀ k v, w !! k = Some v → bar_free v = true) →
    Forall (λ v, bar_free v = true) ((λ k, default EmptyString (w !! k)) <$> ks)).
  { intros w Hw. apply Forall_forall. intros v (k & -> & _)%list_elem_of_fmap. destruct (w !! k) eqn:E; simpl; eauto. }
  apply join_values_inj in H; [|by rewrite !length_fmap|by apply Hval..].
  apply map_eq. intros k. destruct (u !! k) as [v|] eqn:Hk.
  - assert (Hin : k ∈ ks).
    { destruct (sort_Strings_spec (fst <$> map_to_list u)) as [Hp _]; [apply NoDup_fst_map_to_list|].
      unfold ks. rewrite Hp. apply list_elem_of_fmap. exists (k, v). by rewrite elem_of_map_to_list. }
    apply list_elem_of_lookup in Hin as [j Hj].
    apply (f_equal (lookup j)) in H. rewrite !list_lookup_fmap, Hj in H. simpl in H. rewrite Hk in H. simpl in H.
    assert (is_Some (t !! k)) as [w Hw] by (apply elem_of_dom; rewrite Hdom; apply elem_of_dom; eauto).
    rewrite Hw in H |- *. simpl in H. congruence.
  - apply not_elem_of_dom in Hk. apply not_elem_of_dom. by rewrite Hdom.
Qed.

(** A separator in the values of tags: [GROUP BY a, b] puts a series with the
    tags [x|y] and [z] and one with [x] and [y|z] into one group, under the tags
    of the one that comes first. *)
Definition barred_index : DatabaseIndex :=
  match run_index (goSort := insertion_GoSort) NewDatabaseIndex
    [OpSeries "cpu" "cpu,a=x|y,b=z" (<["a" := "x|y"]> {[ "b" := "z" ]});
     OpSeries "cpu" "cpu,a=x,b=y|z" (<["a" := "x"]> {[ "b" := "y|z" ]})]
  with Ok d => d | _ => NewDatabaseIndex end.
Example TagSets_merges_barred_values :
  MarshalTags (<["a" := "x|y"]> {[ "b" := "z" ]}) = MarshalTags (<["a" := "x"]> {[ "b" := "y|z" ]}) ∧
  (TagSet_SeriesKeys <$> match m ← index_Measurement barred_index "cpu";
      match TagSets (regexp := prefix_regexp) m None ["a"; "b"] with Ok l => Some l | _ => None end
    with Some l => l | None => [] end) = [["cpu,a=x,b=y|z"; "cpu,a=x|y,b=z"]].
Proof. vm_compute. done. Qed.

Section odd_conditions.
Context {goSort : GoSort} {regexp : Regexp}.

(** Arithmetic on a field is taken for a condition without filters: selecting
    with it writes into a nil map, and dropping with it drops every series. *)
Theorem arithmetic_condition (dbs : gmap string DatabaseIndex) (database : string) (d : DatabaseIndex)
    (src : Source) (p : pointer) (m : Measurement) (op : Token) (v : string) (x : Expr) :
  dbs !! database = Some d → Source_Regex src = None →
  index_ok d → live d (Source_Name src) p m → seriesIDs m ≠ [] → is_arith op = true →
  HasField m v = true → is_time_name v = false → operand x = true →
  let e := BinaryExpr op (VarRef v) x in
  filters m (Some e) = Panic ∧
  ∃ d' ks, executeDropSeriesStatement (λ _, true) dbs [src] (Some e) database = (<[database := d']> dbs, Ok ks) ∧
    ∀ k s, series d' !! k = Some s ↔ series d !! k = Some s ∧ Series_measurement s ≠ Some p.
Proof.
  intros Hdb Hre Hd Hl Hne Hop Hv Hvt Hx e. pose proof (live_measurement_ok d _ p m Hd Hl) as Hm.
  assert (Hw : walkWhereForSeriesIds m e = Ok (seriesIDs m, None)).
  { pose proof (leaf_of_field m v x Hv Hvt Hx) as Hleaf. unfold e. simpl.
    assert (is_comparison op = false) as -> by by destruct op.
    assert (bool_decide (op = AND) || bool_decide (op = OR) = false) as -> by by destruct op.
    unfold leaf_of in Hleaf. unfold idsForExpr. simpl in *. destruct (_ || _); [done|]. by destruct (HasField m v). }
  assert (Ht : HasTimeExpr e = false) by (unfold e; destruct op; try discriminate Hop; exact Hvt).
  split.
  - unfold filters. assert (OnlyTimeExpr e = false) as -> by (unfold e; destruct op; try discriminate Hop; exact Hvt).
    rewrite Hw. simpl. by destruct (seriesIDs m).
  - rewrite (drop_statement_single dbs database d src p m e) by done.
    cbn [series_to_drop]. rewrite Hw. cbn.
    destruct (keys_of_ids_spec m (seriesIDs m)) as (ks & -> & Hks); [intros i; apply (mo_ids m Hm)|]. cbn.
    destruct (DropSeries_ok ks d Hd) as (d' & -> & _ & _ & _ & Hs').
    exists d', ks. split; [done|]. intros k s. rewrite Hs'.
    assert (Hk : series d !! k = Some s → k ∈ ks ↔ Series_measurement s = Some p).
    { intros Hs. rewrite Hks. split.
      - intros (i & s' & _ & Hin & HK). destruct (ix_members d Hd _ _ _ _ _ Hl Hin) as [Hk' ?].
        rewrite HK, Hs in Hk'. by injection Hk' as ->.
      - intros Hp. pose proof (live_member d _ p m k s Hd Hl Hs Hp) as Hin.
        exists (Series_id s), s. split; [apply (mo_ids m Hm); eauto|]. split; [done|]. by apply (ix_series d Hd). }
    case_decide; naive_solver.
Qed.
End odd_conditions.

(** A series without a tag satisfies [!=] on it once another series has the
    tag, and not before. *)
Example unknown_tag_inequality :
  let e := BinaryExpr NEQ (VarRef "host") (StringLiteral "a") in
  let ids ops := match run_index (goSort := insertion_GoSort) NewDatabaseIndex ops with
    | Ok d => match index_Measurement d "cpu" with
              | Some m => match walkWhereForSeriesIds (regexp := prefix_regexp) m e with Ok (ids, _) => ids | _ => [] end
              | None => [] end
    | _ => [] end in
  ids [OpSeries "cpu" "cpu" ∅] = [] ∧
  ids [OpSeries "cpu" "cpu" ∅; OpSeries "cpu" "cpu,host=a" {[ "host" := "a" ]}] = [1].
Proof. vm_compute. done. Qed.

(** The name of a measurement with a comma is cut at the comma, which the key
    holds escaped: after loading, the series is found under another name than
    the one it was written with. *)
Theorem MeasurementFromSeriesKey_escaped_comma (a b rest : string) :
  MeasurementFromSeriesKey (escape_String codesStr (a +:+ "," +:+ b) +:+ "," +:+ rest) ≠ escape_String codesStr (a +:+ "," +:+ b).
Proof.
  intros Hcut.
  assert (Hno : ∀ s t, MeasurementFromSeriesKey (s +:+ String "," t) = s → MeasurementFromSeriesKey s = s).
  { induction s as [|c s IH]; intros t; [done|]. rewrite append_cons. cbn [MeasurementFromSeriesKey].
    case_bool_decide; [done|]. intros [= Hs]. by rewrite (IH t Hs). }
  apply Hno in Hcut. rewrite escape_String_esc in Hcut by done.
  assert (Hcomma : ∀ s t, MeasurementFromSeriesKey (esc Codes (s +:+ String "," t)) ≠ esc Codes (s +:+ String "," t)).
  { clear. intros s t. induction s as [|c s IH].
    - intros H. vm_compute in H. discriminate H.
    - rewrite append_cons. cbn [esc]. destruct (bool_decide (c ∈ Codes)); cbn [MeasurementFromSeriesKey].
      + intros H. destruct (bool_decide (backslash = ","%char)); [done|]. injection H as H.
        destruct (bool_decide (c = ","%char)); [done|]. injection H as H. by apply IH.
      + destruct (bool_decide (c = ","%char)); [done|]. intros [= H]. by apply IH. }
  by apply Hcomma in Hcut.
Qed.
