(* ===== verification/TsdbSelect.v ===== *)
(** * Select statements on the index: [tsdb/meta.go]

    The fields, tags and groups that a select statement asks of a measurement,
    and the expansion of its wildcards. *)

From stdpp Require Import base list strings gmap sets sorting.
From Stdlib Require Import ZArith Lia.
From S2P Require Import Prelude QlToken QlExpr QlSelect Escape QlPrint TsdbMerge TsdbIndex TsdbWhere.
From S2P Require Import TsdbTags TsdbTagProps.

Local Open Scope Z_scope.

(** A loop that adds the names with a property to a set. *)
Definition add_names (P : string → bool) (names : list string) : gset string :=
  foldl (λ set name, if P name then {[name]} ∪ set else set) ∅ names.

Definition SelectFields (m : Measurement) (s : SelectStatement) : list string :=
  stringSet_list (add_names (HasField m) (NamesInSelect s)).
Definition SelectTags (m : Measurement) (s : SelectStatement) : list string :=
  stringSet_list (add_names (λ n, negb (HasField m n) && HasTagKey m n) (NamesInSelect s)).
Definition WhereFields (m : Measurement) (s : SelectStatement) : list string :=
  stringSet_list (add_names (λ n, negb (bool_decide (n = "time")) && HasField m n) (NamesInWhere s)).

Definition Measurements_SelectFields (a : Measurements) (s : SelectStatement) : list string :=
  stringSet_list (add_names (λ n, existsb (λ m, HasField m n) a) (NamesInSelect s)).
Definition Measurements_SelectTags (a : Measurements) (s : SelectStatement) : list string :=
  stringSet_list (add_names (λ n, existsb (λ m, negb (HasField m n) && HasTagKey m n) a) (NamesInSelect s)).
Definition Measurements_WhereFields (a : Measurements) (s : SelectStatement) : list string :=
  stringSet_list (add_names (λ n, existsb (λ m, negb (bool_decide (n = "time")) && HasField m n) a) (NamesInWhere s)).

(** The first dimension that is a field. *)
Definition ValidateGroupBy (m : Measurement) (s : SelectStatement) : outcome string unit :=
  match filter (λ d, match d with VarRef v => HasField m v | _ => false end = true) (Dimensions s) with
  | VarRef v :: _ => Err v
  | _ => Ok tt
  end.

Section select.
Context {goSort : GoSort} {regexp : Regexp}.

Definition DimensionTagSets (m : Measurement) (s : SelectStatement) : whereE (list TagSet) :=
  match Normalize (Dimensions s) with
  | Ok (_, tagKeys) => TagSets m (Condition s) (tagKeys ++ filter (λ n, HasTagKey m n = true) (NamesInDimension s))
  | _ => Panic
  end.

(** Names that are not in the set yet, as references at the end. *)
Definition add_refs (acc : gset string * list string) (names : list string) : gset string * list string :=
  foldl (λ acc n, if decide (n ∈ acc.1) then acc else ({[n]} ∪ acc.1, acc.2 ++ [n])) acc names.

(** The loop over the sources; [None] when a measurement is not in the index. *)
Fixpoint expand_names (d : DatabaseIndex) (fieldWildcard dimensionWildcard : bool) (sources : list Source)
    (fields dims : gset string * list string) : option (list string * list string) :=
  match sources with
  | [] => Some (fields.2, dims.2)
  | src :: sources =>
      match index_Measurement d (Source_Name src) with
      | None => None
      | Some mm =>
          let fields := add_refs fields (FieldNames mm) in
          let fields := if fieldWildcard && negb dimensionWildcard then add_refs fields (TagKeys mm) else fields in
          let dims := if dimensionWildcard then add_refs dims (TagKeys mm) else dims in
          expand_names d fieldWildcard dimensionWildcard sources fields dims
      end
  end.

Definition ExpandWildcards (d : DatabaseIndex) (s : SelectStatement) : exprE SelectStatement :=
  if negb (HasWildcard s) then Ok s
  else match expand_names d (HasFieldWildcard s) (HasDimensionWildcard s) (Sources s) (∅, []) (∅, []) with
       | None => Ok s
       | Some (fields, dims) => RewriteWildcards s ((λ n, mkField (VarRef n) EmptyString) <$> fields) (VarRef <$> dims)
       end.

Definition set_sources (s : SelectStatement) (sources : list Source) : SelectStatement :=
  mkSelect (Fields s) (Target s) (Dimensions s) sources (Condition s) (SortFields s) (Limit s) (Offset s)
    (SLimit s) (SOffset s) (groupByInterval s) (IsRawQuery s) (Fill s) (FillValue s).
Definition RewriteSelectStatement (d : DatabaseIndex) (s : SelectStatement) : exprE SelectStatement :=
  let! s := ExpandWildcards d (set_sources s (ExpandSources d (Sources s))) in
  Ok (RewriteDistinct s).
End select.

(** ** Theorems *)

Lemma elem_of_add_names P names n : n ∈ add_names P names ↔ n ∈ names ∧ P n = true.
Proof.
  unfold add_names. assert (H : ∀ acc : gset string,
    n ∈ foldl (λ set name, if P name then {[name]} ∪ set else set) acc names ↔ n ∈ acc ∨ (n ∈ names ∧ P n = true)).
  { induction names as [|x names IH]; intros acc; cbn [foldl]; [set_solver|].
    rewrite IH, elem_of_cons. destruct (decide (n = x)) as [->|Hne].
    - destruct (P x) eqn:E; [rewrite elem_of_union, elem_of_singleton; tauto|].
      split; [intros [?|[_ ?]]; [by left|done]|intros [?|[_ ?]]; [by left|done]].
    - destruct (P x) eqn:E; [rewrite elem_of_union, elem_of_singleton|]; tauto. }
  rewrite H. set_solver.
Qed.

Lemma elem_of_stringSet_list s n : n ∈ stringSet_list s ↔ n ∈ s.
Proof.
  unfold stringSet_list. destruct (sort_Strings_spec (elements s)) as [Hp _]; [apply NoDup_elements|].
  rewrite Hp. apply elem_of_elements.
Qed.

(** The fields a statement selects are those of its names that are fields of the
    measurement, the tags those that are tags only, both once and in order; and
    no name is both. *)
Theorem SelectFields_SelectTags (m : Measurement) (s : SelectStatement) :
  (∀ n, n ∈ SelectFields m s ↔ n ∈ NamesInSelect s ∧ HasField m n = true) ∧
  (∀ n, n ∈ SelectTags m s ↔ n ∈ NamesInSelect s ∧ HasField m n = false ∧ HasTagKey m n = true) ∧
  strings_sorted (SelectFields m s) ∧ strings_sorted (SelectTags m s).
Proof.
  unfold SelectFields, SelectTags. split_and!.
  - intros n. by rewrite elem_of_stringSet_list, elem_of_add_names.
  - intros n. rewrite elem_of_stringSet_list, elem_of_add_names, andb_true_iff, negb_true_iff. done.
  - apply sort_Strings_spec, NoDup_elements.
  - apply sort_Strings_spec, NoDup_elements.
Qed.

(** Each name once. *)
Lemma add_refs_spec acc names :
  NoDup acc.2 → (∀ n, n ∈ acc.1 ↔ n ∈ acc.2) →
  NoDup (add_refs acc names).2 ∧ ∀ n, n ∈ (add_refs acc names).2 ↔ n ∈ acc.2 ∨ n ∈ names.
Proof.
  revert acc. induction names as [|x names IH]; intros acc Hnd Heq; [split; [done|set_solver]|].
  unfold add_refs in *. cbn [foldl]. case_decide as Hx.
  - destruct (IH acc Hnd Heq) as [? Hn]. split; [done|]. intros n. rewrite Hn. set_solver.
  - destruct (IH ({[x]} ∪ acc.1, acc.2 ++ [x])) as [? Hn]; simpl.
    + apply NoDup_app. split; [done|]. split; [|apply NoDup_singleton]. set_solver.
    + set_solver.
    + split; [done|]. intros n. rewrite Hn. simpl. set_solver.
Qed.

(** A statement with only [SELECT *] on one measurement is given each field and
    each tag of the measurement once. *)
Theorem ExpandWildcards_all_names (d : DatabaseIndex) (mm : Measurement) (src : Source) :
  index_Measurement d (Source_Name src) = Some mm →
  ∃ fields, expand_names d true false [src] (∅, []) (∅, []) = Some (fields, []) ∧ NoDup fields ∧
    ∀ n, n ∈ fields ↔ n ∈ FieldNames mm ∨ n ∈ TagKeys mm.
Proof.
  intros H. simpl. rewrite H. eexists. split; [reflexivity|].
  destruct (add_refs_spec (∅, []) (FieldNames mm)) as [H1 H2]; [constructor|set_solver|].
  destruct (add_refs_spec (add_refs (∅, []) (FieldNames mm)) (TagKeys mm)) as [H3 H4]; [done| |].
  - clear. intros n. generalize (FieldNames mm). intros names.
    assert (∀ acc : gset string * list string, (∀ n, n ∈ acc.1 ↔ n ∈ acc.2) →
      ∀ n, n ∈ (add_refs acc names).1 ↔ n ∈ (add_refs acc names).2) as Hacc; [|apply Hacc; set_solver].
    induction names as [|x names IH]; intros acc Hacc; [done|]. unfold add_refs in *. cbn [foldl].
    apply IH. case_decide; [done|]. simpl. set_solver.
  - split; [done|]. intros n. rewrite H4, H2. simpl. set_solver.
Qed.

(** ** Rewriting *)

Section rewriting.
Context {goSort : GoSort} {regexp : Regexp}.

Lemma expand_names_found d fw dw sources fields dims :
  (∀ src, src ∈ sources → is_Some (index_Measurement d (Source_Name src))) →
  is_Some (expand_names d fw dw sources fields dims).
Proof.
  revert fields dims. induction sources as [|src sources IH]; intros fields dims H; [by eexists|].
  simpl. destruct (H src) as [mm ->]; [set_solver|]. apply IH. set_solver.
Qed.

Lemma rewrite_fields_plain fs supplied :
  existsb (is_Wildcard ∘ Field_Expr) supplied = false →
  existsb (is_Wildcard ∘ Field_Expr) (rewrite_fields fs supplied) = false.
Proof.
  revert supplied. induction fs as [|f fs IH]; intros supplied H; [done|]. simpl.
  destruct (is_Wildcard (Field_Expr f)) eqn:E; simpl.
  - assert (Hs : existsb (is_Wildcard ∘ Field_Expr) (sort_Sort Fields_Less supplied) = false).
    { apply not_true_iff_false. intros (g & Hg & Hw)%existsb_exists. apply not_true_iff_false in H. apply H, existsb_exists.
      exists g. split; [|done]. apply list_elem_of_In. apply list_elem_of_In in Hg. by rewrite sort_perm in Hg. }
    rewrite existsb_app, Hs. by apply IH.
  - rewrite E. by apply IH.
Qed.

Lemma rewrite_dimensions_plain ds supplied :
  existsb is_Wildcard supplied = false → existsb is_Wildcard (rewrite_dimensions ds supplied) = false.
Proof.
  intros H. induction ds as [|d ds IH]; [done|].
  change (rewrite_dimensions (d :: ds) supplied) with ((if is_Wildcard d then supplied else [d]) ++ rewrite_dimensions ds supplied).
  rewrite existsb_app, IH. destruct (is_Wildcard d) eqn:E; [by rewrite H|]. simpl. by rewrite E.
Qed.

Lemma RewriteDistinct_plain s :
  HasFieldWildcard (RewriteDistinct s) = HasFieldWildcard s ∧
  ∀ f v, f ∈ Fields (RewriteDistinct s) → Field_Expr f ≠ Distinct v.
Proof.
  unfold HasFieldWildcard, RewriteDistinct. simpl. split.
  - induction (Fields s) as [|f fs IH]; [done|]. rewrite fmap_cons. cbn [existsb]. rewrite IH. by destruct f as [[] ?].
  - intros f v (g & -> & _)%list_elem_of_fmap. destruct g as [e a]. by destruct e.
Qed.

(** Once a statement that can be cloned is rewritten for a shard that knows its
    measurements, no wildcard and no [DISTINCT] is left in it. *)
Theorem RewriteSelectStatement_expands (d : DatabaseIndex) (s other : SelectStatement) :
  Select_Clone s = Ok other →
  (∀ src, src ∈ ExpandSources d (Sources s) → is_Some (index_Measurement d (Source_Name src))) →
  ∃ s', RewriteSelectStatement d s = Ok s' ∧ HasWildcard s' = false ∧
    ∀ f v, f ∈ Fields s' → Field_Expr f ≠ Distinct v.
Proof.
  intros Hc Hsrc. unfold RewriteSelectStatement, ExpandWildcards.
  set (s0 := set_sources s _). destruct (HasWildcard s0) eqn:Hw; cbn [negb].
  2: { eexists. split; [reflexivity|]. destruct (RewriteDistinct_plain s0) as [H ?]. split; [|done].
       unfold HasWildcard in *. rewrite H. exact Hw. }
  destruct (expand_names_found d (HasFieldWildcard s0) (HasDimensionWildcard s0) (Sources s0) (∅, []) (∅, []) Hsrc)
    as [[fields dims] ->].
  assert (Hc0 : ∃ o, Select_Clone s0 = Ok o).
  { revert Hc. unfold Select_Clone, s0. cbn [Condition Fields Dimensions set_sources].
    destruct (match Condition s with Some _ => _ | None => _ end); [|done..].
    destruct (outcome_list CloneExpr (Field_Expr <$> Fields s)); [|done..].
    destruct (outcome_list CloneExpr (Dimensions s)); [eauto|done..]. }
  destruct Hc0 as [o Ho]. unfold RewriteWildcards. rewrite Ho. cbn [outcome_bind].
  eexists. split; [reflexivity|]. set (s1 := set_fields o _ _ _).
  destruct (RewriteDistinct_plain s1) as [H ?]. split; [|done]. unfold HasWildcard. rewrite H.
  apply orb_false_iff. split; unfold HasFieldWildcard, HasDimensionWildcard; simpl.
  - apply rewrite_fields_plain. clear. by induction fields.
  - assert (Hd : existsb is_Wildcard (VarRef <$> dims) = false) by (clear; by induction dims).
    destruct (_ && _); [rewrite existsb_app, Hd, orb_false_r|]; by apply rewrite_dimensions_plain.
Qed.
End rewriting.
