(* ===== verification/TsdbLock.v ===== *)
(** * The lock of a measurement: [tsdb/meta.go]

    [TagSets] holds the read lock of the measurement while it walks the
    condition, and the walk calls [HasField], which takes the read lock again.
    Writers are [AddSeries], [DropSeries] and [SetFieldName].  The model is of
    goroutines that call these methods, interleaved in every way. *)

From stdpp Require Import base list relations.
From Stdlib Require Import Lia.
From S2P Require Import Prelude.

(** ** [sync.RWMutex]

    A call of [Lock] first announces itself, and from then on [RLock] blocks;
    it acquires the lock when the readers are gone. *)

Inductive action := RLock | RUnlock | Lock | Acquire | Unlock.

#[export] Instance action_eq_dec : EqDecision action.
Proof. solve_decision. Defined.

Record RWMutex := mkRW { readers : nat; writing : bool; pending : nat }.

Definition act (a : action) (x : RWMutex) : option RWMutex :=
  match a with
  | RLock => if negb (writing x) && (pending x =? 0) then Some (mkRW (S (readers x)) (writing x) (pending x)) else None
  | RUnlock => match readers x with S n => Some (mkRW n (writing x) (pending x)) | O => None end
  | Lock => Some (mkRW (readers x) (writing x) (S (pending x)))
  | Acquire =>
      match pending x with
      | S n => if (readers x =? 0) && negb (writing x) then Some (mkRW 0 true n) else None
      | O => None
      end
  | Unlock => if writing x then Some (mkRW (readers x) false (pending x)) else None
  end.

(** ** Goroutines *)

(** What is left of a call. *)
Abbreviation program := (list action).

Definition HasField_locks : program := [RLock; RUnlock].
Definition SetFieldName_locks : program := [Lock; Acquire; Unlock].
Definition AddSeries_locks : program := [Lock; Acquire; Unlock].
Definition DropSeries_locks : program := [Lock; Acquire; Unlock].
(** [TagSets] with [n] comparisons in its condition: each asks [HasField]. *)
Definition TagSets_locks (n : nat) : program := [RLock] ++ concat (replicate n HasField_locks) ++ [RUnlock].

Abbreviation state := (RWMutex * list program)%type.

Inductive lock_step : state → state → Prop :=
| lock_step_intro x x' ps i a p :
    ps !! i = Some (a :: p) → act a x = Some x' → lock_step (x, ps) (x', <[i := p]> ps).

Definition unlocked : RWMutex := mkRW 0 false 0.
Definition finished (ps : list program) : Prop := Forall (λ p, p = []) ps.

(** Nobody can go on, though somebody has not finished. *)
Definition deadlocked (s : state) : Prop := ¬ finished s.2 ∧ ∀ s', ¬ lock_step s s'.

(** ** Calls that lock once *)

(** Where a call of a method that takes the lock once can be. *)
Definition flat (p : program) : Prop :=
  p = [] ∨ p = [RLock; RUnlock] ∨ p = [RUnlock] ∨ p = [Lock; Acquire; Unlock] ∨ p = [Acquire; Unlock] ∨ p = [Unlock].

Definition count (p : program) (ps : list program) : nat := length (filter (λ q, q = p) ps).

Record flat_ok (s : state) : Prop := {
  fl_flat : Forall flat s.2;
  fl_readers : readers s.1 = count [RUnlock] s.2;
  fl_writing : (if writing s.1 then 1 else 0) = count [Unlock] s.2;
  fl_pending : pending s.1 = count [Acquire; Unlock] s.2
}.

Lemma count_insert ps i q p r :
  ps !! i = Some q → count r (<[i := p]> ps) + (if decide (q = r) then 1 else 0) = count r ps + (if decide (p = r) then 1 else 0).
Proof.
  revert i. unfold count. induction ps as [|y ps IH]; intros [|i] H; simplify_eq/=.
  - rewrite !filter_cons. repeat case_decide; simpl; lia.
  - rewrite !filter_cons. specialize (IH i H). repeat case_decide; simpl in *; lia.
Qed.

Lemma count_pos p ps : 0 < count p ps → ∃ i, ps !! i = Some p.
Proof.
  unfold count. intros H. destruct (filter (λ q, q = p) ps) as [|q l] eqn:E; [simpl in H; lia|].
  assert (Hq : q ∈ filter (λ q, q = p) ps) by (rewrite E; constructor).
  apply list_elem_of_filter in Hq as [-> Hq]. by apply list_elem_of_lookup in Hq.
Qed.

Lemma flat_ok_step s s' : flat_ok s → lock_step s s' → flat_ok s'.
Proof.
  intros [Hf Hr Hw Hp] Hstep. destruct Hstep as [x x' ps i a p Hi Ha]. simpl in *.
  pose proof (λ r, count_insert ps i (a :: p) p r Hi) as Hc.
  pose proof (Forall_lookup_1 _ _ _ _ Hf Hi) as Hfl.
  pose proof (Hc [RUnlock]) as C1. pose proof (Hc [Unlock]) as C2. pose proof (Hc [Acquire; Unlock]) as C3.
  assert (flat p ∧ readers x' = count [RUnlock] (<[i:=p]> ps) ∧
    (if writing x' then 1 else 0) = count [Unlock] (<[i:=p]> ps) ∧
    pending x' = count [Acquire; Unlock] (<[i:=p]> ps)) as (Hp' & ? & ? & ?).
  { destruct x as [r [] q]; simpl in *;
      destruct Hfl as [?|[?|[?|[?|[?|?]]]]]; simplify_eq/=; repeat case_decide; simplify_eq/=;
      repeat case_match; simplify_eq/=; (split; [unfold flat; tauto|]); rewrite ?andb_true_iff, ?Nat.eqb_eq in *; simpl; lia. }
  split; simpl; [|done..]. by apply Forall_insert.
Qed.

(** A goroutine that has not finished leaves some goroutine that can go on. *)
Lemma flat_progress s : flat_ok s → ¬ finished s.2 → ∃ s', lock_step s s'.
Proof.
  destruct s as [[r w q] ps]. intros [Hf Hr Hw Hp] Hnf. simpl in *.
  assert (Hgo : ∀ i a p, ps !! i = Some (a :: p) → is_Some (act a (mkRW r w q)) → ∃ s', lock_step (mkRW r w q, ps) s').
  { intros i a p Hi [x' Hx]. eexists. by econstructor. }
  destruct w.
  { destruct (count_pos [Unlock] ps) as [i Hi]; [lia|]. apply (Hgo i _ _ Hi). eexists; reflexivity. }
  destruct r as [|r]; [|destruct (count_pos [RUnlock] ps) as [i Hi]; [lia|]; apply (Hgo i _ _ Hi); eexists; reflexivity].
  destruct q as [|q]; [|destruct (count_pos [Acquire; Unlock] ps) as [i Hi]; [lia|]; apply (Hgo i _ _ Hi); eexists; reflexivity].
  apply not_Forall_Exists in Hnf; [|apply _].
  apply Exists_exists in Hnf as (p & Hin & Hne). apply list_elem_of_lookup in Hin as [i Hi].
  pose proof (Forall_lookup_1 _ _ _ _ Hf Hi) as Hfl.
  destruct Hfl as [->|[->|[->|[->|[->| ->]]]]]; [by destruct Hne|..].
  - apply (Hgo i _ _ Hi). eexists; reflexivity.
  - exfalso. pose proof (count_insert ps i [RUnlock] [] [RUnlock] Hi) as C. simpl in C. repeat case_decide; simplify_eq; lia.
  - apply (Hgo i _ _ Hi). eexists; reflexivity.
  - exfalso. pose proof (count_insert ps i [Acquire; Unlock] [] [Acquire; Unlock] Hi) as C. simpl in C. repeat case_decide; simplify_eq; lia.
  - exfalso. pose proof (count_insert ps i [Unlock] [] [Unlock] Hi) as C. simpl in C. repeat case_decide; simplify_eq; lia.
Qed.

(** ** Theorems *)

Lemma flat_ok_start ps : Forall (λ p, p = HasField_locks ∨ p = SetFieldName_locks) ps → flat_ok (unlocked, ps).
Proof.
  intros Hps. assert (Hcount : ∀ r, r ≠ HasField_locks → r ≠ SetFieldName_locks → count r ps = 0).
  { intros r H1 H2. unfold count. induction Hps as [|p ps Hp Hps IH]; [done|]. rewrite filter_cons.
    case_decide; [destruct Hp; congruence|done]. }
  split; simpl; [|by rewrite Hcount..]. eapply Forall_impl; [exact Hps|]. unfold flat. intros p [->| ->]; tauto.
Qed.

Lemma flat_ok_reach s s' : flat_ok s → rtc lock_step s s' → flat_ok s'.
Proof. intros H Hr. induction Hr as [|s1 s2 s3 Hstep _ IH]; eauto using flat_ok_step. Qed.

Lemma single_locks_progress ps s :
  Forall (λ p, p = HasField_locks ∨ p = SetFieldName_locks) ps →
  rtc lock_step (unlocked, ps) s → ¬ deadlocked s.
Proof.
  intros Hps Hreach [Hnf Hstuck]. pose proof (flat_ok_reach _ _ (flat_ok_start ps Hps) Hreach) as Hok.
  destruct (flat_progress s Hok Hnf) as [s' Hs]. by apply (Hstuck s').
Qed.

(** Any number of goroutines that call methods taking the lock of a
    measurement once never deadlock.  A query can deadlock with a single writer:
    [TagSets] holds the read lock, the writer announces itself, and the call of
    [HasField] for the first comparison of the condition waits for the writer,
    which waits for [TagSets]. *)
Theorem TagSets_deadlocks :
  (∀ ps s, Forall (λ p, p = HasField_locks ∨ p = SetFieldName_locks) ps →
     rtc lock_step (unlocked, ps) s → ¬ deadlocked s) ∧
  (∀ n, ∃ s, rtc lock_step (unlocked, [TagSets_locks (S n); SetFieldName_locks]) s ∧ deadlocked s).
Proof.
  split; [exact single_locks_progress|]. intros n.
  exists (mkRW 1 false 1, [tail (TagSets_locks (S n)); [Acquire; Unlock]]). split.
  - eapply rtc_l; [apply (lock_step_intro _ (mkRW 1 false 0) _ 0 RLock (tail (TagSets_locks (S n)))); done|].
    eapply rtc_l; [apply (lock_step_intro _ (mkRW 1 false 1) _ 1 Lock [Acquire; Unlock]); done|]. apply rtc_refl.
  - split; [intros H; by apply Forall_cons in H as [? _]|].
    intros s' Hs. inversion Hs as [x x' ps i a p Hi Ha]. subst. destruct i as [|[|i]]; simpl in Hi; simplify_eq; done.
Qed.
