(* ===== verification/Rows.v ===== *)
(** * Rows of results: [models/rows.go], [influxql/result.go]

    What a statement returns: rows of values, each for a series, and how the
    rows of one series are told from those of another. *)

From stdpp Require Import base list strings gmap sorting.
From Stdlib Require Import ZArith Ascii Lia SpecFloat.
From S2P Require Import Prelude MetaData QlToken QlExpr QlPrint QlReader QlUtf8 TsdbMerge TsdbIndex.

Local Open Scope Z_scope.

(** The values of a row, as far as results have them. *)
Inductive Cell :=
| CellValue (v : GoValue)
| CellUint (n : Z)
| CellStrings (l : list string).

Record Row := mkRow {
  Row_Name : string;
  Row_Tags : gmap string string;
  Row_Columns : list string;
  Row_Values : list (list Cell);
  Row_Err : option GoError
}.
Definition set_Row_Values (r : Row) (v : list (list Cell)) : Row :=
  mkRow (Row_Name r) (Row_Tags r) (Row_Columns r) v (Row_Err r).

Definition tagsKeys (r : Row) : list string := sort_Strings (fst <$> map_to_list (Row_Tags r)).

(** [hash/fnv], the 64-bit FNV-1a hash. *)
Definition fnv_offset64 : Z := 14695981039346656037.
Definition fnv_prime64 : Z := 1099511628211.
Definition fnv_Write (h : Z) (s : string) : Z :=
  foldl (λ h c, (Z.lxor h (rn c) * fnv_prime64) mod 2 ^ 64) h (String.list_ascii_of_string s).

Definition tagsHash (r : Row) : Z :=
  foldl (λ h k, fnv_Write (fnv_Write h k) (Row_Tags r !!! k)) fnv_offset64 (tagsKeys r).

Definition SameSeries (r o : Row) : bool :=
  (tagsHash r =? tagsHash o) && bool_decide (Row_Name r = Row_Name o).

Definition Rows_Less (r o : Row) : bool :=
  if negb (bool_decide (Row_Name r = Row_Name o)) then String.ltb (Row_Name r) (Row_Name o)
  else tagsHash r <? tagsHash o.

(** [StatementID] is the position of the statement in its query. *)
Record Result := mkResult {
  StatementID : Z;
  Result_Series : list Row;
  Result_Err : option GoError
}.
Definition ok_result (series : list Row) : Result := mkResult 0 series None.
Definition err_result (e : GoError) : Result := mkResult 0 [] (Some e).
Definition set_StatementID (i : Z) (r : Result) : Result := mkResult i (Result_Series r) (Result_Err r).

(** ** Series are told apart by a hash *)

Lemma fnv_Write_app h a b : fnv_Write h (a +:+ b) = fnv_Write (fnv_Write h a) b.
Proof. unfold fnv_Write. by rewrite list_ascii_app, foldl_app. Qed.

(** The hash is of the keys and values one after the other, with nothing between
    them. *)
Lemma tagsHash_concat r :
  tagsHash r = fnv_Write fnv_offset64 (foldr (λ k s, k +:+ (Row_Tags r !!! k) +:+ s) EmptyString (tagsKeys r)).
Proof.
  unfold tagsHash. generalize fnv_offset64 as h. induction (tagsKeys r) as [|k ks IH]; intros h; [done|].
  simpl. by rewrite IH, !fnv_Write_app.
Qed.

Definition two_tags (name a va b vb : string) : Row :=
  mkRow name (<[a := va]> {[b := vb]}) [] [] None.

(** Rows for different series of one [GROUP BY a, b] can pass for the same
    series. *)
Example SameSeries_collision :
  Row_Tags (two_tags "cpu" "a" "x" "b" "by") ≠ Row_Tags (two_tags "cpu" "a" "xb" "b" "y") ∧
  SameSeries (two_tags "cpu" "a" "x" "b" "by") (two_tags "cpu" "a" "xb" "b" "y") = true.
Proof. split; [|vm_compute; reflexivity]. intros H. apply (f_equal (λ m, m !! "a")) in H. vm_compute in H. done. Qed.
