(* ===== verification/MetaStmt.v ===== *)
(** * Statements about metadata: [meta/statement_executor.go]

    [StatementExecutor] turns the statements of InfluxQL that concern metadata
    into calls of the store.  The methods of its interface are those of
    [MetaClient]; an error is part of the result. *)

From stdpp Require Import base list gmap strings.
From Stdlib Require Import ZArith Ascii Lia.
From S2P Require Import Prelude MetaData MetaCodec MetaStore MetaClient QlToken QlExpr QlSelect QlDuration QlNumber QlStmt Rows.

Local Open Scope Z_scope.

(** Package [time]: [Time.Format] in UTC with the layout [time.RFC3339], and
    [Duration.String].  Raft: the peers and the leader.  Nothing is assumed. *)
Class GoTime := { format_RFC3339 : Time → string; Duration_String : Duration → string }.
Class RaftInfo := { Store_Peers : M (list string); Store_Leader : World → string }.

Definition text_cell (s : string) : Cell := CellValue (VString s).
Definition bool_cell (b : bool) : Cell := CellValue (VBool b).

(** [meta/rpc.go] *)
Definition contains (s : list string) (e : string) : bool := existsb (λ a, bool_decide (a = e)) s.

Fixpoint joinUint64 (a : list Z) : string :=
  match a with
  | [] => EmptyString
  | [x] => decimal x
  | x :: a => decimal x +:+ "," +:+ joinUint64 a
  end.

Section executor.
Context {GS : GoSort} {bytes : Type} {PB : Protobuf bytes} {CR : Crypto}.
Context {goText : GoText} {goTime : GoTime} {raftInfo : RaftInfo}.
(** [retentionAutoCreate] of the store. *)
Context (auto : bool).

(** [&influxql.Result{Err: m}] *)
Definition err_of {A} (m : M A) : M Result :=
  do r <- M_try m;
  M_ret (match r with inl _ => ok_result [] | inr e => err_result e end).
(** An error of the first call is the result. *)
Definition then_rows {A} (m : M A) (k : A → M Result) : M Result :=
  do r <- M_try m;
  match r with inl a => k a | inr e => M_ret (err_result e) end.

Definition row (name : string) (columns : list string) (values : list (list Cell)) : Row :=
  mkRow name ∅ columns values None.

Definition executeCreateDatabaseStatement (name : string) (ifNotExists : bool) : M Result :=
  do r <- M_try (Store_CreateDatabase auto name);
  M_ret (match r with
         | inl _ => ok_result []
         | inr (KnownError ErrDatabaseExists) =>
             if ifNotExists then ok_result [] else err_result (KnownError ErrDatabaseExists)
         | inr e => err_result e
         end).
Definition executeDropDatabase (name : string) : M Result := err_of (Store_DropDatabase name).
Definition executeShowDatabasesStatement : M Result :=
  then_rows Store_Databases (λ dis,
    M_ret (ok_result [row "databases" ["name"] ((λ di, [text_cell (di_Name di)]) <$> dis)])).

(** The order of the rows is that of a Go map. *)
Definition executeShowGrantsForUserStatement (name : string) : M Result :=
  then_rows (Store_UserPrivileges name) (λ priv,
    M_ret (ok_result [row EmptyString ["database"; "privilege"]
      ((λ dp, [text_cell dp.1; text_cell (Privilege_String dp.2)]) <$> map_to_list (default ∅ priv))])).

Definition executeShowServersStatement : M Result :=
  then_rows Store_Nodes (λ nis,
    then_rows Store_Peers (λ peers, λ w,
      (w, Ok (ok_result [row EmptyString ["id"; "cluster_addr"; "raft"; "raft-leader"]
        ((λ ni, [CellUint (ni_ID ni); text_cell (ni_Host ni); bool_cell (contains peers (ni_Host ni));
                 bool_cell (bool_decide (Store_Leader w = ni_Host ni))]) <$> nis)])))).

Definition executeDropServerStatement (nodeID : Z) (force : bool) : M Result :=
  then_rows (Store_Node nodeID) (λ ni,
    match ni with
    | None => M_ret (err_result (KnownError ErrNodeNotFound))
    | Some _ => err_of (Store_DeleteNode nodeID force)
    end).

Definition executeCreateUserStatement (name password : string) (admin : bool) : M Result :=
  err_of (Store_CreateUser name password admin).
Definition executeSetPasswordUserStatement (name password : string) : M Result := err_of (Store_UpdateUser name password).
Definition executeDropUserStatement (name : string) : M Result := err_of (Store_DropUser name).
Definition executeShowUsersStatement : M Result :=
  then_rows Store_Users (λ uis,
    M_ret (ok_result [row EmptyString ["user"; "admin"] ((λ ui, [text_cell (ui_Name ui); bool_cell (ui_Admin ui)]) <$> uis)])).

Definition executeGrantStatement (priv : Z) (on user : string) : M Result := err_of (Store_SetPrivilege user on priv).
Definition executeGrantAdminStatement (user : string) : M Result := err_of (Store_SetAdminPrivilege user true).
(** The privilege is read and then written. *)
Definition executeRevokeStatement (priv : Z) (on user : string) : M Result :=
  if priv =? AllPrivileges then err_of (Store_SetPrivilege user on NoPrivileges)
  else
    then_rows (Store_UserPrivilege user on) (λ p,
      match p with
      | None => λ w, (w, Panic)
      | Some p => err_of (Store_SetPrivilege user on (Z.ldiff p priv))
      end).
Definition executeRevokeAdminStatement (user : string) : M Result := err_of (Store_SetAdminPrivilege user false).

Definition executeCreateRetentionPolicyStatement (name database : string) (d : Duration) (replication : Z) (dflt : bool) : M Result :=
  let rpi := NewRetentionPolicyInfo name in
  let rpi := set_rpi_ReplicaN replication (set_rpi_Durations d (rpi_ShardGroupDuration rpi) rpi) in
  then_rows (Store_CreateRetentionPolicy database rpi) (λ _,
    if dflt then err_of (Store_SetDefaultRetentionPolicy database name) else M_ret (ok_result [])).
Definition executeAlterRetentionPolicyStatement (name database : string) (d : option Duration) (replication : option Z) (dflt : bool)
    : M Result :=
  then_rows (Store_UpdateRetentionPolicy database name (mkRetentionPolicyUpdate None d replication)) (λ _,
    if dflt then err_of (Store_SetDefaultRetentionPolicy database name) else M_ret (ok_result [])).
Definition executeDropRetentionPolicyStatement (name database : string) : M Result :=
  err_of (Store_DropRetentionPolicy database name).
Definition executeShowRetentionPoliciesStatement (database : string) : M Result :=
  then_rows (Store_Database database) (λ di,
    match di with
    | None => M_ret (err_result (KnownError ErrDatabaseNotFound))
    | Some di =>
        M_ret (ok_result [row EmptyString ["name"; "duration"; "replicaN"; "default"]
          ((λ rpi, [text_cell (rpi_Name rpi); text_cell (Duration_String (rpi_Duration rpi)); CellValue (VInt (rpi_ReplicaN rpi));
                    bool_cell (bool_decide (di_DefaultRetentionPolicy di = rpi_Name rpi))]) <$> di_RetentionPolicies di)])
    end).

(** The query that is stored is the text of the statement. *)
Definition executeCreateContinuousQueryStatement (name database : string) (source : SelectStatement) : M Result :=
  err_of (Store_CreateContinuousQuery database name (CreateContinuousQuery_String name database source)).
Definition executeDropContinuousQueryStatement (name database : string) : M Result :=
  err_of (Store_DropContinuousQuery database name).
Definition executeShowContinuousQueriesStatement : M Result :=
  then_rows Store_Databases (λ dis,
    M_ret (ok_result ((λ di, row (di_Name di) ["name"; "query"]
      ((λ cqi, [text_cell (cqi_Name cqi); text_cell (cqi_Query cqi)]) <$> di_ContinuousQueries di)) <$> dis))).

Definition executeCreateSubscriptionStatement (name database rp : string) (dests : list string) (mode : string) : M Result :=
  err_of (Store_CreateSubscription database rp name mode dests).
Definition executeDropSubscriptionStatement (name database rp : string) : M Result :=
  err_of (Store_DropSubscription database rp name).
Definition subscription_cells (di : DatabaseInfo) : list (list Cell) :=
  di_RetentionPolicies di ≫= λ rpi,
    (λ si, [text_cell (rpi_Name rpi); text_cell (sub_Name si); text_cell (sub_Mode si); CellStrings (sub_Destinations si)])
      <$> rpi_Subscriptions rpi.
Definition executeShowSubscriptionsStatement : M Result :=
  then_rows Store_Databases (λ dis,
    M_ret (ok_result (dis ≫= λ di,
      match subscription_cells di with
      | [] => []
      | values => [row (di_Name di) ["retention_policy"; "name"; "mode"; "destinations"] values]
      end))).

Definition shard_cells (di : DatabaseInfo) : list (list Cell) :=
  di_RetentionPolicies di ≫= λ rpi,
    rpi_ShardGroups rpi ≫= λ sgi,
      if ShardGroupInfo_Deleted sgi then []
      else
        (λ si, [CellUint (si_ID si); text_cell (di_Name di); text_cell (rpi_Name rpi); CellUint (sgi_ID sgi);
                text_cell (format_RFC3339 (sgi_StartTime sgi)); text_cell (format_RFC3339 (sgi_EndTime sgi));
                text_cell (format_RFC3339 (Time_Add (sgi_EndTime sgi) (rpi_Duration rpi)));
                text_cell (joinUint64 (so_NodeID <$> si_Owners si))]) <$> sgi_Shards sgi.
Definition executeShowShardsStatement : M Result :=
  then_rows Store_Databases (λ dis,
    M_ret (ok_result ((λ di,
      row (di_Name di) ["id"; "database"; "retention_policy"; "shard_group"; "start_time"; "end_time"; "expiry_time"; "owners"]
        (shard_cells di)) <$> dis))).
Definition executeShowStatsStatement : M Result :=
  M_ret (err_result (OtherError "SHOW STATS is not implemented yet")).

(** A statement of another kind makes it panic. *)
Definition ExecuteStatement (stmt : Statement) : M Result :=
  match stmt with
  | CreateDatabaseStatement name e => executeCreateDatabaseStatement name e
  | DropDatabaseStatement name _ => executeDropDatabase name
  | ShowDatabasesStatement => executeShowDatabasesStatement
  | ShowGrantsForUserStatement name => executeShowGrantsForUserStatement name
  | ShowServersStatement => executeShowServersStatement
  | CreateUserStatement name password admin => executeCreateUserStatement name password admin
  | SetPasswordUserStatement password name => executeSetPasswordUserStatement name password
  | DropUserStatement name => executeDropUserStatement name
  | ShowUsersStatement => executeShowUsersStatement
  | GrantStatement p on user => executeGrantStatement p on user
  | GrantAdminStatement user => executeGrantAdminStatement user
  | RevokeStatement p on user => executeRevokeStatement p on user
  | RevokeAdminStatement user => executeRevokeAdminStatement user
  | CreateRetentionPolicyStatement name db d n def => executeCreateRetentionPolicyStatement name db d n def
  | AlterRetentionPolicyStatement name db d n def => executeAlterRetentionPolicyStatement name db d n def
  | DropRetentionPolicyStatement name db => executeDropRetentionPolicyStatement name db
  | ShowRetentionPoliciesStatement db => executeShowRetentionPoliciesStatement db
  | CreateContinuousQueryStatement name db source => executeCreateContinuousQueryStatement name db source
  | DropContinuousQueryStatement name db => executeDropContinuousQueryStatement name db
  | ShowContinuousQueriesStatement => executeShowContinuousQueriesStatement
  | ShowShardsStatement => executeShowShardsStatement
  | ShowStatsStatement _ => executeShowStatsStatement
  | DropServerStatement id force => executeDropServerStatement id force
  | CreateSubscriptionStatement name db rp dests mode => executeCreateSubscriptionStatement name db rp dests mode
  | DropSubscriptionStatement name db rp => executeDropSubscriptionStatement name db rp
  | ShowSubscriptionsStatement => executeShowSubscriptionsStatement
  | _ => λ w, (w, Panic)
  end.
End executor.
