(* ===== verification/TsdbShow.v ===== *)
(** * Statements that read the index: [tsdb/query_executor.go]

    [SHOW SERIES], [SHOW TAG VALUES] and [SHOW FIELD KEYS] on the indexes of the
    local store. *)

From stdpp Require Import base list strings gmap sets sorting.
From Stdlib Require Import ZArith Lia Ascii.
From S2P Require Import Prelude MetaData QlToken QlExpr QlSelect QlPrint QlNumber QlStmt TsdbMerge TsdbIndex TsdbWhere TsdbTags Rows.

Local Open Scope Z_scope.

Definition showE : Type → Type := outcome GoError.
Definition text_error (s : string) : GoError := OtherError s.

Section show.
Context {regexp : Regexp} {goSort : GoSort} {goText : GoText}.

(** The texts of the errors of the index; [%#v] is left to package [fmt]. *)
Definition IndexError_Error (e : IndexError) : string :=
  match e with
  | ErrInvalidExpression e => "invalid expression: " +:+ Expr_String e
  | ErrLeftNotTagKey op => "left side of '" +:+ Token_String op +:+ "' must be a tag key"
  | ErrRightNotRegex op => "right side of '" +:+ Token_String op +:+ "' must be a regular expression"
  | ErrRightNotString op => "right side of '" +:+ Token_String op +:+ "' must be a tag value string"
  | ErrInvalidOperator => "invalid operator"
  | ErrUnexpected e => error_Error "%#v" (Expr_String e)
  end.
Definition of_index {A} (x : whereE A) : showE A :=
  match x with Ok a => Ok a | Err e => Err (text_error (IndexError_Error e)) | Panic => Panic end.

Definition has_time (condition : option Expr) : bool :=
  match condition with Some e => HasTimeExpr e | None => false end.

(** ** [SHOW SERIES] *)

(** The key of a series and its values for the tags of the measurement. *)
Definition series_cells (columns : list string) (s : Series) : list Cell :=
  (λ v, CellValue (VString v)) <$> (Series_Key s :: ((λ c, default EmptyString (Series_Tags s !! c)) <$> columns)).
Definition series_row (m : Measurement) (ids : SeriesIDs) : Row :=
  let columns := TagKeys m in
  mkRow (Measurement_Name m) ∅ ("_key" :: columns)
    (series_cells columns <$> omap (λ id, seriesByID m !! id) ids) None.

Fixpoint show_series (ms : Measurements) (condition : option Expr) : showE (list Row) :=
  match ms with
  | [] => Ok []
  | m :: ms =>
      match condition with
      | Some e =>
          let! (ids, filters) := of_index (walkWhereForSeriesIds m e) in
          if (0 <? FilterExprs_Len (DeleteBoolLiteralTrues filters))%nat
          then Err (text_error "SHOW SERIES doesn't support fields in WHERE clause")
          else
            let! rows := show_series ms condition in
            Ok (match ids with [] => rows | _ => series_row m ids :: rows end)
      | None =>
          let! rows := show_series ms condition in
          Ok (series_row m (seriesIDs m) :: rows)
      end
  end.

(** The values of a row that are in the window, and how many were seen. *)
Fixpoint window_values (limit offset seen : Z) (values : list (list Cell)) : list (list Cell) * Z :=
  match values with
  | [] => ([], seen)
  | v :: values =>
      let '(kept, n) := window_values limit offset (seen + 1) values in
      (if (offset <=? seen) && (seen - offset <? limit) then v :: kept else kept, n)
  end.
Fixpoint filterShowSeriesResult (limit offset seen : Z) (rows : list Row) : list Row :=
  match rows with
  | [] => []
  | r :: rows =>
      let '(kept, seen) := window_values limit offset seen (Row_Values r) in
      match kept with
      | [] => filterShowSeriesResult limit offset seen rows
      | _ =>
          set_Row_Values r kept ::
            (if limit + offset <? seen then [] else filterShowSeriesResult limit offset seen rows)
      end
  end.

Definition executeShowSeriesStatement (dbs : gmap string DatabaseIndex) (stmtSources : list Source) (condition : option Expr)
    (limit offset : Z) (database : string) : showE (list Row) :=
  if has_time condition then Err (text_error "SHOW SERIES doesn't support time in WHERE clause")
  else
    match dbs !! database with
    | None => Ok []
    | Some db =>
        let! rows := show_series (measurementsFromSourcesOrDB db (expandSources dbs stmtSources)) condition in
        Ok (if (0 <? limit) || (0 <? offset) then filterShowSeriesResult limit offset 0 rows else rows)
    end.

(** ** [SHOW TAG VALUES] *)

Definition add_values (acc found : gmap string stringSet) : gmap string stringSet :=
  foldl (λ acc kv, <[kv.1 := stringSet_union (default kv.2 (acc !! kv.1)) kv.2]> acc) acc (map_to_list found).

Fixpoint tag_values (ms : Measurements) (tagKeys : list string) (condition : option Expr) (acc : gmap string stringSet)
    : showE (gmap string stringSet) :=
  match ms with
  | [] => Ok acc
  | m :: ms =>
      match condition with
      | Some e =>
          let! (ids, _) := of_index (walkWhereForSeriesIds m e) in
          match ids with
          | [] => tag_values ms tagKeys condition acc
          | _ => tag_values ms tagKeys condition (add_values acc (tagValuesByKeyAndSeriesID m tagKeys ids))
          end
      | None => tag_values ms tagKeys condition (add_values acc (tagValuesByKeyAndSeriesID m tagKeys (seriesIDs m)))
      end
  end.
Definition values_row (kv : string * stringSet) : Row :=
  mkRow (kv.1 +:+ "TagValues") ∅ [kv.1] ((λ v, [CellValue (VString v)]) <$> sort_Strings (stringSet_list kv.2)) None.

(** The order in [LIMIT] and [OFFSET] has no effect here. *)
Definition executeShowTagValuesStatement (dbs : gmap string DatabaseIndex) (stmtSources : list Source) (tagKeys : list string)
    (condition : option Expr) (database : string) : showE (list Row) :=
  if has_time condition then Err (text_error "SHOW TAG VALUES doesn't support time in WHERE clause")
  else
    match dbs !! database with
    | None => Ok []
    | Some db =>
        let! values := tag_values (measurementsFromSourcesOrDB db (expandSources dbs stmtSources)) tagKeys condition ∅ in
        Ok (sort_Sort Rows_Less (values_row <$> map_to_list values))
    end.

(** ** [SHOW FIELD KEYS] *)

Definition fields_row (m : Measurement) : Row :=
  mkRow (Measurement_Name m) ∅ ["fieldKey"] ((λ n, [CellValue (VString n)]) <$> sort_Strings (FieldNames m)) None.
Definition executeShowFieldKeysStatement (dbs : gmap string DatabaseIndex) (stmtSources : list Source) (database : string)
    : showE (list Row) :=
  match dbs !! database with
  | None => Ok []
  | Some db => Ok (fields_row <$> measurementsFromSourcesOrDB db (expandSources dbs stmtSources))
  end.
End show.

(** ** The window of [LIMIT] and [OFFSET] *)

(** The elements at the positions from [offset] up to [offset + limit], counted
    from [seen]. *)
Definition window {A} (limit offset seen : Z) (l : list A) : list A :=
  take (Z.to_nat (limit - Z.max 0 (seen - offset))) (drop (Z.to_nat (offset - seen)) l).

Lemma window_values_spec limit offset seen values :
  window_values limit offset seen values = (window limit offset seen values, seen + Z.of_nat (length values)).
Proof.
  revert seen. induction values as [|v values IH]; intros seen; simpl; [f_equal; [unfold window; by rewrite drop_nil, take_nil|lia]|].
  rewrite IH. f_equal; [|lia]. unfold window.
  destruct (Z.leb_spec offset seen) as [Ho|Ho]; simpl.
  - replace (Z.to_nat (offset - seen)) with 0%nat by lia. replace (Z.to_nat (offset - (seen + 1))) with 0%nat by lia. simpl.
    destruct (Z.ltb_spec (seen - offset) limit) as [Hl|Hl].
    + replace (Z.to_nat (limit - Z.max 0 (seen - offset))) with (S (Z.to_nat (limit - Z.max 0 (seen + 1 - offset)))) by lia. done.
    + replace (Z.to_nat (limit - Z.max 0 (seen - offset))) with 0%nat by lia.
      replace (Z.to_nat (limit - Z.max 0 (seen + 1 - offset))) with 0%nat by lia. done.
  - replace (Z.to_nat (offset - seen)) with (S (Z.to_nat (offset - (seen + 1)))) by lia. simpl. do 2 f_equal. lia.
Qed.

Lemma window_app {A} limit offset seen (l1 l2 : list A) :
  window limit offset seen (l1 ++ l2) = window limit offset seen l1 ++ window limit offset (seen + Z.of_nat (length l1)) l2.
Proof.
  unfold window. rewrite drop_app, take_app, length_drop. f_equal. f_equal; [lia|]. f_equal. lia.
Qed.
Lemma window_beyond {A} limit offset seen (l : list A) : limit + offset < seen → 0 ≤ offset → 0 ≤ limit → window limit offset seen l = [].
Proof. intros. unfold window. by replace (Z.to_nat (limit - Z.max 0 (seen - offset))) with 0%nat by lia. Qed.

Lemma filterShowSeriesResult_values limit offset seen rows : 0 ≤ limit → 0 ≤ offset →
  filterShowSeriesResult limit offset seen rows ≫= Row_Values = window limit offset seen (rows ≫= Row_Values) ∧
  Forall (λ r, Row_Values r ≠ []) (filterShowSeriesResult limit offset seen rows).
Proof.
  intros Hl Ho. revert seen. induction rows as [|r rows IH]; intros seen; cbn [filterShowSeriesResult].
  { split; [unfold window; simpl; by rewrite drop_nil, take_nil|constructor]. }
  rewrite bind_cons, window_values_spec, window_app. destruct (IH (seen + Z.of_nat (length (Row_Values r)))) as [IH1 IH2].
  destruct (window limit offset seen (Row_Values r)) as [|v kept] eqn:E; [done|].
  destruct (Z.ltb_spec (limit + offset) (seen + Z.of_nat (length (Row_Values r)))) as [Hlt|Hge]; rewrite bind_cons.
  - rewrite window_beyond by done. rewrite !app_nil_r. split; [done|]. by repeat constructor.
  - rewrite IH1. split; [done|]. by constructor.
Qed.
