(* ===== verification/TsdbQuery.v ===== *)
(** * Executing queries: [tsdb/query_executor.go]

    [QueryExecutor]: who may run a query, how its statements get their databases
    and policies, which shards a statement is mapped to, and the loop over the
    statements of a query with the results that it sends.  The metadata is behind
    the store's client, the series behind the local indexes; what maps shards,
    runs a plan, writes points and deletes data are the interfaces that the code
    calls. *)

From stdpp Require Import base list strings gmap sorting.
From Stdlib Require Import ZArith Ascii Lia SpecFloat.
From S2P Require Import Prelude MetaData MetaCodec MetaStore MetaClient QlToken QlExpr QlSelect QlPrint QlNumber QlStmt.
From S2P Require Import TsdbMerge TsdbIndex TsdbWhere TsdbTags Rows MetaStmt TsdbShow.

Local Open Scope Z_scope.

(** ** Authorization *)

Record ErrAuthorize := mkErrAuthorize { ea_user : string; ea_database : string; ea_message : string }.

Definition ErrAuthorize_Error (e : ErrAuthorize) : string :=
  if bool_decide (ea_user e = EmptyString) then ea_message e
  else ea_user e +:+ " not authorized to execute " +:+ ea_message e.

Section authorize.
Context {GS : GoSort} {bytes : Type} {PB : Protobuf bytes} {goText : GoText}.

(** The first privilege that a user who is no admin does not have. *)
Fixpoint check_privileges (u : UserInfo) (database : string) (stmt : Statement) (privs : list ExecutionPrivilege)
    : option ErrAuthorize :=
  match privs with
  | [] => None
  | p :: privs =>
      if ep_Admin p then
        Some (mkErrAuthorize (ui_Name u) database ("statement '" +:+ Statement_String stmt +:+ "', requires admin privilege"))
      else
        let db := if bool_decide (ep_Name p = EmptyString) then database else ep_Name p in
        if negb (UserInfo_Authorize u (ep_Privilege p) db) then
          Some (mkErrAuthorize (ui_Name u) database
            ("statement '" +:+ Statement_String stmt +:+ "', requires " +:+ Privilege_String (ep_Privilege p) +:+ " on " +:+ db))
        else check_privileges u database stmt privs
  end.
Fixpoint check_statements (u : UserInfo) (database : string) (stmts : list Statement) : outcome GoError (option ErrAuthorize) :=
  match stmts with
  | [] => Ok None
  | stmt :: stmts =>
      match RequiredPrivileges stmt with
      | Ok privs =>
          match check_privileges u database stmt privs with
          | Some e => Ok (Some e)
          | None => check_statements u database stmts
          end
      | _ => Panic
      end
  end.

(** [None] is the authorization. *)
Definition Authorize (u : option UserInfo) (query : Query) (database : string) : M (option ErrAuthorize) :=
  do count <- M_try Store_UserCount;
  match count with
  | inl 0 =>
      M_ret (match query with
             | CreateUserStatement _ _ true :: _ => None
             | _ => Some (mkErrAuthorize EmptyString database "create admin user first or disable authentication")
             end)
  | _ =>
      match u with
      | None => M_ret (Some (mkErrAuthorize EmptyString database "no user provided"))
      | Some u => if ui_Admin u then M_ret None else λ w, (w, check_statements u database query)
      end
  end.
End authorize.

(** ** Databases and policies *)

Definition ErrDatabaseNotFound_ (name : string) : GoError := OtherError ("database not found: " +:+ name).

Section normalize.
Context {GS : GoSort} {bytes : Type} {PB : Protobuf bytes}.

Definition set_Source_Database (db : string) (m : Source) : Source :=
  mkSource db (Source_RetentionPolicy m) (Source_Name m) (Source_Regex m).
Definition set_Source_RetentionPolicy (rp : string) (m : Source) : Source :=
  mkSource (Source_Database m) rp (Source_Name m) (Source_Regex m).

(** The measurement as it is left, and the error. *)
Definition normalizeMeasurement (isTarget : bool) (m : Source) (defaultDatabase : string) : M (Source * option GoError) :=
  if negb isTarget && bool_decide (Source_Name m = EmptyString) && bool_decide (Source_Regex m = None)
  then M_ret (m, Some (OtherError "invalid measurement"))
  else
    let m := if bool_decide (Source_Database m = EmptyString) then set_Source_Database defaultDatabase m else m in
    if bool_decide (Source_Database m = EmptyString) then M_ret (m, Some (OtherError "database name required"))
    else
      do di <- M_try (Store_Database (Source_Database m));
      match di with
      | inr e => M_ret (m, Some e)
      | inl None => M_ret (m, Some (ErrDatabaseNotFound_ (Source_Database m)))
      | inl (Some di) =>
          if bool_decide (Source_RetentionPolicy m = EmptyString) then
            if bool_decide (di_DefaultRetentionPolicy di = EmptyString) then
              M_ret (m, Some (OtherError ("default retention policy not set for: " +:+ di_Name di)))
            else M_ret (set_Source_RetentionPolicy (di_DefaultRetentionPolicy di) m, None)
          else M_ret (m, None)
      end.

(** After an error the other measurements are not visited. *)
Fixpoint normalize_sources (l : list Source) (db : string) : M (list Source * option GoError) :=
  match l with
  | [] => M_ret ([], None)
  | m :: l =>
      do (m, e) <- normalizeMeasurement false m db;
      match e with
      | Some e => M_ret (m :: l, Some e)
      | None => do (l, e) <- normalize_sources l db; M_ret (m :: l, e)
      end
  end.
Definition set_into (s : SelectStatement) (target : option Source) (sources : list Source) : SelectStatement :=
  mkSelect (Fields s) target (Dimensions s) sources (Condition s) (SortFields s) (Limit s) (Offset s) (SLimit s) (SOffset s)
    (groupByInterval s) (IsRawQuery s) (Fill s) (FillValue s).
Definition normalize_select (s : SelectStatement) (db : string) : M (SelectStatement * option GoError) :=
  do (t, e) <- match Target s with
               | None => M_ret (None, None)
               | Some m => do (m, e) <- normalizeMeasurement true m db; M_ret (Some m, e)
               end;
  match e with
  | Some e => M_ret (set_into s t (Sources s), Some e)
  | None => do (l, e) <- normalize_sources (Sources s) db; M_ret (set_into s t l, e)
  end.

(** The statements whose measurements [Walk] visits. *)
Definition normalizeStatement (stmt : Statement) (db : string) : M (Statement * option GoError) :=
  match stmt with
  | SelectStmt s => do (s, e) <- normalize_select s db; M_ret (SelectStmt s, e)
  | CreateContinuousQueryStatement name database s =>
      do (s, e) <- normalize_select s db; M_ret (CreateContinuousQueryStatement name database s, e)
  | DropSeriesStatement l cond => do (l, e) <- normalize_sources l db; M_ret (DropSeriesStatement l cond, e)
  | ShowSeriesStatement l cond sort limit offset =>
      do (l, e) <- normalize_sources l db; M_ret (ShowSeriesStatement l cond sort limit offset, e)
  | ShowTagKeysStatement l cond sort limit offset slimit soffset =>
      do (l, e) <- normalize_sources l db; M_ret (ShowTagKeysStatement l cond sort limit offset slimit soffset, e)
  | ShowTagValuesStatement l keys cond sort limit offset =>
      do (l, e) <- normalize_sources l db; M_ret (ShowTagValuesStatement l keys cond sort limit offset, e)
  | ShowFieldKeysStatement l sort limit offset =>
      do (l, e) <- normalize_sources l db; M_ret (ShowFieldKeysStatement l sort limit offset, e)
  | stmt => M_ret (stmt, None)
  end.
End normalize.

(** ** The state of an executor and its interfaces *)

Record IntoWriteRequest (Point : Type) := mkIntoWriteRequest {
  iw_Database : string; iw_RetentionPolicy : string; iw_Points : list Point }.
Arguments mkIntoWriteRequest {Point}.

(** What a query can reach: the metadata and the indexes of the local store. *)
Record QState := mkQState { q_meta : World; q_dbs : gmap string DatabaseIndex }.
Definition QM : Type → Type := ST QState GoError.

Definition of_meta {A} (m : M A) : QM A := λ q,
  let '(w, r) := m (q_meta q) in (mkQState w (q_dbs q), r).
Definition set_dbs (dbs : gmap string DatabaseIndex) (q : QState) : QState := mkQState (q_meta q) dbs.

(** [ShardMapper], [IntoWriter] and [MonitorStatementExecutor] of the executor,
    [models.NewPoint], and the deletions of the store, which answer with an
    error. *)
Class Backend := {
  Mapper : Type;
  CreateMapper : QState → ShardInfo → Statement → Z → outcome GoError (option Mapper);
  Point : Type;
  NewPoint : string → gmap string string → gmap string Cell → Time → option Point;
  WritePointsInto : IntoWriteRequest Point → QM unit;
  Monitor_ExecuteStatement : Statement → Result;
  Store_DeleteDatabase : string → list Z → QState → option GoError;
  Store_deleteSeries : list string → bool;
  Store_deleteMeasurement : string → list string → bool
}.

(** ** Plans *)

Section plan.
Context {GS : GoSort} {bytes : Type} {PB : Protobuf bytes} {goText : GoText} {backend : Backend}.

(** [Executor]: its statement and a mapper for each shard that has data. *)
Inductive Executor :=
| RawExecutor (s : SelectStatement) (mappers : list Mapper) (chunkSize : Z)
| AggregateExecutor (s : SelectStatement) (mappers : list Mapper)
| ShowMeasurementsExecutor (stmt : Statement) (mappers : list Mapper) (chunkSize : Z)
| ShowTagKeysExecutor (stmt : Statement) (mappers : list Mapper) (chunkSize : Z).

(** The shards of some groups: each once, in order of appearance. *)
Definition add_shard (acc : gmap Z ShardInfo * list Z) (sh : ShardInfo) : gmap Z ShardInfo * list Z :=
  if decide (is_Some (acc.1 !! si_ID sh)) then acc else (<[si_ID sh := sh]> acc.1, acc.2 ++ [si_ID sh]).
Definition add_groups (acc : gmap Z ShardInfo * list Z) (gs : list ShardGroupInfo) : gmap Z ShardInfo * list Z :=
  foldl add_shard acc (gs ≫= sgi_Shards).
Fixpoint target_shards (sources : list Source) (tmin tmax : Time) (acc : gmap Z ShardInfo * list Z)
    : M (gmap Z ShardInfo * list Z) :=
  match sources with
  | [] => M_ret acc
  | mm :: sources =>
      do gs <- Store_ShardGroupsByTimeRange (Source_Database mm) (Source_RetentionPolicy mm) tmin tmax;
      target_shards sources tmin tmax (add_groups acc gs)
  end.

(** The shards, in order of their IDs. *)
Definition planned_shards (sources : list Source) (times : Time * Time) : M (list ShardInfo) :=
  do shards <- target_shards sources times.1 times.2 (∅, []);
  M_ret (omap (λ id, shards.1 !! id) (sort_Sort Z.ltb shards.2)).

Fixpoint create_mappers (stmt : Statement) (chunkSize : Z) (shards : list ShardInfo) : QM (list Mapper) :=
  match shards with
  | [] => mret []
  | sh :: shards => λ q,
      match CreateMapper q sh stmt chunkSize with
      | Err e => (q, Err e)
      | Panic => (q, Panic)
      | Ok m =>
          (l ← create_mappers stmt chunkSize shards;
           mret (match m with Some m => m :: l | None => l end)) q
      end
  end.

(** The times of a condition without times are those up to now. *)
Definition plan_times (now : Time) (cond : option Expr) : Time * Time :=
  let '(tmin, tmax) := match cond with Some c => TimeRange c | None => (Time_zero, Time_zero) end in
  (if Time_IsZero tmin then Time_Unix0 0 else tmin, if Time_IsZero tmax then now else tmax).

Definition of_exprE_panic {A} (x : exprE A) : QM A := λ q, (q, match x with Ok a => Ok a | _ => Panic end).

(** Raw data, or aggregates. *)
Definition choose_executor (s : SelectStatement) (chunkSize : Z) (mappers : list Mapper) : QM Executor :=
  let s := RewriteDistinct s in
  if IsRawQuery s && negb (HasDistinct s) then mret (RawExecutor s mappers chunkSize)
  else
    simple ← of_exprE_panic (IsSimpleDerivative s);
    mret (if simple : bool then RawExecutor s mappers chunkSize else AggregateExecutor s mappers).

(** [now] is the time that is stamped. *)
Definition PlanSelect (now : Time) (s : SelectStatement) (chunkSize : Z) : QM Executor :=
  c ← of_exprE_panic (match Condition s with
                      | None => Ok None
                      | Some c => let! c := Reduce c (Some (NowValuer now)) in Ok (Some c)
                      end);
  let s := set_condition s c in
  shards ← of_meta (planned_shards (Sources s) (plan_times now c));
  mappers ← create_mappers (SelectStmt s) chunkSize shards;
  choose_executor s chunkSize mappers.

(** Every shard of the database. *)
Definition database_mappers (stmt : Statement) (database : string) (chunkSize : Z) : QM (list Mapper) :=
  di ← of_meta (Store_Database database);
  match di with
  | None => st_fail (ErrDatabaseNotFound_ database)
  | Some di => create_mappers stmt chunkSize (DatabaseInfo_ShardInfos di)
  end.
Definition PlanShowMeasurements (stmt : Statement) (cond : option Expr) (database : string) (chunkSize : Z) : QM Executor :=
  if has_time cond then st_fail (OtherError "SHOW MEASUREMENTS doesn't support time in WHERE clause")
  else
    mappers ← database_mappers stmt database chunkSize;
    mret (ShowMeasurementsExecutor stmt mappers chunkSize).
Definition PlanShowTagKeys (stmt : Statement) (cond : option Expr) (database : string) (chunkSize : Z) : QM Executor :=
  if has_time cond then st_fail (OtherError "SHOW TAG KEYS doesn't support time in WHERE clause")
  else
    mappers ← database_mappers stmt database chunkSize;
    mret (ShowTagKeysExecutor stmt mappers chunkSize).

Definition planStatement (now : Time) (stmt : Statement) (database : string) (chunkSize : Z) : QM Executor :=
  match stmt with
  | SelectStmt s => PlanSelect now s chunkSize
  | ShowMeasurementsStatement _ cond _ _ _ => PlanShowMeasurements stmt cond database chunkSize
  | ShowTagKeysStatement _ cond _ _ _ _ _ => PlanShowTagKeys stmt cond database chunkSize
  | stmt => st_fail (OtherError ("can't plan statement type: " +:+ Statement_String stmt))
  end.
End plan.

(** ** Running statements *)

(** The rows that a plan gives, as far as they are read. *)
Class Runner `{Backend} := { Execute : QState → Executor → list Row }.

Section run.
Context {GS : GoSort} {bytes : Type} {PB : Protobuf bytes} {CR : Crypto}.
Context {goText : GoText} {goTime : GoTime} {raftInfo : RaftInfo} {regexp : Regexp}.
Context {backend : Backend} {runner : Runner}.
Context (auto : bool).

(** *** [INTO] *)

Definition intoMeasurement (t : Source) : string := Source_Name t.
Definition intoRP (t : Source) : string := Source_RetentionPolicy t.
Definition intoDB (t : Source) : outcome GoError string :=
  if bool_decide (Source_Database t = EmptyString) then Err (OtherError "no database in target") else Ok (Source_Database t).

(** The columns by position: the last one named time, and the fields. *)
Definition time_index (columns : list string) : option nat :=
  foldl (λ acc ic, if bool_decide (ic.2 = "time") then Some ic.1 else acc) None (imap pair columns).
Definition field_indexes (columns : list string) : gmap string nat :=
  foldl (λ acc ic, if bool_decide (ic.2 = "time") then acc else <[ic.2 := ic.1]> acc) ∅ (imap pair columns).

(** A row that is too short panics, and so does a time of another type. *)
Fixpoint row_fields (fields : list (string * nat)) (v : list Cell) : option (gmap string Cell) :=
  match fields with
  | [] => Some ∅
  | (name, i) :: fields =>
      match v !! i, row_fields fields v with
      | Some (CellValue VNil), Some m => Some m
      | Some c, Some m => Some (<[name := c]> m)
      | _, _ => None
      end
  end.
Fixpoint convert_values (name : string) (tags : gmap string string) (t : nat) (fields : list (string * nat)) (values : list (list Cell))
    : outcome GoError (list Point) :=
  match values with
  | [] => Ok []
  | v :: values =>
      match row_fields fields v, v !! t with
      | Some vals, Some (CellValue (VTime ts)) =>
          let! l := convert_values name tags t fields values in
          Ok (match NewPoint name tags vals ts with Some p => p :: l | None => l end)
      | _, _ => Panic
      end
  end.
Definition convertRowToPoints (name : string) (r : Row) : outcome GoError (list Point) :=
  match time_index (Row_Columns r) with
  | None => Err (OtherError "error finding time index in result")
  | Some t => convert_values name (Row_Tags r) t (map_to_list (field_indexes (Row_Columns r))) (Row_Values r)
  end.

Definition of_outcome {A} (x : outcome GoError A) : QM A := λ q, (q, x).
Definition writeInto (r : Row) (target : Source) : QM unit :=
  let name := if bool_decide (intoMeasurement target = EmptyString) then Row_Name r else intoMeasurement target in
  intodb ← of_outcome (intoDB target);
  points ← of_outcome (convertRowToPoints name r);
  WritePointsInto (mkIntoWriteRequest intodb (intoRP target) points).

(** *** Rows to results *)

(** The results that are sent, the error of a row, whether rows were written and
    how many values they had, and the error of writing. *)
Record streamed := mkStreamed {
  sent : list Result; row_err : option GoError; isinto : bool; intoNum : Z; writeerr : option GoError }.

Fixpoint stream_rows (id : Z) (target : option Source) (rows : list Row) (st : streamed) : QM streamed :=
  match rows with
  | [] => mret st
  | r :: rows =>
      match writeerr st, Row_Err r, target with
      | Some _, _, _ => stream_rows id target rows st
      | None, Some e, _ => mret (mkStreamed (sent st) (Some e) (isinto st) (intoNum st) None)
      | None, None, Some t =>
          res ← st_try (writeInto r t);
          stream_rows id target rows
            (mkStreamed (sent st) None true (i64 (intoNum st + Z.of_nat (length (Row_Values r))))
               (match res with inl _ => None | inr e => Some e end))
      | None, None, None =>
          stream_rows id target rows (mkStreamed (sent st ++ [mkResult id [r] None]) None (isinto st) (intoNum st) None)
      end
  end.

Definition written_row (n : Z) : Row :=
  mkRow "result" ∅ ["time"; "written"] [[CellValue (VTime (Time_Unix0 0)); CellValue (VInt n)]] None.

Definition target_of (stmt : Statement) : option Source := match stmt with SelectStmt s => Target s | _ => None end.

(** What was sent, and the error that is returned. *)
Definition executeStatement (id : Z) (stmt : Statement) (database : string) (chunkSize : Z) : QM (list Result * option GoError) :=
  e ← st_try (λ q, planStatement (w_now (q_meta q)) stmt database chunkSize q);
  match e with
  | inr e => mret ([], Some e)
  | inl e =>
      rows ← st_get (λ q, Execute q e);
      st ← stream_rows id (target_of stmt) rows (mkStreamed [] None false 0 None);
      match row_err st, writeerr st with
      | Some e, _ | None, Some e => mret (sent st, Some e)
      | None, None =>
          if isinto st then mret (sent st ++ [mkResult id [written_row (intoNum st)] None], None)
          else mret (match sent st with [] => [mkResult id [] None] | l => l end, None)
      end
  end.

(** *** Statements on the local store *)

(** The files of the database and its index. *)
Definition delete_database (name : string) (ids : list Z) (res : Result) : QM Result := λ q,
  match Store_DeleteDatabase name ids q with
  | Some e => (q, Ok (err_result e))
  | None => (set_dbs (delete name (q_dbs q)) q, Ok res)
  end.
Definition executeDropDatabaseStatement (stmt : Statement) (name : string) (ifExists : bool) : QM Result :=
  dbi ← of_meta (M_try (Store_Database name));
  match dbi with
  | inr e => mret (err_result e)
  | inl None => mret (if ifExists then ok_result [] else err_result (ErrDatabaseNotFound_ name))
  | inl (Some dbi) =>
      let ids := di_RetentionPolicies dbi ≫= λ rp, rpi_ShardGroups rp ≫= λ sg, si_ID <$> sgi_Shards sg in
      res ← of_meta (ExecuteStatement auto stmt);
      delete_database name ids res
  end.

Definition ExecError_Error (e : ExecError) : GoError :=
  match e with
  | ErrIndex e => text_error (IndexError_Error e)
  | ErrDropTime => text_error "DROP SERIES doesn't support time in WHERE clause"
  | ErrDropFields => text_error "DROP SERIES doesn't support fields in WHERE clause"
  | ErrMeasurementNotFound name => text_error ("measurement not found: " +:+ name)
  | ErrStore => text_error (error_Error "store" EmptyString)
  end.
Definition of_execE {A} (q : QState) (r : gmap string DatabaseIndex * execE A) : QState * outcome GoError Result :=
  (set_dbs r.1 q,
   match r.2 with
   | Ok _ => Ok (ok_result [])
   | Err e => Ok (err_result (ExecError_Error e))
   | Panic => Panic
   end).
Definition of_showE (x : showE (list Row)) : QM Result := λ q,
  (q, match x with Ok rows => Ok (ok_result rows) | Err e => Ok (err_result e) | Panic => Panic end).
Definition show_q (f : gmap string DatabaseIndex → showE (list Row)) : QM Result := λ q, of_showE (f (q_dbs q)) q.

Definition ErrInvalidQuery : GoError := OtherError "invalid query".
Definition ErrNotExecuted : GoError := OtherError "not executed".

(** *** The loop

    What a statement sends by itself, and the result that is sent for it.  The
    error of a statement that sends rows is sent at once: the [break] behind it
    leaves the [switch] and not the loop. *)
Definition dispatch (i : Z) (stmt : Statement) (database : string) (chunkSize : Z) : QM (list Result * option Result) :=
  let one (m : QM Result) : QM (list Result * option Result) := r ← m; mret ([], Some r) in
  let stream : QM (list Result * option Result) :=
    x ← executeStatement i stmt database chunkSize;
    mret (match x with (l, None) => (l, None) | (l, Some e) => (l ++ [err_result e], None) end) in
  match stmt with
  | SelectStmt _ | ShowMeasurementsStatement _ _ _ _ _ | ShowTagKeysStatement _ _ _ _ _ _ _ => stream
  | DropSeriesStatement sources cond =>
      one (λ q, of_execE q (executeDropSeriesStatement Store_deleteSeries (q_dbs q) sources cond database))
  | ShowSeriesStatement sources cond _ limit offset =>
      one (show_q (λ dbs, executeShowSeriesStatement dbs sources cond limit offset database))
  | DropMeasurementStatement name =>
      one (λ q, of_execE q (executeDropMeasurementStatement Store_deleteMeasurement (q_dbs q) name database))
  | ShowTagValuesStatement sources keys cond _ _ _ =>
      one (show_q (λ dbs, executeShowTagValuesStatement dbs sources keys cond database))
  | ShowFieldKeysStatement sources _ _ _ => one (show_q (λ dbs, executeShowFieldKeysStatement dbs sources database))
  | DeleteStatement _ _ => one (mret (err_result ErrInvalidQuery))
  | DropDatabaseStatement name e => one (executeDropDatabaseStatement stmt name e)
  | ShowStatsStatement _ | ShowDiagnosticsStatement _ => one (mret (Monitor_ExecuteStatement stmt))
  | stmt => one (of_meta (ExecuteStatement auto stmt))
  end.

Definition not_executed (rest : list Statement) : list Result := (λ _, err_result ErrNotExecuted) <$> rest.

Fixpoint execute_from (i : Z) (stmts : list Statement) (database : string) (chunkSize : Z) : QM (list Result) :=
  match stmts with
  | [] => mret []
  | stmt :: rest =>
      let defaultDB := if bool_decide (database = EmptyString) then default EmptyString (DefaultDatabase stmt) else database in
      x ← of_meta (normalizeStatement stmt defaultDB);
      match x with
      | (_, Some e) => mret (err_result e :: not_executed rest)
      | (stmt, None) =>
          y ← dispatch i stmt database chunkSize;
          let '(l, res) := y in
          match res with
          | None => more ← execute_from (i + 1) rest database chunkSize; mret (l ++ more)
          | Some r =>
              let r := set_StatementID i r in
              match Result_Err r with
              | Some _ => mret (l ++ r :: not_executed rest)
              | None => more ← execute_from (i + 1) rest database chunkSize; mret (l ++ r :: more)
              end
          end
      end
  end.

(** The results in the order in which they are sent. *)
Definition ExecuteQuery (query : Query) (database : string) (chunkSize : Z) : QM (list Result) :=
  execute_from 0 query database chunkSize.
End run.
