(* ===== verification/TsdbQueryProps.v ===== *)
(** * Theorems about executing queries: privileges, and the shards of a plan *)

From stdpp Require Import base list strings gmap sorting.
From Stdlib Require Import ZArith Ascii Lia SpecFloat.
From S2P Require Import Prelude MetaData MetaCodec MetaStore MetaClient QlToken QlExpr QlSelect QlPrint QlNumber QlStmt.
From S2P Require Import TsdbMerge TsdbIndex TsdbWhere TsdbTags Rows MetaStmt TsdbShow TsdbQuery.

Local Open Scope Z_scope.

(** ** What a query of an unprivileged user leaves alone *)

(** The metadata that the cluster agrees on: the leader's. *)
Definition authority (w : World) : Data :=
  match w_role w with RaftLeader => st_data (w_store w) | _ => st_data (w_leader w) end.
(** Users with their privileges, and which databases there are. *)
Definition admin_view (d : Data) : list UserInfo * list string := (Users d, di_Name <$> Databases d).

(** The calls that keep a part [f] of this metadata. *)
Definition keeps {B A} (f : Data → B) (m : M A) : Prop :=
  ∀ w, f (authority (m w).1) = f (authority w) ∧ w_role (m w).1 = w_role w.

Section keeps.
Context {GS : GoSort} {bytes : Type} {PB : Protobuf bytes} {B : Type} (f : Data → B).
Context (f_TermIndex : ∀ t i d, f (set_TermIndex t i d) = f d).

Lemma keeps_ret {A} (a : A) : keeps f (M_ret a).
Proof. done. Qed.
Lemma keeps_fail {A} e : keeps f (@M_fail A e).
Proof. done. Qed.
Lemma keeps_const {A} (r : World → outcome GoError A) : keeps f (λ w, (w, r w)).
Proof. done. Qed.
Lemma keeps_bind {A C} (m : M A) (k : A → M C) : keeps f m → (∀ a, keeps f (k a)) → keeps f (M_bind m k).
Proof.
  intros Hm Hk w. destruct (Hm w) as [H1 H2]. unfold M_bind. destruct (m w) as [w1 [a|e|]]; simpl in *; [|done..].
  destruct (Hk a w1) as [H3 H4]. split; congruence.
Qed.
Lemma keeps_try {A} (m : M A) : keeps f m → keeps f (M_try m).
Proof. intros Hm w. destruct (Hm w) as [H1 H2]. unfold M_try. by destruct (m w) as [w1 [a|e|]]. Qed.
Lemma keeps_net : keeps f net.
Proof. intros w. unfold net. by destruct (w_net w). Qed.
Lemma invalidate_same w :
  w_role (Store_invalidate w).1 = w_role w ∧ w_leader (Store_invalidate w).1 = w_leader w ∧
  (w_role w = RaftLeader → w_store (Store_invalidate w).1 = w_store w).
Proof.
  unfold Store_invalidate. destruct (w_role w) eqn:Hr; [done| |];
    (unfold fetchMetaData, updateMetaData, M_bind, net; destruct (w_net w) as [|[] l]; simpl; repeat (case_match; simpl; simplify_eq); done).
Qed.
Lemma keeps_invalidate : keeps f Store_invalidate.
Proof.
  intros w. destruct (invalidate_same w) as (H1 & H2 & H3). split; [|done]. unfold authority. rewrite H1.
  destruct (w_role w); [by rewrite H3|by rewrite H2..].
Qed.
Lemma keeps_read {A} (fn : Data → M (A * option ReadError)) : (∀ d, keeps f (fn d)) → keeps f (Store_read fn).
Proof.
  intros Hf. unfold Store_read. apply keeps_bind; [intros w; apply Hf|]. intros [a [e|]]; [|apply keeps_ret].
  apply keeps_bind; [apply keeps_invalidate|]. intros _. apply keeps_bind; [intros w; apply Hf|]. by intros [a' [[|e']|]].
Qed.

Lemma net_spec w : ∃ b w1, net w = (w1, Ok b) ∧ w_role w1 = w_role w ∧ w_store w1 = w_store w ∧ w_leader w1 = w_leader w.
Proof. unfold net. destruct (w_net w) as [|b l]; by eexists _, _. Qed.

(** A command keeps the part when its handler does. *)
Section exec.
Context (cmd : Command).
Context (Hc : ∀ now s s' err, apply_command now s cmd = Some (s', err) → f (st_data s') = f (st_data s)).

Lemma apply_keeps now s t i s' err : Apply now s (mkLog t i (Some cmd)) = Some (s', err) → f (st_data s') = f (st_data s).
Proof.
  unfold Apply. simpl. destruct (apply_command now s cmd) as [[s1 e1]|] eqn:E; [|done].
  intros [= <- <-]. simpl. rewrite f_TermIndex. by eapply Hc.
Qed.
Lemma local_keeps w : w_role w = RaftLeader →
  f (authority (localRaft_apply cmd w).1) = f (authority w) ∧ w_role (localRaft_apply cmd w).1 = w_role w.
Proof.
  intros Hr. destruct (net_spec w) as (b & w1 & E & H1 & H2 & H3). unfold localRaft_apply, M_bind. rewrite E.
  destruct b; simpl; [|unfold authority; by rewrite H1, Hr, H2].
  destruct (Apply _ _ _) as [[s' [e|]]|] eqn:Ea; unfold authority; simpl; rewrite ?H1, ?Hr, <- ?H2; [by split; [eapply apply_keeps|]..|done].
Qed.
Lemma remote_keeps w : w_role w ≠ RaftLeader →
  f (authority (Store_remoteExec cmd w).1) = f (authority w) ∧ w_role (Store_remoteExec cmd w).1 = w_role w.
Proof.
  intros Hr. destruct (net_spec w) as (b & w1 & E & H1 & H2 & H3). unfold Store_remoteExec, M_bind. rewrite E.
  assert (Hl : ∀ w', w_role w' = w_role w → authority w' = st_data (w_leader w')) by (intros w' H; unfold authority; rewrite H; by destruct (w_role w)).
  assert (Hw1 : authority w1 = authority w) by (by rewrite (Hl w1 H1), (Hl w eq_refl), H3).
  destruct b; simpl; [|by rewrite Hw1].
  destruct (Apply _ (w_leader w1) _) as [[l err]|] eqn:Ea; simpl; [|split; [rewrite <- Hw1; by rewrite !Hl|done]].
  apply apply_keeps in Ea. set (w2 := set_w_leader l _).
  assert (Hw2 : f (authority w2) = f (authority w) ∧ w_role w2 = w_role w) by (split; [rewrite (Hl w2 H1), (Hl w eq_refl), <- H3|]; done).
  assert (Hi : f (authority (Store_invalidate w2).1) = f (authority w) ∧ w_role (Store_invalidate w2).1 = w_role w).
  { destruct (keeps_invalidate w2) as [K1 K2], Hw2. split; congruence. }
  assert (Hs : ∀ s, f (authority (set_w_store s w2)) = f (authority w) ∧ w_role (set_w_store s w2) = w_role w).
  { intros s. destruct Hw2 as [K1 K2]. split; [|done]. by rewrite <- K1, (Hl w2 K2), (Hl (set_w_store s w2) K2). }
  destruct (w_role w1) eqn:Hr1; destruct err as [e|]; simpl; try done;
    destruct (Apply (w_now w1) (w_store w1) _) as [[s0 e0]|]; simpl; done.
Qed.
Lemma keeps_exec : keeps f (Store_exec cmd).
Proof.
  intros w. unfold Store_exec. destruct (w_role w) eqn:Hr; rewrite <- Hr; [by apply local_keeps|apply remote_keeps; congruence..].
Qed.
End exec.
End keeps.

Create HintDb keeps.
#[export] Hint Resolve keeps_ret keeps_fail keeps_const keeps_try keeps_read keeps_invalidate : keeps.

(** *** Commands and statements *)

Lemma at_db_names i g d : (∀ di, di_Name (g di) = di_Name di) → admin_view (at_db i g d) = admin_view d.
Proof.
  intros Hg. unfold admin_view, at_db. simpl. f_equal. generalize (Databases d) as l.
  induction i as [|i IH]; intros [|di l]; try done; simpl; f_equal; [apply Hg|apply IH].
Qed.
Lemma admin_view_TermIndex t i d : admin_view (set_TermIndex t i d) = admin_view d.
Proof. done. Qed.
Lemma commit_view s r s' err :
  (∀ d, r = Ok d → admin_view d = admin_view (st_data s)) → commit s r = Some (s', err) →
  admin_view (st_data s') = admin_view (st_data s).
Proof. intros H. unfold commit. destruct r; intros [= <- <-]; [by apply H|done]. Qed.

Definition tame (cmd : Command) : Prop :=
  match cmd with
  | DropRetentionPolicyCommand _ _ | CreateContinuousQueryCommand _ _ _ | DropContinuousQueryCommand _ _
  | DeleteNodeCommand _ _ | RemovePeerCommand _ _ | CreateShardGroupCommand _ _ _ => True
  | _ => False
  end.
Lemma CreateShardGroup_view {GS : GoSort} d db policy ts d' : Data_CreateShardGroup d db policy ts = Ok d' → admin_view d' = admin_view d.
Proof.
  unfold Data_CreateShardGroup. destruct (_ =? 0); [done|]. destruct (Data_MustRetentionPolicy d db policy) as [[p rpi]|e|]; [|done..]. simpl.
  destruct (RetentionPolicyInfo_ShardGroupByTimestamp rpi ts); [done|]. destruct (_ <? 0); [done|].
  destruct (alloc_shards _ _) as [shards m]. destruct (assign_owners _ _ _ _); [|done..]. intros [= <-]. unfold at_rp. by rewrite at_db_names.
Qed.
Lemma tame_keeps_view {GS : GoSort} cmd now s s' err :
  tame cmd → apply_command now s cmd = Some (s', err) → admin_view (st_data s') = admin_view (st_data s).
Proof.
  destruct cmd; intros Ht; try done; simpl;
    try (apply commit_view; intros d; rewrite Data_Clone_id;
         unfold Data_DeleteNode, Data_DropRetentionPolicy, Data_CreateContinuousQuery, Data_DropContinuousQuery;
         repeat case_match; intros [= <-]; try by apply at_db_names).
  - unfold admin_view. simpl. by rewrite <- list_fmap_compose.
  - apply commit_view. intros d. rewrite Data_Clone_id. apply CreateShardGroup_view.
  - unfold applyRemovePeerCommand. destruct (st_isLeader s); simpl; destruct (st_id s =? _); by intros [= <- <-].
Qed.
Lemma keeps_tame {GS : GoSort} {bytes : Type} {PB : Protobuf bytes} cmd : tame cmd → keeps admin_view (Store_exec cmd).
Proof. intros Ht. apply keeps_exec; [apply admin_view_TermIndex|]. intros. by eapply tame_keeps_view. Qed.

Definition needs_admin (stmt : Statement) : bool :=
  match RequiredPrivileges stmt with Ok ps => existsb ep_Admin ps | _ => false end.

Section statements.
Context {GS : GoSort} {bytes : Type} {PB : Protobuf bytes} {CR : Crypto}.
Context {goText : GoText} {goTime : GoTime} {raftInfo : RaftInfo} {regexp : Regexp}.
Context {backend : Backend} {runner : Runner}.
Context (auto : bool).

Local Abbreviation kept := (keeps admin_view).

Lemma keeps_err_of {A} (m : M A) : kept m → kept (err_of m).
Proof. intros Hm. apply keeps_bind; auto with keeps. Qed.
Lemma keeps_then_rows {A} (m : M A) k : kept m → (∀ a, kept (k a)) → kept (then_rows m k).
Proof. intros Hm Hk. apply keeps_bind; [auto with keeps|]. intros [a|e]; [apply Hk|apply keeps_ret]. Qed.
Lemma keeps_found {A} (r : option (nat * A)) : kept (found r).
Proof. by destruct r as [[]|]. Qed.
Lemma keeps_Node id : kept (Store_Node id).
Proof. apply keeps_read. intros. apply keeps_found. Qed.
Lemma keeps_Database name : kept (Store_Database name).
Proof. apply keeps_read. intros. apply keeps_found. Qed.
Lemma keeps_Databases : kept Store_Databases.
Proof. apply keeps_read. intros. apply keeps_ret. Qed.
Lemma keeps_UserCount : kept Store_UserCount.
Proof. apply keeps_read. intros. apply keeps_ret. Qed.
Lemma keeps_ShardGroups db rp tmin tmax : kept (Store_ShardGroupsByTimeRange db rp tmin tmax).
Proof. apply keeps_read. intros d. by destruct (Data_ShardGroupsByTimeRange d db rp tmin tmax). Qed.
Lemma keeps_DeleteNode id force : kept (Store_DeleteNode id force).
Proof.
  intros w. unfold Store_DeleteNode. destruct (Data_Node _ _) as [[i ni]|]; [|done].
  apply (keeps_bind admin_view (Store_exec (DeleteNodeCommand id force))); [by apply keeps_tame|]. intros _. by apply keeps_tame.
Qed.

(** Without an administrator's privilege, a statement about metadata keeps the
    users and the databases. *)
Lemma ExecuteStatement_keeps stmt : needs_admin stmt = false → kept (ExecuteStatement auto stmt).
Proof.
  destruct stmt; try discriminate; intros _; cbn [ExecuteStatement]; try apply keeps_const.
  - apply keeps_err_of. by apply keeps_tame.
  - apply keeps_then_rows; [apply keeps_Node|]. intros [ni|]; [|apply keeps_ret]. apply keeps_err_of, keeps_DeleteNode.
  - apply keeps_err_of. by apply keeps_tame.
  - apply keeps_err_of. by apply keeps_tame.
  - apply keeps_then_rows; [apply keeps_Database|]. intros [di|]; apply keeps_ret.
Qed.

Lemma normalizeMeasurement_keeps b m db : kept (normalizeMeasurement b m db).
Proof.
  unfold normalizeMeasurement. destruct (_ && _); [apply keeps_ret|]. set (m' := if bool_decide _ then _ else m).
  destruct (bool_decide (Source_Database m' = EmptyString)); [apply keeps_ret|].
  apply keeps_bind; [apply keeps_try, keeps_Database|]. intros [[di|]|e]; repeat case_match; apply keeps_ret.
Qed.
Lemma normalize_sources_keeps l db : kept (normalize_sources l db).
Proof.
  induction l as [|m l IH]; simpl; [apply keeps_ret|]. apply keeps_bind; [apply normalizeMeasurement_keeps|].
  intros [m' [e|]]; [apply keeps_ret|]. apply keeps_bind; [done|]. intros [l' e]. apply keeps_ret.
Qed.
Lemma normalize_select_keeps s db : kept (normalize_select s db).
Proof.
  unfold normalize_select. apply keeps_bind.
  - destruct (Target s); [|apply keeps_ret]. apply keeps_bind; [apply normalizeMeasurement_keeps|]. intros [m' e]. apply keeps_ret.
  - intros [t [e|]]; [apply keeps_ret|]. apply keeps_bind; [apply normalize_sources_keeps|]. intros [l e]. apply keeps_ret.
Qed.
Lemma normalizeStatement_keeps stmt db : kept (normalizeStatement stmt db).
Proof.
  destruct stmt; cbn [normalizeStatement]; try apply keeps_ret;
    (apply keeps_bind; [apply normalize_select_keeps || apply normalize_sources_keeps|]; intros [x e]; apply keeps_ret).
Qed.
Lemma needs_admin_cq name db s : needs_admin (CreateContinuousQueryStatement name db s) = false.
Proof. unfold needs_admin, RequiredPrivileges, CreateContinuousQueryStatement_RequiredPrivileges. destruct (Target s); [|done]. by destruct (bool_decide _). Qed.
Lemma needs_admin_select s : needs_admin (SelectStmt s) = false.
Proof. unfold needs_admin, RequiredPrivileges, SelectStatement_RequiredPrivileges. by destruct (Target s). Qed.

(** A call and what follows it. *)
Lemma M_bind_ok {A C} (m : M A) (k : A → M C) w w' c :
  M_bind m k w = (w', Ok c) → ∃ w1 a, m w = (w1, Ok a) ∧ k a w1 = (w', Ok c).
Proof. unfold M_bind. destruct (m w) as [w1 [a|e|]]; [eauto|done..]. Qed.
Lemma normalizeStatement_admin stmt db w w' stmt' e :
  normalizeStatement stmt db w = (w', Ok (stmt', e)) → needs_admin stmt' = needs_admin stmt.
Proof.
  destruct stmt; cbn [normalizeStatement]; try (by intros [= <- <- <-]);
    intros (w1 & [x e1] & _ & [= _ <- _])%M_bind_ok; by rewrite ?needs_admin_cq, ?needs_admin_select.
Qed.

(** *** Queries *)

(** Writing points may create shard groups, but it touches neither the users nor
    the list of databases. *)
Definition kept_q {A} (m : QM A) : Prop :=
  ∀ q, admin_view (authority (q_meta (m q).1)) = admin_view (authority (q_meta q)).
Context (into_keeps : ∀ req, kept_q (WritePointsInto req)).

Lemma kept_ret {A} (a : A) : kept_q (mret a : QM A).
Proof. done. Qed.
Lemma kept_const {A} (r : QState → outcome GoError A) : kept_q (λ q, (q, r q)).
Proof. done. Qed.
Lemma kept_bind {A C} (m : QM A) (k : A → QM C) : kept_q m → (∀ a, kept_q (k a)) → kept_q (m ≫= k).
Proof.
  intros Hm Hk q. specialize (Hm q). unfold mbind, ST_bind. destruct (m q) as [q1 [a|e|]]; simpl in *; [|done..].
  rewrite Hk. done.
Qed.
Lemma kept_try {A} (m : QM A) : kept_q m → kept_q (st_try m).
Proof. intros Hm q. specialize (Hm q). unfold st_try. by destruct (m q) as [q1 [a|e|]]. Qed.
Lemma kept_meta {A} (m : M A) : kept m → kept_q (of_meta m).
Proof. intros Hm q. destruct (Hm (q_meta q)) as [H _]. unfold of_meta. by destruct (m (q_meta q)). Qed.

Lemma create_mappers_kept stmt chunk shards : kept_q (create_mappers stmt chunk shards).
Proof.
  induction shards as [|sh shards IH]; [apply kept_ret|]. intros q. cbn [create_mappers].
  destruct (CreateMapper q sh stmt chunk) as [m|e|]; [|done..]. apply (kept_bind (create_mappers stmt chunk shards)); [done|].
  intros l. apply kept_ret.
Qed.
Lemma target_shards_keeps l tmin tmax acc : kept (target_shards l tmin tmax acc).
Proof.
  revert acc. induction l as [|mm l IH]; intros acc; simpl; [apply keeps_ret|].
  apply keeps_bind; [apply keeps_ShardGroups|]. intros gs. apply IH.
Qed.
Lemma PlanSelect_kept now s chunk : kept_q (PlanSelect now s chunk).
Proof.
  unfold PlanSelect. apply kept_bind; [apply kept_const|]. intros c.
  apply kept_bind; [apply kept_meta, keeps_bind; [apply target_shards_keeps|]; intros; apply keeps_ret|]. intros shards.
  apply kept_bind; [apply create_mappers_kept|]. intros mappers. unfold choose_executor. case_match; [apply kept_ret|].
  apply kept_bind; [apply kept_const|]. intros []; apply kept_ret.
Qed.
Lemma database_mappers_kept stmt db chunk : kept_q (database_mappers stmt db chunk).
Proof.
  apply kept_bind; [apply kept_meta, keeps_Database|]. intros [di|]; [apply create_mappers_kept|apply kept_const].
Qed.
Lemma planStatement_kept now stmt db chunk : kept_q (planStatement now stmt db chunk).
Proof.
  destruct stmt; try apply kept_const; [apply PlanSelect_kept|..]; cbn [planStatement]; unfold PlanShowMeasurements, PlanShowTagKeys;
    (case_match; [apply kept_const|]; apply kept_bind; [apply database_mappers_kept|]; intros; apply kept_ret).
Qed.
Lemma writeInto_kept r t : kept_q (writeInto r t).
Proof.
  unfold writeInto. apply kept_bind; [apply kept_const|]. intros db. apply kept_bind; [apply kept_const|]. intros ps. apply into_keeps.
Qed.
Lemma stream_rows_kept id t rows st : kept_q (stream_rows id t rows st).
Proof.
  revert st. induction rows as [|r rows IH]; intros st; simpl; [apply kept_ret|].
  destruct (writeerr st); [apply IH|]. destruct (Row_Err r); [apply kept_ret|]. destruct t as [t|]; [|apply IH].
  apply kept_bind; [apply kept_try, writeInto_kept|]. intros res. apply IH.
Qed.
Lemma executeStatement_kept id stmt db chunk : kept_q (executeStatement id stmt db chunk).
Proof.
  unfold executeStatement. apply kept_bind; [apply kept_try; intros q; apply planStatement_kept|].
  intros [e|e]; [|apply kept_ret]. apply kept_bind; [apply kept_const|]. intros rows.
  apply kept_bind; [apply stream_rows_kept|]. intros st. repeat case_match; apply kept_ret.
Qed.
Lemma dispatch_kept i stmt db chunk : needs_admin stmt = false → kept_q (dispatch auto i stmt db chunk).
Proof.
  intros Ha. pose proof (ExecuteStatement_keeps stmt Ha) as He.
  destruct stmt; try discriminate; cbn [dispatch];
    try (apply kept_bind; [apply executeStatement_kept|]; intros [l [e|]]; apply kept_ret);
    (apply kept_bind; [|intros; apply kept_ret]); try apply kept_const; try (apply kept_meta; apply He).
  all: intros q; unfold of_execE, show_q, of_showE, set_dbs; done.
Qed.
Lemma execute_from_kept i stmts db chunk : Forall (λ s, needs_admin s = false) stmts → kept_q (execute_from auto i stmts db chunk).
Proof.
  revert i. induction stmts as [|stmt rest IH]; intros i Hs; [apply kept_ret|]. apply Forall_cons in Hs as [H1 H2].
  intros q. cbn [execute_from]. unfold mbind, ST_bind at 1. unfold of_meta at 1.
  set (db' := if bool_decide (db = EmptyString) then _ else db).
  destruct (normalizeStatement_keeps stmt db' (q_meta q)) as [Hk _].
  destruct (normalizeStatement stmt db' (q_meta q)) as [w1 [[stmt' [e|]]|e|]] eqn:En; try done.
  apply normalizeStatement_admin in En. simpl in Hk. rewrite <- Hk.
  apply (kept_bind (dispatch auto i stmt' db chunk)); [apply dispatch_kept; congruence|].
  intros [l [r|]]; [destruct (Result_Err _); [apply kept_ret|]|]; (apply kept_bind; [by apply IH|]; intros more; apply kept_ret).
Qed.

(** *** Authorization *)

Lemma check_privileges_none u db stmt ps :
  check_privileges u db stmt ps = None ↔
  Forall (λ p, ep_Admin p = false ∧
    UserInfo_Authorize u (ep_Privilege p) (if bool_decide (ep_Name p = EmptyString) then db else ep_Name p) = true) ps.
Proof.
  induction ps as [|p ps IH]; cbn [check_privileges]; [done|]. rewrite Forall_cons, <- IH.
  destruct (ep_Admin p); [naive_solver|]. set (b := UserInfo_Authorize _ _ _). destruct b; simpl; naive_solver.
Qed.
Lemma check_statements_none u db stmts : check_statements u db stmts = Ok None ↔
  Forall (λ stmt, ∃ ps, RequiredPrivileges stmt = Ok ps ∧ check_privileges u db stmt ps = None) stmts.
Proof.
  induction stmts as [|stmt stmts IH]; cbn [check_statements]; [done|]. rewrite Forall_cons, <- IH.
  destruct (RequiredPrivileges stmt) as [ps|e|]; [|naive_solver..].
  destruct (check_privileges u db stmt ps) eqn:E; naive_solver.
Qed.
Lemma authorized_unprivileged u db stmts : check_statements u db stmts = Ok None → Forall (λ s, needs_admin s = false) stmts.
Proof.
  rewrite check_statements_none. intros Hs. eapply Forall_impl; [exact Hs|]. intros stmt (ps & E & H%check_privileges_none). unfold needs_admin. rewrite E.
  apply not_true_iff_false. intros (p & Hp & Ht)%existsb_exists. rewrite Forall_forall in H.
  apply list_elem_of_In in Hp. destruct (H p Hp). congruence.
Qed.

(** There are users, so that the query is checked. *)
Lemma UserCount_ok w : ∃ w', Store_UserCount w = (w', Ok (Z.of_nat (length (Users (st_data (w_store w)))))) ∧ w' = w.
Proof. eexists. by split. Qed.
Lemma Authorize_user u query db w : Users (st_data (w_store w)) ≠ [] → ui_Admin u = false →
  Authorize (Some u) query db w = (w, check_statements u db query).
Proof.
  intros Hu Ha. unfold Authorize, M_bind, M_try. destruct (UserCount_ok w) as (w' & -> & ->).
  destruct (Users (st_data (w_store w))) as [|x l]; [done|]. simpl. by rewrite Ha.
Qed.
End statements.

(** A query that is authorized for a user who is no administrator changes
    neither the users, with their passwords and privileges, nor which databases
    there are, in the metadata that the cluster agrees on: whatever statements it
    has, whatever fails on the way, on the leader as on any other node.  Writing
    points is assumed to do so too. *)
Theorem unprivileged_query_keeps_users {GS : GoSort} {bytes : Type} {PB : Protobuf bytes} {CR : Crypto}
    {goText : GoText} {goTime : GoTime} {raftInfo : RaftInfo} {regexp : Regexp} {backend : Backend} {runner : Runner}
    (auto : bool) (u : UserInfo) (query : Query) (database : string) (chunkSize : Z) (q : QState) (w : World) :
  (∀ req, kept_q (WritePointsInto req)) →
  Users (st_data (w_store (q_meta q))) ≠ [] → ui_Admin u = false →
  Authorize (Some u) query database (q_meta q) = (w, Ok None) →
  let q' := (ExecuteQuery auto query database chunkSize (mkQState w (q_dbs q))).1 in
  admin_view (authority (q_meta q')) = admin_view (authority (q_meta q)).
Proof.
  intros Hi Hu Ha. rewrite Authorize_user by done. intros [= <- H]. simpl.
  exact (execute_from_kept auto Hi 0 query database chunkSize (authorized_unprivileged _ _ _ H) (mkQState (q_meta q) (q_dbs q))).
Qed.

(** ** What authorization does not check *)

(** A database that is named is kept. *)
Lemma normalizeMeasurement_names {GS : GoSort} {bytes : Type} {PB : Protobuf bytes} b m db w w' m' e :
  Source_Database m ≠ EmptyString → normalizeMeasurement b m db w = (w', Ok (m', e)) → Source_Database m' = Source_Database m.
Proof.
  intros Hm. unfold normalizeMeasurement. destruct (_ && _); [by intros [= <- <- <-]|].
  rewrite !(bool_decide_false (Source_Database m = EmptyString)) by done.
  intros (w1 & x & _ & H)%M_bind_ok. unfold M_ret in H. repeat case_match; simplify_eq; done.
Qed.

(** Privileges are asked for on the database of the request, whatever databases a
    statement names: with [READ] there a user may select from every database, with
    [WRITE] drop the continuous queries of every database, and with [ALL] remove a
    server from the cluster. *)
Theorem authorization_misses_databases {GS : GoSort} {bytes : Type} {PB : Protobuf bytes} {goText : GoText}
    (w : World) (u : UserInfo) (database : string) :
  Users (st_data (w_store w)) ≠ [] → ui_Admin u = false →
  (∀ s, Target s = None → UserInfo_Authorize u ReadPrivilege database = true →
    Authorize (Some u) [SelectStmt s] database w = (w, Ok None)) ∧
  (∀ name other, UserInfo_Authorize u WritePrivilege database = true →
    Authorize (Some u) [DropContinuousQueryStatement name other] database w = (w, Ok None)) ∧
  (∀ id force, UserInfo_Authorize u AllPrivileges database = true →
    Authorize (Some u) [DropServerStatement id force] database w = (w, Ok None)).
Proof.
  intros Hu Ha.
  assert (Hone : ∀ stmt ps, RequiredPrivileges stmt = Ok ps → check_privileges u database stmt ps = None →
    Authorize (Some u) [stmt] database w = (w, Ok None)).
  { intros stmt ps H1 H2. rewrite Authorize_user by done. f_equal. apply check_statements_none. repeat constructor. eauto. }
  split_and!; [intros s Ht Hp|intros name other Hp|intros id force Hp]; (eapply Hone; [reflexivity|]);
    apply check_privileges_none; unfold SelectStatement_RequiredPrivileges; rewrite ?Ht; repeat constructor; exact Hp.
Qed.

(** While there are no users, a query that starts by creating an administrator
    is authorized as a whole. *)
Theorem bootstrap_authorizes_everything {GS : GoSort} {bytes : Type} {PB : Protobuf bytes} {goText : GoText}
    (w : World) (user : option UserInfo) (name password database : string) (rest : Query) :
  Users (st_data (w_store w)) = [] →
  Authorize user (CreateUserStatement name password true :: rest) database w = (w, Ok None).
Proof. intros Hu. unfold Authorize, M_bind, M_try. destruct (UserCount_ok w) as (w' & -> & ->). by rewrite Hu. Qed.

(** ** Plans: the shards that a statement is mapped to *)

From S2P Require Import MetaInv MetaProps MetaClientProps QlExprProps.

(** ** Collecting shards *)

(** The IDs in order of appearance, each with its shard. *)
Definition collected (acc : gmap Z ShardInfo * list Z) : Prop :=
  NoDup acc.2 ∧ (∀ id, id ∈ acc.2 ↔ is_Some (acc.1 !! id)) ∧ ∀ id sh, acc.1 !! id = Some sh → si_ID sh = id.

Lemma add_shard_collected acc sh : collected acc →
  collected (add_shard acc sh) ∧ ∀ id, id ∈ (add_shard acc sh).2 ↔ id ∈ acc.2 ∨ id = si_ID sh.
Proof.
  intros (H1 & H2 & H3). unfold add_shard. case_decide as Hd.
  - split; [done|]. intros id. split; [by left|]. intros [?| ->]; [done|]. by apply H2.
  - simpl. split; [|intros id; rewrite elem_of_app, list_elem_of_singleton; done]. split_and!; simpl.
    + apply NoDup_app. split_and!; [done| |apply NoDup_singleton]. intros id Hid ->%list_elem_of_singleton. by apply H2 in Hid.
    + intros id. rewrite elem_of_app, list_elem_of_singleton, lookup_insert_is_Some', H2. naive_solver.
    + intros id sh' Hl. destruct (decide (id = si_ID sh)) as [->|Hne].
      * rewrite lookup_insert_eq in Hl. by injection Hl as <-.
      * rewrite lookup_insert_ne in Hl by done. by apply H3.
Qed.
Lemma add_shards_collected l acc : collected acc →
  collected (foldl add_shard acc l) ∧ ∀ id, id ∈ (foldl add_shard acc l).2 ↔ id ∈ acc.2 ∨ id ∈ si_ID <$> l.
Proof.
  revert acc. induction l as [|sh l IH]; intros acc Hc; simpl; [split; [done|]; intros id; rewrite elem_of_nil; tauto|].
  destruct (add_shard_collected acc sh Hc) as [H1 H2]. destruct (IH _ H1) as [H3 H4]. split; [done|]. intros id.
  rewrite H4, H2, elem_of_cons. tauto.
Qed.
Lemma collected_shards acc ids : collected acc → ids ≡ₚ acc.2 → si_ID <$> omap (λ id, acc.1 !! id) ids = ids.
Proof.
  intros (_ & H2 & H3) Hp. assert (Hin : ∀ id, id ∈ ids → is_Some (acc.1 !! id)) by (intros id; rewrite Hp; apply H2).
  clear Hp H2. induction ids as [|id ids IH]; [done|]. simpl. destruct (Hin id) as [sh Hsh]; [by left|]. rewrite Hsh. simpl.
  rewrite (H3 _ _ Hsh). f_equal. apply IH. intros. apply Hin. by right.
Qed.

(** ** The groups of the sources *)

Section plan.
Context {GS : GoSort} {bytes : Type} {PB : Protobuf bytes} {goText : GoText}.

(** The groups that are asked for a source. *)
Definition source_groups (d : Data) (tmin tmax : Time) (src : Source) : list ShardGroupInfo :=
  match Data_ShardGroupsByTimeRange d (Source_Database src) (Source_RetentionPolicy src) tmin tmax with Ok gs => gs | _ => [] end.
Definition resolved (d : Data) (src : Source) : Prop :=
  ∃ p r, Data_MustRetentionPolicy d (Source_Database src) (Source_RetentionPolicy src) = Ok (p, r).

Lemma target_shards_leader w sources tmin tmax acc :
  leader_world w → Forall (resolved (w_data w)) sources → collected acc →
  ∃ acc', target_shards sources tmin tmax acc w = (w, Ok acc') ∧ collected acc' ∧
    ∀ id, id ∈ acc'.2 ↔ id ∈ acc.2 ∨ ∃ src, src ∈ sources ∧ id ∈ si_ID <$> (source_groups (w_data w) tmin tmax src ≫= sgi_Shards).
Proof.
  intros Hw Hs. revert acc. induction Hs as [|src sources (p & r & Hr) Hs IH]; intros acc Hc; simpl.
  { exists acc. split_and!; [done..|]. intros id. set_solver. }
  assert (Hg : Data_ShardGroupsByTimeRange (w_data w) (Source_Database src) (Source_RetentionPolicy src) tmin tmax =
    Ok (source_groups (w_data w) tmin tmax src)).
  { unfold source_groups, Data_ShardGroupsByTimeRange. by rewrite Hr. }
  unfold M_bind. unfold Store_ShardGroupsByTimeRange.
  rewrite (read_leader w _ (source_groups (w_data w) tmin tmax src) None Hw) by (by rewrite Hg).
  destruct (add_shards_collected (source_groups (w_data w) tmin tmax src ≫= sgi_Shards) acc Hc) as [H1 H2].
  destruct (IH _ H1) as (acc' & E & H3 & H4). exists acc'. split_and!; [done..|]. intros id. rewrite H4. unfold add_groups. rewrite H2. set_solver.
Qed.

Lemma planned_shards_leader w sources tmin tmax :
  leader_world w → Forall (resolved (w_data w)) sources →
  ∃ l, planned_shards sources (tmin, tmax) w = (w, Ok l) ∧ StronglySorted Z.lt (si_ID <$> l) ∧
    ∀ id, id ∈ si_ID <$> l ↔ ∃ src, src ∈ sources ∧ id ∈ si_ID <$> (source_groups (w_data w) tmin tmax src ≫= sgi_Shards).
Proof.
  intros Hw Hs. assert (H0 : collected (∅, [])) by (split_and!; [apply NoDup_nil_2|intros id; split; [by intros ?%elem_of_nil|by intros [? ?]]|done]).
  destruct (target_shards_leader w sources tmin tmax (∅, []) Hw Hs H0) as (acc & E & Hc & Hin).
  pose proof (sort_perm Z Z.ltb acc.2) as Hp. pose proof (sort_sorted Z Z.ltb id acc.2 ltac:(done)) as Hst.
  unfold planned_shards. cbn [fst snd]. unfold M_bind. rewrite E. eexists. split; [reflexivity|].
  rewrite (collected_shards acc _ Hc Hp). split.
  - assert (Hnd : NoDup (sort_Sort Z.ltb acc.2)) by (rewrite Hp; apply Hc).
    clear -Hst Hnd. induction Hst as [|x l Hl IH Hx]; [constructor|]. apply NoDup_cons in Hnd as [Hni Hnd].
    constructor; [by apply IH|]. rewrite Forall_forall in Hx |- *. intros y Hy. specialize (Hx y Hy). simpl in Hx.
    assert (x ≠ y) by (intros ->; done). unfold id in Hx. lia.
  - intros id. rewrite Hp, Hin. set_solver.
Qed.
End plan.

(** ** The times of a condition *)

Lemma conj_in_range e P t : conj e = true → time_sat cmp_holds P t e = true → in_range (TimeRange e) t.
Proof. intros Hc Hs. apply foldl_narrow_sound; [by split; left|]. eapply conj_nodes; eauto. Qed.
Lemma plan_times_cover now e P t : conj e = true → time_sat cmp_holds P t e = true →
  ((TimeRange e).1 = Time_zero → Time_Unix0 0 ≤ t) → ((TimeRange e).2 = Time_zero → t ≤ now) →
  (plan_times now (Some e)).1 ≤ t ≤ (plan_times now (Some e)).2.
Proof.
  intros Hc Hs Hlo Hhi. destruct (conj_in_range e P t Hc Hs) as [H1 H2]. unfold plan_times. destruct (TimeRange e) as [tmin tmax]. simpl in *.
  unfold Time_IsZero. destruct (Z.eqb_spec tmin 0), (Z.eqb_spec tmax 0); (split; [try (by apply Hlo)|try (by apply Hhi)]); lia.
Qed.

Lemma group_asked d src tmin tmax p r g t :
  Data_MustRetentionPolicy d (Source_Database src) (Source_RetentionPolicy src) = Ok (p, r) →
  g ∈ rpi_ShardGroups r → live g → ShardGroupInfo_Contains g t = true → tmin ≤ t ≤ tmax → g ∈ source_groups d tmin tmax src.
Proof.
  intros Hr Hg Hl [H1 H2]%Contains_spec Ht. unfold source_groups, Data_ShardGroupsByTimeRange. rewrite Hr. simpl.
  apply list_elem_of_filter. split; [|done]. unfold live in Hl. rewrite Hl.
  unfold ShardGroupInfo_Overlaps, Time_After. simpl.
  rewrite (proj2 (Z.ltb_ge tmax (sgi_StartTime g))), (proj2 (Z.ltb_lt tmin (sgi_EndTime g))) by lia. done.
Qed.

(** C28: A select statement is mapped to every shard that can hold points it is
    about.  On the leader (one whose calls on Raft succeed), for a statement whose
    sources name existing policies and whose condition is reduced, with the current time for [now()], without a panic
    and to a conjunction, [PlanSelect] makes mappers for shards in order of their
    IDs, each once; and when a point at time [t] satisfies the condition's
    comparisons of time, the shards of every live group of a source that contains
    [t] are among them.  Where the condition has no lower bound [t] is not before
    1970, and where it has no upper bound not after the current time: other times
    are not planned for. *)
Theorem plan_reaches_matching_shards {GS : GoSort} {bytes : Type} {PB : Protobuf bytes} {backend : Backend}
    (q : QState) (now : Time) (s : SelectStatement) (chunkSize : Z) (c c' : Expr) (P : Expr → bool) (t : Time) :
  leader_world (q_meta q) → Forall (resolved (w_data (q_meta q))) (Sources s) →
  Condition s = Some c → Reduce c (Some (NowValuer now)) = Ok c' → conj c' = true →
  time_sat cmp_holds P t c' = true →
  ((TimeRange c').1 = Time_zero → Time_Unix0 0 ≤ t) → ((TimeRange c').2 = Time_zero → t ≤ now) →
  ∃ l, PlanSelect now s chunkSize q =
      (create_mappers (SelectStmt (set_condition s (Some c'))) chunkSize l ≫= choose_executor (set_condition s (Some c')) chunkSize) q ∧
    StronglySorted Z.lt (si_ID <$> l) ∧
    ∀ src p r g sh, src ∈ Sources s →
      Data_MustRetentionPolicy (w_data (q_meta q)) (Source_Database src) (Source_RetentionPolicy src) = Ok (p, r) →
      g ∈ rpi_ShardGroups r → live g → ShardGroupInfo_Contains g t = true → sh ∈ sgi_Shards g →
      si_ID sh ∈ si_ID <$> l.
Proof.
  intros Hw Hs Hcond Hred Hc Ht Hlo Hhi. pose proof (plan_times_cover now c' P t Hc Ht Hlo Hhi) as Hp.
  destruct (plan_times now (Some c')) as [tmin tmax] eqn:Ep. simpl in Hp.
  destruct (planned_shards_leader (q_meta q) (Sources s) tmin tmax Hw Hs) as (l & E & Hsort & Hin). exists l. split_and!; [|done|].
  - unfold PlanSelect. rewrite Hcond, Hred. unfold mbind, ST_bind at 1, of_exprE_panic. cbn [outcome_bind]. rewrite Ep.
    unfold ST_bind at 1, of_meta. change (Sources (set_condition s (Some c'))) with (Sources s). rewrite E. by destruct q.
  - intros src p r g sh Hsrc Hr Hg Hl Hct Hsh. apply Hin. exists src. split; [done|]. apply list_elem_of_fmap_2.
    apply list_elem_of_bind. exists g. split; [done|]. by eapply group_asked.
Qed.

(** A backend whose mappers are the shards. *)
Definition shard_backend : Backend := {|
  Mapper := ShardInfo; CreateMapper _ sh _ _ := Ok (Some sh);
  Point := unit; NewPoint _ _ _ _ := Some tt; WritePointsInto _ := mret tt;
  Monitor_ExecuteStatement _ := ok_result [];
  Store_DeleteDatabase _ _ _ := None; Store_deleteSeries _ := true; Store_deleteMeasurement _ _ := true |}.

Definition plan_group (id start : Z) : ShardGroupInfo :=
  mkShardGroupInfo id (unixEpoch + start) (unixEpoch + start + Hour) Time_zero [mkShardInfo (10 - id) []].
Definition plan_policy : RetentionPolicyInfo :=
  mkRetentionPolicyInfo "rp" 1 0 Hour [plan_group 1 0; plan_group 2 Hour; plan_group 3 (2 * Hour)] [].
Definition plan_state : QState :=
  mkQState (mkWorld (set_data (mkData 1 1 1 [] [mkDatabaseInfo "db" "rp" [plan_policy] []] [] 0 3 9) (Store_new 1 true))
    RaftLeader (Store_new 1 true) 1 1 0 0 [] []) ∅.
Definition plan_stmt : SelectStatement :=
  mkSelect [mkField (VarRef "value") EmptyString] None [] [mkSource "db" "rp" "cpu" None]
    (Some (BinaryExpr GT (VarRef "time") (BinaryExpr SUB (Call "now" []) (DurationLiteral Hour)))) [] 0 0 0 0 0 true NullFill VNil.
Definition plan_now : Time := unixEpoch + 2 * Hour + 1.

Lemma plan_reaches_matching_shards_witness :
  ∃ l, @PlanSelect _ _ _ shard_backend plan_now plan_stmt 0 plan_state =
      (@create_mappers shard_backend (SelectStmt (set_condition plan_stmt (Some (BinaryExpr GT (VarRef "time") (TimeLiteral (plan_now - Hour)))))) 0 l
        ≫= @choose_executor shard_backend (set_condition plan_stmt (Some (BinaryExpr GT (VarRef "time") (TimeLiteral (plan_now - Hour))))) 0) plan_state ∧
    StronglySorted Z.lt (si_ID <$> l) ∧ 7 ∈ si_ID <$> l.
Proof.
  destruct (@plan_reaches_matching_shards _ _ _ shard_backend plan_state plan_now plan_stmt 0
    (BinaryExpr GT (VarRef "time") (BinaryExpr SUB (Call "now" []) (DurationLiteral Hour)))
    (BinaryExpr GT (VarRef "time") (TimeLiteral (plan_now - Hour))) (λ _, true) plan_now) as (l & H1 & H2 & H3).
  - split; reflexivity.
  - repeat constructor. exists (0%nat, 0%nat), plan_policy. reflexivity.
  - reflexivity.
  - vm_compute. reflexivity.
  - reflexivity.
  - vm_compute. reflexivity.
  - vm_compute. discriminate.
  - vm_compute. discriminate.
  - exists l. split; [exact H1|]. split; [exact H2|].
    apply (H3 (mkSource "db" "rp" "cpu" None) (0%nat, 0%nat) plan_policy (plan_group 3 (2 * Hour)) (mkShardInfo 7 [])).
    + by left.
    + reflexivity.
    + right. right. left.
    + reflexivity.
    + vm_compute. reflexivity.
    + left.
Defined.

(** The plan of this statement has the two shards of the last hour. *)
Example plan_stmt_shards :
  match (@PlanSelect _ _ _ shard_backend plan_now plan_stmt 0 plan_state).2 with
  | Ok (RawExecutor _ mappers _) => si_ID <$> mappers
  | _ => []
  end = [7; 8].
Proof. vm_compute. reflexivity. Qed.
