(* ===== verification/Points.v ===== *)
(** * Points: [models/points.go]

    The line protocol: [measurement,tag=value,... field=value,... timestamp].
    A slice of bytes is its bytes and the bytes behind them up to its capacity:
    [s[a:b]] may reach into these, and panics only past the capacity.  A position
    in a slice is a natural number, and a loop that moves a position forward is a
    recursion over the bytes that are left. *)

From stdpp Require Import base list strings gmap sorting.
From Stdlib Require Import ZArith Ascii Lia SpecFloat.
From S2P Require Import Prelude MetaData QlToken Escape QlExpr QlSelect QlPrint QlReader QlScan QlDuration QlNumber Strconv.
From S2P Require Import TsdbMerge TsdbIndex Rows.

Local Open Scope nat_scope.

(** ** Slices *)

Record slice := mkSlice { s_bytes : list ascii; s_spare : list ascii }.
Definition len (s : slice) : nat := length (s_bytes s).
Definition text (s : slice) : string := String.string_of_list_ascii (s_bytes s).
Definition of_string : string → list ascii := String.list_ascii_of_string.

(** [s[a:b]] *)
Definition slice_of {E} (s : slice) (a b : nat) : outcome E slice :=
  let all := s_bytes s ++ s_spare s in
  if (a <=? b) && (b <=? length all) then Ok (mkSlice (take (b - a) (drop a all)) (drop b all)) else Panic.
(** [s[i-k]] *)
Definition byte_back {E} (s : slice) (i k : nat) : outcome E ascii :=
  if i <? k then Panic else match s_bytes s !! (i - k) with Some c => Ok c | None => Panic end.

(** The error of a scan, which comes with the bytes up to where it happened. *)
Definition scan_failed {A} (buf : slice) (start i : nat) (message : string) : outcome string A :=
  let! _ := slice_of buf start i in Err message.

Definition eqc (c d : ascii) : bool := bool_decide (c = d).
Definition next_is (p : ascii → bool) (l : list ascii) : bool := match l with c :: _ => p c | [] => false end.
Definition separator (c : ascii) : bool := eqc c "," || eqc c " ".
Definition tab : ascii := "009"%char.
Definition zero_byte : ascii := "000"%char.

(** ** Moving over bytes *)

Definition is_space (c : ascii) : bool := eqc c " " || eqc c tab || eqc c zero_byte.
Fixpoint spaces (l : list ascii) : nat :=
  match l with
  | c :: l => if is_space c then S (spaces l) else 0
  | [] => 0
  end.
Definition skipWhitespace (buf : slice) (i : nat) : nat := i + spaces (drop i (s_bytes buf)).

(** How far to a byte that ends a block; a backslash takes two bytes, the second
    of which need not be there. *)
Fixpoint until (stop : ascii → bool) (l : list ascii) : nat :=
  match l with
  | [] => 0
  | c :: l =>
      if eqc c backslash then match l with [] => 2 | _ :: l => 2 + until stop l end
      else if stop c then 0
      else S (until stop l)
  end.
Definition scan_until {E} (stop : ascii → bool) (buf : slice) (i : nat) : outcome E (nat * slice) :=
  let j := i + until stop (drop i (s_bytes buf)) in
  let! s := slice_of buf i j in Ok (j, s).
Definition scanTo {E} (buf : slice) (i : nat) (stop : ascii) : outcome E (nat * slice) :=
  scan_until (λ c, eqc c stop) buf i.
Definition scanToSpaceOr {E} (buf : slice) (i : nat) (stop : ascii) : outcome E (nat * slice) :=
  scan_until (λ c, eqc c stop || eqc c " ") buf i.
Definition scanTagValue {E} (buf : slice) (i : nat) : outcome E (nat * slice) :=
  scan_until (λ c, eqc c ",") buf i.

Fixpoint field_value_end (quoted : bool) (l : list ascii) : nat :=
  match l with
  | [] => 0
  | c :: l =>
      match l with
      | d :: l' =>
          if eqc c backslash && eqc d dquote then 2 + field_value_end quoted l'
          else if eqc c dquote then S (field_value_end (negb quoted) l)
          else if eqc c "," && negb quoted then 0
          else S (field_value_end quoted l)
      | [] => if eqc c dquote then 1 else if eqc c "," && negb quoted then 0 else 1
      end
  end.
Definition scanFieldValue {E} (buf : slice) (i : nat) : outcome E (nat * slice) :=
  let j := i + field_value_end false (drop i (s_bytes buf)) in
  let! s := slice_of buf i j in Ok (j, s).

(** A quote that is not behind a backslash changes whether a newline ends the
    line, once there was a space.  [prev] is the byte before, [i] its position. *)
Fixpoint line_end (fields quoted : bool) (prev : option ascii) (i : nat) (l : list ascii) : nat :=
  match l with
  | [] => 0
  | c :: l =>
      let fields := fields || eqc c " " in
      if fields && eqc c dquote && (1 <? i) && match prev with Some p => negb (eqc p backslash) | None => false end
      then S (line_end fields (negb quoted) (Some c) (S i) l)
      else if eqc c newline && negb quoted then 0
      else S (line_end fields quoted (Some c) (S i) l)
  end.
Definition scanLine {E} (buf : slice) (i : nat) : outcome E (nat * slice) :=
  let prev := match i with O => None | S k => s_bytes buf !! k end in
  let j := i + line_end false false prev i (drop i (s_bytes buf)) in
  let! s := slice_of buf i j in Ok (j, s).

(** ** The key: measurement and tags *)

(** The loop of [scanKey] over the bytes [l] from position [i]: where it stops,
    how many commas and equals signs there were, and where the tags start. *)
Fixpoint scanKey_loop (buf : slice) (start : nat) (l : list ascii) (i commas equals : nat) (indices : list nat)
    : outcome string (nat * nat * nat * list nat) :=
  let failed {A} (i : nat) (m : string) : outcome string A := scan_failed buf start i m in
  match l with
  | [] => if (equals =? 0) && (0 <? commas) then failed i "missing tag value" else Ok (i, commas, equals, indices)
  | c :: l' =>
      if eqc c "=" && (0 <? commas) then
        if i <? 2 then failed i "missing tag key"
        else
          let! p := byte_back buf i 1 in
          let! q := byte_back buf i 2 in
          if separator p && negb (eqc q backslash) then failed i "missing tag key"
          else if next_is separator l' then failed (S i) "missing tag value"
          else scanKey_loop buf start l' (S i) commas (S equals) indices
      else if eqc c backslash then
        match l' with
        | [] => scanKey_loop buf start l' (2 + i) commas equals indices
        | _ :: l'' => scanKey_loop buf start l'' (2 + i) commas equals indices
        end
      else if eqc c "," then
        if (equals =? 0) && (0 <? commas) then failed i "missing tag value"
        else if next_is (λ d, eqc d " ") l' then failed (S i) "missing tag key"
        else scanKey_loop buf start l' (S i) (S commas) equals (indices ++ [S i])
      else if eqc c " " then
        if (equals =? 0) && (0 <? commas) then failed i "missing tag value"
        else if (0 <? equals) && negb (commas =? equals) then failed i "missing tag value"
        else Ok (i, commas, equals, indices ++ [S i])
      else scanKey_loop buf start l' (S i) commas equals indices
  end.

(** The name of the tag between two of the indices. *)
Definition tag_between (buf : slice) (indices : list nat) (j : nat) : outcome string (list ascii) :=
  let! tag := slice_of buf (indices !!! j) (indices !!! S j - 1) in
  let! r := scanTo tag 0 "=" in
  Ok (s_bytes r.2).
Definition bytes_less (a b : list ascii) : bool :=
  String.ltb (String.string_of_list_ascii a) (String.string_of_list_ascii b).

(** The tags are compared in pairs from both ends: [Ok true] when no pair is out
    of order. *)
Fixpoint compare_ends (buf : slice) (start i : nat) (indices : list nat) (commas : nat) (k j : nat) (sorted : bool)
    : outcome string bool :=
  match k with
  | O => Ok sorted
  | S k =>
      let! first := tag_between buf indices j in
      let! last := tag_between buf indices (commas - j - 1) in
      if bool_decide (first = last) then scan_failed buf start i "duplicate tags"
      else compare_ends buf start i indices commas k (S j) (sorted && negb (bytes_less last first))
  end.

(** [less]: the names of the tags at two positions. *)
Definition less {E} (buf : slice) (i j : nat) : outcome E bool :=
  let! a := scanTo buf i "=" in
  let! b := scanTo buf j "=" in
  Ok (bytes_less (s_bytes a.2) (s_bytes b.2)).
(** An element moves to the left past greater ones; the elements on its left are
    listed from the right. *)
Fixpoint sink {E} (buf : slice) (x : nat) (before : list nat) : outcome E (list nat) :=
  match before with
  | [] => Ok [x]
  | y :: before' =>
      let! b := less buf x y in
      if b : bool then let! r := sink buf x before' in Ok (y :: r) else Ok (x :: before)
  end.
Fixpoint insertionSort {E} (buf : slice) (before rest : list nat) : outcome E (list nat) :=
  match rest with
  | [] => Ok (rev before)
  | x :: rest => let! before := sink buf x before in insertionSort buf before rest
  end.

(** The sorted key is written into [n] bytes. *)
Fixpoint write_tags {E} (buf : slice) (n : nat) (written : list ascii) (indices : list nat) : outcome E (list ascii) :=
  match indices with
  | [] => Ok (written ++ replicate (n - length written) zero_byte)
  | i :: indices =>
      if length written <? n then
        let! v := scanToSpaceOr buf i "," in
        write_tags buf n (take n (written ++ [","%char] ++ s_bytes v.2)) indices
      else Panic
  end.

Definition scanKey (buf : slice) (i : nat) : outcome string (nat * slice) :=
  let start := skipWhitespace buf i in
  let! (i, commas, equals, indices) := scanKey_loop buf start (drop start (s_bytes buf)) start 0 0 [] in
  if (0 <? equals) && negb (commas =? equals) then scan_failed buf start i "invalid tag format"
  else if len buf <=? i then scan_failed buf start i "missing fields"
  else
    let! sorted := compare_ends buf start i indices commas (commas / 2) 0 true in
    if negb sorted && (0 <? commas) then
      let! measurement := slice_of buf start (indices !!! 0 - 1) in
      let! indices := insertionSort buf [] (take commas indices) in
      let! key := slice_of buf start i in
      let! b := write_tags buf (len key) (take (len key) (s_bytes measurement)) indices in
      Ok (i, mkSlice b [])
    else let! key := slice_of buf start i in Ok (i, key).

(** ** Field values *)

Definition isNumeric (c : ascii) : bool := isDigit (rn c) || eqc c ".".

(** The loop of [scanNumber]: where the number ends, whether it has an [i], and
    whether it has a decimal point or an exponent. *)
Fixpoint scanNumber_loop (buf : slice) (start : nat) (l : list ascii) (i : nat) (isInt : bool) (decimals : nat) (scientific : bool)
    : outcome string (nat * bool * nat * bool) :=
  match l with
  | [] => Ok (i, isInt, decimals, scientific)
  | c :: l' =>
      if separator c then Ok (i, isInt, decimals, scientific)
      else if eqc c "i" && (start <? i) && negb isInt then scanNumber_loop buf start l' (S i) true decimals scientific
      else
        let decimals := if eqc c "." then S decimals else decimals in
        if 1 <? decimals then Err "invalid number"
        else if (start <? i) && (eqc c "e" || eqc c "E") then scanNumber_loop buf start l' (S i) isInt decimals true
        else
          let! sign :=
            (if eqc c "+" || eqc c "-" then let! p := byte_back buf i 1 in Ok (eqc p "e" || eqc p "E") else Ok false) in
          if sign : bool then scanNumber_loop buf start l' (S i) isInt decimals scientific
          else if (2 + i <? len buf) && (eqc c "N" || eqc c "n") then Err "invalid number"
          else if negb (isNumeric c) then Err "invalid number"
          else scanNumber_loop buf start l' (S i) isInt decimals scientific
  end.

Definition maxInt64Digits : nat := 19.
Definition minInt64Digits : nat := 20.
Definition maxFloat64Digits : nat := 25.
Definition minFloat64Digits : nat := 27.

Section scan.
Context {goText : GoText}.

(** Numbers are converted only when they may be out of range. *)
Definition points_scanNumber (buf : slice) (i : nat) : outcome string nat :=
  let start := i in
  let minus := next_is (λ c, eqc c "-") (drop i (s_bytes buf)) in
  if minus && (S i =? len buf) then Err "invalid number"
  else
    let i := if minus then S i else i in
    let! (i, isInt, decimals, scientific) := scanNumber_loop buf start (drop i (s_bytes buf)) i false 0 false in
    if isInt && ((0 <? decimals) || scientific) then Err "invalid number"
    else if isInt then
      let! last := byte_back buf i 1 in
      if negb (eqc last "i") then Err "invalid number"
      else
        let! digits := slice_of buf start (i - 1) in
        if (maxInt64Digits <=? len digits) || (minInt64Digits <=? len digits) then
          match ParseInt (text digits) with
          | Some _ => Ok i
          | None => Err ("unable to parse integer " +:+ text digits +:+ ": " +:+ error_Error "strconv.ParseInt" (text digits))
          end
        else Ok i
    else
      let! digits := slice_of buf start i in
      if scientific || (maxFloat64Digits <=? len digits) || (minFloat64Digits <=? len digits) then
        match ParseFloat64 (text digits) with Some _ => Ok i | None => Err "invalid float" end
      else Ok i.

Definition scanBoolean {A} (buf : slice) (i : nat) (k : nat → slice → outcome string A) : outcome string A :=
  let start := i in
  let failed i := scan_failed buf start i "invalid boolean" in
  if next_is (λ c, negb (eqc c "t" || eqc c "f" || eqc c "T" || eqc c "F")) (drop i (s_bytes buf)) then failed i
  else
    let i := match list_find (λ c, separator c = true) (drop (S start) (s_bytes buf)) with
             | Some (n, _) => S start + n
             | None => Nat.max (S start) (len buf)
             end in
    if i - start =? 1 then let! s := slice_of buf start i in k i s
    else
      let! c := byte_back buf start 0 in
      if (eqc c "t" || eqc c "T") && negb (i - start =? 4) then failed i
      else if (eqc c "f" || eqc c "F") && negb (i - start =? 5) then failed i
      else
        let! s := slice_of buf start i in
        let valid := bool_decide (text s ∈ (if eqc c "t" then ["true"] else if eqc c "f" then ["false"]
                                           else if eqc c "T" then ["TRUE"; "True"] else ["FALSE"; "False"])) in
        if valid then k i s else failed i.

Definition isFieldEscapeChar : ascii → bool := is_code.

(** The loop of [scanFields].  [skip] bytes are passed over first: those that an
    escape or a value takes. *)
Fixpoint scanFields_loop (buf : slice) (start : nat) (l : list ascii) (i skip : nat) (quoted : bool) (equals commas : nat)
    : outcome string (nat * bool * nat * nat) :=
  let failed {A} (i : nat) (m : string) : outcome string A := scan_failed buf start i m in
  match l with
  | [] => Ok (i, quoted, equals, commas)
  | c :: l' =>
      match skip with
      | S skip => scanFields_loop buf start l' (S i) skip quoted equals commas
      | O =>
          if eqc c backslash &&
             next_is (λ d, if quoted then eqc d dquote || eqc d backslash else isFieldEscapeChar d) l' then
            scanFields_loop buf start l' (S i) 1 quoted equals commas
          else if eqc c dquote then scanFields_loop buf start l' (S i) 0 (negb quoted) equals commas
          else if eqc c "=" && negb quoted then
            let! p := byte_back buf i 1 in
            let! missing := (if separator p then let! q := byte_back buf i 2 in Ok (negb (eqc q backslash)) else Ok false) in
            if missing : bool then failed i "missing field key"
            else
              match l' with
              | [] => failed i "missing field value"
              | d :: _ =>
                  if separator d then failed i "missing field value"
                  else if isNumeric d || eqc d "-" || eqc d "N" || eqc d "n" then
                    let! e := points_scanNumber buf (S i) in
                    scanFields_loop buf start l' (S i) (e - S i) quoted (S equals) commas
                  else if negb (eqc d dquote) then
                    scanBoolean buf (S i) (λ e _, scanFields_loop buf start l' (S i) (e - S i) quoted (S equals) commas)
                  else scanFields_loop buf start l' (S i) 0 quoted (S equals) commas
              end
          else if eqc c "," && negb quoted then scanFields_loop buf start l' (S i) 0 quoted equals (S commas)
          else if eqc c " " && negb quoted then Ok (i, quoted, equals, commas)
          else scanFields_loop buf start l' (S i) 0 quoted equals commas
      end
  end.

Definition scanFields (buf : slice) (i : nat) : outcome string (nat * slice) :=
  let start := skipWhitespace buf i in
  let! (i, quoted, equals, commas) := scanFields_loop buf start (drop start (s_bytes buf)) start 0 false 0 0 in
  if quoted : bool then scan_failed buf start i "unbalanced quotes"
  else if (equals =? 0) || negb (S commas =? equals) then scan_failed buf start i "invalid field format"
  else let! s := slice_of buf start i in Ok (i, s).

(** ** The time *)

Fixpoint scanTime_loop (buf : slice) (start : nat) (l : list ascii) (i : nat) : outcome string nat :=
  match l with
  | [] => Ok i
  | c :: l =>
      if negb (isDigit (rn c)) then
        if (i =? start) && eqc c "-" then scanTime_loop buf start l (S i)
        else scan_failed buf start i "bad timestamp"
      else scanTime_loop buf start l (S i)
  end.
Definition scanTime (buf : slice) (i : nat) : outcome string (nat * slice) :=
  let start := skipWhitespace buf i in
  let! i := scanTime_loop buf start (drop start (s_bytes buf)) start in
  let! s := slice_of buf start i in Ok (i, s).
End scan.

(** ** Points *)

(** Values of fields.  [int], [int8] to [int64] and [uint8] to [uint32] are
    written alike; a [uint] is converted to [int64].  [FvOther] is a value of any
    other type, with its text. *)
Inductive PointValue :=
| FvInt (z : Z)
| FvUint (z : Z)
| FvFloat32 (f : float64)
| FvFloat (f : float64)
| FvBool (b : bool)
| FvBytes (b : list ascii)
| FvString (s : string)
| FvNil
| FvOther (v : string).
Definition Tags : Type := gmap string string.
Definition PointFields : Type := gmap string PointValue.

Record point := mkPoint {
  p_time : Time;
  p_key : slice;
  p_fields : slice;
  p_ts : slice;
  p_data : list ascii;
  p_cachedFields : option PointFields;
  p_cachedName : string
}.
Definition set_p_time (t : Time) (p : point) : point :=
  mkPoint t (p_key p) (p_fields p) (p_ts p) (p_data p) (p_cachedFields p) (p_cachedName p).
Definition set_p_key (k : slice) (p : point) : point :=
  mkPoint (p_time p) k (p_fields p) (p_ts p) (p_data p) (p_cachedFields p) (p_cachedName p).
Definition set_p_fields (f : slice) (p : point) : point :=
  mkPoint (p_time p) (p_key p) f (p_ts p) (p_data p) (p_cachedFields p) (p_cachedName p).
Definition set_p_cachedFields (c : option PointFields) (p : point) : point :=
  mkPoint (p_time p) (p_key p) (p_fields p) (p_ts p) (p_data p) c (p_cachedName p).
Definition set_p_cachedName (n : string) (p : point) : point :=
  mkPoint (p_time p) (p_key p) (p_fields p) (p_ts p) (p_data p) (p_cachedFields p) n.
Definition empty_slice : slice := mkSlice [] [].

(** ** Precision *)

Definition precision_unit (precision : string) : option Duration :=
  if bool_decide (precision = "u") then Some Microsecond
  else if bool_decide (precision = "ms") then Some Millisecond
  else if bool_decide (precision = "s") then Some QlDuration.Second
  else if bool_decide (precision = "m") then Some Minute
  else if bool_decide (precision = "h") then Some Hour
  else None.
Definition SetPrecision (precision : string) (p : point) : point :=
  match precision_unit precision with
  | Some d => set_p_time (Time_Truncate (p_time p) d) p
  | None => p
  end.
Definition GetPrecisionMultiplier (precision : string) : Z := default 1%Z (precision_unit precision).

(** ** Parsing *)

Section parse.
Context {goText : GoText}.

Definition parsePoint (buf : slice) (defaultTime : Time) (precision : string) : outcome string point :=
  let! (pos, key) := scanKey buf 0 in
  if len key =? 0 then Err "missing measurement"
  else
    let! (pos, fields) := scanFields buf pos in
    if len fields =? 0 then Err "missing fields"
    else
      let! (pos, ts) := scanTime buf pos in
      let pt t := mkPoint t key fields ts [] None EmptyString in
      if len ts =? 0 then Ok (SetPrecision precision (pt defaultTime))
      else
        match ParseInt (text ts) with
        | None => Err (error_Error "strconv.ParseInt" (text ts))
        | Some n => Ok (pt (Time_Unix0 (i64 (n * GetPrecisionMultiplier precision))))
        end.

(** The loop of [ParsePointsWithPrecision].  [Err tt] says that the fuel was not
    enough. *)
Fixpoint parse_lines (fuel : nat) (buf : slice) (pos : nat) (defaultTime : Time) (precision : string)
    (points : list point) (failed : list string) : outcome unit (list point * list string) :=
  match fuel with
  | O => Err tt
  | S fuel =>
      let! (pos, block) := scanLine buf pos in
      let pos := S pos in
      let next := parse_lines fuel buf pos defaultTime precision in
      if len block =? 0 then Ok (points, failed)
      else
        let start := skipWhitespace block 0 in
        match s_bytes block !! start with
        | None => next points failed
        | Some c =>
            if eqc c "#" then next points failed
            else
              let! block :=
                (if bool_decide (last (s_bytes block) = Some newline) then slice_of block 0 (len block - 1) else Ok block) in
              let! line := slice_of block start (len block) in
              let stop points failed := if len buf <=? pos then Ok (points, failed) else next points failed in
              match parsePoint line defaultTime precision with
              | Ok pt => stop (points ++ [pt]) failed
              | Err e => stop points (failed ++ ["unable to parse '" +:+ text line +:+ "': " +:+ e])
              | Panic => Panic
              end
        end
  end.

(** The points, and the text of the error when a line could not be parsed. *)
Definition ParsePointsWithPrecision (fuel : nat) (buf : slice) (defaultTime : Time) (precision : string)
    : outcome unit (list point * option string) :=
  let! (points, failed) := parse_lines fuel buf 0 defaultTime precision [] [] in
  Ok (points, match failed with [] => None | _ => Some (String.concat (String newline EmptyString) failed) end).
Definition ParsePoints (now : Time) (fuel : nat) (buf : slice) : outcome unit (list point * option string) :=
  ParsePointsWithPrecision fuel buf now "n".
End parse.

(** ** Escaping *)

Definition measurementEscapeCodes : list (string * string) := pair_of <$> [","; " "]%char.
Definition tagEscapeCodes : list (string * string) := pair_of <$> [","; " "; "="]%char.

(** The order in which Go visits the maps of codes and the fields of a point, and
    the bytes behind what [append] returns.  Neither is specified. *)
Class PointMaps := {
  measurement_order : list (string * string);
  tag_order : list (string * string);
  code_order : list (string * string);
  iter_fields : PointFields → list (string * PointValue);
  append_spare : nat → list ascii;
  measurement_order_perm : measurement_order ≡ₚ measurementEscapeCodes;
  tag_order_perm : tag_order ≡ₚ tagEscapeCodes;
  code_order_perm : code_order ≡ₚ codesStr;
  iter_fields_perm : ∀ m, iter_fields m ≡ₚ map_to_list m
}.

Fixpoint escapeStringField (s : string) : string :=
  match s with
  | EmptyString => EmptyString
  | String c s =>
      if eqc c backslash || eqc c dquote then String backslash (String c (escapeStringField s))
      else String c (escapeStringField s)
  end.
Fixpoint unescapeStringField (s : string) : string :=
  match s with
  | EmptyString => EmptyString
  | String c s' =>
      match s' with
      | String d s'' =>
          if eqc c backslash && (eqc d backslash || eqc d dquote) then String d (unescapeStringField s'')
          else String c (unescapeStringField s')
      | EmptyString => String c EmptyString
      end
  end.

Section points.
Context {maps : PointMaps}.

Definition escapeMeasurement (s : string) : string := escape_Bytes measurement_order s.
Definition unescapeMeasurement (s : string) : string := UnescapeString measurement_order s.
Definition escapeTag (s : string) : string := escape_Bytes tag_order s.
Definition unescapeTag (s : string) : string := UnescapeString tag_order s.

(** ** Keys *)

(** Tags whose value is empty are left out. *)
Definition escaped_tags (t : Tags) : Tags :=
  list_to_map (omap (λ kv, if bool_decide (escapeTag kv.2 = EmptyString) then None else Some (escapeTag kv.1, escapeTag kv.2)) (map_to_list t)).
Definition HashKey (t : Tags) : string :=
  let escaped := escaped_tags t in
  foldr (λ k s, "," +:+ k +:+ "=" +:+ (escaped !!! k) +:+ s) EmptyString (sort_Strings (fst <$> map_to_list escaped)).
Definition appended (s : string) : slice := mkSlice (of_string s) (append_spare (String.length s)).
Definition MakeKey (name : string) (tags : Tags) : slice :=
  appended (escapeMeasurement (unescapeMeasurement name) +:+ HashKey tags).

(** [Name] remembers the name; so the point is an argument and a result. *)
Definition name_of {E} (p : point) : outcome E string := let! r := scanTo (p_key p) 0 "," in Ok (text r.2).
Definition Name {E} (p : point) : outcome E (point * string) :=
  if negb (bool_decide (p_cachedName p = EmptyString)) then Ok (p, p_cachedName p)
  else let! n := name_of p in Ok (set_p_cachedName (Unescape n) p, Unescape n).

(** The loop of [Tags]; [Err tt] when the fuel is not enough. *)
Fixpoint tags_from (fuel : nat) (key : slice) (i : nat) (tags : Tags) : outcome unit Tags :=
  match fuel with
  | O => Err tt
  | S fuel =>
      if len key <=? i then Ok tags
      else
        let! (i, k) := scanTo key i "=" in
        let! (i, v) := scanTagValue key (S i) in
        if len v =? 0 then tags_from fuel key i tags
        else tags_from fuel key (S i) (<[unescapeTag (text k) := unescapeTag (text v)]> tags)
  end.
Definition point_Tags (p : point) : outcome unit Tags :=
  if len (p_key p) =? 0 then Ok ∅
  else
    let! (pos, name) := scanTo (p_key p) 0 "," in
    if len name =? 0 then Ok ∅ else tags_from (2 + len (p_key p)) (p_key p) (S pos) ∅.

Definition SetName (name : string) (p : point) : outcome unit point :=
  let p := set_p_cachedName EmptyString p in
  let! tags := point_Tags p in Ok (set_p_key (MakeKey name tags) p).
Definition SetTags (tags : Tags) (p : point) : outcome unit point :=
  let! (p, name) := Name p in Ok (set_p_key (MakeKey name tags) p).
Definition AddTag (key value : string) (p : point) : outcome unit point :=
  let! tags := point_Tags p in
  let! (p, name) := Name p in
  Ok (set_p_key (MakeKey name (<[key := value]> tags)) p).

(** ** Fields *)

Definition value_text (v : PointValue) : list ascii :=
  match v with
  | FvInt z => of_string (Sprintf_d z +:+ "i")
  | FvUint z => of_string (Sprintf_d (i64 z) +:+ "i")
  | FvFloat32 f => of_string (FormatFloat32 f)
  | FvFloat f => of_string (FormatFloat64 f)
  | FvBool b => of_string (if b then "true" else "false")
  | FvBytes b => b
  | FvString s => [dquote] ++ of_string (escapeStringField s) ++ [dquote]
  | FvNil => []
  | FvOther s => [dquote] ++ of_string (escapeStringField s) ++ [dquote]
  end.
Definition field_text (fields : PointFields) (k : string) : list ascii :=
  of_string (escape_String code_order k) ++ ["="%char] ++ value_text (default FvNil (fields !! k)).
Fixpoint joined (l : list (list ascii)) : list ascii :=
  match l with
  | [] => []
  | [x] => x
  | x :: l => x ++ [","%char] ++ joined l
  end.
(** The comma behind the last field stays behind the slice. *)
Definition Fields_MarshalBinary (fields : PointFields) : slice :=
  match sort_Strings (fst <$> map_to_list fields) with
  | [] => empty_slice
  | keys => let b := joined (field_text fields <$> keys) in mkSlice b ([","%char] ++ append_spare (length b))
  end.

Definition parseNumber (s : string) : option PointValue :=
  if HasSuffix s "i" then FvInt <$> ParseInt (drop_last 1 s) else FvFloat <$> ParseFloat64 s.
Definition number_start (c : ascii) : bool :=
  isDigit (rn c) || eqc c "-" || eqc c "+" || eqc c "." || eqc c "N" || eqc c "n" || eqc c "I" || eqc c "i".

(** A value that cannot be converted panics. *)
Definition parse_value {E} (value : slice) : outcome E PointValue :=
  match s_bytes value with
  | [] => Ok FvNil
  | c :: _ =>
      if eqc c dquote then let! s := slice_of value 1 (len value - 1) in Ok (FvString (unescapeStringField (text s)))
      else if number_start c then match parseNumber (text value) with Some v => Ok v | None => Panic end
      else match ParseBool (text value) with Some b => Ok (FvBool b) | None => Panic end
  end.
(** The loop of [newFieldsFromBinary]; [Err tt] when the fuel is not enough. *)
Fixpoint fields_from (fuel : nat) (buf : slice) (i : nat) (fields : PointFields) : outcome unit PointFields :=
  match fuel with
  | O => Err tt
  | S fuel =>
      if len buf <=? i then Ok fields
      else
        let! (i, name) := scanTo buf i "=" in
        if len name =? 0 then fields_from fuel buf i fields
        else
          let name := Unescape (text name) in
          let! (i, value) := scanFieldValue buf (S i) in
          if len value =? 0 then fields_from fuel buf i (<[name := FvNil]> fields)
          else let! v := parse_value value in fields_from fuel buf (S i) (<[name := v]> fields)
  end.
Definition newFieldsFromBinary (fuel : nat) (buf : slice) : outcome unit PointFields := fields_from fuel buf 0 ∅.

Definition point_Fields (fuel : nat) (p : point) : outcome unit (point * PointFields) :=
  match p_cachedFields p with
  | Some f => Ok (p, f)
  | None => let! f := newFieldsFromBinary fuel (p_fields p) in Ok (set_p_cachedFields (Some f) p, f)
  end.
Definition AddField (fuel : nat) (name : string) (value : PointValue) (p : point) : outcome unit point :=
  let! (p, f) := point_Fields fuel p in
  Ok (set_p_cachedFields None (set_p_fields (Fields_MarshalBinary (<[name := value]> f)) p)).

(** ** Making and printing points *)

Definition is_NaN (v : PointValue) : bool := match v with FvFloat S754_nan => true | _ => false end.
Definition NewPoint (name : string) (tags : Tags) (fields : PointFields) (t : Time) : outcome string point :=
  match list_find (λ kv, is_NaN kv.2 = true) (iter_fields fields) with
  | Some (_, (key, _)) => Err ("NaN is an unsupported value for field " +:+ key)
  | None => Ok (mkPoint t (MakeKey name tags) (Fields_MarshalBinary fields) empty_slice [] None EmptyString)
  end.
Definition MustNewPoint (name : string) (tags : Tags) (fields : PointFields) (t : Time) : outcome string point :=
  match NewPoint name tags fields t with Err _ => Panic | r => r end.

Definition HashID (p : point) : Z := fnv_Write fnv_offset64 (text (p_key p)).
End points.

(** [t.Round(d)] *)
Definition Time_Round (t : Time) (d : Duration) : Time :=
  (if d <=? 0 then t else let r := t mod d in if r + r <? d then t - r else t + (d - r))%Z.
Definition time_text (p : point) (n : Z) : string :=
  text (p_key p) +:+ " " +:+ text (p_fields p) +:+ if Time_IsZero (p_time p) then EmptyString else " " +:+ Sprintf_d n.
Definition point_String (p : point) : string := time_text p (Time_UnixNano (p_time p)).
Definition PrecisionString (precision : string) (p : point) : string :=
  time_text p (Z.quot (Time_UnixNano (p_time p)) (GetPrecisionMultiplier precision)).
Definition RoundedString (d : Duration) (p : point) : string :=
  time_text p (Time_UnixNano (Time_Round (p_time p) d)).
