(* ===== verification/PointsSafe.v ===== *)
(** * Parsing points does not panic

    With one byte of spare capacity behind a buffer, [ParsePoints] returns on every
    text: no byte and no slice is taken out of range. *)

From stdpp Require Import base list strings gmap sorting.
From Stdlib Require Import ZArith Ascii Lia SpecFloat.
From S2P Require Import Prelude MetaData QlToken Escape QlExpr QlSelect QlPrint QlReader QlScan QlDuration QlNumber Strconv.
From S2P Require Import TsdbMerge TsdbIndex Rows Points.

Local Open Scope nat_scope.

(** ** Outcomes that are no panic *)

Definition no_panic {E A} (m : outcome E A) (Q : A → Prop) : Prop :=
  match m with Ok a => Q a | Err _ => True | Panic => False end.

Lemma no_panic_bind {E A B} (m : outcome E A) (k : A → outcome E B) Q R :
  no_panic m Q → (∀ a, Q a → no_panic (k a) R) → no_panic (outcome_bind m k) R.
Proof. destruct m; simpl; eauto. Qed.
Lemma no_panic_mono {E A} (m : outcome E A) (Q R : A → Prop) : no_panic m Q → (∀ a, Q a → R a) → no_panic m R.
Proof. destruct m; simpl; eauto. Qed.

(** A slice with at least one byte behind it. *)
Definition spare (s : slice) : Prop := s_spare s ≠ [].
Lemma spare_length s : spare s ↔ len s < length (s_bytes s ++ s_spare s).
Proof. unfold spare, len. rewrite length_app. destruct (s_spare s); simpl; split; intros; try done; lia. Qed.

Lemma slice_of_eq {E} s a b : a ≤ b → b ≤ len s →
  slice_of (E := E) s a b = Ok (mkSlice (take (b - a) (drop a (s_bytes s))) (drop b (s_bytes s) ++ s_spare s)).
Proof.
  intros Hab Hb. unfold slice_of, len in *. rewrite length_app.
  rewrite (proj2 (Nat.leb_le a b)), (proj2 (Nat.leb_le b _)) by lia. cbn [andb]. f_equal. f_equal.
  - rewrite drop_app_le by lia. rewrite take_app_le by (rewrite length_drop; lia). done.
  - by rewrite drop_app_le by lia.
Qed.
Lemma slice_of_safe {E} s a b : spare s → a ≤ b → b ≤ S (len s) →
  no_panic (slice_of (E := E) s a b) (λ r, len r = b - a ∧ (b ≤ len s → spare r)).
Proof.
  intros Hs Hab Hb. apply spare_length in Hs as Hl. unfold slice_of.
  rewrite (proj2 (Nat.leb_le a b)), (proj2 (Nat.leb_le b _)) by lia. simpl. split.
  - unfold len. simpl. rewrite length_take, length_drop. lia.
  - intros Hb'. apply spare_length. unfold len. simpl. rewrite length_app, length_take, !length_drop. lia.
Qed.
Lemma failed_safe {A} s start i m (Q : A → Prop) : spare s → start ≤ i → i ≤ S (len s) → no_panic (scan_failed s start i m) Q.
Proof.
  intros Hs Ha Hb. unfold scan_failed. eapply no_panic_bind; [by apply slice_of_safe|]. done.
Qed.
Lemma byte_back_safe {E} s i k : k ≤ i → i - k < len s →
  no_panic (byte_back (E := E) s i k) (λ c, s_bytes s !! (i - k) = Some c).
Proof.
  intros Hk Hi. unfold byte_back. rewrite (proj2 (Nat.ltb_ge i k)) by lia.
  destruct (lookup_lt_is_Some_2 (s_bytes s) (i - k)) as [c Hc]; [exact Hi|]. by rewrite Hc.
Qed.

(** ** Moving over bytes *)

(** Induction for recursions that take one byte or two. *)
Lemma bytes_ind2 (P : list ascii → Prop) :
  P [] → (∀ c, P [c]) → (∀ c d l, P l → P (d :: l) → P (c :: d :: l)) → ∀ l, P l.
Proof.
  intros H0 H1 H2 l. enough (P l ∧ ∀ c, P (c :: l)) by tauto.
  induction l as [|d l [IH1 IH2]]; split; eauto.
Qed.
Lemma until_length stop l : until stop l ≤ S (length l).
Proof.
  induction l as [|c|c d l IH1 IH2] using bytes_ind2; [simpl; lia|simpl; repeat case_match; lia|].
  cbn [until]. destruct (eqc c backslash); [simpl in *; lia|]. destruct (stop c); simpl in *; lia.
Qed.
Lemma spaces_length l : spaces l ≤ length l.
Proof. induction l as [|c l IH]; simpl; [lia|]. destruct (is_space c); lia. Qed.
Lemma skipWhitespace_bounds s i : i ≤ len s → i ≤ skipWhitespace s i ≤ len s.
Proof.
  intros Hi. unfold skipWhitespace, len in *. pose proof (spaces_length (drop i (s_bytes s))) as H.
  rewrite length_drop in H. lia.
Qed.
Lemma scan_until_safe {E} stop s i : spare s → i ≤ len s →
  no_panic (scan_until (E := E) stop s i) (λ r, i ≤ r.1 ≤ S (len s) ∧ r.1 = i + until stop (drop i (s_bytes s)) ∧ len r.2 = r.1 - i).
Proof.
  intros Hs Hi. unfold scan_until. pose proof (until_length stop (drop i (s_bytes s))) as H. rewrite length_drop in H.
  unfold len in *. eapply no_panic_bind; [apply slice_of_safe; [done| |]; unfold len; lia|]. intros r [Hr _]. simpl. unfold len in *. lia.
Qed.
Lemma line_end_length f q p i l : line_end f q p i l ≤ length l.
Proof.
  revert f q p i. induction l as [|c l IH]; intros f q p i; simpl; [lia|].
  destruct (_ && _ && _ && _); [|destruct (_ && _); [lia|]]; specialize (IH (f || eqc c " ")).
  - specialize (IH (negb q) (Some c) (S i)). lia.
  - specialize (IH q (Some c) (S i)). lia.
Qed.

Lemma drop_cons {A} (l : list A) i c l' : drop i l = c :: l' → l !! i = Some c ∧ drop (S i) l = l' ∧ i < length l.
Proof.
  intros H. assert (Hc : l !! i = Some c). { rewrite <- (Nat.add_0_r i), <- lookup_drop, H. done. }
  split; [done|]. split; [|by eapply lookup_lt_Some].
  change (S i) with (1 + i). rewrite Nat.add_comm, <- drop_drop, H. done.
Qed.
Lemma drop_nil {A} (l : list A) i : drop i l = [] → length l ≤ i.
Proof. intros H. apply (f_equal length) in H. rewrite length_drop in H. simpl in H. lia. Qed.

(** ** The key *)

Definition sep : ascii → bool := λ c, eqc c "," || eqc c " ".

(** What the indices of the tags say: from the start of a tag to where a
    separator ends it is just before the next index. *)
Record tags_at (bytes : list ascii) (start i : nat) (indices : list nat) : Prop := {
  tags_step : ∀ j x y, indices !! j = Some x → indices !! S j = Some y → x + until sep (drop x bytes) + 1 = y;
  tags_first : ∀ x, indices !! 0 = Some x → start < x;
  tags_last : ∀ x, last indices = Some x → x ≤ i ∧ x + until sep (drop x bytes) = i + until sep (drop i bytes)
}.

Lemma tags_at_nil bytes start i : tags_at bytes start i [].
Proof. constructor; done. Qed.
Lemma tags_move bytes start i k indices : tags_at bytes start i indices →
  until sep (drop i bytes) = k + until sep (drop (k + i) bytes) → tags_at bytes start (k + i) indices.
Proof.
  intros [H1 H2 H3] Hk. constructor; [done..|]. intros x Hx. destruct (H3 x Hx) as [? He]. split; [lia|]. rewrite He, Hk. lia.
Qed.
Lemma tags_next bytes start i indices : start ≤ i → tags_at bytes start i indices → until sep (drop i bytes) = 0 →
  tags_at bytes start (S i) (indices ++ [S i]).
Proof.
  intros Hs [H1 H2 H3] H0. constructor.
  - intros j x y Hx Hy. apply lookup_app_Some in Hy as [Hy|[Hj Hy]].
    + apply lookup_lt_Some in Hy as Hl. rewrite lookup_app_l in Hx by lia. by eapply H1.
    + apply list_lookup_singleton_Some in Hy as [Hj' <-]. rewrite lookup_app_l in Hx by lia.
      destruct (H3 x) as [_ ->]; [|lia]. rewrite last_lookup. replace (pred (length indices)) with j by lia. done.
  - intros x Hx. apply lookup_app_Some in Hx as [Hx|[_ Hx]]; [by eapply H2|].
    apply list_lookup_singleton_Some in Hx as [_ <-]. lia.
  - intros x. rewrite last_snoc. intros [= <-]. split; [lia|done].
Qed.

Definition key_scanned (buf : slice) (start : nat) (r : nat * nat * nat * list nat) : Prop :=
  let '(i, commas, equals, indices) := r in
  start ≤ i ≤ S (len buf) ∧
  (i < len buf → s_bytes buf !! i = Some " "%char ∧ length indices = S commas ∧
     tags_at (s_bytes buf) start (S i) indices ∧ last indices = Some (S i)).

Lemma until_plain stop c l : eqc c backslash = false → stop c = false → until stop (c :: l) = S (until stop l).
Proof. intros H1 H2. simpl. by rewrite H1, H2. Qed.

Lemma eqc_true c d : eqc c d = true → c = d.
Proof. apply bool_decide_eq_true_1. Qed.
Lemma next_is_eq p l : next_is p l = true → ∃ c l', l = c :: l' ∧ p c = true.
Proof. destruct l as [|c l]; [done|]. simpl. eauto. Qed.

Lemma scanKey_loop_no_panic buf start : spare buf → ∀ l i commas equals indices,
  l = drop i (s_bytes buf) → start ≤ i → i ≤ S (len buf) → length indices = commas →
  tags_at (s_bytes buf) start i indices →
  no_panic (scanKey_loop buf start l i commas equals indices) (key_scanned buf start).
Proof.
  intros Hsp l. induction l as [l IH] using (induction_ltof1 _ (@length ascii)). unfold ltof in IH.
  intros i commas equals indices Hl Hs Hi Hlen Ht. destruct l as [|c l'].
  { symmetry in Hl. apply drop_nil in Hl. cbn [scanKey_loop].
    destruct (_ && _); [by apply failed_safe|]. simpl. unfold len in *. lia. }
  symmetry in Hl. destruct (drop_cons _ _ _ _ Hl) as (Hc & Hl' & Hlt). cbn [scanKey_loop].
  assert (Hstep : eqc c backslash = false → sep c = false → ∀ commas equals, length indices = commas →
    no_panic (scanKey_loop buf start l' (S i) commas equals indices) (key_scanned buf start)).
  { intros H1 H2 commas' equals' Hn. apply IH; try done; unfold len; [simpl; lia|lia|lia|].
    apply (tags_move _ _ i 1); [done|]. rewrite Hl. rewrite until_plain by done. by rewrite <- Hl'. }
  destruct (eqc c "=" && (0 <? commas)) eqn:Eeq.
  { apply andb_true_iff in Eeq as [->%eqc_true _]. destruct (Nat.ltb_spec i 2); [by apply failed_safe|].
    eapply no_panic_bind; [apply byte_back_safe; unfold len; lia|]. intros p _.
    eapply no_panic_bind; [apply byte_back_safe; unfold len; lia|]. intros q _.
    destruct (_ && _); [by apply failed_safe|]. destruct (next_is _ _); [apply failed_safe; unfold len; try done; lia|].
    by apply Hstep. }
  clear Eeq. destruct (eqc c backslash) eqn:Eb.
  { assert (Hd : drop (2 + i) (s_bytes buf) = match l' with [] => [] | _ :: l'' => l'' end).
    { destruct l' as [|d l'']; [apply drop_nil in Hl'; apply drop_ge; lia|]. by apply drop_cons in Hl' as (_ & <- & _). }
    assert (Hu : until sep (drop i (s_bytes buf)) = 2 + until sep (drop (2 + i) (s_bytes buf))).
    { rewrite Hd, Hl. cbn [until]. rewrite Eb. by destruct l'. }
    destruct l' as [|d l'']; (apply IH; [simpl; lia|by rewrite Hd|lia|unfold len; lia|done|by apply tags_move]). }
  destruct (eqc c ",") eqn:Ec.
  { apply eqc_true in Ec as ->. destruct (_ && _); [by apply failed_safe|].
    destruct (next_is _ _); [apply failed_safe; unfold len; try done; lia|].
    apply IH; try done; unfold len; [simpl; lia|lia|lia|rewrite length_app; simpl; lia|].
    apply tags_next; [done..|]. by rewrite Hl. }
  destruct (eqc c " ") eqn:Es.
  { apply eqc_true in Es as ->. destruct (_ && _); [by apply failed_safe|]. destruct (_ && _); [by apply failed_safe|].
    simpl. unfold len in *. split; [lia|]. intros _. rewrite length_app, last_snoc. split_and!; [done|simpl; lia| |done].
    apply tags_next; [done..|]. by rewrite Hl. }
  apply Hstep; [done| |done]. unfold sep. by rewrite Ec, Es.
Qed.

Lemma tags_le bytes start i indices j x y : tags_at bytes start i indices →
  indices !! j = Some x → indices !! S j = Some y → x < y.
Proof. intros H Hx Hy. pose proof (tags_step _ _ _ _ H j x y Hx Hy). lia. Qed.
Lemma tags_bound bytes start i indices j x : tags_at bytes start i indices → indices !! j = Some x → start < x ≤ i.
Proof.
  intros H Hx. assert (Hlo : ∀ k y, indices !! k = Some y → start < y).
  { induction k as [|k IH]; intros y Hy; [by eapply tags_first|].
    destruct (indices !! k) as [z|] eqn:Ez.
    - specialize (IH z eq_refl). pose proof (tags_le _ _ _ _ _ _ _ H Ez Hy). lia.
    - apply lookup_ge_None_1 in Ez. apply lookup_lt_Some in Hy. lia. }
  split; [by eapply Hlo|]. destruct (last indices) as [z|] eqn:El.
  - destruct (tags_last _ _ _ _ H z El) as [Hz _]. rewrite last_lookup in El.
    assert (Hup : ∀ m k y, indices !! k = Some y → pred (length indices) = m + k → y ≤ z).
    { induction m as [|m IH]; intros k y Hy Hm; [simpl in Hm; rewrite Hm, Hy in El; by injection El as ->|].
      destruct (lookup_lt_is_Some_2 indices (S k)) as [w Hw]; [apply lookup_lt_Some in Hy; lia|].
      pose proof (tags_le _ _ _ _ _ _ _ H Hy Hw). specialize (IH (S k) w Hw). lia. }
    apply lookup_lt_Some in Hx as Hl. specialize (Hup (pred (length indices) - j) j x Hx). lia.
  - apply last_None in El as ->. done.
Qed.

Section key.
Context (buf : slice) (start i : nat) (indices : list nat) (commas : nat).
Context (Hspare : spare buf) (Hi : i < len buf) (Hlength : length indices = S commas).
Context (Htags : tags_at (s_bytes buf) start (S i) indices) (Hlast : last indices = Some (S i)).

Lemma index_at j : j ≤ commas → ∃ x, indices !! j = Some x ∧ indices !!! j = x ∧ start < x ≤ S i.
Proof.
  intros Hj. destruct (lookup_lt_is_Some_2 indices j) as [x Hx]; [lia|]. exists x.
  split; [done|]. split; [by apply list_lookup_total_correct|]. by eapply tags_bound.
Qed.
Lemma tag_between_no_panic j : j < commas → no_panic (tag_between buf indices j) (λ _, True).
Proof.
  intros Hj. destruct (index_at j) as (x & Hx & Ex & ?); [lia|]. destruct (index_at (S j)) as (y & Hy & Ey & ?); [lia|].
  pose proof (tags_le _ _ _ _ _ _ _ Htags Hx Hy). unfold tag_between. rewrite Ex, Ey.
  eapply no_panic_bind; [apply slice_of_safe; [done|lia|lia]|]. intros tag [Hn Hsp].
  eapply no_panic_bind; [apply scan_until_safe; [apply Hsp; lia|lia]|]. intros r _. exact I.
Qed.
Lemma compare_ends_no_panic k j sorted : start ≤ i → k + j ≤ commas / 2 →
  no_panic (compare_ends buf start i indices commas k j sorted) (λ _, True).
Proof.
  intros Hs. revert j sorted. induction k as [|k IH]; intros j sorted Hk; [done|]. cbn [compare_ends].
  assert (commas / 2 ≤ commas) by (apply Nat.Div0.div_le_upper_bound; lia).
  eapply no_panic_bind; [apply tag_between_no_panic; lia|]. intros a _.
  eapply no_panic_bind; [apply tag_between_no_panic; lia|]. intros b _.
  case_bool_decide; [apply failed_safe; [done|lia|lia]|]. apply IH. lia.
Qed.

Lemma sink_no_panic {E} x before : x ≤ len buf → Forall (λ y, y ≤ len buf) before →
  no_panic (sink (E := E) buf x before) (λ r, r ≡ₚ x :: before).
Proof.
  intros Hx Hb. induction Hb as [|y before Hy Hb IH]; [simpl; reflexivity|]. cbn [sink]. eapply no_panic_bind with (Q := λ _, True).
  - unfold less. eapply no_panic_bind; [by apply scan_until_safe|]. intros a _.
    eapply no_panic_bind; [by apply scan_until_safe|]. intros b _. exact I.
  - intros [|] _; [|simpl; reflexivity]. eapply no_panic_bind; [exact IH|]. intros r Hr. simpl. rewrite Hr. apply Permutation_swap.
Qed.
Lemma insertionSort_no_panic {E} before rest : Forall (λ y, y ≤ len buf) before → Forall (λ y, y ≤ len buf) rest →
  no_panic (insertionSort (E := E) buf before rest) (λ r, r ≡ₚ before ++ rest).
Proof.
  intros Hb Hr. revert before Hb. induction Hr as [|x rest Hx Hr IH]; intros before Hb.
  - simpl. rewrite app_nil_r. symmetry. apply Permutation_rev.
  - cbn [insertionSort]. eapply no_panic_bind; [by apply sink_no_panic|]. intros b Hp.
    eapply no_panic_mono; [apply IH|].
    + rewrite Hp. by constructor.
    + intros r ->. rewrite Hp. simpl. by rewrite Permutation_middle.
Qed.

(** How many bytes a tag takes in the key, with its comma. *)
Definition tag_size (x : nat) : nat := S (until sep (drop x (s_bytes buf))).
Lemma write_tags_no_panic {E} n (l : list nat) : ∀ written, length written + sum_list_with tag_size l ≤ n →
  Forall (λ x, x ≤ len buf) l →
  no_panic (write_tags (E := E) buf n written l) (λ b, length b = n).
Proof using Hspare.
  clear - Hspare.
  induction l as [|x l IH]; intros written Hw Hl; cbn [write_tags].
  - simpl in *. rewrite length_app, length_replicate. lia.
  - apply Forall_cons in Hl as [Hx Hl]. cbn [sum_list_with] in Hw. unfold tag_size at 1 in Hw.
    rewrite (proj2 (Nat.ltb_lt _ _)) by lia. eapply no_panic_bind; [by apply scan_until_safe|]. intros [j v] (_ & Hj & Hv).
    change (j = x + until sep (drop x (s_bytes buf))) in Hj. simpl in Hv. apply IH; [|done].
    rewrite length_take, length_app. simpl. unfold len in Hv. lia.
Qed.
Lemma tag_sizes k : k ≤ commas → indices !!! 0 + sum_list_with tag_size (take k indices) = indices !!! k.
Proof.
  induction k as [|k IH]; intros Hk; [simpl; lia|].
  destruct (index_at k) as (x & Hx & Ex & _); [lia|]. destruct (index_at (S k)) as (y & Hy & Ey & _); [lia|].
  rewrite (take_S_r _ _ x), sum_list_with_app by done. cbn [sum_list_with].
  assert (Ets : tag_size x = S (until sep (drop x (s_bytes buf)))) by done.
  pose proof (tags_step _ _ _ _ Htags k x y Hx Hy). specialize (IH ltac:(lia)). lia.
Qed.
End key.

Lemma scanKey_no_panic buf : spare buf →
  no_panic (scanKey buf 0) (λ r, r.1 < len buf ∧ len r.2 ≤ r.1 ∧ s_bytes buf !! r.1 = Some " "%char).
Proof.
  intros Hsp. unfold scanKey. set (start := skipWhitespace buf 0).
  assert (Hs : start ≤ len buf) by (apply skipWhitespace_bounds; lia).
  eapply no_panic_bind; [apply scanKey_loop_no_panic; [done|done|lia|lia|done|apply tags_at_nil]|].
  intros [[[i commas] equals] indices] [[Hi1 Hi2] Hk].
  destruct (_ && _); [by apply failed_safe|]. destruct (Nat.leb_spec (len buf) i); [by apply failed_safe|].
  destruct Hk as (Hc & Hl & Ht & Hlast); [done|].
  eapply no_panic_bind; [eapply compare_ends_no_panic; try done; lia|]. intros sorted _.
  assert (Hkey : ∀ s : slice, len s = i - start → i < len buf ∧ len s ≤ i ∧ s_bytes buf !! i = Some " "%char).
  { intros s ->. split_and!; [done|lia|done]. }
  destruct (_ && _) eqn:E.
  - apply andb_true_iff in E as [_ E%Nat.ltb_lt].
    destruct (index_at buf start i indices commas H Hl Ht 0) as (x & Hx & Ex & ?); [lia|]. rewrite Ex.
    eapply no_panic_bind; [apply slice_of_safe; [done|lia|lia]|]. intros m [Hm _].
    assert (Hall : Forall (λ y, y ≤ len buf) (take commas indices)).
    { apply Forall_take, Forall_lookup. intros j y Hy. destruct (tags_bound _ _ _ _ _ _ Ht Hy). lia. }
    eapply no_panic_bind; [by eapply insertionSort_no_panic|]. intros sorted_ Hp. simpl in Hp.
    eapply no_panic_bind; [apply slice_of_safe; [done|lia|lia]|]. intros key [Hn _].
    eapply no_panic_bind; [apply write_tags_no_panic; [done| |by rewrite Hp]|].
    + rewrite Hp, length_take, Hn. pose proof (tag_sizes buf start i indices commas H Hl Ht commas) as Hsum.
      rewrite Ex in Hsum. rewrite (list_lookup_total_correct indices commas (S i)) in Hsum.
      * specialize (Hsum ltac:(lia)). unfold len in Hm. lia.
      * rewrite last_lookup, Hl in Hlast. done.
    + intros b Hb. apply Hkey. simpl in Hb. rewrite <- Hn, <- Hb. done.
  - eapply no_panic_bind; [apply slice_of_safe; [done|lia|lia]|]. intros key [Hn _]. by apply Hkey.
Qed.

(** ** Fields and time *)

Section fields.
Context {goText : GoText} (buf : slice) (Hspare : spare buf).

Lemma scanNumber_loop_no_panic start l : ∀ i isInt decimals scientific,
  l = drop i (s_bytes buf) → 1 ≤ i → start ≤ i ≤ len buf → (isInt = true → start < i) →
  no_panic (scanNumber_loop buf start l i isInt decimals scientific)
    (λ r, i ≤ r.1.1.1 ≤ len buf ∧ (r.1.1.2 = true → start < r.1.1.1)).
Proof.
  induction l as [|c l IH]; intros i isInt decimals scientific Hl H1 Hi Hint; cbn [scanNumber_loop]; [simpl; auto with lia|].
  symmetry in Hl. destruct (drop_cons _ _ _ _ Hl) as (Hc & Hl' & Hlt).
  assert (Hstep : ∀ isInt decimals scientific, (isInt = true → start < S i) →
    no_panic (scanNumber_loop buf start l (S i) isInt decimals scientific)
      (λ r, i ≤ r.1.1.1 ≤ len buf ∧ (r.1.1.2 = true → start < r.1.1.1))).
  { intros b n s Hb. eapply no_panic_mono; [apply IH; unfold len in *; try done; lia|]. simpl. intros r [? ?]. split; [lia|done]. }
  destruct (separator c); [simpl; auto with lia|].
  destruct (eqc c "i" && (start <? i) && negb isInt) eqn:Ei.
  { apply andb_true_iff in Ei as [[_ Ei%Nat.ltb_lt]%andb_true_iff _]. apply Hstep. lia. }
  assert (Hint' : isInt = true → start < S i) by (intros; specialize (Hint ltac:(done)); lia).
  cbv zeta. destruct (1 <? _); [done|]. destruct (_ && (_ || _)); [by apply Hstep|].
  eapply no_panic_bind with (Q := λ _, True).
  { destruct (eqc c "+" || eqc c "-"); [|done]. eapply no_panic_bind; [apply byte_back_safe; unfold len in *; lia|]. intros ? _. exact I. }
  intros [|] _; [by apply Hstep|]. destruct ((2 + i <? len buf) && _); [done|]. destruct (negb (isNumeric c)); [done|by apply Hstep].
Qed.

Lemma scanNumber_no_panic i : 1 ≤ i < len buf → no_panic (points_scanNumber buf i) (λ e, i ≤ e ≤ len buf).
Proof.
  intros Hi. unfold points_scanNumber. set (minus := next_is _ _). destruct (minus && _); [done|].
  assert (Hj : ∃ j, (if minus then S i else i) = j ∧ i ≤ j ≤ len buf) by (destruct minus; eexists; split; try done; lia).
  destruct Hj as (j & -> & Hj). eapply no_panic_bind; [apply scanNumber_loop_no_panic; try done; lia|].
  intros [[[e isInt] decimals] scientific] [He Hint]. simpl in He, Hint. destruct (_ && _); [done|]. destruct isInt.
  - specialize (Hint eq_refl). eapply no_panic_bind; [apply byte_back_safe; lia|]. intros c _. destruct (negb _); [done|].
    eapply no_panic_bind; [apply slice_of_safe; [done|lia|lia]|]. intros d _.
    destruct (_ || _); [|simpl; lia]. destruct (ParseInt _); simpl; [lia|done].
  - eapply no_panic_bind; [apply slice_of_safe; [done|lia|lia]|]. intros d _.
    destruct (_ || _); [|simpl; lia]. destruct (ParseFloat64 _); simpl; [lia|done].
Qed.

Lemma scanBoolean_no_panic {A} i (k : nat → slice → outcome string A) Q : i < len buf →
  (∀ e s, i ≤ e ≤ len buf → no_panic (k e s) Q) → no_panic (scanBoolean buf i k) Q.
Proof.
  intros Hi Hk. unfold scanBoolean. destruct (next_is _ _); [apply failed_safe; [done|lia|lia]|].
  match goal with |- context [list_find ?P ?l] => set (e := match list_find P l with Some (n, _) => S i + n | None => _ end) end.
  assert (He : i < e ≤ len buf).
  { subst e. destruct (list_find _ _) as [[n c]|] eqn:Ef; [|lia].
    apply list_find_Some in Ef as (Hn & _). apply lookup_lt_Some in Hn. rewrite length_drop in Hn. unfold len in *. lia. }
  clearbody e. cbv zeta. assert (Hf : no_panic (A := A) (scan_failed buf i e "invalid boolean") Q) by (apply failed_safe; [done|lia|lia]).
  destruct (_ =? 1).
  - eapply no_panic_bind; [apply slice_of_safe; [done|lia|lia]|]. intros s _. apply Hk. lia.
  - eapply no_panic_bind; [apply byte_back_safe; lia|]. intros c _. destruct (_ && _); [done|]. destruct (_ && _); [done|].
    eapply no_panic_bind; [apply slice_of_safe; [done|lia|lia]|]. intros s _. case_bool_decide; [|done]. apply Hk. lia.
Qed.

Lemma scanFields_loop_no_panic start l : ∀ i skip quoted equals commas,
  l = drop i (s_bytes buf) → 2 ≤ i → start ≤ i ≤ len buf →
  no_panic (scanFields_loop buf start l i skip quoted equals commas) (λ r, i ≤ r.1.1.1 ≤ len buf).
Proof.
  induction l as [|c l IH]; intros i skip quoted equals commas Hl H2 Hi; cbn [scanFields_loop]; [simpl; lia|].
  symmetry in Hl. destruct (drop_cons _ _ _ _ Hl) as (Hc & Hl' & Hlt).
  assert (Hstep : ∀ skip quoted equals commas,
    no_panic (scanFields_loop buf start l (S i) skip quoted equals commas) (λ r, i ≤ r.1.1.1 ≤ len buf)).
  { intros s q e k. eapply no_panic_mono; [apply IH; unfold len in *; try done; lia|]. simpl. intros r ?. lia. }
  assert (Hf : ∀ m Q, no_panic (A := nat * bool * nat * nat) (scan_failed buf start i m) Q) by (intros; apply failed_safe; [done|lia|lia]).
  destruct skip as [|skip]; [|done].
  destruct (_ && _); [done|]. destruct (eqc c dquote); [done|]. destruct (eqc c "=" && _).
  - eapply no_panic_bind; [apply byte_back_safe; unfold len in *; lia|]. intros p _.
    eapply no_panic_bind with (Q := λ _, True).
    { destruct (separator p); [|exact I]. eapply no_panic_bind; [apply byte_back_safe; unfold len in *; lia|]. intros ? _. exact I. }
    intros [|] _; [done|]. destruct l as [|d l2]; [done|]. destruct (drop_cons _ _ _ _ Hl') as (_ & _ & Hd).
    destruct (separator d); [done|]. destruct (_ || _).
    + eapply no_panic_bind; [apply scanNumber_no_panic; unfold len; lia|]. intros e _. apply Hstep.
    + destruct (negb _); [|done]. apply scanBoolean_no_panic; [unfold len; lia|]. intros e s _. apply Hstep.
  - destruct (_ && _); [done|]. destruct (_ && _); [simpl; lia|done].
Qed.
Lemma scanFields_no_panic i : 1 ≤ i < len buf → s_bytes buf !! i = Some " "%char →
  no_panic (scanFields buf i) (λ r, r.1 ≤ len buf).
Proof.
  intros Hi Hc. unfold scanFields. set (start := skipWhitespace buf i).
  assert (Hs : 2 ≤ start ≤ len buf).
  { pose proof (skipWhitespace_bounds buf i ltac:(lia)) as Hb. fold start in Hb. split; [|lia]. subst start. unfold skipWhitespace.
    rewrite (drop_S _ _ _ Hc). simpl. lia. }
  eapply no_panic_bind; [apply scanFields_loop_no_panic; [done|lia|lia]|].
  intros [[[e quoted] equals] commas] He. simpl in He. destruct quoted; [apply failed_safe; [done|lia|lia]|].
  destruct (_ || _); [apply failed_safe; [done|lia|lia]|].
  eapply no_panic_bind; [apply slice_of_safe; [done|lia|lia]|]. intros s _. simpl. lia.
Qed.
Lemma scanTime_loop_no_panic start l : ∀ i, l = drop i (s_bytes buf) → start ≤ i ≤ len buf →
  no_panic (scanTime_loop buf start l i) (λ e, start ≤ e ≤ len buf).
Proof.
  induction l as [|c l IH]; intros i Hl Hi; cbn [scanTime_loop]; [done|].
  symmetry in Hl. destruct (drop_cons _ _ _ _ Hl) as (Hc & Hl' & Hlt).
  assert (no_panic (scanTime_loop buf start l (S i)) (λ e, start ≤ e ≤ len buf)) by (apply IH; unfold len in *; [done|lia]).
  destruct (negb _); [|done]. destruct (_ && _); [done|]. apply failed_safe; [done|lia|lia].
Qed.
Lemma scanTime_no_panic i : i ≤ len buf → no_panic (scanTime buf i) (λ _, True).
Proof.
  intros Hi. unfold scanTime. pose proof (skipWhitespace_bounds buf i Hi) as Hb.
  eapply no_panic_bind; [apply scanTime_loop_no_panic; [done|lia]|]. intros e He. simpl in He.
  eapply no_panic_bind; [apply slice_of_safe; [done|lia|lia]|]. intros ? _. exact I.
Qed.

Lemma parsePoint_no_panic defaultTime precision : no_panic (parsePoint buf defaultTime precision) (λ _, True).
Proof.
  unfold parsePoint. eapply no_panic_bind; [by apply scanKey_no_panic|]. intros [pos key] (Hpos & Hkey & Hc). simpl in *.
  destruct (Nat.eqb_spec (len key) 0); [done|].
  eapply no_panic_bind; [apply scanFields_no_panic; [lia|done]|]. intros [pos2 fields] Hp2. simpl in Hp2.
  destruct (_ =? 0); [done|]. eapply no_panic_bind; [by apply scanTime_no_panic|]. intros [pos3 ts] _.
  destruct (_ =? 0); [done|]. by destruct (ParseInt _).
Qed.
End fields.

(** ** Lines *)

Lemma scanLine_no_panic {E} buf i : spare buf → i ≤ S (len buf) →
  no_panic (scanLine (E := E) buf i) (λ r, i ≤ r.1 ≤ S (len buf) ∧ len r.2 = r.1 - i ∧ (i ≤ len buf → r.1 ≤ len buf ∧ spare r.2)).
Proof.
  intros Hs Hi. unfold scanLine.
  match goal with |- context [line_end ?f ?q ?p ?j ?l] => pose proof (line_end_length f q p j l) as H; set (n := line_end f q p j l) in * end.
  rewrite length_drop in H. clearbody n. fold (len buf) in H.
  eapply no_panic_bind; [apply slice_of_safe; [done|lia|lia]|]. intros r [Hr Hsp]. simpl. split_and!; try lia.
  intros Hi'. split; [lia|]. apply Hsp. lia.
Qed.

Lemma parse_lines_total {goText : GoText} buf t precision : spare buf → ∀ fuel pos points failed,
  pos ≤ S (len buf) → len buf + 2 ≤ fuel + pos →
  ∃ r, parse_lines fuel buf pos t precision points failed = Ok r.
Proof.
  intros Hs fuel. induction fuel as [|fuel IH]; intros pos points failed Hp Hf; [lia|]. cbn [parse_lines].
  pose proof (scanLine_no_panic (E := unit) buf pos Hs Hp) as Hl. unfold no_panic in Hl.
  destruct (scanLine buf pos) as [[pos' block]|e|] eqn:El; [| |done].
  2:{ unfold scanLine, slice_of in El. destruct (_ && _); done. }
  destruct Hl as (Hp' & Hn & Hin). simpl in Hp', Hn, Hin. cbn [outcome_bind].
  destruct (Nat.eqb_spec (len block) 0); [by eexists|].
  destruct Hin as [Hp2 Hsb]; [lia|]. assert (Hb : S pos' ≤ S (len buf)) by lia.
  destruct (s_bytes block !! skipWhitespace block 0) as [c|] eqn:Ec; [|apply IH; lia].
  destruct (eqc c "#"); [apply IH; lia|]. apply lookup_lt_Some in Ec as Hlt. fold (len block) in Hlt.
  assert (Hline : ∃ b, (if bool_decide (last (s_bytes block) = Some newline) then slice_of block 0 (len block - 1) else Ok block) = @Ok unit slice b
    ∧ spare b ∧ skipWhitespace block 0 ≤ len b).
  { case_bool_decide; [|exists block; split_and!; [done..|lia]]. rewrite slice_of_eq by lia. eexists. split; [done|]. split.
    - apply spare_length. unfold len. simpl. rewrite length_app. unfold spare in Hsb. destruct (s_spare block); [done|].
      rewrite length_app. simpl. lia.
    - unfold len. simpl. rewrite length_take, drop_0. unfold len in *. lia. }
  destruct Hline as (b & -> & Hsb' & Hst). cbn [outcome_bind]. rewrite slice_of_eq by lia. cbn [outcome_bind].
  match goal with |- context [parsePoint ?line _ _] => assert (Hln : spare line) end.
  { apply spare_length. unfold len. simpl. rewrite length_app. unfold spare in Hsb'. destruct (s_spare b); [done|].
    rewrite length_app. simpl. lia. }
  pose proof (parsePoint_no_panic _ Hln t precision) as Hpp.
  destruct (parsePoint _ t precision) as [pt|e|]; [| |done]; (destruct (len buf <=? S pos'); [by eexists|apply IH; lia]).
Qed.

(** C34: every text is parsed, whatever is in it: with one byte of spare capacity
    behind the buffer, [ParsePoints] returns after at most as many rounds as there are bytes
    and two more, and neither a byte nor a slice is out of range. *)
Theorem ParsePoints_total {goText : GoText} (fuel : nat) (buf : slice) (defaultTime : Time) (precision : string) :
  s_spare buf ≠ [] → len buf + 2 ≤ fuel →
  ∃ points err, ParsePointsWithPrecision fuel buf defaultTime precision = Ok (points, err).
Proof.
  intros Hs Hf. unfold ParsePointsWithPrecision.
  destruct (parse_lines_total buf defaultTime precision Hs fuel 0 [] []) as [[points failed] ->]; [lia..|].
  simpl. by eexists _, _.
Qed.

Lemma ParsePoints_total_witness : ∃ points err,
  ParsePointsWithPrecision (goText := sample_text) 10 (mkSlice (of_string "#cpu\") [zero_byte]) Time_zero "s" = Ok (points, err).
Proof. apply (ParsePoints_total (goText := sample_text) 10 (mkSlice (of_string "#cpu\") [zero_byte])); [done|unfold len; simpl; lia]. Defined.
