(* ===== verification/PointsText.v ===== *)
(** * What the scanners of points do on the text of a point

    Names are written with a backslash before the characters that end a block.
    These lemmas say that each scanner passes over such a text. *)

From stdpp Require Import base list strings gmap sorting.
From Stdlib Require Import ZArith Ascii Lia SpecFloat.
From S2P Require Import Prelude MetaData QlToken Escape QlExpr QlSelect QlPrint QlReader QlScan QlUtf8 QlDuration QlNumber Strconv.
From S2P Require Import TsdbMerge TsdbIndex Rows Points PointsSafe.

Local Open Scope nat_scope.

(** ** Escaped text as bytes *)

Lemma of_string_app a b : of_string (a +:+ b) = of_string a ++ of_string b.
Proof. apply list_ascii_app. Qed.
Lemma text_bytes s spare : text (mkSlice (of_string s) spare) = s.
Proof. apply String.string_of_list_ascii_of_string. Qed.

Definition esc_bytes (S : list ascii) (l : list ascii) : list ascii :=
  l ≫= λ c, if bool_decide (c ∈ S) then [backslash; c] else [c].
Lemma of_string_esc S s : of_string (esc S s) = esc_bytes S (of_string s).
Proof.
  induction s as [|c s IH]; [done|]. cbn [esc]. unfold of_string in *. cbn [String.list_ascii_of_string].
  unfold esc_bytes in *. cbn [mbind list_bind]. by case_bool_decide; cbn [String.list_ascii_of_string]; rewrite IH.
Qed.
Lemma escape_Bytes_esc order cs s : order ≡ₚ pair_of <$> cs → NoDup cs → backslash ∉ cs →
  escape_Bytes order s = esc cs s ∧ UnescapeString order s = unesc cs s.
Proof.
  intros (cs' & -> & Hcs)%Permutation_map_inv Hnd Hb. change escape_Bytes with escape_String.
  assert (NoDup cs') by by rewrite <- Hcs. assert (backslash ∉ cs') by by rewrite <- Hcs.
  rewrite <- (esc_nil s) at 1. rewrite <- (unesc_nil s) at 3. rewrite escape_order, Unescape_order, !app_nil_r by set_solver.
  split; [apply esc_set|apply unesc_set]; intros c; by rewrite Hcs.
Qed.

(** A text without backslashes or line breaks. *)
Definition plain (s : string) : Prop := backslash ∉ of_string s ∧ newline ∉ of_string s.

Lemma esc_bytes_cons S c l : esc_bytes S (c :: l) = (if bool_decide (c ∈ S) then [backslash; c] else [c]) ++ esc_bytes S l.
Proof. done. Qed.
Lemma esc_bytes_no S d l : d ∉ l → d ≠ backslash → d ∉ esc_bytes S l.
Proof.
  intros Hd Hb. induction l as [|c l IH]; [done|]. rewrite esc_bytes_cons. case_bool_decide; set_solver.
Qed.
(** The first byte is no character of [S]. *)
Lemma esc_bytes_first S l p rest : l ≠ [] → (∀ c, p c = true → c ∈ S) → p backslash = false →
  next_is p (esc_bytes S l ++ rest) = false.
Proof.
  intros Hl Hp Hb. destruct l as [|c l]; [done|]. rewrite esc_bytes_cons. case_bool_decide; [done|].
  simpl. destruct (p c) eqn:E; [|done]. by apply Hp in E.
Qed.
(** The last byte is no character of [S], or it is behind a backslash. *)
Lemma esc_bytes_last S l : l ≠ [] → ∃ w c, esc_bytes S l = w ++ [c] ∧ (c ∈ S → ∃ w', w = w' ++ [backslash]).
Proof.
  intros Hl. destruct l as [|c l _] using rev_ind; [done|]. unfold esc_bytes. rewrite bind_app. cbn [mbind list_bind]. rewrite app_nil_r.
  case_bool_decide.
  - exists ((l ≫= λ c, if bool_decide (c ∈ S) then [backslash; c] else [c]) ++ [backslash]), c. rewrite <- app_assoc. split; [done|]. eauto.
  - eexists _, c. split; [done|]. done.
Qed.

Lemma until_esc S stop l rest : backslash ∉ l → (∀ c, stop c = true → c ∈ S) →
  until stop (esc_bytes S l ++ rest) = length (esc_bytes S l) + until stop rest.
Proof.
  intros Hb Hs. induction l as [|c l IH]; [done|]. apply not_elem_of_cons in Hb as [Hc Hb]. specialize (IH Hb).
  rewrite esc_bytes_cons. case_bool_decide as HcS; cbn [app length].
  - cbn [until]. rewrite IH. done.
  - rewrite until_plain, IH; [done| |].
    + apply bool_decide_eq_false_2. congruence.
    + destruct (stop c) eqn:E; [|done]. by apply Hs in E.
Qed.
Lemma until_stop stop c rest : eqc c backslash = false → stop c = true → until stop (c :: rest) = 0.
Proof. intros H1 H2. simpl. by rewrite H1, H2. Qed.

(** ** Slices of joined bytes *)

Lemma slice_of_middle {E} s a b c : s_bytes s = a ++ b ++ c →
  slice_of (E := E) s (length a) (length a + length b) = Ok (mkSlice b (c ++ s_spare s)).
Proof.
  intros Hs. rewrite slice_of_eq; [|lia|unfold len; rewrite Hs, !length_app; lia]. f_equal. rewrite Hs. f_equal.
  - rewrite drop_app_length. replace (length a + length b - length a) with (length b) by lia. by rewrite take_app_length.
  - by rewrite app_assoc, <- length_app, drop_app_length.
Qed.
Lemma byte_back_last {E} s a c b : s_bytes s = a ++ c :: b → byte_back (E := E) s (S (length a)) 1 = Ok c.
Proof.
  intros Hs. unfold byte_back. rewrite Hs. replace (S (length a) - 1) with (length a) by lia.
  by rewrite lookup_app_r, Nat.sub_diag by lia.
Qed.
Lemma byte_back_two {E} s a q c b : s_bytes s = a ++ q :: c :: b → byte_back (E := E) s (S (S (length a))) 2 = Ok q.
Proof.
  intros Hs. unfold byte_back. rewrite Hs. replace (S (S (length a)) - 2) with (length a) by lia.
  by rewrite lookup_app_r, Nat.sub_diag by lia.
Qed.
Lemma scan_until_middle {E} stop s a b c : s_bytes s = a ++ b ++ c → until stop (b ++ c) = length b →
  scan_until (E := E) stop s (length a) = Ok (length a + length b, mkSlice b (c ++ s_spare s)).
Proof.
  intros Hs Hu. unfold scan_until. rewrite Hs, drop_app_length, Hu, (slice_of_middle s a b c Hs). done.
Qed.

(** ** The key *)

Definition name_codes : list ascii := [","; " "]%char.
Definition tag_codes : list ascii := [","; " "; "="]%char.
Definition tag_bytes (t : list ascii * list ascii) : list ascii :=
  esc_bytes tag_codes t.1 ++ ["="%char] ++ esc_bytes tag_codes t.2.
Definition tags_bytes (l : list (list ascii * list ascii)) : list ascii := l ≫= λ t, ","%char :: tag_bytes t.
Definition tag_ok (t : list ascii * list ascii) : Prop :=
  backslash ∉ t.1 ∧ backslash ∉ t.2 ∧ t.1 ≠ [] ∧ t.2 ≠ [].

(** Where the tags start, when the first comma is at [i]; and one behind the
    space at the end. *)
Fixpoint offsets (i : nat) (l : list (list ascii * list ascii)) : list nat :=
  match l with
  | [] => [S i]
  | t :: l => S i :: offsets (S i + length (tag_bytes t)) l
  end.

Lemma sep_tag c : separator c = true → c ∈ tag_codes.
Proof. unfold separator. intros [->%eqc_true | ->%eqc_true]%orb_true_iff; set_solver. Qed.
Lemma space_tag c : eqc c " " = true → c ∈ tag_codes.
Proof. intros ->%eqc_true. set_solver. Qed.
Lemma eqc_false c d : c ≠ d → eqc c d = false.
Proof. apply bool_decide_eq_false_2. Qed.

(** An escaped text is passed over. *)
Lemma scanKey_loop_esc S buf start l rest i commas equals indices :
  backslash ∉ l → (∀ c, separator c = true → c ∈ S) → ("="%char ∈ S ∨ commas = 0) →
  scanKey_loop buf start (esc_bytes S l ++ rest) i commas equals indices =
  scanKey_loop buf start rest (length (esc_bytes S l) + i) commas equals indices.
Proof.
  intros Hb Hs He. revert i. induction l as [|c l IH]; intros i; [done|]. apply not_elem_of_cons in Hb as [Hc Hb]. specialize (IH Hb).
  rewrite esc_bytes_cons. case_bool_decide as HcS; cbn [app length scanKey_loop].
  - change (eqc backslash "=") with false. change (eqc backslash backslash) with true. cbn [andb].
    rewrite IH. f_equal. lia.
  - assert (E1 : eqc c "=" && (0 <? commas) = false).
    { destruct He as [He| ->]; [|apply andb_false_r]. rewrite eqc_false; [done|]. intros ->. done. }
    assert (E2 : separator c = false). { destruct (separator c) eqn:E; [|done]. by apply Hs in E. }
    apply orb_false_iff in E2 as [E2 E3].
    rewrite E1, (eqc_false c backslash), E2, E3 by congruence. rewrite IH. f_equal. lia.
Qed.

(** One tag, after any text [a] that is not empty. *)
Lemma scanKey_loop_tag buf start a t rest commas equals indices : tag_ok t →
  s_bytes buf = a ++ (","%char :: tag_bytes t) ++ rest → 0 < length a → (commas = 0 ∨ 0 < equals) →
  scanKey_loop buf start ((","%char :: tag_bytes t) ++ rest) (length a) commas equals indices =
  scanKey_loop buf start rest (length a + length (","%char :: tag_bytes t)) (S commas) (S equals) (indices ++ [S (length a)]).
Proof.
  intros (Hk & Hv & Hk0 & Hv0) Hbuf Ha Hce. destruct t as [k v]. unfold tag_bytes in *. cbn [fst snd] in *.
  cbn [app scanKey_loop]. change (eqc "," "=") with false. change (eqc "," backslash) with false. change (eqc "," ",") with true. cbn [andb].
  assert (E1 : (equals =? 0) && (0 <? commas) = false).
  { destruct Hce as [->|Hce]; [apply andb_false_r|]. by rewrite (proj2 (Nat.eqb_neq _ _)) by lia. }
  rewrite E1, <- !app_assoc. rewrite (esc_bytes_first tag_codes k _ _ Hk0 space_tag) by done.
  rewrite scanKey_loop_esc; [|done|apply sep_tag|left; set_solver].
  set (K := esc_bytes tag_codes k). set (V := esc_bytes tag_codes v). cbn [app scanKey_loop].
  change (eqc "=" "=") with true. cbn [andb].
  rewrite (proj2 (Nat.ltb_lt 0 (S commas))), (proj2 (Nat.ltb_ge _ 2)) by lia.
  destruct (esc_bytes_last tag_codes k Hk0) as (w & c & HK & Hlast). fold K in HK.
  assert (Hlen : length K + S (length a) = S (length (a ++ ","%char :: w))) by (rewrite HK, !length_app; simpl; lia).
  assert (Hb1 : s_bytes buf = (a ++ ","%char :: w) ++ c :: ["="%char] ++ V ++ rest).
  { rewrite Hbuf. fold K V. rewrite HK. simpl. rewrite <- !app_assoc. simpl. by rewrite <- ?app_assoc. }
  rewrite Hlen at 1. rewrite (byte_back_last _ _ _ _ Hb1). cbn [outcome_bind].
  assert (Hq : ∃ q, byte_back (E := string) buf (length K + S (length a)) 2 = Ok q ∧ (separator c = true → q = backslash)).
  { destruct w as [|q w' _] using rev_ind.
    - exists ","%char. split; [|intros Hsep; destruct (Hlast (sep_tag _ Hsep)) as [[] ?]; done].
      rewrite <- app_assoc in Hb1. replace (length K + S (length a)) with (S (S (length a))) by (rewrite Hlen, length_app; simpl; lia).
      eapply byte_back_two. rewrite Hb1. reflexivity.
    - exists q. split.
      + replace (length K + S (length a)) with (S (S (length (a ++ ","%char :: w')))) by (rewrite Hlen, !length_app; simpl; rewrite length_app; simpl; lia).
        eapply byte_back_two. rewrite Hb1. simpl. by rewrite <- !app_assoc, <- app_comm_cons, <- app_assoc.
      + intros Hsep. destruct (Hlast (sep_tag _ Hsep)) as [w2 Hw2]. by apply app_inj_tail in Hw2 as [_ ->]. }
  destruct Hq as (q & -> & Hq). cbn [outcome_bind].
  assert (E2 : separator c && negb (eqc q backslash) = false).
  { destruct (separator c) eqn:E; [|done]. by rewrite Hq. }
  rewrite E2. subst V. rewrite (esc_bytes_first tag_codes v _ _ Hv0 sep_tag) by done.
  rewrite scanKey_loop_esc; [|done|apply sep_tag|left; set_solver]. f_equal. subst K. simpl. rewrite !length_app. simpl. lia.
Qed.

Lemma tags_bytes_cons t l : tags_bytes (t :: l) = (","%char :: tag_bytes t) ++ tags_bytes l.
Proof. done. Qed.

Lemma scanKey_loop_tags buf start rest l : ∀ a commas indices, Forall tag_ok l →
  s_bytes buf = a ++ tags_bytes l ++ " "%char :: rest → 0 < length a →
  scanKey_loop buf start (tags_bytes l ++ " "%char :: rest) (length a) commas commas indices =
  Ok (length a + length (tags_bytes l), commas + length l, commas + length l, indices ++ offsets (length a) l).
Proof.
  induction l as [|t l IH]; intros a commas indices Hl Hbuf Ha.
  - cbn. change (eqc " " "=") with false. change (eqc " " backslash) with false. change (eqc " " ",") with false.
    change (eqc " " " ") with true. cbn [andb]. rewrite Nat.eqb_refl, andb_false_r, !Nat.add_0_r.
    by destruct commas.
  - apply Forall_cons in Hl as [Ht Hl]. rewrite tags_bytes_cons in *. rewrite <- app_assoc in *.
    rewrite (scanKey_loop_tag buf start a t); [|done..|lia].
    rewrite <- length_app, IH; [|done|by rewrite Hbuf, <- app_assoc|rewrite length_app; lia].
    rewrite <- app_assoc. cbn [offsets app length].
    replace (length (a ++ ","%char :: tag_bytes t)) with (S (length a) + length (tag_bytes t)) by (rewrite length_app; simpl; lia).
    rewrite length_app. cbn [length]. rewrite !Nat.add_succ_r, Nat.add_assoc. done.
Qed.

Lemma offsets_length i l : length (offsets i l) = S (length l).
Proof. revert i. induction l as [|t l IH]; intros i; [done|]. simpl. by rewrite IH. Qed.

Lemma offsets_between buf rest l : ∀ a j t, s_bytes buf = a ++ tags_bytes l ++ " "%char :: rest → l !! j = Some t →
  ∃ x, offsets (length a) l !! j = Some (length x) ∧ offsets (length a) l !! S j = Some (S (length x + length (tag_bytes t))) ∧
    ∃ y, s_bytes buf = x ++ tag_bytes t ++ y.
Proof.
  induction l as [|t0 l IH]; intros a j t Hbuf Hj; [done|]. rewrite tags_bytes_cons in Hbuf. destruct j as [|j].
  - injection Hj as ->. exists (a ++ [","%char]). rewrite length_app. cbn [offsets lookup list_lookup length]. split; [f_equal; lia|]. split.
    + destruct l; simpl; f_equal; lia.
    + exists (tags_bytes l ++ " "%char :: rest). rewrite Hbuf, <- !app_assoc. done.
  - destruct (IH (a ++ ","%char :: tag_bytes t0) j t) as (x & H1 & H2 & y & H3); [by rewrite Hbuf, <- !app_assoc|done|].
    exists x. cbn [offsets]. replace (S (length a) + length (tag_bytes t0)) with (length (a ++ ","%char :: tag_bytes t0)) by (rewrite length_app; simpl; lia).
    split_and!; [done..|by exists y].
Qed.

Lemma tag_between_eq buf rest l a j t : s_bytes buf = a ++ tags_bytes l ++ " "%char :: rest → l !! j = Some t → tag_ok t →
  tag_between buf (offsets (length a) l) j = Ok (esc_bytes tag_codes t.1).
Proof.
  intros Hbuf Hj (Hk & _). destruct (offsets_between buf rest l a j t Hbuf Hj) as (x & H1 & H2 & y & H3).
  unfold tag_between. rewrite (list_lookup_total_correct _ _ _ H1), (list_lookup_total_correct _ _ _ H2).
  replace (S (length x + length (tag_bytes t)) - 1) with (length x + length (tag_bytes t)) by lia.
  rewrite (slice_of_middle _ _ _ _ H3). cbn [outcome_bind]. unfold scanTo.
  rewrite (scan_until_middle _ _ [] (esc_bytes tag_codes t.1) ("="%char :: esc_bytes tag_codes t.2)); [done|done|].
  rewrite until_esc; [|done|intros c ->%eqc_true; set_solver]. rewrite until_stop by done. lia.
Qed.

(** Tags in ascending order of their escaped names. *)
Definition tags_sorted (l : list (list ascii * list ascii)) : Prop :=
  ∀ i j s t, i < j → l !! i = Some s → l !! j = Some t →
    bytes_less (esc_bytes tag_codes s.1) (esc_bytes tag_codes t.1) = true.
Lemma bytes_less_asym a b : bytes_less a b = true → bytes_less b a = false ∧ a ≠ b.
Proof.
  unfold bytes_less. intros H. pose proof (klt_irrefl (String.string_of_list_ascii a)) as Hi. simpl in Hi. split.
  - destruct (String.ltb (String.string_of_list_ascii b) (String.string_of_list_ascii a)) eqn:E; [|done].
    pose proof (klt_trans _ _ _ H E) as Ht. simpl in Ht. congruence.
  - intros ->. congruence.
Qed.

Lemma compare_ends_sorted buf start e rest l a k : ∀ j, s_bytes buf = a ++ tags_bytes l ++ " "%char :: rest →
  Forall tag_ok l → tags_sorted l → k + j ≤ length l / 2 →
  compare_ends buf start e (offsets (length a) l) (length l) k j true = Ok true.
Proof.
  induction k as [|k IH]; intros j Hbuf Hok Hs Hk; [done|]. cbn [compare_ends].
  assert (2 * (length l / 2) ≤ length l) by apply Nat.Div0.mul_div_le.
  destruct (lookup_lt_is_Some_2 l j) as [s Hj]; [lia|]. destruct (lookup_lt_is_Some_2 l (length l - j - 1)) as [t Hj']; [lia|].
  rewrite (tag_between_eq _ rest l a j s), (tag_between_eq _ rest l a _ t) by (try done; by eapply Forall_lookup_1). cbn [outcome_bind].
  destruct (bytes_less_asym _ _ (Hs j (length l - j - 1) s t ltac:(lia) Hj Hj')) as [Hb Hne].
  rewrite bool_decide_eq_false_2, Hb by done. apply IH; [done..|lia].
Qed.

(** A key that is written in order is scanned as it is. *)
Lemma scanKey_written buf name l rest : backslash ∉ name → name ≠ [] → Forall tag_ok l → tags_sorted l →
  s_bytes buf = (esc_bytes name_codes name ++ tags_bytes l) ++ " "%char :: rest →
  next_is is_space (s_bytes buf) = false →
  scanKey buf 0 = Ok (length (esc_bytes name_codes name ++ tags_bytes l),
    mkSlice (esc_bytes name_codes name ++ tags_bytes l) (" "%char :: rest ++ s_spare buf)).
Proof.
  intros Hb Hn Hok Hs Hbuf Hsp. assert (Hbuf' : s_bytes buf = esc_bytes name_codes name ++ tags_bytes l ++ " "%char :: rest) by by rewrite app_assoc.
  unfold scanKey. assert (Hsk : skipWhitespace buf 0 = 0).
  { unfold skipWhitespace. rewrite drop_0. destruct (s_bytes buf) as [|c bs]; [done|]. simpl in *. by rewrite Hsp. }
  rewrite Hsk, drop_0, Hbuf', scanKey_loop_esc; [|done|intros c [->%eqc_true | ->%eqc_true]%orb_true_iff; set_solver|by right].
  rewrite Nat.add_0_r. assert (Hlen : 0 < length (esc_bytes name_codes name)).
  { destruct name; [done|]. rewrite esc_bytes_cons. case_bool_decide; simpl; lia. }
  rewrite (scanKey_loop_tags _ _ rest l (esc_bytes name_codes name) 0 []) by done. cbn [outcome_bind Nat.add app].
  rewrite Nat.eqb_refl, andb_false_r. rewrite <- length_app.
  rewrite (proj2 (Nat.leb_gt (len buf) (length (esc_bytes name_codes name ++ tags_bytes l))))
    by (unfold len; rewrite Hbuf, (length_app _ (" "%char :: rest)); simpl; lia).
  rewrite (compare_ends_sorted _ _ _ rest l) by (try done; lia). cbn [outcome_bind negb andb].
  pose proof (slice_of_middle (E := string) buf [] (esc_bytes name_codes name ++ tags_bytes l) (" "%char :: rest)) as Hsl.
  cbn [app length Nat.add] in Hsl. by rewrite Hsl.
Qed.

(** ** Field values *)

Lemma skipped_fields {goText : GoText} buf start w rest : ∀ i q e c,
  scanFields_loop buf start (w ++ rest) i (length w) q e c = scanFields_loop buf start rest (length w + i) 0 q e c.
Proof.
  induction w as [|x w IH]; intros i q e c; [done|]. cbn [app length scanFields_loop]. rewrite IH. f_equal. lia.
Qed.

Lemma back_at_end buf S k a rest : k ≠ [] → (∀ c, separator c = true → c ∈ S) → s_bytes buf = a ++ esc_bytes S k ++ rest →
  ∃ p, byte_back (E := string) buf (length a + length (esc_bytes S k)) 1 = Ok p ∧
    (separator p = true → byte_back (E := string) buf (length a + length (esc_bytes S k)) 2 = Ok backslash).
Proof.
  intros Hk HS Hbuf. destruct (esc_bytes_last S k Hk) as (w & c & HK & Hlast). rewrite HK in *. exists c. split.
  - rewrite length_app, Nat.add_assoc, <- length_app, Nat.add_comm. eapply byte_back_last. by rewrite Hbuf, <- !app_assoc.
  - intros Hc. destruct (Hlast (HS _ Hc)) as [w' ->].
    replace (length a + length ((w' ++ [backslash]) ++ [c])) with (Datatypes.S (Datatypes.S (length (a ++ w')))) by (rewrite !length_app; simpl; lia).
    eapply byte_back_two. by rewrite Hbuf, <- !app_assoc.
Qed.

Definition ends (rest : list ascii) : Prop := rest = [] ∨ next_is separator rest = true.

(** Digits. *)
Definition digits (w : list ascii) : Prop := Forall (λ c, isDigit (rn c) = true) w.
Lemma digit_other c d : isDigit (rn c) = true → isDigit (rn d) = false → eqc c d = false.
Proof. intros H1 H2. apply eqc_false. intros ->. congruence. Qed.
Lemma number_digits buf start w rest : ∀ i b d s, digits w → d ≤ 1 →
  scanNumber_loop buf start (w ++ rest) i b d s = scanNumber_loop buf start rest (length w + i) b d s.
Proof.
  induction w as [|c w IH]; intros i b d s Hw Hd; [done|]. apply Forall_cons in Hw as [Hc Hw]. cbn [app length scanNumber_loop].
  unfold separator, isNumeric. rewrite !(digit_other c), Hc by done. cbn [andb orb negb].
  rewrite (proj2 (Nat.ltb_ge 1 d)) by lia. rewrite !andb_false_r. cbn [outcome_bind]. rewrite IH by done. f_equal. lia.
Qed.
Lemma number_ends buf start rest i b d s : ends rest → scanNumber_loop buf start rest i b d s = Ok (i, b, d, s).
Proof. intros [->|H]; [done|]. destruct rest as [|c rest]; [done|]. simpl in H. cbn [scanNumber_loop]. by rewrite H. Qed.

(** The texts of numbers: a sign, digits, and either a full stop with more digits or
    the letter of integers. *)
Definition sign_bytes (neg : bool) : list ascii := if neg then ["-"%char] else [].
Inductive number_text : list ascii → Prop :=
| int_text neg w : digits w → w ≠ [] → (∃ z, ParseInt (String.string_of_list_ascii (sign_bytes neg ++ w)) = Some z) →
    number_text (sign_bytes neg ++ w ++ ["i"%char])
| whole_text neg w : digits w → w ≠ [] → (∃ f, ParseFloat64 (String.string_of_list_ascii (sign_bytes neg ++ w)) = Some f) →
    number_text (sign_bytes neg ++ w)
| point_text neg w w' : digits w → w ≠ [] → digits w' →
    (∃ f, ParseFloat64 (String.string_of_list_ascii (sign_bytes neg ++ w ++ "."%char :: w')) = Some f) →
    number_text (sign_bytes neg ++ w ++ "."%char :: w').

Section number.
Context {goText : GoText} (buf : slice) (a rest : list ascii).

(** The sign is passed over before the loop. *)
Lemma scanNumber_sign neg w w2 : digits w → w ≠ [] → s_bytes buf = a ++ (sign_bytes neg ++ w ++ w2) ++ rest →
  next_is (λ c, eqc c "-") (drop (length a) (s_bytes buf)) = neg ∧ neg && (S (length a) =? len buf) = false ∧
  (if neg then S (length a) else length a) = length a + length (sign_bytes neg) ∧
  drop (length a + length (sign_bytes neg)) (s_bytes buf) = w ++ w2 ++ rest.
Proof.
  intros Hw Hw0 Hbuf. split_and!.
  - rewrite Hbuf, drop_app_length. destruct w as [|c w]; [done|]. apply Forall_cons in Hw as [Hc Hw].
    destruct neg; [done|]. simpl. by apply digit_other.
  - destruct neg; [|done]. apply Nat.eqb_neq. unfold len. rewrite Hbuf, !length_app. simpl. destruct w; [done|]. simpl. lia.
  - destruct neg; simpl; lia.
  - rewrite Hbuf, <- !app_assoc, app_assoc, <- length_app, drop_app_length. done.
Qed.

Lemma scanNumber_text w : number_text w → s_bytes buf = a ++ w ++ rest → ends rest →
  points_scanNumber buf (length a) = Ok (length a + length w).
Proof.
  intros Hw Hbuf He. unfold points_scanNumber.
  assert (Hslice : ∀ x y, w = x ++ y → ∃ sp, slice_of (E := string) buf (length a) (length a + length x) = Ok (mkSlice x sp)).
  { intros x y ->. eexists. eapply slice_of_middle. by rewrite Hbuf, <- app_assoc. }
  destruct Hw as [neg w Hw Hw0 [z Hz]|neg w Hw Hw0 [f Hf]|neg w w' Hw Hw0 Hw' [f Hf]].
  - destruct (scanNumber_sign neg w ["i"%char] Hw Hw0 Hbuf) as (-> & -> & -> & ->).
    rewrite number_digits by (done || lia). cbn [app scanNumber_loop]. change (separator "i") with false. change (eqc "i" "i") with true.
    assert (0 < length w) by (destruct w; simpl; [done|lia]). rewrite (proj2 (Nat.ltb_lt (length a) _)) by lia. cbn [andb negb].
    rewrite number_ends by done. cbn [outcome_bind andb Nat.ltb orb].
    assert (Hb : s_bytes buf = (a ++ sign_bytes neg ++ w) ++ "i"%char :: rest) by (rewrite Hbuf; by rewrite <- !app_assoc).
    replace (S (length w + (length a + length (sign_bytes neg)))) with (S (length (a ++ sign_bytes neg ++ w))) by (rewrite !length_app; lia).
    rewrite (byte_back_last _ _ _ _ Hb). cbn [outcome_bind]. change (negb (eqc "i" "i")) with false. cbv iota.
    destruct (Hslice (sign_bytes neg ++ w) ["i"%char]) as [sp Hsp]; [by rewrite app_assoc|].
    replace (S (length (a ++ sign_bytes neg ++ w)) - 1) with (length a + length (sign_bytes neg ++ w)) by (rewrite !length_app; lia).
    rewrite Hsp. cbn [outcome_bind]. unfold text. cbn [s_bytes]. rewrite Hz.
    replace (length a + length (sign_bytes neg ++ w ++ ["i"%char])) with (S (length (a ++ sign_bytes neg ++ w))) by (rewrite !length_app; simpl; lia).
    change ((0 <? 0) || false) with false. cbv iota. by destruct (_ || _).
  - destruct (scanNumber_sign neg w [] Hw Hw0) as (-> & -> & -> & ->); [by rewrite app_nil_r|]. cbn [app].
    rewrite number_digits by (done || lia). rewrite number_ends by done. cbn [outcome_bind andb].
    destruct (Hslice (sign_bytes neg ++ w) []) as [sp Hsp]; [by rewrite app_nil_r|].
    replace (length w + (length a + length (sign_bytes neg))) with (length a + length (sign_bytes neg ++ w)) by (rewrite !length_app; lia).
    rewrite Hsp. cbn [outcome_bind]. unfold text. cbn [s_bytes]. rewrite Hf. by destruct (_ || _).
  - destruct (scanNumber_sign neg w ("."%char :: w') Hw Hw0 Hbuf) as (-> & -> & -> & ->).
    rewrite number_digits by (done || lia). cbn [app scanNumber_loop]. change (separator ".") with false. change (eqc "." "i") with false.
    change (eqc "." ".") with true. change (eqc "." "e") with false. change (eqc "." "E") with false. change (eqc "." "+") with false.
    change (eqc "." "-") with false. change (eqc "." "N") with false. change (eqc "." "n") with false. change (isNumeric ".") with true.
    cbn [andb orb negb Nat.ltb Nat.leb outcome_bind]. rewrite !andb_false_r. rewrite number_digits by (done || lia).
    rewrite number_ends by done. cbn [outcome_bind andb].
    destruct (Hslice (sign_bytes neg ++ w ++ "."%char :: w') []) as [sp Hsp]; [by rewrite app_nil_r|].
    replace (length w' + S (length w + (length a + length (sign_bytes neg)))) with (length a + length (sign_bytes neg ++ w ++ "."%char :: w'))
      by (rewrite !length_app; simpl; lia).
    rewrite Hsp. cbn [outcome_bind]. unfold text. cbn [s_bytes]. rewrite Hf. by destruct (_ || _).
Qed.
End number.

(** ** The texts of values *)

Lemma digits_of s : all_digits s = true → digits (of_string s).
Proof. induction s as [|c s IH]; intros H; [by apply Forall_nil|]. apply andb_true_iff in H as [H1 H2]. apply Forall_cons. split; [exact H1|by apply IH]. Qed.
Lemma decimal_bytes n : digits (of_string (decimal n)) ∧ of_string (decimal n) ≠ [].
Proof. destruct (decimal_digits n) as [H1 H2]. split; [by apply digits_of|]. by destruct (decimal n). Qed.
Lemma digits_app a b : digits a → digits b → digits (a ++ b).
Proof. apply Forall_app_2. Qed.
Lemma zeros_digits k : digits (of_string (zeros k)).
Proof. induction k; constructor; done. Qed.
Lemma string_of_bytes s : String.string_of_list_ascii (of_string s) = s.
Proof. apply String.string_of_list_ascii_of_string. Qed.

Lemma int_value z : is_i64 z → number_text (of_string (Sprintf_d z +:+ "i")).
Proof.
  intros Hz. rewrite of_string_app. pose proof (ParseInt_Sprintf z Hz) as Hp. revert Hp. unfold Sprintf_d.
  destruct (decimal_bytes z) as [H1 H2]. destruct (decimal_bytes (- z)) as [H3 H4]. destruct (_ <? _)%Z; intros Hp.
  - apply (int_text true (of_string (decimal (- z)))); [done..|]. exists z. rewrite <- Hp. simpl. by rewrite string_of_bytes.
  - apply (int_text false (of_string (decimal z))); [done..|]. exists z. simpl. by rewrite string_of_bytes.
Qed.

Lemma insert_point_bytes k s : k ≤ String.length s →
  of_string (insert_point k s) = take k (of_string s) ++ "."%char :: drop k (of_string s).
Proof.
  revert s. induction k as [|k IH]; intros s Hk; [by rewrite drop_0|]. destruct s as [|c s]; simpl in *; [lia|]. by rewrite IH by lia.
Qed.
Lemma fixed_text_shape d e : ∃ w w', digits w ∧ w ≠ [] ∧ digits w' ∧
  (of_string (fixed_text d e) = w ∨ of_string (fixed_text d e) = w ++ "."%char :: w').
Proof.
  unfold fixed_text. destruct (decimal_bytes d) as [H1 H2].
  assert (Hl : String.length (decimal d) = length (of_string (decimal d))) by (generalize (decimal d) as s; induction s; simpl; congruence).
  destruct (Z.leb_spec 0 e).
  - exists (of_string (decimal d +:+ zeros (Z.to_nat e))), []. rewrite of_string_app. split_and!; [|by destruct (of_string (decimal d))|constructor|by left].
    apply digits_app; [done|apply zeros_digits].
  - destruct (Z.ltb_spec (- e) (Z.of_nat (String.length (decimal d)))).
    + set (k := Z.to_nat _). exists (take k (of_string (decimal d))), (drop k (of_string (decimal d))).
      split_and!; [by apply Forall_take| |by apply Forall_drop|right; apply insert_point_bytes; subst k; lia].
      intros Hn. apply (f_equal length) in Hn. rewrite length_take in Hn. simpl in Hn. subst k. lia.
    + exists ["0"%char], (of_string (zeros (Z.to_nat (- e - Z.of_nat (String.length (decimal d)))) ) ++ of_string (decimal d)).
      split_and!; [by repeat constructor|done|apply digits_app; [apply zeros_digits|done]|right]. by rewrite <- of_string_app.
Qed.
Lemma shortest_shape reads n d x more : ∀ k, shortest_from reads n d x more k = EmptyString ∨
  ∃ m e, shortest_from reads n d x more k = fixed_text m e.
Proof.
  induction more as [|more IH]; intros k; cbn [shortest_from]; [by left|]. destruct (shortest_with reads n d x k) as [s|] eqn:E; [|apply IH].
  right. unfold shortest_with in E. destruct (if 0 <=? x - k then _ else _)%Z as [n' d']. repeat case_match; simplify_eq; eauto.
Qed.

Definition is_number (f : float64) : Prop := match f with S754_zero _ | S754_finite _ _ _ => True | _ => False end.
Definition number_byte (c : ascii) : Prop := isDigit (rn c) = true ∨ c = "-"%char ∨ c = "."%char.
Lemma number_byte_digits w : digits w → Forall number_byte w.
Proof. intros H. eapply Forall_impl; [exact H|]. intros c Hc. by left. Qed.
Lemma number_byte_sign neg : Forall number_byte (sign_bytes neg).
Proof. destruct neg; [|by apply Forall_nil]. apply Forall_singleton. by right; left. Qed.

Lemma float_value f : is_number f → ParseFloat64 (FormatFloat64 f) = Some f →
  number_text (of_string (FormatFloat64 f)) ∧ Forall number_byte (of_string (FormatFloat64 f)).
Proof.
  intros Hf Hp.
  assert (Hshape : ∃ neg w w', digits w ∧ w ≠ [] ∧ digits w' ∧
    (of_string (FormatFloat64 f) = sign_bytes neg ++ w ∨ of_string (FormatFloat64 f) = sign_bytes neg ++ w ++ "."%char :: w')).
  { unfold FormatFloat64, FormatFloat_shortest in *. destruct f as [neg|neg| |neg m e]; try done.
    - exists neg, ["0"%char], []. split_and!; [by repeat constructor|done|constructor|left]. by destruct neg.
    - destruct (if 0 <=? e then _ else _)%Z as [n d]. exists neg. set (s := shortest_from _ _ _ _ _ _) in *.
      assert (Hs : of_string (sign_text neg +:+ s) = sign_bytes neg ++ of_string s) by (by destruct neg). rewrite Hs.
      destruct (shortest_shape (λ s, bool_decide (ParseFloat_with round_ratio s = Some (S754_finite false m e))) n d (digits_before n d) 17 1)
        as [H|(d' & e' & H)]; fold s in H.
      { rewrite H in Hp. by destruct neg. }
      rewrite H. destruct (fixed_text_shape d' e') as (w & w' & Hw & Hw0 & Hw' & [->| ->]); exists w, w'; auto. }
  destruct Hshape as (neg & w & w' & Hw & Hw0 & Hw' & [E|E]); (split; [|rewrite E]).
  - rewrite E. apply whole_text; [done..|]. exists f. by rewrite <- E, string_of_bytes.
  - apply Forall_app_2; [apply number_byte_sign|by apply number_byte_digits].
  - rewrite E. apply point_text; [done..|]. exists f. by rewrite <- E, string_of_bytes.
  - apply Forall_app_2; [apply number_byte_sign|]. apply Forall_app_2; [by apply number_byte_digits|].
    constructor; [by right; right|by apply number_byte_digits].
Qed.

(** A text of letters up to a separator is found as a whole. *)
Lemma find_separator w rest : Forall (λ c, separator c = false) w → ends rest →
  match list_find (λ c, separator c = true) (w ++ rest) with Some (n, _) => n | None => length (w ++ rest) end = length w.
Proof.
  intros Hw Hr. induction Hw as [|c w Hc Hw IH].
  - destruct Hr as [->|Hr]; [done|]. destruct rest as [|d rest]; [done|]. simpl in *. by rewrite decide_True by done.
  - cbn [app list_find]. rewrite decide_False by congruence.
    destruct (list_find _ (w ++ rest)) as [[n d]|]; simpl in *; lia.
Qed.

Lemma scanBoolean_text {A} buf a (b : bool) rest (k : nat → slice → outcome string A) :
  s_bytes buf = a ++ of_string (if b then "true" else "false") ++ rest → ends rest →
  ∃ s, scanBoolean buf (length a) k = k (length a + length (of_string (if b then "true" else "false"))) s.
Proof.
  intros Hbuf He. unfold scanBoolean. rewrite Hbuf, drop_app_length. set (w := of_string (if b then "true" else "false")) in *.
  assert (Hd : drop (S (length a)) (a ++ w ++ rest) = tail w ++ rest).
  { replace (S (length a)) with (length (a ++ take 1 w)) by (rewrite length_app; destruct b; simpl; lia).
    rewrite <- (take_drop 1 w) at 2. rewrite <- (app_assoc (take 1 w)), (app_assoc a), drop_app_length. by destruct b. }
  assert (Hn : next_is (λ c, negb (eqc c "t" || eqc c "f" || eqc c "T" || eqc c "F")) (w ++ rest) = false) by (by destruct b).
  rewrite Hn, Hd.
  assert (Hi : match list_find (λ c, separator c = true) (tail w ++ rest) with
               | Some (n, _) => S (length a) + n | None => Nat.max (S (length a)) (len buf) end = length a + length w).
  { pose proof (find_separator (tail w) rest) as Hf. destruct (list_find _ _) as [[n c]|].
    - rewrite Hf by (try done; destruct b; by repeat constructor). destruct b; simpl; lia.
    - unfold len. rewrite Hbuf. rewrite length_app in Hf. specialize (Hf ltac:(destruct b; by repeat constructor) He).
      rewrite !length_app. destruct b; simpl in *; lia. }
  rewrite Hi. cbv zeta. replace (length a + length w - length a) with (length w) by lia.
  assert (Hb : byte_back (E := string) buf (length a) 0 = Ok (if b then "t" else "f")%char).
  { unfold byte_back. rewrite Nat.sub_0_r, Hbuf, lookup_app_r, Nat.sub_diag by lia. by destruct b. }
  rewrite Hb, (slice_of_middle buf a w rest Hbuf). eexists. destruct b; reflexivity.
Qed.

(** The text of a string. *)
Definition string_codes : list ascii := [backslash; dquote].
Lemma escapeStringField_esc s : of_string (escapeStringField s) = esc_bytes string_codes (of_string s).
Proof.
  induction s as [|c s IH]; [done|]. cbn [escapeStringField]. unfold of_string in *. cbn [String.list_ascii_of_string].
  rewrite esc_bytes_cons, <- IH.
  assert (E : eqc c backslash || eqc c dquote = bool_decide (c ∈ string_codes)).
  { unfold eqc, string_codes. repeat case_bool_decide; set_solver. }
  rewrite E. by case_bool_decide.
Qed.
Definition string_bytes (s : string) : list ascii := [dquote] ++ esc_bytes string_codes (of_string s) ++ [dquote].

Section fields_text.
Context {goText : GoText} (buf : slice) (start : nat).

Lemma quoted_text l rest : ∀ i e c,
  scanFields_loop buf start (esc_bytes string_codes l ++ rest) i 0 true e c =
  scanFields_loop buf start rest (length (esc_bytes string_codes l) + i) 0 true e c.
Proof.
  induction l as [|x l IH]; intros i e c; [done|]. rewrite esc_bytes_cons. case_bool_decide as Hx.
  - cbn [app length scanFields_loop]. change (eqc backslash backslash) with true.
    assert (Hq : next_is (λ d, eqc d dquote || eqc d backslash) (x :: esc_bytes string_codes l ++ rest) = true).
    { simpl. apply orb_true_iff. unfold string_codes in Hx. apply elem_of_cons in Hx as [->|Hx]; [by right|left].
      by apply list_elem_of_singleton in Hx as ->. }
    rewrite Hq. cbn [andb]. rewrite IH. f_equal. lia.
  - cbn [app length scanFields_loop]. rewrite (eqc_false x backslash), (eqc_false x dquote) by (intros ->; apply Hx; set_solver).
    cbn [andb negb]. rewrite !andb_false_r, IH. f_equal. lia.
Qed.
Lemma string_text s rest i e c :
  scanFields_loop buf start (string_bytes s ++ rest) i 0 false e c =
  scanFields_loop buf start rest (length (string_bytes s) + i) 0 false e c.
Proof.
  unfold string_bytes. cbn [app scanFields_loop]. change (eqc dquote backslash) with false. change (eqc dquote dquote) with true.
  cbn [andb negb]. rewrite <- app_assoc, quoted_text. cbn [app scanFields_loop]. change (eqc dquote backslash) with false.
  change (eqc dquote dquote) with true. cbn [andb negb]. f_equal. simpl. rewrite length_app. simpl. lia.
Qed.

(** A name of a field. *)
Lemma name_text l rest : backslash ∉ l → ∀ i e c,
  scanFields_loop buf start (esc_bytes Codes l ++ rest) i 0 false e c =
  scanFields_loop buf start rest (length (esc_bytes Codes l) + i) 0 false e c.
Proof.
  intros Hb. induction l as [|x l IH]; intros i e c; [done|]. apply not_elem_of_cons in Hb as [Hx Hb]. specialize (IH Hb).
  rewrite esc_bytes_cons. case_bool_decide as Hc.
  - cbn [app length scanFields_loop]. change (eqc backslash backslash) with true.
    assert (Hq : next_is (λ d, isFieldEscapeChar d) (x :: esc_bytes Codes l ++ rest) = true).
    { simpl. unfold isFieldEscapeChar. rewrite is_code_spec. by apply bool_decide_eq_true_2. }
    rewrite Hq. cbn [andb]. rewrite IH. f_equal. lia.
  - cbn [app length scanFields_loop]. unfold Codes in Hc.
    rewrite (eqc_false x backslash), (eqc_false x dquote), (eqc_false x "="), (eqc_false x ","), (eqc_false x " ")
      by (first [congruence|intros ->; apply Hc; set_solver]).
    cbn [andb negb]. rewrite IH. f_equal. lia.
Qed.

(** What a field has as its value. *)
Inductive value_bytes : list ascii → Prop :=
| number_bytes w : number_text w → value_bytes w
| bool_bytes (b : bool) : value_bytes (of_string (if b then "true" else "false"))
| quoted_bytes s : value_bytes (string_bytes s).

Lemma number_first w : number_text w → ∃ c w', w = c :: w' ∧ (isDigit (rn c) = true ∨ c = "-"%char).
Proof.
  intros H. assert (Hs : ∀ neg v u, digits v → v ≠ [] → ∃ c w', sign_bytes neg ++ v ++ u = c :: w' ∧ (isDigit (rn c) = true ∨ c = "-"%char)).
  { intros [|] v u Hv Hv0; [by eexists _, _; split; [done|right]|]. destruct v as [|c v]; [done|]. apply Forall_cons in Hv as [Hc _].
    eexists _, _; split; [done|by left]. }
  destruct H; [by apply Hs| |by apply Hs]. rewrite <- (app_nil_r w). by apply Hs.
Qed.

Lemma field_scanned a k v rest e c : backslash ∉ k → k ≠ [] → value_bytes v → ends rest →
  s_bytes buf = a ++ (esc_bytes Codes k ++ ["="%char] ++ v) ++ rest →
  scanFields_loop buf start ((esc_bytes Codes k ++ ["="%char] ++ v) ++ rest) (length a) 0 false e c =
  scanFields_loop buf start rest (length a + length (esc_bytes Codes k ++ ["="%char] ++ v)) 0 false (S e) c.
Proof.
  intros Hb Hk Hv He Hbuf. rewrite <- app_assoc, name_text by done. set (K := esc_bytes Codes k) in *. cbn [app scanFields_loop].
  change (eqc "=" backslash) with false. change (eqc "=" dquote) with false. change (eqc "=" "=") with true. cbn [andb negb].
  destruct (back_at_end buf Codes k a (["="%char] ++ v ++ rest)) as (p & Hp & Hq); [done| |by rewrite Hbuf, <- !app_assoc|].
  { intros x [->%eqc_true | ->%eqc_true]%orb_true_iff; unfold Codes; set_solver. }
  fold K in Hp, Hq. rewrite (Nat.add_comm (length K)), Hp. cbn [outcome_bind].
  assert (Hm : (if separator p then let! q := byte_back buf (length a + length K) 2 in Ok (negb (eqc q backslash)) else Ok false) = @Ok string bool false).
  { destruct (separator p); [|done]. by rewrite Hq. }
  rewrite Hm. cbn [outcome_bind].
  assert (Hbuf2 : s_bytes buf = (a ++ K ++ ["="%char]) ++ v ++ rest) by (by rewrite Hbuf, <- !app_assoc).
  assert (Hlen : S (length a + length K) = length (a ++ K ++ ["="%char])) by (rewrite !length_app; simpl; lia).
  assert (Hend : length a + length (K ++ "="%char :: v) = length (a ++ K ++ ["="%char]) + length v) by (rewrite !length_app; simpl; lia).
  rewrite Hend, Hlen. destruct Hv as [w Hw|b|s].
  - pose proof (scanNumber_text buf _ rest w Hw Hbuf2 He) as Hn. destruct (number_first w Hw) as (d & w' & Hd & Hdig).
    rewrite Hd in *. cbn [app].
    assert (Hsep : separator d = false) by (destruct Hdig as [Hdig| ->]; [unfold separator; by rewrite !(digit_other d)|done]).
    assert (Hnum : isNumeric d || eqc d "-" || eqc d "N" || eqc d "n" = true).
    { unfold isNumeric. destruct Hdig as [->| ->]; done. }
    rewrite Hsep, Hnum, Hn. cbn [outcome_bind]. rewrite app_comm_cons.
    replace (length (a ++ K ++ ["="%char]) + length (d :: w') - length (a ++ K ++ ["="%char])) with (length (d :: w')) by lia.
    rewrite skipped_fields. f_equal. lia.
  - destruct (scanBoolean_text buf (a ++ K ++ ["="%char]) b rest (λ x _, scanFields_loop buf start (of_string (if b then "true" else "false") ++ rest)
      (length (a ++ K ++ ["="%char])) (x - length (a ++ K ++ ["="%char])) false (S e) c) Hbuf2 He) as [s Hs].
    replace (length (a ++ K ++ ["="%char]) + length (of_string (if b then "true" else "false")) - length (a ++ K ++ ["="%char]))
      with (length (of_string (if b then "true" else "false"))) in Hs by lia.
    rewrite skipped_fields in Hs. etransitivity; [|etransitivity; [exact Hs|f_equal; lia]]. by destruct b.
  - cbn [string_bytes app]. change (separator dquote) with false. change (isNumeric dquote || eqc dquote "-" || eqc dquote "N" || eqc dquote "n") with false.
    change (negb (eqc dquote dquote)) with false. cbv iota. etransitivity; [apply (string_text s rest)|f_equal; unfold string_bytes; simpl; lia].
Qed.
End fields_text.

(** ** All fields, and the time *)

Definition field_bytes (f : list ascii * list ascii) : list ascii := esc_bytes Codes f.1 ++ ["="%char] ++ f.2.
Definition field_ok (f : list ascii * list ascii) : Prop :=
  backslash ∉ f.1 ∧ f.1 ≠ [] ∧ next_is is_space (esc_bytes Codes f.1) = false ∧ value_bytes f.2.

Lemma joined_cons x y l : joined (x :: y :: l) = x ++ [","%char] ++ joined (y :: l).
Proof. done. Qed.

Lemma fields_scanned {goText : GoText} buf start rest l : ∀ a f e c, Forall field_ok (f :: l) →
  s_bytes buf = a ++ joined (field_bytes <$> f :: l) ++ " "%char :: rest →
  scanFields_loop buf start (joined (field_bytes <$> f :: l) ++ " "%char :: rest) (length a) 0 false e c =
  Ok (length a + length (joined (field_bytes <$> f :: l)), false, e + S (length l), c + length l).
Proof.
  induction l as [|f' l IH]; intros a [k v] e c Hok Hbuf; apply Forall_cons in Hok as [(Hb & Hk & _ & Hv) Hok].
  - cbn [fmap list_fmap joined] in *. unfold field_bytes in *. cbn [fst snd] in *.
    rewrite (field_scanned buf start a k v) by (try done; by right). cbn.
    change (eqc " " backslash) with false. change (eqc " " dquote) with false. change (eqc " " "=") with false.
    change (eqc " " ",") with false. change (eqc " " " ") with true. cbn. by rewrite Nat.add_0_r, Nat.add_1_r.
  - cbn [fmap list_fmap] in *. rewrite joined_cons in *. rewrite <- app_assoc in *.
    rewrite (field_scanned buf start a k v) by (try done; by right). cbn [app scanFields_loop].
    change (eqc "," backslash) with false. change (eqc "," dquote) with false. change (eqc "," "=") with false.
    change (eqc "," ",") with true. cbn [andb negb].
    replace (S (length a + length (esc_bytes Codes k ++ "="%char :: v))) with (length (a ++ (field_bytes (k, v)) ++ [","%char]))
      by (unfold field_bytes; rewrite !length_app; simpl; lia).
    rewrite (IH _ f'); [|done|by rewrite Hbuf, <- !app_assoc]. rewrite !length_app. cbn [length].
    match goal with |- Ok (?p, _, ?x, ?y) = Ok (?p', _, ?x', ?y') =>
      replace p with p' by lia; replace x with x' by lia; replace y with y' by lia end. done.
Qed.

Lemma spaces_none l : next_is is_space l = false → spaces l = 0.
Proof. destruct l as [|c l]; [done|]. simpl. by intros ->. Qed.
Lemma skip_one buf a l : s_bytes buf = a ++ " "%char :: l → next_is is_space l = false →
  skipWhitespace buf (length a) = length (a ++ [" "%char]) ∧ drop (length (a ++ [" "%char])) (s_bytes buf) = l.
Proof.
  intros Hbuf Hl. split.
  - unfold skipWhitespace. rewrite Hbuf, drop_app_length, length_app. cbn [spaces]. change (is_space " ") with true. cbv iota.
    rewrite spaces_none by done. done.
  - rewrite Hbuf. change (" "%char :: l) with ([" "%char] ++ l). by rewrite app_assoc, drop_app_length.
Qed.

Lemma scanFields_written {goText : GoText} buf a rest f l : Forall field_ok (f :: l) →
  s_bytes buf = a ++ " "%char :: joined (field_bytes <$> f :: l) ++ " "%char :: rest →
  scanFields buf (length a) = Ok (length (a ++ " "%char :: joined (field_bytes <$> f :: l)),
    mkSlice (joined (field_bytes <$> f :: l)) (" "%char :: rest ++ s_spare buf)).
Proof.
  intros Hok Hbuf. unfold scanFields.
  assert (Hsp : next_is is_space (joined (field_bytes <$> f :: l) ++ " "%char :: rest) = false).
  { apply Forall_cons in Hok as [(_ & Hk & Hs & _) _]. destruct f as [k v]. cbn [fst] in *.
    assert (Hne : esc_bytes Codes k ≠ []) by (destruct k; [done|]; rewrite esc_bytes_cons; by case_bool_decide).
    destruct l; cbn [fmap list_fmap joined]; unfold field_bytes; cbn [fst snd]; by destruct (esc_bytes Codes k). }
  destruct (skip_one _ _ _ Hbuf Hsp) as [-> ->].
  rewrite fields_scanned; [|done|by rewrite Hbuf, <- app_assoc]. cbn [outcome_bind orb].
  rewrite (proj2 (Nat.eqb_neq (0 + S (length l)) 0)) by lia. rewrite (proj2 (Nat.eqb_eq (S (0 + length l)) (0 + S (length l)))) by lia.
  cbn [orb negb]. rewrite (slice_of_middle buf (a ++ [" "%char]) (joined (field_bytes <$> f :: l)) (" "%char :: rest)) by (by rewrite Hbuf, <- app_assoc).
  cbn [outcome_bind]. rewrite !length_app. cbn [length].
  match goal with |- Ok (?p, _) = Ok (?p', _) => replace p with p' by lia end. done.
Qed.

Lemma scanTime_digits buf start w : ∀ i, digits w → scanTime_loop buf start w i = Ok (length w + i).
Proof.
  induction w as [|c w IH]; intros i Hw; [done|]. apply Forall_cons in Hw as [Hc Hw]. cbn [scanTime_loop]. rewrite Hc. cbn [negb].
  rewrite IH by done. simpl. f_equal. lia.
Qed.
Lemma scanTime_written buf a n : s_bytes buf = a ++ " "%char :: of_string (Sprintf_d n) →
  ∃ sp pos, scanTime buf (length a) = Ok (pos, mkSlice (of_string (Sprintf_d n)) sp).
Proof.
  intros Hbuf. set (w := of_string (Sprintf_d n)) in *.
  assert (Hw : ∃ neg d, w = sign_bytes neg ++ d ∧ digits d ∧ d ≠ []).
  { subst w. unfold Sprintf_d. destruct (_ <? _)%Z; [exists true, (of_string (decimal (- n)))|exists false, (of_string (decimal n))];
      (split; [done|]; apply decimal_bytes). }
  destruct Hw as (neg & d & Hw & Hd & Hd0). unfold scanTime.
  assert (Hns : next_is is_space w = false).
  { rewrite Hw. destruct neg; [done|]. destruct d as [|c d]; [done|]. apply Forall_cons in Hd as [Hc _]. simpl.
    unfold is_space. by rewrite !(digit_other c). }
  destruct (skip_one _ _ _ Hbuf Hns) as [-> ->].
  assert (Hl : scanTime_loop buf (length (a ++ [" "%char])) w (length (a ++ [" "%char])) = Ok (length (a ++ [" "%char]) + length w)).
  { rewrite Hw. destruct neg; cbn [sign_bytes app scanTime_loop].
    - change (isDigit (rn "-")) with false. cbn [negb]. rewrite Nat.eqb_refl. cbn [andb]. change (eqc "-" "-") with true. cbv iota.
      rewrite scanTime_digits by done. simpl. f_equal. lia.
    - rewrite scanTime_digits by done. f_equal. lia. }
  rewrite Hl. cbn [outcome_bind]. rewrite (slice_of_middle buf (a ++ [" "%char]) w []) by (by rewrite Hbuf, app_nil_r, <- app_assoc).
  by eexists _, _.
Qed.
