(* ===== verification/PointsRead.v ===== *)
(** * Reading the parts of a point

    What [Name], [Tags] and [Fields] find in the texts that [NewPoint] writes. *)

From stdpp Require Import base list strings gmap sorting.
From Stdlib Require Import ZArith Ascii Lia SpecFloat.
From S2P Require Import Prelude MetaData QlToken Escape QlExpr QlSelect QlPrint QlReader QlScan QlUtf8 QlDuration QlNumber Strconv.
From S2P Require Import TsdbMerge TsdbIndex Rows Points PointsSafe PointsText.

Local Open Scope nat_scope.

(** ** Escaping *)

Lemma unesc_plain S s : backslash ∉ of_string s → unesc S s = s.
Proof.
  induction s as [|c s IH]; [done|]. unfold of_string in *. cbn [String.list_ascii_of_string]. intros [Hc Hs]%not_elem_of_cons.
  rewrite unesc_skip by congruence. by rewrite IH.
Qed.
Lemma unesc_esc_plain S T s : backslash ∉ of_string s → S ⊆ T → unesc T (esc S s) = s.
Proof.
  intros Hb HST. induction s as [|c s IH]; [done|]. unfold of_string in *. cbn [String.list_ascii_of_string] in Hb.
  apply not_elem_of_cons in Hb as [Hc Hs]. cbn [esc]. case_bool_decide.
  - rewrite unesc_code, IH by set_solver. done.
  - rewrite unesc_skip, IH by congruence. done.
Qed.
Lemma string_of_esc S s : String.string_of_list_ascii (esc_bytes S (of_string s)) = esc S s.
Proof. by rewrite <- of_string_esc, string_of_bytes. Qed.

Section maps.
Context {maps : PointMaps}.

Lemma escapeMeasurement_esc s : escapeMeasurement s = esc name_codes s ∧ unescapeMeasurement s = unesc name_codes s.
Proof.
  apply escape_Bytes_esc; [apply measurement_order_perm|apply (bool_decide_unpack _); vm_compute; done..].
Qed.
Lemma escapeTag_esc s : escapeTag s = esc tag_codes s ∧ unescapeTag s = unesc tag_codes s.
Proof.
  apply escape_Bytes_esc; [apply tag_order_perm|apply (bool_decide_unpack _); vm_compute; done..].
Qed.
Lemma escape_key_esc s : escape_String code_order s = esc Codes s.
Proof. apply escape_String_esc, code_order_perm. Qed.
Lemma no_backslash : backslash ∉ name_codes ∧ backslash ∉ tag_codes ∧ backslash ∉ Codes.
Proof. split_and!; apply (bool_decide_unpack _); vm_compute; done. Qed.

(** ** Tags *)

Definition tag_pair (t : string * string) : list ascii * list ascii := (of_string t.1, of_string t.2).
Definition good_tag (t : string * string) : Prop := plain t.1 ∧ plain t.2 ∧ t.1 ≠ EmptyString ∧ t.2 ≠ EmptyString.
Lemma of_string_nonempty s : s ≠ EmptyString → of_string s ≠ [].
Proof. by destruct s. Qed.
Lemma good_tag_ok t : good_tag t → tag_ok (tag_pair t).
Proof. intros ([? _] & [? _] & ? & ?). split_and!; simpl; try done; by apply of_string_nonempty. Qed.

Lemma until_tags stop l : (∀ c, stop c = true ↔ c = ","%char) → until stop (tags_bytes l) = 0.
Proof.
  intros Hs. destruct l as [|t l]; [done|]. rewrite tags_bytes_cons. cbn [app]. apply until_stop; [done|by apply Hs].
Qed.

Lemma tags_from_written key l : ∀ fuel a m, Forall good_tag l → s_bytes key = a ++ tags_bytes (tag_pair <$> l) → length l < fuel →
  tags_from fuel key (S (length a)) m = Ok (foldl (λ m t, <[t.1 := t.2]> m) m l).
Proof.
  induction l as [|t l IH]; intros fuel a m Hl Hkey Hf; destruct fuel as [|fuel]; try (simpl in Hf; lia); cbn [tags_from].
  - rewrite (proj2 (Nat.leb_le (len key) _)); [done|]. unfold len. rewrite Hkey, app_nil_r. lia.
  - apply Forall_cons in Hl as [Ht Hl]. destruct t as [k v]. pose proof (good_tag_ok _ Ht) as (Hk & Hv & Hk0 & Hv0). cbn in Hk, Hv, Hk0, Hv0.
    cbn [fmap list_fmap] in Hkey. rewrite tags_bytes_cons in Hkey.
    set (K := esc_bytes tag_codes (of_string k)). set (V := esc_bytes tag_codes (of_string v)).
    assert (H1 : s_bytes key = (a ++ [","%char]) ++ K ++ "="%char :: V ++ tags_bytes (tag_pair <$> l)).
    { rewrite Hkey. unfold tag_bytes. cbn [tag_pair fst snd]. fold K V. simpl. by rewrite <- !app_assoc. }
    assert (H2 : s_bytes key = ((a ++ [","%char]) ++ K ++ ["="%char]) ++ V ++ tags_bytes (tag_pair <$> l)).
    { rewrite H1. by rewrite <- !app_assoc. }
    rewrite (proj2 (Nat.leb_gt (len key) _)) by (unfold len; rewrite H1, !length_app; simpl; lia).
    replace (S (length a)) with (length (a ++ [","%char])) by (rewrite length_app; simpl; lia). unfold scanTo, scanTagValue.
    rewrite (scan_until_middle _ _ _ K _ H1).
    2:{ unfold K. rewrite until_esc; [|done|intros c ->%eqc_true; set_solver]. rewrite until_stop by done. lia. }
    cbn [outcome_bind].
    replace (S (length (a ++ [","%char]) + length K)) with (length ((a ++ [","%char]) ++ K ++ ["="%char])) by (rewrite !length_app; simpl; lia).
    rewrite (scan_until_middle _ _ _ V _ H2).
    2:{ unfold V. rewrite until_esc; [|done|intros c ->%eqc_true; set_solver]. rewrite until_tags; [lia|].
        intros c. split; [apply eqc_true|by intros ->]. }
    cbn [outcome_bind]. assert (HV : len (mkSlice V (tags_bytes (tag_pair <$> l) ++ s_spare key)) =? 0 = false).
    { apply Nat.eqb_neq. unfold len, V. simpl. destruct (of_string v); [done|]. rewrite esc_bytes_cons. case_bool_decide; simpl; lia. }
    rewrite HV. replace (S (length ((a ++ [","%char]) ++ K ++ ["="%char]) + length V)) with (S (length (((a ++ [","%char]) ++ K ++ ["="%char]) ++ V)))
      by (rewrite (length_app _ V); lia).
    rewrite IH; [|done|by rewrite H2, <- !app_assoc|simpl in Hf; lia].
    unfold text. cbn [s_bytes foldl fst snd]. unfold K, V. rewrite !string_of_esc.
    rewrite !(proj2 (escapeTag_esc _)), !unesc_esc by apply no_backslash. done.
Qed.

Lemma name_written key name l : plain name → s_bytes key = esc_bytes name_codes (of_string name) ++ tags_bytes l →
  ∃ sp, scanTo (E := unit) key 0 "," = Ok (length (esc_bytes name_codes (of_string name)), mkSlice (esc_bytes name_codes (of_string name)) sp) ∧
    Unescape (text (mkSlice (esc_bytes name_codes (of_string name)) sp)) = name.
Proof.
  intros [Hb _] Hkey. eexists. unfold scanTo. split.
  - rewrite (scan_until_middle _ key [] (esc_bytes name_codes (of_string name)) (tags_bytes l)); [done|done|].
    rewrite until_esc; [|done|intros c ->%eqc_true; set_solver]. rewrite until_tags; [lia|]. intros c. split; [apply eqc_true|by intros ->].
  - unfold text. cbn [s_bytes]. rewrite string_of_esc, Unescape_unesc. apply unesc_esc_plain; [done|].
    intros c. unfold name_codes, Codes. set_solver.
Qed.
End maps.

(** ** Values *)

Lemma value_end_plain w rest : Forall (λ c, c ≠ dquote ∧ c ≠ ","%char ∧ c ≠ backslash) w →
  field_value_end false (w ++ rest) = length w + field_value_end false rest.
Proof.
  induction 1 as [|c w (H1 & H2 & H3) Hw IH]; [done|]. cbn [app field_value_end length].
  rewrite (eqc_false c dquote), (eqc_false c ","), (eqc_false c backslash) by done. cbn [andb]. rewrite IH.
  destruct (w ++ rest) eqn:E; [|done]. by apply app_nil in E as [-> ->].
Qed.
Lemma value_end_quoted l rest : last l ≠ Some backslash →
  field_value_end true (esc_bytes string_codes l ++ dquote :: rest) = length (esc_bytes string_codes l) + S (field_value_end false rest).
Proof.
  induction l as [|c l IH]; intros Hl.
  - by destruct rest.
  - assert (Hl' : last l ≠ Some backslash) by (destruct l; [done|exact Hl]). specialize (IH Hl'). rewrite esc_bytes_cons.
    set (tl := esc_bytes string_codes l ++ dquote :: rest) in *.
    assert (Hplain : ∀ x, (x ≠ dquote ∧ x ≠ backslash) ∨ (x = backslash ∧ next_is (λ d, eqc d dquote) tl = false) →
      field_value_end true (x :: tl) = S (field_value_end true tl)).
    { intros x Hx. assert (Htl : tl ≠ []) by (subst tl; by destruct (esc_bytes string_codes l)). clearbody tl.
      destruct tl as [|d tl']; [done|]. cbn [field_value_end].
      destruct Hx as [[H1 H2]|[-> Hn]].
      - by rewrite (eqc_false x backslash), (eqc_false x dquote), andb_false_r by done.
      - simpl in Hn. by rewrite Hn. }
    case_bool_decide as Hc; cbn [app length]; fold tl.
    + unfold string_codes in Hc. apply elem_of_cons in Hc as [->|Hc].
      * assert (Hn : next_is (λ d, eqc d dquote) tl = false).
        { subst tl. destruct l as [|d l]; [done|]. rewrite esc_bytes_cons. unfold string_codes. case_bool_decide as Hd; [done|].
          simpl. apply eqc_false. intros ->. apply Hd. set_solver. }
        transitivity (S (field_value_end true (backslash :: tl))); [|rewrite Hplain by (by right); rewrite IH; lia].
        done.
      * apply list_elem_of_singleton in Hc as ->. change (field_value_end true (backslash :: dquote :: tl)) with (2 + field_value_end true tl).
        rewrite IH. lia.
    + rewrite Hplain, IH; [lia|]. left. split; intros ->; apply Hc; unfold string_codes; set_solver.
Qed.

Lemma unescape_escape s : unescapeStringField (escapeStringField s) = s.
Proof.
  induction s as [|c s IH]; [done|]. cbn [escapeStringField]. destruct (eqc c backslash || eqc c dquote) eqn:E.
  - cbn [unescapeStringField]. change (eqc backslash backslash) with true. rewrite E. cbn [andb]. by rewrite IH.
  - apply orb_false_iff in E as [E _]. transitivity (String c (unescapeStringField (escapeStringField s))); [|by rewrite IH].
    cbn [unescapeStringField]. rewrite E. cbn [andb]. by destruct (escapeStringField s).
Qed.

(** The values that are read back. *)
Definition good_value (v : PointValue) : Prop :=
  match v with
  | FvInt z => is_i64 z
  | FvFloat f => is_number f ∧ ParseFloat64 (FormatFloat64 f) = Some f
  | FvBool _ => True
  | FvString s => newline ∉ of_string s ∧ last (of_string s) ≠ Some backslash
  | _ => False
  end.


(** The bytes that no number has. *)
Lemma number_byte_other c d : number_byte c → isDigit (rn d) = false → d ≠ "-"%char → d ≠ "."%char → c ≠ d.
Proof. intros [H|[->| ->]] Hd H1 H2; congruence. Qed.
Lemma int_bytes z : Forall number_byte (of_string (Sprintf_d z)).
Proof.
  unfold Sprintf_d. destruct (_ <? _)%Z; [constructor; [by right; left|]|]; apply number_byte_digits; apply decimal_bytes.
Qed.
Lemma HasSuffix_i s : HasSuffix s "i" = true → "i"%char ∈ of_string s.
Proof.
  unfold HasSuffix. assert (Hr : ∀ a b c, c ∈ of_string (String.rev_app a b) → c ∈ of_string a ∨ c ∈ of_string b).
  { intros a. induction a as [|x a IH]; intros b c; [by right|]. simpl. intros [H|H]%IH; [left; set_solver|]. set_solver. }
  intros H. assert (Hin : "i"%char ∈ of_string (String.rev s)).
  { change (String.rev "i") with "i" in H. destruct (String.rev s) as [|c r]; [done|].
    cbn [String.prefix] in H. destruct (ascii_dec "i" c) as [<-|]; [left|done]. }
  destruct (Hr s EmptyString "i"%char Hin) as [Hi|Hi]; [done|inversion Hi].
Qed.

(** What is written for a value: it is scanned, found and converted back. *)
Lemma value_written v : good_value v → value_bytes (value_text v) ∧ newline ∉ value_text v ∧ value_text v ≠ [] ∧
  (∀ rest, rest = [] ∨ next_is (λ c, eqc c ",") rest = true → field_value_end false (value_text v ++ rest) = length (value_text v)) ∧
  ∀ sp, parse_value (E := unit) (mkSlice (value_text v) sp) = Ok v.
Proof.
  assert (Hrest : ∀ rest, rest = [] ∨ next_is (λ c, eqc c ",") rest = true → field_value_end false rest = 0).
  { intros rest [->|H]; [done|]. destruct rest as [|c rest]; [done|]. simpl in H. apply eqc_true in H as ->. by destruct rest. }
  assert (Hplain : ∀ w rest, Forall (λ c, c ≠ dquote ∧ c ≠ ","%char ∧ c ≠ backslash) w → rest = [] ∨ next_is (λ c, eqc c ",") rest = true →
    field_value_end false (w ++ rest) = length w).
  { intros w rest Hw Hr. rewrite value_end_plain, Hrest by done. lia. }
  assert (Hnum : ∀ w, Forall number_byte w → Forall (λ c, c ≠ dquote ∧ c ≠ ","%char ∧ c ≠ backslash) w ∧ newline ∉ w).
  { intros w Hw. split.
    - eapply Forall_impl; [exact Hw|]. intros c Hc. split_and!; by apply (number_byte_other _ _ Hc).
    - intros Hn. eapply Forall_forall in Hw; [|exact Hn]. by eapply (number_byte_other newline newline). }
  assert (Hfirst : ∀ w sp, number_text w → parse_value (E := unit) (mkSlice w sp) =
    match parseNumber (String.string_of_list_ascii w) with Some v => Ok v | None => Panic end).
  { intros w sp Hw. destruct (number_first w Hw) as (c & w' & -> & Hc). unfold parse_value, text. cbn [s_bytes].
    assert (E1 : eqc c dquote = false) by (destruct Hc as [Hc| ->]; [by apply digit_other|done]).
    assert (E2 : number_start c = true) by (unfold number_start; destruct Hc as [->| ->]; done). by rewrite E1, E2. }
  destruct v as [z| | |f|b| |s| |]; try done; intros Hv; cbn [value_text good_value] in *.
  - pose proof (int_value z Hv) as Ht. rewrite of_string_app in *. destruct (Hnum _ (int_bytes z)) as [H1 H2]. split_and!.
    + by constructor.
    + set_solver.
    + by destruct (of_string (Sprintf_d z)).
    + intros rest Hr. apply Hplain; [|done]. apply Forall_app_2; [done|]. apply (bool_decide_unpack _); vm_compute; done.
    + intros sp. rewrite Hfirst by done. rewrite <- of_string_app, string_of_bytes. unfold parseNumber.
      assert (Hsuf : HasSuffix (Sprintf_d z +:+ "i") "i" = true) by (unfold HasSuffix; rewrite rev_last; cbn; by destruct (String.rev _)).
      rewrite Hsuf. change 1 with (String.length "i"). rewrite drop_last_app, ParseInt_Sprintf by done. done.
  - destruct Hv as [Hn Hp]. destruct (float_value f Hn Hp) as [Ht Hb]. destruct (Hnum _ Hb) as [H1 H2]. split_and!.
    + by constructor.
    + done.
    + destruct (number_first _ Ht) as (c & w' & -> & _). done.
    + intros rest Hr. by apply Hplain.
    + intros sp. rewrite Hfirst by done. rewrite string_of_bytes. unfold parseNumber.
      destruct (HasSuffix _ "i") eqn:E; [|by rewrite Hp].
      apply HasSuffix_i in E. eapply Forall_forall in Hb; [|exact E]. exfalso. by eapply (number_byte_other "i" "i").
  - split_and!.
    + apply bool_bytes.
    + by destruct b; apply (bool_decide_unpack _); vm_compute.
    + by destruct b.
    + intros rest Hr. apply Hplain; [|done]. destruct b; apply (bool_decide_unpack _); vm_compute; done.
    + intros sp. by destruct b.
  - destruct Hv as [Hn Hl]. rewrite escapeStringField_esc. split_and!.
    + apply quoted_bytes.
    + rewrite not_elem_of_app. split; [apply (bool_decide_unpack _); vm_compute; done|].
      rewrite not_elem_of_app. split; [|apply (bool_decide_unpack _); vm_compute; done]. by apply esc_bytes_no.
    + done.
    + intros rest Hr. rewrite <- !app_assoc. cbn [app].
      transitivity (S (field_value_end true (esc_bytes string_codes (of_string s) ++ dquote :: rest))).
      { cbn [field_value_end]. destruct (esc_bytes string_codes (of_string s) ++ dquote :: rest) eqn:E; [by destruct (esc_bytes string_codes (of_string s))|]. done. }
      rewrite value_end_quoted, Hrest by done. rewrite length_cons, length_app. simpl. lia.
    + intros sp. unfold parse_value. cbn [s_bytes app]. change (eqc dquote dquote) with true. cbv iota.
      pose proof (slice_of_middle (E := unit) (mkSlice (dquote :: esc_bytes string_codes (of_string s) ++ [dquote]) sp) [dquote]
        (esc_bytes string_codes (of_string s)) [dquote] eq_refl) as Hs. cbn [length] in Hs.
      unfold len. cbn [s_bytes]. rewrite length_cons, length_app. cbn [length].
      replace (S (length (esc_bytes string_codes (of_string s)) + 1) - 1) with (1 + length (esc_bytes string_codes (of_string s))) by lia.
      rewrite Hs. cbn [outcome_bind]. unfold text. cbn [s_bytes]. rewrite <- escapeStringField_esc, string_of_bytes, unescape_escape. done.
Qed.
