(* ===== verification/PointsProps.v ===== *)
(** * Theorems about points

    A point that [NewPoint] makes is printed by [String] as a line that
    [ParsePoints] reads back as the same point. *)

From stdpp Require Import base list strings gmap sorting.
From Stdlib Require Import ZArith Ascii Lia SpecFloat.
From S2P Require Import Prelude MetaData QlToken Escape QlExpr QlSelect QlPrint QlReader QlScan QlUtf8 QlDuration QlNumber Strconv.
From S2P Require Import TsdbMerge TsdbIndex TsdbTagProps Rows Points PointsSafe PointsText PointsRead.

Local Open Scope nat_scope.

(** ** Maps and lists of their entries *)

Lemma foldl_insert {A} (l : list (string * A)) (m : gmap string A) :
  foldl (λ m t, <[t.1 := t.2]> m) m l = list_to_map (rev l) ∪ m.
Proof.
  revert m. induction l as [|[k v] l IH]; intros m; [simpl; by rewrite (left_id_L ∅ _)|]. cbn [foldl fst snd rev]. rewrite IH.
  rewrite list_to_map_app. cbn [list_to_map foldr fst snd]. rewrite insert_empty, <- (assoc_L (∪)), <- insert_union_singleton_l. done.
Qed.
Lemma foldl_insert_entries {A} (l : list (string * A)) (m : gmap string A) : l ≡ₚ map_to_list m →
  foldl (λ m t, <[t.1 := t.2]> m) ∅ l = m.
Proof.
  intros Hl. rewrite foldl_insert, (right_id_L ∅ _). rewrite <- (list_to_map_to_list m) at 1.
  assert (Hr : rev l ≡ₚ map_to_list m) by (rewrite <- (Permutation_rev l); exact Hl).
  apply list_to_map_proper; [|exact Hr]. rewrite Hr. apply NoDup_fst_map_to_list.
Qed.
(** The entries of a map, in the order of a list of its keys. *)
Lemma entries_of_keys {A} `{Inhabited A} (m : gmap string A) ks : ks ≡ₚ fst <$> map_to_list m →
  (λ k, (k, m !!! k)) <$> ks ≡ₚ map_to_list m.
Proof.
  intros ->. rewrite <- list_fmap_compose. apply Permutation_refl'. transitivity (id <$> map_to_list m); [|apply list_fmap_id].
  apply list_fmap_ext. intros i [k v] Hi. simpl. apply list_elem_of_lookup_2, elem_of_map_to_list in Hi.
  by rewrite (lookup_total_correct _ _ _ Hi).
Qed.
Lemma esc_inj S s t : backslash ∉ S → esc S s = esc S t → s = t.
Proof. intros Hb H. by rewrite <- (unesc_esc S s), H, unesc_esc. Qed.

Lemma strings_sorted_lookup ks i j k k' : strings_sorted ks → i < j → ks !! i = Some k → ks !! j = Some k' → String.ltb k k' = true.
Proof.
  revert i j. induction ks as [|x ks IH]; intros i j Hs Hij Hi Hj; [done|]. apply sorted_cons in Hs as [Hx Hs]. rewrite keys_id_string in Hx.
  destruct j as [|j]; [lia|]. simpl in Hj. destruct i as [|i]; simpl in Hi; [|apply (IH i j); [done|lia|done..]].
  injection Hi as ->. apply Hx. by eapply list_elem_of_lookup_2.
Qed.

Section written.
Context {maps : PointMaps}.

(** ** The key *)

Definition esc_entry (kv : string * string) : string * string := (esc tag_codes kv.1, esc tag_codes kv.2).
Lemma escaped_tags_eq (t : Tags) : map_Forall (λ k v, good_tag (k, v)) t →
  escaped_tags t = list_to_map (esc_entry <$> map_to_list t) ∧ NoDup (esc_entry <$> map_to_list t).*1.
Proof.
  intros Ht. split.
  - unfold escaped_tags. f_equal.
    assert (Hall : Forall good_tag (map_to_list t)).
    { apply Forall_forall. intros [k v] Hkv%elem_of_map_to_list. by apply Ht. }
    induction Hall as [|[k v] l (_ & _ & _ & Hv) _ IH]; [done|]. cbn [omap list_omap fmap list_fmap fst snd].
    rewrite !(proj1 (escapeTag_esc _)), bool_decide_eq_false_2; [by rewrite IH|].
    intros E. apply Hv. apply (esc_inj tag_codes); [apply no_backslash|exact E].
  - rewrite <- list_fmap_compose. change (fst ∘ esc_entry) with (esc tag_codes ∘ (fst : string * string → string)).
    rewrite list_fmap_compose. apply NoDup_fmap_2; [|apply NoDup_fst_map_to_list].
    intros a b. apply esc_inj, no_backslash.
Qed.

Lemma hash_bytes (g : string → string) tl :
  (∀ kv, kv ∈ tl → g (esc tag_codes kv.1) = esc tag_codes kv.2) →
  of_string (foldr (λ k s, "," +:+ k +:+ "=" +:+ g k +:+ s) EmptyString (esc tag_codes <$> tl.*1)) = tags_bytes (tag_pair <$> tl).
Proof.
  induction tl as [|[k v] tl IH]; intros Hg; [done|]. cbn [fmap list_fmap foldr fst snd]. rewrite tags_bytes_cons.
  rewrite !of_string_app, IH by set_solver. assert (Hkv : g (esc tag_codes k) = esc tag_codes v) by (apply (Hg (k, v)); set_solver). rewrite Hkv, !of_string_esc.
  unfold tag_bytes, tag_pair. cbn [fst snd app]. rewrite <- !app_assoc. done.
Qed.

Lemma HashKey_written (t : Tags) : map_Forall (λ k v, good_tag (k, v)) t →
  ∃ tl, tl ≡ₚ map_to_list t ∧ tags_sorted (tag_pair <$> tl) ∧ of_string (HashKey t) = tags_bytes (tag_pair <$> tl).
Proof.
  intros Ht. destruct (escaped_tags_eq t Ht) as [He Hnd]. unfold HashKey.
  set (keys := sort_Strings (fst <$> map_to_list (escaped_tags t))).
  destruct (sort_Strings_spec (fst <$> map_to_list (escaped_tags t))) as [Hp Hs]; [apply NoDup_fst_map_to_list|]. fold keys in Hp, Hs.
  assert (Hk : keys ≡ₚ esc tag_codes <$> (map_to_list t).*1).
  { rewrite Hp, He. etransitivity; [apply fmap_Permutation, (map_to_list_to_map (M := gmap string)); exact Hnd|].
    by rewrite <- !list_fmap_compose. }
  apply Permutation_map_inv in Hk as (ks & Hkeys & Hks). rewrite Hkeys. symmetry in Hks.
  pose proof (entries_of_keys t ks Hks) as Htl. exists ((λ k, (k, t !!! k)) <$> ks). split; [done|].
  assert (Hfst : ((λ k, (k, t !!! k)) <$> ks).*1 = ks).
  { rewrite <- list_fmap_compose. by apply list_fmap_id. }
  split.
  - intros i j a b Hij Ha Hb. rewrite !list_lookup_fmap in Ha, Hb.
    destruct (ks !! i) as [k|] eqn:Ei; [|done]. destruct (ks !! j) as [k'|] eqn:Ej; [|done]. simpl in Ha, Hb. injection Ha as <-. injection Hb as <-.
    unfold tag_pair, bytes_less. cbn [fst]. rewrite !string_of_esc.
    eapply strings_sorted_lookup; [exact Hs|exact Hij|..]; rewrite Hkeys, list_lookup_fmap; [by rewrite Ei|by rewrite Ej].
  - rewrite <- Hfst at 1. apply hash_bytes. intros [k v] Hkv. rewrite Htl in Hkv. cbn [fst snd].
    apply lookup_total_correct. rewrite He. apply elem_of_list_to_map; [done|]. apply list_elem_of_fmap. by exists (k, v).
Qed.
(** ** The fields *)

Definition field_pair (f : string * PointValue) : list ascii * list ascii := (of_string f.1, value_text f.2).
Definition good_field (f : string * PointValue) : Prop :=
  plain f.1 ∧ f.1 ≠ EmptyString ∧ next_is is_space (esc_bytes Codes (of_string f.1)) = false ∧ good_value f.2.
Lemma good_field_ok f : good_field f → field_ok (field_pair f).
Proof.
  intros ([Hb _] & Hn & Hs & Hv). split_and!; try done; [by apply of_string_nonempty|]. by apply value_written.
Qed.

#[global] Instance FieldValue_inhabited : Inhabited PointValue := populate FvNil.
Lemma Fields_written (fields : PointFields) : fields ≠ ∅ →
  ∃ f fl sp, f :: fl ≡ₚ map_to_list fields ∧
    Fields_MarshalBinary fields = mkSlice (joined (field_bytes <$> (field_pair <$> f :: fl))) sp.
Proof.
  intros Hne. unfold Fields_MarshalBinary.
  destruct (sort_Strings_spec (fst <$> map_to_list fields)) as [Hp _]; [apply NoDup_fst_map_to_list|].
  pose proof (entries_of_keys fields _ Hp) as Hfl.
  assert (Ht : ∀ ks : list string, field_text fields <$> ks = field_bytes <$> (field_pair <$> ((λ k, (k, fields !!! k)) <$> ks))).
  { intros ks. rewrite <- !list_fmap_compose. apply list_fmap_ext. intros i k _. unfold field_text, field_bytes, field_pair, compose. cbn [fst snd].
    rewrite escape_key_esc, of_string_esc. reflexivity. }
  destruct (sort_Strings _) as [|k ks] eqn:E.
  - apply Permutation_nil_l in Hp. symmetry in Hp. apply fmap_nil_inv, map_to_list_empty_iff in Hp. done.
  - exists (k, fields !!! k), ((λ k, (k, fields !!! k)) <$> ks). eexists. split; [exact Hfl|]. by rewrite Ht.
Qed.

Lemma field_value_written buf a v rest sp : good_value v → s_bytes buf = a ++ value_text v ++ rest →
  (rest = [] ∨ next_is (λ c, eqc c ",") rest = true) → sp = rest ++ s_spare buf →
  scanFieldValue (E := unit) buf (length a) = Ok (length a + length (value_text v), mkSlice (value_text v) sp).
Proof.
  intros Hv Hbuf Hr ->. destruct (value_written v Hv) as (_ & _ & _ & He & _).
  unfold scanFieldValue. rewrite Hbuf, drop_app_length, He, (slice_of_middle buf a _ rest Hbuf) by done. done.
Qed.

Lemma field_from_written buf fuel k v a rest m : good_field (k, v) → s_bytes buf = a ++ field_bytes (field_pair (k, v)) ++ rest →
  (rest = [] ∨ next_is (λ c, eqc c ",") rest = true) →
  fields_from (S fuel) buf (length a) m = fields_from fuel buf (S (length (a ++ field_bytes (field_pair (k, v))))) (<[k := v]> m).
Proof.
  intros ([Hb _] & Hn & _ & Hv) Hbuf Hr. cbn [fst snd] in Hb, Hn, Hv. destruct (value_written v Hv) as (_ & _ & Hv0 & _ & Hp).
  unfold field_bytes, field_pair in *. cbn [fst snd] in *. set (K := esc_bytes Codes (of_string k)) in *.
  assert (HK : K ≠ []) by (subst K; destruct k; [done|]; unfold of_string; cbn [String.list_ascii_of_string]; rewrite esc_bytes_cons; by case_bool_decide).
  assert (Hb1 : s_bytes buf = a ++ K ++ ["="%char] ++ value_text v ++ rest) by (by rewrite Hbuf, <- !app_assoc).
  assert (Hb2 : s_bytes buf = (a ++ K ++ ["="%char]) ++ value_text v ++ rest) by (by rewrite Hb1, <- !app_assoc).
  cbn [fields_from]. rewrite (proj2 (Nat.leb_gt (len buf) (length a))) by (unfold len; rewrite Hb1, !length_app; simpl; lia).
  unfold scanTo. rewrite (scan_until_middle _ _ _ K _ Hb1).
  2:{ unfold K. rewrite until_esc; [|done|intros c ->%eqc_true; unfold Codes; set_solver]. cbn [app]. rewrite until_stop by done. lia. }
  cbn [outcome_bind]. rewrite (proj2 (Nat.eqb_neq (len (mkSlice K _)) 0)) by (unfold len; simpl; by destruct K).
  replace (S (length a + length K)) with (length (a ++ K ++ ["="%char])) by (rewrite !length_app; simpl; lia).
  rewrite (field_value_written buf _ v rest _ Hv Hb2 Hr eq_refl). cbn [outcome_bind].
  rewrite (proj2 (Nat.eqb_neq (len (mkSlice (value_text v) _)) 0)) by (unfold len; simpl; by destruct (value_text v)).
  rewrite Hp. cbn [outcome_bind]. unfold text. cbn [s_bytes]. unfold K at 2. rewrite string_of_esc, Unescape_unesc, unesc_esc by apply no_backslash.
  f_equal. rewrite !length_app. simpl. lia.
Qed.

Lemma fields_from_written buf l : ∀ fuel f a m, Forall good_field (f :: l) →
  s_bytes buf = a ++ joined (field_bytes <$> (field_pair <$> f :: l)) → S (length l) < fuel →
  fields_from fuel buf (length a) m = Ok (foldl (λ m t, <[t.1 := t.2]> m) m (f :: l)).
Proof.
  induction l as [|f' l IH]; intros fuel [k v] a m Hok Hbuf Hf; (destruct fuel as [|fuel]; [lia|]);
    apply Forall_cons in Hok as [Hkv Hok]; cbn [fmap list_fmap] in Hbuf.
  - rewrite (field_from_written buf fuel k v a [] m); [|done|by rewrite app_nil_r|by left].
    destruct fuel as [|fuel]; [simpl in Hf; lia|]. cbn [fields_from]. rewrite (proj2 (Nat.leb_le (len buf) _)); [done|].
    unfold len. rewrite Hbuf. cbn [joined]. lia.
  - rewrite joined_cons in Hbuf. rewrite (field_from_written buf fuel k v a _ m Hkv Hbuf) by (by right).
    replace (S (length (a ++ field_bytes (field_pair (k, v))))) with (length ((a ++ field_bytes (field_pair (k, v))) ++ [","%char]))
      by (rewrite !length_app; simpl; lia).
    rewrite (IH fuel f'); [done|done|by rewrite Hbuf, <- !app_assoc|simpl in Hf; lia].
Qed.

(** ** Reading a point *)

(** The bytes of a point that has this name and these tags and fields. *)
Definition holds (q : point) (name : string) (tl : list (string * string)) (f : string * PointValue) (fl : list (string * PointValue)) : Prop :=
  s_bytes (p_key q) = esc_bytes name_codes (of_string name) ++ tags_bytes (tag_pair <$> tl) ∧
  s_bytes (p_fields q) = joined (field_bytes <$> (field_pair <$> f :: fl)) ∧
  p_cachedName q = EmptyString ∧ p_cachedFields q = None.
(** What is found in a point. *)
Definition reads (fuel : nat) (q : point) (name : string) (tags : Tags) (fields : PointFields) : Prop :=
  (∃ q', Name (E := unit) q = Ok (q', name)) ∧ point_Tags q = Ok tags ∧ ∃ q', point_Fields fuel q = Ok (q', fields).

Lemma tags_bytes_length l : length l ≤ length (tags_bytes l).
Proof. induction l as [|t l IH]; [done|]. rewrite tags_bytes_cons, length_app. simpl. lia. Qed.
Lemma name_bytes_length name : name ≠ EmptyString → 0 < length (esc_bytes name_codes (of_string name)).
Proof. destruct name as [|c s]; [done|]. intros _. unfold of_string. cbn [String.list_ascii_of_string]. rewrite esc_bytes_cons. case_bool_decide; simpl; lia. Qed.

Lemma holds_reads fuel q name tl f fl (tags : Tags) (fields : PointFields) : holds q name tl f fl →
  plain name → name ≠ EmptyString → Forall good_tag tl → Forall good_field (f :: fl) →
  tl ≡ₚ map_to_list tags → f :: fl ≡ₚ map_to_list fields → size fields < fuel → reads fuel q name tags fields.
Proof.
  intros (Hk & Hf & Hn & Hc) Hname Hne Htl Hfl Ht Hfs Hfuel. apply name_bytes_length in Hne as Hlen.
  destruct (name_written (p_key q) name _ Hname Hk) as (sp & Hscan & Hun). split_and!.
  - unfold Name, name_of. rewrite Hn, Hscan. cbn [outcome_bind snd]. rewrite Hun. eauto.
  - unfold point_Tags. rewrite (proj2 (Nat.eqb_neq (len (p_key q)) 0)) by (unfold len; rewrite Hk, length_app; lia).
    rewrite Hscan. cbn [outcome_bind]. rewrite (proj2 (Nat.eqb_neq (len (mkSlice _ sp)) 0)) by (unfold len; simpl; lia).
    rewrite (tags_from_written _ tl); [f_equal; exact (foldl_insert_entries tl tags Ht)|done|done|].
    pose proof (tags_bytes_length (tag_pair <$> tl)) as Hl. rewrite length_fmap in Hl. unfold len. rewrite Hk, length_app. lia.
  - unfold point_Fields, newFieldsFromBinary. rewrite Hc.
    rewrite (fields_from_written (p_fields q) fl fuel f [] ∅ Hfl Hf).
    + cbn [outcome_bind]. eexists. do 2 f_equal. exact (foldl_insert_entries (f :: fl) fields Hfs).
    + pose proof (length_map_to_list (M := gmap string) fields) as Hsz. apply Permutation_length in Hfs. simpl in Hfs.
      fold PointFields in Hsz. lia.
Qed.

(** ** One line *)

Lemma line_end_all l : ∀ b q prev i, newline ∉ l → line_end b q prev i l = length l.
Proof.
  induction l as [|c l IH]; intros b q prev i Hn; [done|]. apply not_elem_of_cons in Hn as [Hc Hl]. cbn [line_end length].
  rewrite (eqc_false c newline) by congruence. cbn [andb]. rewrite !IH by done. by case_match.
Qed.

(** A name that a line can start with. *)
Definition good_name (name : string) : Prop :=
  plain name ∧ name ≠ EmptyString ∧ next_is (λ c, is_space c || eqc c "#") (esc_bytes name_codes (of_string name)) = false.

(** The line of a point. *)
Definition line_of (name : string) (tl : list (string * string)) (f : string * PointValue) (fl : list (string * PointValue)) (n : Z) : list ascii :=
  (esc_bytes name_codes (of_string name) ++ tags_bytes (tag_pair <$> tl)) ++ " "%char ::
  joined (field_bytes <$> (field_pair <$> f :: fl)) ++ " "%char :: of_string (Sprintf_d n).

Lemma tags_no_newline tl : Forall good_tag tl → newline ∉ tags_bytes (tag_pair <$> tl).
Proof.
  induction 1 as [|[k v] tl ([_ Hk] & [_ Hv] & _) _ IH]; [by apply not_elem_of_nil|]. cbn [fmap list_fmap]. rewrite tags_bytes_cons.
  unfold tag_bytes, tag_pair. cbn [fst snd app] in *. pose proof (esc_bytes_no tag_codes newline _ Hk ltac:(done)).
  pose proof (esc_bytes_no tag_codes newline _ Hv ltac:(done)). rewrite not_elem_of_cons, !not_elem_of_app, not_elem_of_cons. done.
Qed.
Lemma fields_no_newline fl : Forall good_field fl → newline ∉ joined (field_bytes <$> (field_pair <$> fl)).
Proof.
  assert (H1 : ∀ f, good_field f → newline ∉ field_bytes (field_pair f)).
  { intros [k v] ([_ Hk] & _ & _ & Hv). unfold field_bytes, field_pair. cbn [fst snd app] in *.
    pose proof (esc_bytes_no Codes newline _ Hk ltac:(done)). rewrite not_elem_of_app, not_elem_of_cons.
    split_and!; [done..|]. by apply value_written. }
  induction 1 as [|f fl Hf Hfl IH]; [by apply not_elem_of_nil|]. destruct fl as [|f' fl]; [by apply H1|].
  cbn [fmap list_fmap] in *. rewrite joined_cons. rewrite !not_elem_of_app, not_elem_of_cons.
  split_and!; [by apply H1|done|by apply not_elem_of_nil|done].
Qed.
Lemma line_no_newline name tl f fl n : plain name → Forall good_tag tl → Forall good_field (f :: fl) → newline ∉ line_of name tl f fl n.
Proof.
  intros [_ Hn] Ht Hf. unfold line_of. rewrite !not_elem_of_app, not_elem_of_cons, not_elem_of_app, not_elem_of_cons.
  split_and!; [by apply esc_bytes_no|by apply tags_no_newline|done|by apply fields_no_newline|done|].
  intros Hin. pose proof (int_bytes n) as Hb. eapply Forall_forall in Hb; [|exact Hin]. by eapply (number_byte_other newline newline).
Qed.

Lemma parsePoint_written {goText : GoText} name tl f fl n d sp : good_name name → Forall good_tag tl → Forall good_field (f :: fl) →
  tags_sorted (tag_pair <$> tl) → is_i64 n →
  ∃ q, parsePoint (mkSlice (line_of name tl f fl n) sp) d "n" = Ok q ∧ holds q name tl f fl ∧ p_time q = Time_Unix0 n.
Proof.
  intros ([Hb _] & Hne & Hfirst) Ht Hf Hs Hn. set (buf := mkSlice (line_of name tl f fl n) sp). unfold parsePoint.
  assert (Hsp : next_is is_space (s_bytes buf) = false).
  { simpl. unfold line_of. apply name_bytes_length in Hne. destruct (esc_bytes name_codes (of_string name)); [simpl in Hne; lia|].
    simpl in *. by apply orb_false_iff in Hfirst as [-> _]. }
  rewrite (scanKey_written buf (of_string name) (tag_pair <$> tl) (joined (field_bytes <$> (field_pair <$> f :: fl)) ++ " "%char :: of_string (Sprintf_d n)));
    [|done|by apply of_string_nonempty|..|done|done|done].
  2:{ apply Forall_fmap. eapply Forall_impl; [exact Ht|]. apply good_tag_ok. }
  cbn [outcome_bind]. apply name_bytes_length in Hne.
  rewrite (proj2 (Nat.eqb_neq (len (mkSlice (_ ++ _) _)) 0)) by (unfold len; cbn [s_bytes]; rewrite length_app; lia).
  rewrite (scanFields_written buf _ (of_string (Sprintf_d n)) (field_pair f) (field_pair <$> fl)); [|..|done].
  2:{ change (field_pair f :: (field_pair <$> fl)) with (field_pair <$> f :: fl). apply Forall_fmap. eapply Forall_impl; [exact Hf|]. apply good_field_ok. }
  cbn [outcome_bind]. assert (Hj : len (mkSlice (joined (field_bytes <$> field_pair f :: (field_pair <$> fl))) (" "%char :: of_string (Sprintf_d n) ++ s_spare buf)) =? 0 = false).
  { apply Nat.eqb_neq. unfold len. cbn [s_bytes]. destruct fl; cbn [fmap list_fmap joined]; unfold field_bytes; rewrite ?length_app; simpl; lia. }
  rewrite Hj. destruct (scanTime_written buf ((esc_bytes name_codes (of_string name) ++ tags_bytes (tag_pair <$> tl)) ++ " "%char :: joined (field_bytes <$> field_pair f :: (field_pair <$> fl))) n)
    as (sp' & pos & ->). { simpl. unfold line_of. by rewrite <- !app_assoc. }
  cbn [outcome_bind]. assert (Hts : len (mkSlice (of_string (Sprintf_d n)) sp') =? 0 = false).
  { apply Nat.eqb_neq. unfold len. cbn [s_bytes]. unfold Sprintf_d. destruct (_ <? _)%Z; [simpl; lia|].
    destruct (decimal_bytes n) as [_ Hd]. by destruct (of_string (decimal n)). }
  rewrite Hts, text_bytes, ParseInt_Sprintf by done.
  eexists. split; [done|]. split; [done|]. simpl. f_equal. unfold GetPrecisionMultiplier. simpl.
  by rewrite Z.mul_1_r, i64_small.
Qed.

Lemma parse_one_line {goText : GoText} fuel l sp d precision q : newline ∉ l → next_is (λ c, is_space c || eqc c "#") l = false → l ≠ [] →
  parsePoint (mkSlice l sp) d precision = Ok q →
  ParsePointsWithPrecision (S fuel) (mkSlice l sp) d precision = Ok ([q], None).
Proof.
  intros Hn Hfirst Hl Hq. unfold ParsePointsWithPrecision. cbn [parse_lines]. unfold scanLine. rewrite drop_0. cbn [s_bytes].
  rewrite line_end_all by done. assert (Hsl : slice_of (E := unit) (mkSlice l sp) 0 (length l) = Ok (mkSlice l sp)).
  { rewrite slice_of_eq by (unfold len; simpl; lia). cbn [s_bytes s_spare]. by rewrite Nat.sub_0_r, drop_0, firstn_all, drop_all. }
  cbn [Nat.add]. rewrite Hsl. cbn [outcome_bind]. destruct l as [|c l]; [done|]. simpl in Hfirst. apply orb_false_iff in Hfirst as [Hsp Hc].
  cbn [len s_bytes length Nat.eqb]. unfold skipWhitespace. cbn [s_bytes drop spaces]. rewrite Hsp. cbn [Nat.add lookup list_lookup]. rewrite Hc.
  rewrite (bool_decide_eq_false_2 (last (c :: l) = _)). 2:{ intros Hlast. apply Hn. by apply last_Some_elem_of. }
  cbn [outcome_bind]. unfold len at 1. cbn [s_bytes]. rewrite Hsl. cbn [outcome_bind]. rewrite Hq.
  rewrite (proj2 (Nat.leb_le (len (mkSlice (c :: l) sp)) _)) by (unfold len; simpl; lia). done.
Qed.

(** What [NewPoint] and [String] write. *)
Lemma NewPoint_line (name : string) (tags : Tags) (fields : PointFields) (t : Time) :
  good_name name → map_Forall (λ k v, good_tag (k, v)) tags → fields ≠ ∅ → map_Forall (λ k v, good_field (k, v)) fields →
  t ≠ Time_zero → is_i64 (t - unixEpoch) →
  ∃ p tl f fl, NewPoint name tags fields t = Ok p ∧ holds p name tl f fl ∧ p_time p = t ∧
    of_string (point_String p) = line_of name tl f fl (t - unixEpoch) ∧
    tl ≡ₚ map_to_list tags ∧ f :: fl ≡ₚ map_to_list fields ∧
    tags_sorted (tag_pair <$> tl) ∧ Forall good_tag tl ∧ Forall good_field (f :: fl).
Proof.
  intros Hname Htags Hne Hfields Ht Hi.
  destruct (HashKey_written tags Htags) as (tl & Htl & Hsorted & Hhash). destruct (Fields_written fields Hne) as (f & fl & fsp & Hfl & Hm).
  assert (Gt : Forall good_tag tl). { rewrite Htl. apply Forall_forall. intros [k v] Hkv%elem_of_map_to_list. by apply Htags. }
  assert (Gf : Forall good_field (f :: fl)). { rewrite Hfl. apply Forall_forall. intros [k v] Hkv%elem_of_map_to_list. by apply Hfields. }
  unfold NewPoint. destruct (list_find _ _) as [[i [k v]]|] eqn:E.
  { apply list_find_Some in E as (Hin & HNaN & _). apply list_elem_of_lookup_2 in Hin. rewrite iter_fields_perm in Hin.
    apply elem_of_map_to_list in Hin. destruct (Hfields _ _ Hin) as (_ & _ & _ & Hv). simpl in *.
    destruct v as [| | |[]| | | | |]; try done. by destruct Hv. }
  destruct Hname as (Hpl & Hn0 & Hfirst). pose proof Hpl as [Hnb _].
  set (p := mkPoint _ _ _ _ _ _ _). assert (Hp : holds p name tl f fl).
  { split_and!; [|by subst p; simpl; rewrite Hm|done|done]. simpl. unfold MakeKey, appended. cbn [s_bytes].
    rewrite of_string_app, Hhash, (proj2 (escapeMeasurement_esc _)), unesc_plain, (proj1 (escapeMeasurement_esc _)), of_string_esc by done. done. }
  assert (Hline : of_string (point_String p) = line_of name tl f fl (t - unixEpoch)).
  { unfold point_String, time_text. destruct Hp as (Hk & Hf & _). rewrite !of_string_app. unfold text, of_string.
    rewrite !String.list_ascii_of_string_of_list_ascii, Hk, Hf. unfold Time_IsZero, Time_UnixNano. simpl p_time.
    rewrite (proj2 (Z.eqb_neq t 0)), i64_small by done. done. }
  exists p, tl, f, fl. split_and!; done.
Qed.

(** C36: A point that [NewPoint] makes has the name, the tags and the fields that
    it was made of; printed by [String] and parsed again, with whatever is behind
    the text in memory and with fuel for its fields, it gives one point with the
    same name, tags, fields and time.  This is for points that the line protocol can
    hold: a name that is not empty and does not begin with a tab, a zero byte or
    [#]; tags with keys and values that are not empty; one or more
    fields with names that are not empty and do not begin with a tab or a zero byte;
    no backslash or line break in names and tags (spaces, commas and equals
    signs are fine); values that are [int64], booleans, numbers whose text is read
    back, or strings without a line break and not ending in a backslash; and a time
    of [int64] nanoseconds other than the zero time. *)
Theorem point_roundtrip {goText : GoText} (name : string) (tags : Tags) (fields : PointFields) (t d : Time) (sp : list ascii) (fuel : nat) :
  good_name name → map_Forall (λ k v, good_tag (k, v)) tags → fields ≠ ∅ → map_Forall (λ k v, good_field (k, v)) fields →
  t ≠ Time_zero → is_i64 (t - unixEpoch) → size fields < fuel →
  ∃ p q, NewPoint name tags fields t = Ok p ∧ reads fuel p name tags fields ∧
    ParsePointsWithPrecision fuel (mkSlice (of_string (point_String p)) sp) d "n" = Ok ([q], None) ∧
    reads fuel q name tags fields ∧ p_time q = t.
Proof.
  intros Hname Htags Hne Hfields Ht Hi Hfuel.
  destruct (NewPoint_line name tags fields t) as (p & tl & f & fl & Hnew & Hp & _ & Hline & Htl & Hfl & Hsorted & Gt & Gf); [done..|].
  pose proof Hname as (Hpl & Hn0 & Hfirst).
  destruct (parsePoint_written name tl f fl (t - unixEpoch) d sp) as (q & Hq & Hhq & Htq); [done..|]. exists p, q.
  split_and!; [done|by eapply holds_reads| |by eapply holds_reads|rewrite Htq; unfold Time_Unix0; lia].
  rewrite Hline. destruct fuel as [|fuel]; [lia|]. apply parse_one_line; [by apply line_no_newline|..|done].
  - unfold line_of. apply name_bytes_length in Hn0. by destruct (esc_bytes name_codes (of_string name)); [simpl in Hn0; lia|].
  - unfold line_of. by destruct (esc_bytes name_codes (of_string name) ++ tags_bytes (tag_pair <$> tl)).
Qed.
End written.

(** ** Points in several lines

    The texts of points, each with a line break behind it, are parsed as the same
    points.  [scanLine] looks for the end of a line and counts quotes on its own,
    without regard to where the fields start; so names and tags have no quotes. *)

(** ** The end of a line *)

Definition before (prev : option ascii) (w : list ascii) : option ascii := match last w with Some c => Some c | None => prev end.
Definition has_space (w : list ascii) : bool := existsb (λ c, eqc c " ") w.
(** Neither a line break nor a quote that is not behind a backslash. *)
Fixpoint calm (prev : option ascii) (w : list ascii) : Prop :=
  match w with
  | [] => True
  | c :: w => c ≠ newline ∧ (c = dquote → prev = Some backslash) ∧ calm (Some c) w
  end.
Lemma before_cons prev c w : before prev (c :: w) = before (Some c) w.
Proof. unfold before. destruct w as [|d w]; [done|]. change (last (c :: d :: w)) with (last (d :: w)). by destruct (last (d :: w)) eqn:E; [|apply last_None in E]. Qed.
Lemma before_app prev a b : before prev (a ++ b) = before (before prev a) b.
Proof. unfold before. rewrite last_app. by destruct (last b). Qed.

Lemma line_end_calm f q w rest : ∀ prev i, calm prev w →
  line_end f q prev i (w ++ rest) = length w + line_end (f || has_space w) q (before prev w) (i + length w) rest.
Proof.
  revert f. induction w as [|c w IH]; intros f prev i Hc.
  - simpl. by rewrite orb_false_r, Nat.add_0_r.
  - destruct Hc as (Hn & Hq & Hc). cbn [app line_end length].
    assert (E : (f || eqc c " ") && eqc c dquote && (1 <? i) && match prev with Some p => negb (eqc p backslash) | None => false end = false).
    { destruct (decide (c = dquote)) as [->|Hd]; [|by rewrite (eqc_false c dquote), andb_false_r by done]. by rewrite (Hq eq_refl), andb_false_r. }
    rewrite E, (eqc_false c newline) by done. cbn [andb]. rewrite IH by done. rewrite before_cons. cbn [has_space existsb].
    rewrite orb_assoc. do 2 f_equal. replace (S i + length w) with (i + S (length w)) by lia. done.
Qed.
Lemma calm_app prev a b : calm prev (a ++ b) ↔ calm prev a ∧ calm (before prev a) b.
Proof.
  revert prev. induction a as [|c a IH]; intros prev; simpl; [tauto|]. rewrite IH, before_cons. tauto.
Qed.
Lemma calm_plain prev w : newline ∉ w → dquote ∉ w → calm prev w.
Proof. revert prev. induction w as [|c w IH]; intros prev; simpl; [done|]. rewrite !not_elem_of_cons. intros [??] [??]. split_and!; [congruence|congruence|by apply IH]. Qed.
(** An escaped text whose quotes are escaped. *)
Lemma calm_esc S prev l : newline ∉ l → dquote ∈ S → calm prev (esc_bytes S l).
Proof.
  intros Hn HS. revert prev. induction l as [|c l IH]; intros prev; [done|]. apply not_elem_of_cons in Hn as [Hc Hn]. specialize (IH Hn).
  rewrite esc_bytes_cons. case_bool_decide as Hin; simpl; split_and!; try done; try congruence.
Qed.
Lemma last_esc S l : last (esc_bytes S l) = last l.
Proof.
  destruct l as [|c l _] using rev_ind; [done|]. unfold esc_bytes. rewrite bind_app, last_snoc. cbn [mbind list_bind]. rewrite app_nil_r.
  case_bool_decide; rewrite last_app; done.
Qed.

(** A string that starts behind another byte than a backslash. *)
Lemma line_end_string s rest prev i : newline ∉ of_string s → last (of_string s) ≠ Some backslash → 1 < i →
  match prev with Some p => p ≠ backslash | None => False end →
  line_end true false prev i (string_bytes s ++ rest) = length (string_bytes s) + line_end true false (Some dquote) (i + length (string_bytes s)) rest.
Proof.
  intros Hn Hl Hi Hp. unfold string_bytes. cbn [app line_end orb]. change (eqc dquote dquote) with true. rewrite (proj2 (Nat.ltb_lt 1 i)) by done.
  destruct prev as [p|]; [|done]. rewrite (eqc_false p backslash) by done. cbn [andb negb length].
  rewrite <- app_assoc, line_end_calm by (apply calm_esc; [done|set_solver]).
  set (E := esc_bytes string_codes (of_string s)). cbn [app line_end orb]. change (eqc dquote dquote) with true.
  rewrite (proj2 (Nat.ltb_lt 1 (S i + length E))) by lia.
  assert (Hb : ∃ p', before (Some dquote) E = Some p' ∧ p' ≠ backslash).
  { subst E. unfold before. rewrite last_esc. destruct (last (of_string s)) as [c|]; [|by exists dquote]. exists c. split; [done|congruence]. }
  destruct Hb as (p' & -> & Hp'). rewrite (eqc_false p' backslash) by done. cbn [andb negb].
  rewrite length_app. cbn [length]. replace (i + S (length E + 1)) with (S (S i + length E)) by lia. lia.
Qed.

(** The texts of values. *)
Lemma line_end_value v rest prev i : good_value v → 1 < i → match prev with Some p => p ≠ backslash | None => False end →
  ∃ p, line_end true false prev i (value_text v ++ rest) = length (value_text v) + line_end true false p (i + length (value_text v)) rest.
Proof.
  intros Hv Hi Hp. assert (Hnum : ∀ w, Forall number_byte w → newline ∉ w ∧ dquote ∉ w).
  { intros w Hw. split; intros Hn; (eapply Forall_forall in Hw; [|exact Hn]); [by eapply (number_byte_other newline newline)|by eapply (number_byte_other dquote dquote)]. }
  assert (Hcalm : ∀ w, newline ∉ w → dquote ∉ w → ∃ p, line_end true false prev i (w ++ rest) = length w + line_end true false p (i + length w) rest).
  { intros w H1 H2. exists (before prev w). by rewrite (line_end_calm true false w rest prev i (calm_plain prev w H1 H2)). }
  destruct v as [z| | |f|b| |s| |]; try done; cbn [value_text good_value] in *.
  - destruct (Hnum _ (int_bytes z)). rewrite of_string_app. apply Hcalm; rewrite not_elem_of_app; (split; [done|]);
      apply (bool_decide_unpack _); vm_compute; done.
  - destruct Hv as [Hn Hf]. destruct (float_value f Hn Hf) as [_ Hb]. by apply Hcalm; apply (Hnum _ Hb).
  - by destruct b; apply Hcalm; apply (bool_decide_unpack _); vm_compute.
  - destruct Hv as [Hn Hl]. exists (Some dquote). rewrite escapeStringField_esc. by apply line_end_string.
Qed.

(** A field, and all fields. *)
Lemma line_end_field f rest prev i : good_field f → 1 < i →
  ∃ p, line_end true false prev i (field_bytes (field_pair f) ++ rest) =
    length (field_bytes (field_pair f)) + line_end true false p (i + length (field_bytes (field_pair f))) rest.
Proof.
  intros ([_ Hn] & _ & _ & Hv) Hi. unfold field_bytes, field_pair. cbn [fst snd]. destruct f as [k v]. cbn [fst snd] in *.
  set (K := esc_bytes Codes (of_string k)). rewrite <- !app_assoc, (app_assoc K).
  rewrite (line_end_calm true false (K ++ ["="%char])).
  2:{ apply calm_app. split; [apply calm_esc; [done|unfold Codes; set_solver]|]. simpl. split_and!; done. }
  cbn [orb]. rewrite before_app. destruct (line_end_value v rest (before (before prev K) ["="%char]) (i + length (K ++ ["="%char])) Hv) as [p ->]; [lia|done|].
  exists p. rewrite !length_app. cbn [length]. replace (i + (length K + 1) + length (value_text v)) with (i + (length K + (1 + length (value_text v)))) by lia. lia.
Qed.
Lemma line_end_fields l rest : ∀ f prev i, Forall good_field (f :: l) → 1 < i →
  ∃ p, line_end true false prev i (joined (field_bytes <$> (field_pair <$> f :: l)) ++ rest) =
    length (joined (field_bytes <$> (field_pair <$> f :: l))) + line_end true false p (i + length (joined (field_bytes <$> (field_pair <$> f :: l)))) rest.
Proof.
  induction l as [|f' l IH]; intros f prev i Hl Hi; apply Forall_cons in Hl as [Hf Hl]; [by apply line_end_field|].
  cbn [fmap list_fmap]. rewrite joined_cons, <- app_assoc. destruct (line_end_field f ([","%char] ++ joined (field_bytes <$> (field_pair <$> f' :: l)) ++ rest) prev i Hf Hi) as [p Hp].
  cbn [fmap list_fmap] in Hp. rewrite <- app_assoc, Hp. rewrite (line_end_calm true false [","%char]) by (simpl; split_and!; done).
  destruct (IH f' (before p [","%char]) (i + length (field_bytes (field_pair f)) + 1) Hl) as [p' Hp']; [lia|]. cbn [fmap list_fmap orb length] in *. rewrite Hp'.
  exists p'. rewrite !length_app. cbn [length]. rewrite <- !Nat.add_assoc. done.
Qed.

(** Names and tags without quotes. *)
Definition unquoted (s : string) : Prop := dquote ∉ of_string s.
Definition unquoted_tag (t : string * string) : Prop := unquoted t.1 ∧ unquoted t.2.
Lemma tags_no_quote tl : Forall unquoted_tag tl → dquote ∉ tags_bytes (tag_pair <$> tl).
Proof.
  induction 1 as [|[k v] tl [Hk Hv] _ IH]; [by apply not_elem_of_nil|]. cbn [fmap list_fmap]. rewrite tags_bytes_cons.
  unfold tag_bytes, tag_pair, unquoted in *. cbn [fst snd app] in *. pose proof (esc_bytes_no tag_codes dquote _ Hk ltac:(done)).
  pose proof (esc_bytes_no tag_codes dquote _ Hv ltac:(done)). rewrite not_elem_of_cons, !not_elem_of_app, not_elem_of_cons. done.
Qed.

Lemma line_end_line name tl f fl n rest prev i : plain name → name ≠ EmptyString → unquoted name → Forall good_tag tl → Forall unquoted_tag tl →
  Forall good_field (f :: fl) → line_end false false prev i (line_of name tl f fl n ++ newline :: rest) = length (line_of name tl f fl n).
Proof.
  intros [_ Hn] Hne Hq Ht Htq Hf. unfold line_of. set (K := esc_bytes name_codes (of_string name) ++ tags_bytes (tag_pair <$> tl)).
  set (J := joined (field_bytes <$> (field_pair <$> f :: fl))). set (D := of_string (Sprintf_d n)).
  assert (HK : calm prev (K ++ [" "%char])).
  { apply calm_plain; subst K; rewrite !not_elem_of_app, list_elem_of_singleton; split_and!; try done.
    - by apply esc_bytes_no.
    - by apply tags_no_newline.
    - by apply esc_bytes_no.
    - by apply tags_no_quote. }
  assert (HD : calm None (" "%char :: D)).
  { assert (∀ c, isDigit (rn c) = false → c ≠ "-"%char → c ≠ "."%char → c ∉ D) as Hno.
    { intros c H1 H2 H3 Hin. pose proof (int_bytes n) as Hb. eapply Forall_forall in Hb; [|exact Hin]. by eapply (number_byte_other c c). }
    split_and!; [done|done|]. apply calm_plain; by apply Hno. }
  assert (Hlen : 1 < length (K ++ [" "%char])). { subst K. apply name_bytes_length in Hne. rewrite !length_app. cbn [length]. lia. }
  transitivity (line_end false false prev i ((K ++ [" "%char]) ++ J ++ (" "%char :: D) ++ newline :: rest)).
  { f_equal. simpl. by rewrite <- !app_assoc; simpl; rewrite <- ?app_assoc. }
  rewrite line_end_calm by done. assert (Hsp : false || has_space (K ++ [" "%char]) = true).
  { unfold has_space. rewrite existsb_app. simpl. by rewrite orb_true_r. }
  rewrite Hsp. destruct (line_end_fields fl ((" "%char :: D) ++ newline :: rest) f (before prev (K ++ [" "%char])) (i + length (K ++ [" "%char])) Hf) as [p Hp]; [lia|].
  fold J in Hp. rewrite Hp. rewrite line_end_calm.
  2:{ simpl in HD |- *. split_and!; [done|done|]. by destruct HD as (_ & _ & HD). }
  cbn [orb line_end]. change (eqc newline " ") with false. change (eqc newline dquote) with false. change (eqc newline newline) with true. cbn [andb negb].
  rewrite !length_app. cbn [length]. rewrite !length_app. cbn [length]. lia.
Qed.

(** ** Many lines *)

(** A point that was written, with its line. *)
Definition written {maps : PointMaps} (p : point) (l : list ascii) : Prop :=
  ∃ name tl f fl n, good_name name ∧ unquoted name ∧ Forall good_tag tl ∧ Forall unquoted_tag tl ∧ tags_sorted (tag_pair <$> tl) ∧
    Forall good_field (f :: fl) ∧ is_i64 n ∧ l = line_of name tl f fl n ∧ holds p name tl f fl ∧ p_time p = Time_Unix0 n.
(** The same key, fields and time. *)
Definition same_point (p q : point) : Prop :=
  s_bytes (p_key p) = s_bytes (p_key q) ∧ s_bytes (p_fields p) = s_bytes (p_fields q) ∧ p_time p = p_time q.
Definition lines (ls : list (list ascii)) : list ascii := ls ≫= λ l, l ++ [newline].

Lemma parse_lines_written {goText : GoText} {maps : PointMaps} d ps ls : Forall2 written ps ls → ∀ fuel buf a points failed,
  s_bytes buf = a ++ lines ls → ls ≠ [] → length ls ≤ fuel →
  ∃ qs, parse_lines fuel buf (length a) d "n" points failed = Ok (points ++ qs, failed) ∧ Forall2 same_point ps qs.
Proof.
  induction 1 as [|p l ps ls (name & tl & f & fl & n & Hname & Hnq & Htl & Htlq & Hsort & Hfl & Hn & -> & Hp & Ht) Hrest IH]; [done|].
  intros fuel buf a points failed Hbuf _ Hfuel. destruct fuel as [|fuel]; [simpl in Hfuel; lia|]. cbn [parse_lines].
  set (L := line_of name tl f fl n) in *. unfold lines in Hbuf. cbn [mbind list_bind] in Hbuf. fold (lines ls) in Hbuf.
  assert (Hb1 : s_bytes buf = a ++ L ++ newline :: lines ls) by (by rewrite Hbuf, <- app_assoc).
  pose proof Hname as (Hpl & Hne & Hfirst).
  assert (Hle : ∀ prev i, line_end false false prev i (L ++ newline :: lines ls) = length L) by (intros; by apply line_end_line).
  unfold scanLine. rewrite Hb1, drop_app_length, Hle. rewrite (slice_of_middle buf a L (newline :: lines ls) Hb1). cbn [outcome_bind].
  assert (HL : ∃ c L', L = c :: L' ∧ is_space c = false ∧ eqc c "#" = false ∧ newline ∉ L).
  { assert (Hnl : newline ∉ L) by (by apply line_no_newline). subst L. unfold line_of in *. apply name_bytes_length in Hne.
    destruct (esc_bytes name_codes (of_string name)) as [|c w]; [simpl in Hne; lia|]. simpl in Hfirst. apply orb_false_iff in Hfirst as [? ?].
    eexists c, _. split_and!; [reflexivity|done|done|done]. }
  destruct HL as (c & L' & HL & Hc1 & Hc2 & Hnl). unfold len at 1. cbn [s_bytes]. rewrite HL. cbn [length Nat.eqb].
  unfold skipWhitespace. cbn [s_bytes drop spaces]. rewrite Hc1. cbn [Nat.add lookup list_lookup]. rewrite Hc2, <- HL.
  rewrite bool_decide_eq_false_2. 2:{ intros Hlast. apply Hnl. by apply last_Some_elem_of. }
  cbn [outcome_bind]. set (sp := (newline :: lines ls) ++ s_spare buf).
  assert (Hsl : slice_of (E := unit) (mkSlice L sp) 0 (len (mkSlice L sp)) = Ok (mkSlice L sp)).
  { rewrite slice_of_eq by (unfold len; simpl; lia). unfold len. cbn [s_bytes s_spare]. by rewrite Nat.sub_0_r, drop_0, firstn_all, drop_all. }
  rewrite Hsl. cbn [outcome_bind]. destruct (parsePoint_written name tl f fl n d sp Hname Htl Hfl Hsort Hn) as (q & Hq & Hhq & Htq). fold L in Hq. rewrite Hq.
  assert (Hsame : same_point p q). { destruct Hp as (H1 & H2 & _), Hhq as (H3 & H4 & _). split_and!; congruence. }
  assert (HlenL : length L = S (length L')) by (by rewrite HL). rewrite <- HlenL.
  destruct ls as [|l2 ls].
  - rewrite (proj2 (Nat.leb_le (len buf) _)) by (unfold len; rewrite Hb1, !length_app; change (lines []) with (@nil ascii); cbn [length]; lia).
    inversion Hrest; subst. exists [q]. split; [done|]. constructor; [exact Hsame|constructor].
  - rewrite (proj2 (Nat.leb_gt (len buf) _)).
    2:{ unfold len. rewrite Hb1. unfold lines. cbn [mbind list_bind]. rewrite !length_app. cbn [length]. rewrite !length_app. cbn [length]. lia. }
    replace (S (length a + length L)) with (length (a ++ L ++ [newline])) by (rewrite !length_app; simpl; lia).
    destruct (IH fuel buf (a ++ L ++ [newline]) (points ++ [q]) failed) as (qs & -> & Hqs); [by rewrite Hb1, <- !app_assoc|done|simpl in *; lia|].
    exists (q :: qs). rewrite <- app_assoc. split; [done|by constructor].
Qed.

Lemma NewPoint_written {maps : PointMaps} (name : string) (tags : Tags) (fields : PointFields) (t : Time) :
  good_name name → unquoted name → map_Forall (λ k v, good_tag (k, v) ∧ unquoted_tag (k, v)) tags → fields ≠ ∅ →
  map_Forall (λ k v, good_field (k, v)) fields → t ≠ Time_zero → is_i64 (t - unixEpoch) →
  ∃ p, NewPoint name tags fields t = Ok p ∧ written p (of_string (point_String p)).
Proof.
  intros Hname Hq Htags Hne Hfields Ht Hi.
  assert (Htags' : map_Forall (λ k v, good_tag (k, v)) tags) by (intros k v Hkv; by apply Htags).
  destruct (NewPoint_line name tags fields t) as (p & tl & f & fl & Hnew & Hp & Hpt & Hline & Htl & Hfl & Hsorted & Gt & Gf); [done..|].
  exists p. split; [done|]. exists name, tl, f, fl, (t - unixEpoch)%Z. split_and!; try done.
  - rewrite Htl. apply Forall_forall. intros [k v] Hkv%elem_of_map_to_list. by apply Htags.
  - rewrite Hpt. unfold Time_Unix0. lia.
Qed.

(** ** A concrete point *)

Definition sample_maps : PointMaps.
Proof.
  refine {| measurement_order := measurementEscapeCodes; tag_order := tagEscapeCodes; code_order := codesStr;
            iter_fields := map_to_list; append_spare := λ _, [] |}; done.
Defined.
#[local] Instance points_maps : PointMaps := sample_maps.
#[local] Instance points_text : GoText := sample_text.

Definition sample_tags : Tags := {["host" := "server 01"; "us,west" := "a=b"]}.
Definition sample_fields : PointFields :=
  {["value" := FvFloat (number_of "-1234.5"); "the count" := FvInt (-7); "ok" := FvBool true;
    "text" := FvString (String dquote "a=1, b")]}.
Definition sample_time : Time := Time_Unix0 1420070400000000001.

#[export] Instance plain_dec s : Decision (plain s).
Proof. unfold plain. apply _. Defined.
#[export] Instance good_tag_dec t : Decision (good_tag t).
Proof. unfold good_tag. apply _. Defined.
#[export] Instance good_value_dec v : Decision (good_value v).
Proof. destruct v as [| | |[]| | | | |]; simpl; apply _. Defined.
#[export] Instance good_field_dec f : Decision (good_field f).
Proof. unfold good_field. apply _. Defined.
#[export] Instance good_name_dec n : Decision (good_name n).
Proof. unfold good_name. apply _. Defined.

Lemma point_roundtrip_witness :
  ∃ p q, NewPoint "cpu load" sample_tags sample_fields sample_time = Ok p ∧ reads 5 p "cpu load" sample_tags sample_fields ∧
    ParsePointsWithPrecision 5 (mkSlice (of_string (point_String p)) []) Time_zero "n" = Ok ([q], None) ∧
    reads 5 q "cpu load" sample_tags sample_fields ∧ p_time q = sample_time.
Proof.
  apply (point_roundtrip (maps := points_maps) "cpu load" sample_tags sample_fields sample_time Time_zero [] 5);
    try (apply (bool_decide_unpack _); vm_compute; exact I).
Defined.

Example sample_line :
  (let! p := NewPoint "cpu load" sample_tags sample_fields sample_time in Ok (point_String p)) =
  Ok ("cpu\ load,host=server\ 01,us\,west=a\=b ok=true,text=" +:+ String dquote (String backslash (String dquote "a=1, b")) +:+
      String dquote ",the\ count=-7i,value=-1234.5 1420070400000000001").
Proof. vm_compute. reflexivity. Qed.

(** ** Where lines are not read as they are meant *)

(** The keys of the points in a text, and the error; the text has [sp] behind it. *)
Definition keys_of (s : string) (sp : list ascii) : outcome unit (list string * option string) :=
  let! (points, err) := ParsePointsWithPrecision 100 (mkSlice (of_string s) sp) Time_zero "n" in
  Ok (text ∘ p_key <$> points, err).
(** What is found in the first point. *)
Definition tags_of (s : string) : outcome unit (list (string * string)) :=
  let! (points, _) := ParsePointsWithPrecision 100 (mkSlice (of_string s) []) Time_zero "n" in
  match points with p :: _ => let! t := point_Tags p in Ok (map_to_list t) | [] => Err tt end.
Definition fields_of (s : string) : outcome unit (list (string * PointValue)) :=
  let! (points, _) := ParsePointsWithPrecision 100 (mkSlice (of_string s) []) Time_zero "n" in
  match points with p :: _ => let! (_, f) := point_Fields 100 p in Ok (map_to_list f) | [] => Err tt end.
Definition lf : string := String newline EmptyString.

(** [scanKey] compares each tag with its counterpart from the other end only: a key
    whose tags are out of order is kept as it is, so that one series has several
    keys, and a tag may be there twice. *)
Example tags_left_unsorted :
  keys_of "cpu,b=1,a=2,d=3,c=4 v=1" [] = Ok (["cpu,b=1,a=2,d=3,c=4"], None) ∧
  keys_of "cpu,a=2,b=1,c=4,d=3 v=1" [] = Ok (["cpu,a=2,b=1,c=4,d=3"], None) ∧
  keys_of "cpu,d=3,a=2,b=1,c=4 v=1" [] = Ok (["cpu,a=2,b=1,c=4,d=3"], None).
Proof. vm_compute. auto. Qed.
Example duplicate_tags_accepted :
  keys_of "cpu,a=1,a=2,b=3 v=1" [] = Ok (["cpu,a=1,a=2,b=3"], None) ∧ tags_of "cpu,a=1,a=2,b=3 v=1" = Ok [("a", "2"); ("b", "3")].
Proof. vm_compute. auto. Qed.
(** An empty line ends the text: the points behind it are dropped without an error. *)
Example empty_line_ends_parsing :
  keys_of ("cpu v=1" +:+ lf +:+ lf +:+ "mem v=2") [] = Ok (["cpu"], None).
Proof. vm_compute. auto. Qed.
(** Two texts that need a byte of capacity behind them: a comment in the last line
    and a backslash at the end. *)
Example panics_without_capacity :
  keys_of "#cpu" [] = Panic ∧ keys_of "cpu\" [] = Panic ∧ keys_of "#cpu" [zero_byte] = Ok ([], None).
Proof. vm_compute. auto. Qed.
(** Values that [scanNumber] lets pass and [Fields] panics on. *)
Example accepted_numbers_panic :
  Forall (λ v, keys_of ("cpu v=" +:+ v) [] = Ok (["cpu"], None) ∧ fields_of ("cpu v=" +:+ v) = Panic) ["."; "-."; "-i"; "-,b=1"].
Proof. repeat constructor; vm_compute; reflexivity. Qed.
(** A tag without a value is let pass when another tag has an equals sign too many;
    [Tags] then reads behind the key. *)
Example unbalanced_tags_panic :
  keys_of "cpu,a=1=2,c=1,b=1,z v=1" [] = Ok (["cpu,a=1=2,b=1,c=1,z"], None) ∧ tags_of "cpu,a=1=2,c=1,b=1,z v=1" = Panic.
Proof. vm_compute. auto. Qed.

(** Fields that are written and not read back: one without a name is looked for
    without end, one without a value takes the comma into the next name, and a
    string that ends in a backslash takes what is behind it. *)
Definition read_back (f : PointFields) : outcome unit (list (string * PointValue)) :=
  let! r := newFieldsFromBinary 100 (Fields_MarshalBinary f) in Ok (map_to_list r).
Lemma no_name_read_forever fuel m : fields_from fuel (Fields_MarshalBinary {["" := FvInt 1]}) 0 m = Err tt.
Proof.
  induction fuel as [|fuel IH]; [done|]. etransitivity; [|exact IH]. cbn [fields_from].
  by change (Fields_MarshalBinary {["" := FvInt 1]}) with (mkSlice ["="; "1"; "i"]%char [","%char]).
Qed.
Example fields_not_read_back :
  read_back {["a" := FvNil; "b" := FvInt 1]} = Ok [("a", FvNil); (",b", FvInt 1)] ∧
  read_back {["a" := FvString "x\"; "b" := FvInt 1]} = Ok [("a", FvString ("x\" +:+ String dquote ",b=1"))].
Proof. vm_compute. auto. Qed.
(** An infinite value is written, and refused when it is parsed. *)
Example infinite_value_refused :
  (let! p := NewPoint "cpu" ∅ {["a" := FvFloat (S754_infinity false)]} sample_time in Ok (point_String p)) =
    Ok "cpu a=+Inf 1420070400000000001" ∧
  keys_of "cpu a=+Inf 1420070400000000001" [] = Ok ([], Some "unable to parse 'cpu a=+Inf 1420070400000000001': invalid boolean").
Proof. vm_compute. auto. Qed.
