(* ===== verification/ClusterWrite.v ===== *)
(** * Writing points to a cluster: [cluster/points_writer.go] and [cluster/balancer.go]

    [WritePoints] divides the points of a request among shards and writes each
    shard in a goroutine, which in turn writes to every owner of the shard in a
    goroutine.  The calls of the local store, of other nodes and of hinted handoff
    are answered by their surroundings; time-outs, the closing of the writer and
    the order in which goroutines run are events.  A run is a list of events. *)

From stdpp Require Import base list strings gmap.
From Stdlib Require Import ZArith Ascii Lia.
From S2P Require Import Prelude MetaData MetaCodec MetaStore MetaClient QlToken QlExpr QlSelect QlPrint QlNumber Rows Points.

Local Open Scope Z_scope.

(** ** Consistency levels and errors *)

Inductive ConsistencyLevel :=
| ConsistencyLevelAny
| ConsistencyLevelOne
| ConsistencyLevelQuorum
| ConsistencyLevelAll.
#[export] Instance ConsistencyLevel_eq_dec : EqDecision ConsistencyLevel.
Proof. solve_decision. Defined.

(** [None] is [ErrInvalidConsistencyLevel]. *)
Definition ParseConsistencyLevel {goText : GoText} (level : string) : option ConsistencyLevel :=
  let l := strings_ToLower level in
  if bool_decide (l = "any") then Some ConsistencyLevelAny
  else if bool_decide (l = "one") then Some ConsistencyLevelOne
  else if bool_decide (l = "quorum") then Some ConsistencyLevelQuorum
  else if bool_decide (l = "all") then Some ConsistencyLevelAll
  else None.

(** The errors that are compared, and all others by their text. *)
Inductive WriteError :=
| ErrTimeout
| ErrPartialWrite
| ErrWriteFailed
| ErrShardNotFound
| ErrText (text : string).
#[export] Instance WriteError_eq_dec : EqDecision WriteError.
Proof. solve_decision. Defined.
Definition WriteError_Error (e : WriteError) : string :=
  match e with
  | ErrTimeout => "timeout"
  | ErrPartialWrite => "partial write"
  | ErrWriteFailed => "write failed"
  | ErrShardNotFound => "shard not found"
  | ErrText t => t
  end.

(** [strings.Contains] *)
Fixpoint strings_Contains (s sub : string) : bool :=
  String.prefix sub s || match s with String _ s => strings_Contains s sub | EmptyString => false end.
Definition IsRetryable (err : option WriteError) : bool :=
  match err with
  | None => true
  | Some e => negb (strings_Contains (WriteError_Error e) "field type conflict")
  end.

(** ** Mapping points to shards *)

Record ShardMapping := mkShardMapping { sm_Points : gmap Z (list point); sm_Shards : gmap Z ShardInfo }.
Definition NewShardMapping : ShardMapping := mkShardMapping ∅ ∅.
Definition MapPoint (shardInfo : ShardInfo) (p : point) (s : ShardMapping) : ShardMapping :=
  let points := match sm_Points s !! si_ID shardInfo with None => [p] | Some points => points ++ [p] end in
  mkShardMapping (<[si_ID shardInfo := points]> (sm_Points s)) (<[si_ID shardInfo := shardInfo]> (sm_Shards s)).

Record WritePointsRequest := mkWritePointsRequest {
  wp_Database : string;
  wp_RetentionPolicy : string;
  wp_ConsistencyLevel : ConsistencyLevel;
  wp_Points : list point
}.

(** What the writer asks of the metastore, and the order in which Go visits the
    maps of times and of shards, which is not specified. *)
Class WriteMeta (W : Type) := {
  ms_NodeID : W → Z;
  ms_Database : string → W → W * outcome GoError (option DatabaseInfo);
  ms_RetentionPolicy : string → string → W → W * outcome GoError (option RetentionPolicyInfo);
  ms_CreateShardGroupIfNotExists : string → string → Time → W → W * outcome GoError (option ShardGroupInfo)
}.
Class WriteOrder := {
  iter_times : gmap Z (option ShardGroupInfo) → list Z;
  iter_shards : gmap Z (list point) → list (Z * list point);
  iter_times_perm : ∀ m, iter_times m ≡ₚ (map_to_list m).*1;
  iter_shards_perm : ∀ m, iter_shards m ≡ₚ map_to_list m
}.

Section map.
Context {W : Type} {meta : WriteMeta W} {order : WriteOrder}.

Definition required_times (d : Duration) (points : list point) : gmap Z (option ShardGroupInfo) :=
  foldl (λ m p, <[Time_Truncate (p_time p) d := None]> m) ∅ points.
Fixpoint create_groups (database policy : string) (times : list Z) (timeRanges : gmap Z (option ShardGroupInfo)) (w : W)
    : W * outcome GoError (gmap Z (option ShardGroupInfo)) :=
  match times with
  | [] => (w, Ok timeRanges)
  | t :: times =>
      match ms_CreateShardGroupIfNotExists database policy t w with
      | (w, Ok sg) => create_groups database policy times (<[t := sg]> timeRanges) w
      | (w, Err e) => (w, Err e)
      | (w, Panic) => (w, Panic)
      end
  end.
(** A nil group is dereferenced. *)
Definition shard_for (d : Duration) (timeRanges : gmap Z (option ShardGroupInfo)) (p : point) : outcome GoError ShardInfo :=
  match timeRanges !! Time_Truncate (p_time p) d with
  | Some (Some sg) => match ShardGroupInfo_ShardFor sg (HashID p) with Ok sh => Ok sh | _ => Panic end
  | _ => Panic
  end.
Fixpoint map_points (d : Duration) (timeRanges : gmap Z (option ShardGroupInfo)) (points : list point) (mapping : ShardMapping)
    : outcome GoError ShardMapping :=
  match points with
  | [] => Ok mapping
  | p :: points => let! sh := shard_for d timeRanges p in map_points d timeRanges points (MapPoint sh p mapping)
  end.
Definition MapShards (wp : WritePointsRequest) (w : W) : W * outcome GoError ShardMapping :=
  match ms_RetentionPolicy (wp_Database wp) (wp_RetentionPolicy wp) w with
  | (w, Err e) => (w, Err e)
  | (w, Panic) => (w, Panic)
  | (w, Ok None) => (w, Err (OtherError ("retention policy not found: " +:+ wp_RetentionPolicy wp)))
  | (w, Ok (Some rp)) =>
      let d := rpi_ShardGroupDuration rp in
      let timeRanges := required_times d (wp_Points wp) in
      match create_groups (wp_Database wp) (wp_RetentionPolicy wp) (iter_times timeRanges) timeRanges w with
      | (w, Err e) => (w, Err e)
      | (w, Panic) => (w, Panic)
      | (w, Ok timeRanges) => (w, map_points d timeRanges (wp_Points wp) NewShardMapping)
      end
  end.
End map.

(** ** Statistics *)

Definition Stats : Type := gmap string Z.
Definition statMap_Add (key : string) (n : Z) (s : Stats) : Stats := <[key := default 0 (s !! key) + n]> s.

(** ** One owner of a shard *)

(** Where the goroutine of an owner is: before a call, or it has sent its result. *)
Inductive pc :=
| AtWrite
| AtCreate
| AtRetry
| AtRemote
| AtHandoff (err : WriteError)
| Sent (result : option WriteError).
#[export] Instance pc_eq_dec : EqDecision pc.
Proof. solve_decision. Defined.

(** The calls of the interfaces of a [PointsWriter]. *)
Inductive Call :=
| WriteToShard (shardID : Z) (points : list point)
| CreateShard (database retentionPolicy : string) (shardID : Z)
| ShardWriter_WriteShard (shardID ownerID : Z) (points : list point)
| HintedHandoff_WriteShard (shardID ownerID : Z) (points : list point).

(** What all goroutines of a request know. *)
Record ShardRequest := mkRequest {
  rq_node : Z;
  rq_database : string;
  rq_policy : string;
  rq_consistency : ConsistencyLevel
}.

Definition start_pc (rq : ShardRequest) (owner : ShardOwner) : pc :=
  if bool_decide (rq_node rq = so_NodeID owner) then AtWrite else AtRemote.
(** The call that is made, and the statistics that are written before it. *)
Definition pc_call (rq : ShardRequest) (shardID : Z) (points : list point) (owner : ShardOwner) (c : pc) : option Call :=
  match c with
  | AtWrite | AtRetry => Some (WriteToShard shardID points)
  | AtCreate => Some (CreateShard (rq_database rq) (rq_policy rq) shardID)
  | AtRemote => Some (ShardWriter_WriteShard shardID (so_NodeID owner) points)
  | AtHandoff _ => Some (HintedHandoff_WriteShard shardID (so_NodeID owner) points)
  | Sent _ => None
  end.
Definition pc_stats (points : list point) (c : pc) (s : Stats) : Stats :=
  match c with
  | AtWrite => statMap_Add "pointReqLocal" (Z.of_nat (length points)) s
  | AtRemote => statMap_Add "pointReqRemote" (Z.of_nat (length points)) s
  | AtHandoff _ => statMap_Add "pointReqHH" (Z.of_nat (length points)) s
  | _ => s
  end.
(** After the answer: the next call, or the result that is sent. *)
Definition pc_after (rq : ShardRequest) (c : pc) (answer : option WriteError) : pc + option WriteError :=
  match c with
  | AtWrite => if bool_decide (answer = Some ErrShardNotFound) then inl AtCreate else inr answer
  | AtCreate => match answer with Some e => inr (Some e) | None => inl AtRetry end
  | AtRetry => inr answer
  | AtRemote =>
      match answer with
      | Some e => if IsRetryable answer then inl (AtHandoff e) else inr (Some e)
      | None => inr None
      end
  | AtHandoff err =>
      if bool_decide (answer = None) && bool_decide (rq_consistency rq = ConsistencyLevelAny) then inr None else inr (Some err)
  | Sent r => inl (Sent r)
  end.

(** ** One shard *)

(** [sw_ch] are the results that were sent and not yet received, [sw_left] the
    rounds of the loop that are left. *)
Record ShardWrite := mkShardWrite {
  sw_shard : ShardInfo;
  sw_points : list point;
  sw_owners : list (ShardOwner * pc);
  sw_ch : list (ShardOwner * option WriteError);
  sw_left : nat;
  sw_wrote : nat;
  sw_error : option WriteError;
  sw_result : option (option WriteError)
}.
Definition required (consistency : ConsistencyLevel) (owners : nat) : nat :=
  match consistency with
  | ConsistencyLevelAny | ConsistencyLevelOne => 1
  | ConsistencyLevelQuorum => owners / 2 + 1
  | ConsistencyLevelAll => owners
  end.

(** The end of the loop. *)
Definition verdict (wrote : nat) (writeError : option WriteError) : WriteError :=
  if (0 <? wrote)%nat then ErrPartialWrite
  else match writeError with
       | Some e => ErrText ("write failed: " +:+ WriteError_Error e)
       | None => ErrWriteFailed
       end.
Definition verdict_stats (wrote : nat) (s : Stats) : Stats :=
  if (0 <? wrote)%nat then statMap_Add "writePartial" 1 s else s.
Definition return_ (r : option WriteError) (t : ShardWrite) : ShardWrite :=
  mkShardWrite (sw_shard t) (sw_points t) (sw_owners t) (sw_ch t) (sw_left t) (sw_wrote t) (sw_error t) (Some r).
(** The loop ends when no rounds are left. *)
Definition next_round (t : ShardWrite) (s : Stats) : ShardWrite * Stats :=
  match sw_left t with
  | O => (return_ (Some (verdict (sw_wrote t) (sw_error t))) t, verdict_stats (sw_wrote t) s)
  | S _ => (t, s)
  end.
(** The start of [writeToShard]: a goroutine for every owner. *)
Definition writeToShard (rq : ShardRequest) (shard : ShardInfo) (points : list point) (s : Stats) : ShardWrite * Stats :=
  next_round
    (mkShardWrite shard points ((λ o, (o, start_pc rq o)) <$> si_Owners shard) [] (length (si_Owners shard)) 0 None None) s.

(** A result is received. *)
Definition receive (rq : ShardRequest) (t : ShardWrite) (s : Stats) : option (ShardWrite * Stats) :=
  match sw_result t, sw_left t, sw_ch t with
  | None, S n, (_, err) :: ch =>
      let t' wrote writeError := mkShardWrite (sw_shard t) (sw_points t) (sw_owners t) ch n wrote writeError None in
      Some match err with
           | Some e =>
               next_round (t' (sw_wrote t) (match sw_error t with None => Some e | x => x end)) (statMap_Add "writeError" 1 s)
           | None =>
               let wrote := S (sw_wrote t) in
               if (required (rq_consistency rq) (length (si_Owners (sw_shard t))) <=? wrote)%nat
               then (return_ None (t' wrote (sw_error t)), statMap_Add "writeOk" 1 s)
               else next_round (t' wrote (sw_error t)) s
           end
  | _, _, _ => None
  end.
(** The call of an owner is answered. *)
Definition answered (rq : ShardRequest) (j : nat) (answer : option WriteError) (t : ShardWrite) (s : Stats)
    : option (ShardWrite * Stats * Call) :=
  match sw_owners t !! j with
  | None => None
  | Some (o, c) =>
      match pc_call rq (si_ID (sw_shard t)) (sw_points t) o c with
      | None => None
      | Some call =>
          let t' c ch := mkShardWrite (sw_shard t) (sw_points t) (<[j := (o, c)]> (sw_owners t)) ch
                           (sw_left t) (sw_wrote t) (sw_error t) (sw_result t) in
          Some (match pc_after rq c answer with
                | inl c => t' c (sw_ch t)
                | inr r => t' (Sent r) (sw_ch t ++ [(o, r)])
                end, pc_stats (sw_points t) c s, call)
      end
  end.

(** ** A request *)

(** Where [WritePoints] is. *)
Inductive MainState :=
| Subscribing
| Collecting (n : nat)
| Returned (err : option WriteError).

(** [ws_calls] lists the calls that were answered, each with its shard, its owner
    and the answer; [ws_subscriber] the requests that were passed on. *)
Record WriteState := mkWriteState {
  ws_shards : list ShardWrite;
  ws_ch : list (option WriteError);
  ws_main : MainState;
  ws_closed : bool;
  ws_stats : Stats;
  ws_subscriber : bool;
  ws_calls : list (nat * nat * Call * option WriteError)
}.

Inductive Event :=
| Answer (i j : nat) (answer : option WriteError)
| Receive (i : nat)
| Timeout (i : nat)
| SeeClosing (i : nat)
| Subscribe (accepted : bool)
| MainReceive
| MainClosing
| CloseWriter.

Definition main_next (n : nat) : MainState := match n with O => Returned None | S _ => Collecting n end.
(** The goroutine of a shard sends the result when [writeToShard] returns. *)
Definition results_of (t : ShardWrite) : list (option WriteError) := match sw_result t with Some r => [r] | None => [] end.
Definition set_shard (i : nat) (t : ShardWrite) (s : Stats) (st : WriteState) : WriteState :=
  let sent := match ws_shards st !! i with Some t0 => match sw_result t0 with None => results_of t | Some _ => [] end | None => [] end in
  mkWriteState (<[i := t]> (ws_shards st)) (ws_ch st ++ sent) (ws_main st) (ws_closed st) s (ws_subscriber st) (ws_calls st).
Definition set_main (m : MainState) (ch : list (option WriteError)) (st : WriteState) : WriteState :=
  mkWriteState (ws_shards st) ch m (ws_closed st) (ws_stats st) (ws_subscriber st) (ws_calls st).
Definition add_call (c : nat * nat * Call * option WriteError) (st : WriteState) : WriteState :=
  mkWriteState (ws_shards st) (ws_ch st) (ws_main st) (ws_closed st) (ws_stats st) (ws_subscriber st) (ws_calls st ++ [c]).

Definition write_step (rq : ShardRequest) (e : Event) (st : WriteState) : option WriteState :=
  match e with
  | Answer i j answer =>
      t ← ws_shards st !! i;
      '(t', s, call) ← answered rq j answer t (ws_stats st);
      Some (add_call (i, j, call, answer) (set_shard i t' s st))
  | Receive i =>
      t ← ws_shards st !! i;
      '(t', s) ← receive rq t (ws_stats st);
      Some (set_shard i t' s st)
  | Timeout i =>
      t ← ws_shards st !! i;
      match sw_result t with
      | None => Some (set_shard i (return_ (Some ErrTimeout) t) (statMap_Add "writeTimeout" 1 (ws_stats st)) st)
      | Some _ => None
      end
  | SeeClosing i =>
      t ← ws_shards st !! i;
      match sw_result t with
      | None => if ws_closed st then Some (set_shard i (return_ (Some ErrWriteFailed) t) (ws_stats st) st) else None
      | Some _ => None
      end
  | Subscribe accepted =>
      match ws_main st with
      | Subscribing =>
          Some (mkWriteState (ws_shards st) (ws_ch st) (main_next (length (ws_shards st))) (ws_closed st)
                 (statMap_Add (if accepted then "subWriteOk" else "subWriteDrop") 1 (ws_stats st)) accepted (ws_calls st))
      | _ => None
      end
  | MainReceive =>
      match ws_main st, ws_ch st with
      | Collecting (S n), r :: ch => Some (set_main (match r with Some e => Returned (Some e) | None => main_next n end) ch st)
      | _, _ => None
      end
  | MainClosing =>
      match ws_main st with
      | Collecting _ => if ws_closed st then Some (set_main (Returned (Some ErrWriteFailed)) (ws_ch st) st) else None
      | _ => None
      end
  | CloseWriter =>
      if ws_closed st then None
      else Some (mkWriteState (ws_shards st) (ws_ch st) (ws_main st) true (ws_stats st) (ws_subscriber st) (ws_calls st))
  end.
Fixpoint write_run (rq : ShardRequest) (es : list Event) (st : WriteState) : option WriteState :=
  match es with
  | [] => Some st
  | e :: es => st ← write_step rq e st; write_run rq es st
  end.

(** ** The start of a request *)

Section start.
Context {W : Type} {meta : WriteMeta W} {order : WriteOrder}.

Fixpoint write_shards (rq : ShardRequest) (mapping : ShardMapping) (l : list (Z * list point)) (s : Stats)
    : outcome GoError (list ShardWrite * Stats) :=
  match l with
  | [] => Ok ([], s)
  | (shardID, points) :: l =>
      match sm_Shards mapping !! shardID with
      | None => Panic
      | Some shard =>
          let (t, s) := writeToShard rq shard points s in
          let! (ts, s) := write_shards rq mapping l s in
          Ok (t :: ts, s)
      end
  end.

(** What [WritePoints] does before it waits: the request with its retention
    policy, and the goroutines that were started. *)
Definition default_policy (wp : WritePointsRequest) (w : W) : W * outcome GoError WritePointsRequest :=
  if bool_decide (wp_RetentionPolicy wp = EmptyString) then
    match ms_Database (wp_Database wp) w with
    | (w, Err e) => (w, Err e)
    | (w, Panic) => (w, Panic)
    | (w, Ok None) => (w, Err (OtherError ("database not found: " +:+ wp_Database wp)))
    | (w, Ok (Some db)) =>
        (w, Ok (mkWritePointsRequest (wp_Database wp) (di_DefaultRetentionPolicy db) (wp_ConsistencyLevel wp) (wp_Points wp)))
    end
  else (w, Ok wp).
Definition WritePoints (wp : WritePointsRequest) (closed : bool) (s : Stats) (w : W) : W * outcome GoError (ShardRequest * WriteState) :=
  let s := statMap_Add "pointReq" (Z.of_nat (length (wp_Points wp))) (statMap_Add "req" 1 s) in
  match default_policy wp w with
  | (w, Err e) => (w, Err e)
  | (w, Panic) => (w, Panic)
  | (w, Ok wp) =>
      match MapShards wp w with
      | (w, Err e) => (w, Err e)
      | (w, Panic) => (w, Panic)
      | (w, Ok mapping) =>
          let rq := mkRequest (ms_NodeID w) (wp_Database wp) (wp_RetentionPolicy wp) (wp_ConsistencyLevel wp) in
          (w, let! (ts, s) := write_shards rq mapping (iter_shards (sm_Points mapping)) s in
              Ok (rq, mkWriteState ts (ts ≫= results_of) Subscribing closed s false []))
      end
  end.
Definition WritePointsInto (database policy : string) (points : list point) : bool → Stats → W → W * outcome GoError (ShardRequest * WriteState) :=
  WritePoints (mkWritePointsRequest database policy ConsistencyLevelAny points).
End start.

(** ** The node balancer *)

(** [b_p] is the index of the next node; it goes back to the start at the end. *)
Record nodeBalancer := mkBalancer { b_nodes : list NodeInfo; b_p : nat }.
Definition swap_nodes (i j : nat) (l : list NodeInfo) : list NodeInfo :=
  match l !! i, l !! j with Some x, Some y => <[j := x]> (<[i := y]> l) | _, _ => l end.
(** [rand i] is what [rand.Intn(i + 1)] returns. *)
Definition shuffle (rand : nat → nat) (l : list NodeInfo) : list NodeInfo :=
  foldl (λ l i, swap_nodes i (rand i) l) l (seq 0 (length l)).
Definition NewNodeBalancer (rand : nat → nat) (nodes : list NodeInfo) : nodeBalancer := mkBalancer (shuffle rand nodes) 0.
Definition online (b : nodeBalancer) : list NodeInfo := b_nodes b.
Definition Balancer_Next (b : nodeBalancer) : nodeBalancer * option NodeInfo :=
  let up := online b in
  if (length up =? 0)%nat then (b, None)
  else
    let p := if (length up <=? b_p b)%nat then O else b_p b in
    (mkBalancer (b_nodes b) (S p), up !! p).
