(* ===== verification/ClusterWriteProps.v ===== *)
(** * Theorems about writing points to a cluster *)

From stdpp Require Import base list strings gmap.
From Stdlib Require Import ZArith Ascii Lia.
From S2P Require Import Prelude MetaData MetaCodec MetaStore MetaClient QlToken QlExpr QlSelect QlPrint QlNumber Rows Points ClusterWrite.

Local Open Scope nat_scope.

(** ** Counting *)

Abbreviation count p l := (sum_list_with (λ x, if p x : bool then 1 else 0) l).
Lemma sum_insert {A} (f : A → nat) l i x y : l !! i = Some x → sum_list_with f (<[i := y]> l) + f x = sum_list_with f l + f y.
Proof.
  revert i. induction l as [|z l IH]; intros [|i] H; simplify_eq/=; [lia|]. specialize (IH i H). lia.
Qed.
Lemma sum_lookup {A} (f : A → nat) l i x : l !! i = Some x → f x ≤ sum_list_with f l.
Proof. revert i. induction l as [|y l IH]; intros [|i] H; simplify_eq/=; [lia|]. specialize (IH i H). lia. Qed.
Lemma sum_zero {A} (f : A → nat) l i x : sum_list_with f l = 0 → l !! i = Some x → f x = 0.
Proof. intros H Hi. pose proof (sum_lookup f l i x Hi). lia. Qed.
Lemma sum_pos {A} (f : A → nat) l : 0 < sum_list_with f l → ∃ i x, l !! i = Some x ∧ 0 < f x.
Proof.
  induction l as [|y l IH]; simpl; [lia|]. intros H. destruct (decide (0 < f y)); [by exists 0, y|].
  destruct IH as (i & x & ? & ?); [lia|]. by exists (S i), x.
Qed.
(** The positions of what is counted. *)
Lemma count_positions {A} (p : A → bool) l : ∃ js, NoDup js ∧ length js = count p l ∧ ∀ j, j ∈ js → ∃ x, l !! j = Some x ∧ p x = true.
Proof.
  induction l as [|y l (js & Hnd & Hlen & Hjs)]; [exists []; split_and!; [constructor|done|intros j Hj; inversion Hj]|].
  assert (Hnd' : NoDup (S <$> js)) by (apply NoDup_fmap_2; [intros ??; lia|done]).
  assert (Hjs' : ∀ j, j ∈ S <$> js → ∃ x, (y :: l) !! j = Some x ∧ p x = true) by (intros j (k & -> & Hk)%list_elem_of_fmap; by apply Hjs).
  simpl. destruct (p y) eqn:E.
  - exists (0 :: (S <$> js)). split_and!; [|simpl; rewrite length_fmap; lia|].
    + constructor; [|done]. by intros (k & ? & _)%list_elem_of_fmap.
    + intros j [->|Hj]%elem_of_cons; [by exists y|by apply Hjs'].
  - exists (S <$> js). split_and!; [done|rewrite length_fmap; lia|done].
Qed.

(** ** One shard *)

Definition is_open (o : ShardOwner * pc) : bool := match o.2 with Sent _ => false | _ => true end.
Definition is_ack (o : ShardOwner * pc) : bool := match o.2 with Sent None => true | _ => false end.
Definition no_error {A} (r : A * option WriteError) : bool := match r.2 with None => true | _ => false end.

Record shard_inv (rq : ShardRequest) (t : ShardWrite) : Prop := {
  si_owners : (sw_owners t).*1 = si_Owners (sw_shard t);
  si_acks : count is_ack (sw_owners t) = sw_wrote t + count no_error (sw_ch t);
  si_left : sw_left t = count is_open (sw_owners t) + length (sw_ch t);
  si_running : sw_result t = None → 0 < sw_left t;
  si_success : sw_result t = Some None → required (rq_consistency rq) (length (si_Owners (sw_shard t))) ≤ sw_wrote t
}.

Lemma next_round_facts t s : let t' := (next_round t s).1 in
  sw_shard t' = sw_shard t ∧ sw_points t' = sw_points t ∧ sw_owners t' = sw_owners t ∧ sw_ch t' = sw_ch t ∧ sw_left t' = sw_left t ∧
  sw_wrote t' = sw_wrote t ∧ sw_error t' = sw_error t ∧
  (sw_left t = 0 ∧ sw_result t' = Some (Some (verdict (sw_wrote t) (sw_error t))) ∨ 0 < sw_left t ∧ t' = t).
Proof. unfold next_round. destruct (sw_left t) eqn:E; simpl; split_and!; try done; [by left|right; split; [lia|done]]. Qed.
Lemma next_round_inv rq t s : sw_result t = None →
  (sw_owners t).*1 = si_Owners (sw_shard t) → count is_ack (sw_owners t) = sw_wrote t + count no_error (sw_ch t) →
  sw_left t = count is_open (sw_owners t) + length (sw_ch t) → shard_inv rq (next_round t s).1.
Proof.
  intros Hr H1 H2 H3. destruct (next_round_facts t s) as (F1 & _ & F3 & F4 & F5 & F6 & _ & F8).
  split; rewrite ?F1, ?F3, ?F4, ?F5, ?F6; try done.
  - destruct F8 as [[_ ->]|[? _]]; [done|by intros _].
  - destruct F8 as [[_ ->]|[_ ->]]; [done|by rewrite Hr].
Qed.

Lemma start_inv rq shard points s : shard_inv rq (writeToShard rq shard points s).1.
Proof.
  unfold writeToShard. apply next_round_inv; cbn [sw_result sw_owners sw_shard sw_wrote sw_ch sw_left sum_list_with length Nat.add]; [done|..].
  - rewrite <- list_fmap_compose. by apply list_fmap_id.
  - induction (si_Owners shard) as [|o l IH]; [done|]. cbn [fmap list_fmap sum_list_with]. rewrite IH. unfold is_ack, start_pc. simpl. by case_bool_decide.
  - rewrite Nat.add_0_r. induction (si_Owners shard) as [|o l IH]; [done|]. cbn [fmap list_fmap sum_list_with length]. rewrite IH. unfold is_open, start_pc. simpl. by case_bool_decide.
Qed.

Lemma sum_app1 {A} (p : A → bool) l x : count p (l ++ [x]) = count p l + if p x then 1 else 0.
Proof. rewrite sum_list_with_app. simpl. lia. Qed.

Lemma answered_inv rq j a t s t' s' c : shard_inv rq t → answered rq j a t s = Some (t', s', c) → shard_inv rq t'.
Proof.
  intros [H1 H2 H3 H4 H5] H. unfold answered in H. destruct (sw_owners t !! j) as [[o p]|] eqn:Ej; [|done].
  destruct (pc_call _ _ _ _ p) as [call|] eqn:Ec; [|done]. simplify_eq.
  assert (Hp : is_open (o, p) = true ∧ is_ack (o, p) = false) by (by destruct p).
  assert (Hf : ∀ q, (<[j:=(o, q)]> (sw_owners t)).*1 = si_Owners (sw_shard t)).
  { intros q. rewrite list_fmap_insert, <- H1. apply list_insert_id. by rewrite list_lookup_fmap, Ej. }
  pose proof (λ q, sum_insert (λ x, if is_ack x then 1 else 0) (sw_owners t) j (o, p) (o, q) Ej) as Ha.
  pose proof (λ q, sum_insert (λ x, if is_open x then 1 else 0) (sw_owners t) j (o, p) (o, q) Ej) as Hs.
  destruct Hp as [Hp1 Hp2]. destruct (pc_after rq p a) as [q|r] eqn:Ea.
  - assert (Hq : is_open (o, q) = true ∧ is_ack (o, q) = false).
    { destruct p; simpl in Ea; repeat case_match; by simplify_eq. }
    destruct Hq as [Hq1 Hq2]. specialize (Ha q). specialize (Hs q). cbv beta in Ha, Hs. rewrite Hp2, Hq2 in Ha. rewrite Hp1, Hq1 in Hs.
    split; cbn [sw_shard sw_owners sw_ch sw_left sw_wrote sw_result]; auto; lia.
  - specialize (Ha (Sent r)). specialize (Hs (Sent r)). cbv beta in Ha, Hs. rewrite Hp2 in Ha. rewrite Hp1 in Hs.
    change (if is_open (o, Sent r) then 1 else 0) with 0 in Hs.
    split; cbn [sw_shard sw_owners sw_ch sw_left sw_wrote sw_result]; rewrite ?sum_app1, ?length_app; auto.
    + change (is_ack (o, Sent r)) with (no_error (o, r)) in Ha. lia.
    + cbn [length]. lia.
Qed.

Lemma receive_inv rq t s t' s' : shard_inv rq t → receive rq t s = Some (t', s') → shard_inv rq t' ∧ sw_result t = None.
Proof.
  intros [H1 H2 H3 H4 H5] H. unfold receive in H. destruct (sw_result t) as [|] eqn:Er; [done|]. split; [|done].
  destruct (sw_left t) as [|n] eqn:El; [done|]. destruct (sw_ch t) as [|[o err] ch] eqn:Ec; [done|]. injection H as H.
  apply (f_equal fst) in H. simpl in H. subst t'. cbn [sum_list_with length] in H2, H3. destruct err as [e|].
  - change (if no_error (o, Some e) then 1 else 0) with 0 in H2.
    apply next_round_inv; cbn [sw_shard sw_owners sw_ch sw_left sw_wrote sw_result]; lia || done.
  - change (if no_error (o, None) then 1 else 0) with 1 in H2.
    destruct (_ <=? _) eqn:E; [|apply next_round_inv; cbn [sw_shard sw_owners sw_ch sw_left sw_wrote sw_result]; lia || done].
    apply Nat.leb_le in E. split; cbn [fst return_ sw_shard sw_owners sw_ch sw_left sw_wrote sw_result]; try done; intros; lia.
Qed.

Lemma return_inv rq t e : shard_inv rq t → shard_inv rq (return_ (Some e) t).
Proof. intros [H1 H2 H3 H4 H5]. by split. Qed.

(** ** A request *)

(** The owner [o] has the points of the shard, or they were queued for it and the
    consistency level lets that pass. *)
Definition acknowledged (rq : ShardRequest) (calls : list (nat * nat * Call * option WriteError)) (i j : nat) (t : ShardWrite) (o : ShardOwner) : Prop :=
  let id := si_ID (sw_shard t) in
  if bool_decide (rq_node rq = so_NodeID o) then (i, j, WriteToShard id (sw_points t), None) ∈ calls
  else (i, j, ShardWriter_WriteShard id (so_NodeID o) (sw_points t), None) ∈ calls ∨
       rq_consistency rq = ConsistencyLevelAny ∧ (i, j, HintedHandoff_WriteShard id (so_NodeID o) (sw_points t), None) ∈ calls.

Definition is_running (t : ShardWrite) : bool := match sw_result t with None => true | _ => false end.
Definition is_failed (t : ShardWrite) : bool := match sw_result t with Some (Some _) => true | _ => false end.
Definition is_error (r : option WriteError) : bool := match r with Some _ => true | None => false end.

(** Which owners have a goroutine that writes to this node. *)
Definition place_ok (rq : ShardRequest) (o : ShardOwner) (c : pc) : Prop :=
  match c with
  | AtWrite | AtCreate | AtRetry => rq_node rq = so_NodeID o
  | AtRemote | AtHandoff _ => rq_node rq ≠ so_NodeID o
  | Sent _ => True
  end.

Definition main_inv (st : WriteState) : Prop :=
  let waiting n := n = count is_running (ws_shards st) + length (ws_ch st) ∧ count is_failed (ws_shards st) = count is_error (ws_ch st) in
  match ws_main st with
  | Subscribing => waiting (length (ws_shards st))
  | Collecting n => 0 < n ∧ waiting n
  | Returned None => count is_running (ws_shards st) = 0 ∧ count is_failed (ws_shards st) = 0
  | Returned (Some _) => True
  end.
Record write_inv (rq : ShardRequest) (st : WriteState) : Prop := {
  wi_shards : Forall (shard_inv rq) (ws_shards st);
  wi_place : ∀ i j t o c, ws_shards st !! i = Some t → sw_owners t !! j = Some (o, c) → place_ok rq o c;
  wi_acks : ∀ i j t o, ws_shards st !! i = Some t → sw_owners t !! j = Some (o, Sent None) → acknowledged rq (ws_calls st) i j t o;
  wi_main : main_inv st
}.

(** A shard moves from [t] to [t']. *)
Lemma set_shard_main rq i t t' s st : write_inv rq st → ws_shards st !! i = Some t →
  (sw_result t' = sw_result t ∨ sw_result t = None ∧ is_Some (sw_result t')) → main_inv (set_shard i t' s st).
Proof.
  intros [_ _ _ Hm] Hi Hr. unfold main_inv in *. cbn [set_shard ws_main ws_shards ws_ch]. rewrite Hi.
  pose proof (sum_insert (λ x, if is_running x then 1 else 0) _ i t t' Hi) as H1.
  pose proof (sum_insert (λ x, if is_failed x then 1 else 0) _ i t t' Hi) as H2. cbv beta in H1, H2.
  unfold results_of.
  destruct Hr as [Hr|[Hr [r Hr']]].
  - assert (E1 : is_running t' = is_running t) by (unfold is_running; by rewrite Hr).
    assert (E2 : is_failed t' = is_failed t) by (unfold is_failed; by rewrite Hr). rewrite E1 in H1. rewrite E2 in H2.
    rewrite Hr. assert (Hres : match sw_result t with Some _ => [] | None => match sw_result t with Some r => [r] | None => [] end end = @nil (option WriteError))
      by (by destruct (sw_result t)). rewrite Hres, app_nil_r. rewrite length_insert. destruct (ws_main st) as [|n|[e|]]; lia.
  - assert (E1 : is_running t = true) by (unfold is_running; by rewrite Hr). assert (E2 : is_failed t = false) by (unfold is_failed; by rewrite Hr).
    assert (E3 : is_running t' = false) by (unfold is_running; by rewrite Hr'). assert (E4 : is_failed t' = is_error r) by (unfold is_failed; rewrite Hr'; by destruct r).
    rewrite E1, E3 in H1. rewrite E2, E4 in H2. rewrite Hr, Hr'. rewrite length_insert, sum_app1, length_app. cbn [length].
    destruct (ws_main st) as [|n|[e|]]; lia.
Qed.

Lemma answered_facts rq j a t s t' s' c : answered rq j a t s = Some (t', s', c) →
  ∃ o p, sw_owners t !! j = Some (o, p) ∧ pc_call rq (si_ID (sw_shard t)) (sw_points t) o p = Some c ∧
    sw_shard t' = sw_shard t ∧ sw_points t' = sw_points t ∧ sw_result t' = sw_result t ∧
    sw_owners t' = <[j := (o, match pc_after rq p a with inl q => q | inr r => Sent r end)]> (sw_owners t).
Proof.
  unfold answered. intros H. destruct (sw_owners t !! j) as [[o p]|]; [|done]. destruct (pc_call _ _ _ _ p) as [call|] eqn:Ec; [|done].
  simplify_eq. exists o, p. rewrite Ec. by destruct (pc_after rq p a).
Qed.
Lemma receive_facts rq t s t' s' : receive rq t s = Some (t', s') →
  sw_shard t' = sw_shard t ∧ sw_points t' = sw_points t ∧ sw_owners t' = sw_owners t.
Proof.
  unfold receive. intros H. destruct (sw_result t); [done|]. destruct (sw_left t); [done|]. destruct (sw_ch t) as [|[o err] ch]; [done|].
  injection H as H. apply (f_equal fst) in H. simpl in H. subst t'.
  destruct err as [e|]; [|destruct (_ <=? _); [done|]]; match goal with |- context [next_round ?t ?s] => pose proof (next_round_facts t s) as F end;
    destruct F as (-> & -> & -> & _); done.
Qed.

(** Answering a call keeps who writes where, and an acknowledgement is in the list
    of calls. *)
Lemma place_after rq o p a q : place_ok rq o p → pc_after rq p a = inl q → place_ok rq o q.
Proof. intros Hp Hq. destruct p; simpl in *; repeat case_match; by simplify_eq. Qed.
Lemma ack_after rq o p a t i j c calls : place_ok rq o p → pc_call rq (si_ID (sw_shard t)) (sw_points t) o p = Some c →
  pc_after rq p a = inr None → acknowledged rq (calls ++ [(i, j, c, a)]) i j t o.
Proof.
  intros Hp Hc Ha. unfold acknowledged. destruct p; simpl in *; simplify_eq.
  - case_bool_decide; simplify_eq. rewrite bool_decide_eq_true_2 by done. set_solver.
  - by destruct a.
  - rewrite bool_decide_eq_true_2 by done. set_solver.
  - rewrite bool_decide_eq_false_2 by done. destruct a as [e|]; [by case_match|]. left. set_solver.
  - rewrite bool_decide_eq_false_2 by done. destruct (bool_decide (a = None)) eqn:E1, (bool_decide (rq_consistency rq = ConsistencyLevelAny)) eqn:E2; simplify_eq/=.
    apply bool_decide_eq_true in E1 as ->. apply bool_decide_eq_true in E2. right. split; [done|set_solver].
Qed.
Lemma acknowledged_more rq calls c i j t o : acknowledged rq calls i j t o → acknowledged rq (calls ++ [c]) i j t o.
Proof. unfold acknowledged. case_bool_decide; [set_solver|]. intros [Ha|[? Ha]]; [left|right]; set_solver. Qed.
Lemma acknowledged_same rq calls i j t t' o : sw_shard t' = sw_shard t → sw_points t' = sw_points t →
  acknowledged rq calls i j t o → acknowledged rq calls i j t' o.
Proof. unfold acknowledged. by intros -> ->. Qed.

Lemma set_shard_inv rq i t t' s st : write_inv rq st → ws_shards st !! i = Some t → shard_inv rq t' →
  sw_shard t' = sw_shard t → sw_points t' = sw_points t → sw_owners t' = sw_owners t →
  (sw_result t' = sw_result t ∨ sw_result t = None ∧ is_Some (sw_result t')) → write_inv rq (set_shard i t' s st).
Proof.
  intros Hw Hi Ht' Hs Hp Ho Hr. pose proof Hw as [H1 H2 H3 _]. split.
  - by apply Forall_insert.
  - intros k j u o c Hk Hj. apply list_lookup_insert_Some in Hk as [(<- & <- & _)|[_ Hk]]; [|by eapply H2].
    rewrite Ho in Hj. by eapply H2.
  - intros k j u o Hk Hj. apply list_lookup_insert_Some in Hk as [(<- & <- & _)|[_ Hk]]; [|by eapply H3].
    rewrite Ho in Hj. apply (acknowledged_same rq _ i j t); [done..|]. by apply H3.
  - by eapply set_shard_main.
Qed.

Lemma answer_inv rq i j a st t t' s c : write_inv rq st → ws_shards st !! i = Some t → answered rq j a t (ws_stats st) = Some (t', s, c) →
  write_inv rq (add_call (i, j, c, a) (set_shard i t' s st)).
Proof.
  intros Hw Hi Ha. pose proof Hw as [H1 H2 H3 H4]. destruct (answered_facts _ _ _ _ _ _ _ _ Ha) as (o & p & Ej & Hc & Hs & Hp & Hr & Ho).
  assert (Hpl : place_ok rq o p) by (by eapply H2). split.
  - apply Forall_insert; [done|]. eapply answered_inv; [|exact Ha]. by eapply Forall_lookup_1.
  - intros k j' u o' c' Hk Hj. apply list_lookup_insert_Some in Hk as [(<- & <- & _)|[_ Hk]]; [|by eapply H2]. rewrite Ho in Hj.
    apply list_lookup_insert_Some in Hj as [(<- & Hx & _)|[_ Hj]]; [|by eapply H2]. injection Hx as <- <-.
    destruct (pc_after rq p a) as [q|r] eqn:E; [by eapply place_after|done].
  - intros k j' u o' Hk Hj. cbn [add_call ws_calls set_shard].
    apply list_lookup_insert_Some in Hk as [(<- & <- & _)|[_ Hk]]; [|by eapply acknowledged_more, H3]. rewrite Ho in Hj.
    apply (acknowledged_same rq _ i j' t); [done..|].
    apply list_lookup_insert_Some in Hj as [(<- & Hx & _)|[_ Hj]]; [|by eapply acknowledged_more, H3]. injection Hx as <- Hx.
    destruct (pc_after rq p a) as [q|r] eqn:E; [|injection Hx as ->; by eapply ack_after].
    subst q. exfalso. destruct p; simpl in E, Hc; repeat case_match; by simplify_eq.
  - change (main_inv (set_shard i t' s st)). eapply set_shard_main; [done..|by left].
Qed.

Lemma main_next_inv st n : n = count is_running (ws_shards st) + length (ws_ch st) →
  count is_failed (ws_shards st) = count is_error (ws_ch st) → ws_main st = main_next n → main_inv st.
Proof.
  intros Hn Hf Hm. unfold main_inv. rewrite Hm. destruct n; simpl; [|split_and!; lia].
  assert (ws_ch st = []) as Hc by (destruct (ws_ch st); [done|simpl in Hn; lia]). rewrite Hc in Hf. simpl in Hf. lia.
Qed.

Lemma write_step_inv rq e st st' : write_inv rq st → write_step rq e st = Some st' → write_inv rq st'.
Proof.
  intros Hw. pose proof Hw as [H1 H2 H3 H4]. destruct e as [i j a|i|i|i|acc| | |]; simpl.
  - destruct (ws_shards st !! i) as [t|] eqn:Hi; [|done]. simpl. destruct (answered _ _ _ _ _) as [[[t' s] c]|] eqn:E; [|done]. simpl. intros [= <-].
    by eapply answer_inv.
  - destruct (ws_shards st !! i) as [t|] eqn:Hi; [|done]. simpl. destruct (receive _ _ _) as [[t' s]|] eqn:E; [|done]. simpl. intros [= <-].
    destruct (receive_facts _ _ _ _ _ E) as (Hs & Hp & Ho).
    destruct (receive_inv rq t (ws_stats st) t' s) as [Ht' Hr]; [by eapply Forall_lookup_1|done|].
    eapply set_shard_inv; try done. destruct (sw_result t') eqn:Er; [right; by eauto|left; congruence].
  - destruct (ws_shards st !! i) as [t|] eqn:Hi; [|done]. simpl. destruct (sw_result t) eqn:E; [done|]. intros [= <-].
    eapply set_shard_inv; try done; [|right; by eauto]. apply return_inv. by eapply Forall_lookup_1.
  - destruct (ws_shards st !! i) as [t|] eqn:Hi; [|done]. simpl. destruct (sw_result t) eqn:E; [done|]. destruct (ws_closed st); [|done]. intros [= <-].
    eapply set_shard_inv; try done; [|right; by eauto]. apply return_inv. by eapply Forall_lookup_1.
  - destruct (ws_main st) eqn:Em; try done. intros [= <-]. split; try done. unfold main_inv in H4. rewrite Em in H4. destruct H4.
    by eapply main_next_inv.
  - destruct (ws_main st) as [|n|] eqn:Em; try done. destruct n as [|n]; [done|]. destruct (ws_ch st) as [|r ch] eqn:Ec; [done|]. intros [= <-].
    split; try done. unfold main_inv in H4. rewrite Em, Ec in H4. destruct H4 as (_ & H4 & H5). cbn [length sum_list_with] in H4, H5. destruct r as [e|]; [done|].
    change (if is_error None then 1 else 0) with 0 in H5. eapply main_next_inv; [..|reflexivity]; cbn [set_main ws_shards ws_ch]; lia.
  - destruct (ws_main st) eqn:Em; try done. destruct (ws_closed st); [|done]. intros [= <-]. by split.
  - destruct (ws_closed st); [done|]. intros [= <-]. by split.
Qed.
Lemma write_run_app rq es1 es2 st : write_run rq (es1 ++ es2) st = (st1 ← write_run rq es1 st; write_run rq es2 st1).
Proof. revert st. induction es1 as [|e es1 IH]; intros st; simpl; [done|]. by destruct (write_step rq e st) as [st1|]; simpl. Qed.
Lemma write_run_inv rq es st st' : write_inv rq st → write_run rq es st = Some st' → write_inv rq st'.
Proof.
  revert st. induction es as [|e es IH]; intros st Hw H; [by simplify_eq/=|]. simpl in H.
  destruct (write_step rq e st) as [st1|] eqn:E; [|done]. simpl in H. eapply IH; [|exact H]. by eapply write_step_inv.
Qed.

(** No step changes which points go to which shard. *)
Definition assignment (st : WriteState) : list (ShardInfo * list point) := (λ t, (sw_shard t, sw_points t)) <$> ws_shards st.
Lemma set_shard_assignment i t t' s st : ws_shards st !! i = Some t → sw_shard t' = sw_shard t → sw_points t' = sw_points t →
  assignment (set_shard i t' s st) = assignment st.
Proof.
  intros Hi Hs Hp. unfold assignment. cbn [set_shard ws_shards]. rewrite list_fmap_insert. apply list_insert_id.
  rewrite list_lookup_fmap, Hi. simpl. by rewrite Hs, Hp.
Qed.
Lemma write_step_assignment rq e st st' : write_step rq e st = Some st' → assignment st' = assignment st.
Proof.
  destruct e as [i j a|i|i|i|acc| | |]; simpl; try (destruct (ws_shards st !! i) as [t|] eqn:Hi; [simpl|done]).
  - destruct (answered _ _ _ _ _) as [[[t' s] c]|] eqn:E; [|done]. simpl. intros [= <-].
    destruct (answered_facts _ _ _ _ _ _ _ _ E) as (o & p & _ & _ & Hs & Hp & _). exact (set_shard_assignment i t t' s st Hi Hs Hp).
  - destruct (receive _ _ _) as [[t' s]|] eqn:E; [|done]. simpl. intros [= <-].
    destruct (receive_facts _ _ _ _ _ E) as (Hs & Hp & _). exact (set_shard_assignment i t t' s st Hi Hs Hp).
  - destruct (sw_result t); [done|]. intros [= <-]. by eapply set_shard_assignment.
  - destruct (sw_result t); [done|]. destruct (ws_closed st); [|done]. intros [= <-]. by eapply set_shard_assignment.
  - destruct (ws_main st); try done. by intros [= <-].
  - destruct (ws_main st) as [|[|n]|]; try done. destruct (ws_ch st); [done|]. by intros [= <-].
  - destruct (ws_main st); try done. destruct (ws_closed st); [|done]. by intros [= <-].
  - destruct (ws_closed st); [done|]. by intros [= <-].
Qed.
Lemma write_run_assignment rq es st st' : write_run rq es st = Some st' → assignment st' = assignment st.
Proof.
  revert st. induction es as [|e es IH]; intros st H; [by simplify_eq/=|]. simpl in H.
  destruct (write_step rq e st) as [st1|] eqn:E; [|done]. simpl in H. rewrite (IH _ H). by eapply write_step_assignment.
Qed.

(** ** The start *)

Section start.
Context {W : Type} {meta : WriteMeta W} {order : WriteOrder}.

Lemma writeToShard_facts rq shard points s : let t := (writeToShard rq shard points s).1 in
  sw_shard t = shard ∧ sw_points t = points ∧ (∀ j o c, sw_owners t !! j = Some (o, c) → c = start_pc rq o).
Proof.
  unfold writeToShard. destruct (next_round_facts (mkShardWrite shard points ((λ o, (o, start_pc rq o)) <$> si_Owners shard) [] (length (si_Owners shard)) 0 None None) s)
    as (F1 & F2 & F3 & _). cbn [sw_shard sw_points sw_owners] in F1, F2, F3. cbv zeta. rewrite F1, F2, F3.
  split_and!; [done..|]. intros j o c. rewrite list_lookup_fmap.
  destruct (si_Owners shard !! j); simpl; congruence.
Qed.
Lemma start_pc_place rq o : place_ok rq o (start_pc rq o).
Proof. unfold start_pc. by case_bool_decide. Qed.

Lemma write_shards_facts rq mapping l : ∀ s ts s', write_shards rq mapping l s = Ok (ts, s') →
  Forall (shard_inv rq) ts ∧ (λ t, (Some (sw_shard t), sw_points t)) <$> ts = (λ x, (sm_Shards mapping !! x.1, x.2)) <$> l ∧
  Forall (λ t, ∀ j o c, sw_owners t !! j = Some (o, c) → c = start_pc rq o) ts.
Proof.
  induction l as [|[id points] l IH]; intros s ts s' H; simpl in H; [by simplify_eq|].
  destruct (sm_Shards mapping !! id) as [shard|] eqn:Es; [|done]. pose proof (writeToShard_facts rq shard points s) as F.
  pose proof (start_inv rq shard points s) as Hi. destruct (writeToShard rq shard points s) as [t s1]. simpl in F, Hi.
  destruct (write_shards rq mapping l s1) as [[ts1 s2]| |] eqn:E; simplify_eq/=. destruct (IH _ _ _ E) as (H1 & H2 & H3). destruct F as (F1 & F2 & F3).
  split_and!; [by constructor| |by constructor]. by rewrite F1, F2, Es, H2.
Qed.

Lemma results_count ts : length ts = count is_running ts + length (ts ≫= results_of) ∧ count is_failed ts = count is_error (ts ≫= results_of).
Proof.
  induction ts as [|t ts [IH1 IH2]]; [done|]. cbn [length sum_list_with mbind list_bind]. rewrite length_app, sum_list_with_app.
  unfold results_of at 1 3. unfold is_running at 1, is_failed at 1. destruct (sw_result t) as [[e|]|]; cbn [length sum_list_with is_error]; lia.
Qed.

(** Every point is in the mapping, once, and every shard is there. *)
Definition mapped (m : ShardMapping) : list point := concat (map_to_list (sm_Points m)).*2.
Lemma MapPoint_mapped sh p m : mapped (MapPoint sh p m) ≡ₚ p :: mapped m.
Proof.
  unfold mapped, MapPoint. cbn [sm_Points]. destruct (sm_Points m !! si_ID sh) as [ps|] eqn:E.
  - rewrite <- insert_delete_eq, map_to_list_insert by apply lookup_delete_eq. rewrite <- (map_to_list_delete _ _ _ E). cbn. solve_Permutation.
  - rewrite map_to_list_insert by done. done.
Qed.
Lemma map_points_mapped d tr points : ∀ m m', map_points d tr points m = Ok m' → dom (sm_Points m) = dom (sm_Shards m) →
  mapped m' ≡ₚ points ++ mapped m ∧ dom (sm_Points m') = dom (sm_Shards m').
Proof.
  induction points as [|p points IH]; intros m m' H Hd; simpl in H; [by simplify_eq|].
  destruct (shard_for d tr p) as [sh| |]; simplify_eq/=. destruct (IH _ _ H) as [H1 H2].
  - unfold MapPoint. cbn [sm_Points sm_Shards]. by rewrite !dom_insert_L, Hd.
  - split; [|done]. rewrite H1, MapPoint_mapped. solve_Permutation.
Qed.

Lemma WritePoints_start wp closed s w w' rq st : WritePoints wp closed s w = (w', Ok (rq, st)) →
  write_inv rq st ∧ concat (assignment st).*2 ≡ₚ wp_Points wp ∧ rq_consistency rq = wp_ConsistencyLevel wp.
Proof.
  unfold WritePoints. intros H. destruct (default_policy wp w) as [w1 [wp1| |]] eqn:Ed; [|done..].
  assert (Hwp : wp_Points wp1 = wp_Points wp ∧ wp_ConsistencyLevel wp1 = wp_ConsistencyLevel wp).
  { unfold default_policy in Ed. repeat case_match; by simplify_eq. }
  destruct (MapShards wp1 w1) as [w2 [mapping| |]] eqn:Em; [|done..]. injection H as -> H.
  destruct (write_shards _ _ _ _) as [[ts s']| |] eqn:Ew; simplify_eq/=. destruct (write_shards_facts _ _ _ _ _ _ Ew) as (H1 & H2 & H3). rewrite Forall_lookup in H3.
  assert (Hmap : mapped mapping ≡ₚ wp_Points wp1).
  { unfold MapShards in Em. destruct (ms_RetentionPolicy _ _ _) as [w3 [[rp|]| |]]; [|done..]. destruct (create_groups _ _ _ _ _) as [w4 [tr| |]]; [|done..].
    injection Em as _ Em. destruct (map_points_mapped _ _ _ _ _ Em) as [Hm _]; [done|]. rewrite Hm. unfold mapped. simpl. by rewrite map_to_list_empty, app_nil_r. }
  split_and!; [split; simpl| |apply Hwp].
  - done.
  - intros i j t o c Hi Hj. rewrite (H3 _ _ Hi _ _ _ Hj). apply start_pc_place.
  - intros i j t o Hi Hj. specialize (H3 _ _ Hi _ _ _ Hj). unfold start_pc in H3. by case_bool_decide.
  - apply results_count.
  - destruct Hwp as [<- _]. rewrite <- Hmap. unfold assignment, mapped. simpl. apply (f_equal (fmap snd)) in H2. rewrite <- !list_fmap_compose in H2.
    rewrite <- list_fmap_compose. change ((snd ∘ (λ t, (sw_shard t, sw_points t))) <$> ts) with ((snd ∘ (λ t, (Some (sw_shard t), sw_points t))) <$> ts).
    rewrite H2. change (snd ∘ (λ x : Z * list point, (sm_Shards mapping !! x.1, x.2))) with (snd : Z * list point → list point).
    by rewrite iter_shards_perm.
Qed.

(** C23: when [WritePoints] returns without an error, then whatever the order of
    goroutines and answers, time-outs and closings were: every point of the
    request went to exactly one shard, and as many owners of every shard as the
    consistency level requires have acknowledged its points.  An owner
    acknowledges by storing them; for the level ANY also by hinted handoff
    accepting them for a node that could not be reached. *)
Theorem WritePoints_acknowledged wp closed s w w' rq st0 es st :
  WritePoints wp closed s w = (w', Ok (rq, st0)) → write_run rq es st0 = Some st → ws_main st = Returned None →
  concat (sw_points <$> ws_shards st) ≡ₚ wp_Points wp ∧
  ∀ i t, ws_shards st !! i = Some t → ∃ js, NoDup js ∧
    required (wp_ConsistencyLevel wp) (length (si_Owners (sw_shard t))) ≤ length js ∧
    ∀ j, j ∈ js → ∃ o, si_Owners (sw_shard t) !! j = Some o ∧ acknowledged rq (ws_calls st) i j t o.
Proof.
  intros H0 Hrun Hret. destruct (WritePoints_start _ _ _ _ _ _ _ H0) as (Hi0 & Hpts & Hc). pose proof (write_run_inv _ _ _ _ Hi0 Hrun) as [H1 H2 H3 H4].
  split.
  - rewrite <- Hpts, <- (write_run_assignment _ _ _ _ Hrun). unfold assignment. by rewrite <- list_fmap_compose.
  - intros i t Hi. unfold main_inv in H4. rewrite Hret in H4. destruct H4 as [Hr Hf]. apply (sum_zero _ _ i t) in Hr; [|done]. apply (sum_zero _ _ i t) in Hf; [|done].
    unfold is_running, is_failed in *. destruct (sw_result t) as [[e|]|] eqn:E; [done| |done]. pose proof (Forall_lookup_1 _ _ _ _ H1 Hi) as [S1 S2 _ _ S5].
    specialize (S5 E). destruct (count_positions is_ack (sw_owners t)) as (js & Hnd & Hlen & Hjs). exists js. split_and!; [done|rewrite <- Hc, Hlen; lia|].
    intros j Hj. destruct (Hjs j Hj) as ([o c] & Ho & Hack). exists o. rewrite <- S1, list_lookup_fmap, Ho. split; [done|].
    apply H3; [done|]. unfold is_ack in Hack. simpl in Hack. by destruct c as [| | | | |[]].
Qed.
End start.

(** ** Requests come to an end *)

Definition pc_weight (o : ShardOwner * pc) : nat :=
  match o.2 with AtWrite => 4 | AtCreate => 3 | AtRetry => 2 | AtRemote => 3 | AtHandoff _ => 2 | Sent _ => 0 end.
Definition shard_weight (t : ShardWrite) : nat :=
  sum_list_with pc_weight (sw_owners t) + length (sw_ch t) + match sw_result t with None => 3 | Some _ => 0 end.
Definition main_weight (m : MainState) : nat := match m with Subscribing => 2 | Collecting _ => 1 | Returned _ => 0 end.
(** A bound on the steps that are left. *)
Definition write_budget (st : WriteState) : nat :=
  sum_list_with shard_weight (ws_shards st) + length (ws_ch st) + main_weight (ws_main st) + if ws_closed st then 0 else 1.

Lemma pc_after_weight rq o p a c shardID points : pc_call rq shardID points o p = Some c →
  match pc_after rq p a with inl q => pc_weight (o, q) < pc_weight (o, p) | inr _ => 2 ≤ pc_weight (o, p) end.
Proof. intros Hc. destruct p; simpl in *; repeat case_match; simplify_eq/=; unfold pc_weight; simpl; lia. Qed.
Lemma answered_weight rq j a t s t' s' c : answered rq j a t s = Some (t', s', c) → shard_weight t' < shard_weight t ∧ sw_result t' = sw_result t.
Proof.
  unfold answered. intros H. destruct (sw_owners t !! j) as [[o p]|] eqn:Ej; [|done]. destruct (pc_call _ _ _ _ p) as [call|] eqn:Ec; [|done].
  pose proof (pc_after_weight rq o p a _ _ _ Ec) as Hw. pose proof (λ q, sum_insert pc_weight _ j (o, p) (o, q) Ej) as Hs. injection H as <- _ _.
  unfold shard_weight. destruct (pc_after rq p a) as [q|r]; cbn [sw_owners sw_ch sw_result]; (split; [|done]).
  - specialize (Hs q). lia.
  - specialize (Hs (Sent r)). change (pc_weight (o, Sent r)) with 0 in Hs. rewrite length_app. simpl. lia.
Qed.
Lemma next_round_weight t s : sw_result t = None →
  shard_weight (next_round t s).1 + 2 * length (results_of (next_round t s).1) ≤ shard_weight t.
Proof.
  intros Hr. unfold shard_weight. destruct (next_round_facts t s) as (_ & _ & F3 & F4 & _ & _ & _ & F). rewrite F3, F4. unfold results_of.
  destruct F as [[_ ->]|[_ ->]]; rewrite Hr; simpl; lia.
Qed.
Lemma receive_weight rq t s t' s' : receive rq t s = Some (t', s') → sw_result t = None ∧ shard_weight t' + 2 * length (results_of t') < shard_weight t.
Proof.
  unfold receive. intros H. destruct (sw_result t) eqn:Er; [done|]. destruct (sw_left t); [done|]. destruct (sw_ch t) as [|[o err] ch] eqn:Ec; [done|].
  injection H as H. apply (f_equal fst) in H. simpl in H. subst t'. split; [done|].
  assert (Hw : ∀ n k x, shard_weight (mkShardWrite (sw_shard t) (sw_points t) (sw_owners t) ch n k x None) < shard_weight t).
  { intros. unfold shard_weight. cbn [sw_owners sw_ch sw_result]. rewrite Er, Ec. simpl. lia. }
  destruct err as [e|]; [|destruct (_ <=? _)].
  1,3: eapply Nat.le_lt_trans; [by apply next_round_weight|apply Hw].
  unfold shard_weight. cbn [fst return_ sw_owners sw_ch sw_result results_of length]. rewrite Er, Ec. simpl. lia.
Qed.

Lemma set_shard_budget i t t' s st : ws_shards st !! i = Some t →
  (sw_result t' = sw_result t ∧ shard_weight t' < shard_weight t ∨
   sw_result t = None ∧ shard_weight t' + 2 * length (results_of t') < shard_weight t) →
  write_budget (set_shard i t' s st) < write_budget st.
Proof.
  intros Hi Hw. unfold write_budget. cbn [set_shard ws_shards ws_ch ws_main ws_closed]. rewrite Hi, length_app.
  pose proof (sum_insert shard_weight _ i t t' Hi) as Hs. unfold results_of in *.
  destruct Hw as [[Hr Hw]|[Hr Hw]]; rewrite Hr in *; [destruct (sw_result t)|]; simpl in *; lia.
Qed.
Lemma main_next_weight n : main_weight (main_next n) ≤ 1.
Proof. destruct n; simpl; lia. Qed.
Lemma write_step_budget rq e st st' : write_step rq e st = Some st' → write_budget st' < write_budget st.
Proof.
  destruct e as [i j a|i|i|i|acc| | |]; simpl; try (destruct (ws_shards st !! i) as [t|] eqn:Hi; [simpl|done]).
  - destruct (answered _ _ _ _ _) as [[[t' s] c]|] eqn:E; [|done]. simpl. intros [= <-]. destruct (answered_weight _ _ _ _ _ _ _ _ E).
    change (write_budget (set_shard i t' s st) < write_budget st). eapply set_shard_budget; [done|by left].
  - destruct (receive _ _ _) as [[t' s]|] eqn:E; [|done]. simpl. intros [= <-]. eapply set_shard_budget; [done|right]. by eapply receive_weight.
  - destruct (sw_result t) eqn:E; [done|]. intros [= <-]. eapply set_shard_budget; [done|right]. unfold shard_weight. cbn. rewrite E. split; [done|lia].
  - destruct (sw_result t) eqn:E; [done|]. destruct (ws_closed st); [|done]. intros [= <-]. eapply set_shard_budget; [done|right]. unfold shard_weight. cbn. rewrite E. split; [done|lia].
  - destruct (ws_main st) eqn:E; try done. intros [= <-]. unfold write_budget. cbn [ws_shards ws_ch ws_main ws_closed]. rewrite E.
    pose proof (main_next_weight (length (ws_shards st))). simpl. lia.
  - destruct (ws_main st) as [|[|n]|] eqn:E; try done. destruct (ws_ch st) as [|r ch] eqn:Ec; [done|]. intros [= <-]. unfold write_budget. cbn [set_main ws_shards ws_ch ws_main ws_closed].
    rewrite E, Ec. pose proof (main_next_weight n). destruct r; simpl; lia.
  - destruct (ws_main st) eqn:E; try done. destruct (ws_closed st) eqn:Ec; [|done]. intros [= <-]. unfold write_budget. cbn [set_main ws_shards ws_ch ws_main ws_closed]. rewrite E. simpl. lia.
  - destruct (ws_closed st) eqn:Ec; [done|]. intros [= <-]. unfold write_budget. cbn [ws_shards ws_ch ws_main ws_closed]. rewrite Ec. lia.
Qed.
Lemma write_run_budget rq es st st' : write_run rq es st = Some st' → length es + write_budget st' ≤ write_budget st.
Proof.
  revert st. induction es as [|e es IH]; intros st H; [by simplify_eq/=|]. simpl in H.
  destruct (write_step rq e st) as [st1|] eqn:E; [|done]. simpl in H. specialize (IH _ H). apply write_step_budget in E. simpl. lia.
Qed.

(** The steps of the request itself: answers to its calls, and what is received or
    offered over its channels; not the timer and not the end of the writer. *)
Definition ordinary (answer : nat → nat → option WriteError) (e : Event) : Prop :=
  match e with
  | Answer i j a => a = answer i j
  | Receive _ | Subscribe _ | MainReceive => True
  | Timeout _ | SeeClosing _ | MainClosing | CloseWriter => False
  end.

(** As long as the request has not returned one of these can be made, whatever the
    owners answer. *)
Lemma write_progress rq answer st : write_inv rq st → (∀ r, ws_main st ≠ Returned r) →
  ∃ e, ordinary answer e ∧ is_Some (write_step rq e st).
Proof.
  intros [H1 _ _ Hm] Hr. unfold main_inv in Hm. destruct (ws_main st) as [|n|r] eqn:Em; [|clear Hr|by destruct (Hr r)].
  { exists (Subscribe true). split; [done|]. simpl. rewrite Em. eauto. }
  destruct Hm as (Hn & Hm & _). destruct n as [|n]; [lia|]. destruct (ws_ch st) as [|r ch] eqn:Ec.
  2:{ exists MainReceive. split; [done|]. simpl. rewrite Em, Ec. eauto. }
  destruct (sum_pos (λ t, if is_running t then 1 else 0) (ws_shards st)) as (i & t & Hi & Ht); [simpl in Hm; lia|].
  unfold is_running in Ht. destruct (sw_result t) eqn:Er; [simpl in Ht; lia|]. pose proof (Forall_lookup_1 _ _ _ _ H1 Hi) as [_ _ S3 S4 _]. specialize (S4 Er).
  destruct (sw_ch t) as [|x ch] eqn:Et.
  - destruct (sum_pos (λ o, if is_open o then 1 else 0) (sw_owners t)) as (j & [o c] & Hj & Ho); [simpl in S3; lia|].
    assert (Ha : is_Some (answered rq j (answer i j) t (ws_stats st))).
    { unfold answered. rewrite Hj. destruct c; try (by eexists). unfold is_open in Ho. simpl in Ho. lia. }
    destruct Ha as [[[t' s] c'] Ha]. exists (Answer i j (answer i j)). split; [done|]. simpl. rewrite Hi. simpl. rewrite Ha. by eexists.
  - assert (Ha : is_Some (receive rq t (ws_stats st))).
    { unfold receive. rewrite Er, Et. destruct (sw_left t); [lia|]. destruct x. by eexists. }
    destruct Ha as [[t' s] Ha]. exists (Receive i). split; [done|]. simpl. rewrite Hi. simpl. rewrite Ha. by eexists.
Qed.

Lemma write_returns rq answer : ∀ n st, write_budget st ≤ n → write_inv rq st →
  ∃ es st' r, Forall (ordinary answer) es ∧ write_run rq es st = Some st' ∧ ws_main st' = Returned r.
Proof.
  induction n as [|n IH]; intros st Hn Hi; (destruct (ws_main st) as [|k|r] eqn:Em; [..|by exists [], st, r]).
  all: destruct (write_progress rq answer st Hi) as (e & Ho & st1 & He); [intros r; by rewrite Em|].
  all: pose proof (write_step_budget _ _ _ _ He); try lia.
  all: destruct (IH st1) as (es & st' & r & Hes & Hrun & Hr); [lia|by eapply write_step_inv|].
  all: exists (e :: es), st', r; split_and!; [by constructor| |done]; simpl; rewrite He; exact Hrun.
Qed.

(** C37: [WritePoints] returns without help of the timers or of the end of the
    writer.  Whatever happens, a run has at most as many steps as [write_budget]
    says.  At every point of every run, as long as the request has not returned one
    of its own steps can be made (the answer to a call of an owner or of the hinted
    handoff, a result received by [writeToShard] or by [WritePoints], the offer to
    the subscriber); so when each call is answered, in whatever way, it returns, and
    for any answers there is a continuation of such steps alone at the end of which
    it has returned. *)
Theorem WritePoints_returns {W : Type} {meta : WriteMeta W} {order : WriteOrder} wp closed s (w w' : W) rq st0 es st
    (answer : nat → nat → option WriteError) :
  WritePoints wp closed s w = (w', Ok (rq, st0)) → write_run rq es st0 = Some st →
  length es ≤ write_budget st0 ∧
  ((∀ e, ordinary answer e → write_step rq e st = None) → ∃ r, ws_main st = Returned r) ∧
  (∃ es' st' r, Forall (ordinary answer) es' ∧ write_run rq es' st = Some st' ∧ ws_main st' = Returned r).
Proof.
  intros H0 Hrun. destruct (WritePoints_start _ _ _ _ _ _ _ H0) as (Hi0 & _). pose proof (write_run_inv _ _ _ _ Hi0 Hrun) as Hi.
  split_and!; [pose proof (write_run_budget _ _ _ _ Hrun); lia| |by eapply write_returns]. intros Hstop.
  destruct (ws_main st) as [|n|r] eqn:Em; [| |by exists r].
  all: destruct (write_progress rq answer st Hi) as (e & Ho & st' & He); [intros r; by rewrite Em|]; by rewrite (Hstop e Ho) in He.
Qed.

(** ** What a shard returns *)

(** Without time-outs and closing. *)
Definition undisturbed (i : nat) (e : Event) : Prop := match e with Timeout k | SeeClosing k => k ≠ i | _ => True end.

Record verdict_inv (rq : ShardRequest) (t : ShardWrite) : Prop := {
  vi_sent : ∀ o r, (o, r) ∈ sw_ch t → (o, Sent r) ∈ sw_owners t;
  vi_error : ∀ e, sw_error t = Some e → ∃ o, (o, Sent (Some e)) ∈ sw_owners t;
  vi_count : sw_error t = None → sw_wrote t + sw_left t = length (sw_owners t);
  vi_result : match sw_result t with
              | None => sw_wrote t = 0 ∨ sw_wrote t < required (rq_consistency rq) (length (si_Owners (sw_shard t)))
              | Some None => True
              | Some (Some e) => sw_left t = 0 ∧ e = verdict (sw_wrote t) (sw_error t) ∧
                  (sw_wrote t = 0 ∨ sw_wrote t < required (rq_consistency rq) (length (si_Owners (sw_shard t))))
              end
}.

Lemma next_round_verdict rq t s : sw_result t = None →
  (∀ o r, (o, r) ∈ sw_ch t → (o, Sent r) ∈ sw_owners t) → (∀ e, sw_error t = Some e → ∃ o, (o, Sent (Some e)) ∈ sw_owners t) →
  (sw_error t = None → sw_wrote t + sw_left t = length (sw_owners t)) →
  (sw_wrote t = 0 ∨ sw_wrote t < required (rq_consistency rq) (length (si_Owners (sw_shard t)))) → verdict_inv rq (next_round t s).1.
Proof.
  intros Hr H1 H2 H3 H4. destruct (next_round_facts t s) as (F1 & _ & F3 & F4 & F5 & F6 & F7 & F8).
  split; rewrite ?F1, ?F3, ?F4, ?F5, ?F6, ?F7; try done. destruct F8 as [[? ->]|[_ ->]]; [done|by rewrite Hr].
Qed.
Lemma start_verdict rq shard points s : verdict_inv rq (writeToShard rq shard points s).1.
Proof.
  unfold writeToShard. apply next_round_verdict; cbn [sw_result sw_ch sw_owners sw_error sw_wrote sw_left]; try done; [..|by left].
  - intros o r Hx. inversion Hx.
  - intros _. by rewrite length_fmap.
Qed.
Lemma answered_verdict rq j a t s t' s' c : verdict_inv rq t → answered rq j a t s = Some (t', s', c) → verdict_inv rq t'.
Proof.
  intros [H1 H2 H3 H4] H. unfold answered in H. destruct (sw_owners t !! j) as [[o p]|] eqn:Ej; [|done].
  destruct (pc_call _ _ _ _ p) as [call|] eqn:Ec; [|done]. injection H as H _ _.
  assert (Hkeep : ∀ o' r q, (o', Sent r) ∈ sw_owners t → (o', Sent r) ∈ <[j := (o, q)]> (sw_owners t)).
  { intros o' r q (k & Hk)%list_elem_of_lookup. apply list_elem_of_lookup. exists k. rewrite list_lookup_insert_ne; [done|].
    intros ->. simplify_eq. }
  assert (Hnew : ∀ q, (o, q) ∈ <[j := (o, q)]> (sw_owners t)).
  { intros q. apply list_elem_of_lookup. exists j. apply list_lookup_insert_eq. by eapply lookup_lt_Some. }
  destruct (pc_after rq p a) as [q|r]; subst t'; split; cbn [sw_ch sw_owners sw_error sw_wrote sw_left sw_result sw_shard]; rewrite ?length_insert; try done.
  - intros o' r Hin. by apply Hkeep, H1.
  - intros e He. destruct (H2 e He) as [o' Ho]. exists o'. by apply Hkeep.
  - intros o' r' [Hin|Hin]%elem_of_app; [by apply Hkeep, H1|]. apply list_elem_of_singleton in Hin. injection Hin as -> ->. apply Hnew.
  - intros e He. destruct (H2 e He) as [o' Ho]. exists o'. by apply Hkeep.
Qed.
Lemma receive_verdict rq t s t' s' : verdict_inv rq t → receive rq t s = Some (t', s') → verdict_inv rq t'.
Proof.
  intros [H1 H2 H3 H4] H. unfold receive in H. destruct (sw_result t) eqn:Er; [done|]. destruct (sw_left t) as [|n] eqn:El; [done|].
  destruct (sw_ch t) as [|[o err] ch] eqn:Ec; [done|]. injection H as H. apply (f_equal fst) in H. simpl in H. subst t'.
  assert (H1' : ∀ o r, (o, r) ∈ ch → (o, Sent r) ∈ sw_owners t) by (intros o' r' Hin; apply H1; by right).
  assert (Ho : (o, Sent err) ∈ sw_owners t) by (apply H1; left).
  destruct err as [e|].
  - apply next_round_verdict; cbn [sw_ch sw_owners sw_error sw_wrote sw_left sw_result sw_shard]; try done.
    + intros e' He'. destruct (sw_error t) as [e0|] eqn:E; simplify_eq; [by apply H2|by exists o].
    + by destruct (sw_error t).
  - destruct (_ <=? _) eqn:E; [split; cbn [fst return_ sw_ch sw_owners sw_error sw_wrote sw_left sw_result sw_shard]|
      apply next_round_verdict; cbn [sw_ch sw_owners sw_error sw_wrote sw_left sw_result sw_shard]]; try done.
    + intros He. specialize (H3 He). lia.
    + intros He. specialize (H3 He). lia.
    + apply Nat.leb_gt in E. lia.
Qed.

Lemma shard_step rq e st st' (P : ShardWrite → Prop) i :
  (∀ j a t s t' s' c, P t → answered rq j a t s = Some (t', s', c) → P t') → (∀ t s t' s', P t → receive rq t s = Some (t', s') → P t') →
  write_step rq e st = Some st' → undisturbed i e → (∀ t, ws_shards st !! i = Some t → P t) → ∀ t, ws_shards st' !! i = Some t → P t.
Proof.
  intros Ha Hr. assert (Hset : ∀ k t0 t1 s, ws_shards st !! k = Some t0 → (k = i → P t0 → P t1) → (∀ t, ws_shards st !! i = Some t → P t) →
    ∀ t, ws_shards (set_shard k t1 s st) !! i = Some t → P t).
  { intros k t0 t1 s Hk H1 H2 t Ht. apply list_lookup_insert_Some in Ht as [(-> & <- & _)|[_ Ht]]; [|by apply H2]. apply H1; [done|]. by apply H2. }
  destruct e as [k j a|k|k|k|acc| | |]; simpl; try (destruct (ws_shards st !! k) as [t0|] eqn:Hk; [simpl|done]).
  - destruct (answered _ _ _ _ _) as [[[t' s] c]|] eqn:E; [|done]. simpl. intros [= <-] _. apply (Hset k t0); [done|]. intros _ HP. by eapply Ha.
  - destruct (receive _ _ _) as [[t' s]|] eqn:E; [|done]. simpl. intros [= <-] _. apply (Hset k t0); [done|]. intros _ HP. by eapply Hr.
  - destruct (sw_result t0); [done|]. intros [= <-] Hne. apply (Hset k t0); [done|]. by intros ->.
  - destruct (sw_result t0); [done|]. destruct (ws_closed st); [|done]. intros [= <-] Hne. apply (Hset k t0); [done|]. by intros ->.
  - destruct (ws_main st); try done. by intros [= <-].
  - destruct (ws_main st) as [|[|n]|]; try done. destruct (ws_ch st); [done|]. by intros [= <-].
  - destruct (ws_main st); try done. destruct (ws_closed st); [|done]. by intros [= <-].
  - destruct (ws_closed st); [done|]. by intros [= <-].
Qed.
Lemma shard_run rq es st st' i : write_run rq es st = Some st' → Forall (undisturbed i) es →
  (∀ t, ws_shards st !! i = Some t → verdict_inv rq t) → ∀ t, ws_shards st' !! i = Some t → verdict_inv rq t.
Proof.
  revert st. induction es as [|e es IH]; intros st H Hes HP; [by simplify_eq/=|]. simpl in H. apply Forall_cons in Hes as [He Hes].
  destruct (write_step rq e st) as [st1|] eqn:E; [|done]. simpl in H. eapply IH; [exact H|done|].
  eapply shard_step; [..|exact E|done|done]; intros *; [apply answered_verdict|apply receive_verdict].
Qed.
Lemma write_shards_verdict rq mapping l : ∀ s ts s', write_shards rq mapping l s = Ok (ts, s') → Forall (verdict_inv rq) ts.
Proof.
  induction l as [|[id points] l IH]; intros s ts s' H; simpl in H; [by simplify_eq|].
  destruct (sm_Shards mapping !! id) as [shard|]; [|done]. pose proof (start_verdict rq shard points s) as F.
  destruct (writeToShard rq shard points s) as [t s1]. destruct (write_shards rq mapping l s1) as [[ts1 s2]| |] eqn:E; simplify_eq/=.
  constructor; [done|]. by eapply IH.
Qed.
Lemma WritePoints_verdict {W : Type} {meta : WriteMeta W} {order : WriteOrder} wp closed s (w w' : W) rq st :
  WritePoints wp closed s w = (w', Ok (rq, st)) → Forall (verdict_inv rq) (ws_shards st).
Proof.
  unfold WritePoints. intros H. destruct (default_policy wp w) as [w1 [wp1| |]]; [|done..]. destruct (MapShards wp1 w1) as [w2 [mapping| |]]; [|done..].
  injection H as -> H. destruct (write_shards _ _ _ _) as [[ts s']| |] eqn:Ew; simplify_eq/=. by eapply write_shards_verdict.
Qed.

(** C25: what the write of a shard returns is decided by what its owners answered,
    not by the order in which they did: without time-outs and closing, when every
    owner has answered, it succeeds exactly when enough owners acknowledged, is a
    partial write when some did and too few, and otherwise fails with the error of
    one of the owners. *)
Theorem shard_result_decided {W : Type} {meta : WriteMeta W} {order : WriteOrder} wp closed s (w w' : W) rq st0 es st i t r :
  WritePoints wp closed s w = (w', Ok (rq, st0)) → write_run rq es st0 = Some st → Forall (undisturbed i) es →
  ws_shards st !! i = Some t → si_Owners (sw_shard t) ≠ [] → count is_open (sw_owners t) = 0 → sw_result t = Some r →
  let acks := count is_ack (sw_owners t) in
  let need := required (wp_ConsistencyLevel wp) (length (si_Owners (sw_shard t))) in
  r = None ∧ need ≤ acks ∨
  r = Some ErrPartialWrite ∧ 0 < acks < need ∨
  acks = 0 ∧ ∃ o e, (o, Sent (Some e)) ∈ sw_owners t ∧ r = Some (ErrText ("write failed: " +:+ WriteError_Error e)).
Proof.
  intros H0 Hrun Hes Hi Ho Hopen Hr acks need. destruct (WritePoints_start _ _ _ _ _ _ _ H0) as (Hi0 & _ & Hc).
  destruct (write_run_inv _ _ _ _ Hi0 Hrun) as [H1 _ _ _]. pose proof (Forall_lookup_1 _ _ _ _ H1 Hi) as [S1 S2 S3 _ S5].
  assert (Hv : verdict_inv rq t).
  { eapply shard_run; [exact Hrun|exact Hes| |exact Hi]. intros t0 Ht0. eapply Forall_lookup_1; [by eapply WritePoints_verdict|exact Ht0]. }
  destruct Hv as [_ V2 V3 V4]. subst acks need. rewrite <- Hc. rewrite Hr in V4. destruct r as [e|].
  2:{ left. specialize (S5 Hr). split; [done|lia]. }
  destruct V4 as (Hl & -> & Hneed). assert (Hch : sw_ch t = []) by (destruct (sw_ch t); [done|simpl in S3; lia]). rewrite Hch in S2. simpl in S2.
  right. unfold verdict. destruct (sw_wrote t) as [|k] eqn:Ew.
  - right. split; [lia|]. destruct (sw_error t) as [e|]; [destruct (V2 e eq_refl) as [o ?]; by exists o, e|].
    exfalso. apply Ho. rewrite <- S1. specialize (V3 eq_refl). destruct (sw_owners t); [done|simpl in V3; lia].
  - left. simpl. split; [done|lia].
Qed.
