(* ===== verification/ClusterMap.v ===== *)
(** * Mapping points to shards: [MapShards] on the metastore

    What [MapShards] needs of the metastore is a class, the theorem is proved
    against it, and the leader of the metastore is shown to keep the promises. *)

From stdpp Require Import base list strings gmap.
From Stdlib Require Import ZArith Ascii Lia.
From S2P Require Import Prelude MetaData MetaInv MetaShards MetaCodec MetaStore MetaFsm MetaProps MetaClient MetaClientProps.
From S2P Require Import QlToken QlExpr QlSelect QlPrint QlNumber Rows Points ClusterWrite ClusterWriteProps.

Local Open Scope Z_scope.

(** ** What the metastore promises *)

(** [ready n w db policy d gs]: there is the policy, with shard groups of duration
    [d] of which [gs] are live, and room for [n] more. *)
Class MetaPromises (W : Type) {meta : WriteMeta W} := {
  ready : nat → W → string → string → Duration → list ShardGroupInfo → Prop;
  promise_policy : ∀ n w db policy d gs, ready n w db policy d gs →
    ∃ r, ms_RetentionPolicy db policy w = (w, Ok (Some r)) ∧ rpi_ShardGroupDuration r = d;
  promise_groups : ∀ n w db policy d gs g, ready n w db policy d gs → g ∈ gs →
    0 < d ∧ sgi_StartTime g mod d = 0 ∧ sgi_EndTime g = sgi_StartTime g + d ∧ sgi_Shards g ≠ [];
  promise_shards : ∀ n w db policy d gs g g' sh sh', ready n w db policy d gs → g ∈ gs → g' ∈ gs →
    sh ∈ sgi_Shards g → sh' ∈ sgi_Shards g' → si_ID sh = si_ID sh' → sh = sh';
  promise_create : ∀ n w db policy d gs t, ready (S n) w db policy d gs → is_i64 (t - unixEpoch) →
    ∃ w' g gs', ms_CreateShardGroupIfNotExists db policy t w = (w', Ok (Some g)) ∧ ready n w' db policy d gs' ∧
      gs ⊆ gs' ∧ g ∈ gs' ∧ ShardGroupInfo_Contains g t = true
}.

Section mapping.
Context {W : Type} {meta : WriteMeta W} {promises : MetaPromises W} {order : WriteOrder}.

Lemma create_groups_ok db policy d times : ∀ tr w gs, ready (length times) w db policy d gs →
  Forall (λ t, is_i64 (t - unixEpoch)) times → NoDup times →
  ∃ w' tr' gs', create_groups db policy times tr w = (w', Ok tr') ∧ ready 0 w' db policy d gs' ∧ gs ⊆ gs' ∧
    (∀ t, t ∈ times → ∃ g, tr' !! t = Some (Some g) ∧ g ∈ gs' ∧ ShardGroupInfo_Contains g t = true) ∧
    (∀ t, t ∉ times → tr' !! t = tr !! t).
Proof.
  induction times as [|t times IH]; intros tr w gs Hr Ht Hnd.
  { exists w, tr, gs. split_and!; try done. by intros t Hin%not_elem_of_nil. }
  apply Forall_cons in Ht as [Ht Hts]. apply NoDup_cons in Hnd as [Hnot Hnd]. cbn [create_groups length] in *.
  destruct (promise_create _ _ _ _ _ _ t Hr Ht) as (w1 & g & gs1 & -> & Hr1 & Hs1 & Hg & Hc).
  destruct (IH (<[t := Some g]> tr) w1 gs1 Hr1 Hts Hnd) as (w' & tr' & gs' & -> & Hr' & Hs' & Hin & Hout).
  exists w', tr', gs'. split_and!; [done|done|by etransitivity| |].
  - intros t' [->|Hin']%elem_of_cons; [|by apply Hin]. exists g. rewrite Hout by done. rewrite lookup_insert_eq. auto.
  - intros t' [Hne Hn]%not_elem_of_cons. rewrite Hout, lookup_insert_ne by done. done.
Qed.

Lemma required_times_dom d points t : is_Some (required_times d points !! t) ↔ t ∈ (λ p, Time_Truncate (p_time p) d) <$> points.
Proof.
  unfold required_times.
  assert (H : ∀ m : gmap Z (option ShardGroupInfo), is_Some (foldl (λ m p, <[Time_Truncate (p_time p) d:=None]> m) m points !! t) ↔
    is_Some (m !! t) ∨ t ∈ (λ p, Time_Truncate (p_time p) d) <$> points).
  { induction points as [|p points IH]; intros m; simpl; [set_solver|]. rewrite IH, lookup_insert_is_Some', elem_of_cons. split; naive_solver. }
  rewrite H. rewrite lookup_empty. split; [intros [[? ?]|]; done|by right].
Qed.

(** A point in the group of its cell. *)
Lemma cell_contains g d t : 0 < d → sgi_StartTime g mod d = 0 → sgi_EndTime g = sgi_StartTime g + d →
  ShardGroupInfo_Contains g (Time_Truncate t d) = true → ShardGroupInfo_Contains g t = true.
Proof.
  intros Hd Hs He [H1 H2]%Contains_spec. apply Contains_spec. rewrite He in *. pose proof (Time_Truncate_bounds t d Hd) as Hb.
  pose proof (Time_Truncate_aligned t d Hd) as Ha. assert (sgi_StartTime g = Time_Truncate t d); [|lia].
  apply (mod_inj_range _ _ d); lia.
Qed.

(** Where a point is put. *)
Definition placed (gs : list ShardGroupInfo) (p : point) (sh : ShardInfo) : Prop :=
  ∃ g, g ∈ gs ∧ ShardGroupInfo_Contains g (p_time p) = true ∧
    sgi_Shards g !! Z.to_nat (HashID p mod Z.of_nat (length (sgi_Shards g))) = Some sh.
Definition mapping_ok (gs : list ShardGroupInfo) (m : ShardMapping) : Prop :=
  (∀ id ps p, sm_Points m !! id = Some ps → p ∈ ps → ∃ sh, sm_Shards m !! id = Some sh ∧ si_ID sh = id ∧ placed gs p sh).

Lemma shard_for_ok d (tr : gmap Z (option ShardGroupInfo)) gs p g n w db policy : ready n w db policy d gs → g ∈ gs →
  tr !! Time_Truncate (p_time p) d = Some (Some g) → ShardGroupInfo_Contains g (Time_Truncate (p_time p) d) = true →
  ∃ sh, shard_for d tr p = Ok sh ∧ placed gs p sh.
Proof.
  intros Hr Hg Ht Hc. destruct (promise_groups _ _ _ _ _ _ g Hr Hg) as (Hd & Hs & He & Hne). unfold shard_for. rewrite Ht.
  unfold ShardGroupInfo_ShardFor. rewrite decide_False by done.
  destruct (lookup_lt_is_Some_2 (sgi_Shards g) (Z.to_nat (HashID p mod Z.of_nat (length (sgi_Shards g))))) as [sh Hsh].
  { assert (0 < Z.of_nat (length (sgi_Shards g))) by (destruct (sgi_Shards g); simpl; [done|lia]).
    pose proof (Z.mod_pos_bound (HashID p) (Z.of_nat (length (sgi_Shards g)))). lia. }
  rewrite Hsh. exists sh. split; [done|]. exists g. split_and!; [done|by eapply cell_contains|done].
Qed.

Lemma MapPoint_ok gs m sh p n w db policy d : ready n w db policy d gs → mapping_ok gs m → placed gs p sh → mapping_ok gs (MapPoint sh p m).
Proof.
  intros Hr Hm Hp id ps q. unfold MapPoint. cbn [sm_Points sm_Shards]. destruct (decide (id = si_ID sh)) as [->|Hne].
  2:{ rewrite !lookup_insert_ne by done. by apply Hm. }
  rewrite !lookup_insert_eq. intros [= <-] Hq. exists sh. split_and!; [done..|].
  destruct (sm_Points m !! si_ID sh) as [ps|] eqn:E; [|by apply list_elem_of_singleton in Hq as ->].
  apply elem_of_app in Hq as [Hq|Hq]; [|by apply list_elem_of_singleton in Hq as ->].
  destruct (Hm _ _ _ E Hq) as (sh' & _ & Hid & Hp'). assert (sh' = sh) as ->; [|done].
  destruct Hp as (g & Hg & _ & Hsh%list_elem_of_lookup_2). destruct Hp' as (g' & Hg' & _ & Hsh'%list_elem_of_lookup_2).
  by eapply (promise_shards _ _ _ _ _ _ g' g).
Qed.

Lemma map_points_ok d tr gs points n w db policy : ready n w db policy d gs →
  Forall (λ p, ∃ g, tr !! Time_Truncate (p_time p) d = Some (Some g) ∧ g ∈ gs ∧ ShardGroupInfo_Contains g (Time_Truncate (p_time p) d) = true) points →
  ∀ m, mapping_ok gs m → ∃ m', map_points d tr points m = Ok m' ∧ mapping_ok gs m'.
Proof.
  intros Hr. induction 1 as [|p points (g & Ht & Hg & Hc) _ IH]; intros m Hm; [by exists m|]. cbn [map_points].
  destruct (shard_for_ok d tr gs p g n w db policy Hr Hg Ht Hc) as (sh & -> & Hp). cbn [outcome_bind]. apply IH. by eapply MapPoint_ok.
Qed.

(** The times that groups are needed for. *)
Definition cells (d : Duration) (points : list point) : nat := size (required_times d points).

Lemma MapShards_ok wp w d gs : ready (cells d (wp_Points wp)) w (wp_Database wp) (wp_RetentionPolicy wp) d gs →
  Forall (λ p, is_i64 (Time_Truncate (p_time p) d - unixEpoch)) (wp_Points wp) →
  ∃ w' m gs', MapShards wp w = (w', Ok m) ∧ ready 0 w' (wp_Database wp) (wp_RetentionPolicy wp) d gs' ∧ gs ⊆ gs' ∧
    mapped m ≡ₚ wp_Points wp ∧ mapping_ok gs' m.
Proof.
  intros Hr Hp. destruct (promise_policy _ _ _ _ _ _ Hr) as (r & Hrp & Hd). unfold MapShards. rewrite Hrp, Hd.
  set (times := iter_times (required_times d (wp_Points wp))).
  assert (Hperm : times ≡ₚ (map_to_list (required_times d (wp_Points wp))).*1) by apply iter_times_perm.
  assert (Hin : ∀ t, t ∈ times ↔ t ∈ (λ p, Time_Truncate (p_time p) d) <$> wp_Points wp).
  { intros t. rewrite Hperm, <- required_times_dom, list_elem_of_fmap. split.
    - intros ([t' g] & -> & Hg%elem_of_map_to_list). by exists g.
    - intros [g Hg]. exists (t, g). split; [done|]. by apply elem_of_map_to_list. }
  destruct (create_groups_ok (wp_Database wp) (wp_RetentionPolicy wp) d times (required_times d (wp_Points wp)) w gs)
    as (w' & tr & gs' & -> & Hr' & Hs & Htr & _).
  - rewrite Hperm, length_fmap. unfold cells in Hr. by rewrite length_map_to_list.
  - apply Forall_forall. intros t (p & -> & Hin')%Hin%list_elem_of_fmap. rewrite Forall_forall in Hp. by apply Hp.
  - rewrite Hperm. apply NoDup_fst_map_to_list.
  - destruct (map_points_ok d tr gs' (wp_Points wp) 0 w' (wp_Database wp) (wp_RetentionPolicy wp) Hr') with (m := NewShardMapping) as (m & Hm & Hok).
    + apply Forall_forall. intros p Hp'. apply Htr, Hin. apply list_elem_of_fmap. by exists p.
    + intros id ps q Hl. change ((∅ : gmap Z (list point)) !! id = Some ps) in Hl. by rewrite lookup_empty in Hl.
    + exists w', m, gs'. rewrite Hm. split_and!; try done. destruct (map_points_mapped d tr (wp_Points wp) NewShardMapping m Hm eq_refl) as [-> _].
      unfold mapped. simpl. by rewrite map_to_list_empty, app_nil_r.
Qed.
End mapping.

(** ** The leader of the metastore *)

Section leader.
Context {GS : GoSort} {bytes : Type} {PB : Protobuf bytes}.

#[export] Instance world_meta : WriteMeta World := {|
  ms_NodeID := λ w, st_id (w_store w);
  ms_Database := Store_Database;
  ms_RetentionPolicy := Store_RetentionPolicy;
  ms_CreateShardGroupIfNotExists := Store_CreateShardGroupIfNotExists
|}.

(** Room for [n] shard groups below [2^64]. *)
Definition room_for (n : nat) (d : Data) : Prop :=
  MaxNodeID d + 1 < 2 ^ 64 ∧ MaxShardGroupID d + Z.of_nat n < 2 ^ 64 ∧
  MaxShardID d + Z.of_nat n * Z.of_nat (length (Nodes d)) < 2 ^ 64.
Lemma room_for_room n d : room_for (S n) d → has_room d.
Proof. unfold room_for, has_room. intros (? & ? & ?). split_and!; nia. Qed.
Lemma room_for_less n d : room_for (S n) d → room_for n d.
Proof. unfold room_for. intros (? & ? & ?). split_and!; nia. Qed.

Record world_ready (n : nat) (w : World) (db policy : string) (d : Duration) (gs : list ShardGroupInfo) : Prop := {
  wr_leader : leader_world w;
  wr_wf : Data_wf (w_data w);
  wr_room : room_for n (w_data w);
  wr_nodes : Nodes (w_data w) ≠ [];
  wr_policy : ∃ p r, Data_MustRetentionPolicy (w_data w) db policy = Ok (p, r) ∧ 0 ≤ rpi_ReplicaN r ∧
    rpi_ShardGroupDuration r = d ∧ tiled r ∧ gs ≡ₚ filter live (rpi_ShardGroups r);
  wr_shards : Forall (λ g, sgi_Shards g ≠ []) gs
}.

Lemma new_group_shards d r ts g : new_group_spec d r ts g → Nodes d ≠ [] → 0 ≤ rpi_ReplicaN r → sgi_Shards g ≠ [].
Proof.
  intros Hg Hn Hr E. pose proof (ng_count _ _ _ _ Hg) as Hc. rewrite E in Hc. simpl in Hc.
  destruct (shard_count_bounds (rpi_ReplicaN r) (Z.of_nat (length (Nodes d))) Hr) as [H1 H2]; [destruct (Nodes d); simpl; [done|lia]|]. lia.
Qed.

Lemma world_create n w db policy d gs t : world_ready (S n) w db policy d gs → is_i64 (t - unixEpoch) →
  ∃ w' g gs', Store_CreateShardGroupIfNotExists db policy t w = (w', Ok (Some g)) ∧ world_ready n w' db policy d gs' ∧
    gs ⊆ gs' ∧ g ∈ gs' ∧ ShardGroupInfo_Contains g t = true.
Proof.
  intros [Hw Hwf Hroom Hn (p & r & Hrp & Hr & Hd & Ht & Hgs) Hsh] Hi. assert (0 < d) by (rewrite <- Hd; apply Ht).
  destruct (RetentionPolicyInfo_ShardGroupByTimestamp r t) as [[k g]|] eqn:Hfind.
  - destruct (ByTimestamp_facts r t k g Hfind) as [Hc Hdel].
    exists w, g, gs. split_and!; [| |done| |done].
    + apply (IfNotExists_found w db policy t k g); [done| |done]. unfold Data_ShardGroupByTimestamp. rewrite Hrp. simpl. by rewrite Hfind.
    + split; try done; [by apply room_for_less|]. by exists p, r.
    + rewrite Hgs. apply list_elem_of_filter. split; [done|]. unfold RetentionPolicyInfo_ShardGroupByTimestamp in Hfind.
      apply list_find_Some in Hfind as (Hk & _). by eapply list_elem_of_lookup_2.
  - destruct (IfNotExists_creates w db policy t p r) as (w' & d' & g & k & Hc & Hw' & Hd' & Hdata & Hg & E & Hfound);
      try done; [by eapply room_for_room|lia|]. pose proof (CreateShardGroup_grows _ _ _ _ _ Hwf (room_for_room _ _ Hroom) Hd') as [G1 G2 G3 G4].
    assert (HNodes : Nodes d' = Nodes (w_data w)) by (by rewrite E).
    exists w', g, (g :: gs). split_and!; [done| |set_solver|by left|eapply new_group_contains; [|done]; lia].
    split; rewrite ?Hdata; try done.
    + apply set_TermIndex_wf. eapply Data_CreateShardGroup_wf; [done| |done]. by eapply room_for_room.
    + unfold room_for in *. change (Nodes (set_TermIndex ?a ?b ?d)) with (Nodes d). simpl. rewrite HNodes.
      assert (MaxNodeID d' = MaxNodeID (w_data w)) as -> by (by rewrite E). destruct Hroom as (? & ? & ?). split_and!; nia.
    + simpl. by rewrite HNodes.
    + exists p, (insert_group g r). rewrite set_TermIndex_MustRetentionPolicy, E. split_and!; try done.
      * by rewrite (Data_MustRetentionPolicy_at_rp _ _ _ p r).
      * by eapply tiled_insert.
      * rewrite insert_group_perm, filter_cons_True by (by eapply new_group_live). by rewrite Hgs.
    + constructor; [|done]. by eapply new_group_shards.
Qed.

Lemma NoDup_fmap_inj {A B} (f : A → B) l x y : NoDup (f <$> l) → x ∈ l → y ∈ l → f x = f y → x = y.
Proof.
  intros Hnd (i & Hi)%list_elem_of_lookup (j & Hj)%list_elem_of_lookup E.
  assert (i = j) as ->; [|congruence]. eapply NoDup_lookup; [exact Hnd|..]; rewrite list_lookup_fmap; [by rewrite Hi|by rewrite Hj, E].
Qed.
Lemma world_groups n w db policy d gs g : world_ready n w db policy d gs → g ∈ gs →
  g ∈ all_groups (w_data w) ∧ 0 < d ∧ sgi_StartTime g mod d = 0 ∧ sgi_EndTime g = sgi_StartTime g + d ∧ sgi_Shards g ≠ [].
Proof.
  intros [_ _ _ _ (p & r & Hrp & _ & <- & (HD & Hal & _) & Hgs) Hsh] Hg. rewrite Forall_forall in Hsh. specialize (Hsh g Hg). rewrite Hgs in Hg.
  rewrite Forall_forall in Hal. destruct (Hal g Hg) as [Ha He]. split_and!; try done.
  apply list_elem_of_filter in Hg as [_ Hg]. apply Data_MustRetentionPolicy_Ok in Hrp as [Hp _].
  destruct (all_groups_at_rp _ _ _ Hp) as (rest & -> & _). set_solver.
Qed.

#[export] Instance world_promises : MetaPromises World.
Proof.
  refine {| ready := world_ready |}.
  - intros n w db policy d gs [Hw _ _ _ (p & r & Hrp & _ & Hd & _) _]. exists r. split; [|done].
    unfold Data_MustRetentionPolicy in Hrp. destruct (Data_RetentionPolicy (w_data w) db policy) as [[[p' r']|]| |] eqn:E; simplify_eq/=.
    exact (RetentionPolicy_leader w db policy _ Hw E).
  - intros n w db policy d gs g Hr Hg. by apply (world_groups n w db policy d gs g Hr Hg).
  - intros n w db policy d gs g g' sh sh' Hr Hg Hg' Hsh Hsh' E. pose proof (wf_groups _ (wr_wf _ _ _ _ _ _ Hr)) as [_ _ Hnd _].
    eapply NoDup_fmap_inj; [exact Hnd|..|exact E]; apply list_elem_of_bind; [exists g|exists g'];
      (split; [done|]); by eapply world_groups.
  - apply world_create.
Defined.
End leader.

(** C27: [MapShards] on a leader whose calls on Raft succeed.  Let the metadata be
    well-formed, with at least one node and with counters that leave room for the
    groups the request needs; let the policy exist with a replication factor that is
    not negative and a positive duration, and let its live groups each have a shard and tile the time in
    cells of its present shard-group duration ([tiled]: the duration has not been
    changed since the groups were made); and let the start of each point's cell be
    [int64] nanoseconds.  Then [MapShards] succeeds: it maps every point to one
    shard, the one that its hash selects among the shards of a live group which
    covers its time, and creates the groups that are missing without touching the
    others; and the policy is as required for the next request.  (When the duration
    was raised a point may go to a group that ended before it:
    [point_in_ended_group].) *)
Theorem MapShards_correct {GS : GoSort} {bytes : Type} {PB : Protobuf bytes} {order : WriteOrder}
    (wp : WritePointsRequest) (w : World) (d : Duration) (gs : list ShardGroupInfo) :
  world_ready (cells d (wp_Points wp)) w (wp_Database wp) (wp_RetentionPolicy wp) d gs →
  Forall (λ p, is_i64 (Time_Truncate (p_time p) d - unixEpoch)) (wp_Points wp) →
  ∃ w' m gs', MapShards (meta := world_meta) wp w = (w', Ok m) ∧ world_ready 0 w' (wp_Database wp) (wp_RetentionPolicy wp) d gs' ∧ gs ⊆ gs' ∧
    concat (map_to_list (sm_Points m)).*2 ≡ₚ wp_Points wp ∧
    ∀ id ps p, sm_Points m !! id = Some ps → p ∈ ps →
      ∃ sh g, sm_Shards m !! id = Some sh ∧ si_ID sh = id ∧ g ∈ gs' ∧ ShardGroupInfo_Contains g (p_time p) = true ∧
        sgi_Shards g !! Z.to_nat (HashID p mod Z.of_nat (length (sgi_Shards g))) = Some sh.
Proof.
  intros Hr Hp. destruct (MapShards_ok (meta := world_meta) (promises := world_promises) wp w d gs Hr Hp) as (w' & m & gs' & Hm & Hr' & Hs & Hmap & Hok). exists w', m, gs'. split_and!; try done.
  intros id ps p Hps Hin. destruct (Hok id ps p Hps Hin) as (sh & Hsh & Hid & g & Hg & Hc & Hl). by exists sh, g.
Qed.

(** ** A concrete request *)

Definition sample_order : WriteOrder.
Proof. refine {| iter_times := λ m, (map_to_list m).*1; iter_shards := map_to_list |}; done. Defined.
#[local] Instance local_order : WriteOrder := sample_order.
Definition demo_point (name : string) (t : Time) : point :=
  mkPoint t (mkSlice (of_string name) []) (mkSlice (of_string "v=1") []) empty_slice [] None EmptyString.
Definition demo_request : WritePointsRequest :=
  mkWritePointsRequest "db" "two" ConsistencyLevelQuorum
    [demo_point "cpu" (unixEpoch + 5); demo_point "mem" (unixEpoch + 7); demo_point "cpu" (unixEpoch + 30 * Hour)].

Lemma demo_ready : world_ready 2 demo_world "db" "two" (24 * Hour) [].
Proof.
  split.
  - split; reflexivity.
  - apply demo_inv.
  - vm_compute. auto.
  - vm_compute. congruence.
  - exists (0%nat, 1%nat), (mkRetentionPolicyInfo "two" 2 (30 * 24 * Hour) (24 * Hour) [] []).
    split_and!; [vm_compute; reflexivity|simpl; lia|reflexivity| |constructor]. split_and!; [reflexivity|constructor|constructor].
  - constructor.
Qed.

Lemma MapShards_correct_witness :
  ∃ w' m gs', MapShards (meta := world_meta) demo_request demo_world = (w', Ok m) ∧ world_ready 0 w' "db" "two" (24 * Hour) gs' ∧
    concat (map_to_list (sm_Points m)).*2 ≡ₚ wp_Points demo_request.
Proof.
  destruct (MapShards_correct demo_request demo_world (24 * Hour) []) as (w' & m & gs' & H1 & H2 & _ & H3 & _).
  - apply demo_ready.
  - repeat constructor; vm_compute; congruence.
  - exists w', m, gs'. auto.
Defined.

(** All owners answer. *)
Definition demo_events : list Event :=
  [Answer 1 1 None; Subscribe true; Answer 0 0 None; Receive 1; Answer 0 1 None; Receive 0; Answer 1 0 None; Receive 0; MainReceive;
   Receive 1; MainReceive].
Definition demo_run : option (ShardRequest * WriteState * WriteState) :=
  match (WritePoints (meta := world_meta) demo_request false ∅ demo_world).2 with
  | Ok (rq, st0) => st ← write_run rq demo_events st0; Some (rq, st0, st)
  | _ => None
  end.
(** The first shard when the run ends: it has owners, all have answered, and it has
    returned. *)
Definition first_shard_done (st : WriteState) : bool :=
  match ws_shards st !! 0%nat with
  | Some t => negb (bool_decide (length (si_Owners (sw_shard t)) = 0%nat)) && bool_decide (count is_open (sw_owners t) = 0%nat) &&
      match sw_result t with Some _ => true | None => false end
  | None => false
  end.
Lemma demo_run_returns : (λ x, (ws_main x.2, first_shard_done x.2)) <$> demo_run = Some (Returned None, true).
Proof. vm_compute. reflexivity. Qed.
Lemma demo_run_facts : ∃ w' rq st0 st, WritePoints (meta := world_meta) demo_request false ∅ demo_world = (w', Ok (rq, st0)) ∧
  write_run rq demo_events st0 = Some st ∧ ws_main st = Returned None ∧ first_shard_done st = true.
Proof.
  pose proof demo_run_returns as H. unfold demo_run in H. destruct (WritePoints _ _ _ _) as [w' [[rq st0]| |]]; [|done..]. cbn [snd] in H.
  destruct (write_run rq demo_events st0) as [st|] eqn:E; [|done]. simpl in H. injection H as H1 H2. by exists w', rq, st0, st.
Qed.

Lemma WritePoints_acknowledged_witness : ∃ st, ws_main st = Returned None ∧ concat (sw_points <$> ws_shards st) ≡ₚ wp_Points demo_request ∧
  ∀ i t, ws_shards st !! i = Some t → ∃ js : list nat, NoDup js ∧ (required ConsistencyLevelQuorum (length (si_Owners (sw_shard t))) ≤ length js)%nat.
Proof.
  destruct demo_run_facts as (w' & rq & st0 & st & H1 & H2 & H3 & _). exists st. split; [exact H3|].
  destruct (WritePoints_acknowledged demo_request false ∅ demo_world w' rq st0 demo_events st H1 H2 H3) as [H4 H5]. split; [exact H4|].
  intros i t Hi. destruct (H5 i t Hi) as (js & Hnd & Hle & _). exists js. exact (conj Hnd Hle).
Defined.
Lemma WritePoints_returns_witness : ∃ rq st0 st, write_run rq (take 2 demo_events) st0 = Some st ∧ (2 ≤ write_budget st0)%nat ∧
  ∃ es' st' r, Forall (ordinary (λ _ _, Some ErrTimeout)) es' ∧ write_run rq es' st = Some st' ∧ ws_main st' = Returned r.
Proof.
  destruct demo_run_facts as (w' & rq & st0 & st & H1 & H2 & _). rewrite <- (take_drop 2 demo_events), write_run_app in H2.
  destruct (write_run rq (take 2 demo_events) st0) as [st2|] eqn:E; [|discriminate H2]. exists rq, st0, st2.
  destruct (WritePoints_returns demo_request false ∅ demo_world w' rq st0 (take 2 demo_events) st2 (λ _ _, Some ErrTimeout) H1 E) as (H3 & _ & H5).
  split_and!; [exact E|exact H3|exact H5].
Defined.
Lemma shard_result_decided_witness : ∃ st t r, ws_shards st !! 0%nat = Some t ∧ sw_result t = Some r ∧
  (r = None ∧ (required ConsistencyLevelQuorum (length (si_Owners (sw_shard t))) ≤ count is_ack (sw_owners t))%nat ∨
   r = Some ErrPartialWrite ∧ (0 < count is_ack (sw_owners t) < required ConsistencyLevelQuorum (length (si_Owners (sw_shard t))))%nat ∨
   count is_ack (sw_owners t) = 0%nat ∧ ∃ o e, (o, Sent (Some e)) ∈ sw_owners t ∧ r = Some (ErrText ("write failed: " +:+ WriteError_Error e))).
Proof.
  destruct demo_run_facts as (w' & rq & st0 & st & H1 & H2 & _ & H4). unfold first_shard_done in H4. destruct (ws_shards st !! 0%nat) as [t|] eqn:Ht; [|discriminate H4].
  apply andb_true_iff in H4 as [H4 H5]. apply andb_true_iff in H4 as [H3 H4]. apply negb_true_iff, bool_decide_eq_false in H3. apply bool_decide_eq_true in H4.
  destruct (sw_result t) as [r|] eqn:Er; [|discriminate H5]. exists st, t, r. split_and!; [exact Ht|exact Er|].
  apply (shard_result_decided demo_request false ∅ demo_world w' rq st0 demo_events st 0 t r H1 H2); [repeat constructor|exact Ht| |exact H4|exact Er].
  intros E. rewrite E in H3. exact (H3 eq_refl).
Defined.

(** ** A change of the duration of a policy *)

(** When the duration of the groups of a policy was raised, the group that is found
    for the start of a longer cell need not cover the point: the point is written
    to a shard of a group which ended before it. *)
Definition week : Duration := 7 * 24 * Hour.
Definition monday : Time := Time_Truncate unixEpoch week.
Definition altered_world : World :=
  let w := (Store_CreateShardGroupIfNotExists "db" "two" monday demo_world).1 in
  (Store_UpdateRetentionPolicy "db" "two" (mkRetentionPolicyUpdate None (Some (365 * 24 * Hour)) None) w).1.
Example point_in_ended_group :
  ∃ w' m sh g, MapShards (meta := world_meta) (mkWritePointsRequest "db" "two" ConsistencyLevelAny [demo_point "cpu" (monday + 3 * 24 * Hour)]) altered_world = (w', Ok m) ∧
    snd <$> map_to_list (sm_Shards m) = [sh] ∧ g ∈ all_groups (w_data w') ∧ sh ∈ sgi_Shards g ∧ sgi_EndTime g < monday + 3 * 24 * Hour.
Proof.
  do 4 eexists. split; [vm_compute; reflexivity|]. split; [vm_compute; reflexivity|]. split; [vm_compute; right; left|]. split; [vm_compute; left|]. vm_compute. reflexivity.
Qed.
