(* ===== verification/HttpQuery.v ===== *)
(** * The query endpoint: [services/httpd/handler.go]

    [authenticate] and [serveQuery]: a request is authenticated, its text is
    parsed, the query is authorized and executed, and the results are put together
    for the response.  The text of the query and the credentials are those of the
    request, after [strings.TrimSpace] and [parseCredentials]; the response is the
    list of results that is encoded as JSON. *)

From stdpp Require Import base list strings gmap sorting.
From Stdlib Require Import ZArith Ascii Lia SpecFloat.
From S2P Require Import Prelude MetaData MetaCodec MetaStore MetaClient QlToken QlExpr QlSelect QlPrint QlDuration QlNumber QlStmt QlParse QlParseStmt.
From S2P Require Import TsdbMerge TsdbIndex TsdbWhere TsdbTags Rows MetaStmt TsdbShow TsdbQuery TsdbQueryProps.

Local Open Scope Z_scope.

(** ** Results *)

Definition epoch_divisor (epoch : string) : Z :=
  if bool_decide (epoch = "u") then Microsecond
  else if bool_decide (epoch = "ms") then Millisecond
  else if bool_decide (epoch = "s") then Second
  else if bool_decide (epoch = "m") then Minute
  else if bool_decide (epoch = "h") then Hour
  else 1.
(** A row of no values has no first one. *)
Definition convert_value (divisor : Z) (v : list Cell) : outcome GoError (list Cell) :=
  match v with
  | [] => Panic
  | CellValue (VTime ts) :: v => Ok (CellValue (VInt (Z.quot (Time_UnixNano ts) divisor)) :: v)
  | v => Ok v
  end.
Fixpoint outcome_all {A B E} (f : A → outcome E B) (l : list A) : outcome E (list B) :=
  match l with
  | [] => Ok []
  | a :: l => let! b := f a in let! l := outcome_all f l in Ok (b :: l)
  end.
Definition convertToEpoch (r : Result) (epoch : string) : outcome GoError Result :=
  let! series := outcome_all (λ s,
    let! values := outcome_all (convert_value (epoch_divisor epoch)) (Row_Values s) in Ok (set_Row_Values s values))
    (Result_Series r) in
  Ok (mkResult (StatementID r) series (Result_Err r)).

(** The rows at the start of [rows] that are of the series of [last] go into it. *)
Fixpoint merge_rows (last : Row) (rows : list Row) : Row * list Row :=
  match rows with
  | [] => (last, [])
  | r :: rows =>
      if SameSeries last r then merge_rows (set_Row_Values last (Row_Values last ++ Row_Values r)) rows
      else (last, r :: rows)
  end.
(** The results so far, the last one first.  The last row of a result that is
    added to is looked at whether or not there is one. *)
Definition add_result (acc : list Result) (r : Result) : outcome GoError (list Result) :=
  match acc with
  | [] => Ok [r]
  | cr :: acc' =>
      if StatementID cr =? StatementID r then
        match rev (Result_Series cr) with
        | [] => Panic
        | last :: before =>
            let '(last, rest) := merge_rows last (Result_Series r) in
            Ok (mkResult (StatementID cr) (rev before ++ last :: rest) (Result_Err cr) :: acc')
        end
      else Ok (r :: cr :: acc')
  end.
Fixpoint merge_results (epoch : string) (results acc : list Result) : outcome GoError (list Result) :=
  match results with
  | [] => Ok (rev acc)
  | r :: results =>
      let! r := if bool_decide (epoch = EmptyString) then Ok r else convertToEpoch r epoch in
      let! acc := add_result acc r in
      merge_results epoch results acc
  end.
(** In chunks, each result is a response of its own. *)
Definition chunk_results (epoch : string) (results : list Result) : outcome GoError (list Result) :=
  outcome_all (λ r, if bool_decide (epoch = EmptyString) then Ok r else convertToEpoch r epoch) results.

(** ** Requests *)

Inductive Response :=
| BadRequest (message : string)
| Unauthorized (message : string)
| InternalError (message : string)
| Results (l : list Result).

Record Request := mkRequest {
  rq_credentials : option (string * string);
  rq_q : string;
  rq_db : string;
  rq_epoch : string;
  rq_chunked : bool;
  rq_chunkSize : Z
}.

Section handler.
Context {GS : GoSort} {bytes : Type} {PB : Protobuf bytes} {CR : Crypto}.
Context {goText : GoText} {goTime : GoTime} {raftInfo : RaftInfo} {regexp : Regexp}.
Context {backend : Backend} {runner : Runner}.
Context (auto requireAuthentication : bool).

Definition parse_message (e : parse_err) : string :=
  match e with
  | PError e => ParseError_Error e
  | SError e => SelectError_Error e
  | OError s => s
  | OutOfFuel => EmptyString
  end.

Definition serveQuery (r : Request) (user : option UserInfo) : QM Response :=
  if bool_decide (rq_q r = EmptyString) then mret (BadRequest ("missing required parameter " +:+ in_quotes "q"))
  else
    match ParseQuery_text (rq_q r) with
    | Err e => mret (BadRequest ("error parsing query: " +:+ parse_message e))
    | Panic => st_panic
    | Ok query =>
        refused ← (if requireAuthentication then of_meta (Authorize user query (rq_db r)) else mret None);
        match refused with
        | Some e => mret (Unauthorized ("error authorizing query: " +:+ ErrAuthorize_Error e))
        | None =>
            results ← ExecuteQuery auto query (rq_db r) (rq_chunkSize r);
            l ← of_outcome (if rq_chunked r then chunk_results (rq_epoch r) results else merge_results (rq_epoch r) results []);
            mret (Results l)
        end
    end.

(** [authenticate] around a handler.  Nobody is asked for credentials while
    there are no users. *)
Definition authenticate (inner : option UserInfo → QM Response) (r : Request) : QM Response :=
  if negb requireAuthentication then inner None
  else
    uis ← of_meta (M_try Store_Users);
    match uis with
    | inr e => mret (InternalError (GoError_Error e))
    | inl [] => inner None
    | inl _ =>
        match rq_credentials r with
        | None => mret (Unauthorized "unable to parse Basic Auth credentials")
        | Some (username, password) =>
            if bool_decide (username = EmptyString) then mret (Unauthorized "username required")
            else
              user ← of_meta (M_try (Store_Authenticate username password));
              match user with
              | inr e => mret (Unauthorized (GoError_Error e))
              | inl user => inner user
              end
        end
    end.
Definition handle_query (r : Request) : QM Response := authenticate (serveQuery r) r.
End handler.
