(* ===== verification/HttpProps.v ===== *)
(** * Theorems about the query endpoint *)

From stdpp Require Import base list strings gmap sorting.
From Stdlib Require Import ZArith Ascii Lia SpecFloat.
From S2P Require Import Prelude MetaData MetaCodec MetaStore MetaProps MetaClient MetaClientProps QlToken QlExpr QlSelect QlPrint QlDuration QlNumber QlStmt QlParse QlParseStmt.
From S2P Require Import Points ClusterWrite ClusterMap.
From S2P Require Import TsdbMerge TsdbIndex TsdbWhere TsdbTags Rows MetaStmt TsdbShow TsdbQuery TsdbQueryProps HttpQuery.

Local Open Scope Z_scope.

(** ** Merging results *)

(** Every value of some results with the statement, the name of the series and the
    hash of its tags (by which [SameSeries] knows it). *)
Definition row_labels (i : Z) (r : Row) : list (Z * string * Z * list Cell) := (λ v, (i, Row_Name r, tagsHash r, v)) <$> Row_Values r.
Definition result_labels (r : Result) : list (Z * string * Z * list Cell) := Result_Series r ≫= row_labels (StatementID r).
Definition labelled (l : list Result) : list (Z * string * Z * list Cell) := l ≫= result_labels.

Lemma merge_rows_labels i last rows :
  row_labels i (merge_rows last rows).1 ++ ((merge_rows last rows).2 ≫= row_labels i) = row_labels i last ++ (rows ≫= row_labels i).
Proof.
  revert last. induction rows as [|r rows IH]; intros last; [done|]. cbn [merge_rows]. rewrite bind_cons.
  destruct (SameSeries last r) eqn:E; [|done]. apply andb_prop in E as [Eh En]. apply Z.eqb_eq in Eh. apply bool_decide_eq_true in En.
  rewrite IH, app_assoc. f_equal. unfold row_labels. simpl. rewrite fmap_app. f_equal.
  change (tagsHash (set_Row_Values last (Row_Values last ++ Row_Values r))) with (tagsHash last). by rewrite Eh, En.
Qed.
Lemma add_result_labels acc r acc' :
  add_result acc r = Ok acc' → labelled (rev acc') = labelled (rev acc ++ [r]).
Proof.
  unfold add_result, labelled. destruct acc as [|cr acc]; [by intros [= <-]|].
  destruct (Z.eqb_spec (StatementID cr) (StatementID r)) as [Ei|]; [|intros [= <-]; simpl; done].
  destruct (rev (Result_Series cr)) as [|last before] eqn:E; [done|].
  pose proof (merge_rows_labels (StatementID cr) last (Result_Series r)) as Hm. destruct (merge_rows last (Result_Series r)) as [last' rest].
  intros [= <-]. simpl in *. apply (f_equal (@rev Row)) in E. rewrite rev_involutive in E. simpl in E.
  rewrite !bind_app, !bind_singleton, <- app_assoc. f_equal. unfold result_labels. cbn [Result_Series StatementID].
  rewrite E, !bind_app, bind_cons, bind_singleton, <- Ei, Hm, app_assoc. done.
Qed.
Lemma merge_results_labels results acc l :
  merge_results EmptyString results acc = Ok l → labelled l = labelled (rev acc ++ results).
Proof.
  revert acc. induction results as [|r results IH]; intros acc; cbn [merge_results].
  { intros [= <-]. by rewrite app_nil_r. }
  simpl. destruct (add_result acc r) as [acc'| |] eqn:E; [|done..]. simpl. intros H. rewrite (IH _ H).
  unfold labelled in *. rewrite !bind_app, bind_cons, app_assoc. f_equal.
  apply add_result_labels in E. unfold labelled in E. rewrite E, bind_app, bind_singleton. done.
Qed.

(** The statement and the error of the first result of each run of results for one
    statement. *)
Definition result_head (r : Result) : Z * option GoError := (StatementID r, Result_Err r).
Fixpoint first_of_runs (prev : option Z) (l : list Result) : list (Z * option GoError) :=
  match l with
  | [] => []
  | r :: l => (if bool_decide (prev = Some (StatementID r)) then [] else [result_head r]) ++ first_of_runs (Some (StatementID r)) l
  end.
Lemma merge_results_heads results acc l : merge_results EmptyString results acc = Ok l →
  result_head <$> l = (result_head <$> rev acc) ++ first_of_runs (StatementID <$> head acc) results.
Proof.
  revert acc. induction results as [|r results IH]; intros acc; cbn [merge_results first_of_runs].
  { intros [= <-]. by rewrite app_nil_r. }
  simpl. destruct acc as [|cr acc]; simpl; [apply IH|].
  destruct (Z.eqb_spec (StatementID cr) (StatementID r)) as [Ei|Hi]; simpl.
  - rewrite bool_decide_true by congruence. destruct (rev (Result_Series cr)) as [|last before]; [done|].
    destruct (merge_rows last (Result_Series r)) as [last' rest]. simpl. intros H. rewrite (IH _ H). cbn [rev]. rewrite !fmap_app. unfold result_head. simpl. by rewrite Ei.
  - rewrite bool_decide_false by congruence. intros H. rewrite (IH _ H). simpl. by rewrite !fmap_app, <- !app_assoc.
Qed.

(** Conversion to an epoch: the first cell of each value, and a panic where there
    is none. *)
Definition in_epoch (epoch : string) (v : list Cell) : list Cell :=
  if bool_decide (epoch = EmptyString) then v
  else match v with
       | CellValue (VTime ts) :: v => CellValue (VInt (Z.quot (Time_UnixNano ts) (epoch_divisor epoch))) :: v
       | v => v
       end.
Definition has_cells (v : list Cell) : bool := match v with [] => false | _ => true end.
Definition convertible (epoch : string) (results : list Result) : bool :=
  bool_decide (epoch = EmptyString) || forallb (λ r, forallb (λ s, forallb has_cells (Row_Values s)) (Result_Series r)) results.
Definition row_in_epoch (epoch : string) (r : Row) : Row := set_Row_Values r (in_epoch epoch <$> Row_Values r).
Definition result_in_epoch (epoch : string) (r : Result) : Result :=
  mkResult (StatementID r) (row_in_epoch epoch <$> Result_Series r) (Result_Err r).

Lemma outcome_all_if {A B E} (f : A → outcome E B) (p : A → bool) (g : A → B) l :
  (∀ a, f a = if p a then Ok (g a) else Panic) → outcome_all f l = if forallb p l then Ok (g <$> l) else Panic.
Proof.
  intros H. induction l as [|a l IH]; [done|]. cbn [outcome_all forallb]. rewrite H, IH. destruct (p a); [|done]. simpl.
  by destruct (forallb p l).
Qed.
Lemma row_in_epoch_id r : row_in_epoch EmptyString r = r.
Proof. destruct r. unfold row_in_epoch, set_Row_Values. simpl. f_equal. apply list_fmap_id. Qed.
Lemma chunk_results_if epoch results :
  chunk_results epoch results = if convertible epoch results then Ok (result_in_epoch epoch <$> results) else Panic.
Proof.
  unfold chunk_results, convertible. destruct (decide (epoch = EmptyString)) as [->|He].
  - rewrite (outcome_all_if _ (λ _, true) (result_in_epoch EmptyString)).
    + assert (forallb (λ _, true) results = true) as -> by (by induction results). done.
    + intros []. unfold result_in_epoch. simpl. do 2 f_equal. rewrite <- (list_fmap_id Result_Series) at 1.
      apply list_fmap_ext. intros. symmetry. apply row_in_epoch_id.
  - rewrite !bool_decide_false by done. apply outcome_all_if. intros r. unfold convertToEpoch.
    rewrite (outcome_all_if _ (λ s, forallb has_cells (Row_Values s)) (row_in_epoch epoch)).
    { by destruct (forallb _ (Result_Series r)). }
    intros row. rewrite (outcome_all_if _ has_cells (in_epoch epoch)).
    { by destruct (forallb _ (Row_Values row)). }
    intros v. unfold in_epoch. rewrite bool_decide_false by done. by destruct v as [|[[]| |] v].
Qed.
Lemma bind_relabel {A A' B B'} (h : A → A') (g : A' → list B') (f : A → list B) (k : B → B') l :
  (∀ x, g (h x) = k <$> f x) → (h <$> l) ≫= g = k <$> (l ≫= f).
Proof. intros H. rewrite list_fmap_bind, fmap_bind. by apply list_bind_ext. Qed.
Lemma labelled_in_epoch epoch results :
  labelled (result_in_epoch epoch <$> results) = (λ x, (x.1, in_epoch epoch x.2)) <$> labelled results.
Proof.
  apply bind_relabel. intros r. apply bind_relabel. intros row. unfold row_labels. simpl.
  change (tagsHash (row_in_epoch epoch row)) with (tagsHash row). by rewrite <- !list_fmap_compose.
Qed.
Lemma merge_results_converted epoch results acc :
  merge_results epoch results acc = (let! c := chunk_results epoch results in merge_results EmptyString c acc).
Proof.
  revert acc. induction results as [|r results IH]; intros acc; [done|]. cbn [merge_results]. unfold chunk_results. cbn [outcome_all].
  fold (chunk_results epoch results).
  destruct (if bool_decide (epoch = EmptyString) then Ok r else convertToEpoch r epoch) as [r'|e|]; [|done..]. simpl.
  assert (Ha : ∀ e, add_result acc r' ≠ Err e) by (intros e; unfold add_result; repeat case_match; done).
  destruct (add_result acc r') as [acc'|e|] eqn:Ea; [..|].
  - simpl. rewrite IH. destruct (chunk_results epoch results); simpl; [by rewrite Ea|done..].
  - by destruct (Ha e).
  - simpl. rewrite chunk_results_if. destruct (convertible epoch results); simpl; [by rewrite Ea|done].
Qed.

(** The results for one statement come one after the other.  Where there are
    several, the first one must have rows; [prev] is the statement of the result
    before and whether its first result had rows. *)
Definition has_rows (r : Result) : bool := match Result_Series r with [] => false | _ => true end.
Fixpoint runs_ok (prev : option (Z * bool)) (l : list Result) : bool :=
  match l with
  | [] => true
  | r :: l =>
      match prev with
      | Some (i, rows) =>
          if i =? StatementID r then rows && runs_ok prev l else runs_ok (Some (StatementID r, has_rows r)) l
      | None => runs_ok (Some (StatementID r, has_rows r)) l
      end
  end.
Definition last_run (acc : list Result) : option (Z * bool) :=
  match acc with [] => None | cr :: _ => Some (StatementID cr, has_rows cr) end.

Lemma has_rows_rev r : has_rows r = match rev (Result_Series r) with [] => false | _ => true end.
Proof.
  unfold has_rows. destruct (Result_Series r) as [|x l]; [done|]. simpl. by destruct (rev l).
Qed.
Lemma merge_results_runs results acc :
  match merge_results EmptyString results acc with Ok _ => True | _ => False end ↔ runs_ok (last_run acc) results = true.
Proof.
  revert acc. induction results as [|r results IH]; intros acc; [done|]. cbn [merge_results runs_ok]. simpl.
  destruct acc as [|cr acc]; simpl; [apply IH|].
  destruct (StatementID cr =? StatementID r); simpl; [|apply IH].
  rewrite has_rows_rev. destruct (rev (Result_Series cr)) as [|last before] eqn:E; simpl; [done|].
  destruct (merge_rows last (Result_Series r)) as [last' rest]. simpl. rewrite IH. simpl.
  assert (has_rows (mkResult (StatementID cr) (rev before ++ last' :: rest) (Result_Err cr)) = true) as ->.
  { unfold has_rows. simpl. by destruct (rev before). }
  done.
Qed.

Lemma runs_ok_in_epoch epoch prev results : runs_ok prev (result_in_epoch epoch <$> results) = runs_ok prev results.
Proof.
  revert prev. induction results as [|r results IH]; intros prev; [done|]. csimpl.
  assert (has_rows (result_in_epoch epoch r) = has_rows r) as -> by (unfold has_rows; simpl; by destruct (Result_Series r)).
  destruct prev as [[i rows]|]; rewrite !IH; done.
Qed.
Lemma first_of_runs_in_epoch epoch prev results : first_of_runs prev (result_in_epoch epoch <$> results) = first_of_runs prev results.
Proof. revert prev. induction results as [|r results IH]; intros prev; [done|]. csimpl. by rewrite IH. Qed.
Lemma merge_results_no_err results acc e : merge_results EmptyString results acc ≠ Err e.
Proof.
  revert acc. induction results as [|r results IH]; intros acc; [done|]. cbn [merge_results]. simpl.
  destruct (add_result acc r) as [acc'|e'|] eqn:Ea; [apply IH| |done]. unfold add_result in Ea. repeat case_match; done.
Qed.

(** ** What [ExecuteQuery] sends *)

Section execute.
Context {GS : GoSort} {bytes : Type} {PB : Protobuf bytes} {CR : Crypto}.
Context {goText : GoText} {goTime : GoTime} {raftInfo : RaftInfo} {regexp : Regexp}.
Context {backend : Backend} {runner : Runner}.
Context (auto : bool).

(** A statement whose database cannot be determined ends the query. *)
Lemma execute_unresolved stmt rest db chunk q w stmt' e :
  normalizeStatement stmt (if bool_decide (db = EmptyString) then default EmptyString (DefaultDatabase stmt) else db) (q_meta q) =
    (w, Ok (stmt', Some e)) →
  ExecuteQuery auto (stmt :: rest) db chunk q = (mkQState w (q_dbs q), Ok (err_result e :: not_executed rest)).
Proof.
  intros H. unfold ExecuteQuery. cbn [execute_from]. unfold mbind, ST_bind, of_meta. rewrite H. done.
Qed.
(** The answers to a statement: results with its position, and errors. *)
Definition answer (i : Z) (r : Result) : Prop :=
  StatementID r = i ∨ (StatementID r = 0 ∧ Result_Series r = [] ∧ is_Some (Result_Err r)).
Lemma err_answer i e : answer i (err_result e).
Proof. right. by eauto. Qed.


Lemma stream_rows_answers i t rows st q q' st' :
  Forall (answer i) (sent st) → stream_rows i t rows st q = (q', Ok st') → Forall (answer i) (sent st').
Proof.
  revert st q. induction rows as [|r rows IH]; intros st q Hs; simpl; [by intros [= <- <-]|].
  destruct (writeerr st); [by apply IH|]. destruct (Row_Err r); [by intros [= <- <-]|]. destruct t as [t|].
  - intros (q1 & res & _ & H)%st_bind_inv. by eapply IH, H.
  - apply IH. simpl. apply Forall_app. split; [done|]. constructor; [by left|constructor].
Qed.
Lemma executeStatement_answers i stmt db chunk q q' l e :
  executeStatement i stmt db chunk q = (q', Ok (l, e)) → Forall (answer i) l ∧ (l ≠ [] ∨ is_Some e).
Proof.
  unfold executeStatement. intros (q1 & [x|x] & _ & H)%st_bind_inv; [|injection H as <- <- <-; split; [constructor|right; eauto]].
  apply st_bind_inv in H as (q2 & rows & _ & H). apply st_bind_inv in H as (q3 & st & Hst & H).
  assert (Ha : Forall (answer i) (sent st)) by (eapply stream_rows_answers, Hst; constructor).
  destruct (row_err st); [injection H as <- <- <-; split; [done|right; eauto]|].
  destruct (writeerr st); [injection H as <- <- <-; split; [done|right; eauto]|].
  destruct (isinto st).
  - injection H as <- <- <-. split; [|left; by destruct (sent st)]. apply Forall_app. split; [done|]. constructor; [by left|constructor].
  - injection H as <- <- <-. destruct (sent st); [|by split; [|left]]. split; [constructor; [by left|constructor]|by left].
Qed.
Lemma dispatch_answers i stmt db chunk q q' l r :
  dispatch auto i stmt db chunk q = (q', Ok (l, r)) → Forall (answer i) l ∧ (l ≠ [] ∨ is_Some r).
Proof.
  destruct stmt; cbn [dispatch]; intros (q1 & x & Hx & H)%st_bind_inv;
    try (injection H as _ <- <-; split; [constructor|right; eauto]);
    (destruct x as [l0 [e|]]; apply executeStatement_answers in Hx as [Ha Hn]; injection H as _ <- <-;
     [split; [apply Forall_app; split; [done|constructor; [apply err_answer|constructor]]|left; by destruct l0]|
      split; [done|left; destruct Hn as [?|[? ?]]; done]]).
Qed.

Lemma execute_from_answers i stmts db chunk q q' results :
  execute_from auto i stmts db chunk q = (q', Ok results) →
  ∃ blocks, results = concat blocks ∧ length blocks = length stmts ∧
    ∀ k b, blocks !! k = Some b → b ≠ [] ∧ Forall (answer (i + Z.of_nat k)) b.
Proof.
  revert i q results. induction stmts as [|stmt rest IH]; intros i q results; cbn [execute_from].
  { intros [= <- <-]. exists []. done. }
  assert (Hne : ∃ bs, not_executed rest = concat bs ∧ length bs = length rest ∧
    ∀ k b, bs !! k = Some b → b ≠ [] ∧ ∀ j, Forall (answer j) b).
  { exists ((λ _, [err_result ErrNotExecuted]) <$> rest). unfold not_executed. split_and!.
    - clear. induction rest; simpl; [done|]. by f_equal.
    - by rewrite length_fmap.
    - intros k b Hb. rewrite list_lookup_fmap in Hb. apply fmap_Some in Hb as (x & _ & ->). split; [done|]. intros j. constructor; [apply err_answer|constructor]. }
  destruct Hne as (nb & Hn1 & Hn2 & Hn3).
  assert (Hcons : ∀ (b : list Result) bs more, b ≠ [] → Forall (answer i) b → more = concat bs → length bs = length rest →
    (∀ k c, bs !! k = Some c → c ≠ [] ∧ Forall (answer (i + 1 + Z.of_nat k)) c) →
    ∃ blocks, b ++ more = concat blocks ∧ length blocks = S (length rest) ∧
      ∀ k c, blocks !! k = Some c → c ≠ [] ∧ Forall (answer (i + Z.of_nat k)) c).
  { intros b bs more Hb Ha -> Hl Hc. exists (b :: bs). split_and!; [done|simpl; by rewrite Hl|]. intros [|k] c; simpl.
    - intros [= <-]. by rewrite Z.add_0_r.
    - intros H. apply Hc in H. by replace (i + Z.of_nat (S k)) with (i + 1 + Z.of_nat k) by lia. }
  intros (q1 & [stmt' [e|]] & _ & H)%st_bind_inv.
  - injection H as <- <-. apply (Hcons [err_result e] nb); [done|constructor; [apply err_answer|constructor]|done..|].
    intros k c Hk. destruct (Hn3 k c Hk). auto.
  - apply st_bind_inv in H as (q2 & [l r] & Hd & H). apply dispatch_answers in Hd as [Ha Hr]. destruct r as [r|].
    + assert (Hb : Forall (answer i) (l ++ [set_StatementID i r])).
      { apply Forall_app. split; [done|]. constructor; [by left|constructor]. }
      destruct (Result_Err (set_StatementID i r)).
      * injection H as <- <-. rewrite (cons_middle (set_StatementID i r) l), app_assoc.
        apply (Hcons _ nb); [by destruct l|done..|]. intros k c Hk. destruct (Hn3 k c Hk). auto.
      * apply st_bind_inv in H as (q3 & more & Hm & H). injection H as <- <-. apply IH in Hm as (bs & -> & Hl & Hc).
        rewrite (cons_middle (set_StatementID i r) l), app_assoc. by apply (Hcons _ bs); [destruct l| |..].
    + apply st_bind_inv in H as (q3 & more & Hm & H). injection H as <- <-. apply IH in Hm as (bs & -> & Hl & Hc).
      apply (Hcons l bs); try done. by destruct Hr as [?|[? ?]].
Qed.

Lemma not_executed_panics e rest : rest ≠ [] → merge_results EmptyString (err_result e :: not_executed rest) [] = Panic.
Proof. destruct rest; [done|]. intros _. reflexivity. Qed.
End execute.

(** C38: Every statement of a query is answered, in order: the results that
    [ExecuteQuery] sends are those for the first statement, then those for the
    second and so on, with at least one for each.  A result for a statement has its
    position, unless it is an error without rows. *)
Theorem every_statement_answered {GS : GoSort} {bytes : Type} {PB : Protobuf bytes} {CR : Crypto}
    {goText : GoText} {goTime : GoTime} {raftInfo : RaftInfo} {regexp : Regexp} {backend : Backend} {runner : Runner}
    (auto : bool) (query : Query) (database : string) (chunkSize : Z) (q q' : QState) (results : list Result) :
  ExecuteQuery auto query database chunkSize q = (q', Ok results) →
  ∃ blocks, results = concat blocks ∧ length blocks = length query ∧
    ∀ k b, blocks !! k = Some b → b ≠ [] ∧ Forall (answer (Z.of_nat k)) b.
Proof. intros H. destruct (execute_from_answers auto 0 query database chunkSize q q' results H) as (bs & H1 & H2 & H3). by exists bs. Qed.

(** C33: Without chunks the handler puts the results it receives together as
    follows.  It panics exactly when a time is to be converted to an [epoch] and some
    value has no cells, or when a result follows on another one with its
    [StatementID] and the first of this run of results has no rows (a result
    that is only an error may have the number 0 whatever its statement).  Otherwise the response has one
    result for each run, with the statement and the error of the first one (later
    errors are dropped), and its values, each with its statement, the name of its
    series and the hash of its tags, are those received, in this order, with the
    first cell converted when there is an [epoch]. *)
Theorem merged_results_complete (epoch : string) (results : list Result) :
  if convertible epoch results && runs_ok None results
  then ∃ l, merge_results epoch results [] = Ok l ∧
    labelled l = (λ x, (x.1, in_epoch epoch x.2)) <$> labelled results ∧ result_head <$> l = first_of_runs None results
  else merge_results epoch results [] = Panic.
Proof.
  rewrite merge_results_converted, chunk_results_if. destruct (convertible epoch results); [|done]. simpl.
  rewrite <- (runs_ok_in_epoch epoch). pose proof (merge_results_runs (result_in_epoch epoch <$> results) []) as H.
  pose proof (merge_results_no_err (result_in_epoch epoch <$> results) []) as Hn. simpl in H.
  destruct (merge_results EmptyString (result_in_epoch epoch <$> results) []) as [l|e|] eqn:El; [..|].
  - rewrite (proj1 H I). exists l. split; [done|]. split.
    + apply merge_results_labels in El. rewrite El. apply labelled_in_epoch.
    + apply merge_results_heads in El. rewrite El. apply first_of_runs_in_epoch.
  - by destruct (Hn e).
  - by destruct (runs_ok None _); [destruct (proj2 H eq_refl)|].
Qed.

(** ** The points writer

    What [WritePoints] of the cluster does to the metastore: it reads the database
    and the policy and creates shard groups. *)

Section writer.
Context {GS : GoSort} {bytes : Type} {PB : Protobuf bytes} {order : WriteOrder}.

Lemma keeps_checked {A B} (r : outcome MetaError A) (z : B) k : keeps admin_view (checked r z k).
Proof. unfold checked. destruct r; apply keeps_const. Qed.
Lemma keeps_RetentionPolicy db policy : keeps admin_view (Store_RetentionPolicy db policy).
Proof. apply keeps_read. intros d. apply keeps_checked. Qed.
Lemma keeps_ShardGroupByTimestamp db policy ts : keeps admin_view (Store_ShardGroupByTimestamp db policy ts).
Proof. apply keeps_read. intros d. apply keeps_checked. Qed.
Lemma keeps_CreateShardGroupIfNotExists db policy ts : keeps admin_view (Store_CreateShardGroupIfNotExists db policy ts).
Proof.
  assert (Hc : keeps admin_view (Store_CreateShardGroup db policy ts)).
  { apply keeps_bind; [by apply keeps_tame|]. intros _. apply keeps_ShardGroupByTimestamp. }
  unfold Store_CreateShardGroupIfNotExists. apply keeps_bind; [apply keeps_ShardGroupByTimestamp|]. intros found.
  set (create := M_bind _ _). assert (keeps admin_view create).
  { apply keeps_bind; [by apply keeps_try|]. intros [o|e]; [apply keeps_ret|]. repeat case_match; try apply keeps_fail. apply keeps_ShardGroupByTimestamp. }
  destruct found as [g|]; [|done]. destruct (negb _); [apply keeps_ret|done].
Qed.

(** [keeps] for code that passes the state on by matching. *)
Lemma keeps_after {A B} (m : M A) (w : World) (k : World → A → World * outcome GoError B) :
  keeps admin_view m → (∀ a, keeps admin_view (λ w, k w a)) →
  let r := match m w with (w, Err e) => (w, Err e) | (w, Panic) => (w, Panic) | (w, Ok a) => k w a end in
  admin_view (authority r.1) = admin_view (authority w) ∧ w_role r.1 = w_role w.
Proof. intros Hm Hk. pose proof (keeps_bind admin_view m (λ a w, k w a) Hm Hk w) as H. unfold M_bind in H. by destruct (m w) as [w1 [a|e|]]. Qed.
Lemma create_groups_keeps db policy times : ∀ ranges, keeps admin_view (create_groups db policy times ranges).
Proof.
  induction times as [|t times IH]; intros ranges w; cbn [create_groups]; [done|].
  pose proof (keeps_after (Store_CreateShardGroupIfNotExists db policy t) w (λ w sg, create_groups db policy times (<[t := sg]> ranges) w)
    (keeps_CreateShardGroupIfNotExists _ _ _) (λ sg, IH _)) as H.
  simpl in *. by destruct (Store_CreateShardGroupIfNotExists db policy t w) as [w1 [a|e|]].
Qed.
Lemma MapShards_keeps wp : keeps admin_view (MapShards wp).
Proof.
  intros w. unfold MapShards. simpl. destruct (keeps_RetentionPolicy (wp_Database wp) (wp_RetentionPolicy wp) w) as [H1 H2].
  destruct (Store_RetentionPolicy _ _ w) as [w1 [[rp|]|e|]]; try done. simpl in *. rewrite <- H1, <- H2.
  destruct (create_groups_keeps (wp_Database wp) (wp_RetentionPolicy wp) (iter_times (required_times (rpi_ShardGroupDuration rp) (wp_Points wp)))
    (required_times (rpi_ShardGroupDuration rp) (wp_Points wp)) w1) as [H3 H4].
  by destruct (create_groups _ _ _ _ w1) as [w2 [x|e|]].
Qed.
Lemma WritePoints_keeps wp closed stats : keeps admin_view (WritePoints wp closed stats).
Proof.
  intros w. unfold WritePoints. assert (Hd : keeps admin_view (default_policy wp)).
  { intros w0. unfold default_policy. case_bool_decide; [|done]. destruct (keeps_Database (wp_Database wp) w0) as [K1 K2]. simpl.
    by destruct (Store_Database _ w0) as [w1 [[db|]|e|]]. }
  destruct (Hd w) as [H1 H2]. destruct (default_policy wp w) as [w1 [wp'|e|]]; [|done..]. simpl in *. rewrite <- H1, <- H2.
  destruct (MapShards_keeps wp' w1) as [H3 H4]. by destruct (MapShards wp' w1) as [w2 [m|e|]].
Qed.

(** The promise that the endpoint needs: the writer that the query executor was
    given changes the metastore as [WritePointsInto] of the cluster does.  (Nothing
    is said of its answers, nor of what it does to the local store.) *)
Definition writes_as_cluster {backend : Backend} : Prop :=
  ∀ req q, ∃ points closed stats,
    q_meta (WritePointsInto req q).1 =
    (ClusterWrite.WritePointsInto (iw_Database _ req) (iw_RetentionPolicy _ req) points closed stats (q_meta q)).1.
Lemma cluster_writer_keeps {backend : Backend} : writes_as_cluster → ∀ req, kept_q (WritePointsInto req).
Proof. intros H req q. destruct (H req q) as (points & closed & stats & ->). apply WritePoints_keeps. Qed.
End writer.

(** ** Requests of unprivileged users *)

Section requests.
Context {GS : GoSort} {bytes : Type} {PB : Protobuf bytes} {CR : Crypto}.
Context {goText : GoText} {goTime : GoTime} {raftInfo : RaftInfo} {regexp : Regexp}.
Context {backend : Backend} {runner : Runner}.

(** [Authenticate] on the leader only reads the metadata, and the user that it
    returns is the one with the name. *)
Lemma Authenticate_leader name pw w w' r : w_role w = RaftLeader → Store_Authenticate name pw w = (w', r) →
  w_role w' = RaftLeader ∧ st_data (w_store w') = st_data (w_store w) ∧
  ∀ u, r = Ok (Some u) → ∃ i, Data_User (st_data (w_store w)) name = Some (i, u).
Proof.
  intros Hr. unfold Store_Authenticate. set (fn := λ data : Data, match Data_User data name with _ => _ end).
  assert (Hfn : ∀ w0 w1 x, w_role w0 = RaftLeader → fn (st_data (w_store w0)) w0 = (w1, x) →
    w_role w1 = RaftLeader ∧ st_data (w_store w1) = st_data (w_store w0) ∧
    ∀ u err, x = Ok (Some u, err) → ∃ i, Data_User (st_data (w_store w0)) name = Some (i, u)).
  { intros w0 w1 x H0. unfold fn. destruct (Data_User _ name) as [[i u]|]; [|by intros [= <- <-]].
    unfold M_bind, M_try, Store_saltedHash, cache_password, M_ret. repeat (case_match; simplify_eq); intros [= <- <-];
      (split; [done|]; split; [done|]); intros ? ? ?; simplify_eq; eauto. }
  unfold Store_read, M_bind at 1. destruct (fn (st_data (w_store w)) w) as [w1 x] eqn:E1.
  destruct (Hfn w w1 x Hr E1) as (R1 & D1 & U1). destruct x as [[a err]|e|]; [|by intros [= <- <-]..].
  destruct err as [err|]; [|intros [= <- <-]; split_and!; [done..|]; intros u [= ->]; by eapply U1].
  unfold M_bind at 1, Store_invalidate. rewrite R1. unfold M_bind at 1.
  destruct (fn (st_data (w_store w1)) w1) as [w2 y] eqn:E2. destruct (Hfn w1 w2 y R1 E2) as (R2 & D2 & U2).
  destruct y as [[a' err']|e|]; [|intros [= <- <-]; split_and!; try done; congruence..].
  rewrite D1 in D2, U2.
  destruct err' as [[|e]|]; intros [= <- <-]; (split; [done|]; split; [done|]); intros u Hu; try discriminate Hu;
    injection Hu as ->; by eapply U2.
Qed.

(** A query of a user who is no administrator, or of nobody, once there are
    users. *)
Lemma serveQuery_kept auto r user q : (∀ req, kept_q (WritePointsInto req)) →
  Users (st_data (w_store (q_meta q))) ≠ [] → (∀ u, user = Some u → ui_Admin u = false) →
  admin_view (authority (q_meta (serveQuery auto true r user q).1)) = admin_view (authority (q_meta q)).
Proof.
  intros Hi Hu Ha. unfold serveQuery. case_bool_decide; [done|]. destruct (ParseQuery_text (rq_q r)) as [query|e|]; [|done..].
  unfold mbind, ST_bind at 1, of_meta at 1. destruct user as [u|].
  - rewrite Authorize_user by auto. destruct (check_statements u (rq_db r) query) as [[e|]|e|] eqn:E; try done.
    change (admin_view (authority (q_meta q))) with (admin_view (authority (q_meta (mkQState (q_meta q) (q_dbs q))))).
    apply (kept_bind (ExecuteQuery auto query (rq_db r) (rq_chunkSize r))).
    + by eapply execute_from_kept, authorized_unprivileged.
    + intros results. apply kept_bind; [apply kept_const|]. intros l. apply kept_ret.
  - unfold Authorize, M_bind, M_try. destruct (UserCount_ok (q_meta q)) as (w' & -> & ->).
    by destruct (Users (st_data (w_store (q_meta q)))).
Qed.
End requests.

(** C39: With authentication and once there is a user, no request to the query
    endpoint of the leader changes the users, with their passwords and privileges,
    or which databases there are, unless its credentials name an administrator:
    whatever text it has and whatever fails on the way.  The writer behind
    [SELECT ... INTO] changes the metastore as the points writer of the cluster does
    ([writes_as_cluster]); that this changes neither users nor databases is proved.
    (While there is no user a request may create an administrator:
    [bootstrap_authorizes_everything].) *)
Theorem unprivileged_request_keeps_users {GS : GoSort} {bytes : Type} {PB : Protobuf bytes} {CR : Crypto}
    {goText : GoText} {goTime : GoTime} {raftInfo : RaftInfo} {regexp : Regexp} {backend : Backend} {runner : Runner}
    {order : WriteOrder}
    (auto : bool) (r : Request) (q : QState) :
  writes_as_cluster →
  w_role (q_meta q) = RaftLeader → Users (st_data (w_store (q_meta q))) ≠ [] →
  (∀ name pw i u, rq_credentials r = Some (name, pw) → Data_User (st_data (w_store (q_meta q))) name = Some (i, u) → ui_Admin u = false) →
  admin_view (authority (q_meta (handle_query auto true r q).1)) = admin_view (authority (q_meta q)).
Proof.
  intros Hw Hr Hu Hc. pose proof (cluster_writer_keeps Hw) as Hi. unfold handle_query, authenticate. cbn [negb]. unfold mbind, ST_bind at 1, of_meta at 1.
  change (M_try Store_Users (q_meta q)) with (q_meta q, @Ok GoError _ (@inl _ GoError (Users (st_data (w_store (q_meta q)))))). cbn.
  destruct (Users (st_data (w_store (q_meta q)))) as [|u0 us] eqn:Eu; [done|].
  destruct (rq_credentials r) as [[name pw]|]; [|done]. case_bool_decide; [done|].
  unfold mbind, ST_bind, of_meta, M_try. cbn -[serveQuery Store_Authenticate admin_view authority].
  destruct (Store_Authenticate name pw (q_meta q)) as [w' x] eqn:Ex.
  destruct (Authenticate_leader name pw _ _ _ Hr Ex) as (R & D & U).
  assert (Ha : admin_view (authority w') = admin_view (authority (q_meta q))) by (unfold authority; rewrite R, Hr; by rewrite D).
  destruct x as [user|e|]; [|exact Ha..]. rewrite <- Ha. apply (serveQuery_kept auto r user (mkQState w' (q_dbs q)) Hi).
  - simpl. by rewrite D, Eu.
  - intros u ->. destruct (U u eq_refl) as [i Hi']. by eapply Hc.
Qed.

(** Without chunks and without [epoch], a query of several statements whose first
    one cannot be resolved makes the handler panic: the errors that follow have
    the number of the first statement, which has no rows to add them to. *)
Theorem unresolved_statement_panics {GS : GoSort} {bytes : Type} {PB : Protobuf bytes} {CR : Crypto}
    {goText : GoText} {goTime : GoTime} {raftInfo : RaftInfo} {regexp : Regexp} {backend : Backend} {runner : Runner}
    (auto : bool) (r : Request) (stmt stmt' : Statement) (rest : list Statement) (e : GoError) (q : QState) (w : World) :
  ParseQuery_text (rq_q r) = Ok (stmt :: rest) → rq_q r ≠ EmptyString → rest ≠ [] →
  rq_chunked r = false → rq_epoch r = EmptyString →
  normalizeStatement stmt (if bool_decide (rq_db r = EmptyString) then default EmptyString (DefaultDatabase stmt) else rq_db r) (q_meta q) =
    (w, Ok (stmt', Some e)) →
  (handle_query auto false r q).2 = Panic.
Proof.
  intros Hp Hq Hr Hc He Hn. unfold handle_query, authenticate. cbn [negb]. unfold serveQuery.
  rewrite bool_decide_false by done. rewrite Hp. unfold mbind, ST_bind at 1, mret, ST_ret at 1.
  unfold ST_bind. rewrite (execute_unresolved auto stmt rest _ _ q w stmt' e Hn), Hc, He.
  unfold of_outcome. rewrite not_executed_panics by done. done.
Qed.

(** The error of the first statement is lost when it comes after rows. *)
Theorem late_error_lost (row : Row) (e : GoError) :
  merge_results EmptyString [mkResult 0 [row] None; err_result e] [] = Ok [mkResult 0 [row] None].
Proof. reflexivity. Qed.

(** ** Concrete instances *)

#[local] Instance sample_goText : GoText := sample_text.
#[local] Instance sample_goTime : GoTime := {| format_RFC3339 _ := EmptyString; Duration_String _ := EmptyString |}.
#[local] Instance sample_raft : RaftInfo := {| Store_Peers := M_ret []; Store_Leader _ := EmptyString |}.
#[local] Instance sample_regexp : Regexp := {| MatchString := λ re s, bool_decide (re = s) |}.
#[local] Instance local_order : WriteOrder := sample_order.
#[local] Instance sample_backend : Backend := {|
  Mapper := unit; CreateMapper _ _ _ _ := Ok None;
  Point := point; NewPoint name _ _ t := Some (demo_point name t);
  WritePointsInto req q :=
    let '(w, r) := ClusterWrite.WritePointsInto (iw_Database _ req) (iw_RetentionPolicy _ req) (iw_Points _ req) false ∅ (q_meta q) in
    (mkQState w (q_dbs q), match r with Ok _ => Ok tt | Err e => Err e | Panic => Panic end);
  Monitor_ExecuteStatement _ := ok_result [];
  Store_DeleteDatabase _ _ _ := None; Store_deleteSeries _ := true; Store_deleteMeasurement _ _ := true |}.
#[local] Instance sample_runner : Runner := {| Execute _ _ := [] |}.

Definition sample_state : QState := mkQState demo_world ∅.
Definition sample_request (credentials : option (string * string)) (q : string) : Request :=
  mkRequest credentials q "db" EmptyString false 0.

(** Two statements, and one that fails in between. *)
Definition sample_query : Query :=
  [ShowDatabasesStatement; DropUserStatement "nobody"; ShowUsersStatement].
Lemma every_statement_answered_witness :
  ∃ blocks,
    match (ExecuteQuery true sample_query "db" 0 sample_state).2 with Ok l => l | _ => [] end = concat blocks ∧ length blocks = 3%nat ∧
    ∀ k b, blocks !! k = Some b → b ≠ [] ∧ Forall (answer (Z.of_nat k)) b.
Proof.
  apply (every_statement_answered true sample_query "db" 0 sample_state (ExecuteQuery true sample_query "db" 0 sample_state).1).
  vm_compute. reflexivity.
Defined.

Definition drop_everything : string := "DROP USER ann; DROP DATABASE db".
Lemma unprivileged_request_keeps_users_witness :
  admin_view (authority (q_meta (handle_query true true (sample_request (Some ("ann", "pw")) drop_everything) sample_state).1)) =
  admin_view (authority demo_world).
Proof.
  apply (unprivileged_request_keeps_users true (sample_request (Some ("ann", "pw")) drop_everything) sample_state).
  - intros req q. exists (iw_Points _ req), false, ∅. simpl. by destruct (ClusterWrite.WritePointsInto _ _ _ _ _ (q_meta q)).
  - vm_compute. reflexivity.
  - vm_compute. discriminate.
  - intros name pw i u [= <- <-] H. vm_compute in H. injection H as _ <-. reflexivity.
Defined.

(** Without authentication the same request goes through. *)
Example drop_everything_drops :
  admin_view (authority (q_meta (handle_query true false (sample_request None drop_everything) sample_state).1)) = ([], []).
Proof. vm_compute. reflexivity. Qed.

Example handler_panics :
  (handle_query true false (mkRequest None "SELECT value FROM cpu; SHOW DATABASES" EmptyString EmptyString false 0) sample_state).2 = Panic.
Proof. vm_compute. reflexivity. Qed.
