(* ===== verification/HhNode.v ===== *)
(** * Hinted handoff: [services/hh/node_processor.go], [limiter.go] and [service.go]

    A node processor keeps the writes for a node in a disk queue and sends them to
    the node when it is active.  What the metastore and the node answer are
    arguments; the calls of the node are recorded. *)

From stdpp Require Import base list strings gmap.
From Stdlib Require Import ZArith Ascii Lia SpecFloat.
From S2P Require Import Prelude Binary HhQueue MetaData QlToken QlExpr QlSelect QlPrint QlDuration QlNumber Rows Points ClusterWrite.

Local Open Scope Z_scope.

(** ** Configuration *)

Definition DefaultMaxSize : Z := 1024 * 1024 * 1024.
Definition DefaultMaxAge : Duration := 7 * 24 * Hour.
Definition DefaultRetryRateLimit : Z := 0.
Definition DefaultRetryInterval : Duration := HhQueue.Second.
Definition DefaultRetryMaxInterval : Duration := 60 * HhQueue.Second.
Definition DefaultPurgeInterval : Duration := Hour.

Record Config := mkConfig {
  cfg_Enabled : bool;
  cfg_Dir : string;
  cfg_MaxSize : Z;
  cfg_MaxAge : Duration;
  cfg_RetryRateLimit : Z;
  cfg_RetryInterval : Duration;
  cfg_RetryMaxInterval : Duration;
  cfg_PurgeInterval : Duration
}.
Definition NewConfig : Config :=
  mkConfig false EmptyString DefaultMaxSize DefaultMaxAge DefaultRetryRateLimit DefaultRetryInterval DefaultRetryMaxInterval DefaultPurgeInterval.

(** ** The rate limiter *)

Record limiter := mkLimiter { l_count : Z; l_limit : Z; l_start : Time; l_delay : float64 }.
Definition f64_half : float64 := f64_div (f64_of_Z 1) (f64_of_Z 2).
Definition NewRateLimiter (now : Time) (limit : Z) : limiter := mkLimiter 0 limit now f64_half.
Definition limiter_Update (count : Z) (t : limiter) : limiter := mkLimiter (i64 (l_count t + count)) (l_limit t) (l_start t) (l_delay t).
Definition clamp (value min max : float64) : float64 :=
  if SFltb value min then min else if SFltb max value then max else value.
(** [d.Seconds()] *)
Definition Duration_Seconds (d : Duration) : float64 :=
  f64_add (f64_of_Z (Z.quot d HhQueue.Second)) (f64_mul (f64_of_Z (Z.rem d HhQueue.Second)) (number_of "0.000000001")).
(** The delay is converted to a whole number of seconds. *)
Definition limiter_Delay (now : Time) (t : limiter) : limiter * Duration :=
  if 0 <? l_limit t then
    let delta := Duration_Seconds (now - l_start t) in
    let rate := f64_to_int64 (f64_div (f64_of_Z (l_count t)) delta) in
    let delayAdj := f64_div (f64_of_Z (i64 (l_limit t - rate))) (f64_of_Z (l_limit t)) in
    let delayAdj := clamp delayAdj (f64_of_Z (-1)) (f64_of_Z 1) in
    let delay := f64_sub (l_delay t) delayAdj in
    let delay := if SFltb delay f64_zero then f64_zero else delay in
    (mkLimiter (l_count t) (l_limit t) (l_start t) delay, i64 (f64_to_int64 delay * HhQueue.Second))
  else (t, 0).

(** ** Blocks of the queue *)

Definition bytes_of (l : list ascii) : list Z := (λ c, Z.of_N (N_of_ascii c)) <$> l.
Definition chars_of (l : list Z) : list ascii := (λ z, ascii_of_N (Z.to_N z)) <$> l.

Definition marshalWrite (shardID : Z) (points : list point) : list Z :=
  BigEndian_PutUint64 shardID ++ bytes_of (points ≫= λ p, of_string (point_String p) ++ [newline]).
(** The shard, the points and the error; [Err] when the block is too short. *)
Definition unmarshalWrite {goText : GoText} (now : Time) (b : list Z) : outcome string (Z * list point * option string) :=
  if (length b <? 8)%nat then Err ("too short: len = " +:+ Sprintf_d (Z.of_nat (length b)))
  else
    match BigEndian_Uint64 (take 8 b) with
    | None => Panic
    | Some ownerID =>
        let text := chars_of (drop 8 b) in
        match ParsePoints now (length text + 2) (mkSlice text []) with
        | Ok (points, err) => Ok (ownerID, points, err)
        | _ => Panic
        end
    end.

(** ** Node processors *)

Inductive NodeError :=
| QueueError (e : hhError)
| UnmarshalError (text : string)
| MetaStoreError (text : string)
| WriterError (e : WriteError)
| NodeText (text : string).

(** [np_done]: the channel is there, the processor is open.  [np_hh] is the
    directory and the queue; [np_queue] says whether there is a queue.  [np_sent]
    are the calls of the node with their answers. *)
Record NodeProcessor := mkNodeProcessor {
  np_PurgeInterval : Duration;
  np_RetryInterval : Duration;
  np_RetryMaxInterval : Duration;
  np_MaxSize : Z;
  np_MaxAge : Duration;
  np_RetryRateLimit : Z;
  np_nodeID : Z;
  np_done : bool;
  np_queue : bool;
  np_hh : HhState;
  np_stats : Stats;
  np_sent : list (Z * list point * option WriteError)
}.
(** The rate limit is not set; [hh] is what is in the directory. *)
Definition NewNodeProcessor (nodeID : Z) (hh : HhState) : NodeProcessor :=
  mkNodeProcessor DefaultPurgeInterval DefaultRetryInterval DefaultRetryMaxInterval DefaultMaxSize DefaultMaxAge 0 nodeID false false hh ∅ [].

Definition set_np_done (b : bool) (n : NodeProcessor) : NodeProcessor :=
  mkNodeProcessor (np_PurgeInterval n) (np_RetryInterval n) (np_RetryMaxInterval n) (np_MaxSize n) (np_MaxAge n) (np_RetryRateLimit n)
    (np_nodeID n) b (np_queue n) (np_hh n) (np_stats n) (np_sent n).
Definition set_np_hh (q : bool) (h : HhState) (n : NodeProcessor) : NodeProcessor :=
  mkNodeProcessor (np_PurgeInterval n) (np_RetryInterval n) (np_RetryMaxInterval n) (np_MaxSize n) (np_MaxAge n) (np_RetryRateLimit n)
    (np_nodeID n) (np_done n) q h (np_stats n) (np_sent n).
Definition add_np_stat (key : string) (k : Z) (n : NodeProcessor) : NodeProcessor :=
  mkNodeProcessor (np_PurgeInterval n) (np_RetryInterval n) (np_RetryMaxInterval n) (np_MaxSize n) (np_MaxAge n) (np_RetryRateLimit n)
    (np_nodeID n) (np_done n) (np_queue n) (np_hh n) (statMap_Add key k (np_stats n)) (np_sent n).
Definition add_np_sent (c : Z * list point * option WriteError) (n : NodeProcessor) : NodeProcessor :=
  mkNodeProcessor (np_PurgeInterval n) (np_RetryInterval n) (np_RetryMaxInterval n) (np_MaxSize n) (np_MaxAge n) (np_RetryRateLimit n)
    (np_nodeID n) (np_done n) (np_queue n) (np_hh n) (np_stats n) (np_sent n ++ [c]).

Abbreviation NP := (ST NodeProcessor NodeError).

(** A call of the queue; there is none before [Open]. *)
Definition on_queue {A} (m : Q A) : NP A := λ n,
  if np_queue n then
    let (h, r) := m (np_hh n) in
    (set_np_hh true h n, match r with Ok a => Ok a | Err e => Err (QueueError e) | Panic => Panic end)
  else (n, Panic).

Definition NodeProcessor_Open : NP unit := λ n,
  if np_done n then (n, Ok ())
  else
    let n := set_np_done true n in
    let h := set_dir (Some (default ∅ (h_dir (np_hh n)))) (np_hh n) in
    match queue_Open (set_queue (newQueue (np_MaxSize n)) h) with
    | (h, Ok _) => (set_np_hh true h n, Ok ())
    | (h, Err e) => (set_np_hh (np_queue n) h n, Err (QueueError e))
    | (h, Panic) => (set_np_hh (np_queue n) h n, Panic)
    end.
Definition NodeProcessor_Close : NP unit := λ n,
  if negb (np_done n) then (n, Ok ()) else on_queue queue_Close (set_np_done false n).
Definition NodeProcessor_Purge : NP unit := λ n,
  if np_done n then (n, Err (NodeText "node processor is open"))
  else (set_np_hh (np_queue n) (set_dir None (np_hh n)) n, Ok ()).
Definition NodeProcessor_WriteShard (shardID : Z) (points : list point) : NP unit :=
  n ← st_get id;
  if negb (np_done n) then st_fail (NodeText "node processor is closed")
  else
    _ ← st_put (add_np_stat "writeShardReq" 1);
    _ ← st_put (add_np_stat "writeShardReqPoints" (Z.of_nat (length points)));
    on_queue (queue_Append (marshalWrite shardID points)).
Definition NodeProcessor_LastModified : NP Time := on_queue queue_LastModified.

(** [node] is what the metastore answers, [answer] what the node answers. *)
Definition Active (node : outcome string bool) : NP bool :=
  match node with
  | Ok b => mret b
  | Err e => st_fail (MetaStoreError e)
  | Panic => st_panic
  end.
Definition SendWrite {goText : GoText} (now : Time) (node : outcome string bool) (answer : option WriteError) : NP Z :=
  active ← Active node;
  if negb active then st_fail (QueueError ErrEOF)
  else
    buf ← on_queue queue_Current;
    match unmarshalWrite now buf with
    | Panic => st_panic
    | Err e | Ok (_, _, Some e) => _ ← st_try (on_queue queue_Advance); st_fail (UnmarshalError e)
    | Ok (shardID, points, None) =>
        _ ← st_put (add_np_sent (shardID, points, answer));
        match answer with
        | Some e => _ ← st_put (add_np_stat "writeNodeReqFail" 1); st_fail (WriterError e)
        | None =>
            _ ← st_put (add_np_stat "writeNodeReq" 1);
            _ ← st_put (add_np_stat "writeNodeReqPoints" (Z.of_nat (length points)));
            _ ← st_try (on_queue queue_Advance);
            mret (go_len buf)
        end
    end.

(** ** The goroutine of a processor *)

(** What happens in a round: the processor is closed, or one of the timers that
    the round started fires first. *)
Inductive Branch := BranchDone | BranchPurge | BranchRetry.
Definition fires (n : NodeProcessor) (interval : Duration) (b : Branch) : Prop :=
  match b with
  | BranchDone => np_done n = false
  | BranchPurge => np_PurgeInterval n ≤ interval
  | BranchRetry => interval ≤ np_PurgeInterval n
  end.
Definition first_interval (n : NodeProcessor) : Duration :=
  if np_RetryMaxInterval n <? np_RetryInterval n then np_RetryMaxInterval n else np_RetryInterval n.
Definition backoff (n : NodeProcessor) (interval : Duration) : Duration :=
  let i := i64 (interval * 2) in if np_RetryMaxInterval n <? i then np_RetryMaxInterval n else i.

(** Writes are sent until there is an error; [answers] are the answers of the
    metastore and of the node. *)
Fixpoint send_loop {goText : GoText} (answers : list (Time * outcome string bool * option WriteError)) (interval : Duration) (n : NodeProcessor)
    : outcome unit (NodeProcessor * Duration) :=
  match answers with
  | [] => Ok (n, interval)
  | (now, node, answer) :: answers =>
      match SendWrite now node answer n with
      | (n, Ok _) => send_loop answers (np_RetryInterval n) n
      | (n, Err (QueueError ErrEOF)) => Ok (n, np_RetryInterval n)
      | (n, Err _) => Ok (n, backoff n interval)
      | (_, Panic) => Panic
      end
  end.
(** One round of [run]; [None] when the goroutine ends. *)
Definition run_round {goText : GoText} (now : Time) (answers : list (Time * outcome string bool * option WriteError)) (b : Branch)
    (n : NodeProcessor) (interval : Duration) : outcome unit (option (NodeProcessor * Duration)) :=
  match b with
  | BranchDone => Ok None
  | BranchPurge =>
      match on_queue (queue_PurgeOlderThan (now - np_MaxAge n)) n with
      | (_, Panic) => Panic
      | (n, _) => Ok (Some (n, interval))
      end
  | BranchRetry => let! r := send_loop answers interval n in Ok (Some r)
  end.
(** The rounds of the goroutine, with the branches it took. *)
Inductive rounds {goText : GoText} : NodeProcessor → Duration → list Branch → NodeProcessor → Duration → Prop :=
| rounds_nil n interval : rounds n interval [] n interval
| rounds_cons n interval b now answers n1 interval1 bs n2 interval2 :
    fires n interval b → run_round now answers b n interval = Ok (Some (n1, interval1)) →
    rounds n1 interval1 bs n2 interval2 → rounds n interval (b :: bs) n2 interval2.

(** ** The service *)

(** [sv_disk] are the directories of nodes that have no processor. *)
Record Service := mkService {
  sv_cfg : Config;
  sv_processors : gmap Z NodeProcessor;
  sv_disk : gmap Z HhState;
  sv_stats : Stats
}.
Definition NewService (c : Config) (disk : gmap Z HhState) : Service := mkService c ∅ disk ∅.
Definition set_processor (id : Z) (n : NodeProcessor) (s : Service) : Service :=
  mkService (sv_cfg s) (<[id := n]> (sv_processors s)) (sv_disk s) (sv_stats s).
Definition add_sv_stat (key : string) (k : Z) (s : Service) : Service :=
  mkService (sv_cfg s) (sv_processors s) (sv_disk s) (statMap_Add key k (sv_stats s)).
Definition no_files (now : Time) : HhState := mkHh None now [] (newQueue 0).

(** A processor for a node, opened. *)
Definition open_processor (now : Time) (id : Z) (s : Service) : Service * outcome NodeError NodeProcessor :=
  let hh := set_now now (default (no_files now) (sv_disk s !! id)) in
  match NodeProcessor_Open (NewNodeProcessor id hh) with
  | (n, Ok _) => (set_processor id n s, Ok n)
  | (n, Err e) => (mkService (sv_cfg s) (sv_processors s) (<[id := np_hh n]> (sv_disk s)) (sv_stats s), Err e)
  | (_, Panic) => (s, Panic)
  end.
(** [names] are the names in the directory; those that are not numbers are skipped. *)
Fixpoint open_all (now : Time) (names : list string) (s : Service) : Service * outcome NodeError unit :=
  match names with
  | [] => (s, Ok ())
  | name :: names =>
      match HhQueue.ParseUint name with
      | None => open_all now names s
      | Some id =>
          match open_processor now id s with
          | (s, Ok _) => open_all now names s
          | (s, Err e) => (s, Err e)
          | (s, Panic) => (s, Panic)
          end
      end
  end.
Definition Service_Open (now : Time) (names : list string) (s : Service) : Service * outcome NodeError unit :=
  if negb (cfg_Enabled (sv_cfg s)) then (s, Ok ()) else open_all now names s.
Fixpoint close_all (ids : list Z) (s : Service) : Service * outcome NodeError unit :=
  match ids with
  | [] => (s, Ok ())
  | id :: ids =>
      match sv_processors s !! id with
      | None => close_all ids s
      | Some n =>
          match NodeProcessor_Close n with
          | (n, Ok _) => close_all ids (set_processor id n s)
          | (n, r) => (set_processor id n s, r)
          end
      end
  end.
(** [order] is the order in which Go visits the processors. *)
Definition Service_Close (order : list Z) (s : Service) : Service * outcome NodeError unit := close_all order s.

Definition ErrHintedHandoffDisabled : NodeError := NodeText "hinted handoff disabled".
Definition Service_WriteShard (now : Time) (shardID ownerID : Z) (points : list point) (s : Service) : Service * outcome NodeError unit :=
  if negb (cfg_Enabled (sv_cfg s)) then (s, Err ErrHintedHandoffDisabled)
  else
    let s := add_sv_stat "writeShardReqPoints" (Z.of_nat (length points)) (add_sv_stat "writeShardReq" 1 s) in
    let (s, r) := match sv_processors s !! ownerID with
                  | Some n => (s, Ok n)
                  | None => open_processor now ownerID s
                  end in
    match r with
    | Err e => (s, Err e)
    | Panic => (s, Panic)
    | Ok n => let (n, r) := NodeProcessor_WriteShard shardID points n in (set_processor ownerID n s, r)
    end.

(** One tick of [purgeInactiveProcessors]: [node] is what the metastore answers. *)
Definition purge_processor (now : Time) (node : Z → outcome string bool) (id : Z) (s : Service) : outcome unit Service :=
  match sv_processors s !! id with
  | None => Ok s
  | Some n =>
      match NodeProcessor_LastModified n with
      | (_, Panic) => Panic
      | (_, Err _) => Ok s
      | (n, Ok lm) =>
          match Active (node id) n with
          | (_, Panic) => Panic
          | (_, Err _) | (_, Ok true) => Ok s
          | (n, Ok false) =>
              if negb (Time_Before lm (now - cfg_MaxAge (sv_cfg s))) then Ok s
              else
                match NodeProcessor_Close n with
                | (_, Panic) => Panic
                | (n, Err _) => Ok (set_processor id n s)
                | (n, Ok _) =>
                    match NodeProcessor_Purge n with
                    | (_, Panic) => Panic
                    | (n, Err _) => Ok (set_processor id n s)
                    | (n, Ok _) => Ok (mkService (sv_cfg s) (delete id (sv_processors s)) (<[id := np_hh n]> (sv_disk s)) (sv_stats s))
                    end
                end
          end
      end
  end.
Fixpoint purgeInactiveProcessors (now : Time) (node : Z → outcome string bool) (order : list Z) (s : Service) : outcome unit Service :=
  match order with
  | [] => Ok s
  | id :: order => let! s := purge_processor now node id s in purgeInactiveProcessors now node order s
  end.

(** ** Closing and the lock

    [Close] holds the lock of the processor while it waits for the goroutine to
    end; the goroutine takes the read lock in [SendWrite]. *)

Inductive CloserState := BeforeClose | WaitLock | WaitGroup | Closed_.
Inductive RunnerState := InSelect | WaitRLock | Sending | Ended.
Record CloseState := mkClose { cl_closer : CloserState; cl_runner : RunnerState; cl_done : bool }.
(** The closer has the lock from [WaitGroup] on; the runner holds a read lock while
    [Sending]. *)
Inductive close_step : CloseState → CloseState → Prop :=
| close_called r d : close_step (mkClose BeforeClose r d) (mkClose WaitLock r d)
| close_locked r d : r ≠ Sending → close_step (mkClose WaitLock r d) (mkClose WaitGroup r true)
| close_waited d : close_step (mkClose WaitGroup Ended d) (mkClose Closed_ Ended d)
| run_done c : close_step (mkClose c InSelect true) (mkClose c Ended true)
| run_timer c d : close_step (mkClose c InSelect d) (mkClose c WaitRLock d)
| run_rlock d : close_step (mkClose BeforeClose WaitRLock d) (mkClose BeforeClose Sending d)
| run_rlock_closed d : close_step (mkClose Closed_ WaitRLock d) (mkClose Closed_ Sending d)
| run_sent c d : close_step (mkClose c Sending d) (mkClose c InSelect d)
| run_more c d : close_step (mkClose c Sending d) (mkClose c WaitRLock d).
