(* ===== verification/HhNodeProps.v ===== *)
(** * Theorems about hinted handoff *)

From stdpp Require Import base list strings gmap.
From Stdlib Require Import ZArith Ascii Lia SpecFloat.
From S2P Require Import Prelude Binary HhQueue HhSegment HhSpec HhProps MetaData QlToken QlExpr QlSelect Escape QlPrint QlReader QlScan QlDuration QlNumber Rows.
From S2P Require Import Points PointsText PointsRead PointsProps ClusterWrite HhNode.

Local Open Scope Z_scope.

(** ** Blocks *)

Lemma chars_of_bytes l : chars_of (bytes_of l) = l.
Proof.
  unfold chars_of, bytes_of. rewrite <- list_fmap_compose. transitivity (id <$> l); [|apply list_fmap_id]. apply list_fmap_ext.
  intros i c _. simpl. rewrite N2Z.id. apply ascii_N_embedding.
Qed.

Section blocks.
Context {goText : GoText} {maps : PointMaps}.

(** A point whose line can be read back. *)
Definition writable (p : point) : Prop := written p (of_string (point_String p)).

Lemma marshal_lines points : (points ≫= λ p, of_string (point_String p) ++ [newline]) = lines ((λ p, of_string (point_String p)) <$> points).
Proof. unfold lines. induction points as [|p points IH]; [done|]. cbn [mbind list_bind fmap list_fmap]. by rewrite IH. Qed.

Lemma block_read_back now shardID points : is_u64 shardID → Forall writable points → points ≠ [] →
  ∃ qs, unmarshalWrite now (marshalWrite shardID points) = Ok (shardID, qs, None) ∧ Forall2 same_point points qs.
Proof.
  intros Hid Hp Hne. unfold unmarshalWrite, marshalWrite. rewrite length_app, PutUint64_length. cbn [Nat.add Nat.ltb Nat.leb].
  rewrite (take_app_length' _ _ 8), (drop_app_length' _ _ 8), Uint64_PutUint64_nil by (done || by rewrite PutUint64_length).
  rewrite chars_of_bytes, marshal_lines. set (ls := (λ p, of_string (point_String p)) <$> points).
  assert (Hw : Forall2 written points ls). { subst ls. apply Forall2_fmap_r. apply Forall_Forall2_diag. exact Hp. }
  assert (Hlen : (length ls ≤ length (lines ls))%nat).
  { clear. induction ls as [|l ls IH]; [done|]. unfold lines in *. cbn [mbind list_bind]. rewrite !length_app. simpl. lia. }
  destruct (parse_lines_written now points ls Hw (length (lines ls) + 2) (mkSlice (lines ls) []) [] [] []) as (qs & Hqs & Hsame).
  - done.
  - subst ls. by destruct points.
  - lia.
  - exists qs. unfold ParsePoints, ParsePointsWithPrecision. simpl in Hqs. rewrite Hqs. done.
Qed.

(** ** Runs of a processor *)

Inductive NodeOp :=
| NWrite (shardID : Z) (points : list point)
| NSend (now : Time) (node : outcome string bool) (answer : option WriteError).
Definition exec_node (op : NodeOp) (n : NodeProcessor) : NodeProcessor * outcome NodeError Z :=
  match op with
  | NWrite shardID points => let (n, r) := NodeProcessor_WriteShard shardID points n in (n, outcome_map (λ _, 0) r)
  | NSend now node answer => SendWrite now node answer n
  end.
Fixpoint run_node (ops : list NodeOp) (n : NodeProcessor) : NodeProcessor * list (outcome NodeError Z) :=
  match ops with
  | [] => (n, [])
  | op :: ops =>
      let (n, r) := exec_node op n in
      let (n, rs) := run_node ops n in (n, r :: rs)
  end.
Definition node_op_ok (op : NodeOp) : Prop :=
  match op with
  | NWrite shardID points => is_u64 shardID ∧ Forall writable points ∧ points ≠ [] ∧ go_len (marshalWrite shardID points) < 2 ^ 62
  | NSend _ node _ => node ≠ Panic
  end.

(** The writes that were accepted, and those that the node acknowledged. *)
Definition accepted_write (op : NodeOp) (r : outcome NodeError Z) : list (Z * list point) :=
  match op, r with NWrite shardID points, Ok _ => [(shardID, points)] | _, _ => [] end.
Definition accepted_writes (ops : list NodeOp) (rs : list (outcome NodeError Z)) : list (Z * list point) := concat (zip_with accepted_write ops rs).
Definition acknowledged_writes (n : NodeProcessor) : list (Z * list point) :=
  omap (λ c, match c with (w, None) => Some w | _ => None end) (np_sent n).
Definition same_write (w s : Z * list point) : Prop := w.1 = s.1 ∧ Forall2 same_point w.2 s.2.
Definition good_write (w : Z * list point) : Prop := is_u64 w.1 ∧ Forall writable w.2 ∧ w.2 ≠ [].
Definition block_of (w : Z * list point) : list Z := marshalWrite w.1 w.2.

(** The queue holds the writes that are left. *)
Record node_inv (k : Z) (n : NodeProcessor) (acc : list (Z * list point)) : Prop := {
  ni_open : np_done n = true ∧ np_queue n = true;
  ni_writes : ∃ a sent left_, R k (np_hh n) a ∧ acc = sent ++ left_ ∧ pending a = block_of <$> left_ ∧
    Forall good_write left_ ∧ Forall2 same_write sent (acknowledged_writes n)
}.

Lemma block_nonempty w : block_of w ≠ [].
Proof. unfold block_of, marshalWrite. intros E. apply (f_equal length) in E. rewrite length_app, PutUint64_length in E. simpl in E. lia. Qed.

Lemma node_write k n acc shardID points n' r : node_inv k n acc → k + 1 < 2 ^ 64 → node_op_ok (NWrite shardID points) →
  exec_node (NWrite shardID points) n = (n', r) →
  r ≠ Panic ∧ node_inv (k + 1) n' (acc ++ accepted_write (NWrite shardID points) r).
Proof.
  intros [[Ho Hq] (a & sent & left_ & HR & Hacc & Hp & Hg & Hs)] Hk (Hid & Hw & Hne & Hlen) He.
  destruct (Append_refines k (np_hh n) a (marshalWrite shardID points) HR) as (h' & Happ & HR'); [done|apply (block_nonempty (shardID, points))|done|].
  simpl in He. unfold NodeProcessor_WriteShard in He. unfold mbind, ST_bind, st_get, st_put in He. simpl in He. rewrite Ho in He. simpl in He.
  unfold on_queue in He. simpl in He. rewrite Hq in He. rewrite Happ in He.
  pose proof (spec_Append_pending (marshalWrite shardID points) a) as Hap. destruct (spec_Append (marshalWrite shardID points) a) as [a' r'] eqn:Esp. simpl in *.
  assert (Hr : r' ≠ Panic). { clear -Esp. unfold spec_Append in Esp. repeat case_match; by simplify_eq. }
  injection He as <- <-. split; [by destruct r'|]. split; [done|]. exists a'. simpl.
  destruct r' as [[]|e|]; [|exists sent, left_|done].
  - exists sent, (left_ ++ [(shardID, points)]). split_and!; [done|simpl; by rewrite Hacc, <- app_assoc|by rewrite Hap, Hp, fmap_app|apply Forall_app_2; [done|by apply Forall_singleton]|done].
  - split_and!; [done|simpl; by rewrite app_nil_r|by rewrite Hap, app_nil_r|done|done].
Qed.

Lemma node_send k n acc now node answer n' r : node_inv k n acc → k + 1 < 2 ^ 64 → node ≠ Panic →
  SendWrite now node answer n = (n', r) → r ≠ Panic ∧ node_inv (k + 1) n' acc.
Proof.
  intros Hinv Hk Hn He. assert (Hsame : node_inv (k + 1) n acc).
  { destruct Hinv as [Ho (a & sent & left_ & [ids HR] & Hrest)]. split; [done|]. exists a, sent, left_. split; [|done]. exists ids. eapply Rel_weaken; [|exact HR]. lia. }
  unfold SendWrite, Active in He. unfold mbind, ST_bind in He. destruct node as [[]|e|]; [|injection He as <- <-; done..|done].
  simpl in He. destruct Hsame as [[Ho Hq] (a & sent & left_ & HR & Hacc & Hp & Hg & Hs)]. unfold on_queue in He. rewrite Hq in He.
  destruct (Current_refines (k + 1) (np_hh n) a HR) as (h1 & Hcur & HR1); [done|]. rewrite Hcur in He. destruct (spec_Current a) as [b|e|] eqn:Ec; simpl in He.
  2:{ injection He as <- <-. split; [done|]. split; [done|]. by exists a, sent, left_. }
  2:{ clear -Ec. unfold spec_Current in Ec. repeat case_match; by simplify_eq. }
  pose proof (spec_Advance_pending a) as Hadv. unfold block_at in Hadv. rewrite Ec in Hadv. simpl in Hadv. rewrite Hp in Hadv.
  destruct left_ as [|w left_]; [done|]. cbn [fmap list_fmap] in Hadv. injection Hadv as <- Hadv. apply Forall_cons in Hg as [(Hid & Hw & Hne) Hg].
  destruct (block_read_back now w.1 w.2 Hid Hw Hne) as (qs & Hun & Hsame). change (marshalWrite w.1 w.2) with (block_of w) in Hun. rewrite Hun in He.
  unfold st_put, st_fail, st_try in He. destruct answer as [e|]; simpl in He.
  - injection He as <- <-. split; [done|]. split; [done|]. exists a, sent, (w :: left_). simpl. split_and!; try done; [by constructor|].
    unfold acknowledged_writes. simpl. rewrite omap_app. simpl. by rewrite app_nil_r.
  - destruct (Advance_refines (k + 1) h1 a HR1) as (h2 & Had & HR2); [done|]. rewrite Had in He. simpl in He. injection He as <- <-.
    split; [done|]. split; [done|]. exists (spec_Advance a), (sent ++ [w]), left_. simpl. split_and!; [done|by rewrite <- app_assoc|done|done|].
    unfold acknowledged_writes. simpl. rewrite omap_app. simpl. apply Forall2_app; [done|]. constructor; [by split|constructor].
Qed.

Lemma node_run k n acc ops : node_inv k n acc → k + Z.of_nat (length ops) < 2 ^ 64 → Forall node_op_ok ops →
  Forall (λ r, r ≠ Panic) (run_node ops n).2 ∧
  node_inv (k + Z.of_nat (length ops)) (run_node ops n).1 (acc ++ accepted_writes ops (run_node ops n).2).
Proof.
  intros Hinv Hk Hops. revert k n acc Hinv Hk. induction Hops as [|op ops Hop _ IH]; intros k n acc Hinv Hk; cbn [run_node].
  - split; [constructor|]. simpl. by rewrite app_nil_r, Z.add_0_r.
  - cbn [length] in *. destruct (exec_node op n) as [n1 r] eqn:E.
    assert (Hstep : r ≠ Panic ∧ node_inv (k + 1) n1 (acc ++ accepted_write op r)).
    { destruct op as [id points|now node answer]; [eapply node_write; [done|lia|done|done]|].
      destruct (node_send k n acc now node answer n1 r) as [Hr H1]; [done|lia|done|done|]. simpl. by rewrite app_nil_r. }
    destruct Hstep as [Hr H1]. destruct (IH (k + 1) n1 _ H1) as [H2 H3]; [lia|]. destruct (run_node ops n1) as [n2 rs]. cbn [fst snd] in *.
    split; [by constructor|]. unfold accepted_writes in *. cbn [zip_with concat]. rewrite app_assoc.
    by replace (k + Z.of_nat (S (length ops))) with (k + 1 + Z.of_nat (length ops)) by lia.
Qed.

(** A processor for a node that had none, opened. *)
Definition opened_processor (now : Time) (nodeID : Z) : NodeProcessor := (NodeProcessor_Open (NewNodeProcessor nodeID (no_files now))).1.
Lemma opened_processor_inv now nodeID : node_inv 1 (opened_processor now nodeID) [].
Proof.
  unfold opened_processor, NodeProcessor_Open. cbn [np_done NewNodeProcessor].
  change (set_queue _ _) with (fresh now defaultSegmentSize DefaultMaxSize). rewrite opened_eq. split; [done|].
  exists (spec_opened defaultSegmentSize DefaultMaxSize), [], []. split_and!; try done.
  pose proof (opened_R now defaultSegmentSize DefaultMaxSize) as HR. unfold opened in HR. rewrite opened_eq in HR. apply HR; vm_compute; done.
Qed.

(** C29: What a node acknowledges is what was handed off to it.  For fewer than
    [2^63] writes to a fresh node processor and attempts to send, in any order, with
    sending failing as it may, where every write has a [uint64] shard and one or
    more points whose lines the parser reads back ([writable]: names and tags
    without quotes, backslashes and line breaks, tags in order, fields with values
    that the line protocol holds, an [int64] time) and a block of less than [2^62]
    bytes, and where asking for the node does not panic: no call panics, and the
    writes that the node acknowledged are, in order and without gaps, the first of
    those that were accepted, with the same shard and for every point the same key,
    fields and time.  (A point that cannot be parsed again loses its block:
    [quote_in_tag_loses_block].) *)
Theorem handoff_delivers now nodeID ops : Forall node_op_ok ops → Z.of_nat (length ops) < 2 ^ 63 →
  let (n, rs) := run_node ops (opened_processor now nodeID) in
  Forall (λ r, r ≠ Panic) rs ∧
  ∃ sent left_, accepted_writes ops rs = sent ++ left_ ∧ Forall2 same_write sent (acknowledged_writes n).
Proof.
  intros Hops Hlen. destruct (node_run 1 (opened_processor now nodeID) [] ops (opened_processor_inv now nodeID)) as [H1 H2]; [lia|done|].
  destruct (run_node ops (opened_processor now nodeID)) as [n rs]. cbn [fst snd app] in *. split; [done|].
  destruct H2 as [_ (a & sent & left_ & _ & Hacc & _ & _ & Hs)]. by exists sent, left_.
Qed.
End blocks.

(** ** A concrete run *)

#[local] Instance node_maps : PointMaps := sample_maps.
#[local] Instance node_text : GoText := sample_text.
Definition sample_point : point :=
  match NewPoint "cpu" sample_tags sample_fields sample_time with Ok p => p | _ => mkPoint 0 empty_slice empty_slice empty_slice [] None EmptyString end.
Lemma sample_writable : writable sample_point.
Proof.
  destruct (NewPoint_written "cpu" sample_tags sample_fields sample_time) as (p & Hp & Hw);
    try (apply (bool_decide_unpack _); vm_compute; exact I).
  unfold writable, sample_point. rewrite Hp. exact Hw.
Qed.
Definition sample_node_ops : list NodeOp :=
  [NWrite 7 [sample_point]; NSend 5 (Ok true) (Some ErrTimeout); NSend 6 (Ok false) None; NSend 9 (Ok true) None; NWrite 8 [sample_point]].
Lemma handoff_delivers_witness :
  let (n, rs) := run_node sample_node_ops (opened_processor 0 3) in
  Forall (λ r, r ≠ Panic) rs ∧
  ∃ sent left_, accepted_writes sample_node_ops rs = sent ++ left_ ∧ Forall2 same_write sent (acknowledged_writes n).
Proof.
  apply (handoff_delivers 0 3 sample_node_ops); [|vm_compute; reflexivity].
  assert (Hw : ∀ id, is_u64 id → node_op_ok (NWrite id [sample_point])).
  { intros id Hid. split_and!; [exact Hid|apply Forall_singleton, sample_writable|discriminate|]. unfold marshalWrite, go_len. rewrite length_app, PutUint64_length.
    vm_compute. reflexivity. }
  repeat (constructor; [first [apply Hw; split; vm_compute; congruence|discriminate]|]). constructor.
Defined.
(** One of the two writes was acknowledged, after an attempt that failed. *)
Example sample_node_run :
  let (n, rs) := run_node sample_node_ops (opened_processor 0 3) in
  length (acknowledged_writes n) = 1%nat ∧ length (np_sent n) = 2%nat ∧
  map (λ w, (w.1, map (λ p, text (p_key p)) w.2)) (acknowledged_writes n) = [(7, [text (p_key sample_point)])].
Proof. vm_compute. auto. Qed.

(** ** The timers of the goroutine *)

Section timers.
Context {goText : GoText}.

Definition settings (n : NodeProcessor) : Duration * Duration * Duration := (np_PurgeInterval n, np_RetryInterval n, np_RetryMaxInterval n).
Lemma on_queue_settings {A} (m : Q A) n : settings (on_queue m n).1 = settings n.
Proof. unfold on_queue. destruct (np_queue n); [|done]. by destruct (m (np_hh n)). Qed.
Lemma SendWrite_settings now node answer n : settings (SendWrite now node answer n).1 = settings n.
Proof.
  unfold SendWrite, Active. unfold mbind, ST_bind. destruct node as [[]|e|]; simpl; [|done..].
  destruct (on_queue queue_Current n) as [n1 r] eqn:E. pose proof (on_queue_settings queue_Current n) as H1. rewrite E in H1. simpl in H1.
  destruct r as [buf|e|]; simpl; [|done..]. destruct (unmarshalWrite now buf) as [[[id points] [e|]]|e|]; simpl; [| | |done].
  - unfold st_try. destruct (on_queue queue_Advance n1) as [n2 r2] eqn:E2. pose proof (on_queue_settings queue_Advance n1) as H2. rewrite E2 in H2. simpl in H2.
    destruct r2; simpl; congruence.
  - destruct answer as [e|]; simpl; [done|]. unfold st_try. set (n2 := add_np_stat _ _ (add_np_stat _ _ _)).
    destruct (on_queue queue_Advance n2) as [n3 r2] eqn:E2. pose proof (on_queue_settings queue_Advance n2) as H2. rewrite E2 in H2. simpl in H2.
    assert (settings n2 = settings n1) by done. destruct r2; simpl; congruence.
  - unfold st_try. destruct (on_queue queue_Advance n1) as [n2 r2] eqn:E2. pose proof (on_queue_settings queue_Advance n1) as H2. rewrite E2 in H2. simpl in H2.
    destruct r2; simpl; congruence.
Qed.

(** The interval stays below both settings. *)
Definition in_bounds (n : NodeProcessor) (interval : Duration) : Prop := interval ≤ Z.max (np_RetryInterval n) (np_RetryMaxInterval n).
Lemma backoff_bounds n interval : in_bounds n (backoff n interval).
Proof. unfold in_bounds, backoff. destruct (Z.ltb_spec (np_RetryMaxInterval n) (i64 (interval * 2))); lia. Qed.
Lemma send_loop_bounds answers : ∀ interval n n' interval', in_bounds n interval → send_loop answers interval n = Ok (n', interval') →
  settings n' = settings n ∧ in_bounds n' interval'.
Proof.
  assert (Hretry : ∀ n, in_bounds n (np_RetryInterval n)) by (intros; unfold in_bounds; lia).
  induction answers as [|[[now node] answer] answers IH]; intros interval n n' interval' Hb H; simpl in H; [by simplify_eq|].
  pose proof (SendWrite_settings now node answer n) as Hs. destruct (SendWrite now node answer n) as [n1 [c|e|]]; simpl in Hs; [| |done].
  - destruct (IH _ _ _ _ (Hretry n1) H) as [H1 H2]. split; [congruence|done].
  - assert (He : n' = n1 ∧ (interval' = np_RetryInterval n1 ∨ interval' = backoff n1 interval)) by (destruct e as [[]| | | |]; injection H as <- <-; auto).
    destruct He as [-> [->| ->]]; (split; [done|]); [apply Hretry|apply backoff_bounds].
Qed.

(** When the intervals between attempts are shorter than the interval between
    purges, as they are by default, nothing is ever purged: the timer for the purge
    is started anew in every round and never the first to fire. *)
Theorem purge_never_runs n interval bs n' interval' : rounds n interval bs n' interval' → in_bounds n interval →
  Z.max (np_RetryInterval n) (np_RetryMaxInterval n) < np_PurgeInterval n → BranchPurge ∉ bs.
Proof.
  induction 1 as [|n interval b now answers n1 interval1 bs n2 interval2 Hf Hr _ IH]; intros Hb Hp; [by apply not_elem_of_nil|].
  apply not_elem_of_cons. destruct b; simpl in Hr; [done|unfold fires, in_bounds in *; lia|].
  destruct (send_loop answers interval n) as [[n3 interval3]| |] eqn:E; simplify_eq/=. destruct (send_loop_bounds _ _ _ _ _ Hb E) as [Hs Hb1].
  split; [done|]. unfold settings in Hs. injection Hs as H1 H2 H3. apply IH; [done|]. by rewrite H1, H2, H3.
Qed.
Lemma purge_never_runs_by_default now nodeID bs n' interval' :
  rounds (opened_processor now nodeID) (first_interval (opened_processor now nodeID)) bs n' interval' → BranchPurge ∉ bs.
Proof. intros H. eapply purge_never_runs; [exact H|vm_compute; congruence|vm_compute; reflexivity]. Qed.
End timers.

(** ** Closing *)

(** A goroutine that is about to send when the processor is closed waits for the
    lock, and [Close], which has the lock, waits for the goroutine. *)
Theorem Close_deadlocks : ∃ s, rtc close_step (mkClose BeforeClose InSelect false) s ∧ cl_closer s = WaitGroup ∧ ∀ s', ¬ close_step s s'.
Proof.
  exists (mkClose WaitGroup WaitRLock true). split_and!; [|done|by intros s' H; inversion H].
  eapply rtc_l; [apply run_timer|]. eapply rtc_l; [apply close_called|]. eapply rtc_l; [by apply close_locked|]. constructor.
Qed.

(** ** Settings *)

(** The limits of the configuration do not reach the processors: they have the
    defaults, and no rate limit. *)
Theorem configured_limits_ignored now s id s' n : open_processor now id s = (s', Ok n) →
  settings n = (DefaultPurgeInterval, DefaultRetryInterval, DefaultRetryMaxInterval) ∧
  np_MaxSize n = DefaultMaxSize ∧ np_MaxAge n = DefaultMaxAge ∧ np_RetryRateLimit n = 0.
Proof.
  unfold open_processor, NodeProcessor_Open. simpl. destruct (queue_Open _) as [h [[]|e|]]; intros H; by simplify_eq/=.
Qed.

(** The delay between writes is cut off to whole seconds: half a second is none. *)
Example short_delay_lost : (limiter_Delay HhQueue.Second (limiter_Update 10 (NewRateLimiter 0 10))).2 = 0 ∧
  l_delay (limiter_Delay HhQueue.Second (limiter_Update 10 (NewRateLimiter 0 10))).1 = f64_half.
Proof. vm_compute. auto. Qed.
(** And it is not limited to one second. *)
Example long_delay : (limiter_Delay HhQueue.Second (limiter_Delay HhQueue.Second (limiter_Delay HhQueue.Second (limiter_Update 100 (NewRateLimiter 0 10))).1).1).2 = 3 * HhQueue.Second.
Proof. vm_compute. reflexivity. Qed.

(** A quote in a tag of one point and a space before it make [scanLine] take the
    line break for a part of a string: both points of the block are lost. *)
Example quote_in_tag_loses_block :
  let line := of_string "cpu,a=x\ y,b=" ++ [dquote] ++ of_string "z v=1" ++ [newline] ++ of_string "mem v=1" ++ [newline] in
  ParsePoints 0 100 (mkSlice line []) ≠ ParsePoints 0 100 (mkSlice [] []) ∧
  match ParsePoints 0 100 (mkSlice line []) with Ok ([], Some _) => true | _ => false end = true.
Proof. vm_compute. split; [discriminate|reflexivity]. Qed.
