(* ===== verification/Retention.v ===== *)
(** * Retention and precreation: [services/retention] and [services/precreator]

    The checks that the tickers of the two services run.  The leader marks the
    groups of shards that have expired as deleted; every node then removes its
    shards of such groups.  The store of shards is the set of their IDs; whether
    closing a shard and removing its files fails is an argument.  A check of the
    groups marks exactly those that have expired, and a check of the shards removes
    exactly the shards of marked groups. *)

From stdpp Require Import base list strings gmap.
From Stdlib Require Import ZArith Lia.
From S2P Require Import Prelude MetaData MetaCodec MetaInv MetaShards MetaStore MetaFsm MetaProps MetaClient MetaClientProps QlDuration.

Local Open Scope Z_scope.
Local Open Scope go_scope.

(** ** Configuration *)

Record RetentionConfig := mkRetentionConfig { rc_Enabled : bool; rc_CheckInterval : Duration }.
Definition NewRetentionConfig : RetentionConfig := mkRetentionConfig true (30 * Minute).

Definition DefaultCheckInterval : Duration := 10 * Minute.
Definition DefaultAdvancePeriod : Duration := 30 * Minute.
Record PrecreatorConfig := mkPrecreatorConfig { pc_Enabled : bool; pc_CheckInterval : Duration; pc_AdvancePeriod : Duration }.
Definition NewPrecreatorConfig : PrecreatorConfig := mkPrecreatorConfig true DefaultCheckInterval DefaultAdvancePeriod.

Section services.
Context {GS : GoSort} {bytes : Type} {PB : Protobuf bytes}.

Definition Store_IsLeader (w : World) : bool := match w_role w with RaftLeader => true | _ => false end.

(** ** Groups *)

(** A failure is logged. *)
Fixpoint delete_groups (database policy : string) (ids : list Z) : M unit :=
  match ids with
  | [] => M_ret ()
  | id :: ids => do _ <- M_try (Store_DeleteShardGroup database policy id); delete_groups database policy ids
  end.
(** The time is read for each policy. *)
Fixpoint expire_policies (l : list (DatabaseInfo * RetentionPolicyInfo)) : M unit :=
  match l with
  | [] => M_ret ()
  | (d, r) :: l =>
      do _ <- (λ w, delete_groups (di_Name d) (rpi_Name r) (sgi_ID <$> RetentionPolicyInfo_ExpiredShardGroups r (w_now w)) w);
      expire_policies l
  end.
(** One tick of [deleteShardGroups]. *)
Definition deleteShardGroups_tick : M unit := λ w,
  if Store_IsLeader w then
    (do r <- M_try Store_VisitRetentionPolicies;
     match r with inl l => expire_policies l | inr _ => M_ret () end) w
  else (w, Ok ()).

(** ** Shards *)

(** The shards of deleted groups with their databases and policies. *)
Definition deleted_of (d : DatabaseInfo) (r : RetentionPolicyInfo) : list (Z * (string * string)) :=
  g ← RetentionPolicyInfo_DeletedShardGroups r; (λ sh, (si_ID sh, (di_Name d, rpi_Name r))) <$> sgi_Shards g.
Definition deletedShardIDs (l : list (DatabaseInfo * RetentionPolicyInfo)) : gmap Z (string * string) :=
  foldl (λ m x, <[x.1 := x.2]> m) ∅ (p ← l; deleted_of p.1 p.2).

(** [tsdb.Store.DeleteShard]: a shard that is not there is no error. *)
Definition DeleteShard (fails : Z → bool) (id : Z) (shards : gset Z) : gset Z * bool :=
  if bool_decide (id ∈ shards) then if fails id then (shards, false) else (shards ∖ {[id]}, true)
  else (shards, true).
Definition delete_shards (fails : Z → bool) (deleted : gmap Z (string * string)) (ids : list Z) (shards : gset Z) : gset Z :=
  foldl (λ shards id, if bool_decide (is_Some (deleted !! id)) then (DeleteShard fails id shards).1 else shards) shards ids.
(** One tick of [deleteShards]; [ids] are the shards in the order in which
    [ShardIDs] gives them. *)
Definition deleteShards_tick (fails : Z → bool) (ids : list Z) (shards : gset Z) : M (gset Z) :=
  do r <- M_try Store_VisitRetentionPolicies;
  M_ret (delete_shards fails (deletedShardIDs (match r with inl l => l | inr _ => [] end)) ids shards).

(** ** Precreation *)

Definition precreate (advancePeriod : Duration) (now : Time) : M unit :=
  Store_PrecreateShardGroups now (Time_Add now advancePeriod).
(** A failure is logged. *)
Definition runPrecreation_tick (advancePeriod : Duration) : M unit := λ w,
  if Store_IsLeader w then (do _ <- M_try (precreate advancePeriod (w_now w)); M_ret ()) w else (w, Ok ()).
End services.

(** ** Marking groups *)

Definition map_policies (f : RetentionPolicyInfo → RetentionPolicyInfo) (d : Data) : Data :=
  set_Databases ((λ di, set_di_RetentionPolicies (f <$> di_RetentionPolicies di) di) <$> Databases d) d.
Definition map_groups (f : ShardGroupInfo → ShardGroupInfo) (r : RetentionPolicyInfo) : RetentionPolicyInfo :=
  set_rpi_ShardGroups (f <$> rpi_ShardGroups r) r.

Definition mark_if (now : Time) (b : bool) (g : ShardGroupInfo) : ShardGroupInfo := if b then set_sgi_DeletedAt now g else g.
(** The groups with some IDs are marked. *)
Definition mark_ids (now : Time) (ids : list Z) (d : Data) : Data :=
  map_policies (map_groups (λ g, mark_if now (bool_decide (sgi_ID g ∈ ids)) g)) d.

Lemma alter_as_fmap {A} (f g : A → A) (l : list A) i :
  (∀ k y, l !! k = Some y → g y = if decide (k = i) then f y else y) → alter f i l = g <$> l.
Proof.
  intros H. apply list_eq. intros k. rewrite list_lookup_fmap. destruct (decide (k = i)) as [->|Hne].
  - rewrite list_lookup_alter_eq. destruct (l !! i) as [y|] eqn:E; [|done]. simpl. rewrite (H i y E). by rewrite decide_True.
  - rewrite list_lookup_alter_ne by done. destruct (l !! k) as [y|] eqn:E; [|done]. simpl. rewrite (H k y E). by rewrite decide_False.
Qed.
Lemma bind_disjoint {A B K} (g : A → list B) (key : B → K) (l : list A) i k x y a b :
  NoDup (key <$> (l ≫= g)) → l !! i = Some x → l !! k = Some y → k ≠ i → a ∈ g x → b ∈ g y → key a ≠ key b.
Proof.
  revert i k. induction l as [|z l IH]; intros i k; [done|]. csimpl. rewrite fmap_app. intros (_ & Hd & H)%NoDup_app Hx Hy Hne Ha Hb E.
  assert (G : ∀ j u c, l !! j = Some u → c ∈ g u → key c ∈ key <$> (l ≫= g)).
  { intros j u c Hu Hc. apply list_elem_of_fmap_2, list_elem_of_bind. exists u. split; [done|]. by eapply list_elem_of_lookup_2. }
  destruct i as [|i], k as [|k]; simplify_eq/=; [..|by eapply (IH i k); eauto].
  - eapply (Hd (key a)); [by apply list_elem_of_fmap_2|]. rewrite E. by eapply G.
  - eapply (Hd (key b)); [by apply list_elem_of_fmap_2|]. rewrite <- E. by eapply G.
Qed.

Lemma mark_none now (ids : list Z) r : (∀ g, g ∈ rpi_ShardGroups r → sgi_ID g ∉ ids) →
  map_groups (λ g, mark_if now (bool_decide (sgi_ID g ∈ ids)) g) r = r.
Proof.
  intros H. unfold map_groups. assert (∀ l : list ShardGroupInfo, (∀ g, g ∈ l → sgi_ID g ∉ ids) →
    (λ g, mark_if now (bool_decide (sgi_ID g ∈ ids)) g) <$> l = l) as G.
  { intros l Hl. induction l as [|g l IH]; [done|]. csimpl. rewrite IH by (intros; apply Hl; set_solver). f_equal.
    unfold mark_if. rewrite bool_decide_eq_false_2; [done|]. apply Hl. set_solver. }
  rewrite G by done. by destruct r.
Qed.
(** A policy elsewhere has no group with the ID. *)
Lemma group_elsewhere d i j di r g i' j' di' r' g' :
  NoDup (sgi_ID <$> all_groups d) → Databases d !! i = Some di → di_RetentionPolicies di !! j = Some r → g ∈ rpi_ShardGroups r →
  Databases d !! i' = Some di' → di_RetentionPolicies di' !! j' = Some r' → g' ∈ rpi_ShardGroups r' → (i', j') ≠ (i, j) →
  sgi_ID g' ≠ sgi_ID g.
Proof.
  intros Hids Hi Hj Hg Hi' Hj' Hg' Hne. destruct (decide (i' = i)) as [->|Hni].
  - assert (di' = di) as -> by congruence. assert (j' ≠ j) by congruence.
    assert (NoDup (sgi_ID <$> db_groups di)) as Hd.
    { destruct (all_groups_at_db d i di Hi) as (rest & Hp & _). rewrite Hp, fmap_app in Hids. by apply NoDup_app in Hids as [? _]. }
    eapply (bind_disjoint rpi_ShardGroups sgi_ID _ j' j); [exact Hd|done..|congruence|done|done].
  - eapply (bind_disjoint db_groups sgi_ID _ i' i); [exact Hids|done..|congruence| |].
    + unfold db_groups. apply list_elem_of_bind. exists r'. split; [done|]. by eapply list_elem_of_lookup_2.
    + unfold db_groups. apply list_elem_of_bind. exists r. split; [done|]. by eapply list_elem_of_lookup_2.
Qed.

(** [DeleteShardGroup] for a group of the data. *)
Lemma DeleteShardGroup_marks now d i j di r g :
  Data_wf d → Databases d !! i = Some di → di_RetentionPolicies di !! j = Some r → g ∈ rpi_ShardGroups r →
  Data_DeleteShardGroup now d (di_Name di) (rpi_Name r) (sgi_ID g) = Ok (mark_ids now [sgi_ID g] d).
Proof.
  intros Hwf Hi Hj Hg.
  assert (Hdb : db_wf di) by (eapply Forall_lookup_1; [apply (wf_dbs _ Hwf)|done]). destruct Hdb as (_ & Hrps & _ & _).
  pose proof (gw_ids _ _ _ (wf_groups _ Hwf)) as Hids.
  pose proof (λ i' j' di' r' g', group_elsewhere d i j di r g i' j' di' r' g' Hids Hi Hj Hg) as Hother.
  apply list_elem_of_lookup_1 in Hg as [k Hk].
  assert (Hgi : NoDup (sgi_ID <$> rpi_ShardGroups r)).
  { destruct (all_groups_at_rp d (i, j) r) as (rest & Hp & _); [unfold lookup_rp; simpl; by rewrite Hi|].
    rewrite Hp, fmap_app in Hids. by apply NoDup_app in Hids as [? _]. }
  unfold Data_DeleteShardGroup, Data_MustRetentionPolicy, Data_RetentionPolicy, Data_Database.
  rewrite (list_find_key di_Name _ i di) by (done || apply Hwf).
  rewrite (list_find_key rpi_Name _ j r) by done. cbn [outcome_bind].
  rewrite (list_find_key sgi_ID _ k g) by done. f_equal. unfold at_rp, at_db, mark_ids, map_policies. f_equal. cbn [fst snd].
  apply alter_as_fmap. intros i' di' Hi'. symmetry. case_decide as Hd.
  - subst i'. assert (di' = di) as -> by congruence. f_equal. apply alter_as_fmap. intros j' r' Hj'. case_decide as Hj2.
    + subst j'. assert (r' = r) as -> by congruence. unfold map_groups. f_equal. symmetry. apply alter_as_fmap. intros k' g' Hk'.
      unfold mark_if. case_decide as Hk2.
      * subst k'. assert (g' = g) as -> by congruence. by rewrite bool_decide_eq_true_2 by (by apply list_elem_of_singleton).
      * rewrite bool_decide_eq_false_2; [done|]. rewrite list_elem_of_singleton. intros E. apply Hk2.
        eapply (NoDup_lookup _ _ _ (sgi_ID g) Hgi); rewrite list_lookup_fmap; [by rewrite Hk', <- E|by rewrite Hk].
    + apply mark_none. intros g' Hg'. rewrite list_elem_of_singleton. eapply (Hother i j' di r'); [done..|congruence].
  - assert (map_groups (λ g0, mark_if now (bool_decide (sgi_ID g0 ∈ [sgi_ID g])) g0) <$> di_RetentionPolicies di' = di_RetentionPolicies di') as ->.
    { apply list_eq. intros j'. rewrite list_lookup_fmap. destruct (di_RetentionPolicies di' !! j') as [r'|] eqn:Hj'; [|done].
      simpl. f_equal. apply mark_none. intros g' Hg'. rewrite list_elem_of_singleton. eapply (Hother i' j' di' r'); [done..|congruence]. }
    by destruct di'.
Qed.

Lemma map_policies_compose f f' d : map_policies f (map_policies f' d) = map_policies (λ r, f (f' r)) d.
Proof.
  unfold map_policies. change (set_Databases ?a (set_Databases ?b d)) with (set_Databases a d). f_equal.
  change (Databases (set_Databases ?b d)) with b. rewrite <- list_fmap_compose. apply list_fmap_ext. intros _ di _.
  destruct di. unfold set_di_RetentionPolicies. simpl. by rewrite <- list_fmap_compose.
Qed.
Lemma map_policies_ext f f' d : (∀ di r, di ∈ Databases d → r ∈ di_RetentionPolicies di → f r = f' r) → map_policies f d = map_policies f' d.
Proof.
  intros H. unfold map_policies. f_equal. apply list_fmap_ext. intros _ di Hdi%list_elem_of_lookup_2. f_equal.
  apply list_fmap_ext. intros _ r Hr%list_elem_of_lookup_2. by eapply H.
Qed.
Lemma mark_again now id ids d : mark_ids now [id] (mark_ids now ids d) = mark_ids now (ids ++ [id]) d.
Proof.
  unfold mark_ids. rewrite map_policies_compose. apply map_policies_ext. intros di r _ _. unfold map_groups. destruct r. unfold set_rpi_ShardGroups. simpl. f_equal.
  rewrite <- list_fmap_compose. apply list_fmap_ext. intros _ g _. simpl. unfold mark_if. destruct g as [gid a b del shs].
  rewrite !(bool_decide_decide (gid ∈ ids)). destruct (decide (gid ∈ ids)) as [H|H]; simpl; repeat case_bool_decide; try done; set_solver.
Qed.
Lemma mark_nothing now d : mark_ids now [] d = d.
Proof.
  unfold mark_ids. transitivity (map_policies id d).
  - apply map_policies_ext. intros di r _ _. apply mark_none. intros g _. apply not_elem_of_nil.
  - unfold map_policies. transitivity (set_Databases (Databases d) d); [|by destruct d]. f_equal. rewrite <- (list_fmap_id (Databases d)) at 2.
    apply list_fmap_ext. intros _ di _. rewrite list_fmap_id. by destruct di.
Qed.

(** ** A check of the groups *)

Section checks.
Context {GS : GoSort} {bytes : Type} {PB : Protobuf bytes}.

(** The data but for the term and the index of the log. *)
Definition same_but_log (d d' : Data) : Prop := ∃ t i, d' = set_TermIndex t i d.
Lemma same_but_log_refl d : same_but_log d d.
Proof. exists (Term d), (Index d). by destruct d. Qed.

(** A leader in the middle of a check: some groups are marked. *)
Definition mid_check (now : Time) (d : Data) (ids : list Z) (w : World) : Prop :=
  leader_world w ∧ w_now w = now ∧ Data_wf (w_data w) ∧ same_but_log (mark_ids now ids d) (w_data w).

Lemma marked_lookup now ids d i j di r g : Databases d !! i = Some di → di_RetentionPolicies di !! j = Some r → g ∈ rpi_ShardGroups r →
  ∃ di' r' g', Databases (mark_ids now ids d) !! i = Some di' ∧ di_RetentionPolicies di' !! j = Some r' ∧ g' ∈ rpi_ShardGroups r' ∧
    di_Name di' = di_Name di ∧ rpi_Name r' = rpi_Name r ∧ sgi_ID g' = sgi_ID g.
Proof.
  intros Hi Hj Hg. unfold mark_ids, map_policies. cbn [Databases set_Databases]. rewrite list_lookup_fmap, Hi. cbn [fmap option_fmap option_map].
  eexists _, _, _. split; [reflexivity|]. cbn [di_RetentionPolicies set_di_RetentionPolicies]. rewrite list_lookup_fmap, Hj.
  split; [reflexivity|]. split; [unfold map_groups; cbn [rpi_ShardGroups set_rpi_ShardGroups]; by apply list_elem_of_fmap_2|].
  split_and!; [done..|]. unfold mark_if. by destruct (bool_decide _).
Qed.

Lemma delete_group_checked now d ids w i j di r g : mid_check now d ids w →
  Databases d !! i = Some di → di_RetentionPolicies di !! j = Some r → g ∈ rpi_ShardGroups r →
  ∃ w', Store_DeleteShardGroup (di_Name di) (rpi_Name r) (sgi_ID g) w = (w', Ok ()) ∧ mid_check now d (ids ++ [sgi_ID g]) w'.
Proof.
  intros (Hw & Hnow & Hwf & t & x & Hd) Hi Hj Hg.
  destruct (marked_lookup now ids d i j di r g Hi Hj Hg) as (di' & r' & g' & Hi' & Hj' & Hg' & N1 & N2 & N3).
  assert (Hdel : Data_DeleteShardGroup (w_now w) (w_data w) (di_Name di) (rpi_Name r) (sgi_ID g) = Ok (mark_ids now [sgi_ID g] (w_data w))).
  { rewrite <- N1, <- N2, <- N3, Hnow. apply (DeleteShardGroup_marks now (w_data w) i j di' r' g'); [done| |done..]. by rewrite Hd. }
  eexists. split.
  - unfold Store_DeleteShardGroup. apply exec_leader; [done|]. unfold Apply. cbn [l_cmd apply_command].
    unfold applyDeleteShardGroupCommand. rewrite Data_Clone_id, Hdel. cbn. reflexivity.
  - split_and!; [done..| |].
    + apply set_TermIndex_wf. by eapply Data_DeleteShardGroup_wf.
    + eexists _, _. cbn. rewrite <- mark_again, Hd. reflexivity.
Qed.

(** A policy of the data, by its place. *)
Definition policy_of (d : Data) (di : DatabaseInfo) (r : RetentionPolicyInfo) : Prop :=
  ∃ i j, Databases d !! i = Some di ∧ di_RetentionPolicies di !! j = Some r.
Definition expired_ids (now : Time) (l : list (DatabaseInfo * RetentionPolicyInfo)) : list Z :=
  p ← l; sgi_ID <$> RetentionPolicyInfo_ExpiredShardGroups p.2 now.

Lemma delete_groups_checked now d di r gs : policy_of d di r → gs ⊆ rpi_ShardGroups r → ∀ ids w, mid_check now d ids w →
  ∃ w', delete_groups (di_Name di) (rpi_Name r) (sgi_ID <$> gs) w = (w', Ok ()) ∧ mid_check now d (ids ++ (sgi_ID <$> gs)) w'.
Proof.
  intros (i & j & Hi & Hj). induction gs as [|g gs IH]; intros Hgs ids w Hw.
  - exists w. by rewrite app_nil_r.
  - destruct (delete_group_checked now d ids w i j di r g) as (w1 & E1 & H1); [done..|apply Hgs; set_solver|].
    destruct (IH ltac:(set_solver) _ _ H1) as (w2 & E2 & H2). exists w2. split.
    + csimpl. unfold M_bind at 1, M_try. by rewrite E1.
    + rewrite <- app_assoc in H2. exact H2.
Qed.
Lemma expire_policies_checked now d l : Forall (λ p, policy_of d p.1 p.2) l → ∀ ids w, mid_check now d ids w →
  ∃ w', expire_policies l w = (w', Ok ()) ∧ mid_check now d (ids ++ expired_ids now l) w'.
Proof.
  induction 1 as [|[di r] l Hp _ IH]; intros ids w Hw; [exists w; by rewrite app_nil_r|].
  destruct (delete_groups_checked now d di r (RetentionPolicyInfo_ExpiredShardGroups r now) Hp) with (ids := ids) (w := w) as (w1 & E1 & H1); [|done|].
  { intros g. unfold RetentionPolicyInfo_ExpiredShardGroups. rewrite list_elem_of_filter. tauto. }
  destruct (IH _ _ H1) as (w2 & E2 & H2). exists w2. split.
  - cbn [expire_policies]. unfold M_bind at 1. destruct Hw as (_ & -> & _). by rewrite E1.
  - unfold expired_ids in *. csimpl. by rewrite (assoc_L (++)).
Qed.

Definition policies (d : Data) : list (DatabaseInfo * RetentionPolicyInfo) :=
  di ← Databases d; pair di <$> di_RetentionPolicies di.
Lemma elem_of_policies d di r : (di, r) ∈ policies d ↔ policy_of d di r.
Proof.
  unfold policies, policy_of. rewrite list_elem_of_bind. split.
  - intros (di' & Hr & Hd). apply list_elem_of_fmap in Hr as (r' & [= -> ->] & Hr). apply list_elem_of_lookup_1 in Hd as [i Hi], Hr as [j Hj]. by exists i, j.
  - intros (i & j & Hi & Hj). exists di. split; [apply list_elem_of_fmap_2; by eapply list_elem_of_lookup_2|by eapply list_elem_of_lookup_2].
Qed.
Lemma Visit_leader w : leader_world w → Store_VisitRetentionPolicies w = (w, Ok (policies (w_data w))).
Proof. intros Hw. unfold Store_VisitRetentionPolicies. by rewrite (read_leader w _ (policies (w_data w)) None). Qed.

(** A group has expired, by its own times and the duration of its policy. *)
Definition group_expired (now : Time) (r : RetentionPolicyInfo) (g : ShardGroupInfo) : bool :=
  negb (rpi_Duration r =? 0) && (sgi_EndTime g + rpi_Duration r <? now).
Definition expire (now : Time) (d : Data) : Data :=
  map_policies (λ r, map_groups (λ g, mark_if now (negb (ShardGroupInfo_Deleted g) && group_expired now r g) g) r) d.

(** By ID or by their times: these are the same groups. *)
Lemma mark_expired now d : Data_wf d → mark_ids now (expired_ids now (policies d)) d = expire now d.
Proof.
  intros Hwf. apply map_policies_ext. intros di r Hdi Hr. unfold map_groups. f_equal. apply list_fmap_ext. intros k g Hk.
  apply list_elem_of_lookup_2 in Hk. unfold mark_if. assert (sgi_ID g ∈ expired_ids now (policies d) ↔
    negb (ShardGroupInfo_Deleted g) && group_expired now r g = true) as H.
  { apply list_elem_of_lookup_1 in Hdi as [i Hi], Hr as [j Hj]. unfold expired_ids. rewrite list_elem_of_bind. split.
    - intros ([di' r'] & Hg' & (i' & j' & Hi' & Hj')%elem_of_policies). apply list_elem_of_fmap in Hg' as (g' & E & Hg'). simpl in *.
      unfold RetentionPolicyInfo_ExpiredShardGroups in Hg'. apply list_elem_of_filter in Hg' as [Hx Hg'].
      destruct (decide ((i', j') = (i, j))) as [[= -> ->]|Hne].
      2: { symmetry in E. by destruct (group_elsewhere d i j di r g i' j' di' r' g' (gw_ids _ _ _ (wf_groups _ Hwf)) Hi Hj Hk Hi' Hj' Hg' Hne). }
      assert (di' = di) as -> by congruence. assert (r' = r) as -> by congruence.
      destruct (all_groups_at_rp d (i, j) r) as (rest & Hp & _); [unfold lookup_rp; simpl; by rewrite Hi|].
      pose proof (gw_ids _ _ _ (wf_groups _ Hwf)) as Hids. rewrite Hp, fmap_app in Hids. apply NoDup_app in Hids as [Hn _].
      apply list_elem_of_lookup_1 in Hk as [k1 K1], Hg' as [k2 K2].
      assert (k1 = k2) as -> by (eapply (NoDup_lookup _ _ _ (sgi_ID g) Hn); rewrite list_lookup_fmap; [by rewrite K1|by rewrite K2, E]).
      assert (g' = g) as -> by congruence. by apply Is_true_eq_true in Hx.
    - intros Hx. exists (di, r). split; [|apply elem_of_policies; by exists i, j]. apply list_elem_of_fmap_2. apply list_elem_of_filter. split; [|done].
      by apply Is_true_eq_left. }
  destruct (negb (ShardGroupInfo_Deleted g) && group_expired now r g); [rewrite bool_decide_eq_true_2|rewrite bool_decide_eq_false_2]; [done|by apply H|done|].
  intros ?%H. done.
Qed.

(** The check marks exactly the groups that have expired. *)
Lemma deleteShardGroups_exact w : leader_world w → Data_wf (w_data w) →
  ∃ w', deleteShardGroups_tick w = (w', Ok ()) ∧ leader_world w' ∧ Data_wf (w_data w') ∧ same_but_log (expire (w_now w) (w_data w)) (w_data w').
Proof.
  intros Hw Hwf. destruct (expire_policies_checked (w_now w) (w_data w) (policies (w_data w))) with (ids := @nil Z) (w := w)
    as (w' & E & Hw' & _ & Hwf' & Hd).
  - apply Forall_forall. intros [di r]. apply elem_of_policies.
  - split_and!; [done..|]. rewrite mark_nothing. apply same_but_log_refl.
  - exists w'. rewrite <- mark_expired by done. split_and!; [|done..]. unfold deleteShardGroups_tick, Store_IsLeader. rewrite (proj1 Hw).
    unfold M_bind, M_try. by rewrite Visit_leader.
Qed.

(** ** A check of the shards *)

Lemma foldl_insert_Some {A} (l : list (Z * A)) (m : gmap Z A) id :
  is_Some (foldl (λ m x, <[x.1 := x.2]> m) m l !! id) ↔ is_Some (m !! id) ∨ id ∈ l.*1.
Proof.
  revert m. induction l as [|[k a] l IH]; intros m; simpl; [set_solver|]. rewrite IH. destruct (decide (k = id)) as [->|Hne].
  - rewrite lookup_insert_eq. set_solver.
  - rewrite lookup_insert_ne by done. set_solver.
Qed.
Lemma deletedShardIDs_Some d id : is_Some (deletedShardIDs (policies d) !! id) ↔
  ∃ di r g, policy_of d di r ∧ g ∈ rpi_ShardGroups r ∧ ShardGroupInfo_Deleted g = true ∧ id ∈ si_ID <$> sgi_Shards g.
Proof.
  unfold deletedShardIDs. rewrite foldl_insert_Some, lookup_empty, is_Some_alt. split.
  - intros [[]|H]. apply list_elem_of_fmap in H as ([id' x] & -> & H). apply list_elem_of_bind in H as ([di r] & H & Hp%elem_of_policies).
    unfold deleted_of in H. apply list_elem_of_bind in H as (g & H & Hg). apply list_elem_of_fmap in H as (sh & [= -> _] & Hsh).
    unfold RetentionPolicyInfo_DeletedShardGroups in Hg. apply list_elem_of_filter in Hg as [Hd Hg]. exists di, r, g.
    simpl in *. split_and!; [done..|by apply Is_true_eq_true|by apply list_elem_of_fmap_2].
  - intros (di & r & g & Hp & Hg & Hd & Hid). right. apply list_elem_of_fmap in Hid as (sh & -> & Hsh).
    apply list_elem_of_fmap. exists (si_ID sh, (di_Name di, rpi_Name r)). split; [done|]. apply list_elem_of_bind. exists (di, r).
    split; [|by apply elem_of_policies]. apply list_elem_of_bind. exists g.
    split; [apply list_elem_of_fmap; by exists sh|]. apply list_elem_of_filter. split; [by apply Is_true_eq_left|done].
Qed.
Lemma delete_shards_spec fails deleted ids shards id :
  id ∈ delete_shards fails deleted ids shards ↔ id ∈ shards ∧ (id ∈ ids → is_Some (deleted !! id) → fails id = true).
Proof.
  unfold delete_shards. revert shards. induction ids as [|x ids IH]; intros shards; simpl.
  { split; [intros H; split; [done|intros []%not_elem_of_nil]|by intros [? _]]. }
  rewrite IH. rewrite elem_of_cons. unfold DeleteShard. case_bool_decide as H1.
  - case_bool_decide as H2; [destruct (fails x) eqn:Hf|]; simpl.
    + naive_solver.
    + rewrite elem_of_difference, elem_of_singleton. split; [naive_solver|]. intros [Hs H]. split; [split; [done|]|naive_solver]. intros ->.
      specialize (H (or_introl eq_refl) H1). congruence.
    + naive_solver.
  - naive_solver.
Qed.

(** The groups of the data after a check of the groups. *)
Lemma expired_deleted now d id : now ≠ Time_zero →
  (∃ di r g, policy_of (expire now d) di r ∧ g ∈ rpi_ShardGroups r ∧ ShardGroupInfo_Deleted g = true ∧ id ∈ si_ID <$> sgi_Shards g) ↔
  (∃ di r g, policy_of d di r ∧ g ∈ rpi_ShardGroups r ∧ (ShardGroupInfo_Deleted g = true ∨ group_expired now r g = true) ∧ id ∈ si_ID <$> sgi_Shards g).
Proof.
  intros Hnow. assert (Hm : ∀ g, ShardGroupInfo_Deleted (set_sgi_DeletedAt now g) = true).
  { intros g. unfold ShardGroupInfo_Deleted, Time_IsZero. simpl. unfold Time_zero in Hnow. destruct (Z.eqb_spec now 0); done. }
  assert (Hg : ∀ r g, ShardGroupInfo_Deleted (mark_if now (negb (ShardGroupInfo_Deleted g) && group_expired now r g) g) = true ↔
    ShardGroupInfo_Deleted g = true ∨ group_expired now r g = true).
  { intros r g. unfold mark_if. destruct (ShardGroupInfo_Deleted g) eqn:E; simpl; [by rewrite E; tauto|].
    destruct (group_expired now r g); [rewrite Hm|rewrite E]; naive_solver. }
  assert (Hs : ∀ b g, sgi_Shards (mark_if now b g) = sgi_Shards g) by (by intros []).
  split.
  - intros (di & r & g & (i & j & Hi & Hj) & Hgr & Hd & Hid). unfold expire, map_policies in Hi. cbn [Databases set_Databases] in Hi.
    rewrite list_lookup_fmap in Hi. destruct (Databases d !! i) as [di0|] eqn:Hi0; [|done]. injection Hi as <-. simpl in Hj.
    rewrite list_lookup_fmap in Hj. destruct (di_RetentionPolicies di0 !! j) as [r0|] eqn:Hj0; [|done]. injection Hj as <-. simpl in Hgr.
    apply list_elem_of_fmap in Hgr as (g0 & -> & Hg0). rewrite Hs in Hid. apply Hg in Hd. exists di0, r0, g0. split_and!; [by exists i, j|done..].
  - intros (di & r & g & (i & j & Hi & Hj) & Hgr & Hd & Hid). apply Hg in Hd. eexists _, _, _. split; [|split; [|split; [exact Hd|by rewrite Hs]]].
    + exists i, j. unfold expire, map_policies. cbn [Databases set_Databases]. rewrite list_lookup_fmap, Hi. split; [reflexivity|]. simpl.
      rewrite list_lookup_fmap, Hj. reflexivity.
    + simpl. by apply (list_elem_of_fmap_2 (λ g, mark_if now (negb (ShardGroupInfo_Deleted g) && group_expired now r g) g)).
Qed.

(** A shard is in one group only. *)
Lemma shard_in_one_group d di r g di' r' g' id : Data_wf d → policy_of d di r → g ∈ rpi_ShardGroups r → id ∈ si_ID <$> sgi_Shards g →
  policy_of d di' r' → g' ∈ rpi_ShardGroups r' → id ∈ si_ID <$> sgi_Shards g' → r' = r ∧ g' = g.
Proof.
  intros Hwf (i & j & Hi & Hj) Hg Hid (i' & j' & Hi' & Hj') Hg' Hid'.
  assert (Hall : ∀ i j di r g, Databases d !! i = Some di → di_RetentionPolicies di !! j = Some r → g ∈ rpi_ShardGroups r → g ∈ all_groups d).
  { intros i0 j0 di0 r0 g0 H1 H2 H3. apply list_elem_of_bind. exists di0. split; [|by eapply list_elem_of_lookup_2].
    apply list_elem_of_bind. exists r0. split; [done|by eapply list_elem_of_lookup_2]. }
  assert (g' = g) as ->.
  { pose proof (Hall _ _ _ _ _ Hi Hj Hg) as [k Hk]%list_elem_of_lookup_1. pose proof (Hall _ _ _ _ _ Hi' Hj' Hg') as [k' Hk']%list_elem_of_lookup_1.
    destruct (decide (k' = k)) as [->|Hne]; [congruence|]. exfalso.
    apply list_elem_of_fmap in Hid as (sh & -> & Hsh), Hid' as (sh' & E & Hsh').
    by eapply (bind_disjoint sgi_Shards si_ID (all_groups d) k k'); [apply (wf_groups _ Hwf)|..]. }
  destruct (decide ((i', j') = (i, j))) as [[= -> ->]|Hne]; [split; congruence|].
  by destruct (group_elsewhere d i j di r g i' j' di' r' g (gw_ids _ _ _ (wf_groups _ Hwf)) Hi Hj Hg Hi' Hj' Hg' Hne).
Qed.
End checks.

(** C30: After a check of the groups on the leader and then a check of the shards,
    the shards that are left are those that belong to no group that was deleted or
    had expired, and those whose removal failed: retention removes the shards of all
    expired groups, and none of a group that is live.  In the metadata exactly the
    groups that had expired are marked, with the present time. *)
Theorem retention_enforced {GS : GoSort} {bytes : Type} {PB : Protobuf bytes}
    (w : World) (fails : Z → bool) (ids : list Z) (shards : gset Z) :
  leader_world w → Data_wf (w_data w) → w_now w ≠ Time_zero → (∀ id, id ∈ shards → id ∈ ids) →
  ∃ w' shards',
    deleteShardGroups_tick w = (w', Ok ()) ∧ same_but_log (expire (w_now w) (w_data w)) (w_data w') ∧
    deleteShards_tick fails ids shards w' = (w', Ok shards') ∧
    (∀ di r g id, policy_of (w_data w) di r → g ∈ rpi_ShardGroups r → id ∈ si_ID <$> sgi_Shards g →
      id ∈ shards' ↔ id ∈ shards ∧ (ShardGroupInfo_Deleted g = true ∨ group_expired (w_now w) r g = true → fails id = true)) ∧
    (∀ id, id ∈ shards' → id ∈ shards) ∧
    (∀ id, id ∈ shards → id ∉ si_ID <$> all_shards (w_data w) → id ∈ shards').
Proof.
  intros Hw Hwf Hnow Hids. destruct (deleteShardGroups_exact w Hw Hwf) as (w' & E & Hw' & Hwf' & Hd).
  exists w', (delete_shards fails (deletedShardIDs (policies (w_data w'))) ids shards).
  assert (Hpol : policies (w_data w') = policies (expire (w_now w) (w_data w))) by (by destruct Hd as (t & i & ->)).
  split_and!; [done..| | | |].
  - unfold deleteShards_tick, M_bind, M_try. by rewrite Visit_leader.
  - intros di r g id Hp Hg Hid. rewrite delete_shards_spec, Hpol, deletedShardIDs_Some, expired_deleted by done. split.
    + intros [Hs H]. split; [done|]. intros Hx. apply H; [by apply Hids|]. by exists di, r, g.
    + intros [Hs H]. split; [done|]. intros _ (di' & r' & g' & Hp' & Hg' & Hx & Hid').
      destruct (shard_in_one_group _ _ _ _ _ _ _ _ Hwf Hp Hg Hid Hp' Hg' Hid') as [-> ->]. by apply H.
  - intros id [H _]%delete_shards_spec. done.
  - intros id Hs Hn. rewrite delete_shards_spec, Hpol, deletedShardIDs_Some, expired_deleted by done. split; [done|].
    intros _ (di & r & g & (i & j & Hi & Hj) & Hg & _ & Hid). exfalso. apply Hn. apply list_elem_of_fmap in Hid as (sh & -> & Hsh).
    apply list_elem_of_fmap_2, list_elem_of_bind. exists g. split; [done|]. apply list_elem_of_bind. exists di. split; [|by eapply list_elem_of_lookup_2].
    apply list_elem_of_bind. exists r. split; [done|by eapply list_elem_of_lookup_2].
Qed.

(** ** A concrete check *)

Definition with_group (ts : Time) (d : Data) : Data := match Data_CreateShardGroup d "db" "two" ts with Ok d => d | _ => d end.
Definition aged_data : Data := with_group (unixEpoch + 40 * 24 * Hour) (with_group (unixEpoch + 5) (st_data demo_store)).
Definition aged_world : World := mkWorld (set_data aged_data demo_store) RaftLeader demo_store 1 9 (unixEpoch + 41 * 24 * Hour) 6 [] [].

Lemma aged_wf : Data_wf aged_data.
Proof.
  assert (H1 : Data_wf (with_group (unixEpoch + 5) (st_data demo_store))).
  { eapply (Data_CreateShardGroup_wf (st_data demo_store) "db" "two" (unixEpoch + 5)); [apply demo_inv|apply demo_room|vm_compute; reflexivity]. }
  eapply (Data_CreateShardGroup_wf _ "db" "two" (unixEpoch + 40 * 24 * Hour)); [exact H1|vm_compute; split_and!; reflexivity|vm_compute; reflexivity].
Qed.
(** The shard of the first day is removed, the one of the last day is kept, and so
    is one that the metadata does not know. *)
Example aged_shards_removed :
  (deleteShards_tick (λ _, false) [4; 5; 7] {[4; 5; 7]} (deleteShardGroups_tick aged_world).1).2 = Ok {[5; 7]}.
Proof. vm_compute. reflexivity. Qed.

Definition no_failures (_ : Z) : bool := false.
Lemma retention_enforced_witness :
  ∃ w' shards',
    deleteShardGroups_tick aged_world = (w', Ok ()) ∧ same_but_log (expire (w_now aged_world) (w_data aged_world)) (w_data w') ∧
    deleteShards_tick no_failures [4; 5] {[4; 5]} w' = (w', Ok shards') ∧
    (∀ di r g id, policy_of (w_data aged_world) di r → g ∈ rpi_ShardGroups r → id ∈ si_ID <$> sgi_Shards g →
      id ∈ shards' ↔ id ∈ ({[4; 5]} : gset Z) ∧ (ShardGroupInfo_Deleted g = true ∨ group_expired (w_now aged_world) r g = true → no_failures id = true)) ∧
    (∀ id, id ∈ shards' → id ∈ ({[4; 5]} : gset Z)) ∧
    (∀ id, id ∈ ({[4; 5]} : gset Z) → id ∉ si_ID <$> all_shards (w_data aged_world) → id ∈ shards').
Proof.
  apply (retention_enforced aged_world no_failures [4; 5] {[4; 5]}).
  - split; reflexivity.
  - apply aged_wf.
  - vm_compute. discriminate.
  - set_solver.
Defined.
