(* ===== verification/ContQuery.v ===== *)
(** * Continuous queries: [services/continuous_querier/service.go] and [config.go]

    The service keeps the time of the last run of each query, decides which
    queries are due, and runs a query for the interval of the present time and for
    some intervals before it.  The executor of queries and what the metastore
    answers are arguments; the statements that are executed are recorded.  The
    second half is the locking of [Run] against the background goroutine. *)

From stdpp Require Import base list strings gmap.
From Stdlib Require Import ZArith Ascii Lia SpecFloat.
From S2P Require Import Prelude MetaData QlToken QlExpr QlSelect QlPrint QlDuration QlNumber QlStmt QlParse QlParseStmt QlRewrite.
From S2P Require Import Rows TsdbQuery Points ClusterWrite.

Local Open Scope Z_scope.

(** ** Configuration *)

Definition DefaultRecomputePreviousN : Z := 2.
Definition DefaultRecomputeNoOlderThan : Duration := 10 * Minute.
Definition DefaultComputeRunsPerInterval : Z := 10.
Definition DefaultComputeNoMoreThan : Duration := 2 * Minute.

Record CqConfig := mkCqConfig {
  cfg_LogEnabled : bool;
  cfg_Enabled : bool;
  cfg_RecomputePreviousN : Z;
  cfg_RecomputeNoOlderThan : Duration;
  cfg_ComputeRunsPerInterval : Z;
  cfg_ComputeNoMoreThan : Duration
}.
Definition NewCqConfig : CqConfig :=
  mkCqConfig true true DefaultRecomputePreviousN DefaultRecomputeNoOlderThan DefaultComputeRunsPerInterval DefaultComputeNoMoreThan.

(** ** Requests *)

(** [CQs] is [None] when it is nil. *)
Record RunRequest := mkRunRequest { rr_Now : Time; rr_CQs : option (list string) }.
Definition matches (rr : RunRequest) (cq : ContinuousQueryInfo) : bool :=
  match rr_CQs rr with
  | None => true
  | Some l => existsb (λ q, bool_decide (q = cqi_Name cq)) l
  end.

(** ** The executor of queries

    [ExecuteQuery] on a query of one statement: an error, a channel that is closed
    without a result, a panic of the goroutine that executes, or the first result.  The statement is behind a pointer, and
    is given back as the executor leaves it.  [X] is the state of the executor. *)

Inductive ExecAnswer := ExecError (e : GoError) | ExecClosed | ExecPanic | ExecResult (r : Result).
Class QueryExecutor (X : Type) := {
  ExecuteSelect : SelectStatement → string → Z → X → X * SelectStatement * ExecAnswer
}.

(** A call of the executor: the database, the statement and the answer. *)
Record CqCall := mkCqCall { call_Database : string; call_Statement : SelectStatement; call_Answer : ExecAnswer }.

Inductive CqError :=
| CqParse (e : parse_err)
| CqSelect (e : SelectError)
| CqExec (e : GoError)
| CqText (text : string).

Record ContinuousQuery := mkContinuousQuery {
  cq_Database : string;
  cq_Info : ContinuousQueryInfo;
  cq_LastRun : Time;
  cq_q : SelectStatement
}.
Definition set_LastRun (t : Time) (cq : ContinuousQuery) : ContinuousQuery :=
  mkContinuousQuery (cq_Database cq) (cq_Info cq) t (cq_q cq).
Definition set_q (q : SelectStatement) (cq : ContinuousQuery) : ContinuousQuery :=
  mkContinuousQuery (cq_Database cq) (cq_Info cq) (cq_LastRun cq) q.

(** Without a target there is no measurement to follow. *)
Definition cq_intoRP (cq : ContinuousQuery) : outcome CqError string :=
  match Target (cq_q cq) with Some m => Ok (Source_RetentionPolicy m) | None => Panic end.
Definition setIntoRP (rp : string) (cq : ContinuousQuery) : outcome CqError ContinuousQuery :=
  match Target (cq_q cq) with
  | Some m => Ok (set_q (set_into (cq_q cq) (Some (set_Source_RetentionPolicy rp m)) (Sources (cq_q cq))) cq)
  | None => Panic
  end.

Section service.
Context {goText : GoText}.
Context {X : Type} {executor : QueryExecutor X}.

(** [clock n] is what the [n]-th call of [time.Now] returns. *)
Context (clock : nat → Time).

(** [s_ran] are the calls of the executor. *)
Record CqService := mkCqService {
  s_Config : CqConfig;
  s_lastRuns : gmap string Time;
  s_stats : Stats;
  s_executor : X;
  s_calls : nat;
  s_ran : list CqCall
}.
Definition NewCqService (c : CqConfig) (x : X) : CqService := mkCqService c ∅ ∅ x 0 [].

Definition set_lastRun (name : string) (t : Time) (s : CqService) : CqService :=
  mkCqService (s_Config s) (<[name := t]> (s_lastRuns s)) (s_stats s) (s_executor s) (s_calls s) (s_ran s).
Definition add_cq_stat (key : string) (s : CqService) : CqService :=
  mkCqService (s_Config s) (s_lastRuns s) (statMap_Add key 1 (s_stats s)) (s_executor s) (s_calls s) (s_ran s).
Definition set_ran (x : X) (call : CqCall) (s : CqService) : CqService :=
  mkCqService (s_Config s) (s_lastRuns s) (s_stats s) x (s_calls s) (s_ran s ++ [call]).
Definition tick (s : CqService) : CqService :=
  mkCqService (s_Config s) (s_lastRuns s) (s_stats s) (s_executor s) (S (s_calls s)) (s_ran s).

Definition CQ : Type → Type := ST CqService CqError.
Definition time_Now : CQ Time := λ s, (tick s, Ok (clock (s_calls s))).
Definition of_result {A} (x : outcome CqError A) : CQ A := λ s, (s, x).

(** A key that is missing from the map gives the zero time. *)
Definition lastRun (s : CqService) (name : string) : Time := default Time_zero (s_lastRuns s !! name).

(** *** One query *)

Definition NewContinuousQuery (database : string) (cqi : ContinuousQueryInfo) : outcome CqError ContinuousQuery :=
  match ParseStatement_text (cqi_Query cqi) with
  | Panic => Panic
  | Err e => Err (CqParse e)
  | Ok (CreateContinuousQueryStatement _ _ source) =>
      match Target source with
      | None => Err (CqText "query isn't a valid continuous query")
      | Some _ => Ok (mkContinuousQuery database cqi Time_zero source)
      end
  | Ok _ => Err (CqText "query isn't a valid continuous query")
  end.

(** How long a query waits between two runs; dividing by zero panics. *)
Definition computeEvery (interval : Duration) (runsPerInterval : Z) (noMoreThan : Duration) : outcome CqError Duration :=
  if runsPerInterval =? 0 then Panic
  else
    let every := i64 (Z.quot interval runsPerInterval) in
    Ok (if every <? noMoreThan then noMoreThan else every).
Definition GroupByInterval_of (cq : ContinuousQuery) : CQ (ContinuousQuery * Duration) :=
  match GroupByInterval (cq_q cq) with
  | (q, Ok d) => mret (set_q q cq, d)
  | (_, Err e) => st_fail (CqSelect e)
  | (_, Panic) => st_panic
  end.
Definition shouldRunContinuousQuery (runsPerInterval : Z) (noMoreThan : Duration) (cq : ContinuousQuery)
    : CQ (ContinuousQuery * bool) :=
  if IsRawQuery (cq_q cq) then st_fail (CqText "continuous queries must be aggregate queries")
  else
    x ← GroupByInterval_of cq;
    let '(cq, interval) := x in
    every ← of_result (computeEvery interval runsPerInterval noMoreThan);
    now ← time_Now;
    mret (cq, Time_UnixNano (Time_Add (cq_LastRun cq) every) <=? Time_UnixNano now).

(** The statement is executed as it is now and comes back changed. *)
Definition runContinuousQueryAndWriteResult (cq : ContinuousQuery) : CQ ContinuousQuery := λ s,
  let '(x, q, answer) := ExecuteSelect (cq_q cq) (cq_Database cq) 0 (s_executor s) in
  (set_ran x (mkCqCall (cq_Database cq) (cq_q cq) answer) s,
   match answer with
   | ExecError e => Err (CqExec e)
   | ExecClosed | ExecPanic => Panic
   | ExecResult r => match Result_Err r with Some e => Err (CqExec e) | None => Ok (set_q q cq) end
   end).

(** The start of the interval that the time is in. *)
Definition window_start (now : Time) (interval : Duration) : Time :=
  let startTime := Time_Round now interval in
  if Time_UnixNano now <? Time_UnixNano startTime then Time_Add startTime (i64 (- interval)) else startTime.

(** The loop over the intervals before; [n] of them are left. *)
Fixpoint recompute (now : Time) (interval noOlderThan : Duration) (n : nat) (startTime : Time) (cq : ContinuousQuery) : CQ unit :=
  match n with
  | O => mret tt
  | S n =>
      if noOlderThan <? Time_Sub now startTime then mret tt
      else
        let newStartTime := Time_Add startTime (i64 (- interval)) in
        match SetTimeRange (cq_q cq) newStartTime startTime with
        | (_, Err e) => st_fail (CqParse e)
        | (_, Panic) => st_panic
        | (q, Ok _) =>
            cq ← runContinuousQueryAndWriteResult (set_q q cq);
            recompute now interval noOlderThan n newStartTime cq
        end
  end.

(** The runs of a query that is due.  When the times cannot be set for the first
    of them the error is logged, and the statement is executed all the same. *)
Definition run_due (cq : ContinuousQuery) (now : Time) : CQ unit :=
  lastRun ← time_Now;
  _ ← st_put (set_lastRun (cqi_Name (cq_Info cq)) lastRun);
  x ← GroupByInterval_of (set_LastRun lastRun cq);
  let '(cq, interval) := x in
  if interval =? 0 then mret tt
  else
    let startTime := window_start now interval in
    match SetTimeRange (cq_q cq) startTime (Time_Add startTime interval) with
    | (_, Panic) => st_panic
    | (q, _) =>
        cq ← runContinuousQueryAndWriteResult (set_q q cq);
        config ← st_get s_Config;
        recompute now interval (cfg_RecomputeNoOlderThan config) (Z.to_nat (cfg_RecomputePreviousN config)) startTime cq
    end.
Definition ExecuteContinuousQuery (dbi : DatabaseInfo) (cqi : ContinuousQueryInfo) (now : Time) : CQ unit :=
  cq ← of_result (NewContinuousQuery (di_Name dbi) cqi);
  last ← st_get (λ s, lastRun s (cqi_Name cqi));
  let cq := set_LastRun last cq in
  rp ← of_result (cq_intoRP cq);
  cq ← of_result (if bool_decide (rp = EmptyString) then setIntoRP (di_DefaultRetentionPolicy dbi) cq else Ok cq);
  config ← st_get s_Config;
  x ← shouldRunContinuousQuery (cfg_ComputeRunsPerInterval config) (cfg_ComputeNoMoreThan config) cq;
  let '(cq, run) := x in
  if run : bool then run_due cq now else mret tt.

(** *** A pass over the queries *)

(** What the metastore answers. *)
Record metaStore := mkMetaStore {
  ms_IsLeader : bool;
  ms_Databases : outcome GoError (list DatabaseInfo);
  ms_Database : string → outcome GoError (option DatabaseInfo)
}.
(** The queries of the databases, in the order of the loops. *)
Definition queries (dbs : list DatabaseInfo) : list (DatabaseInfo * ContinuousQueryInfo) :=
  db ← dbs; pair db <$> di_ContinuousQueries db.
Definition run_query (now : Time) (q : DatabaseInfo * ContinuousQueryInfo) : CQ unit :=
  r ← st_try (ExecuteContinuousQuery q.1 q.2 now);
  st_put (add_cq_stat (match r with inl _ => "queryOk" | inr _ => "queryFail" end)).
Fixpoint run_queries (now : Time) (l : list (DatabaseInfo * ContinuousQueryInfo)) : CQ unit :=
  match l with
  | [] => mret tt
  | q :: l => _ ← run_query now q; run_queries now l
  end.
Definition requested (req : RunRequest) (dbs : list DatabaseInfo) : list (DatabaseInfo * ContinuousQueryInfo) :=
  filter (λ q, matches req q.2 = true) (queries dbs).
Definition runContinuousQueries (meta : metaStore) (req : RunRequest) : CQ unit :=
  match ms_Databases meta with
  | Panic => st_panic
  | Err _ => mret tt
  | Ok dbs => run_queries (rr_Now req) (requested req dbs)
  end.

(** *** [Run] *)

Definition Run_databases (meta : metaStore) (database : string) : outcome CqError (list DatabaseInfo) :=
  if bool_decide (database = EmptyString) then
    match ms_Databases meta with Ok dbs => Ok dbs | Err e => Err (CqExec e) | Panic => Panic end
  else
    match ms_Database meta database with
    | Panic => Panic
    | Err e => Err (CqExec e)
    | Ok None => Err (CqExec (ErrDatabaseNotFound_ database))
    | Ok (Some db) => Ok [db]
    end.
(** The last runs of the queries of a name are forgotten. *)
Definition reset_runs (dbs : list DatabaseInfo) (name : string) (s : CqService) : CqService :=
  foldl (λ s q,
    if bool_decide (name = EmptyString) || bool_decide (cqi_Name q.2 = name) then set_lastRun (cqi_Name q.2) Time_zero s else s)
    s (queries dbs).
End service.

Arguments CqService X : clear implicits.

(** ** The goroutines

    Callers of [Run] and the background loop.  The mutex is the one of the service:
    [Run] holds it while it sends its request, and the loop takes it for each query
    that can be parsed. *)

Inductive RunPc :=
| RunCalled (database name : string) (t : Time)
| RunLocking (dbs : list DatabaseInfo) (name : string) (t : Time)
| RunSending (t : Time)
| RunReceived
| RunReturned (err : option CqError).
Inductive LoopPc := Selecting | Passing (now : Time) (l : list (DatabaseInfo * ContinuousQueryInfo)) | Ended.

(** [y_mu] is the caller of [Run] that holds the mutex; the loop takes it and
    gives it back in one step.  [y_stop]: the channel [stop] is closed. *)
Record CqSystem (X : Type) := mkCqSystem {
  y_service : CqService X;
  y_mu : option nat;
  y_runs : list RunPc;
  y_loop : LoopPc;
  y_stop : bool
}.
Arguments mkCqSystem {X}.
Arguments y_service {X}.
Arguments y_mu {X}.
Arguments y_runs {X}.
Arguments y_loop {X}.
Arguments y_stop {X}.

Section goroutines.
Context {goText : GoText} {X : Type} {executor : QueryExecutor X} (clock : nat → Time).

Definition needs_lock (q : DatabaseInfo * ContinuousQueryInfo) : bool :=
  match NewContinuousQuery (di_Name q.1) q.2 with Ok _ => true | _ => false end.

(** What the loop does with a request: only the leader runs queries. *)
Definition begin_pass (meta : metaStore) (req : RunRequest) : LoopPc :=
  if ms_IsLeader meta then
    match ms_Databases meta with
    | Ok dbs => Passing (rr_Now req) (requested req dbs)
    | _ => Selecting
    end
  else Selecting.

Definition set_run (i : nat) (pc : RunPc) (y : CqSystem X) : CqSystem X :=
  mkCqSystem (y_service y) (y_mu y) (<[i := pc]> (y_runs y)) (y_loop y) (y_stop y).
Definition set_holder (mu : option nat) (y : CqSystem X) : CqSystem X :=
  mkCqSystem (y_service y) mu (y_runs y) (y_loop y) (y_stop y).
Definition set_loop (pc : LoopPc) (y : CqSystem X) : CqSystem X :=
  mkCqSystem (y_service y) (y_mu y) (y_runs y) pc (y_stop y).
Definition set_service (s : CqService X) (y : CqSystem X) : CqSystem X :=
  mkCqSystem s (y_mu y) (y_runs y) (y_loop y) (y_stop y).
Definition close_stop (y : CqSystem X) : CqSystem X :=
  mkCqSystem (y_service y) (y_mu y) (y_runs y) (y_loop y) true.

(** The metastore may answer something else at each step. *)
Inductive cq_step : CqSystem X → CqSystem X → Prop :=
| run_call y database name t :
    cq_step y (mkCqSystem (y_service y) (y_mu y) (y_runs y ++ [RunCalled database name t]) (y_loop y) (y_stop y))
| run_lookup y i database name t meta dbs :
    y_runs y !! i = Some (RunCalled database name t) → Run_databases meta database = Ok dbs →
    cq_step y (set_run i (RunLocking dbs name t) y)
| run_lookup_fails y i database name t meta e :
    y_runs y !! i = Some (RunCalled database name t) → Run_databases meta database = Err e →
    cq_step y (set_run i (RunReturned (Some e)) y)
| run_lock y i dbs name t :
    y_runs y !! i = Some (RunLocking dbs name t) → y_mu y = None →
    cq_step y (set_run i (RunSending t) (set_holder (Some i) (set_service (reset_runs dbs name (y_service y)) y)))
| run_send y i t meta :
    y_runs y !! i = Some (RunSending t) → y_loop y = Selecting →
    cq_step y (set_run i RunReceived (set_loop (begin_pass meta (mkRunRequest t None)) y))
| run_unlock y i :
    y_runs y !! i = Some RunReceived →
    cq_step y (set_run i (RunReturned None) (set_holder None y))
| loop_timer y meta :
    y_loop y = Selecting →
    cq_step y (set_loop (begin_pass meta (mkRunRequest (clock (s_calls (y_service y))) None))
      (if ms_IsLeader meta then set_service (tick (y_service y)) y else y))
| loop_query y now q l s :
    y_loop y = Passing now (q :: l) → (needs_lock q = true → y_mu y = None) →
    run_query clock now q (y_service y) = (s, Ok tt) →
    cq_step y (set_loop (Passing now l) (set_service s y))
| loop_pass_done y now :
    y_loop y = Passing now [] →
    cq_step y (set_loop Selecting y)
| service_close y :
    cq_step y (close_stop y)
| loop_stop y :
    y_loop y = Selecting → y_stop y = true →
    cq_step y (set_loop Ended y).

(** After [Open]. *)
Definition service_opened (s : CqService X) : CqSystem X := mkCqSystem s None [] Selecting false.
End goroutines.
