(* ===== verification/ContQueryProps.v ===== *)
(** * What continuous queries run: [services/continuous_querier/service.go]

    A query that is due is executed for the interval of the present time and for
    the earlier ones that the configuration asks for, in order, until a call of the
    executor fails; when queries are due; the executor of queries as one that keeps
    what the service relies on; the lock that [Run] holds; and queries of one name
    in two databases. *)

From stdpp Require Import base list strings gmap relations.
From Stdlib Require Import ZArith Ascii Lia SpecFloat.
From S2P Require Import Prelude MetaData MetaCodec MetaStore MetaClient QlToken QlExpr QlExprProps QlSelect QlPrint QlScan QlScanSpec QlScanProps QlUtf8 QlDuration QlNumber QlStmt.
From S2P Require Import QlParse QlParseStmt QlParseView QlRoundtrip QlParseProps QlRewrite TsdbMerge TsdbIndex TsdbWhere TsdbTags Rows MetaStmt TsdbShow TsdbQuery HttpProps.
From S2P Require Import Points ClusterWrite ContQuery.

Local Open Scope Z_scope.

(** ** Intervals *)

Lemma UnixNano_small t : is_i64 (t - unixEpoch) → Time_UnixNano t = t - unixEpoch.
Proof. intros H. unfold Time_UnixNano. by apply i64_small. Qed.

(** Rounding and stepping back is truncating. *)
Lemma window_start_truncates now d :
  0 < d → is_i64 d → is_i64 (now - d - unixEpoch) → is_i64 (now + d - unixEpoch) →
  window_start now d = Time_Truncate now d.
Proof.
  intros H0 Hd H1 H2. pose proof (Z.mod_pos_bound now d H0). unfold is_i64 in *.
  unfold window_start, Time_Round, Time_Truncate, Time_Add. rewrite (proj2 (Z.leb_gt d 0)) by done.
  rewrite (i64_small (- d)) by (unfold is_i64 in *; lia).
  destruct (Z.ltb_spec (now mod d + now mod d) d); rewrite !UnixNano_small by (unfold is_i64; lia); case_match; lia.
Qed.

(** The [k]-th interval before the one that starts at [start]. *)
Definition interval_at (start : Time) (interval : Duration) (k : nat) : Time * Time :=
  (start - Z.of_nat k * interval, start - Z.of_nat k * interval + interval).

(** The interval of the present time, and of the [n] before it those that begin
    when the one behind them is not too old. *)
Definition earlier_windows (now start : Time) (interval noOlderThan : Duration) (k n : nat) : list (Time * Time) :=
  (λ i, interval_at start interval (S i)) <$> filter (λ i, now - (start - Z.of_nat i * interval) ≤ noOlderThan) (seq k n).
Definition expected_windows (config : CqConfig) (now : Time) (interval : Duration) : list (Time * Time) :=
  let start := Time_Truncate now interval in
  interval_at start interval 0 ::
  earlier_windows now start interval (cfg_RecomputeNoOlderThan config) 0 (Z.to_nat (cfg_RecomputePreviousN config)).

Lemma earlier_windows_none now start interval noOlderThan k n :
  0 < interval → noOlderThan < now - (start - Z.of_nat k * interval) → earlier_windows now start interval noOlderThan k n = [].
Proof.
  intros H0 H. unfold earlier_windows. revert k H. induction n as [|n IH]; intros k H; [done|]. simpl seq.
  rewrite filter_cons_False by lia. apply IH. nia.
Qed.

(** ** Conditions with a range of times *)

Section conditions.
Context {goText : GoText}.

(** A condition of which neither the rewriting nor the reduction changes anything. *)
Record steady (c : Expr) : Prop := {
  plain_rewrite : Rewrite without_time c = c;
  plain_reduce : reduce c None = Ok c;
  plain_now : ∀ now, reduce c (Some (NowValuer now)) = Ok c;
  plain_printable : printable c;
  plain_time_free : time_free c;
  plain_left : left_ok AND c;
  plain_text : Expr_String c ≠ "time";
  plain_true : isTrueLiteral c = false;
  plain_false : isFalseLiteral c = false
}.
Definition plain_condition (c : option Expr) : Prop := match c with None => True | Some c => steady c end.

Definition windowed (c : option Expr) (w : Time * Time) : Expr :=
  BinaryExpr AND (match c with None => from_time w.1 | Some c => BinaryExpr AND c (from_time w.1) end) (until_time w.2).

Lemma windowed_times c w : plain_condition c → w.1 ≠ Time_zero → w.2 ≠ Time_zero →
  TimeRange (windowed c w) = (w.1, w.2 - 1).
Proof.
  intros Hc H1 H2. destruct c as [c|].
  - pose proof (ranged_times c w.1 w.2 (plain_time_free _ Hc) H1 H2) as H. by rewrite (plain_true _ Hc) in H.
  - apply (ranged_times (BooleanLiteral true) w.1 w.2); [|done..]. intros v Hv. by apply list_elem_of_singleton in Hv.
Qed.

Lemma string_app_length (s t : string) : String.length (s +:+ t) = (String.length s + String.length t)%nat.
Proof. induction s; simpl; auto. Qed.

(** Without its times a condition with a range is the condition it was made of. *)
Definition stripped (c : option Expr) : Expr :=
  match c with
  | None => BinaryExpr AND (BooleanLiteral true) (BooleanLiteral true)
  | Some c => BinaryExpr AND (BinaryExpr AND c (BooleanLiteral true)) (BooleanLiteral true)
  end.
Lemma windowed_stripped c w : plain_condition c → Rewrite without_time (windowed c w) = stripped c.
Proof.
  intros Hc. destruct c as [c|]; [|reflexivity]. unfold windowed, stripped. cbn [Rewrite].
  rewrite (plain_rewrite _ Hc). change (Rewrite without_time (from_time _)) with (BooleanLiteral true).
  change (Rewrite without_time (until_time _)) with (BooleanLiteral true).
  unfold without_time at 2. rewrite bool_decide_eq_false_2 by apply (plain_text _ Hc).
  unfold without_time. rewrite bool_decide_eq_false_2; [done|]. intros H%(f_equal String.length).
  cbn [Expr_String] in H. rewrite !string_app_length in H. simpl in H. lia.
Qed.
Lemma stripped_printable c : plain_condition c → printable (stripped c).
Proof.
  intros Hc. destruct c as [c|]; cbn [stripped printable]; split_and!; try done; [apply (plain_left _ Hc)|apply (plain_printable _ Hc)].
Qed.

Lemma SetTimeRange_windowed s c start stop :
  plain_condition c → time_ok start → time_ok stop → Condition s = c ∨ (∃ w, Condition s = Some (windowed c w)) →
  SetTimeRange s start stop = (set_condition s (Some (windowed c (start, stop))), Ok tt).
Proof.
  intros Hc H1 H2 Hs.
  assert (G : ∀ e d, Condition s = Some e → printable (Rewrite without_time e) → left_ok AND (Rewrite without_time e) →
    reduce (Rewrite without_time e) None = Ok d → isFalseLiteral d = false →
    SetTimeRange s start stop = (set_condition s (Some (BinaryExpr AND (if isTrueLiteral d then from_time start else BinaryExpr AND d (from_time start)) (until_time stop))), Ok tt)).
  { intros e d He Hp Hl Hr Hf. unfold SetTimeRange, rewriteWithoutTimeDimensions. rewrite He, ranged_parsed by done.
    rewrite (ranged_reduced _ _ _ d), Hf by done. reflexivity. }
  destruct Hs as [Hs|[w Hs]].
  - destruct c as [c|]; [|by apply SetTimeRange_no_condition]. unfold windowed.
    rewrite (G c c); [by rewrite (plain_true _ Hc)|done| | | |apply (plain_false _ Hc)]; rewrite (plain_rewrite _ Hc); apply Hc.
  - pose proof (windowed_stripped c w Hc) as Hw.
    rewrite (G _ (default (BooleanLiteral true) c) Hs); rewrite ?Hw.
    + destruct c as [c|]; [|reflexivity]. unfold windowed. simpl default. by rewrite (plain_true _ Hc).
    + by apply stripped_printable.
    + by destruct c.
    + destruct c as [c|]; [|reflexivity]. cbn [stripped reduce]. rewrite (plain_reduce _ Hc). cbn [outcome_bind].
      assert (reduce_sides AND c (BooleanLiteral true) = Ok c) as Hr; [|cbn [CloneExpr outcome_bind default]; rewrite Hr; cbn [outcome_bind]; by rewrite Hr].
      unfold reduce_sides. rewrite (plain_true _ Hc), (plain_false _ Hc). reflexivity.
    + destruct c as [c|]; [apply (plain_false _ Hc)|reflexivity].
Qed.

(** The executor puts the time into conditions: that changes nothing here. *)
Lemma windowed_reduced c w now : plain_condition c → Reduce (windowed c w) (Some (NowValuer now)) = Ok (windowed c w).
Proof.
  intros Hc. unfold Reduce, windowed. destruct c as [c|]; [|reflexivity]. cbn [reduce]. rewrite (plain_now _ Hc). cbn [outcome_bind].
  set (v := Some _). assert (∀ t, reduce (from_time t) v = Ok (from_time t)) as -> by done.
  assert (∀ t, reduce (until_time t) v = Ok (until_time t)) as -> by done.
  cbn [outcome_bind]. unfold from_time at 1. rewrite and_comparison by tauto. rewrite (plain_true _ Hc), (plain_false _ Hc). cbn [outcome_bind].
  unfold until_time at 1. rewrite and_comparison by tauto. reflexivity.
Qed.
End conditions.

(** ** What a run executes *)

(** What the service relies on: the executor leaves the condition as it is, or
    with the present time in it. *)
Class ExecutorPromises (X : Type) {executor : QueryExecutor X} := {
  ep_condition : ∀ s db n x x' s' a, ExecuteSelect s db n x = (x', s', a) →
    Condition s' = Condition s ∨
    ∃ now c c', Condition s = Some c ∧ Reduce c (Some (NowValuer now)) = Ok c' ∧ Condition s' = Some c'
}.

(** What an answer makes of the call. *)
Definition call_result (a : ExecAnswer) : outcome CqError unit :=
  match a with
  | ExecError e => Err (CqExec e)
  | ExecClosed | ExecPanic => Panic
  | ExecResult r => match Result_Err r with Some e => Err (CqExec e) | None => Ok tt end
  end.

Section run.
Context {goText : GoText}.
Context {X : Type} {executor : QueryExecutor X} {promises : ExecutorPromises X}.
Context (clock : nat → Time).

(** A call for the times of an interval, and the calls for a list of intervals: one for
    each, in order, up to the first that fails. *)
Definition executed (db : string) (c : option Expr) (call : CqCall) (w : Time * Time) : Prop :=
  call_Database call = db ∧ Condition (call_Statement call) = Some (windowed c w).
Inductive ran_for (db : string) (c : option Expr) : list CqCall → list (Time * Time) → outcome CqError unit → Prop :=
| ran_all : ran_for db c [] [] (Ok tt)
| ran_failed call w ws : executed db c call w → call_result (call_Answer call) ≠ Ok tt →
    ran_for db c [call] (w :: ws) (call_result (call_Answer call))
| ran_next call w calls ws r : executed db c call w → call_result (call_Answer call) = Ok tt → ran_for db c calls ws r →
    ran_for db c (call :: calls) (w :: ws) r.

(** Executing changes nothing else of the service. *)
Definition same_service (s s' : CqService X) : Prop :=
  s_Config s' = s_Config s ∧ s_lastRuns s' = s_lastRuns s ∧ s_stats s' = s_stats s ∧ s_calls s' = s_calls s.

Lemma executed_condition s db n x x' s' a c w :
  plain_condition c → ExecuteSelect s db n x = (x', s', a) → Condition s = Some (windowed c w) → Condition s' = Some (windowed c w).
Proof.
  intros Hc H Hw. destruct (ep_condition _ _ _ _ _ _ _ H) as [->|(now & c1 & c2 & H1 & H2 & ->)]; [done|].
  rewrite Hw in H1. injection H1 as <-. rewrite windowed_reduced in H2 by done. by injection H2 as <-.
Qed.

Lemma run_windowed cq s c w : plain_condition c → Condition (cq_q cq) = Some (windowed c w) →
  ∃ s' call r, runContinuousQueryAndWriteResult cq s = (s', r) ∧ s_ran s' = s_ran s ++ [call] ∧ same_service s s' ∧
    call_Statement call = cq_q cq ∧ executed (cq_Database cq) c call w ∧
    match r with
    | Ok cq' => call_result (call_Answer call) = Ok tt ∧ cq_Database cq' = cq_Database cq ∧ Condition (cq_q cq') = Some (windowed c w)
    | Err e => call_result (call_Answer call) = Err e
    | Panic => call_result (call_Answer call) = Panic
    end.
Proof.
  intros Hc Hw. unfold runContinuousQueryAndWriteResult.
  destruct (ExecuteSelect (cq_q cq) (cq_Database cq) 0 (s_executor s)) as [[x q] a] eqn:E.
  eexists _, _, _. split; [reflexivity|]. split; [reflexivity|]. split; [done|]. split; [reflexivity|]. split; [done|].
  pose proof (executed_condition _ _ _ _ _ _ _ _ _ Hc E Hw). cbn [call_Answer call_result]. destruct a as [e| | |r]; [done..|].
  simpl. by destruct (Result_Err r).
Qed.

(** What the calls are of a part of a run that gives the result of its calls. *)
Definition runs_for (m : CQ (X := X) unit) (s : CqService X) (db : string) (c : option Expr) (ws : list (Time * Time))
    (first : CqCall → Prop) : Prop :=
  ∃ s' r calls, m s = (s', r) ∧ s_ran s' = s_ran s ++ calls ∧ same_service s s' ∧ ran_for db c calls ws r ∧
    match head calls with Some call => first call | None => True end.

Lemma run_then cq s c w ws (k : ContinuousQuery → CQ (X := X) unit) : plain_condition c → Condition (cq_q cq) = Some (windowed c w) →
  (∀ cq' s', s_Config s' = s_Config s → cq_Database cq' = cq_Database cq → Condition (cq_q cq') = Some (windowed c w) →
    runs_for (k cq') s' (cq_Database cq) c ws (λ _, True)) →
  runs_for (runContinuousQueryAndWriteResult cq ≫= k) s (cq_Database cq) c (w :: ws) (λ call, call_Statement call = cq_q cq).
Proof.
  intros Hc Hw Hk. destruct (run_windowed cq s c w Hc Hw) as (s1 & call & r & E & Hran & Hs & Hq & Hx & Hr).
  destruct r as [cq'|e|].
  - destruct Hr as (Ha & Hdb & Hc'). destruct (Hk cq' s1 (proj1 Hs) Hdb Hc') as (s2 & r & calls & E2 & Hran2 & Hs2 & Hr2 & _).
    exists s2, r, (call :: calls). rewrite (st_bind_ok _ _ _ _ _ E), Hran2, Hran, <- app_assoc.
    split_and!; [done..| |by apply ran_next|done]. unfold same_service in *. intuition congruence.
  - exists s1, (Err e), [call]. rewrite (st_bind_err _ _ _ _ _ E). split_and!; [done..| |done]. rewrite <- Hr. apply ran_failed; [done|]. by rewrite Hr.
  - exists s1, Panic, [call]. split_and!; [|done..| |done]; [unfold mbind, ST_bind; by rewrite E|].
    rewrite <- Hr. apply ran_failed; [done|]. by rewrite Hr.
Qed.

Lemma runs_none s db c : runs_for (mret tt) s db c [] (λ _, True).
Proof. exists s, (Ok tt), []. rewrite app_nil_r. split_and!; try done. constructor. Qed.

Lemma recompute_windows c now start interval noOlderThan n :
  plain_condition c → 0 < interval → is_i64 interval → - 2 ^ 63 ≤ noOlderThan < 2 ^ 63 - 1 →
  ∀ k cq s w, Condition (cq_q cq) = Some (windowed c w) →
  (∀ i : nat, (k ≤ i ≤ k + n)%nat → time_ok (start - Z.of_nat i * interval)) →
  runs_for (recompute now interval noOlderThan n (start - Z.of_nat k * interval) cq) s (cq_Database cq) c
    (earlier_windows now start interval noOlderThan k n) (λ _, True).
Proof.
  intros Hc H0 Hi Ho. induction n as [|n IH]; intros k cq s w Hw Ht; [apply runs_none|]. cbn [recompute].
  assert (Hb : (noOlderThan <? Time_Sub now (start - Z.of_nat k * interval)) = (noOlderThan <? now - (start - Z.of_nat k * interval))).
  { unfold Time_Sub. destruct (Z.ltb_spec noOlderThan (now - (start - Z.of_nat k * interval))); [apply Z.ltb_lt|apply Z.ltb_ge]; lia. }
  rewrite Hb. destruct (Z.ltb_spec noOlderThan (now - (start - Z.of_nat k * interval))) as [Hlt|Hge].
  { rewrite earlier_windows_none by lia. apply runs_none. }
  unfold earlier_windows. simpl seq. rewrite filter_cons_True by lia. rewrite fmap_cons.
  unfold is_i64 in Hi. rewrite i64_small by (unfold is_i64; lia). unfold Time_Add.
  assert (Hn : start - Z.of_nat k * interval + - interval = start - Z.of_nat (S k) * interval) by lia. rewrite Hn.
  rewrite (SetTimeRange_windowed _ c) by (eauto; apply Ht; lia).
  assert (interval_at start interval (S k) = (start - Z.of_nat (S k) * interval, start - Z.of_nat k * interval)) as ->
    by (unfold interval_at; f_equal; lia).
  set (cq1 := set_q _ cq).
  destruct (run_then cq1 s c (start - Z.of_nat (S k) * interval, start - Z.of_nat k * interval)
    (earlier_windows now start interval noOlderThan (S k) n)
    (λ cq, recompute now interval noOlderThan n (start - Z.of_nat (S k) * interval) cq)) as (s' & r & calls & E & Hran & Hs & Hr & _); [done..| |].
  - intros cq' s' _ Hdb Hc'. rewrite <- Hdb. eapply IH; [done|]. intros i Hi'. apply Ht. lia.
  - exists s', r, calls. split_and!; [done..|]. by destruct (head calls).
Qed.

(** *** The whole query *)

Lemma GroupByInterval_again q interval : (GroupByInterval q).2 = Ok interval → interval ≠ 0 →
  ∃ q', GroupByInterval q = (q', Ok interval) ∧ Condition q' = Condition q ∧ Target q' = Target q ∧
    GroupByInterval q' = (q', Ok interval).
Proof.
  intros H H0. revert H. unfold GroupByInterval at 1 2. destruct (Z.eqb_spec (groupByInterval q) 0) as [E|E]; simpl negb; cbv iota; intros H.
  - revert H. destruct (Dimensions q) as [|d ds]; [by intros [= <-]|]. destruct (interval_of (d :: ds)) as [i|e|]; try done. intros [= ->].
    unfold GroupByInterval.
    exists (set_interval q interval). simpl. by rewrite (proj2 (Z.eqb_neq interval 0)).
  - injection H as <-. exists q. unfold GroupByInterval. by rewrite (proj2 (Z.eqb_neq _ 0)).
Qed.

(** The target with the policy of the database where the query names none. *)
Definition into (dbi : DatabaseInfo) (m : Source) : Source :=
  if bool_decide (Source_RetentionPolicy m = EmptyString) then set_Source_RetentionPolicy (di_DefaultRetentionPolicy dbi) m else m.
Lemma into_set dbi cq m : Target (cq_q cq) = Some m →
  ∃ q, (if bool_decide (Source_RetentionPolicy m = EmptyString) then setIntoRP (di_DefaultRetentionPolicy dbi) cq else Ok cq) = Ok (set_q q cq) ∧
    Target q = Some (into dbi m) ∧ Condition q = Condition (cq_q cq) ∧ IsRawQuery q = IsRawQuery (cq_q cq) ∧
    (GroupByInterval q).2 = (GroupByInterval (cq_q cq)).2.
Proof.
  intros Hm. unfold into, setIntoRP. rewrite Hm. case_bool_decide.
  - eexists. split; [reflexivity|]. split_and!; try done. unfold GroupByInterval. cbn [groupByInterval Dimensions set_into]. destruct (negb _); [done|].
    destruct (Dimensions (cq_q cq)) as [|d ds]; [done|]. by destruct (interval_of (d :: ds)).
  - exists (cq_q cq). by destruct cq.
Qed.

(** What decides whether a query is run. *)
Definition due (s : CqService X) (name : string) (every : Duration) : bool :=
  Time_UnixNano (Time_Add (lastRun s name) every) <=? Time_UnixNano (clock (s_calls s)).

(** Up to the decision; [q] has the interval and the target. *)
Lemma Execute_decides dbi cqi cq m interval every now s :
  NewContinuousQuery (di_Name dbi) cqi = Ok cq → Target (cq_q cq) = Some m → IsRawQuery (cq_q cq) = false →
  (GroupByInterval (cq_q cq)).2 = Ok interval → interval ≠ 0 →
  computeEvery interval (cfg_ComputeRunsPerInterval (s_Config s)) (cfg_ComputeNoMoreThan (s_Config s)) = Ok every →
  ∃ q, Condition q = Condition (cq_q cq) ∧ Target q = Some (into dbi m) ∧ GroupByInterval q = (q, Ok interval) ∧
    ExecuteContinuousQuery clock dbi cqi now s =
    (if due s (cqi_Name cqi) every
     then run_due clock (mkContinuousQuery (di_Name dbi) cqi (lastRun s (cqi_Name cqi)) q) now (tick s) else (tick s, Ok tt)).
Proof.
  intros Hcq Hm Hraw Hi H0 He. destruct (into_set dbi (set_LastRun (lastRun s (cqi_Name cqi)) cq) m Hm) as (q & Hset & Ht & Hc & Hr & Hg).
  change (cq_q (set_LastRun _ cq)) with (cq_q cq) in *. rewrite <- Hg in Hi. destruct (GroupByInterval_again q interval Hi H0) as (q' & G1 & G2 & G3 & G4).
  exists q'. split_and!; [by rewrite G2, Hc|by rewrite G3|done|].
  assert (cq_Database cq = di_Name dbi ∧ cq_Info cq = cqi) as [Hdb Hinfo].
  { unfold NewContinuousQuery in Hcq. repeat case_match; simplify_eq; done. }
  unfold ExecuteContinuousQuery. unfold mbind at 1, ST_bind at 1, of_result at 1. rewrite Hcq.
  unfold mbind at 1, ST_bind at 1, st_get at 1, mbind at 1, ST_bind at 1, of_result at 1, cq_intoRP.
  change (Target (cq_q (set_LastRun (lastRun s (cqi_Name cqi)) cq))) with (Target (cq_q cq)). rewrite Hm.
  unfold mbind at 1, ST_bind at 1, of_result at 1. rewrite Hset.
  unfold mbind at 1, ST_bind at 1, st_get at 1, mbind at 1, ST_bind at 1, shouldRunContinuousQuery at 1.
  cbn [cq_q set_q]. rewrite Hr. cbn [cq_q set_LastRun]. rewrite Hraw. unfold mbind, ST_bind, GroupByInterval_of at 1. cbn [cq_q set_q]. rewrite G1.
  unfold mret, ST_ret, of_result. rewrite He. unfold time_Now at 1, due, set_q, set_LastRun. cbn [cq_LastRun cq_Database cq_Info].
  rewrite Hdb, Hinfo. by destruct (_ <=? _).
Qed.

Lemma window_of_now now interval : 0 < interval → (interval_at (Time_Truncate now interval) interval 0).1 ≤ now < (interval_at (Time_Truncate now interval) interval 0).2.
Proof.
  intros H. unfold Time_Truncate, interval_at. rewrite (proj2 (Z.leb_gt interval 0)) by done. pose proof (Z.mod_pos_bound now interval H). simpl. lia.
Qed.

(** The runs of a query that is due. *)
Lemma run_due_windows db cqi last q c interval now s :
  Condition q = c → plain_condition c → GroupByInterval q = (q, Ok interval) → 0 < interval → is_i64 interval →
  is_i64 (now - interval - unixEpoch) → is_i64 (now + interval - unixEpoch) →
  - 2 ^ 63 ≤ cfg_RecomputeNoOlderThan (s_Config s) < 2 ^ 63 - 1 →
  time_ok (Time_Truncate now interval + interval) →
  (∀ i : nat, (i ≤ Z.to_nat (cfg_RecomputePreviousN (s_Config s)))%nat → time_ok (Time_Truncate now interval - Z.of_nat i * interval)) →
  ∃ s' r call calls, run_due clock (mkContinuousQuery db cqi last q) now s = (s', r) ∧ s_ran s' = s_ran s ++ call :: calls ∧
    s_lastRuns s' = <[cqi_Name cqi := clock (s_calls s)]> (s_lastRuns s) ∧
    ran_for db c (call :: calls) (expected_windows (s_Config s) now interval) r ∧ Target (call_Statement call) = Target q.
Proof.
  intros Hq Hc Hg H0 Hi R1 R2 Ho Ht1 Ht2. set (start := Time_Truncate now interval) in *.
  assert (Hrun : ∃ m, run_due clock (mkContinuousQuery db cqi last q) now s = m (set_lastRun (cqi_Name cqi) (clock (s_calls s)) (tick s)) ∧
    runs_for m (set_lastRun (cqi_Name cqi) (clock (s_calls s)) (tick s)) db c (expected_windows (s_Config s) now interval)
      (λ call, Target (call_Statement call) = Target q)).
  { unfold run_due. unfold mbind at 1, ST_bind at 1, time_Now at 1, mbind at 1, ST_bind at 1, st_put at 1. cbn [cq_Info].
    unfold mbind at 1, ST_bind at 1, GroupByInterval_of at 1. cbn [cq_q set_LastRun]. rewrite Hg. unfold mret at 1, ST_ret at 1.
    rewrite (proj2 (Z.eqb_neq interval 0)) by lia. rewrite window_start_truncates by done. fold start. unfold Time_Add.
    cbn [cq_q set_q]. rewrite (SetTimeRange_windowed _ c); [|done| |done|by left]; [|by specialize (Ht2 0%nat ltac:(lia)); rewrite Z.sub_0_r in Ht2].
    set (cq1 := set_q (set_condition _ _) _). eexists. split; [reflexivity|].
    assert (E : expected_windows (s_Config s) now interval = (start, start + interval) ::
      earlier_windows now start interval (cfg_RecomputeNoOlderThan (s_Config s)) 0 (Z.to_nat (cfg_RecomputePreviousN (s_Config s)))).
    { unfold expected_windows, interval_at. fold start. do 2 f_equal; lia. }
    rewrite E. destruct (run_then cq1 (set_lastRun (cqi_Name cqi) (clock (s_calls s)) (tick s)) c (start, start + interval)
      (earlier_windows now start interval (cfg_RecomputeNoOlderThan (s_Config s)) 0 (Z.to_nat (cfg_RecomputePreviousN (s_Config s))))
      (λ cq, config ← st_get s_Config;
        recompute now interval (cfg_RecomputeNoOlderThan config) (Z.to_nat (cfg_RecomputePreviousN config)) start cq))
      as (s' & r & calls & Em & Hran & Hs & Hr & Hf); [done..| |].
    - intros cq' s' Hcfg Hdb Hc'. unfold runs_for. unfold mbind, ST_bind, st_get. rewrite Hcfg, <- Hdb.
      pose proof (recompute_windows c now start interval _ (Z.to_nat (cfg_RecomputePreviousN (s_Config s))) Hc H0 Hi Ho 0 cq' s' _ Hc') as H.
      rewrite Z.sub_0_r in H. apply H. intros i Hi'. apply Ht2. lia.
    - exists s', r, calls. split_and!; [done..|]. destruct (head calls); [by rewrite Hf|done]. }
  destruct Hrun as (m & -> & s' & r & calls & E & Hran & Hs & Hr & Hf).
  destruct calls as [|call calls]; [by inversion Hr|].
  exists s', r, call, calls. split_and!; [done..| |done|done]. destruct Hs as (_ & -> & _). done.
Qed.

(** ** When a query is due *)

(** The text of a query decides what happens; nothing is executed for a text that
    is no continuous query, or for one without aggregates. *)
Lemma invalid_query_fails dbi cqi e now s :
  NewContinuousQuery (di_Name dbi) cqi = Err e → ExecuteContinuousQuery clock dbi cqi now s = (s, Err e).
Proof. intros H. unfold ExecuteContinuousQuery, mbind, ST_bind, of_result. by rewrite H. Qed.

(** A query that was not run since the service started, or since [Run] was called
    for it: the zero time is no time that [UnixNano] can give, and the number that
    it wraps around to is about 215 years before 1970. *)
Lemma never_run_due s name every :
  lastRun s name = Time_zero → 0 ≤ every ≤ 6795364578871345152 → 0 ≤ Time_UnixNano (clock (s_calls s)) → due s name every = true.
Proof.
  intros Hl He Hn. unfold due. rewrite Hl. unfold Time_UnixNano at 1, Time_Add, Time_zero, unixEpoch, i64. apply Z.leb_le.
  rewrite <- (Z_mod_plus_full _ 3), Z.mod_small by lia. lia.
Qed.

(** After a run it waits, whatever query of that name was run. *)
Lemma recently_run_not_due s name every (t : Time) :
  s_lastRuns s !! name = Some t → is_i64 (t + every - unixEpoch) → is_i64 (clock (s_calls s) - unixEpoch) →
  clock (s_calls s) < t + every → due s name every = false.
Proof.
  intros Hl H1 H2 H. unfold due, lastRun. rewrite Hl. simpl default. unfold Time_Add. rewrite !UnixNano_small by done. apply Z.leb_gt. lia.
Qed.

(** [Run] makes the queries that it names due. *)
Lemma reset_runs_zero dbs name (s : CqService X) q : q ∈ queries dbs → name = EmptyString ∨ cqi_Name q.2 = name →
  lastRun (reset_runs dbs name s) (cqi_Name q.2) = Time_zero.
Proof.
  unfold reset_runs. set (step := λ (s : CqService X) (q : DatabaseInfo * ContinuousQueryInfo), _). intros Hq Hn.
  assert (K : ∀ l s, lastRun s (cqi_Name q.2) = Time_zero → lastRun (foldl step s l) (cqi_Name q.2) = Time_zero).
  { intros l. induction l as [|p l IH]; intros s' H'; [done|]. simpl. apply IH. unfold step. destruct (_ || _); [|done].
    unfold lastRun, set_lastRun. simpl. rewrite lookup_insert. by case_decide. }
  revert s Hq. induction (queries dbs) as [|p l IH]; intros s Hq; [by apply not_elem_of_nil in Hq|].
  simpl. apply elem_of_cons in Hq as [<-|Hq]; [|by apply IH]. apply K. unfold step.
  rewrite (proj2 (orb_true_iff _ _)) by (destruct Hn; [left|right]; by apply bool_decide_eq_true_2).
  unfold lastRun, set_lastRun. simpl. by rewrite lookup_insert_eq.
Qed.

(** ** Passes *)

(** Executing a query leaves the counters as they are. *)
Definition keeps_stats {A} (m : CQ (X := X) A) : Prop := ∀ s, s_stats (m s).1 = s_stats s.
Lemma stats_bind {A B} (m : CQ (X := X) A) (k : A → CQ B) : keeps_stats m → (∀ a, keeps_stats (k a)) → keeps_stats (m ≫= k).
Proof.
  intros Hm Hk s. unfold mbind, ST_bind. specialize (Hm s). destruct (m s) as [s' [a|e|]]; simpl in *; [|done..]. by rewrite (Hk a s').
Qed.
Lemma run_keeps cq : keeps_stats (runContinuousQueryAndWriteResult cq).
Proof. intros s. unfold runContinuousQueryAndWriteResult. by destruct (ExecuteSelect _ _ _ _) as [[x q] a]. Qed.
Lemma interval_keeps cq : keeps_stats (GroupByInterval_of (X := X) cq).
Proof. intros s. unfold GroupByInterval_of. by destruct (GroupByInterval _) as [q [d|e|]]. Qed.
Lemma recompute_keeps now interval noOlderThan n start cq : keeps_stats (recompute now interval noOlderThan n start cq).
Proof.
  revert start cq. induction n as [|n IH]; intros start cq; cbn [recompute]; [done|]. destruct (_ <? _); [done|].
  destruct (SetTimeRange _ _ _) as [q [u|e|]]; [|done..]. apply stats_bind; [apply run_keeps|]. auto.
Qed.
Lemma run_due_keeps cq now : keeps_stats (run_due clock cq now).
Proof.
  unfold run_due. apply stats_bind; [done|]. intros t. apply stats_bind; [done|]. intros _. apply stats_bind; [apply interval_keeps|].
  intros [cq' interval]. destruct (_ =? _); [done|]. destruct (SetTimeRange _ _ _) as [q [u|e|]]; [..|done];
    (apply stats_bind; [apply run_keeps|]; intros cq1; apply stats_bind; [done|]; intros config; apply recompute_keeps).
Qed.
Lemma Execute_keeps dbi cqi now : keeps_stats (ExecuteContinuousQuery clock dbi cqi now).
Proof.
  unfold ExecuteContinuousQuery. repeat (apply stats_bind; [done|]; intros ?). apply stats_bind.
  - unfold shouldRunContinuousQuery. destruct (IsRawQuery _); [done|]. apply stats_bind; [apply interval_keeps|]. intros [cq d].
    repeat (apply stats_bind; [done|]; intros ?). done.
  - intros [cq run]. destruct run; [apply run_due_keeps|done].
Qed.

Lemma stat_Add key k (s : Stats) n : default 0 (statMap_Add key n s !! k) = default 0 (s !! k) + (if bool_decide (key = k) then n else 0).
Proof.
  unfold statMap_Add. case_bool_decide as H.
  - subst k. exact (f_equal (default 0) (lookup_insert_eq (M := gmap string) s key _)).
  - rewrite Z.add_0_r. exact (f_equal (default 0) (lookup_insert_ne (M := gmap string) s key k _ H)).
Qed.
Definition stat (s : CqService X) (key : string) : Z := default 0 (s_stats s !! key).

(** Each query of a pass is counted once, as run or as failed. *)
Lemma pass_counts now l : ∀ s s', run_queries clock now l s = (s', Ok tt) →
  stat s' "queryOk" + stat s' "queryFail" = stat s "queryOk" + stat s "queryFail" + Z.of_nat (length l).
Proof.
  induction l as [|q l IH]; cbn [run_queries]; intros s s' H; [injection H as <-; simpl; lia|].
  unfold run_query, mbind, ST_bind, st_try in H. pose proof (Execute_keeps q.1 q.2 now s) as Hk.
  destruct (ExecuteContinuousQuery clock q.1 q.2 now s) as [s1 r] eqn:E. simpl in Hk.
  assert (∃ key, (key = "queryOk" ∨ key = "queryFail") ∧ run_queries clock now l (add_cq_stat key s1) = (s', Ok tt)) as (key & Hkey & Hrest).
  { destruct r as [u|e|]; [| |done]; eexists; (split; [|exact H]); tauto. }
  rewrite (IH _ _ Hrest). simpl length.
  assert (Hs : ∀ k, stat (add_cq_stat key s1) k = stat s k + (if bool_decide (key = k) then 1 else 0)).
  { intros k. unfold stat, add_cq_stat. cbn [s_stats]. rewrite stat_Add, Hk. done. }
  rewrite !Hs. destruct Hkey as [-> | ->]; simpl; lia.
Qed.
End run.

(** ** A query that is due *)

(** C32: A continuous query that is due is executed for the interval that holds
    the present time and then for the intervals before it that the configuration
    asks for, from the latest to the earliest.  Each call has the condition of the
    query and the times of one interval, whatever times the call before left in the
    statement; the calls go on to the first that fails, whose error is the result.
    The time of the run is stored, and the points go to the default policy of the
    database where the query names none.
    This is for an aggregate query with a target and a positive interval, with no
    condition or one that is [steady]: printable, without references to time, no
    disjunction, and changed neither by the rewriting nor by the reduction; for
    intervals and times within [int64] nanoseconds, of which the bounds of the
    intervals are read back from their texts ([time_ok]); and for an executor that
    leaves the condition as it is, but for the present time ([ExecutorPromises]).
    (Where a range cannot be set the query runs for all times:
    [executed_for_all_times].) *)
Theorem due_query_windows {goText : GoText} {X : Type} {executor : QueryExecutor X} {promises : ExecutorPromises X}
    (clock : nat → Time) (dbi : DatabaseInfo) (cqi : ContinuousQueryInfo) (cq : ContinuousQuery) (m : Source)
    (interval every : Duration) (now : Time) (s : CqService X) :
  NewContinuousQuery (di_Name dbi) cqi = Ok cq →
  Target (cq_q cq) = Some m → IsRawQuery (cq_q cq) = false → plain_condition (Condition (cq_q cq)) →
  (GroupByInterval (cq_q cq)).2 = Ok interval → 0 < interval →
  computeEvery interval (cfg_ComputeRunsPerInterval (s_Config s)) (cfg_ComputeNoMoreThan (s_Config s)) = Ok every →
  due clock s (cqi_Name cqi) every = true →
  is_i64 interval → is_i64 (now - interval - unixEpoch) → is_i64 (now + interval - unixEpoch) →
  - 2 ^ 63 ≤ cfg_RecomputeNoOlderThan (s_Config s) < 2 ^ 63 - 1 →
  time_ok (Time_Truncate now interval + interval) →
  (∀ i : nat, (i ≤ Z.to_nat (cfg_RecomputePreviousN (s_Config s)))%nat → time_ok (Time_Truncate now interval - Z.of_nat i * interval)) →
  ∃ s' r call calls,
    ExecuteContinuousQuery clock dbi cqi now s = (s', r) ∧
    s_ran s' = s_ran s ++ call :: calls ∧
    ran_for (di_Name dbi) (Condition (cq_q cq)) (call :: calls) (expected_windows (s_Config s) now interval) r ∧
    s_lastRuns s' = <[cqi_Name cqi := clock (S (s_calls s))]> (s_lastRuns s) ∧
    Target (call_Statement call) = Some (into dbi m).
Proof.
  intros Hcq Hm Hraw Hc Hi H0 He Hd Hi64 R1 R2 Ho Ht1 Ht2.
  destruct (Execute_decides clock dbi cqi cq m interval every now s) as (q & Q1 & Q2 & Q3 & E); [done..|lia|done|].
  rewrite Hd in E.
  destruct (run_due_windows clock (di_Name dbi) cqi (lastRun s (cqi_Name cqi)) q (Condition (cq_q cq)) interval now (tick s))
    as (s' & r & call & calls & E' & Hran & Hlast & Hr & Ht); [done..|].
  exists s', r, call, calls. rewrite E, E', Ht. done.
Qed.

(** ** The executor of [tsdb] *)

Section tsdb.
Context {GS : GoSort} {bytes : Type} {PB : Protobuf bytes} {CR : Crypto}.
Context {goText : GoText} {goTime : GoTime} {raftInfo : RaftInfo} {regexp : Regexp}.
Context {backend : Backend} {runner : Runner}.
Context (auto : bool).

(** The statement as [ExecuteQuery] leaves it: normalized, and when that does not
    fail, with the present time in the condition. *)
Definition left_statement (s : SelectStatement) (db : string) (w : World) : SelectStatement :=
  match normalize_select s db w with
  | (w, Ok (s, None)) =>
      match Condition s with
      | None => s
      | Some c => match Reduce c (Some (NowValuer (w_now w))) with Ok c => set_condition s (Some c) | _ => s end
      end
  | (_, Ok (s, Some _)) => s
  | _ => s
  end.
Definition first_answer (r : outcome GoError (list Result)) : ExecAnswer :=
  match r with
  | Ok (res :: _) => ExecResult res
  | Ok [] => ExecClosed
  | Err e => ExecError e
  | Panic => ExecPanic
  end.
#[export] Instance tsdb_executor : QueryExecutor QState := {|
  ExecuteSelect s db n q :=
    let '(q', r) := ExecuteQuery auto [SelectStmt s] db n q in
    (q', left_statement s db (q_meta q), first_answer r)
|}.

Lemma normalize_select_condition s db w w' s' e : normalize_select s db w = (w', Ok (s', e)) → Condition s' = Condition s.
Proof.
  unfold normalize_select, M_bind, M_ret. intros H. repeat (case_match; simplify_eq; try done).
Qed.
#[export] Instance tsdb_promises : ExecutorPromises QState.
Proof.
  constructor. intros s db n q q' s' a. simpl. destruct (ExecuteQuery auto [SelectStmt s] db n q) as [q1 r]. intros [= _ <- _].
  unfold left_statement. destruct (normalize_select s db (q_meta q)) as [w [[s1 [e|]]|e|]] eqn:E; [..|by left|by left].
  - left. by eapply normalize_select_condition.
  - apply normalize_select_condition in E. destruct (Condition s1) as [c|] eqn:Ec; [|left; congruence].
    destruct (Reduce c (Some (NowValuer (w_now w)))) as [c'|e|] eqn:Er; [|left; congruence..].
    right. exists (w_now w), c, c'. by rewrite E.
Qed.

(** The executor always sends a result: the panic for a closed channel is not
    reached. *)
Lemma tsdb_executor_answers s db n q : (ExecuteSelect (QueryExecutor := tsdb_executor) s db n q).2 ≠ ExecClosed.
Proof.
  simpl. destruct (ExecuteQuery auto [SelectStmt s] db n q) as [q' [l|e|]] eqn:E; [|done..].
  destruct (execute_from_answers auto 0 [SelectStmt s] db n q q' l E) as (bs & H1 & H2 & H3).
  destruct bs as [|b [|? ?]]; [done| |done]. destruct (H3 0%nat b eq_refl) as [Hb _]. subst l. simpl. by destruct b.
Qed.
End tsdb.

(** ** The lock *)

Section lock.
Context {goText : GoText} {X : Type} {executor : QueryExecutor X} (clock : nat → Time).

(** The callers between taking the mutex and giving it back. *)
Definition holding (pc : RunPc) : Prop := match pc with RunSending _ | RunReceived => True | _ => False end.
Definition mutex_ok (y : CqSystem X) : Prop := ∀ j pc, y_runs y !! j = Some pc → holding pc → y_mu y = Some j.

(** A step of one caller; the mutex may change if only this caller could hold it. *)
Lemma mutex_set_run i pc mu y y' : mutex_ok y → y_runs y' = <[i := pc]> (y_runs y) → y_mu y' = mu →
  (holding pc → mu = Some i) → mu = y_mu y ∨ y_mu y = None ∨ y_mu y = Some i → mutex_ok y'.
Proof.
  intros Hy Hr <- Hpc Hmu j pc' Hj Hh. rewrite Hr in Hj. destruct (decide (i = j)) as [<-|Hne].
  - apply list_lookup_insert_Some in Hj as [(_ & <- & _)|(? & _)]; [by apply Hpc|done].
  - rewrite list_lookup_insert_ne in Hj by done. specialize (Hy j pc' Hj Hh). destruct Hmu as [-> |[?|?]]; congruence.
Qed.
Lemma mutex_step y y' : cq_step clock y y' → mutex_ok y → mutex_ok y'.
Proof.
  intros H Hy. destruct H as [y database name t|y i ? ? ? ? ? Hi|y i ? ? ? ? ? Hi|y i ? ? t Hi Hmu|y i t meta Hi|y i Hi|y meta|y now q l s| | |]; try exact Hy.
  - intros j pc Hj Hh. simpl in Hj. apply lookup_app_Some in Hj as [Hj|[_ Hj]]; [by apply (Hy j pc)|].
    apply list_lookup_singleton_Some in Hj as [_ <-]. done.
  - eapply mutex_set_run; [done..|by left].
  - eapply mutex_set_run; [done..|by left].
  - eapply (mutex_set_run i (RunSending t)); [done..|by right; left].
  - eapply (mutex_set_run i RunReceived (y_mu y)); [done..| |by left]. intros _. by apply (Hy i (RunSending t)).
  - eapply (mutex_set_run i); [done..|]. right; right. by apply (Hy i RunReceived).
  - by destruct (ms_IsLeader meta).
Qed.

(** [Run] holds the mutex until its request is received, and the loop does not
    receive: it is at a query that needs the mutex, or has ended. *)
Definition stuck (i : nat) (y : CqSystem X) : Prop :=
  mutex_ok y ∧ (∃ t, y_runs y !! i = Some (RunSending t)) ∧
  (y_loop y = Ended ∨ ∃ now q l, y_loop y = Passing now (q :: l) ∧ needs_lock q = true).

Lemma stuck_step i y y' : cq_step clock y y' → stuck i y → stuck i y' ∧ y_loop y' = y_loop y ∧ y_service y' = y_service y.
Proof.
  intros H (Hy & [t Hi] & Hl). pose proof (Hy i _ Hi I) as Hmu. pose proof (mutex_step _ _ H Hy) as Hy'.
  assert (Hns : y_loop y ≠ Selecting) by (destruct Hl as [->|(? & ? & ? & -> & _)]; done).
  destruct H as [y database name t'|y j ? ? ? ? ? Hj|y j ? ? ? ? ? Hj|y j ? ? ? Hj Hmu'|y j ? ? ? Hs|y j Hj|y meta Hs|y now q l s Hs Hq|y now Hs| |y Hs];
    try done; try congruence.
  - split; [|done]. split_and!; [done| |done]. exists t. simpl. by apply lookup_app_l_Some.
  - split; [|done]. split_and!; [done| |done]. exists t. simpl. rewrite list_lookup_insert_ne; [done|]. intros ->. congruence.
  - split; [|done]. split_and!; [done| |done]. exists t. simpl. rewrite list_lookup_insert_ne; [done|]. intros ->. congruence.
  - specialize (Hy j _ Hj I). congruence.
  - exfalso. rewrite Hs in Hl. destruct Hl as [?|(? & ? & ? & [= -> -> ->] & Hn)]; [done|]. specialize (Hq Hn). congruence.
  - exfalso. rewrite Hs in Hl. by destruct Hl as [?|(? & ? & ? & ? & _)].
  - split; [|done]. split_and!; [done|by exists t|done].
Qed.

(** Nothing gets the service out of it: no query is run any more, and the loop
    does not look at [stop], so that [Close] waits for ever. *)
Theorem stuck_forever i y y' : rtc (cq_step clock) y y' → stuck i y → stuck i y' ∧ y_loop y' = y_loop y ∧ y_service y' = y_service y.
Proof.
  intros H. induction H as [y|y y1 y2 H _ IH]; [done|]. intros Hs. destruct (stuck_step _ _ _ H Hs) as (Hs1 & H1 & H2).
  destruct (IH Hs1) as (? & -> & ->). done.
Qed.
(** It is enough that [Run] is called while the timer has started a pass. *)
Theorem Run_can_deadlock s meta dbs q l (t : Time) : ms_IsLeader meta = true → ms_Databases meta = Ok dbs → queries dbs = q :: l → needs_lock q = true →
  ∃ y, rtc (cq_step clock) (service_opened s) y ∧ stuck 0 y.
Proof.
  intros Hm Hd Hq Hn. set (now := clock (s_calls s)).
  assert (Hb : begin_pass meta (mkRunRequest now None) = Passing now (q :: l)).
  { unfold begin_pass, requested. rewrite Hm, Hd, <- Hq. f_equal. clear Hq. induction (queries dbs) as [|p ps IH]; [done|]. rewrite filter_cons_True by done. by f_equal. }
  eexists. split.
  - eapply rtc_l; [apply (run_call _ _ EmptyString EmptyString t)|]. eapply rtc_l; [by apply (loop_timer _ _ meta)|].
    eapply rtc_l; [apply (run_lookup _ _ 0 EmptyString EmptyString t meta dbs); [by rewrite Hm|unfold Run_databases; by rewrite Hd]|].
    eapply rtc_l; [|apply rtc_refl]. apply (run_lock _ _ 0 dbs EmptyString t); by rewrite Hm.
  - rewrite Hm. split_and!; [|by exists t|].
    + intros j pc Hj Hh. simpl in Hj. destruct j; [done|by destruct j].
    + right. exists now, q, l. split; [|done]. by rewrite <- Hb.
Qed.
(** After [Close] a call of [Run] does not return either. *)
Theorem Run_after_close s meta dbs (t : Time) : ms_Databases meta = Ok dbs →
  ∃ y, rtc (cq_step clock) (set_loop Ended (close_stop (service_opened s))) y ∧ stuck 0 y.
Proof.
  intros Hd. eexists. split.
  - eapply rtc_l; [apply (run_call _ _ EmptyString EmptyString t)|].
    eapply rtc_l; [apply (run_lookup _ _ 0 EmptyString EmptyString t meta dbs); [done|unfold Run_databases; by rewrite Hd]|].
    eapply rtc_l; [by apply (run_lock _ _ 0 dbs EmptyString t)|apply rtc_refl].
  - split_and!; [|by exists t|by left]. intros j pc Hj Hh. simpl in Hj. destruct j; [done|by destruct j].
Qed.
End lock.

(** ** Examples *)

(** The first hours of a day with their texts. *)
Definition hours : list (string * Time) :=
  imap (λ i s, (s, sample_start + Z.of_nat i * Hour))
    ["2015-01-01T00:00:00Z"; "2015-01-01T01:00:00Z"; "2015-01-01T02:00:00Z"; "2015-01-01T03:00:00Z"].
#[local] Instance hours_text : GoText := {|
  time_Format t := match list_find (λ h, h.2 = t) hours with Some (_, h) => h.1 | None => EmptyString end;
  time_Parse layout s :=
    if bool_decide (layout = "2006-01-02T15:04:05.999999999Z07:00") then
      match list_find (λ h, h.1 = s) hours with Some (_, h) => Some h.2 | None => None end
    else None;
  Sprintf_v := FormatFloat;
  regexp_Compile _ := true;
  strings_ToLower := ToLower;
  error_Error _ _ := EmptyString
|}.
(** An executor that gives the answers of a list, and then empty results. *)
#[local] Instance scripted : QueryExecutor (list ExecAnswer) := {|
  ExecuteSelect s db n answers := (tail answers, s, default (ExecResult (ok_result [])) (head answers))
|}.
#[local] Instance scripted_promises : ExecutorPromises (list ExecAnswer).
Proof. constructor. intros s db n x x' s' a [= <- <- <-]. by left. Qed.

Definition hour (i : Z) : Time := sample_start + i * Hour.
Definition cq_text (db : string) : string :=
  "CREATE CONTINUOUS QUERY cq ON " +:+ db +:+ " BEGIN SELECT count(value) INTO cpu_count FROM cpu WHERE host = 'a' GROUP BY time(1h) END".
Definition cq_on (db : string) : ContinuousQueryInfo := mkContinuousQueryInfo "cq" (cq_text db).
Definition cq_db (db : string) : DatabaseInfo := mkDatabaseInfo db "default" [] [cq_on db].
Definition two_hours : CqConfig := mkCqConfig true true 2 (2 * Hour) 10 (2 * Minute).
Definition at_half_past (_ : nat) : Time := hour 2 + 30 * Minute.
Definition cq_service (answers : list ExecAnswer) : CqService (list ExecAnswer) := NewCqService two_hours answers.

Definition cq_statement : SelectStatement :=
  match NewContinuousQuery "a" (cq_on "a") with Ok cq => cq_q cq | _ => where_ on_host end.
Lemma on_host_plain : steady on_host.
Proof.
  constructor; try done.
  - cbn [printable on_host IsRegexOp]. split_and!; try done.
    + exists (runes_of "host"). split; [by apply runes_of_text|done].
    + exists (runes_of "a"). split; [by apply runes_of_text|done].
  - intros v Hv. simpl in Hv. repeat (apply elem_of_cons in Hv as [Hv|Hv]; [first [discriminate|injection Hv as ->; reflexivity]|]).
    by apply not_elem_of_nil in Hv.
Qed.
Lemma hour_ok i : i = 0 ∨ i = 1 ∨ i = 2 ∨ i = 3 → time_ok (hour i).
Proof.
  intros Hi. exists (runes_of (time_Format (hour i))).
  destruct Hi as [->|[->|[->| ->]]]; (split; [apply runes_of_text; vm_compute; reflexivity|]); repeat (split; [vm_compute; reflexivity|]);
    right; split; vm_compute; reflexivity.
Qed.

Lemma due_query_windows_witness :
  ∃ s' r call calls,
    ExecuteContinuousQuery at_half_past (cq_db "a") (cq_on "a") (hour 2 + 30 * Minute) (cq_service []) = (s', r) ∧
    s_ran s' = [] ++ call :: calls ∧
    ran_for "a" (Some on_host) (call :: calls) [(hour 2, hour 3); (hour 1, hour 2); (hour 0, hour 1)] r ∧
    s_lastRuns s' = <["cq" := at_half_past 1]> ∅ ∧
    Target (call_Statement call) = Some (mkSource EmptyString "default" "cpu_count" None).
Proof.
  apply (due_query_windows at_half_past (cq_db "a") (cq_on "a") (mkContinuousQuery "a" (cq_on "a") Time_zero cq_statement)
    (mkSource EmptyString EmptyString "cpu_count" None) Hour (6 * Minute) (hour 2 + 30 * Minute) (cq_service [])).
  - vm_compute. reflexivity.
  - vm_compute. reflexivity.
  - vm_compute. reflexivity.
  - assert (Condition cq_statement = Some on_host) as Hc by (vm_compute; reflexivity).
    cbn [cq_q]. rewrite Hc. apply on_host_plain.
  - vm_compute. reflexivity.
  - reflexivity.
  - reflexivity.
  - vm_compute. reflexivity.
  - vm_compute. split; [discriminate|reflexivity].
  - vm_compute. split; [discriminate|reflexivity].
  - vm_compute. split; [discriminate|reflexivity].
  - vm_compute. split; [discriminate|reflexivity].
  - apply (hour_ok 3). tauto.
  - intros i Hi. assert (i = 0 ∨ i = 1 ∨ i = 2)%nat as [->|[->| ->]] by (vm_compute in Hi; lia).
    + apply (hour_ok 2). tauto.
    + apply (hour_ok 1). tauto.
    + apply (hour_ok 0). tauto.
Defined.

(** The last runs are kept by the name of a query alone.  Of two queries of one
    name in two databases the second finds the run of the first and waits, pass
    after pass: [b] is never executed.  The clock goes on by seven minutes after
    each pass. *)
Definition every_seven_minutes (n : nat) : Time := hour 2 + 30 * Minute + Z.of_nat (n / 3) * 7 * Minute.
Definition pass (s : CqService (list ExecAnswer)) : CqService (list ExecAnswer) :=
  (runContinuousQueries every_seven_minutes (mkMetaStore true (Ok [cq_db "a"; cq_db "b"]) (λ _, Ok None))
    (mkRunRequest (hour 2 + 30 * Minute) None) s).1.
Definition only_now : CqConfig := mkCqConfig true true 0 (10 * Minute) 10 (2 * Minute).
Example same_name_never_run :
  call_Database <$> s_ran (Nat.iter 4 pass (NewCqService only_now [])) = ["a"; "a"; "a"; "a"] ∧
  call_Database <$> s_ran (pass (NewCqService only_now [])) = ["a"].
Proof. split; vm_compute; reflexivity. Qed.

(** [Run] for the query of one database resets the query of that name in all. *)
Example Run_resets_other_databases :
  s_lastRuns (reset_runs [cq_db "a"] "cq" (pass (NewCqService only_now []))) !! "cq" = Some Time_zero.
Proof. vm_compute. reflexivity. Qed.

(** The time is stored before the query is executed: a query that fails is not
    tried again before its time has come. *)
Example failed_query_waits :
  let s := (run_queries at_half_past (hour 2 + 30 * Minute) [(cq_db "a", cq_on "a")] (cq_service [ExecError (OtherError "timeout")])).1 in
  s_lastRuns s !! "cq" = Some (at_half_past 0) ∧
  s_ran (run_queries at_half_past (hour 2 + 30 * Minute) [(cq_db "a", cq_on "a")] s).1 = s_ran s.
Proof. split; vm_compute; reflexivity. Qed.

(** When the times cannot be set the error is logged, and the query is executed
    for all times: here the name is empty, and is printed as nothing. *)
Definition dquotes : string := String "034" (String "034" EmptyString).
Definition unprintable_query : ContinuousQueryInfo :=
  mkContinuousQueryInfo "cq" ("CREATE CONTINUOUS QUERY cq ON a BEGIN SELECT count(value) INTO cpu_count FROM cpu WHERE " +:+ dquotes +:+
    " = 'a' GROUP BY time(1h) END").
Example executed_for_all_times :
  (λ call, TimeRange <$> Condition (call_Statement call)) <$>
    s_ran (ExecuteContinuousQuery at_half_past (cq_db "a") unprintable_query (hour 2 + 30 * Minute) (cq_service [])).1 =
  [Some (Time_zero, Time_zero)].
Proof. vm_compute. reflexivity. Qed.

(** Without runs per interval the first query that is looked at divides by zero. *)
Example no_runs_per_interval_panics :
  (ExecuteContinuousQuery at_half_past (cq_db "a") (cq_on "a") (hour 2) (NewCqService (mkCqConfig true true 2 Hour 0 Minute) [])).2 = Panic.
Proof. vm_compute. reflexivity. Qed.

(** The intervals of the default configuration: for eight minutes two earlier ones
    are run in the first two minutes, and for twenty minutes none is run after the
    first ten. *)
Example default_windows :
  length (expected_windows NewCqConfig (8 * Minute * 1000 + Minute) (8 * Minute)) = 3%nat ∧
  length (expected_windows NewCqConfig (8 * Minute * 1000 + 3 * Minute) (8 * Minute)) = 2%nat ∧
  length (expected_windows NewCqConfig (20 * Minute * 1000 + 15 * Minute) (20 * Minute)) = 1%nat.
Proof. split_and!; vm_compute; reflexivity. Qed.
